(* ===== verification/_CoqProject ===== *)
-Q . S2P
Prelude.v
SessionState.v
Masking.v
MaskingReader.v
CredentialRotation.v
StoreApi.v
EventBatcher.v
Json.v
Wire.v
JsonProofs.v
WireProofs.v
Printable.v
GoText.v
Sha256.v
EncryptedPacket.v
CodecPayloads.v
EncryptedRequests.v
Frames.v
FrameFields.v
Codec.v
CodecProofs.v
CodecRoundtrip.v
CodecSafety.v
CodecFingerprints.v
CodecScenarios.v
Sqlite.v
Attention.v
EventLog.v
AttentionSpec.v
Connections.v
Settings.v
FileReferences.v
Invariant.v
StoreSound.v
CommandLedger.v
AdapterDispatch.v
RunControl.v
SettingsProofs.v
FileReferencesProofs.v
Attachments.v
WorkspaceLease.v
AttachAttempts.v
Fencing.v
ProviderStart.v
AttentionPages.v
StoreOps.v
StoreProperties.v
LifecycleProperties.v
Scenarios.v
LifecycleScenarios.v
HubReplay.v
ClientDelivery.v
DeliveryProofs.v
DeliveryProperties.v
DeliveryProgress.v
DeliveryTheorems.v
DeliveryScenarios.v
Auth.v
AuthProofs.v
Handshake.v
HandshakeProofs.v
HandshakeTheorems.v
HandshakeScenarios.v
AesGcm.v
CredentialIssuer.v
CredentialIssuerProofs.v
IssuerScenarios.v
HubProgram.v
HubCommands.v
HubEvents.v
HubDelivery.v
HubScenarios.v
GoAny.v
Mapper.v
MapperProofs.v
MapperTools.v
MapperScenarios.v
