(* ===== verification/Prelude.v ===== *)
(** * AgentWharf: a verification library for the session gateway

    AgentWharf connects agent processes ("Adapters") and their clients through
    a Hub.  A Session is an append-only log of events; the Hub persists it in a
    Store, serialises publication, hands commands to the Adapter that holds the
    Session's current connection, and fences every earlier Adapter.  The parts
    modelled here, and how they call each other:

    - An Adapter keeps a Session state machine ([adapter/core/state.go]), a
      rotating credential and its hello state ([adapter/core/credential.go],
      [reconnect.go]), translates the lines of an ACP Provider to events
      ([adapter/acp/mapper.go]), and masks secrets in the streams it forwards
      ([masking/masking.go]).
    - Peers talk to the Hub in frames ([protocol/codec.go] and the files for
      encrypted requests beside it), JSON objects with strict rules.
    - A connection starts with a hello, which the Hub checks against the
      authenticator and the Session's admission ([hub/handshake.go],
      [auth/auth.go], [auth/static/static.go]); bearers of Adapters come from
      the credential issuer ([auth/session_credential_issuer.go]).
    - The Hub ([hub/websocket.go], [hub/connection_dispatch.go]) handles the
      commands of clients and the events of Adapters over the Store, orders
      writers per Session and batches events ([hub/event_batcher.go]), and
      sends each client the history and the live events of its subscriptions
      ([hub/bootstrap.go], [hub/encrypted_replay.go]).
    - The SQLite Store ([store/sqlite/store.go], [adapter_dispatch.go],
      [encrypted_event.go], [encrypted_command.go]) keeps the event log, the
      attention summaries projected from it, Adapter connections with their
      fences, the command ledger, event proposals, run controls, settings and
      file-reference requests, attach attempts, attachments, workspace leases
      and the admission of Provider starts.  Sealed events and commands are carriers
      ([protocol/encrypted_packet.go]) of which only a public projection is
      read.

    ** Files

    - [Prelude]: [int64] with its wrap-around ([i64]), times, errors, the state
      and error monad [SE] with the weakest-precondition calculus [wp] all
      Store proofs use, and the tactics [wp_steps] and [bool_hyps].
    - [SessionState], [Masking], [MaskingReader], [CredentialRotation]: the
      Adapter's parts, each a Module of the file's name with the source's
      functions under their names (a method named as a type carries a trailing
      underscore).
    - [StoreApi]: event types and the [EventStore] contract as a class with
      laws; [EventBatcher]: Modules [Gates] ([sessionPublicationGates]) and
      [Batcher] ([adapterEventBatcher]), step functions over the choices of the
      goroutines involved, proved against the class.
    - [Json], [Wire], [GoText], [Printable], [Sha256]: the parts of
      [encoding/json], [strings], [unicode] and [crypto/sha256] that the code
      uses, on bytes; [JsonProofs], [WireProofs]: parsing what was printed.
      [EncryptedPacket], [CodecPayloads], [EncryptedRequests]: the payloads;
      [Frames], [FrameFields]: the frame types with their JSON members;
      [Codec]: Decode and Encode.  Their theorems are in [CodecProofs],
      [CodecRoundtrip], [CodecSafety], [CodecFingerprints], [CodecScenarios].
    - [Sqlite]: the tables as maps of rows, the clock, transactions ([with_tx]:
      an error restores the database but not the fences, which live in a second
      file), CHECK, UNIQUE and FOREIGN KEY constraints ([check]), and frames
      ([keeps]).  [Attention], [EventLog], [Connections], [CommandLedger],
      [AdapterDispatch], [RunControl], [Settings], [FileReferences],
      [Attachments], [WorkspaceLease], [AttachAttempts], [ProviderStart],
      [AttentionPages]: the Store's operations, the last one with the
      migration of older databases and the check made when a database is
      opened.  A [bool] named [tx] says whether the operation runs inside a
      connection transaction ([connectionTx != nil]).
    - [AttentionSpec]: what a summary promises about the log.  [Invariant]: the
      invariant of the database, how it may evolve, and [sound], which every
      operation is shown to be in [StoreSound] and the component files, or
      for the larger ones [SettingsProofs] and [FileReferencesProofs] (hint
      database [sound]).  [Fencing]: what admissions, hellos and activations
      need and do.
    - [StoreOps]: operations as values, connection transactions with an
      arbitrary callback, and runs of them; [StoreProperties]: what holds of
      every run from a new database, for requests, attempts, starts and pages
      in [LifecycleProperties].  [Scenarios], [LifecycleScenarios]: complete
      runs evaluated by the kernel, and the concrete instances of the
      properties.
    - [HubReplay], [ClientDelivery]: one client connection, its replay,
      buffering and live fan-out, as a step function over the goroutines that
      reach it; [DeliveryProofs] to [DeliveryScenarios]: its theorems.
    - [Auth], [Handshake]: scopes, admissions, attach grants and the hello, the
      Store, the clock and the authenticator being an environment; [AuthProofs],
      [HandshakeProofs], [HandshakeTheorems], [HandshakeScenarios].
    - [AesGcm], [CredentialIssuer]: the cipher that seals bearers, and the
      issuer with its tables; [CredentialIssuerProofs], [IssuerScenarios].
    - [HubProgram]: the handler's memory, the effects of its goroutines (Store
      calls, memory, locks, writes, publication) as a free monad [prog], and the
      steps of a configuration of goroutines, in which the environment chooses
      the interleaving, the clock, failed and unconfirmed writes, crashes and
      other users of the Store.  [HubCommands], [HubEvents]: the handlers, each
      the program of the Go function of its name; [HubDelivery]: the accounting
      of deliveries against reservations of the Store; [HubScenarios]: runs.
    - [GoAny]: values of type [any] and the functions on runes and texts the
      mapper uses; [Mapper]: its state and every function, from a line to the
      events; [MapperProofs] (messages), [MapperTools] (calls of tools, diffs),
      [MapperScenarios].

    ** What the theorems show

    For every run of the Store: the invariant holds in every state; logs are
    append-only and dense; complete attention summaries agree with the log;
    issued fences strictly increase even across rollbacks; a superseded
    admission and a dead connection stay powerless; a command is committed and
    claimed at most once; a run control is finalized at most once, by who may,
    and its outcome is final; an attachment is updated once per version and a
    finished one is not reopened; a workspace lease keeps its owner until it is
    released; settings and file-reference requests are well-formed, at most one
    of a kind is open per Session, they only move forward and can always be
    ended; an attach attempt is immutable while it is valid; the Store can be
    opened again.  For single operations: a warm attach is all or nothing, a
    Provider starts only under live authority, a settings request ends only
    truthfully, summary pages are consecutive, the attention migration ends, an
    append is replayed as it was stored, history pages concatenate to the log, a
    hello advances epoch and fence.

    For the protocol: every frame within its conditions is decoded to itself
    after encoding; whatever bytes arrive, a decoded frame is within its bounds,
    carries no other members, and names no path outside its directory; equal
    fingerprints mean equal capabilities up to a collision of SHA-256.

    For the Hub: gates are exclusive and FIFO, batching loses and reorders
    nothing, and what is broadcast is what became durable; a client gets the
    events of its Session in order, once, without gaps, only of the permitted
    kinds, and catches up; an accepted peer is authorised for what it asked,
    never in a lower content mode, and an attach grant excludes all other use;
    an accepted bearer is current, and sealing is undone exactly by opening; a
    durable command reaches the Adapter at most once in every interleaving, also
    across crashes.

    For the Adapter: the state machine follows its graph, credential lineages
    only advance and a rotation completes, and no secret passes the masking
    writer whole, nor the reader, which delivers the same bytes.  The ACP mapper
    publishes a message in whole pieces within the budget, shrinks the events of
    tool calls below the limit, ends exactly the calls left open, and lets no
    directory of the host pass with a diff.

    Further theorems record where the code departs from its intent: the tail of
    a nested secret may leak; a sealed command cannot be retried; finalizing a
    run control does not project the Session state; a withdrawn bearer is
    accepted again when the table of retired ones overflows; outcomes stored by
    a hello are not published; a message with file references can be delivered
    twice or published under another event's number; the outcome of an
    undelivered run control can be published late; the mapper does not return
    for some messages and results with identifiers longer than the limit, and
    leaves a call open that is described after its result.

    ** Bounds and fuel

    Sequence numbers, epochs and fences are [Z] kept in [int64]: the code's
    additions go through [i64] and the invariant bounds the log's length and
    the allocator by [max_int64].  The masking loop takes the length of the data
    plus one as fuel and is shown never to run out; the JSON parser takes the
    length of its input.  [History] paging in the properties uses the latest
    sequence number plus one, and the loop of migration batches one batch per
    [limit] Sessions left.  Programs of the Hub are finite trees and need no
    fuel; the scenarios run them for at most 300 steps each, which all of them
    end within.  The loops of the mapper take fuel that the theorems bound: the
    length of a message for its pieces, 60000 steps for the events of a call
    (32 KiB of output, 24 KiB of diffs and eight files, one step each at most);
    a theorem that a loop does not end is stated for every fuel.

    ** Not modelled

    Opening, migrating and inspecting database files; the PostgreSQL Store;
    sockets, HTTP, processes and the command line; the supervisors of Adapter
    processes and the translation for Providers without ACP; at the Hub, the frames
    for history pages, attention subscriptions, credential rotation, Provider
    start, warm attach and target joins, the activity dispatcher and metrics.  A
    transaction is atomic and operations of one Store do not interleave, as
    SQLite's write lock gives (one connection is open at a time); driver and I/O
    failures are not represented, constraint violations are. *)

From stdpp Require Import base gmap strings list sorting numbers option.
From Stdlib Require Import ZArith Lia.

#[global] Open Scope Z_scope.

(** ** Machine integers

    Go's [int64] is modelled as [Z]; [i64] is the wrap-around the hardware
    performs on every addition or multiplication the source writes. *)

Definition two63 : Z := 9223372036854775808.
Definition max_int64 : Z := 9223372036854775807.

Definition i64 (z : Z) : Z := (z + two63) mod (2 * two63) - two63.

Definition in_i64 (z : Z) : bool := bool_decide (- two63 ≤ z ≤ max_int64).

Lemma i64_small z : - two63 ≤ z ≤ max_int64 → i64 z = z.
Proof. unfold i64, two63, max_int64. intros H. rewrite Z.mod_small; lia. Qed.

Lemma i64_range z : - two63 ≤ i64 z ≤ max_int64.
Proof.
  unfold i64, two63, max_int64.
  pose proof (Z.mod_pos_bound (z + 9223372036854775808) (2 * 9223372036854775808)).
  lia.
Qed.

Lemma i64_add a b : i64 (i64 a + b) = i64 (a + b).
Proof.
  unfold i64. replace ((a + two63) `mod` (2 * two63) - two63 + b + two63)
    with ((a + two63) `mod` (2 * two63) + b) by lia.
  rewrite Zplus_mod_idemp_l. f_equal. f_equal. lia.
Qed.

(** The only successor that wraps is the one of the largest value. *)
Lemma i64_succ_cases z :
  - two63 ≤ z ≤ max_int64 →
  (z < max_int64 ∧ i64 (z + 1) = z + 1) ∨ (z = max_int64 ∧ i64 (z + 1) = - two63).
Proof.
  unfold two63, max_int64. intros H.
  destruct (decide (z < 9223372036854775807)).
  - left. split; [done|]. apply i64_small. unfold two63, max_int64. lia.
  - right. assert (z = 9223372036854775807) as -> by lia. split; reflexivity.
Qed.

(** ** Time

    [time.Time] is an instant in nanoseconds since the Unix epoch;
    [UnixMilli] rounds towards minus infinity as Go does, and the zero
    [time.Time] is 1 January of year 1. *)

Definition time := Z.
Definition zero_time : time := - 62135596800 * 1000000000.
Definition IsZero (t : time) : bool := bool_decide (t = zero_time).
Definition UnixMilli (t : time) : Z := t / 1000000.
Definition of_UnixMilli (ms : Z) : time := ms * 1000000.
Definition UnixNano (t : time) : Z := i64 t.
(** [t.After(u)] *)
Definition After (t u : time) : bool := bool_decide (u < t).

Lemma UnixMilli_of ms : UnixMilli (of_UnixMilli ms) = ms.
Proof. unfold UnixMilli, of_UnixMilli. apply Z.div_mul. lia. Qed.

(** ** Strings: Go strings are byte strings, [len] counts bytes. *)

Definition len (s : string) : Z := Z.of_nat (String.length s).

Lemma len_nonneg s : 0 ≤ len s.
Proof. unfold len. lia. Qed.

(** ** Errors

    An error value is either a sentinel the code compares with [errors.Is]
    or a message; [%w] wrapping keeps the wrapped error reachable. *)

Inductive error :=
  | ErrNoRows
  | ErrConstraint (what : string)
  | Err (msg : string)
  | Wrap (msg : string) (inner : error).

Fixpoint is_no_rows (e : error) : bool :=
  match e with
  | ErrNoRows => true
  | Wrap _ e => is_no_rows e
  | _ => false
  end.

#[global] Instance error_eq_dec : EqDecision error.
Proof. solve_decision. Defined.

(** [(T, error)] returns: a value or an error. *)
Definition res (A : Type) : Type := error + A.

(** ** Stateful, fallible code

    A method that mutates an object and may return an error is a function
    from the object to the object after the call and the Go result.  What the
    call did before it failed stays visible unless the code undoes it. *)

Definition SE (S E A : Type) : Type := S → S * (E + A).

#[global] Instance SE_ret {S E} : MRet (SE S E) := λ A a s, (s, inr a).
#[global] Instance SE_bind {S E} : MBind (SE S E) := λ A B k m s,
  match m s with
  | (s', inl e) => (s', inl e)
  | (s', inr a) => k a s'
  end.

Section SE_ops.
Context {S E : Type}.

Definition throw {A} (e : E) : SE S E A := λ s, (s, inl e).
Definition get : SE S E S := λ s, (s, inr s).
Definition gets {A} (f : S → A) : SE S E A := λ s, (s, inr (f s)).
Definition modify (f : S → S) : SE S E unit := λ s, (f s, inr tt).
(** [if cond { return err }] *)
Definition fail_if (b : bool) (e : E) : SE S E unit := if b then throw e else mret tt.
Definition lift {A} (r : E + A) : SE S E A := λ s, (s, r).
(** [fmt.Errorf("...: %w", err)] around a call *)
Definition on_error {A} (f : E → E) (m : SE S E A) : SE S E A := λ s,
  match m s with
  | (s', inl e) => (s', inl (f e))
  | (s', inr a) => (s', inr a)
  end.
(** the error as a value, for code that inspects it *)
Definition try_ {A} (m : SE S E A) : SE S E (E + A) := λ s,
  let '(s', r) := m s in (s', inr r).
End SE_ops.

(** A run by its result. *)
Lemma run_eq {S E A} (m : SE S E A) s r : (m s).2 = r → m s = ((m s).1, r).
Proof. destruct (m s). simpl. by intros ->. Qed.

(** Sequencing over a list, as a [for range] loop with early return. *)
Fixpoint for_each {S E A} (l : list A) (body : A → SE S E unit) : SE S E unit :=
  match l with
  | [] => mret tt
  | a :: l => body a ≫= λ _, for_each l body
  end.

(** ** Weakest preconditions

    [wp m Q X s]: run from [s], the call either returns [a] in a state
    satisfying [Q a], or an error [e] in a state satisfying [X e]. *)

Definition wp {S E A} (m : SE S E A) (Q : A → S → Prop) (X : E → S → Prop) (s : S) : Prop :=
  match m s with
  | (s', inl e) => X e s'
  | (s', inr a) => Q a s'
  end.

Section wp.
Context {S E : Type}.
Implicit Types (s : S) (X : E → S → Prop).

Lemma wp_elim {A} (m : SE S E A) Q X s s' r :
  wp m Q X s → m s = (s', r) → match r with inl e => X e s' | inr a => Q a s' end.
Proof. unfold wp. intros H Hm. rewrite Hm in H. by destruct r. Qed.

Lemma wp_mono {A} (m : SE S E A) (Q Q' : A → S → Prop) X X' s :
  wp m Q X s → (∀ a s', Q a s' → Q' a s') → (∀ e s', X e s' → X' e s') → wp m Q' X' s.
Proof. unfold wp. destruct (m s) as [s' [e|a]]; auto. Qed.

Lemma wp_ret {A} (a : A) Q X s : wp (mret a : SE S E A) Q X s ↔ Q a s.
Proof. done. Qed.

Lemma wp_bind {A B} (m : SE S E A) (k : A → SE S E B) Q X s :
  wp (m ≫= k) Q X s ↔ wp m (λ a s', wp (k a) Q X s') X s.
Proof. unfold wp, mbind, SE_bind. by destruct (m s) as [s' [e|a]]. Qed.

Lemma wp_throw {A} (e : E) (Q : A → S → Prop) X s : wp (throw e) Q X s ↔ X e s.
Proof. done. Qed.

Lemma wp_get Q X s : wp (get : SE S E S) Q X s ↔ Q s s.
Proof. done. Qed.

Lemma wp_gets {A} (f : S → A) Q X s : wp (gets f : SE S E A) Q X s ↔ Q (f s) s.
Proof. done. Qed.

Lemma wp_modify f Q X s : wp (modify f : SE S E unit) Q X s ↔ Q tt (f s).
Proof. done. Qed.

Lemma wp_fail_if b (e : E) Q X s :
  wp (fail_if b e) Q X s ↔ (b = true → X e s) ∧ (b = false → Q tt s).
Proof. destruct b; unfold wp; simpl; naive_solver. Qed.

Lemma wp_lift {A} (r : E + A) Q X s :
  wp (lift r) Q X s ↔ match r with inl e => X e s | inr a => Q a s end.
Proof. by destruct r. Qed.

Lemma wp_on_error {A} f (m : SE S E A) Q X s :
  wp (on_error f m) Q X s ↔ wp m Q (λ e, X (f e)) s.
Proof. unfold wp, on_error. by destruct (m s) as [s' [e|a]]. Qed.

Lemma wp_try {A} (m : SE S E A) Q X s :
  wp (try_ m) Q X s ↔ wp m (λ a, Q (inr a)) (λ e, Q (inl e)) s.
Proof. unfold wp, try_. by destruct (m s) as [s' [e|a]]. Qed.

Lemma wp_for_each {A} (l : list A) (body : A → SE S E unit) (I : list A → S → Prop) X s :
  I [] s →
  (∀ done a rest s, l = done ++ a :: rest → I done s →
     wp (body a) (λ _, I (done ++ [a])) X s) →
  wp (for_each l body) (λ _, I l) X s.
Proof.
  intros H0 Hstep. assert (∀ rest done s, l = done ++ rest → I done s →
    wp (for_each rest body) (λ _, I l) X s) as Hgen; [|by apply (Hgen l [])].
  induction rest as [|a rest IH]; intros done s' Hl Hi; simpl.
  - rewrite wp_ret. by rewrite Hl, app_nil_r.
  - rewrite wp_bind. eapply wp_mono; [by eapply Hstep| |done].
    intros [] s'' Hi'. apply (IH (done ++ [a])); [|done]. by rewrite Hl, <-(assoc_L (++)).
Qed.
End wp.

(** ** Automation

    [wp_step] rewrites the head of a [wp] goal with its rule and splits the
    branches; [wp_steps] repeats it. *)

Create HintDb wharf discriminated.

Ltac wp_step :=
  lazymatch goal with
  | |- wp (mbind _ _) _ _ _ => rewrite wp_bind
  | |- wp (mret _) _ _ _ => rewrite wp_ret
  | |- wp (throw _) _ _ _ => rewrite wp_throw
  | |- wp get _ _ _ => rewrite wp_get
  | |- wp (gets _) _ _ _ => rewrite wp_gets
  | |- wp (modify _) _ _ _ => rewrite wp_modify
  | |- wp (fail_if _ _) _ _ _ => rewrite wp_fail_if; split; intros ?
  | |- wp (lift ?r) _ _ _ => rewrite wp_lift; let E := fresh "E" in destruct r eqn:E
  | |- wp (on_error _ _) _ _ _ => rewrite wp_on_error
  | |- wp (try_ _) _ _ _ => rewrite wp_try
  | |- wp (if ?b then _ else _) _ _ _ => let E := fresh "E" in destruct b eqn:E
  | |- wp (match ?x with _ => _ end) _ _ _ => let E := fresh "E" in destruct x eqn:E
  | |- wp (let '(_, _) := ?x in _) _ _ _ => let E := fresh "E" in destruct x eqn:E
  end; cbv beta iota.

Ltac wp_steps := repeat wp_step.

(** Boolean guards of the source as propositions. *)
Ltac bool_hyps :=
  repeat match goal with
  | H : negb _ = true |- _ => apply negb_true_iff in H
  | H : negb _ = false |- _ => apply negb_false_iff in H
  | H : _ && _ = true |- _ => apply andb_true_iff in H as [? ?]
  | H : _ || _ = false |- _ => apply orb_false_iff in H as [? ?]
  | H : bool_decide _ = true |- _ => apply bool_decide_eq_true in H
  | H : bool_decide _ = false |- _ => apply bool_decide_eq_false in H
  end.
