(* ===== verification/SessionState.v ===== *)
(** * The Session state machine of the Adapter

    [adapter/core/state.go]: the seven Session states, the legal transitions
    between them, and the [StateMachine] object whose methods the Adapter
    calls.  A state is a Go string, so every definition is total on strings
    and the validity checks of the source are part of the model.  A
    [*StateMachine] is an [option]: [None] is the nil pointer, which the
    methods test for. *)

From S2P Require Import Prelude.
From stdpp Require Import base strings list relations.

Module SessionState.

Definition SessionState := string.
Definition StateStarting : SessionState := "starting".
Definition StateReady : SessionState := "ready".
Definition StateBusy : SessionState := "busy".
Definition StateWaitingPermission : SessionState := "waiting_permission".
Definition StateRecovering : SessionState := "recovering".
Definition StateEnded : SessionState := "ended".
Definition StateError : SessionState := "error".

Definition EndReason := string.
Definition EndReasonUserStop : EndReason := "user_stop".
Definition EndReasonProviderExit : EndReason := "provider_exit".
Definition EndReasonCrash : EndReason := "crash".
Definition EndReasonTimeout : EndReason := "timeout".

(** The sentinel errors; the formatted text around them is not modelled. *)
Inductive state_error :=
  | ErrInvalidState
  | ErrInvalidReason
  | ErrInvalidTransition
  | ErrTerminalState.

Record Transition := mkTransition {
  From : SessionState;
  To : SessionState;
  Reason : string;
}.

Definition Transition_Terminal (t : Transition) : bool :=
  bool_decide (To t = StateEnded) || bool_decide (To t = StateError).

Definition validState (state : SessionState) : bool :=
  bool_decide (state ∈ [StateStarting; StateReady; StateBusy;
    StateWaitingPermission; StateRecovering; StateEnded; StateError]).

Definition terminalState (state : SessionState) : bool :=
  bool_decide (state = StateEnded) || bool_decide (state = StateError).

Definition legalTransition (from to : SessionState) : bool :=
  if bool_decide (from = StateStarting) then bool_decide (to = StateReady)
  else if bool_decide (from = StateReady) then
    bool_decide (to = StateBusy) || bool_decide (to = StateRecovering)
  else if bool_decide (from = StateBusy) then
    bool_decide (to = StateReady) || bool_decide (to = StateWaitingPermission)
      || bool_decide (to = StateRecovering)
  else if bool_decide (from = StateWaitingPermission) then
    bool_decide (to = StateBusy) || bool_decide (to = StateReady)
  else if bool_decide (from = StateRecovering) then bool_decide (to = StateReady)
  else false.

Definition validEndReason (reason : EndReason) : bool :=
  bool_decide (reason ∈ [EndReasonUserStop; EndReasonProviderExit;
    EndReasonCrash; EndReasonTimeout]).

Record StateMachine := mkMachine { state : SessionState }.

Definition NewStateMachine (initial : SessionState) : state_error + StateMachine :=
  if negb (validState initial) then inl ErrInvalidState
  else if terminalState initial then inl ErrTerminalState
  else inr (mkMachine initial).

Definition State (m : option StateMachine) : SessionState :=
  match m with None => "" | Some m => state m end.

Definition apply (m : StateMachine) (to : SessionState) (reason : string)
  : StateMachine * Transition :=
  (mkMachine to, mkTransition (state m) to reason).

(** Every method returns the machine after the call and the Go result. *)
Definition Transition_ (m : option StateMachine) (to : SessionState) (reason : string)
  : option StateMachine * (state_error + Transition) :=
  match m with
  | None => (m, inl ErrInvalidState)
  | Some sm =>
      if negb (validState (state sm)) then (m, inl ErrInvalidState)
      else if terminalState (state sm) then (m, inl ErrTerminalState)
      else if negb (validState to) then (m, inl ErrInvalidState)
      else if bool_decide (to = StateEnded) || bool_decide (to = StateError) then
        if bool_decide (reason = "") then (m, inl ErrInvalidReason)
        else let '(sm', t) := apply sm to reason in (Some sm', inr t)
      else if negb (legalTransition (state sm) to) then (m, inl ErrInvalidTransition)
      else let '(sm', t) := apply sm to reason in (Some sm', inr t)
  end.

Definition End_ (m : option StateMachine) (reason : EndReason)
  : option StateMachine * (state_error + Transition) :=
  if negb (validEndReason reason) then (m, inl ErrInvalidReason)
  else Transition_ m StateEnded reason.

Definition Error (m : option StateMachine) (reason : string)
  : option StateMachine * (state_error + Transition) :=
  if bool_decide (reason = "") then (m, inl ErrInvalidReason)
  else Transition_ m StateError reason.

(** ** The calls a client can make, as one labelled step *)

Inductive call :=
  | CallTransition (to : SessionState) (reason : string)
  | CallEnd (reason : EndReason)
  | CallError (reason : string).

Definition exec (c : call) (m : option StateMachine)
  : option StateMachine * (state_error + Transition) :=
  match c with
  | CallTransition to reason => Transition_ m to reason
  | CallEnd reason => End_ m reason
  | CallError reason => Error m reason
  end.

(** A machine history: the transitions the calls returned, in order. *)
Fixpoint run (cs : list call) (m : option StateMachine)
  : option StateMachine * list Transition :=
  match cs with
  | [] => (m, [])
  | c :: cs =>
      let '(m', r) := exec c m in
      let '(m'', ts) := run cs m' in
      (m'', match r with inr t => t :: ts | inl _ => ts end)
  end.

(** ** The abstract machine: a graph on states *)

Inductive edge : SessionState → SessionState → Prop :=
  | edge_start : edge StateStarting StateReady
  | edge_work : edge StateReady StateBusy
  | edge_drop : edge StateReady StateRecovering
  | edge_done : edge StateBusy StateReady
  | edge_ask : edge StateBusy StateWaitingPermission
  | edge_busy_drop : edge StateBusy StateRecovering
  | edge_answer : edge StateWaitingPermission StateBusy
  | edge_cancel : edge StateWaitingPermission StateReady
  | edge_back : edge StateRecovering StateReady
  | edge_stop from to :
      validState from = true → terminalState from = false →
      terminalState to = true → edge from to.

Definition t_edge (t : Transition) : Prop :=
  edge (From t) (To t) ∧ (terminalState (To t) = true → Reason t ≠ "").

(** Consecutive transitions of a history meet, and the last one leads to the
    final state. *)
Fixpoint chained (from : SessionState) (ts : list Transition) (last : SessionState) : Prop :=
  match ts with
  | [] => from = last
  | t :: ts => From t = from ∧ chained (To t) ts last
  end.

(** ** Lemmas *)

Lemma terminal_valid s : terminalState s = true → validState s = true.
Proof.
  unfold terminalState, validState. rewrite orb_true_iff, !bool_decide_eq_true.
  set_solver.
Qed.

Lemma legalTransition_edge from to :
  legalTransition from to = true → edge from to ∧ terminalState to = false ∧ validState to = true.
Proof.
  unfold legalTransition.
  repeat case_bool_decide; subst; simpl; intros ?; try done;
    (split; [constructor | split; reflexivity]).
Qed.

Lemma edge_legal from to :
  edge from to → terminalState to = false → legalTransition from to = true.
Proof. destruct 1; [reflexivity..|congruence]. Qed.

Lemma edge_source from to :
  edge from to → validState from = true ∧ terminalState from = false.
Proof. intros He. destruct He; try (split; reflexivity); auto. Qed.

Lemma edge_target from to : edge from to → validState to = true.
Proof. intros He. destruct He; try reflexivity. by apply terminal_valid. Qed.

(** What one call does, in both directions: it succeeds exactly on an edge
    with a reason where one is required, moves to the target and reports the
    edge; otherwise nothing changes. *)
Lemma Transition_ok sm to reason m' t :
  Transition_ (Some sm) to reason = (m', inr t) →
  m' = Some (mkMachine to) ∧ t = mkTransition (state sm) to reason ∧ t_edge t.
Proof.
  unfold Transition_, t_edge. simpl.
  destruct (validState (state sm)) eqn:Hv; [|done].
  destruct (terminalState (state sm)) eqn:Hterm; [done|].
  destruct (validState to) eqn:Hto; [|done]. simpl.
  fold (terminalState to). destruct (terminalState to) eqn:Htt; simpl.
  - case_bool_decide; [done|]. intros [= <- <-]. simpl. split_and!; auto.
    by apply edge_stop.
  - destruct (legalTransition (state sm) to) eqn:Hl; simpl; [|done].
    intros [= <- <-]. simpl. split_and!; auto; [|congruence].
    by apply legalTransition_edge.
Qed.

Lemma Transition_err m to reason m' e : Transition_ m to reason = (m', inl e) → m' = m.
Proof.
  unfold Transition_. destruct m as [sm|]; [|by intros [= <- _]].
  repeat case_match; simpl in *; naive_solver.
Qed.

Lemma Transition_complete sm to reason :
  edge (state sm) to → (terminalState to = true → reason ≠ "") →
  Transition_ (Some sm) to reason
    = (Some (mkMachine to), inr (mkTransition (state sm) to reason)).
Proof.
  intros He Hr. unfold Transition_. destruct (edge_source _ _ He) as [-> ->].
  rewrite (edge_target _ _ He). simpl. fold (terminalState to).
  destruct (terminalState to) eqn:Ht.
  - rewrite bool_decide_false by auto. done.
  - by rewrite (edge_legal _ _ He Ht).
Qed.

Lemma exec_ok c m m' t :
  exec c m = (m', inr t) →
  ∃ sm, m = Some sm ∧ m' = Some (mkMachine (To t)) ∧ From t = state sm ∧ t_edge t.
Proof.
  intros H. destruct m as [sm|].
  - exists sm. split; [done|].
    assert (∃ to reason, Transition_ (Some sm) to reason = (m', inr t)) as (to & r & HT).
    { destruct c; cbn [exec] in H; unfold End_, Error in H;
        [| case_match; [done|] ..]; eauto. }
    apply Transition_ok in HT as (-> & -> & ?). done.
  - destruct c; simpl in H; unfold End_, Error, Transition_ in H;
      repeat case_match; simplify_eq.
Qed.

Lemma exec_err c m m' e : exec c m = (m', inl e) → m' = m.
Proof.
  destruct c; cbn [exec]; unfold End_, Error; [| case_match ..]; intros; simplify_eq;
    eauto using Transition_err.
Qed.

Lemma run_chained cs sm :
  ∃ sm', fst (run cs (Some sm)) = Some sm' ∧
    chained (state sm) (snd (run cs (Some sm))) (state sm') ∧
    Forall t_edge (snd (run cs (Some sm))).
Proof.
  revert sm. induction cs as [|c cs IH]; intros sm; simpl.
  { exists sm. simpl. auto using Forall_nil_2. }
  destruct (exec c (Some sm)) as [m' [e|t]] eqn:Hx.
  - apply exec_err in Hx as ->. destruct (IH sm) as (sm' & ? & ? & ?).
    destruct (run cs (Some sm)) as [m'' ts]; simpl in *. eauto.
  - apply exec_ok in Hx as (? & [= <-] & -> & Hf & Ht).
    destruct (IH (mkMachine (To t))) as (sm' & ? & ? & ?).
    destruct (run cs (Some (mkMachine (To t)))) as [m'' ts]; simpl in *.
    exists sm'. simpl. auto.
Qed.

Lemma chained_valid from ts last :
  validState from = true → Forall t_edge ts → chained from ts last → validState last = true.
Proof.
  revert from. induction ts as [|t ts IH]; simpl; [by intros ? ? _ <-|].
  intros from Hv [[He _] Hts]%Forall_cons [Hf Hc].
  eauto using edge_target.
Qed.

(** From a terminal state no call succeeds. *)
Lemma run_terminal cs sm :
  terminalState (state sm) = true → run cs (Some sm) = (Some sm, []).
Proof.
  intros Ht. induction cs as [|c cs IH]; simpl; [done|].
  destruct (exec c (Some sm)) as [m' [e|t]] eqn:Hx.
  - apply exec_err in Hx as ->. by rewrite IH.
  - apply exec_ok in Hx as (? & [= <-] & _ & Hf & [He _]).
    rewrite Hf in He. apply edge_source in He as [_ He]. congruence.
Qed.

(** ** Properties *)

(** one call of the machine succeeds exactly when the target is
    an edge of the documented graph and a terminal target carries a reason;
    the call then moves to the target and reports the edge it took, and a
    refused call leaves the machine as it was. *)
Theorem transition_exact (sm : StateMachine) (to : SessionState) (reason : string) :
  (∀ m' t, Transition_ (Some sm) to reason = (m', inr t) ↔
     edge (state sm) to ∧ (terminalState to = true → reason ≠ "") ∧
     m' = Some (mkMachine to) ∧ t = mkTransition (state sm) to reason) ∧
  (∀ m' e, Transition_ (Some sm) to reason = (m', inl e) → m' = Some sm).
Proof.
  split; [|intros; by eapply Transition_err].
  intros m' t. split.
  - intros H. apply Transition_ok in H as (-> & -> & [? ?]). done.
  - intros (He & Hr & -> & ->). by apply Transition_complete.
Qed.

(** a machine created by [NewStateMachine] and driven by any
    sequence of calls stays on a valid state, its successful calls form a path
    of the graph from the initial to the current state, and once that path
    reaches a terminal state every later call is refused and changes nothing. *)
Theorem machine_history (initial : SessionState) (sm : StateMachine) (cs cs' : list call) :
  NewStateMachine initial = inr sm →
  ∃ sm', fst (run cs (Some sm)) = Some sm' ∧
    validState (state sm') = true ∧
    chained initial (snd (run cs (Some sm))) (state sm') ∧
    Forall t_edge (snd (run cs (Some sm))) ∧
    (terminalState (state sm') = true → run cs' (Some sm') = (Some sm', [])).
Proof.
  unfold NewStateMachine. destruct (validState initial) eqn:Hv; [|done]. simpl.
  destruct (terminalState initial); [done|]. intros [= <-].
  destruct (run_chained cs (mkMachine initial)) as (sm' & H1 & H2 & H3).
  exists sm'. split_and!; eauto using run_terminal, chained_valid.
Qed.

Lemma machine_history_witness :
  ∃ sm', fst (run [CallTransition StateReady ""; CallEnd EndReasonCrash]
               (Some (mkMachine StateStarting))) = Some sm' ∧
    validState (state sm') = true.
Proof.
  destruct (machine_history StateStarting (mkMachine StateStarting)
    [CallTransition StateReady ""; CallEnd EndReasonCrash] [CallError "late"]) as (sm' & H1 & H2 & _).
  - vm_compute. reflexivity.
  - exists sm'. split; [exact H1 | exact H2].
Defined.

End SessionState.
