(* ===== verification/Masking.v ===== *)
(** * Secret masking

    [masking/masking.go]: the [Masker] built from a list of secrets, the
    whole-string [MaskString], and the streaming mask that [Writer] and
    [Reader] share ([maskStreamChunk]), which holds back a tail so that a
    secret split over two chunks is still found.  Byte slices and Go strings
    are lists of 8-bit characters; the [-1, ""] result of a failed search is
    [None]. *)

From S2P Require Import Prelude.
From Stdlib Require Import Strings.Ascii.
From stdpp Require Import base strings list sets.
#[local] Open Scope nat_scope.

Module Masking.

Abbreviation bytes := (list ascii) (only parsing).
Definition of_str (s : string) : bytes := String.list_ascii_of_string s.

Definition DefaultReplacement : bytes := of_str "[MASKED]".
Definition MinSecretLength : nat := 4.

Record Masker := mkMasker {
  secrets : list bytes;
  replacement : bytes;
  keepTail : nat;
}.

(** The loop of [NewWithReplacement]: short secrets and repetitions are
    dropped, [maxLen] is the longest one kept. *)
Fixpoint filterSecrets (l : list bytes) (seen : list bytes) (maxLen : nat)
  : list bytes * nat :=
  match l with
  | [] => ([], maxLen)
  | secret :: l =>
      if decide (length secret < MinSecretLength) then filterSecrets l seen maxLen
      else if decide (secret ∈ seen) then filterSecrets l seen maxLen
      else
        let maxLen' := if decide (maxLen < length secret) then length secret else maxLen in
        let '(filtered, m) := filterSecrets l (secret :: seen) maxLen' in
        (secret :: filtered, m)
  end.

Definition NewWithReplacement (secrets : list bytes) (replacement : bytes) : Masker :=
  let replacement := if decide (replacement = []) then DefaultReplacement else replacement in
  let '(filtered, maxLen) := filterSecrets secrets [] 0 in
  let keepTail := if decide (1 < maxLen) then maxLen - 1 else 0 in
  mkMasker filtered replacement keepTail.

Definition New (secrets : list bytes) : Masker := NewWithReplacement secrets DefaultReplacement.

(** [strings.Index] *)
Fixpoint index (text sub : bytes) : option nat :=
  if decide (sub `prefix_of` text) then Some 0
  else match text with
       | [] => None
       | _ :: text => S <$> index text sub
       end.

(** [strings.ReplaceAll] for a non-empty [old]: the matches are taken from
    left to right and do not overlap; [skip] counts the bytes of the current
    match that are still to be dropped. *)
Fixpoint replaceAll (skip : nat) (text old new : bytes) : bytes :=
  match text with
  | [] => []
  | c :: rest =>
      match skip with
      | S skip => replaceAll skip rest old new
      | O => if decide (old `prefix_of` text)
             then new ++ replaceAll (length old - 1) rest old new
             else c :: replaceAll 0 rest old new
      end
  end.

Definition MaskString (m : Masker) (text : bytes) : bytes :=
  if decide (secrets m = [] ∨ text = []) then text
  else foldl (λ text secret, replaceAll 0 text secret (replacement m)) text (secrets m).

(** The loop of [nextMatch]: the leftmost match, the longest at that place. *)
Definition betterMatch (data : bytes) (best : option (nat * bytes)) (secret : bytes)
  : option (nat * bytes) :=
  match index data secret with
  | None => best
  | Some idx =>
      match best with
      | None => Some (idx, secret)
      | Some (bestIndex, bestSecret) =>
          if decide (idx < bestIndex ∨ idx = bestIndex ∧ length bestSecret < length secret)
          then Some (idx, secret) else best
      end
  end.

Definition nextMatch (m : Masker) (data : bytes) : option (nat * bytes) :=
  foldl (betterMatch data) None (secrets m).

(** The [for len(data) > 0] loop of [maskStreamChunk]; [None] is a loop that
    has not finished within [fuel] iterations.  The result is the output and
    the data that becomes the new [pending]. *)
Fixpoint maskLoop (m : Masker) (flush : bool) (fuel : nat) (data out : bytes)
  : option (bytes * bytes) :=
  match data with
  | [] => Some (out, [])
  | _ =>
      match fuel with
      | O => None
      | S fuel =>
          match nextMatch m data with
          | Some (idx, secret) =>
              maskLoop m flush fuel (drop (idx + length secret) data)
                (out ++ take idx data ++ replacement m)
          | None =>
              if flush then Some (out ++ data, [])
              else
                let keep := if decide (length data < keepTail m) then length data else keepTail m in
                let safeLen := length data - keep in
                Some (out ++ take safeLen data, drop safeLen data)
          end
      end
  end.

Definition maskStreamChunk (m : Masker) (pending chunk : bytes) (flush : bool)
  : option (bytes * bytes) :=
  if decide (secrets m = []) then Some (pending ++ chunk, [])
  else maskLoop m flush (length (pending ++ chunk)) (pending ++ chunk) [].

(** ** [Writer]

    The wrapped [io.Writer] is not part of the package: its behaviour is the
    parameter [write], which consumes a slice and may fail; whether it is an
    [io.Closer] and what closing it returns is [close]. *)

Section writer.
Context {S : Type} (write : S → bytes → S * option error)
        (close : option (S → S * option error)).

Record Writer := mkWriter {
  writer : S;
  w_masker : Masker;
  w_pending : bytes;
  closed : bool;
}.

Definition ErrClosedPipe : error := Err "io: read/write on closed pipe".

(** [None] is the diverging case of the chunk loop, excluded below. *)
Definition Write (w : Writer) (p : bytes) : option (Writer * (error + nat)) :=
  if closed w then Some (w, inl ErrClosedPipe)
  else
    '(masked, pending') ← maskStreamChunk (w_masker w) (w_pending w) p false;
    let w' := mkWriter (writer w) (w_masker w) pending' false in
    if decide (0 < length masked) then
      match write (writer w) masked with
      | (s', Some err) => Some (mkWriter s' (w_masker w) pending' false, inl err)
      | (s', None) => Some (mkWriter s' (w_masker w) pending' false, inr (length p))
      end
    else Some (w', inr (length p)).

Definition closeInner (w : Writer) : Writer * option error :=
  match close with
  | None => (w, None)
  | Some c => let '(s', e) := c (writer w) in
              (mkWriter s' (w_masker w) (w_pending w) (closed w), e)
  end.

Definition Close (w : Writer) : option (Writer * option error) :=
  if closed w then Some (w, None)
  else
    '(masked, pending') ← maskStreamChunk (w_masker w) (w_pending w) [] true;
    let w' := mkWriter (writer w) (w_masker w) pending' true in
    if decide (0 < length masked) then
      match write (writer w) masked with
      | (s', Some err) => Some (mkWriter s' (w_masker w) pending' true, Some err)
      | (s', None) => Some (closeInner (mkWriter s' (w_masker w) pending' true))
      end
    else Some (closeInner w').
End writer.
Arguments Writer : clear implicits.
Arguments mkWriter {_} _ _ _ _.
Arguments writer {_} _.
Arguments w_masker {_} _.
Arguments w_pending {_} _.
Arguments closed {_} _.

Definition NewWriter {S} (sink : S) (secrets : list bytes) : Writer S :=
  mkWriter sink (New secrets) [] false.

(** ** Occurrences *)

Definition occurs (sub text : bytes) (i : nat) : Prop :=
  ∃ l r, text = l ++ sub ++ r ∧ length l = i.

(** Some secret of [ss] occurs in [text]. *)
Definition has_secret (ss : list bytes) (text : bytes) : Prop :=
  ∃ s i, s ∈ ss ∧ occurs s text i.

Lemma occurs_0 sub text : occurs sub text 0 ↔ sub `prefix_of` text.
Proof.
  split.
  - intros ([|] & r & -> & [=]). by exists r.
  - intros [r ->]. by exists [], r.
Qed.

Lemma occurs_cons sub c text i : occurs sub (c :: text) (S i) ↔ occurs sub text i.
Proof.
  split.
  - intros ([|c' l] & r & E & [= <-]); simplify_eq/=. by exists l, r.
  - intros (l & r & -> & <-). by exists (c :: l), r.
Qed.

Lemma occurs_bound sub text i : occurs sub text i → i + length sub ≤ length text.
Proof. intros (l & r & -> & <-). rewrite !length_app. lia. Qed.

Lemma occurs_app_r sub text rest i : occurs sub text i → occurs sub (text ++ rest) i.
Proof. intros (l & r & -> & <-). exists l, (r ++ rest). by rewrite <-!(assoc_L (++)). Qed.

Lemma occurs_app_l sub pre text i : occurs sub text i → occurs sub (pre ++ text) (length pre + i).
Proof.
  intros (l & r & -> & <-). exists (pre ++ l), r. rewrite length_app.
  by rewrite <-!(assoc_L (++)).
Qed.

(** An occurrence that ends inside the left part lies in the left part. *)
Lemma occurs_app_inv_l sub text rest i :
  occurs sub (text ++ rest) i → i + length sub ≤ length text → occurs sub text i.
Proof.
  intros (l & r & E & <-) Hle.
  assert (text = take (length text) (l ++ sub ++ r)) as Et.
  { by rewrite <-E, take_app_length. }
  rewrite Et. exists l, (take (length text - length l - length sub) r).
  split; [|done].
  rewrite take_app, take_app. f_equal.
  - apply take_ge. lia.
  - f_equal. apply take_ge. lia.
Qed.

(** An occurrence that starts inside the right part lies in the right part. *)
Lemma occurs_app_inv_r sub pre text i :
  occurs sub (pre ++ text) (length pre + i) → occurs sub text i.
Proof.
  intros (l & r & E & Hl). exists (drop (length pre) l), r.
  rewrite length_drop, Hl. split; [|lia].
  assert (text = drop (length pre) (l ++ sub ++ r)) as ->.
  { by rewrite <-E, drop_app_length. }
  rewrite drop_app_le by lia. done.
Qed.

Lemma occurs_same_length s t text i :
  occurs s text i → occurs t text i → length s = length t → s = t.
Proof.
  intros (l & r & -> & Hl) (l' & r' & E & Hl') Hlen.
  assert (l = l') as <- by (eapply app_inj_1 in E as [? _]; [done|congruence]).
  apply app_inv_head in E. by apply app_inj_1 in E as [? _].
Qed.

Lemma index_spec text sub :
  match index text sub with
  | Some i => occurs sub text i ∧ ∀ j, occurs sub text j → i ≤ j
  | None => ∀ j, ¬ occurs sub text j
  end.
Proof.
  induction text as [|c text IH]; simpl; case_decide as Hp.
  - split; [by apply occurs_0|lia].
  - intros [|j] Ho; [by apply occurs_0 in Ho|].
    apply occurs_bound in Ho. simpl in Ho. lia.
  - split; [by apply occurs_0|lia].
  - destruct (index text sub) as [i|]; simpl.
    + destruct IH as [Ho Hmin]. split; [by apply occurs_cons|].
      intros [|j] Hj; [by apply occurs_0 in Hj|]. apply occurs_cons, Hmin in Hj. lia.
    + intros [|j] Hj; [by apply occurs_0 in Hj|]. by apply occurs_cons, IH in Hj.
Qed.

(** ** The leftmost-longest specification of [nextMatch] *)

Definition best_match (data : bytes) (ss : list bytes) (best : option (nat * bytes)) : Prop :=
  match best with
  | None => ∀ s i, s ∈ ss → ¬ occurs s data i
  | Some (i, s) => s ∈ ss ∧ occurs s data i ∧
      ∀ t j, t ∈ ss → occurs t data j → i < j ∨ i = j ∧ length t ≤ length s
  end.

Lemma betterMatch_spec data ss best secret :
  best_match data ss best → best_match data (ss ++ [secret]) (betterMatch data best secret).
Proof.
  unfold betterMatch. pose proof (index_spec data secret) as Hi.
  destruct (index data secret) as [k|], best as [[i s]|]; simpl.
  - destruct Hi as [Ho Hmin]. intros (Hs & Hos & Hbest).
    case_decide as Hc; simpl; (split; [set_solver|]); (split; [done|]);
      intros t j [Ht| ->%list_elem_of_singleton]%elem_of_app Hj.
    + destruct (Hbest t j Ht Hj); lia.
    + apply Hmin in Hj. destruct (decide (k = j)); lia.
    + by apply Hbest.
    + apply Hmin in Hj. destruct (decide (i = j)) as [->|]; [|lia].
      assert (j = k) by lia. lia.
  - destruct Hi as [Ho Hmin]. intros Hbest. split; [set_solver|]. split; [done|].
    intros t j [Ht| ->%list_elem_of_singleton]%elem_of_app Hj; [by apply Hbest in Hj|].
    apply Hmin in Hj. destruct (decide (k = j)); lia.
  - intros (Hs & Hos & Hbest). split; [set_solver|]. split; [done|].
    intros t j [Ht| ->%list_elem_of_singleton]%elem_of_app Hj; [by apply Hbest|].
    by apply Hi in Hj.
  - intros Hbest t j [Ht| ->%list_elem_of_singleton]%elem_of_app; eauto.
Qed.

Lemma nextMatch_spec m data : best_match data (secrets m) (nextMatch m data).
Proof.
  unfold nextMatch. induction (secrets m) as [|s ss IH] using rev_ind.
  - simpl. set_solver.
  - rewrite foldl_app. by apply betterMatch_spec.
Qed.

(** The specification determines the result. *)
Lemma best_match_unique data ss b1 b2 :
  best_match data ss b1 → best_match data ss b2 → b1 = b2.
Proof.
  destruct b1 as [[i s]|], b2 as [[j t]|]; simpl; try done; [|naive_solver..].
  intros (Hs & Hos & H1) (Ht & Hot & H2).
  pose proof (H1 _ _ Ht Hot). pose proof (H2 _ _ Hs Hos).
  assert (i = j) as <- by lia. do 2 f_equal.
  eapply occurs_same_length; eauto. lia.
Qed.

(** ** Well-formed maskers *)

Definition wf_masker (m : Masker) : Prop :=
  ∀ s, s ∈ secrets m → MinSecretLength ≤ length s ≤ S (keepTail m).

Lemma filterSecrets_spec l seen n ss k :
  filterSecrets l seen n = (ss, k) →
  n ≤ k ∧ ∀ s, s ∈ ss → MinSecretLength ≤ length s ≤ k.
Proof.
  revert seen n ss k. induction l as [|x l IH]; simpl; intros seen n ss k.
  { intros [= <- <-]. set_solver. }
  case_decide; [by apply IH|]. case_decide; [by apply IH|].
  destruct (filterSecrets l (x :: seen) _) as [ss' k'] eqn:E. intros [= <- <-].
  apply IH in E as [Hk Hs]. split; [case_decide; lia|].
  intros s [->|?]%elem_of_cons; [case_decide; lia|auto].
Qed.

Lemma NewWithReplacement_wf ss repl : wf_masker (NewWithReplacement ss repl).
Proof.
  unfold NewWithReplacement, wf_masker.
  destruct (filterSecrets ss [] 0) as [l k] eqn:E. simpl.
  apply filterSecrets_spec in E as [_ Hs]. intros s Hin. specialize (Hs s Hin).
  unfold MinSecretLength in *. case_decide; lia.
Qed.

Lemma filterSecrets_longest l seen n ss k :
  filterSecrets l seen n = (ss, k) → k = n ∨ ∃ s, s ∈ ss ∧ length s = k.
Proof.
  revert seen n ss k. induction l as [|x l IH]; simpl; intros seen n ss k.
  { intros [= <- <-]. by left. }
  case_decide; [by apply IH|]. case_decide; [by apply IH|].
  destruct (filterSecrets l (x :: seen) _) as [ss' k'] eqn:E. intros [= <- <-].
  apply IH in E as [->|(s & ? & ?)]; [|right; exists s; set_solver].
  case_decide; [right; exists x; set_solver|by left].
Qed.

Lemma New_longest ss :
  secrets (New ss) ≠ [] → ∃ s, s ∈ secrets (New ss) ∧ keepTail (New ss) < length s.
Proof.
  unfold New, NewWithReplacement. destruct (filterSecrets ss [] 0) as [l k] eqn:E. simpl.
  intros Hne. pose proof (filterSecrets_spec _ _ _ _ _ E) as [_ Hs].
  apply filterSecrets_longest in E as [->|(s & Hin & <-)].
  - destruct l as [|x l]; [done|]. specialize (Hs x ltac:(set_solver)).
    unfold MinSecretLength in *. lia.
  - exists s. split; [done|]. specialize (Hs s Hin). unfold MinSecretLength in Hs.
    case_decide; lia.
Qed.

(** ** The chunk loop terminates and satisfies its equation *)

Definition loopF (m : Masker) (flush : bool) (data : bytes) : option (bytes * bytes) :=
  maskLoop m flush (length data) data [].

Definition prepend (pre : bytes) (r : bytes * bytes) : bytes * bytes := (pre ++ r.1, r.2).

Lemma prepend_app a b r : prepend (a ++ b) r = prepend a (prepend b r).
Proof. unfold prepend. simpl. by rewrite (assoc_L (++)). Qed.

Lemma prepend_nil r : prepend [] r = r.
Proof. by destruct r. Qed.

Lemma maskLoop_out m flush fuel data out :
  maskLoop m flush fuel data out = prepend out <$> maskLoop m flush fuel data [].
Proof.
  revert data out. induction fuel as [|fuel IH]; intros [|c data] out;
    cbn [maskLoop]; try (by unfold prepend; rewrite ?fmap_Some; simpl; rewrite ?app_nil_r).
  destruct (nextMatch m (c :: data)) as [[i s]|].
  - rewrite (IH _ (out ++ _)), (IH _ ([] ++ _)). simpl.
    destruct (maskLoop m flush fuel _ []) as [r|]; [|done]. simpl. f_equal. apply prepend_app.
  - by destruct flush.
Qed.

Section loop.
Context (m : Masker) (Hwf : wf_masker m).

Lemma nextMatch_bounds data i s :
  nextMatch m data = Some (i, s) → 4 ≤ length s ∧ i + length s ≤ length data.
Proof.
  intros E. pose proof (nextMatch_spec m data) as H. rewrite E in H.
  destruct H as (Hs & Ho & _). apply Hwf in Hs as [??]. apply occurs_bound in Ho. done.
Qed.

Lemma maskLoop_fuel flush fuel data :
  length data ≤ fuel → maskLoop m flush fuel data [] = loopF m flush data.
Proof.
  unfold loopF. revert data. induction (lt_wf fuel) as [fuel _ IH]. intros data Hf.
  destruct data as [|c data]; [by destruct fuel|].
  destruct fuel as [|fuel]; [simpl in Hf; lia|]. cbn [maskLoop length]. destruct (nextMatch m (c :: data)) as [[i s]|] eqn:E; [|done].
  pose proof (nextMatch_bounds _ _ _ E) as [? ?]. simpl in *.
  rewrite !(maskLoop_out m _ _ _ (take _ _ ++ _)). f_equal.
  rewrite (IH fuel); [|lia|rewrite length_drop; simpl; lia].
  symmetry. apply (IH (length data)); [lia|rewrite length_drop; simpl; lia].
Qed.

Lemma loopF_eq flush data :
  loopF m flush data =
    match nextMatch m data with
    | Some (i, s) =>
        prepend (take i data ++ replacement m) <$> loopF m flush (drop (i + length s) data)
    | None =>
        if flush then Some (data, [])
        else let safe := length data - keepTail m in Some (take safe data, drop safe data)
    end.
Proof.
  destruct (nextMatch m data) as [[i s]|] eqn:E.
  - pose proof (nextMatch_bounds _ _ _ E) as [? ?].
    destruct data as [|c data]; [simpl in *; lia|].
    unfold loopF at 1. cbn [length maskLoop]. rewrite E.
    rewrite maskLoop_out, app_nil_l. f_equal.
    apply maskLoop_fuel. rewrite length_drop. simpl. lia.
  - destruct data as [|c data].
    { unfold loopF. simpl. by destruct flush. }
    unfold loopF. cbn [length maskLoop]. rewrite E. destruct flush; [done|].
    rewrite app_nil_l. cbv zeta. case_decide; [|done].
    simpl length in *. by replace (S (length data) - S (length data))
      with (S (length data) - keepTail m) by lia.
Qed.

(** Induction along the iterations of the loop. *)
Lemma loop_ind (P : bytes → Prop) :
  (∀ data, nextMatch m data = None → P data) →
  (∀ data i s, nextMatch m data = Some (i, s) → P (drop (i + length s) data) → P data) →
  ∀ data, P data.
Proof.
  intros Hnone Hsome data. remember (length data) as n eqn:Hn.
  revert data Hn. induction (lt_wf n) as [n _ IH]. intros data ->.
  destruct (nextMatch m data) as [[i s]|] eqn:E; [|auto].
  pose proof (nextMatch_bounds _ _ _ E) as [? ?].
  eapply Hsome; [done|]. eapply IH; [|reflexivity]. rewrite length_drop. lia.
Qed.

Lemma loopF_total flush data :
  ∃ out pending, loopF m flush data = Some (out, pending) ∧
    length pending ≤ keepTail m ∧ (flush = true → pending = []).
Proof.
  induction data as [data E|data i s E IH] using loop_ind; rewrite loopF_eq, E.
  - destruct flush; [by exists data, []; simpl; split_and!; auto with lia|].
    eexists _, _. split_and!; [done|rewrite length_drop; lia|done].
  - destruct IH as (out & pending & -> & ? & ?). by eexists _, _.
Qed.
End loop.

Lemma chunk_loopF m pending chunk flush :
  secrets m ≠ [] → maskStreamChunk m pending chunk flush = loopF m flush (pending ++ chunk).
Proof. intros. unfold maskStreamChunk. by rewrite decide_False by done. Qed.

(** ** Streams

    A writer over a sink that accepts everything, fed chunk by chunk and then
    closed; [feed] is the same computation on the masker alone. *)

Definition sink_write (s b : bytes) : bytes * option error := (s ++ b, None).

Fixpoint writeAll (w : Writer bytes) (chunks : list bytes) : option (Writer bytes) :=
  match chunks with
  | [] => Some w
  | c :: cs => '(w', _) ← Write sink_write w c; writeAll w' cs
  end.

Definition writtenBy (secrets : list bytes) (chunks : list bytes) : option bytes :=
  w ← writeAll (NewWriter [] secrets) chunks;
  '(w', _) ← Close sink_write None w;
  Some (writer w').

Fixpoint feed (m : Masker) (pending : bytes) (chunks : list bytes) : option bytes :=
  match chunks with
  | [] => fst <$> maskStreamChunk m pending [] true
  | c :: cs =>
      '(out, pending') ← maskStreamChunk m pending c false;
      rest ← feed m pending' cs;
      Some (out ++ rest)
  end.

Lemma writeAll_feed m sink pending chunks :
  (w ← writeAll (mkWriter sink m pending false) chunks;
   '(w', _) ← Close sink_write None w; Some (writer w')) =
  (λ out, sink ++ out) <$> feed m pending chunks.
Proof.
  revert sink pending. induction chunks as [|c cs IH]; intros sink pending; cbn.
  - destruct (maskStreamChunk m pending [] true) as [[out p]|]; [|done]. simpl.
    case_decide; [done|]. simpl. by assert (out = []) as -> by (destruct out; simpl in *; auto with lia);
      rewrite app_nil_r.
  - destruct (maskStreamChunk m pending c false) as [[out p]|]; [|done]. simpl.
    case_decide; simpl; rewrite IH; destruct (feed m p cs) as [rest|]; simpl; try done.
    + by rewrite (assoc_L (++)).
    + by assert (out = []) as -> by (destruct out; simpl in *; auto with lia).
Qed.

Lemma writtenBy_feed secrets chunks : writtenBy secrets chunks = feed (New secrets) [] chunks.
Proof.
  unfold writtenBy, NewWriter. rewrite writeAll_feed.
  by destruct (feed _ _ _).
Qed.

(** ** What a mask of a text is

    The text is cut into plain pieces that hold no secret and secrets in
    between; the mask keeps the pieces and replaces each secret. *)

Inductive masked (ss : list bytes) (repl : bytes) : bytes → bytes → Prop :=
  | masked_plain p : ¬ has_secret ss p → masked ss repl p p
  | masked_secret p s rest out :
      ¬ has_secret ss p → s ∈ ss → masked ss repl rest out →
      masked ss repl (p ++ s ++ rest) (p ++ repl ++ out).

(** No secret of the masker starts inside [p] when [data] follows it. *)
Definition clear_before (ss : list bytes) (p data : bytes) : Prop :=
  ∀ s j, s ∈ ss → occurs s (p ++ data) j → length p ≤ j.

Lemma occurs_split s text i :
  occurs s text i → text = take i text ++ s ++ drop (i + length s) text.
Proof.
  intros (l & r & -> & <-). rewrite take_app_length, drop_app_ge by lia.
  replace (length l + length s - length l) with (length s) by lia.
  by rewrite drop_app_length.
Qed.

Section safety.
Context (m : Masker) (Hwf : wf_masker m).

Lemma no_secret_app_None p data :
  clear_before (secrets m) p data → nextMatch m data = None → ¬ has_secret (secrets m) (p ++ data).
Proof.
  intros Hc E (s & j & Hs & Ho). pose proof (nextMatch_spec m data) as HN. rewrite E in HN.
  pose proof (Hc s j Hs Ho).
  apply (HN s (j - length p) Hs), (occurs_app_inv_r _ p).
  by replace (length p + (j - length p)) with j by lia.
Qed.

Lemma no_secret_before_match p data i s :
  clear_before (secrets m) p data → nextMatch m data = Some (i, s) →
  ¬ has_secret (secrets m) (p ++ take i data).
Proof.
  intros Hc E (t & j & Ht & Ho). pose proof (nextMatch_spec m data) as HN. rewrite E in HN.
  destruct HN as (_ & Hos & Hbest).
  pose proof (occurs_bound _ _ _ Ho) as Hb. apply occurs_bound in Hos.
  rewrite length_app, length_take in Hb. pose proof (Hwf t Ht) as [Hlen _].
  unfold MinSecretLength in Hlen.
  apply (occurs_app_r _ _ (drop i data)) in Ho. rewrite <-(assoc_L (++)), take_drop in Ho.
  pose proof (Hc t j Ht Ho).
  replace j with (length p + (j - length p)) in Ho by lia.
  apply occurs_app_inv_r, (Hbest t) in Ho; [lia|done].
Qed.

(** One chunk: whatever mask the rest of the stream has, the mask of the
    whole is the emitted part followed by it. *)
Lemma loop_masked data p o pending X outX :
  clear_before (secrets m) p data → (p = [] ∨ keepTail m ≤ length data) →
  loopF m false data = Some (o, pending) →
  (∀ p', (p' = [] ∨ length pending = keepTail m) →
     ¬ has_secret (secrets m) (p' ++ pending) →
     masked (secrets m) (replacement m) (p' ++ pending ++ X) (p' ++ outX)) →
  masked (secrets m) (replacement m) (p ++ data ++ X) (p ++ o ++ outX).
Proof.
  revert p o. induction data as [data E|data i s E IH] using (loop_ind m Hwf);
    intros p o Hc Hp; rewrite loopF_eq, E by done; intros Heq HK.
  - injection Heq as <- <-. set (safe := length data - keepTail m) in *.
    replace (p ++ data ++ X) with ((p ++ take safe data) ++ drop safe data ++ X)
      by by rewrite <-(assoc_L (++)), (assoc_L (++) (take _ _)), take_drop.
    rewrite (assoc_L (++) p (take _ _)). apply HK.
    + rewrite length_drop. destruct Hp as [->|Hp]; [|right; lia].
      destruct (decide (safe = 0)) as [->|]; [left; done|right; lia].
    + rewrite <-(assoc_L (++)), take_drop. by apply no_secret_app_None.
  - apply fmap_Some in Heq as ([o' pd] & Hl & [= -> ->]). simpl.
    pose proof (nextMatch_spec m data) as HN. rewrite E in HN.
    destruct HN as (Hs & Ho & _). rewrite (occurs_split _ _ _ Ho) at 1.
    replace (p ++ (take i data ++ s ++ drop (i + length s) data) ++ X)
      with ((p ++ take i data) ++ s ++ (drop (i + length s) data ++ X))
      by by rewrite <-!(assoc_L (++)).
    replace (p ++ ((take i data ++ replacement m) ++ o') ++ outX)
      with ((p ++ take i data) ++ replacement m ++ (o' ++ outX))
      by by rewrite <-!(assoc_L (++)).
    apply masked_secret; [by eapply no_secret_before_match|done|].
    apply (IH [] o'); [intros ????; simpl; lia|by left|done|done].
Qed.

Lemma flush_masked data p o :
  clear_before (secrets m) p data → loopF m true data = Some (o, []) →
  masked (secrets m) (replacement m) (p ++ data) (p ++ o).
Proof.
  revert p o. induction data as [data E|data i s E IH] using (loop_ind m Hwf);
    intros p o Hc; rewrite loopF_eq, E by done; intros Heq.
  - injection Heq as <-. apply masked_plain. by apply no_secret_app_None.
  - apply fmap_Some in Heq as ([o' pd] & Hl & [= -> <-]). simpl.
    pose proof (nextMatch_spec m data) as HN. rewrite E in HN.
    destruct HN as (Hs & Ho & _). rewrite (occurs_split _ _ _ Ho) at 1.
    rewrite <-(assoc_L (++) (take i data)), !(assoc_L (++) p (take i data)).
    apply masked_secret; [by eapply no_secret_before_match|done|].
    apply (IH [] o'); [intros ????; simpl; lia|done].
Qed.

(** The held-back tail is long enough for every later chunk. *)
Lemma clear_before_pending p pending X :
  (p = [] ∨ length pending = keepTail m) → ¬ has_secret (secrets m) (p ++ pending) →
  clear_before (secrets m) p (pending ++ X).
Proof.
  intros Hp Hno s j Hs Ho. destruct Hp as [->|Hp]; [simpl; lia|].
  pose proof (Hwf s Hs) as [? ?].
  destruct (decide (j + length s ≤ length (p ++ pending))) as [Hle|Hgt].
  - exfalso. apply Hno. exists s, j. split; [done|].
    rewrite (assoc_L (++)) in Ho. by eapply occurs_app_inv_l.
  - rewrite length_app in Hgt. lia.
Qed.

Lemma feed_total chunks pending : ∃ out, feed m pending chunks = Some out.
Proof.
  assert (∀ pd c flush, ∃ o pd', maskStreamChunk m pd c flush = Some (o, pd')) as Htot.
  { intros pd c flush. unfold maskStreamChunk. case_decide; [by eexists _, _|].
    destruct (loopF_total m Hwf flush (pd ++ c)) as (o & pd' & Hl & _). by exists o, pd'. }
  revert pending. induction chunks as [|c cs IH]; intros pending; simpl.
  - destruct (Htot pending [] true) as (o & pd & ->). by eexists.
  - destruct (Htot pending c false) as (o & pd & ->). simpl.
    destruct (IH pd) as [rest ->]. by eexists.
Qed.

Lemma feed_masked chunks p pending out :
  secrets m ≠ [] → (p = [] ∨ length pending = keepTail m) →
  ¬ has_secret (secrets m) (p ++ pending) →
  feed m pending chunks = Some out →
  masked (secrets m) (replacement m) (p ++ pending ++ concat chunks) (p ++ out).
Proof.
  intros Hne. revert p pending out.
  induction chunks as [|c cs IH]; intros p pending out Hp Hno; simpl;
    rewrite chunk_loopF by done.
  - intros ([o pd] & Hl & ->)%fmap_Some. eapply flush_masked; [by apply clear_before_pending|].
    destruct (loopF_total m Hwf true (pending ++ [])) as (o' & pd' & Hl' & _ & Hpd).
    rewrite Hl' in Hl. simplify_eq. by rewrite Hpd in Hl'.
  - intros ([o pd] & Hl & (rest & Hrest & [= <-])%bind_Some)%bind_Some.
    rewrite (assoc_L (++) pending).
    eapply loop_masked; [by apply clear_before_pending| |done|].
    + destruct Hp as [->|Hp]; [by left|right]. rewrite length_app. lia.
    + intros p' Hp' Hno'. by apply IH.
Qed.
End safety.

(** ** Chunking does not matter when no secret hides inside another

    [separable]: no secret occurs inside another one except at its end. *)

Definition separable (ss : list bytes) : bool :=
  forallb (λ t, forallb (λ s, bool_decide (index (removelast t) s = None)) ss) ss.

Lemma removelast_take (t : bytes) : removelast t = take (length t - 1) t.
Proof. rewrite removelast_firstn_len. by rewrite Nat.sub_1_r. Qed.

Lemma separable_spec ss s t o :
  separable ss = true → s ∈ ss → t ∈ ss → occurs s t o → length t ≤ o + length s.
Proof.
  unfold separable. rewrite forallb_forall. intros H Hs Ht Ho.
  destruct (decide (length t ≤ o + length s)) as [|Hlt]; [done|exfalso].
  apply list_elem_of_In, H in Ht. rewrite forallb_forall in Ht.
  apply list_elem_of_In, Ht, bool_decide_eq_true in Hs.
  pose proof (index_spec (removelast t) s) as HN. rewrite Hs in HN. apply (HN o).
  rewrite removelast_take. rewrite <-(take_drop (length t - 1) t) in Ho.
  eapply occurs_app_inv_l; [done|]. rewrite length_take. lia.
Qed.

Lemma occurs_nested s t text i j :
  occurs s text i → occurs t text j → j ≤ i → i + length s ≤ j + length t → occurs s t (i - j).
Proof.
  intros Hs (l & r & -> & <-) Hle Hend.
  replace i with (length l + (i - length l)) in Hs by lia. apply occurs_app_inv_r in Hs.
  eapply occurs_app_inv_l; [done|lia].
Qed.

Section equivalence.
Context (m : Masker) (Hwf : wf_masker m) (Hsep : separable (secrets m) = true).

Lemma nextMatch_extend data X i s :
  nextMatch m data = Some (i, s) → nextMatch m (data ++ X) = Some (i, s).
Proof.
  intros E. eapply best_match_unique; [apply nextMatch_spec|].
  pose proof (nextMatch_spec m data) as HN. rewrite E in HN.
  destruct HN as (Hs & Ho & Hbest). split_and!; [done|by apply occurs_app_r|].
  intros t j Ht Hj. destruct (decide (j + length t ≤ length data)) as [Hle|Hgt].
  - apply (Hbest t j Ht). by eapply occurs_app_inv_l.
  - pose proof (occurs_bound _ _ _ Ho). destruct (decide (i < j)) as [|Hij]; [by left|].
    exfalso. assert (occurs s t (i - j)) as Hn.
    { eapply occurs_nested; [by apply occurs_app_r|done|lia|lia]. }
    apply (separable_spec _ _ _ _ Hsep Hs Ht) in Hn. lia.
Qed.

Lemma nextMatch_shift pre text :
  clear_before (secrets m) pre text →
  nextMatch m (pre ++ text) = prod_map (λ i, length pre + i) id <$> nextMatch m text.
Proof.
  intros Hc. eapply best_match_unique; [apply nextMatch_spec|].
  pose proof (nextMatch_spec m text) as HN. destruct (nextMatch m text) as [[i s]|]; simpl in *.
  - destruct HN as (Hs & Ho & Hbest). split_and!; [done|by apply occurs_app_l|].
    intros t j Ht Hj. pose proof (Hc t j Ht Hj).
    replace j with (length pre + (j - length pre)) in Hj by lia.
    apply occurs_app_inv_r, (Hbest t) in Hj; [lia|done].
  - intros t j Ht Hj. pose proof (Hc t j Ht Hj).
    replace j with (length pre + (j - length pre)) in Hj by lia.
    by apply occurs_app_inv_r, HN in Hj.
Qed.

(** Masking the whole is masking a chunk and then the rest of the stream. *)
Lemma loop_split data X o pending :
  loopF m false data = Some (o, pending) →
  loopF m true (data ++ X) = prepend o <$> loopF m true (pending ++ X).
Proof.
  revert o. induction data as [data E|data i s E IH] using (loop_ind m Hwf);
    intros o; rewrite loopF_eq, E by done; intros Heq.
  - injection Heq as <- <-. set (safe := length data - keepTail m).
    assert (clear_before (secrets m) (take safe data) (drop safe data ++ X)) as Hc.
    { apply clear_before_pending; [done| |].
      - rewrite length_drop. destruct (decide (safe = 0)) as [->|]; [by left|right; lia].
      - rewrite take_drop. intros (t & j & Ht & Ho).
        pose proof (nextMatch_spec m data) as HN. rewrite E in HN. by apply HN in Ho. }
    rewrite <-(take_drop safe data) at 1. rewrite <-(assoc_L (++)).
    rewrite !(loopF_eq _ Hwf true), (nextMatch_shift _ _ Hc).
    destruct (nextMatch m (drop safe data ++ X)) as [[i s]|]; [|done]. simpl.
    rewrite take_app_ge, drop_app_ge by lia.
    rewrite !Nat.add_sub_swap, Nat.sub_diag, !Nat.add_0_l by lia.
    destruct (loopF m true _) as [r|]; [|done]. simpl. f_equal.
    rewrite <-prepend_app. f_equal. by rewrite (assoc_L (++)).
  - apply fmap_Some in Heq as ([o' pd] & Hl & [= -> ->]).
    rewrite loopF_eq, (nextMatch_extend _ _ _ _ E) by done.
    pose proof (nextMatch_bounds m Hwf _ _ _ E) as [? ?].
    rewrite drop_app_le, take_app_le by lia. rewrite (IH _ Hl).
    destruct (loopF m true (pd ++ X)) as [r|]; [|done]. simpl. f_equal. symmetry. apply prepend_app.
Qed.

Lemma feed_loopF chunks pending :
  secrets m ≠ [] → feed m pending chunks = fst <$> loopF m true (pending ++ concat chunks).
Proof.
  intros Hne. revert pending. induction chunks as [|c cs IH]; intros pending; simpl.
  - by rewrite chunk_loopF.
  - rewrite chunk_loopF by done.
    destruct (loopF_total m Hwf false (pending ++ c)) as (o & pd & Hl & _).
    rewrite Hl. simpl. rewrite IH, (assoc_L (++)), (loop_split _ _ _ _ Hl).
    by destruct (loopF m true (pd ++ concat cs)) as [[??]|].
Qed.
End equivalence.

Lemma feed_no_secrets m pending chunks :
  secrets m = [] → feed m pending chunks = Some (pending ++ concat chunks).
Proof.
  intros He. revert pending. induction chunks as [|c cs IH]; intros pending; simpl;
    unfold maskStreamChunk; rewrite decide_True by done; simpl; [done|].
  rewrite IH. simpl. by rewrite (assoc_L (++)).
Qed.

(** ** [MaskString] with one secret *)

Lemma replaceAll_skip k text old new : replaceAll k text old new = replaceAll 0 (drop k text) old new.
Proof.
  revert k. induction text as [|c text IH]; intros [|k]; try done. simpl. apply IH.
Qed.

Lemma replaceAll_index text old new :
  old ≠ [] →
  replaceAll 0 text old new =
    match index text old with
    | None => text
    | Some i => take i text ++ new ++ replaceAll 0 (drop (i + length old) text) old new
    end.
Proof.
  intros Hne. induction text as [|c text IH]; simpl.
  { case_decide as Hp; [|done]. by apply prefix_nil_inv in Hp. }
  case_decide as Hp.
  - rewrite replaceAll_skip. destruct old as [|o old]; [done|]. simpl. by rewrite Nat.sub_0_r.
  - rewrite IH. by destruct (index text old).
Qed.

Lemma nextMatch_single s repl k data :
  nextMatch (mkMasker [s] repl k) data = (λ i, (i, s)) <$> index data s.
Proof. unfold nextMatch, betterMatch. simpl. by destruct (index data s). Qed.

Lemma loopF_replaceAll s repl k data :
  wf_masker (mkMasker [s] repl k) →
  loopF (mkMasker [s] repl k) true data = Some (replaceAll 0 data s repl, []).
Proof.
  intros Hwf. assert (s ≠ []) as Hne.
  { intros ->. specialize (Hwf [] ltac:(set_solver)). unfold MinSecretLength in Hwf. simpl in *. lia. }
  induction data as [data E|data i t E IH] using (loop_ind _ Hwf);
    rewrite loopF_eq, E, replaceAll_index by done; rewrite nextMatch_single in E.
  - by apply fmap_None in E as ->.
  - apply fmap_Some in E as (i' & -> & [= <- <-]). rewrite IH. simpl.
    by rewrite (assoc_L (++)).
Qed.

(** ** Properties *)


(** when no secret occurs inside another one (except at its end), cutting
    the stream into chunks has no effect: the writer's output is the one it
    produces for the whole input in a single write. *)
Theorem writer_chunking_irrelevant (ss : list bytes) (chunks : list bytes) :
  separable (secrets (New ss)) = true →
  writtenBy ss chunks = writtenBy ss [concat chunks].
Proof.
  intros Hsep. rewrite !writtenBy_feed.
  pose proof (NewWithReplacement_wf ss DefaultReplacement) as Hwf. fold (New ss) in Hwf.
  destruct (decide (secrets (New ss) = [])) as [He|Hne].
  - rewrite !feed_no_secrets by done. simpl. by rewrite app_nil_r.
  - rewrite !feed_loopF by done. simpl. by rewrite app_nil_r.
Qed.

Lemma writer_chunking_irrelevant_witness :
  separable (secrets (New [of_str "hunter2!"; of_str "s3cr3t"])) = true ∧
  writtenBy [of_str "hunter2!"; of_str "s3cr3t"] [of_str "pw=hun"; of_str "ter2!;"] =
  writtenBy [of_str "hunter2!"; of_str "s3cr3t"] [of_str "pw=hunter2!;"].
Proof.
  split; [vm_compute; reflexivity|].
  apply (writer_chunking_irrelevant [of_str "hunter2!"; of_str "s3cr3t"]
           [of_str "pw=hun"; of_str "ter2!;"]).
  vm_compute. reflexivity.
Defined.


(** what is held back between two chunks is bounded by the secrets: the
    pending buffer is shorter than the longest secret the masker keeps. *)
Theorem pending_bounded (ss : list bytes) (pending chunk : bytes) :
  ∃ out pending', maskStreamChunk (New ss) pending chunk false = Some (out, pending') ∧
    (pending' = [] ∨ ∃ s, s ∈ secrets (New ss) ∧ length pending' < length s).
Proof.
  pose proof (NewWithReplacement_wf ss DefaultReplacement) as Hwf. fold (New ss) in Hwf.
  unfold maskStreamChunk. case_decide as He; [by eexists _, _; split; [done|left]|].
  destruct (loopF_total _ Hwf false (pending ++ chunk)) as (o & pd & Hl & Hlen & _).
  exists o, pd. split; [done|].
  destruct (New_longest ss He) as (s & Hs & Hk). right. exists s. split; [done|lia].
Qed.

(** for a single secret the two maskers agree: masking a whole string with
    [MaskString] gives what a [Writer] emits for that string, however it is
    cut. *)
Theorem MaskString_agrees_with_writer (s : bytes) (chunks : list bytes) :
  writtenBy [s] chunks = Some (MaskString (New [s]) (concat chunks)).
Proof.
  rewrite writtenBy_feed. pose proof (NewWithReplacement_wf [s] DefaultReplacement) as Hwf.
  fold (New [s]) in Hwf. unfold MaskString.
  destruct (decide (secrets (New [s]) = [])) as [He|Hne].
  { rewrite decide_True by auto. by apply feed_no_secrets. }
  assert (∃ k, New [s] = mkMasker [s] DefaultReplacement k) as [k Hk].
  { revert Hne. unfold New, NewWithReplacement. simpl.
    case_decide; simpl; [done|]. eauto. }
  rewrite Hk in *. assert (separable (secrets (mkMasker [s] DefaultReplacement k)) = true) as Hsep.
  { unfold separable. cbn [secrets forallb]. rewrite !andb_true_r. apply bool_decide_eq_true.
    pose proof (index_spec (removelast s) s) as Hi.
    destruct (index (removelast s) s) as [i|]; [|done]. destruct Hi as [Ho _].
    apply occurs_bound in Ho. specialize (Hwf s ltac:(set_solver)).
    rewrite removelast_take, length_take in Ho. unfold MinSecretLength in Hwf. lia. }
  rewrite feed_loopF, loopF_replaceAll by done. simpl.
  case_decide as Hd; [|done]. destruct Hd as [?|Hd]; [done|]. by rewrite Hd.
Qed.

End Masking.
