(* ===== verification/MaskingReader.v ===== *)
(** * The masking Reader

    [masking/masking.go], lines 58 to 95: [NewReader] and [Reader.Read].  The
    wrapped [io.Reader] is the list of what its calls will return, bytes
    together with an optional error as its contract allows; one that has
    nothing left returns [io.EOF]. *)

From S2P Require Import Prelude Masking.
From Stdlib Require Import Strings.Ascii.
From stdpp Require Import base strings list sets.
#[local] Open Scope nat_scope.

Module MaskingReader.
Import Masking.

Inductive readError := EOF | ReadFailed (e : error).

#[global] Instance readError_eq_dec : EqDecision readError.
Proof. solve_decision. Defined.

Definition outcome : Type := bytes * option readError.

Record Reader := mkReader {
  reader : list outcome;
  r_masker : Masker;
  r_pending : bytes;
  r_out : bytes;
  r_eof : bool;
}.

Definition NewReader (reader : list outcome) (secrets : list bytes) : Reader := mkReader reader (New secrets) [] [] false.

(** The loop of [Read] that fills [out]; it consumes one outcome per turn. *)
Fixpoint fill (m : Masker) (src : list outcome) (pending out : bytes) (eof : bool) : option (Reader * option readError) :=
  if bool_decide (out = []) && negb eof then
    match src with
    | [] => '(rest, pending) ← maskStreamChunk m pending [] true; Some (mkReader [] m pending (out ++ rest) true, None)
    | (chunk, err) :: src =>
        '(masked, pending) ← (if bool_decide (chunk = []) then Some ([], pending) else maskStreamChunk m pending chunk false);
        let out := out ++ masked in
        match err with
        | Some EOF => '(rest, pending) ← maskStreamChunk m pending [] true; Some (mkReader src m pending (out ++ rest) true, None)
        | Some err => Some (mkReader src m pending out eof, Some err)
        | None => fill m src pending out eof
        end
    end
  else Some (mkReader src m pending out eof, None).

(** [Read] into a buffer of [size] bytes: the bytes copied and the error. *)
Definition Read (r : Reader) (size : nat) : option (Reader * outcome) :=
  if bool_decide (size = 0) then Some (r, ([], None))
  else
    '(r, err) ← fill (r_masker r) (reader r) (r_pending r) (r_out r) (r_eof r);
    match err with
    | Some err => Some (r, ([], Some err))
    | None =>
        if bool_decide (r_out r = []) && r_eof r then Some (r, ([], Some EOF))
        else Some (mkReader (reader r) (r_masker r) (r_pending r) (drop size (r_out r)) (r_eof r), (take size (r_out r), None))
    end.

(** ** What is left to deliver *)

(** The bytes of the source up to the end it reports. *)
Fixpoint chunksOf (src : list outcome) : list bytes :=
  match src with
  | [] => []
  | (chunk, err) :: src =>
      let rest := if bool_decide (err = Some EOF) then [] else chunksOf src in
      if bool_decide (chunk = []) then rest else chunk :: rest
  end.

Definition failures (src : list outcome) : nat := sum_list_with (λ o : outcome, if o.2 is Some _ then 1 else 0) src.

Definition remaining (r : Reader) : option bytes :=
  if r_eof r then Some (r_out r)
  else app (r_out r) <$> feed (r_masker r) (r_pending r) (chunksOf (reader r)).

Definition wf (r : Reader) : Prop := wf_masker (r_masker r).

Lemma chunk_total m pending chunk flush : wf_masker m → ∃ o p, maskStreamChunk m pending chunk flush = Some (o, p).
Proof.
  intros Hwf. unfold maskStreamChunk. case_decide; [by eexists _, _|].
  destruct (loopF_total m Hwf flush (pending ++ chunk)) as (o & p & E & _). by exists o, p.
Qed.

Lemma remaining_total r : wf r → ∃ out, remaining r = Some out.
Proof.
  intros Hwf. unfold remaining. destruct (r_eof r); [by eexists|].
  destruct (feed_total (r_masker r) Hwf (chunksOf (reader r)) (r_pending r)) as [o ->]. by eexists.
Qed.

(** Filling keeps what is left to deliver and ends with an error of the source, the end, or bytes to copy. *)
Lemma fill_spec m src pending out eof : wf_masker m →
  ∃ r' err, fill m src pending out eof = Some (r', err) ∧ r_masker r' = m
    ∧ remaining r' = remaining (mkReader src m pending out eof)
    ∧ (failures (reader r') + (if err is Some _ then 1 else 0) ≤ failures src)
    ∧ (err = None → r_out r' ≠ [] ∨ r_eof r' = true) ∧ err ≠ Some EOF.
Proof.
  intros Hwf. revert pending out. induction src as [|[chunk err] src IH]; intros pending out; cbn [fill].
  all: destruct (bool_decide (out = []) && negb eof) eqn:Hc.
  2, 4: (eexists _, _; split_and!; [done..|cbn; lia| |done]; intros _; cbn;
     apply andb_false_iff in Hc as [?%bool_decide_eq_false|?%negb_false_iff]; auto).
  all: apply andb_true_iff in Hc as [->%bool_decide_eq_true ->%negb_true_iff].
  - destruct (chunk_total m pending [] true Hwf) as (o & p & E). rewrite E. cbn. eexists _, _.
    split_and!; [done..| |cbn; lia|by right|done]. unfold remaining. cbn. by rewrite E.
  - set (masked := if bool_decide (chunk = []) then _ else _).
    assert (∃ o p, masked = Some (o, p)
      ∧ ∀ rest, feed m pending (if bool_decide (chunk = []) then rest else chunk :: rest) = app o <$> feed m p rest) as (o & p & -> & Hm).
    { unfold masked. case_bool_decide; [eexists _, _; split; [done|]; intros rest; by destruct (feed m pending rest)|].
      destruct (chunk_total m pending chunk false Hwf) as (o & p & E). exists o, p. split; [done|]. intros rest. cbn. rewrite E. cbn.
      by destruct (feed m p rest). }
    cbn [mbind option_bind app].
    assert (remaining (mkReader ((chunk, err) :: src) m pending [] false)
            = app o <$> feed m p (if bool_decide (err = Some EOF) then [] else chunksOf src)) as Hr.
    { unfold remaining. cbn. rewrite Hm. by destruct (feed m p _). }
    destruct err as [[|e]|].
    + destruct (chunk_total m p [] true Hwf) as (o' & p' & E). rewrite E. cbn [mbind option_bind]. eexists _, _.
      split; [done|]. split; [done|]. split; [etrans; [|symmetry; exact Hr]; rewrite bool_decide_eq_true_2 by done; unfold remaining; cbn [feed]; by rewrite E|].
      split; [unfold failures; cbn; lia|]. split; [by right|done].
    + eexists _, _. split_and!; [done..|by etrans; [|symmetry; exact Hr]| |done|done]. unfold failures. cbn. lia.
    + destruct (IH p o) as (r' & e & -> & Hm' & Hr' & Hf & Hd & Hne). eexists _, _.
      split_and!; [done..|by rewrite Hr'; etrans; [|symmetry; exact Hr]| |done|done]. unfold failures in *. cbn. lia.
Qed.

Lemma read_spec r size : wf r → size ≠ 0 →
  ∃ r' data err, Read r size = Some (r', (data, err)) ∧ wf r' ∧ remaining r = app data <$> remaining r'
    ∧ match err with
      | None => length data ≤ size ∧ data ≠ [] ∧ failures (reader r') ≤ failures (reader r)
      | Some EOF => data = [] ∧ remaining r' = Some [] ∧ failures (reader r') ≤ failures (reader r)
      | Some (ReadFailed _) => data = [] ∧ failures (reader r') < failures (reader r)
      end.
Proof.
  intros Hwf Hs. unfold Read. rewrite bool_decide_eq_false_2 by done.
  destruct (fill_spec (r_masker r) (reader r) (r_pending r) (r_out r) (r_eof r) Hwf) as (r' & err & E & Hm & Hr & Hf & Hd & Hne).
  rewrite E. cbn [mbind option_bind]. assert (remaining r' = remaining r) as Hr' by (rewrite Hr; by destruct r). clear Hr.
  assert (wf r') as Hwf' by (unfold wf; by rewrite Hm).
  assert (∀ x : option bytes, x = app [] <$> x) as Hid by (by intros []).
  destruct err as [[|e]|]; [done|exists r', [], (Some (ReadFailed e)); split_and!; [done..|rewrite <- Hr'; apply Hid|done|lia]|].
  rewrite Nat.add_0_r in Hf. destruct (bool_decide (r_out r' = []) && r_eof r') eqn:Hc.
  - apply andb_true_iff in Hc as [Ho%bool_decide_eq_true He]. exists r', [], (Some EOF). split_and!; [done..|rewrite <- Hr'; apply Hid|done| |lia].
    unfold remaining. by rewrite He, Ho.
  - eexists _, (take size (r_out r')), None. split_and!; [done..| |rewrite length_take; lia| |exact Hf].
    + rewrite <- Hr'. unfold remaining. cbn. destruct (r_eof r'); [cbn; by rewrite take_drop|].
      destruct (feed _ _ _); [|done]. cbn. by rewrite (assoc_L app), take_drop.
    + assert (r_out r' ≠ []) as Hne'.
      { intros Ho. destruct (Hd eq_refl) as [?|He]; [done|]. by rewrite Ho, He in Hc. }
      destruct (r_out r'), size; done.
Qed.

(** ** Reading to the end *)

Fixpoint readAll (r : Reader) (sizes : list nat) : option (list outcome) :=
  match sizes with
  | [] => Some []
  | size :: sizes => '(r, o) ← Read r size; os ← readAll r sizes; Some (o :: os)
  end.

Definition delivered (os : list outcome) : bytes := concat os.*1.

Lemma delivered_cons data err os : delivered ((data, err) :: os) = data ++ delivered os.
Proof. done. Qed.

Lemma readAll_spec sizes r out :
  wf r → Forall (λ n, n ≠ 0) sizes → remaining r = Some out →
  ∃ os rest, readAll r sizes = Some os ∧ out = delivered os ++ rest
    ∧ (Some EOF ∈ os.*2 → rest = [])
    ∧ (length out + failures (reader r) < length sizes → Some EOF ∈ os.*2).
Proof.
  intros Hwf Hs. revert r out Hwf. induction Hs as [|size sizes Hsize _ IH]; intros r out Hwf Hr.
  { exists [], out. split_and!; [done|done|intros H; by apply not_elem_of_nil in H|cbn; lia]. }
  destruct (read_spec r size Hwf Hsize) as (r' & data & err & E & Hwf' & Hrem & Hcase).
  rewrite Hr in Hrem. symmetry in Hrem. apply fmap_Some in Hrem as (out' & Hr' & ->).
  destruct (IH r' out' Hwf' Hr') as (os & rest & Hos & -> & Hend & Hlen). exists ((data, err) :: os), rest.
  cbn [readAll]. rewrite E. cbn [mbind option_bind]. rewrite Hos. split_and!; [done|by rewrite delivered_cons, (assoc_L app)| |].
  - cbn. intros [Heof|?]%elem_of_cons; [|auto]. subst err. destruct Hcase as (-> & Hnil & _). rewrite Hnil in Hr'. injection Hr' as Hr'.
    symmetry in Hr'. by apply app_nil in Hr' as [_ ->].
  - rewrite !length_app in *. cbn [length fmap list_fmap snd]. intros Hl. destruct err as [[|e]|]; [left| |]; right; apply Hlen.
    + destruct Hcase as [-> ?]. cbn in *. lia.
    + destruct Hcase as (_ & Hne & ?). destruct data; [done|]. cbn in *. lia.
Qed.

(** C39: The Reader hands out the masked stream.  Whatever the source returns,
    also bytes with an error, empty reads or errors before the end, and with
    buffers of any size, every [Read] returns; what the calls deliver is a
    prefix of what a [Writer] writes for the same chunks; the end is reported
    only after all of it was delivered, and it is reported after at most one
    call per byte and per error of the source, and one more. *)
Theorem reader_delivers_the_mask (ss : list bytes) (src : list outcome) (sizes : list nat) :
  Forall (λ n, n ≠ 0) sizes →
  ∃ out os, writtenBy ss (chunksOf src) = Some out ∧ readAll (NewReader src ss) sizes = Some os
    ∧ delivered os `prefix_of` out
    ∧ (Some EOF ∈ os.*2 → delivered os = out)
    ∧ (length out + failures src < length sizes → Some EOF ∈ os.*2).
Proof.
  intros Hs. assert (wf (NewReader src ss)) as Hwf by apply NewWithReplacement_wf.
  destruct (remaining_total _ Hwf) as [out Hr]. destruct (readAll_spec sizes _ out Hwf Hs Hr) as (os & rest & Hos & Hout & Hend & Hlen).
  exists out, os. split_and!; [|done|by exists rest|intros He; by rewrite Hout, (Hend He), app_nil_r|done].
  rewrite writtenBy_feed. unfold remaining in Hr. cbn in Hr. by destruct (feed _ _ _).
Qed.

(** A source that fails once between two parts of a secret. *)
Lemma reader_delivers_the_mask_witness :
  let src := [(of_str "key=hun", None); ([], Some (ReadFailed (Err "timeout"))); (of_str "ter2; ok", Some EOF)] in
  ∃ os, readAll (NewReader src [of_str "hunter2"]) (replicate 30 5) = Some os ∧ delivered os = of_str "key=[MASKED]; ok".
Proof.
  cbn zeta. set (src := [_; _; _]).
  destruct (reader_delivers_the_mask [of_str "hunter2"] src (replicate 30 5)) as (out & os & Hout & Hos & _ & Hend & Hlen).
  - apply Forall_replicate. done.
  - exists os. split; [exact Hos|]. vm_compute in Hout. injection Hout as <-. apply Hend, Hlen. vm_compute. lia.
Defined.

End MaskingReader.
