(* ===== verification/CredentialRotation.v ===== *)
(** * Session credentials and their rotation in the Adapter

    [adapter/core/credential.go] and [adapter/core/reconnect.go]: one
    Session's credential lineage ([CredentialRotation]: active, pending and
    prior credential, the accepted connection epoch, the revocation flags) and
    the connection state that decides whether a hello resumes
    ([AdapterConnectionState]).

    A [*SessionCredential] is an [option]; the struct has no setter, so sharing
    the pointer and copying the value are the same.  [time.Now()] is an
    argument: an operation that reads the clock several times takes one
    reading per call, in the order of the source.  The mutex makes each method
    atomic, so a method is one step. *)

From S2P Require Import Prelude.
From Stdlib Require Import Strings.Ascii.
From stdpp Require Import base strings list option.
#[local] Open Scope Z_scope.

Module CredentialRotation.

Inductive core_error :=
  | ErrInvalidSessionCredential
  | ErrSessionCredentialRequired
  | ErrSessionCredentialMismatch
  | ErrSessionCredentialExpired
  | ErrInvalidAdapterConnectionConfig
  | ErrInvalidHelloAck
  | ErrCredentialRotationUnavailable
  | ErrCredentialRotationConflict
  | ErrCredentialRotationStale
  | ErrCredentialAuthorityLost
  | ErrCredentialRecoveryRequired
  | ErrCredentialTerminal.

(** ** Credentials *)

Record SessionCredentialLineage := mkLineage {
  Kind : string;
  AttachID : string;
  JTI : string;
}.

Record SessionCredentialMetadata := mkMetadata {
  md_SessionID : string;
  Lineage : SessionCredentialLineage;
  md_Generation : Z;
  ExpiresAt : time;
}.

Record SessionCredential := mkCredential {
  bearer : string;
  metadata : SessionCredentialMetadata;
}.

#[global] Instance lineage_eq_dec : EqDecision SessionCredentialLineage.
Proof. solve_decision. Defined.

(** [strings.TrimSpace(s) == ""]: every rune is Unicode white space, here on
    the UTF-8 encoding. *)
Fixpoint blank (l : list N) : bool :=
  match l with
  | [] => true
  | 0xC2%N :: (0x85%N | 0xA0%N) :: l => blank l
  | 0xE1%N :: 0x9A%N :: 0x80%N :: l => blank l
  | 0xE2%N :: 0x80%N :: c :: l =>
      (bool_decide (0x80 ≤ c ≤ 0x8A)%N || bool_decide (c ∈ [0xA8; 0xA9; 0xAF]%N)) && blank l
  | 0xE2%N :: 0x81%N :: 0x9F%N :: l => blank l
  | 0xE3%N :: 0x80%N :: 0x80%N :: l => blank l
  | c :: l => (bool_decide (0x09 ≤ c ≤ 0x0D)%N || bool_decide (c = 0x20%N)) && blank l
  end.

Definition codes (s : string) : list N := N_of_ascii <$> String.list_ascii_of_string s.

Definition NewSessionCredential (bearer : string) (metadata : SessionCredentialMetadata)
    (now : time) : core_error + SessionCredential :=
  if blank (codes bearer) || bool_decide (4096 < len bearer)
     || existsb (λ c, bool_decide (c ∈ [0x00; 0x0D; 0x0A]%N)) (codes bearer)
  then inl ErrInvalidSessionCredential
  else if bool_decide (md_SessionID metadata = "") || bool_decide (Kind (Lineage metadata) = "")
     || bool_decide (md_Generation metadata < 1) || negb (After (ExpiresAt metadata) now)
  then inl ErrInvalidSessionCredential
  else inr (mkCredential bearer metadata).

Definition Metadata (c : option SessionCredential) : core_error + SessionCredentialMetadata :=
  match c with
  | None => inl ErrSessionCredentialRequired
  | Some c => inr (metadata c)
  end.

Definition validate (c : option SessionCredential) (sessionID : string) (now : time)
  : core_error + unit :=
  match c with
  | None => inl ErrSessionCredentialRequired
  | Some c =>
      if bool_decide (bearer c = "") || bool_decide (md_SessionID (metadata c) = "")
         || bool_decide (Kind (Lineage (metadata c)) = "") || bool_decide (md_Generation (metadata c) < 1)
      then inl ErrSessionCredentialRequired
      else if bool_decide (md_SessionID (metadata c) ≠ sessionID) then inl ErrSessionCredentialMismatch
      else if negb (After (ExpiresAt (metadata c)) now) then inl ErrSessionCredentialExpired
      else inr tt
  end.

(** ** The rotation object *)

Inductive CredentialRotationStatus :=
  | CredentialRotationPending
  | CredentialRotationActive
  | CredentialRotationRecovery
  | CredentialRotationRevoked
  | CredentialRotationTerminal.

#[global] Instance status_eq_dec : EqDecision CredentialRotationStatus.
Proof. solve_decision. Defined.

Record CredentialRotationReceipt := mkReceipt {
  RotationID : string;
  SessionID : string;
  Epoch : Z;
  Generation : Z;
  Status : CredentialRotationStatus;
}.

Record CredentialRecoveryPermit := mkPermit {
  p_SessionID : string;
  p_Epoch : Z;
  p_Generation : Z;
}.

Record pendingCredentialRotation := mkPending {
  id : string;
  credential : SessionCredential;
}.

Record CredentialRotation := mkRotation {
  sessionID : string;
  epoch : Z;
  active : option SessionCredential;
  prior : option SessionCredential;
  pending : option pendingCredentialRotation;
  activeRotationID : string;
  priorRecoveryUntil : time;
  revoked : bool;
  terminal : bool;
  authorityLost : bool;
}.

Definition set_epoch (r : CredentialRotation) (e : Z) : CredentialRotation :=
  mkRotation (sessionID r) e (active r) (prior r) (pending r) (activeRotationID r)
    (priorRecoveryUntil r) (revoked r) (terminal r) (authorityLost r).
Definition set_pending (r : CredentialRotation) (p : option pendingCredentialRotation) : CredentialRotation :=
  mkRotation (sessionID r) (epoch r) (active r) (prior r) p (activeRotationID r)
    (priorRecoveryUntil r) (revoked r) (terminal r) (authorityLost r).
Definition set_authorityLost (r : CredentialRotation) (b : bool) : CredentialRotation :=
  mkRotation (sessionID r) (epoch r) (active r) (prior r) (pending r) (activeRotationID r)
    (priorRecoveryUntil r) (revoked r) (terminal r) b.

(** A method call on a non-nil receiver; [recv] adds the nil test every
    method starts with. *)
Definition R (A : Type) : Type := SE CredentialRotation core_error A.

Definition recv {A} (method : R A) (r : option CredentialRotation)
  : option CredentialRotation * (core_error + A) :=
  match r with
  | None => (None, inl ErrCredentialRotationUnavailable)
  | Some r => let '(r', x) := method r in (Some r', x)
  end.

Definition NewCredentialRotation (sessionID : string) (initial : option SessionCredential)
    (epoch : Z) (now : time) : core_error + CredentialRotation :=
  match initial with
  | None => inl ErrCredentialRotationUnavailable
  | Some c =>
      if bool_decide (sessionID = "") || bool_decide (epoch < 1)
      then inl ErrCredentialRotationUnavailable
      else match validate initial sessionID now with
           | inl err => inl err
           | inr _ => inr (mkRotation sessionID epoch (Some c) None None "" zero_time false false false)
           end
  end.

Definition authorityLocked (r : CredentialRotation) : core_error + unit :=
  if revoked r then inl ErrCredentialAuthorityLost
  else if terminal r then inl ErrCredentialTerminal
  else if authorityLost r then inl ErrCredentialAuthorityLost
  else inr tt.

Definition authorizeLocked (now : time) : R SessionCredential :=
  r ← get;
  lift (authorityLocked r) ≫= λ _,
  match active r with
  | None => throw ErrCredentialRecoveryRequired
  | Some c =>
      if negb (After (ExpiresAt (metadata c)) now) then
        modify (λ r, set_authorityLost r true) ≫= λ _, throw ErrSessionCredentialExpired
      else mret c
  end.

Definition validCredentialLocked (credential : option SessionCredential) (now : time)
  : core_error + unit :=
  match credential with
  | None => inl ErrCredentialRecoveryRequired
  | Some c => if negb (After (ExpiresAt (metadata c)) now) then inl ErrSessionCredentialExpired
              else inr tt
  end.

Definition sameCredentialMetadata (left right : SessionCredentialMetadata) : bool :=
  bool_decide (md_SessionID left = md_SessionID right)
  && bool_decide (md_Generation left = md_Generation right)
  && bool_decide (ExpiresAt left = ExpiresAt right)
  && bool_decide (Lineage left = Lineage right).

(** [Prepare] first forgets a pending credential that has expired. *)
Definition dropExpiredPending (now : time) (r : CredentialRotation) : CredentialRotation :=
  match pending r with
  | Some p => if negb (After (ExpiresAt (metadata (credential p))) now)
              then set_pending r None else r
  | None => r
  end.

Definition Prepare (rotationID : string) (credential_ : option SessionCredential)
    (now1 now2 : time) : R unit :=
  match credential_ with
  | None => throw ErrCredentialRotationUnavailable
  | Some c =>
      fail_if (bool_decide (rotationID = "")) ErrCredentialRotationUnavailable ≫= λ _,
      r ← get;
      lift (validate credential_ (sessionID r) now1) ≫= λ _,
      lift (authorityLocked r) ≫= λ _,
      modify (dropExpiredPending now2) ≫= λ _,
      r ← get;
      match pending r with
      | Some p =>
          if bool_decide (id p = rotationID)
             && sameCredentialMetadata (metadata (credential p)) (metadata c)
          then mret tt else throw ErrCredentialRotationConflict
      | None =>
          (* an absent [active] has the zero metadata, generation 0 *)
          let activeGeneration := from_option (λ a, md_Generation (metadata a)) 0 (active r) in
          if bool_decide (md_Generation (metadata c) ≤ activeGeneration)
          then throw ErrCredentialRotationStale
          else modify (λ r, set_pending r (Some (mkPending rotationID c)))
      end
  end.

Definition PossessionAck (rotationID : string) (acceptedEpoch : Z) (now1 now2 : time)
  : R CredentialRotationReceipt :=
  authorizeLocked now1 ≫= λ _,
  r ← get;
  match pending r with
  | None => throw ErrCredentialRotationStale
  | Some p =>
      fail_if (bool_decide (id p ≠ rotationID)) ErrCredentialRotationStale ≫= λ _,
      fail_if (bool_decide (acceptedEpoch ≠ epoch r)) ErrCredentialRotationStale ≫= λ _,
      lift (validCredentialLocked (Some (credential p)) now2) ≫= λ _,
      mret (mkReceipt rotationID (sessionID r) (epoch r)
              (md_Generation (metadata (credential p))) CredentialRotationPending)
  end.

Definition Activate (receipt : CredentialRotationReceipt) (now1 now2 now3 : time) : R unit :=
  a ← authorizeLocked now1;
  r ← get;
  if bool_decide (RotationID receipt ≠ "") && bool_decide (activeRotationID r = RotationID receipt)
     && bool_decide (Status receipt = CredentialRotationActive)
  then
    fail_if (bool_decide (SessionID receipt ≠ sessionID r) || bool_decide (Epoch receipt ≠ epoch r))
      ErrCredentialRotationStale ≫= λ _,
    fail_if (bool_decide (Generation receipt ≠ md_Generation (metadata a))) ErrCredentialRotationStale
  else
    match pending r with
    | None => throw ErrCredentialRotationStale
    | Some p =>
        fail_if (bool_decide (RotationID receipt ≠ id p) || bool_decide (SessionID receipt ≠ sessionID r)
                 || bool_decide (Epoch receipt ≠ epoch r)
                 || bool_decide (Status receipt ≠ CredentialRotationPending))
          ErrCredentialRotationStale ≫= λ _,
        lift (validCredentialLocked (Some (credential p)) now2) ≫= λ _,
        fail_if (bool_decide (md_Generation (metadata (credential p)) ≠ Generation receipt))
          ErrCredentialRotationStale ≫= λ _,
        modify (λ r, mkRotation (sessionID r) (epoch r) (Some (credential p)) (active r) None
                       (RotationID receipt) (now3 + 30 * 1000000000)
                       (revoked r) (terminal r) (authorityLost r))
    end.

Definition RetryActivation (rotationID : string) (now : time) : R CredentialRotationReceipt :=
  a ← authorizeLocked now;
  r ← get;
  fail_if (bool_decide (activeRotationID r ≠ rotationID)) ErrCredentialRotationStale ≫= λ _,
  mret (mkReceipt rotationID (sessionID r) (epoch r) (md_Generation (metadata a)) CredentialRotationActive).

Definition Reconnect (epoch_ generation : Z) (now : time) : R unit :=
  fail_if (bool_decide (epoch_ < 1) || bool_decide (generation < 1)) ErrCredentialRotationUnavailable ≫= λ _,
  a ← authorizeLocked now;
  r ← get;
  fail_if (bool_decide (generation ≠ md_Generation (metadata a)) || bool_decide (epoch_ ≤ epoch r))
    ErrCredentialRotationStale ≫= λ _,
  modify (λ r, set_authorityLost (set_epoch r epoch_) false).

Definition ActiveReceipt (now : time) : R CredentialRotationReceipt :=
  a ← authorizeLocked now;
  r ← get;
  mret (mkReceipt "" (sessionID r) (epoch r) (md_Generation (metadata a)) CredentialRotationActive).

Definition RecoveryPermit (now1 now2 now3 : time) : R CredentialRecoveryPermit :=
  authorizeLocked now1 ≫= λ _,
  r ← get;
  match prior r with
  | None => throw ErrCredentialRecoveryRequired
  | Some c =>
      fail_if (After now2 (priorRecoveryUntil r)) ErrCredentialRecoveryRequired ≫= λ _,
      lift (validCredentialLocked (Some c) now3) ≫= λ _,
      mret (mkPermit (sessionID r) (epoch r) (md_Generation (metadata c)))
  end.

Definition Authorize (now : time) : R unit := authorizeLocked now ≫= λ _, mret tt.

(** [fn] runs under the lock; a nil [fn] is refused. *)
Definition withAuthorized {A} (fn : option (R A)) (now : time) : R A :=
  match fn with
  | None => throw ErrCredentialRotationUnavailable
  | Some fn => authorizeLocked now ≫= λ _, fn
  end.

Definition MarkAuthorityLost : R unit :=
  modify (λ r, set_pending (set_authorityLost r true) None).

Definition Revoke : R unit :=
  modify (λ r, mkRotation (sessionID r) (epoch r) None None None (activeRotationID r)
                 (priorRecoveryUntil r) true (terminal r) (authorityLost r)).

Definition Terminal : R unit :=
  modify (λ r, mkRotation (sessionID r) (epoch r) None None None (activeRotationID r)
                 (priorRecoveryUntil r) (revoked r) true (authorityLost r)).

(** ** [AdapterConnectionState]: does the next hello resume? *)

Definition ProtocolVersion : Z := 1.
Definition ProtocolVersionV2 : Z := 2.
Definition ContentModeRequired : string := "required".
Definition ContentModeLegacy : string := "legacy".
Definition RoleAdapter : string := "adapter".

(** The fields of [protocol.Hello], [protocol.HelloAck] and the structs inside
    them; [HelloCapabilities] is only compared with nil here. *)
Record Hello := mkHello {
  h_ProtocolVersion : Z;
  h_Role : string;
  h_Token : string;
  h_SessionID : string;
  h_Provider : string;
  h_Resume : bool;
  h_ContentMode : string;
}.

Record ConnectionAuthorityReceipt := mkAuthority {
  ca_SessionID : string;
  ca_ConnectionEpoch : Z;
  ca_CredentialGeneration : Z;
  ca_AcceptedFence : Z;
  ca_WriterLeaseID : string;
  ca_ExpiresAt : Z;
}.

Record SessionSummary := mkSummary {
  ss_SessionID : string;
  ss_State : string;
  ss_Provider : string;
  ss_LatestSeq : Z;
  ss_ReplayFrom : Z;
}.

Record HelloAck := mkAck {
  ack_ContentMode : string;
  ack_ProtocolVersion : Z;
  ack_Sessions : list SessionSummary;
  ack_Capabilities : option unit;
  ack_ConnectionAuthority : option ConnectionAuthorityReceipt;
}.

Record AdapterConnectionConfig := mkConfig {
  cfg_ContentMode : string;
  cfg_SessionID : string;
  cfg_Provider : string;
  cfg_Token : string;
  cfg_ProtocolVersion : Z;
}.

Record AdapterConnectionState := mkState {
  cfg : AdapterConnectionConfig;
  accepted : bool;
}.

Definition NewAdapterConnectionState (c : AdapterConnectionConfig)
  : core_error + AdapterConnectionState :=
  if bool_decide (cfg_SessionID c = "") then inl ErrInvalidAdapterConnectionConfig
  else if bool_decide (cfg_Provider c = "") then inl ErrInvalidAdapterConnectionConfig
  else if bool_decide (cfg_Token c = "") then inl ErrInvalidAdapterConnectionConfig
  else
    let version := if bool_decide (cfg_ProtocolVersion c = 0) then ProtocolVersion
                   else cfg_ProtocolVersion c in
    if bool_decide (version ≠ ProtocolVersion) && bool_decide (version ≠ ProtocolVersionV2)
    then inl ErrInvalidAdapterConnectionConfig
    else if bool_decide (cfg_ContentMode c ≠ "") && bool_decide (cfg_ContentMode c ≠ ContentModeLegacy)
            && bool_decide (cfg_ContentMode c ≠ ContentModeRequired)
    then inl ErrInvalidAdapterConnectionConfig
    else if bool_decide (cfg_ContentMode c = ContentModeRequired) && bool_decide (version ≠ ProtocolVersionV2)
    then inl ErrInvalidAdapterConnectionConfig
    else inr (mkState (mkConfig (cfg_ContentMode c) (cfg_SessionID c) (cfg_Provider c)
                         (cfg_Token c) version) false).

Definition StateHello (s : AdapterConnectionState) : Hello :=
  mkHello (cfg_ProtocolVersion (cfg s)) RoleAdapter (cfg_Token (cfg s)) (cfg_SessionID (cfg s))
    (cfg_Provider (cfg s)) (accepted s) (cfg_ContentMode (cfg s)).

Definition validConnectionAuthorityReceipt (receipt : option ConnectionAuthorityReceipt)
    (sessionID : string) : bool :=
  match receipt with
  | None => false
  | Some r => bool_decide (ca_SessionID r = sessionID) && bool_decide (0 < ca_ConnectionEpoch r)
      && bool_decide (0 < ca_CredentialGeneration r) && bool_decide (0 < ca_AcceptedFence r)
      && bool_decide (ca_WriterLeaseID r ≠ "") && bool_decide (0 < ca_ExpiresAt r)
  end.

Definition MarkAccepted (ack : HelloAck) : SE AdapterConnectionState core_error SessionSummary :=
  s ← get;
  let c := cfg s in
  fail_if ((bool_decide (cfg_ContentMode c = ContentModeRequired)
            && bool_decide (ack_ContentMode ack ≠ ContentModeRequired))
           || (bool_decide (cfg_ContentMode c ≠ ContentModeRequired)
               && bool_decide (ack_ContentMode ack ≠ "")
               && bool_decide (ack_ContentMode ack ≠ ContentModeLegacy))) ErrInvalidHelloAck ≫= λ _,
  fail_if (bool_decide (ack_ProtocolVersion ack ≠ cfg_ProtocolVersion c)) ErrInvalidHelloAck ≫= λ _,
  fail_if (bool_decide (cfg_ProtocolVersion c = ProtocolVersion)
           && (bool_decide (is_Some (ack_Capabilities ack))
               || bool_decide (is_Some (ack_ConnectionAuthority ack)))) ErrInvalidHelloAck ≫= λ _,
  fail_if (bool_decide (cfg_ProtocolVersion c = ProtocolVersionV2)
           && negb (validConnectionAuthorityReceipt (ack_ConnectionAuthority ack) (cfg_SessionID c)))
    ErrInvalidHelloAck ≫= λ _,
  match ack_Sessions ack with
  | [summary] =>
      fail_if (bool_decide (ss_SessionID summary ≠ cfg_SessionID c)) ErrInvalidHelloAck ≫= λ _,
      fail_if (bool_decide (ss_Provider summary ≠ "")
               && bool_decide (ss_Provider summary ≠ cfg_Provider c)) ErrInvalidHelloAck ≫= λ _,
      modify (λ s, mkState (cfg s) true) ≫= λ _,
      mret summary
  | _ => throw ErrInvalidHelloAck
  end.

(** ** Calls on a rotation as one labelled step *)

Inductive call :=
  | CPrepare (rotationID : string) (c : option SessionCredential) (now1 now2 : time)
  | CPossessionAck (rotationID : string) (acceptedEpoch : Z) (now1 now2 : time)
  | CActivate (receipt : CredentialRotationReceipt) (now1 now2 now3 : time)
  | CRetryActivation (rotationID : string) (now : time)
  | CReconnect (epoch generation : Z) (now : time)
  | CActiveReceipt (now : time)
  | CRecoveryPermit (now1 now2 now3 : time)
  | CAuthorize (now : time)
  | CMarkAuthorityLost
  | CRevoke
  | CTerminal.

Definition void {A} (m : R A) : R unit := m ≫= λ _, mret tt.

Definition exec (c : call) : R unit :=
  match c with
  | CPrepare i c n1 n2 => Prepare i c n1 n2
  | CPossessionAck i e n1 n2 => void (PossessionAck i e n1 n2)
  | CActivate r n1 n2 n3 => Activate r n1 n2 n3
  | CRetryActivation i n => void (RetryActivation i n)
  | CReconnect e g n => Reconnect e g n
  | CActiveReceipt n => void (ActiveReceipt n)
  | CRecoveryPermit n1 n2 n3 => void (RecoveryPermit n1 n2 n3)
  | CAuthorize n => Authorize n
  | CMarkAuthorityLost => MarkAuthorityLost
  | CRevoke => Revoke
  | CTerminal => Terminal
  end.

Definition after (cs : list call) (r : CredentialRotation) : CredentialRotation :=
  foldl (λ r c, (exec c r).1) r cs.

(** The calls that hand out authority: they return a receipt or a permit, or
    let a function run. *)
Definition authorizing (c : call) : bool :=
  match c with
  | CPrepare _ _ _ _ | CMarkAuthorityLost | CRevoke | CTerminal => false
  | _ => true
  end.

(** ** The lineage invariant *)

Definition cred_ok (sid : string) (c : SessionCredential) : Prop :=
  bearer c ≠ "" ∧ md_SessionID (metadata c) = sid ∧ Kind (Lineage (metadata c)) ≠ "" ∧
  1 ≤ md_Generation (metadata c).

Definition gen (c : SessionCredential) : Z := md_Generation (metadata c).

Record lineage_ok (r : CredentialRotation) : Prop := {
  lo_epoch : 1 ≤ epoch r;
  lo_active : ∀ c, active r = Some c → cred_ok (sessionID r) c;
  lo_prior : ∀ c, prior r = Some c → cred_ok (sessionID r) c;
  lo_pending : ∀ p, pending r = Some p → id p ≠ "" ∧ cred_ok (sessionID r) (credential p);
  lo_pending_newer : ∀ p a, pending r = Some p → active r = Some a → gen a < gen (credential p);
  lo_prior_older : ∀ c a, prior r = Some c → active r = Some a → gen c < gen a;
  lo_closed : revoked r = true ∨ terminal r = true →
    active r = None ∧ prior r = None ∧ pending r = None;
  lo_open : revoked r = false → terminal r = false → is_Some (active r);
}.

(** How one call may move a lineage. *)
Record advances (r r' : CredentialRotation) : Prop := {
  ad_session : sessionID r' = sessionID r;
  ad_epoch : epoch r ≤ epoch r';
  ad_gen : ∀ a a', active r = Some a → active r' = Some a' → gen a ≤ gen a';
  ad_gone : active r = None → active r' = None;
  ad_revoked : revoked r = true → revoked r' = true;
  ad_terminal : terminal r = true → terminal r' = true;
  ad_lost : authorityLost r = true → authorityLost r' = true;
}.

Definition good_step (r r' : CredentialRotation) : Prop := lineage_ok r' ∧ advances r r'.

Lemma advances_refl r : advances r r.
Proof. split; auto with lia. intros a a' -> [= ->]. lia. Qed.

Lemma advances_trans r1 r2 r3 : advances r1 r2 → advances r2 r3 → advances r1 r3.
Proof.
  intros A B. destruct A, B. split; try (by auto); try congruence; try lia.
  intros a a' H1 H3. destruct (active r2) as [a2|] eqn:H2.
  - etrans; eauto.
  - rewrite ad_gone1 in H3; done.
Qed.

Lemma good_refl r : lineage_ok r → good_step r r.
Proof. split; [done|apply advances_refl]. Qed.

Lemma good_lost r : lineage_ok r → good_step r (set_authorityLost r true).
Proof.
  intros H. split; [by destruct H; split|].
  split; simpl; auto with lia. intros a a' -> [= ->]. lia.
Qed.

#[local] Hint Resolve good_refl good_lost : wharf.

(** The guard all authorizing calls share. *)
Lemma authorizeLocked_wp now r (Q : SessionCredential → CredentialRotation → Prop) X :
  lineage_ok r →
  (∀ c, active r = Some c → revoked r = false → terminal r = false → authorityLost r = false →
     now < ExpiresAt (metadata c) → Q c r) →
  (∀ e, X e r) →
  X ErrSessionCredentialExpired (set_authorityLost r true) →
  wp (authorizeLocked now) Q X r.
Proof.
  intros Hok HQ HX HXe. unfold authorizeLocked. wp_steps.
  - apply HX.
  - done.
  - unfold authorityLocked in *. repeat case_match; simplify_eq.
    unfold After in *. bool_hyps. by apply HQ.
  - apply HX.
Qed.

Ltac authorized := eapply authorizeLocked_wp; [done|intros ?a ?Ha ?Hrev ?Hterm ?Hlost ?Hexp|auto with wharf..].

Lemma validate_ok c sid now :
  validate (Some c) sid now = inr tt → cred_ok sid c ∧ now < ExpiresAt (metadata c).
Proof.
  unfold validate, cred_ok, After. repeat case_match; intros; simplify_eq; bool_hyps.
  repeat split; auto; [|lia]. by destruct (decide (md_SessionID (metadata c) = sid)).
Qed.

Lemma drop_pending_ok r : lineage_ok r → good_step r (set_pending r None).
Proof.
  intros H. split.
  - destruct H; split; simpl; auto; try done. intros Hc. by destruct (lo_closed0 Hc) as (? & ? & ?).
  - split; simpl; auto with lia. intros a a' -> [= ->]. lia.
Qed.

Lemma good_trans r1 r2 r3 : good_step r1 r2 → good_step r2 r3 → good_step r1 r3.
Proof. intros [_ ?] [? ?]. split; [done|]. by eapply advances_trans. Qed.

Lemma authorityLocked_ok r :
  authorityLocked r = inr tt → revoked r = false ∧ terminal r = false ∧ authorityLost r = false.
Proof. unfold authorityLocked. by repeat case_match. Qed.

(** [Prepare] after its expiry sweep: a fresh pending credential is newer than
    the active one. *)
Lemma prepared_good r i c :
  lineage_ok r → i ≠ "" → cred_ok (sessionID r) c → revoked r = false → terminal r = false →
  from_option (λ a, md_Generation (metadata a)) 0 (active r) < md_Generation (metadata c) →
  good_step r (set_pending r (Some (mkPending i c))).
Proof.
  intros H Hi Hc Hrev Hterm Hgen. split.
  - destruct H; split; simpl; auto.
    + by intros p [= <-].
    + intros p a [= <-] Ha. simpl. rewrite Ha in Hgen. unfold gen. simpl in *. lia.
    + rewrite Hrev, Hterm. by intros [?|?].
  - split; simpl; auto with lia. intros a a' -> [= ->]. lia.
Qed.

Lemma dropExpired_good now r :
  lineage_ok r →
  good_step r (dropExpiredPending now r) ∧ sessionID (dropExpiredPending now r) = sessionID r ∧
  revoked (dropExpiredPending now r) = revoked r ∧ terminal (dropExpiredPending now r) = terminal r.
Proof.
  intros H. unfold dropExpiredPending.
  repeat case_match; auto using drop_pending_ok, good_refl.
Qed.

Lemma Prepare_good i c n1 n2 r :
  lineage_ok r → wp (Prepare i c n1 n2) (λ _, good_step r) (λ _, good_step r) r.
Proof.
  intros Hok. unfold Prepare. destruct (dropExpired_good n2 r Hok) as ([Hok1 Had] & Hs & Hr1 & Ht1).
  wp_steps; auto with wharf; try (by split).
  match goal with H : validate _ _ _ = inr ?u |- _ => destruct u; apply validate_ok in H as [Hc _] end.
  match goal with H : authorityLocked _ = inr ?u |- _ =>
    destruct u; apply authorityLocked_ok in H as (Hrev & Hterm & _) end.
  bool_hyps. eapply good_trans; [by split|].
  apply prepared_good; rewrite ?Hs, ?Hr1, ?Ht1; auto; lia.
Qed.

Lemma activated_good r a p rot t :
  lineage_ok r → active r = Some a → pending r = Some p →
  revoked r = false → terminal r = false →
  good_step r (mkRotation (sessionID r) (epoch r) (Some (credential p)) (active r) None
                 rot t (revoked r) (terminal r) (authorityLost r)).
Proof.
  intros H Ha Hp Hrev Hterm. pose proof (lo_pending_newer r H p a Hp Ha) as Hnew. split.
  - destruct H; split; simpl; auto; try done.
    + intros c [= <-]. by apply lo_pending0.
    + intros c a' E [= <-]. by rewrite Ha in E; simplify_eq.
    + rewrite Hrev, Hterm. by intros [?|?].
  - split; simpl; auto with lia; [|congruence].
    intros a1 a2 E1 [= <-]. assert (a1 = a) as -> by congruence. lia.
Qed.

Lemma reconnected_good r e :
  lineage_ok r → epoch r < e → authorityLost r = false →
  good_step r (set_authorityLost (set_epoch r e) false).
Proof.
  intros H He Hl. split.
  - destruct H; split; simpl; auto; lia.
  - split; simpl; auto with lia; [|congruence]. intros a a' -> [= ->]. lia.
Qed.

Lemma closed_good r rev term :
  lineage_ok r → (revoked r = true → rev = true) → (terminal r = true → term = true) →
  rev || term = true →
  good_step r (mkRotation (sessionID r) (epoch r) None None None (activeRotationID r)
                 (priorRecoveryUntil r) rev term (authorityLost r)).
Proof.
  intros H Hrev Hterm Hor. split.
  - destruct H; split; simpl; auto; try done. intros -> ->. done.
  - split; simpl; auto with lia. done.
Qed.

Lemma exec_good c r : lineage_ok r → wp (exec c) (λ _, good_step r) (λ _, good_step r) r.
Proof.
  intros Hok. destruct c; cbn [exec]; unfold void.
  - by apply Prepare_good.
  - unfold PossessionAck. do 2 wp_step. authorized. wp_steps; auto with wharf.
  - unfold Activate. wp_step. authorized. wp_steps; auto with wharf.
    by eapply activated_good.
  - unfold RetryActivation. do 2 wp_step. authorized. wp_steps; auto with wharf.
  - unfold Reconnect. wp_step. wp_step; auto with wharf. wp_step. authorized.
    wp_steps; auto with wharf. bool_hyps. apply reconnected_good; auto with lia.
  - unfold ActiveReceipt. do 2 wp_step. authorized. wp_steps; auto with wharf.
  - unfold RecoveryPermit. do 2 wp_step. authorized. wp_steps; auto with wharf.
  - unfold Authorize. wp_step. authorized. wp_steps; auto with wharf.
  - unfold MarkAuthorityLost. wp_steps.
    eapply good_trans; [by apply good_lost|]. apply drop_pending_ok. by apply good_lost.
  - unfold Revoke. wp_steps. apply closed_good; auto.
  - unfold Terminal. wp_steps. apply closed_good; auto using orb_true_r.
Qed.

Lemma exec_good_step c r : lineage_ok r → good_step r (exec c r).1.
Proof.
  intros H. pose proof (exec_good c r H) as W. unfold wp in W.
  by destruct (exec c r) as [r' [e|[]]].
Qed.

Lemma after_good cs r : lineage_ok r → good_step r (after cs r).
Proof.
  revert r. induction cs as [|c cs IH]; intros r H; simpl; [by apply good_refl|].
  pose proof (exec_good_step c r H) as Hs. eapply good_trans; [done|]. apply IH. apply Hs.
Qed.

Lemma NewCredentialRotation_ok sid initial e now r :
  NewCredentialRotation sid initial e now = inr r → lineage_ok r ∧ sessionID r = sid.
Proof.
  unfold NewCredentialRotation. destruct initial as [c|]; [|done].
  repeat case_match; intros; simplify_eq. bool_hyps.
  match goal with u : unit |- _ => destruct u end.
  match goal with H : validate _ _ _ = _ |- _ => apply validate_ok in H as [Hc _] end.
  split; [|done]. split; simpl; try done; try lia.
  - by intros ? [= <-].
Qed.

(** A lineage without authority refuses every authorizing call. *)
Definition powerless (r : CredentialRotation) : Prop :=
  revoked r = true ∨ terminal r = true ∨ authorityLost r = true.

Lemma powerless_refuses c r :
  lineage_ok r → powerless r → authorizing c = true → ∃ e, exec c r = (r, inl e).
Proof.
  intros Hok Hp Hc.
  assert (∀ now, ∃ e, authorizeLocked now r = (r, inl e)) as Hauth.
  { intros now. unfold authorizeLocked. cbn. unfold authorityLocked.
    unfold mbind, SE_bind, get, lift. cbn.
    destruct Hp as [->|[Ht|Hl]]; [by eexists| |]; repeat case_match; simplify_eq; by eexists. }
  assert (∀ A now (k : SessionCredential → R A), ∃ e, (authorizeLocked now ≫= k) r = (r, inl e)) as Hb.
  { intros A now k. destruct (Hauth now) as [e He]. exists e. unfold mbind, SE_bind. by rewrite He. }
  assert (∀ A (m : R A), (∃ e, m r = (r, inl e)) → ∃ e, void m r = (r, inl e)) as Hv.
  { intros A m [e He]. exists e. unfold void, mbind, SE_bind. by rewrite He. }
  destruct c as [| | | |e' g now| | | | | |]; try done; cbn [exec]; try (apply Hv, Hb); try apply Hb.
  unfold Reconnect, fail_if. destruct (_ || _); [by eexists|]. apply Hb.
Qed.

Lemma powerless_kept r r' : advances r r' → powerless r → powerless r'.
Proof. intros [] [?|[?|?]]; unfold powerless; auto. Qed.

(** Evaluate the decided tests of a goal. *)
Ltac decide_all :=
  repeat first [rewrite bool_decide_true by done | rewrite bool_decide_false by (by auto)].

(** ** Properties *)

(** from a lineage created by [NewCredentialRotation], any sequence of calls
    keeps the lineage invariant (every held credential belongs to the Session,
    the pending one is newer than the active one and the prior one older, a
    revoked or terminal lineage holds nothing), never lowers the accepted epoch
    or the active generation, and never clears a revoked, terminal or
    authority-lost flag. *)
Theorem rotation_lineage_invariant sid initial e now r (cs1 cs2 : list call) :
  NewCredentialRotation sid initial e now = inr r →
  lineage_ok (after cs1 r) ∧ advances (after cs1 r) (after cs2 (after cs1 r)).
Proof.
  intros [Hok _]%NewCredentialRotation_ok. pose proof (after_good cs1 r Hok) as [H1 _].
  split; [done|]. apply (after_good cs2 _ H1).
Qed.


(** C33: the rotation protocol completes: with an unexpired active and a valid
    newer credential, [Prepare], [PossessionAck] at the current epoch and
    [Activate] with the receipt succeed, make the new credential active and the
    old one prior for thirty seconds; repeating [Activate] with the receipt of
    [RetryActivation] changes nothing, while the used pending receipt is
    refused as stale. *)
Theorem rotation_completes r a c i now :
  lineage_ok r → active r = Some a → pending r = None →
  revoked r = false → terminal r = false → authorityLost r = false →
  validate (Some c) (sessionID r) now = inr tt → i ≠ "" →
  gen a < gen c → now < ExpiresAt (metadata a) →
  let r1 := set_pending r (Some (mkPending i c)) in
  let r2 := mkRotation (sessionID r) (epoch r) (Some c) (Some a) None i
              (now + 30 * 1000000000) false false false in
  let pendingReceipt := mkReceipt i (sessionID r) (epoch r) (gen c) CredentialRotationPending in
  let activeReceipt := mkReceipt i (sessionID r) (epoch r) (gen c) CredentialRotationActive in
  Prepare i (Some c) now now r = (r1, inr tt) ∧
  PossessionAck i (epoch r) now now r1 = (r1, inr pendingReceipt) ∧
  Activate pendingReceipt now now now r1 = (r2, inr tt) ∧
  RetryActivation i now r2 = (r2, inr activeReceipt) ∧
  Activate activeReceipt now now now r2 = (r2, inr tt) ∧
  Activate pendingReceipt now now now r2 = (r2, inl ErrCredentialRotationStale) ∧
  RecoveryPermit now now now r2 = (r2, inr (mkPermit (sessionID r) (epoch r) (gen a))).
Proof.
  intros Hok Ha Hp Hrev Hterm Hlost Hval Hi Hgen Hexp r1 r2 pr ar.
  pose proof (validate_ok _ _ _ Hval) as [_ Hexpc].
  assert (∀ r' a', active r' = Some a' → revoked r' = false → terminal r' = false →
    authorityLost r' = false → now < ExpiresAt (metadata a') →
    authorizeLocked now r' = (r', inr a')) as Hauth.
  { intros r' a' E1 E2 E3 E4 E5. unfold authorizeLocked, mbind, SE_bind, get, lift, authorityLocked.
    rewrite E2, E3, E4, E1. unfold After. by rewrite bool_decide_true by done. }
  assert (After (ExpiresAt (metadata a)) now = true) as HAa by by apply bool_decide_eq_true.
  assert (After (ExpiresAt (metadata c)) now = true) as HAc by by apply bool_decide_eq_true.
  subst pr ar. split_and!.
  - unfold Prepare, fail_if, mbind, SE_bind, get, lift, modify, throw.
    rewrite bool_decide_false by done. cbn -[validate bool_decide]. rewrite Hval.
    unfold authorityLocked, dropExpiredPending. rewrite Hrev, Hterm, Hlost, Hp, Hp, Ha.
    cbn -[bool_decide]. by rewrite bool_decide_false by (unfold gen in Hgen; lia).
  - unfold PossessionAck, mbind, SE_bind, get. rewrite (Hauth r1 a) by done.
    cbn -[bool_decide]. unfold fail_if, lift. cbn -[bool_decide]. rewrite HAc. by decide_all.
  - unfold Activate, mbind, SE_bind, get. rewrite (Hauth r1 a) by done.
    cbn -[bool_decide]. rewrite HAc. unfold gen. decide_all.
    rewrite ?andb_false_r. cbn -[bool_decide]. decide_all. unfold modify, r1, r2. simpl. by rewrite Ha, Hrev, Hterm, Hlost.
  - unfold RetryActivation, mbind, SE_bind, get. rewrite (Hauth r2 c) by done.
    cbn -[bool_decide]. by decide_all.
  - unfold Activate, mbind, SE_bind, get. rewrite (Hauth r2 c) by done.
    cbn -[bool_decide]. unfold gen. by decide_all.
  - unfold Activate, mbind, SE_bind, get. rewrite (Hauth r2 c) by done.
    cbn -[bool_decide]. by decide_all; rewrite ?andb_false_r.
  - unfold RecoveryPermit, mbind, SE_bind, get. rewrite (Hauth r2 c) by done.
    unfold fail_if, lift, validCredentialLocked. cbn -[After Z.mul]. rewrite HAa.
    unfold After. by rewrite bool_decide_false by lia.
Qed.

(** What an acknowledgement must agree on with the configuration. *)
Definition ack_matches (c : AdapterConnectionConfig) (ack : HelloAck) (summary : SessionSummary) : Prop :=
  ack_Sessions ack = [summary] ∧ ss_SessionID summary = cfg_SessionID c ∧
  (ss_Provider summary = "" ∨ ss_Provider summary = cfg_Provider c) ∧
  ack_ProtocolVersion ack = cfg_ProtocolVersion c ∧
  (cfg_ContentMode c = ContentModeRequired ↔ ack_ContentMode ack = ContentModeRequired) ∧
  (cfg_ProtocolVersion c = ProtocolVersionV2 →
     ∃ a, ack_ConnectionAuthority ack = Some a ∧ ca_SessionID a = cfg_SessionID c ∧
          0 < ca_ConnectionEpoch a ∧ 0 < ca_AcceptedFence a ∧ 0 < ca_CredentialGeneration a).

Lemma content_mode_kept (wanted got : string) :
  (bool_decide (wanted = ContentModeRequired) && bool_decide (got ≠ ContentModeRequired))
  || (bool_decide (wanted ≠ ContentModeRequired) && bool_decide (got ≠ "")
      && bool_decide (got ≠ ContentModeLegacy)) = false →
  (wanted = ContentModeRequired ↔ got = ContentModeRequired).
Proof.
  destruct (decide (wanted = ContentModeRequired)), (decide (got = ContentModeRequired)) as [->|];
    decide_all; naive_solver.
Qed.

Lemma authority_complete (r : option ConnectionAuthorityReceipt) (sid : string) :
  validConnectionAuthorityReceipt r sid = true →
  ∃ a, r = Some a ∧ ca_SessionID a = sid ∧
       0 < ca_ConnectionEpoch a ∧ 0 < ca_AcceptedFence a ∧ 0 < ca_CredentialGeneration a.
Proof. destruct r as [a|]; [|done]. simpl. intros. bool_hyps. by exists a. Qed.

(** [MarkAccepted] accepts an acknowledgement only for the configured
    Session, provider, protocol version and content mode (and, in version 2,
    only with a complete authority receipt); then later hellos ask to resume.
    A refused acknowledgement leaves the state as it was. *)
Theorem hello_resumes_iff_accepted (s : AdapterConnectionState) (ack : HelloAck) :
  match MarkAccepted ack s with
  | (s', inr summary) => s' = mkState (cfg s) true ∧ h_Resume (StateHello s') = true ∧
                         ack_matches (cfg s) ack summary
  | (s', inl err) => s' = s ∧ err = ErrInvalidHelloAck
  end.
Proof.
  enough (wp (MarkAccepted ack) (λ summary s', s' = mkState (cfg s) true ∧
            h_Resume (StateHello s') = true ∧ ack_matches (cfg s) ack summary)
      (λ err s', s' = s ∧ err = ErrInvalidHelloAck) s) as H.
  { unfold wp in H. by destruct (MarkAccepted ack s) as [s' [e|summary]]. }
  unfold MarkAccepted. wp_steps; try done.
  split_and!; [done..|]. unfold ack_matches. split_and!; try done.
  - match goal with H : bool_decide (ss_SessionID _ ≠ _) = false |- _ =>
      apply bool_decide_eq_false, dec_stable in H; exact H end.
  - match goal with H : bool_decide (ss_Provider _ ≠ "") && _ = false |- _ =>
      apply andb_false_iff in H as [H|H]; apply bool_decide_eq_false, dec_stable in H; auto end.
  - match goal with H : bool_decide (ack_ProtocolVersion _ ≠ _) = false |- _ =>
      apply bool_decide_eq_false, dec_stable in H; exact H end.
  - by apply content_mode_kept.
  - intros Hv. match goal with H : _ && negb (validConnectionAuthorityReceipt _ _) = false |- _ =>
      rewrite bool_decide_true in H by done; apply negb_false_iff in H; by apply authority_complete end.
Qed.

(** ** Instances at concrete inputs *)

Definition demo_cred (g : Z) : SessionCredential :=
  mkCredential "tok" (mkMetadata "ses" (mkLineage "bootstrap" "" "jti") g 1000).

Definition demo (lost : bool) : CredentialRotation :=
  mkRotation "ses" 1 (Some (demo_cred 1)) None None "" zero_time false false lost.

Lemma demo_ok lost : lineage_ok (demo lost).
Proof.
  split; simpl; try done.
  - intros c [= <-]. by repeat split.
  - by intros [?|?].
Qed.

Lemma rotation_lineage_invariant_witness :
  lineage_ok (after [CPrepare "r2" (Some (demo_cred 2)) 10 10; CRevoke] (demo false)).
Proof.
  apply (rotation_lineage_invariant "ses" (Some (demo_cred 1)) 1 5 (demo false)
           [CPrepare "r2" (Some (demo_cred 2)) 10 10; CRevoke] []).
  vm_compute. reflexivity.
Defined.


Lemma rotation_completes_witness :
  Prepare "r2" (Some (demo_cred 2)) 10 10 (demo false)
    = (set_pending (demo false) (Some (mkPending "r2" (demo_cred 2))), inr tt).
Proof.
  apply (rotation_completes (demo false) (demo_cred 1) (demo_cred 2) "r2" 10);
    try reflexivity; try discriminate; apply demo_ok.
Defined.

End CredentialRotation.
