(* ===== verification/StoreApi.v ===== *)
(** * The Store interface

    [store/store.go]: the event types every component exchanges, and what an
    [EventStore] promises its callers, as a class whose laws a Store
    implementation discharges.  The Hub's clients of a Store are proved
    against the class. *)

From S2P Require Import Prelude.
From stdpp Require Import base strings list.
#[local] Open Scope Z_scope.

Record PendingEvent := mkPendingEvent {
  pe_Type : string;
  pe_Time : time;
  pe_Payload : string;
}.

Record Event := mkEvent {
  SessionID : string;
  Seq : Z;
  Type_ : string;
  Time : time;
  Payload : string;
}.

(** A durable event keeps its time at millisecond precision. *)
Definition durable (sid : string) (seq : Z) (ev : PendingEvent) : Event :=
  mkEvent sid seq (pe_Type ev) (of_UnixMilli (UnixMilli (pe_Time ev))) (pe_Payload ev).

(** The events of one append, numbered from [first]. *)
Fixpoint numbered (sid : string) (first : Z) (evs : list PendingEvent) : list Event :=
  match evs with
  | [] => []
  | ev :: evs => durable sid first ev :: numbered sid (first + 1) evs
  end.

Lemma numbered_length sid first evs : length (numbered sid first evs) = length evs.
Proof. revert first. induction evs; intros; simpl; auto. Qed.

Lemma numbered_app sid first evs1 evs2 :
  numbered sid first (evs1 ++ evs2)
    = numbered sid first evs1 ++ numbered sid (first + Z.of_nat (length evs1)) evs2.
Proof.
  revert first. induction evs1 as [|ev evs1 IH]; intros first; simpl.
  - by rewrite Z.add_0_r.
  - rewrite IH. do 2 f_equal. f_equal. lia.
Qed.

Lemma numbered_lookup sid first evs (i : nat) :
  numbered sid first evs !! i = durable sid (first + Z.of_nat i) <$> evs !! i.
Proof.
  revert first i. induction evs as [|ev evs IH]; intros first [|i]; simpl; try done.
  - by rewrite Z.add_0_r.
  - rewrite IH. do 2 f_equal. lia.
Qed.

(** ** [EventStore]

    [es_log st sid] is what a replay of the whole Session delivers.  A
    successful append extends the log of its Session by the given events,
    numbered from the returned sequence on (all of them [int64] values), and
    touches no other Session; a failed one changes no log.  The sequence numbers of a log are contiguous
    from 1 and [es_latest] is the last of them. *)

Class EventStore (st : Type) := {
  es_append : st → string → list PendingEvent → st * (error + Z);
  es_log : st → string → list Event;
  es_latest : st → string → Z;
}.

Class EventStoreLaws (st : Type) `{EventStore st} (ok : st → Prop) := {
  es_latest_log s sid : ok s → es_latest s sid = Z.of_nat (length (es_log s sid));
  es_log_seq s sid (i : nat) ev : ok s → es_log s sid !! i = Some ev →
    Seq ev = Z.of_nat i + 1 ∧ SessionID ev = sid;
  es_append_ok s s' sid evs first : ok s → evs ≠ [] →
    es_append s sid evs = (s', inr first) →
    ok s' ∧ first = es_latest s sid + 1 ∧ first + Z.of_nat (length evs) - 1 ≤ max_int64 ∧
    es_log s' sid = es_log s sid ++ numbered sid first evs ∧
    ∀ sid', sid' ≠ sid → es_log s' sid' = es_log s sid';
  es_append_err s s' sid evs err : ok s → es_append s sid evs = (s', inl err) →
    ok s' ∧ ∀ sid', es_log s' sid' = es_log s sid';
}.
