(* ===== verification/EventBatcher.v ===== *)
(** * Publication order and event batching in the Hub

    [hub/event_batcher.go].  [Gates] models [sessionPublicationGates], the
    per-Session queue of writers; [Batcher] models [adapterEventBatcher], whose
    goroutine collects Adapter events and commits them in batches.  Both are
    concurrent objects: a step function says which atomic action happens next,
    and the properties hold for every schedule. *)

From S2P Require Import Prelude StoreApi.
From stdpp Require Import base gmap strings list relations.
#[local] Open Scope Z_scope.

Module Gates.

(** A call of [acquire]: its channel [current] is its position in the list of
    calls, and is closed when the call is [Released].  [Waiting] is blocked in
    the select, [Holding] has returned its release function, [Cancelled] has
    returned [ctx.Err()] and left a goroutine that waits for [previous]. *)
Inductive status := Waiting | Holding | Cancelled | Released.

#[global] Instance status_eq_dec : EqDecision status.
Proof. solve_decision. Defined.

Record waiter := mkWaiter {
  w_session : string;
  w_previous : option nat;
  w_status : status;
}.

Record gates := mkGates {
  tail : gmap string nat;
  calls : list waiter;
}.

Definition init : gates := mkGates ∅ [].

Inductive action :=
  | Enter (sessionID : string)   (** the locked prefix of [acquire] *)
  | Proceed (current : nat)      (** [case <-previous], or no predecessor *)
  | Cancel (current : nat)       (** [case <-ctx.Done()] *)
  | Release (current : nat).     (** the returned function, or the goroutine *)

(** Is the channel [previous] closed (or nil)? *)
Definition opened (g : gates) (previous : option nat) : bool :=
  match previous with
  | None => true
  | Some p => match calls g !! p with
              | Some w => bool_decide (w_status w = Released)
              | None => false
              end
  end.

Definition set_status (g : gates) (current : nat) (w : waiter) (st : status) : gates :=
  mkGates (tail g) (<[current := mkWaiter (w_session w) (w_previous w) st]> (calls g)).

Definition release (g : gates) (current : nat) (w : waiter) : gates :=
  let tail' := if bool_decide (tail g !! w_session w = Some current)
               then delete (w_session w) (tail g) else tail g in
  mkGates tail' (<[current := mkWaiter (w_session w) (w_previous w) Released]> (calls g)).

(** [None]: the action is not enabled. *)
Definition step (a : action) (g : gates) : option gates :=
  match a with
  | Enter sessionID =>
      let current := length (calls g) in
      Some (mkGates (<[sessionID := current]> (tail g))
              (calls g ++ [mkWaiter sessionID (tail g !! sessionID) Waiting]))
  | Proceed current =>
      w ← calls g !! current;
      if bool_decide (w_status w = Waiting) && opened g (w_previous w)
      then Some (set_status g current w Holding) else None
  | Cancel current =>
      w ← calls g !! current;
      if bool_decide (w_status w = Waiting) && bool_decide (is_Some (w_previous w))
      then Some (set_status g current w Cancelled) else None
  | Release current =>
      w ← calls g !! current;
      if bool_decide (w_status w = Holding)
         || (bool_decide (w_status w = Cancelled) && opened g (w_previous w))
      then Some (release g current w) else None
  end.

Fixpoint run (as_ : list action) (g : gates) : option gates :=
  match as_ with
  | [] => Some g
  | a :: as_ => step a g ≫= run as_
  end.

(** ** Invariant

    The unreleased calls of a Session, in order of entry, form a chain: each
    waits for the one before it, the first waits for nobody (or for a closed
    channel), only the first can hold, and [tail] points to the last. *)

Definition live (g : gates) (sid : string) (i : nat) : Prop :=
  ∃ w, calls g !! i = Some w ∧ w_session w = sid ∧ w_status w ≠ Released.

Record gates_ok (g : gates) : Prop := {
  go_prev : ∀ i w p, calls g !! i = Some w → w_previous w = Some p →
    (p < i)%nat ∧ ∃ wp, calls g !! p = Some wp ∧ w_session wp = w_session w;
  (** no live call of the Session lies between a live call and its predecessor *)
  go_chain : ∀ i w j, calls g !! i = Some w → w_status w ≠ Released →
    live g (w_session w) j → (j < i)%nat → ∃ p, w_previous w = Some p ∧ (j ≤ p)%nat ∧ live g (w_session w) p;
  go_holding : ∀ i w, calls g !! i = Some w → w_status w = Holding →
    ∀ j, live g (w_session w) j → (i ≤ j)%nat;
  go_tail : ∀ sid t, tail g !! sid = Some t → live g sid t ∧ ∀ j, live g sid j → (j ≤ t)%nat;
  go_tail_none : ∀ sid, tail g !! sid = None → ∀ j, ¬ live g sid j;
}.

Lemma gates_ok_init : gates_ok init.
Proof. by split; simpl; try done; intros ? ? ? (? & ? & _). Qed.

(** The first live call of a Session is the one whose predecessor is done. *)
Definition head_of (g : gates) (sid : string) (i : nat) : Prop :=
  live g sid i ∧ ∀ j, live g sid j → (i ≤ j)%nat.

Lemma opened_head g i w :
  gates_ok g → calls g !! i = Some w → w_status w ≠ Released →
  opened g (w_previous w) = true → head_of g (w_session w) i.
Proof.
  intros Hok Hi Hst Hop. split; [by exists w|]. intros j Hj.
  destruct (decide (i ≤ j)%nat) as [|Hlt]; [done|exfalso].
  destruct (go_chain g Hok i w j Hi Hst Hj) as (p & Hp & _ & wp & Hwp & _ & Hns); [lia|].
  rewrite Hp in Hop. simpl in Hop. rewrite Hwp in Hop. by apply bool_decide_eq_true in Hop.
Qed.

Lemma head_opened g i w :
  gates_ok g → calls g !! i = Some w → head_of g (w_session w) i → opened g (w_previous w) = true.
Proof.
  intros Hok Hi [Hl Hmin]. destruct (w_previous w) as [p|] eqn:Hp; [|done]. simpl.
  destruct (go_prev g Hok i w p Hi Hp) as (Hlt & wp & Hwp & Hs). rewrite Hwp.
  apply bool_decide_eq_true. destruct (decide (w_status wp = Released)) as [|Hns]; [done|].
  assert (live g (w_session w) p) as Hlp by (by exists wp). apply Hmin in Hlp. lia.
Qed.

(** Changing the status of a call between unreleased ones changes no live set. *)
Lemma live_set_status g i w st sid j :
  calls g !! i = Some w → w_status w ≠ Released → st ≠ Released →
  live (set_status g i w st) sid j ↔ live g sid j.
Proof.
  intros Hi Hw Hst. unfold live, set_status; simpl.
  destruct (decide (i = j)) as [<-|Hne].
  - rewrite list_lookup_insert_eq by (by eapply lookup_lt_Some). naive_solver.
  - by rewrite list_lookup_insert_ne by done.
Qed.

Lemma live_release g i w sid j :
  calls g !! i = Some w →
  live (release g i w) sid j ↔ live g sid j ∧ j ≠ i.
Proof.
  intros Hi. unfold live, release; simpl.
  destruct (decide (i = j)) as [<-|Hne].
  - rewrite list_lookup_insert_eq by (by eapply lookup_lt_Some). naive_solver.
  - rewrite list_lookup_insert_ne by done. naive_solver.
Qed.

Lemma lookup_updated g i w st j w' :
  calls g !! i = Some w →
  <[i := mkWaiter (w_session w) (w_previous w) st]> (calls g) !! j = Some w' →
  ∃ w0, calls g !! j = Some w0 ∧ w_session w' = w_session w0 ∧ w_previous w' = w_previous w0 ∧
    (w_status w' = w_status w0 ∨ i = j ∧ w0 = w ∧ w_status w' = st).
Proof.
  intros Hi. destruct (decide (i = j)) as [<-|Hne].
  - rewrite list_lookup_insert_eq by (by eapply lookup_lt_Some). intros [= <-]. eauto 10.
  - rewrite list_lookup_insert_ne by done. eauto 10.
Qed.

Lemma set_status_ok g i w st :
  gates_ok g → calls g !! i = Some w → w_status w ≠ Released → st ≠ Released →
  (st = Holding → head_of g (w_session w) i) →
  gates_ok (set_status g i w st).
Proof.
  intros Hok Hi Hw Hst Hhold.
  assert (∀ sid j, live (set_status g i w st) sid j ↔ live g sid j) as Hlive
    by (intros; by apply live_set_status).
  split; unfold set_status; simpl.
  - intros j w' p Hj Hp. destruct (lookup_updated _ _ _ _ _ _ Hi Hj) as (w0 & H0 & Hs & Hpr & _).
    rewrite Hpr in Hp. destruct (go_prev g Hok j w0 p H0 Hp) as (Hlt & wp & Hwp & Hsp).
    split; [done|]. rewrite Hs, <-Hsp. destruct (decide (i = p)) as [<-|Hne].
    + eexists. rewrite list_lookup_insert_eq by (by eapply lookup_lt_Some).
      split; [done|]. simpl. congruence.
    + exists wp. by rewrite list_lookup_insert_ne by done.
  - intros j w' k Hj Hns Hk Hlt. apply Hlive in Hk.
    destruct (lookup_updated _ _ _ _ _ _ Hi Hj) as (w0 & H0 & Hs & Hpr & Hstat).
    assert (w_status w0 ≠ Released) as Hns0.
    { destruct Hstat as [<-|(_ & -> & _)]; done. }
    rewrite Hs in *. destruct (go_chain g Hok j w0 k H0 Hns0 Hk Hlt) as (p & Hp & Hle & Hlp).
    exists p. rewrite Hpr. split_and!; [done|done|by apply Hlive].
  - intros j w' Hj Hh k Hk. apply Hlive in Hk.
    destruct (lookup_updated _ _ _ _ _ _ Hi Hj) as (w0 & H0 & Hs & Hpr & Hstat).
    rewrite Hs in *. destruct Hstat as [Heq|(<- & -> & Heq)].
    + eapply (go_holding g Hok); eauto. congruence.
    + apply Hhold; [congruence|done].
  - intros sid t Ht. destruct (go_tail g Hok sid t Ht) as [H1 H2].
    split; [by apply Hlive|]. intros j Hj. apply H2. by apply Hlive.
  - intros sid Ht j Hj. apply Hlive in Hj. by eapply (go_tail_none g Hok).
Qed.

Lemma release_ok g i w :
  gates_ok g → calls g !! i = Some w → head_of g (w_session w) i → gates_ok (release g i w).
Proof.
  intros Hok Hi [Hl Hmin].
  assert (∀ sid j, live (release g i w) sid j ↔ live g sid j ∧ j ≠ i) as Hlive
    by (intros; by apply live_release).
  split; unfold release; simpl.
  - intros j w' p Hj Hp. destruct (lookup_updated _ _ _ _ _ _ Hi Hj) as (w0 & H0 & Hs & Hpr & _).
    rewrite Hpr in Hp. destruct (go_prev g Hok j w0 p H0 Hp) as (Hlt & wp & Hwp & Hsp).
    split; [done|]. rewrite Hs, <-Hsp. destruct (decide (i = p)) as [<-|Hne].
    + eexists. rewrite list_lookup_insert_eq by (by eapply lookup_lt_Some).
      split; [done|]. simpl. congruence.
    + exists wp. by rewrite list_lookup_insert_ne by done.
  - intros j w' k Hj Hns [Hk Hki]%Hlive Hlt.
    destruct (lookup_updated _ _ _ _ _ _ Hi Hj) as (w0 & H0 & Hs & Hpr & Hstat).
    destruct Hstat as [Heq|(_ & _ & Heq)]; [|congruence]. rewrite Hs in *.
    destruct (go_chain g Hok j w0 k H0 ltac:(congruence) Hk Hlt) as (p & Hp & Hle & Hlp).
    exists p. rewrite Hpr. split_and!; [done|done|]. apply Hlive. split; [done|]. intros ->.
    assert (w_session w = w_session w0) as Hss.
    { destruct Hlp as (wi & E & Hses & _). congruence. }
    rewrite <-Hss in Hk. apply Hmin in Hk. lia.
  - intros j w' Hj Hh k [Hk _]%Hlive.
    destruct (lookup_updated _ _ _ _ _ _ Hi Hj) as (w0 & H0 & Hs & Hpr & Hstat).
    rewrite Hs in *. destruct Hstat as [Heq|(_ & _ & Heq)]; [|congruence].
    eapply (go_holding g Hok); eauto. congruence.
  - intros sid t Ht. case_bool_decide as Hti.
    + apply lookup_delete_Some in Ht as [Hne Ht]. destruct (go_tail g Hok sid t Ht) as [H1 H2].
      split; [|intros j [Hj _]%Hlive; auto]. apply Hlive. split; [done|]. intros ->.
      destruct H1 as (wi & E & Hses & _). congruence.
    + destruct (go_tail g Hok sid t Ht) as [H1 H2].
      split; [|intros j [Hj _]%Hlive; auto]. apply Hlive. split; [done|]. intros ->.
      destruct H1 as (wi & E & Hses & _). congruence.
  - intros sid Ht j [Hj Hji]%Hlive. case_bool_decide as Hti.
    + apply lookup_delete_None in Ht as [<-|Ht]; [|by eapply (go_tail_none g Hok)].
      destruct (go_tail g Hok _ _ Hti) as [_ H2]. apply H2 in Hj as ?. apply Hmin in Hj. lia.
    + by eapply (go_tail_none g Hok).
Qed.

Lemma live_enter g sid x j :
  live (mkGates (<[sid := length (calls g)]> (tail g))
          (calls g ++ [mkWaiter sid (tail g !! sid) Waiting])) x j ↔
  live g x j ∨ (x = sid ∧ j = length (calls g)).
Proof.
  unfold live; simpl. split.
  - intros (w & [Hw|[Hge Hw]]%lookup_app_Some & Hs & Hst); [left; eauto|].
    apply list_lookup_singleton_Some in Hw as [Hj <-]. right. simpl in *. split; [done|lia].
  - intros [(w & Hw & ? & ?)|[-> ->]].
    + exists w. split; [by apply lookup_app_l_Some|done].
    + eexists. split; [|split; [|]]; [by apply list_lookup_middle|done|done].
Qed.

Lemma enter_ok g sid g' : gates_ok g → step (Enter sid) g = Some g' → gates_ok g'.
Proof.
  intros Hok [= <-]. split; simpl.
  - intros i w p [Hw|[Hge Hw]]%lookup_app_Some Hp.
    + destruct (go_prev g Hok i w p Hw Hp) as (? & wp & ? & ?).
      split; [done|]. exists wp. split; [by apply lookup_app_l_Some|done].
    + apply list_lookup_singleton_Some in Hw as [Hi <-]. simpl in *.
      destruct (go_tail g Hok sid p Hp) as [(wp & Hwp & Hs & _) _].
      pose proof (lookup_lt_Some _ _ _ Hwp). split; [lia|].
      exists wp. split; [by apply lookup_app_l_Some|done].
  - intros i w j [Hw|[Hge Hw]]%lookup_app_Some Hns Hj Hlt.
    + apply live_enter in Hj as [Hj|[_ ->]]; [|apply lookup_lt_Some in Hw; lia].
      destruct (go_chain g Hok i w j Hw Hns Hj Hlt) as (p & ? & ? & ?).
      exists p. split_and!; [done|done|]. apply live_enter. by left.
    + apply list_lookup_singleton_Some in Hw as [Hi <-]. simpl in *.
      apply live_enter in Hj as [Hj|[_ ->]]; [|lia].
      destruct (tail g !! sid) as [t|] eqn:Ht; [|by eapply (go_tail_none g Hok) in Ht].
      destruct (go_tail g Hok sid t Ht) as [Hlt' Hmax].
      exists t. split_and!; [done|by apply Hmax|]. rewrite <-Ht. apply live_enter. by left.
  - intros i w [Hw|[Hge Hw]]%lookup_app_Some Hh j Hj.
    + apply live_enter in Hj as [Hj|[_ ->]]; [by eapply (go_holding g Hok)|].
      apply lookup_lt_Some in Hw. lia.
    + by apply list_lookup_singleton_Some in Hw as [Hi <-].
  - intros x t Ht. destruct (decide (sid = x)) as [<-|Hne].
    + rewrite lookup_insert_eq in Ht. injection Ht as <-. split; [apply live_enter; by right|].
      intros j [Hj|[_ ->]]%live_enter; [|done].
      destruct Hj as (w & Hw%lookup_lt_Some & _). lia.
    + rewrite lookup_insert_ne in Ht by done. destruct (go_tail g Hok x t Ht) as [H1 H2].
      split; [apply live_enter; by left|]. intros j [Hj|[-> _]]%live_enter; [auto|done].
  - intros x Hx j Hj. destruct (decide (sid = x)) as [<-|Hne].
    + by rewrite lookup_insert_eq in Hx.
    + rewrite lookup_insert_ne in Hx by done. apply live_enter in Hj as [Hj|[-> _]]; [|done].
      by eapply (go_tail_none g Hok).
Qed.

Lemma step_ok a g g' : gates_ok g → step a g = Some g' → gates_ok g'.
Proof.
  intros Hok. destruct a as [sid|i|i|i]; [by apply enter_ok|..]; cbn [step];
    intros (w & Hw & H)%bind_Some; case_match; simplify_eq; bool_hyps.
  - apply set_status_ok; try done; try congruence. intros _.
    apply opened_head; auto. congruence.
  - apply set_status_ok; try done; congruence.
  - apply release_ok; auto.
    match goal with H : _ || _ = true |- _ => apply orb_true_iff in H as [Hh|[Hc Ho]%andb_true_iff] end;
      bool_hyps.
    + split; [exists w; by rewrite Hh|]. by apply (go_holding g Hok i w).
    + apply opened_head; auto. congruence.
Qed.

Lemma run_ok as_ g g' : gates_ok g → run as_ g = Some g' → gates_ok g'.
Proof.
  revert g. induction as_ as [|a as_ IH]; simpl; [by intros ? ? [= <-]|].
  intros g Hok (g1 & H1 & H2)%bind_Some. eauto using step_ok.
Qed.

(** ** Properties *)

(** C31: under every schedule of entering, proceeding, cancelling and releasing
    writers, at most one writer of a Session holds the publication gate, a
    writer gets it only when every writer of that Session that entered before
    it has released (a cancelled one included), and the map of tails has no
    entry for a Session whose writers are all done. *)
Theorem publication_gate_exclusive_fifo (as_ : list action) (g : gates) :
  run as_ init = Some g →
  (∀ i j wi wj, calls g !! i = Some wi → calls g !! j = Some wj →
     w_status wi = Holding → w_status wj = Holding → w_session wi = w_session wj → i = j) ∧
  (∀ i g' w, step (Proceed i) g = Some g' → calls g !! i = Some w →
     ∀ j wj, (j < i)%nat → calls g !! j = Some wj → w_session wj = w_session w →
     w_status wj = Released) ∧
  (∀ sid, (∀ j, ¬ live g sid j) → tail g !! sid = None).
Proof.
  intros Hrun%(run_ok _ _ _ gates_ok_init). split_and!.
  - intros i j wi wj Hi Hj Hhi Hhj Hs.
    pose proof (go_holding g Hrun i wi Hi Hhi j) as H1.
    pose proof (go_holding g Hrun j wj Hj Hhj i) as H2.
    assert (i ≤ j)%nat by (apply H1; exists wj; rewrite Hhj; auto).
    assert (j ≤ i)%nat by (apply H2; exists wi; rewrite Hhi; auto). lia.
  - intros i g' w Hst Hi j wj Hlt Hj Hs. cbn [step] in Hst. rewrite Hi in Hst. simpl in Hst.
    case_match; [|done]. bool_hyps.
    destruct (opened_head g i w Hrun Hi) as [_ Hmin]; [congruence|done|].
    destruct (decide (w_status wj = Released)) as [|Hns]; [done|exfalso].
    assert (live g (w_session w) j) as Hl by (by exists wj). apply Hmin in Hl. lia.
  - intros sid Hno. destruct (tail g !! sid) as [t|] eqn:Ht; [|done].
    destruct (go_tail g Hrun sid t Ht) as [Hl _]. by apply Hno in Hl.
Qed.

Definition demo_schedule : list action :=
  [Enter "s"; Enter "s"; Enter "s"; Proceed 0; Cancel 1; Release 0; Release 1; Proceed 2].

Lemma publication_gate_exclusive_fifo_witness :
  ∃ g, run demo_schedule init = Some g ∧
    (w_status <$> calls g = [Released; Released; Holding]) ∧
    ∀ i j wi wj, calls g !! i = Some wi → calls g !! j = Some wj →
     w_status wi = Holding → w_status wj = Holding → w_session wi = w_session wj → i = j.
Proof.
  eexists. split; [vm_compute; reflexivity|]. split; [reflexivity|].
  apply (publication_gate_exclusive_fifo demo_schedule). vm_compute. reflexivity.
Defined.

End Gates.

Module Batcher.

(** [protocol.Event] as the Hub broadcasts it. *)
Record hub_event := mkHubEvent {
  he_Type : string;
  he_SessionID : string;
  he_Seq : option Z;
  he_Time : Z;
  he_Payload : string;
}.

Record pendingAdapterEvent := mkItem {
  event : hub_event;
  pending : PendingEvent;
}.

Definition adapterEventBatchMaxEvents : Z := 64.

Section batcher.
Context {st : Type} `{EventStore st}.

(** [adapterEventBatcherConfig]: the optional callbacks are flags, except
    [Publish], which commits and broadcasts a batch itself. *)
Record config := mkConfig {
  cfg_SessionID : string;
  cfg_MaxEvents : Z;
  cfg_Broadcast : bool;
  cfg_ReportError : bool;
  cfg_Publish : option (st → list pendingAdapterEvent → st * option error);
}.

(** The goroutine's locals ([batch], [timer] armed) with the shared queue and
    the cancelled flag of the batcher's context; [finished] is the closed
    [done] channel. *)
Record batcher := mkBatcher {
  b_cfg : config;
  maxEvents : Z;
  store : st;
  queue : list pendingAdapterEvent;
  batch : list pendingAdapterEvent;
  timer : bool;
  cancelled : bool;
  finished : bool;
}.

Definition newAdapterEventBatcher (cfg : config) (s : st) : batcher :=
  let maxEvents := if bool_decide (cfg_MaxEvents cfg ≤ 0) then adapterEventBatchMaxEvents
                   else cfg_MaxEvents cfg in
  mkBatcher cfg maxEvents s [] [] false false false.

(** What a step lets the outside see: a batch handed to [flush], an event
    broadcast, an error reported. *)
Inductive output :=
  | Flushed (items : list pendingAdapterEvent)
  | Broadcast (ev : hub_event)
  | Report (err : error).

Definition with_seq (ev : hub_event) (seq : Z) : hub_event :=
  mkHubEvent (he_Type ev) (he_SessionID ev) (Some seq) (he_Time ev) (he_Payload ev).

(** The numbering loop: [seq := firstSeq + int64(i)]. *)
Fixpoint sequenced (firstSeq : Z) (i : nat) (items : list pendingAdapterEvent) : list hub_event :=
  match items with
  | [] => []
  | item :: items => with_seq (event item) (i64 (firstSeq + Z.of_nat i)) :: sequenced firstSeq (S i) items
  end.

Definition flush (b : batcher) (items : list pendingAdapterEvent) : st * list output :=
  let report err := if cfg_ReportError (b_cfg b) then [Report (Wrap "persist event" err)] else [] in
  match cfg_Publish (b_cfg b) with
  | Some publish =>
      let '(s', err) := publish (store b) items in
      (s', match err with Some err => report err | None => [] end)
  | None =>
      match es_append (store b) (cfg_SessionID (b_cfg b)) (pending <$> items) with
      | (s', inl err) => (s', report err)
      | (s', inr firstSeq) =>
          (s', if cfg_Broadcast (b_cfg b) then Broadcast <$> sequenced firstSeq 0 items else [])
      end
  end.

(** The local [flush] closure of [run]: nothing for an empty batch, else the
    batch is handed over, cleared, and the timer stopped. *)
Definition flushBatch (b : batcher) : batcher * list output :=
  match batch b with
  | [] => (b, [])
  | items =>
      let '(s', out) := flush b items in
      (mkBatcher (b_cfg b) (maxEvents b) s' (queue b) [] false (cancelled b) (finished b),
       Flushed items :: out)
  end.

Inductive action :=
  | Enqueue (item : pendingAdapterEvent)  (** [b.queue <- item] is chosen *)
  | EnqueueCancelled                      (** [<-ctx.Done()] is chosen: the caller gave up *)
  | EnqueueRefused                        (** [<-b.ctx.Done()] is chosen *)
  | Receive                               (** the goroutine takes from the queue *)
  | TimerFires
  | CancelContext                         (** [Close] *)
  | Stop.                                 (** the goroutine sees [b.ctx.Done()] *)

Definition step (a : action) (b : batcher) : option (batcher * list output) :=
  match a with
  | Enqueue item =>
      if bool_decide (Z.of_nat (length (queue b)) < maxEvents b)
      then Some (mkBatcher (b_cfg b) (maxEvents b) (store b) (queue b ++ [item]) (batch b)
                   (timer b) (cancelled b) (finished b), [])
      else None
  | EnqueueCancelled => Some (b, [])
  | EnqueueRefused => if cancelled b then Some (b, []) else None
  | Receive =>
      if finished b then None
      else match queue b with
           | [] => None
           | item :: rest =>
               let batch' := batch b ++ [item] in
               let timer' := if bool_decide (length batch' = 1%nat) then true else timer b in
               let b' := mkBatcher (b_cfg b) (maxEvents b) (store b) rest batch' timer'
                           (cancelled b) (finished b) in
               Some (if bool_decide (maxEvents b ≤ Z.of_nat (length batch'))
                     then flushBatch b' else (b', []))
           end
  | TimerFires =>
      if finished b then None
      else if timer b then Some (flushBatch b) else None
  | CancelContext =>
      Some (mkBatcher (b_cfg b) (maxEvents b) (store b) (queue b) (batch b) (timer b) true (finished b), [])
  | Stop =>
      if finished b then None
      else if cancelled b then
        (* drainQueue, then flush with a fresh context, then return *)
        let b' := mkBatcher (b_cfg b) (maxEvents b) (store b) [] (batch b ++ queue b) (timer b)
                    (cancelled b) (finished b) in
        let '(b'', out) := flushBatch b' in
        Some (mkBatcher (b_cfg b'') (maxEvents b'') (store b'') (queue b'') (batch b'') (timer b'')
                (cancelled b'') true, out)
      else None
  end.

Fixpoint run (as_ : list action) (b : batcher) : option (batcher * list output) :=
  match as_ with
  | [] => Some (b, [])
  | a :: as_ =>
      '(b', out) ← step a b;
      '(b'', out') ← run as_ b';
      Some (b'', out ++ out')
  end.

(** The events the batcher took responsibility for, in order. *)
Definition accepted (as_ : list action) : list pendingAdapterEvent :=
  as_ ≫= λ a, match a with Enqueue item => [item] | _ => [] end.

Definition flushed (out : list output) : list pendingAdapterEvent :=
  out ≫= λ o, match o with Flushed items => items | _ => [] end.

Definition flush_sizes (out : list output) : list nat :=
  out ≫= λ o, match o with Flushed items => [length items] | _ => [] end.

Definition broadcasts (out : list output) : list hub_event :=
  out ≫= λ o, match o with Broadcast ev => [ev] | _ => [] end.

Record batcher_ok (b : batcher) : Prop := {
  bo_max : 0 < maxEvents b;
  bo_queue : Z.of_nat (length (queue b)) ≤ maxEvents b;
  bo_batch : Z.of_nat (length (batch b)) < maxEvents b;
  bo_timer : timer b = true ↔ batch b ≠ [];
  bo_done : finished b = true → batch b = [];
}.

Lemma new_ok cfg s : batcher_ok (newAdapterEventBatcher cfg s).
Proof.
  unfold newAdapterEventBatcher, adapterEventBatchMaxEvents.
  split; simpl; try done; try (case_bool_decide; lia).
Qed.

Lemma flush_no_flushed b items : flushed (flush b items).2 = [].
Proof.
  unfold flush. repeat case_match; simpl; try done.
  generalize (sequenced z 0 items). intros l. by induction l.
Qed.

Lemma flushBatch_spec b b' out :
  flushBatch b = (b', out) →
  batch b' = [] ∧ queue b' = queue b ∧ maxEvents b' = maxEvents b ∧ b_cfg b' = b_cfg b ∧
  finished b' = finished b ∧ cancelled b' = cancelled b ∧ flushed out = batch b ∧
  (batch b ≠ [] → timer b' = false) ∧ (batch b = [] → timer b' = timer b).
Proof.
  unfold flushBatch. destruct (batch b) as [|x l] eqn:E.
  - intros [= <- <-]. by rewrite E.
  - pose proof (flush_no_flushed b (x :: l)) as Hf.
    destruct (flush b (x :: l)) as [s' out'] eqn:Ef. intros [= <- <-].
    cbn [flushed mbind list_bind]. simpl in Hf. unfold flushed in Hf. rewrite Hf.
    by rewrite app_nil_r.
Qed.

Definition conserves (a : action) (b b' : batcher) (out : list output) : Prop :=
  (batch b ++ queue b) ++ accepted [a] = flushed out ++ batch b' ++ queue b'.

Lemma step_spec a b b' out :
  batcher_ok b → step a b = Some (b', out) →
  batcher_ok b' ∧ conserves a b b' out ∧ b_cfg b' = b_cfg b ∧ maxEvents b' = maxEvents b ∧
  (finished b = true → finished b' = true).
Proof.
  intros Hok. unfold conserves. destruct a; cbn [step].
  - case_bool_decide as Hlt; [|done]. intros [= <- <-]. split_and!; try done.
    + destruct Hok; split; simpl; auto. rewrite length_app. simpl. lia.
    + simpl. by rewrite <-(assoc_L (++)).
  - intros [= <- <-]. by rewrite !app_nil_r.
  - destruct (cancelled b); [|done]. intros [= <- <-]. by rewrite !app_nil_r.
  - destruct (finished b) eqn:Hf; [done|]. destruct (queue b) as [|item rest] eqn:Hq; [done|].
    set (b1 := mkBatcher _ _ _ rest _ _ _ _). pose proof (bo_queue b Hok) as Hql.
    rewrite Hq in Hql. simpl in Hql. case_bool_decide as Hmax.
    + destruct (flushBatch b1) as [b2 out2] eqn:E. intros [= <- <-].
      apply flushBatch_spec in E as (E1 & E2 & E3 & E4 & E5 & E6 & E7 & E8 & E9).
      subst b1; simpl in *. split_and!; try done; try congruence.
      * destruct Hok. split; rewrite ?E1, ?E2, ?E3, ?E5; simpl; try lia; try done.
        by rewrite E8 by (by destruct (batch b)).
      * simpl. rewrite E1, E2, E7, app_nil_r. by rewrite <-(assoc_L (++)).
    + intros [= <- <-]. subst b1; simpl in *. split_and!; try done; try congruence.
      * destruct Hok; split; simpl; try lia; try congruence.
        split; [intros _; by destruct (batch b)|intros _].
        case_bool_decide as Hlen; [done|]. apply bo_timer0. by intros Hb; rewrite Hb in Hlen.
      * by rewrite app_nil_r, <-(assoc_L (++)).
  - destruct (finished b) eqn:Hf; [done|]. destruct (timer b) eqn:Ht; [|done].
    destruct (flushBatch b) as [b2 out2] eqn:E. intros [= <- <-].
    assert (batch b ≠ []) as Hne by (by apply (bo_timer b Hok)).
    apply flushBatch_spec in E as (E1 & E2 & E3 & E4 & E5 & E6 & E7 & E8 & E9).
    split_and!; try done; try congruence.
    + destruct Hok. split; rewrite ?E1, ?E2, ?E3, ?E5, ?E8; simpl; try done; lia.
    + simpl. by rewrite E1, E2, E7, app_nil_r.
  - intros [= <- <-]. split_and!; try done; [by destruct Hok; split|]. simpl. by rewrite app_nil_r.
  - destruct (finished b) eqn:Hf; [done|]. destruct (cancelled b) eqn:Hc; [|done].
    set (b1 := mkBatcher _ _ _ [] _ _ _ _). destruct (flushBatch b1) as [b2 out2] eqn:E.
    intros [= <- <-]. apply flushBatch_spec in E as (E1 & E2 & E3 & E4 & E5 & E6 & E7 & E8 & E9).
    subst b1; simpl in *. split_and!; try done.
    + destruct Hok. split; simpl; rewrite ?E1, ?E2, ?E3; simpl; try done; try lia.
      split; [|done]. intros Ht. destruct (batch b ++ queue b) as [|x l] eqn:Hnil.
      * apply app_nil in Hnil as [Hb _]. rewrite E9 in Ht by done. by apply bo_timer0 in Ht.
      * by rewrite E8 in Ht.
    + simpl. by rewrite E1, E2, E7, !app_nil_r.
Qed.

Lemma flushed_app o1 o2 : flushed (o1 ++ o2) = flushed o1 ++ flushed o2.
Proof. apply bind_app. Qed.

Lemma run_spec as_ b b' out :
  batcher_ok b → run as_ b = Some (b', out) →
  batcher_ok b' ∧ (batch b ++ queue b) ++ accepted as_ = flushed out ++ batch b' ++ queue b' ∧
  b_cfg b' = b_cfg b ∧ maxEvents b' = maxEvents b.
Proof.
  revert b out. induction as_ as [|a as_ IH]; intros b out Hok; cbn [run].
  - intros [= <- <-]. simpl. by rewrite app_nil_r.
  - intros ([b1 o1] & H1 & ([b2 o2] & H2 & [= <- <-])%bind_Some)%bind_Some.
    apply step_spec in H1 as (Hok1 & Hc & Hcfg & Hm & _); [|done].
    apply IH in H2 as (Hok2 & Hc2 & Hcfg2 & Hm2); [|done].
    split_and!; [done| |congruence|congruence]. rewrite flushed_app, <-(assoc_L (++) (flushed o1)), <-Hc2.
    unfold conserves in Hc. change (accepted (a :: as_)) with (accepted ([a] ++ as_)).
    unfold accepted in *. rewrite bind_app, !(assoc_L (++)). rewrite !(assoc_L (++)) in Hc.
    by rewrite Hc.
Qed.

(** ** What is broadcast is what is durable *)

Fixpoint hub_numbered (first : Z) (items : list pendingAdapterEvent) : list hub_event :=
  match items with
  | [] => []
  | item :: items => with_seq (event item) first :: hub_numbered (first + 1) items
  end.

Lemma sequenced_numbered first i items :
  0 ≤ first → first + Z.of_nat i + Z.of_nat (length items) - 1 ≤ max_int64 →
  sequenced first i items = hub_numbered (first + Z.of_nat i) items.
Proof.
  revert i. induction items as [|item items IH]; intros i Hp Hmax; simpl in *; [done|].
  rewrite i64_small by (unfold two63 in *; lia). f_equal. rewrite IH by lia. f_equal. lia.
Qed.

Lemma hub_numbered_app first l1 l2 :
  hub_numbered first (l1 ++ l2)
    = hub_numbered first l1 ++ hub_numbered (first + Z.of_nat (length l1)) l2.
Proof.
  revert first. induction l1 as [|x l1 IH]; intros first; simpl; [by rewrite Z.add_0_r|].
  rewrite IH. do 3 f_equal. lia.
Qed.

Lemma broadcasts_app o1 o2 : broadcasts (o1 ++ o2) = broadcasts o1 ++ broadcasts o2.
Proof. apply bind_app. Qed.

Lemma broadcasts_Broadcast l : broadcasts (Broadcast <$> l) = l.
Proof. induction l as [|x l IH]; [done|]. cbn. unfold broadcasts in IH. by rewrite IH. Qed.

Section durable.
Context {ok : st → Prop} `{!EventStoreLaws st ok}.

(** From [s] to [s'], with the outputs [out], exactly [committed] became
    durable in Session [sid] and was broadcast. *)
Definition commits (sid : string) (bc : bool) (s s' : st)
    (committed : list pendingAdapterEvent) (out : list output) : Prop :=
  ok s' ∧
  es_log s' sid = es_log s sid ++ numbered sid (es_latest s sid + 1) (pending <$> committed) ∧
  (∀ sid', sid' ≠ sid → es_log s' sid' = es_log s sid') ∧
  broadcasts out = if bc then hub_numbered (es_latest s sid + 1) committed else [].

Lemma commits_nil sid bc s : ok s → commits sid bc s s [] [].
Proof. intros. unfold commits. simpl. rewrite app_nil_r. by destruct bc. Qed.

Lemma commits_latest sid bc s s' c out :
  ok s → commits sid bc s s' c out →
  es_latest s' sid = es_latest s sid + Z.of_nat (length c).
Proof.
  intros Hs (Hok & Hl & _). rewrite !es_latest_log by done.
  rewrite Hl, length_app, numbered_length, length_fmap. lia.
Qed.

Lemma commits_trans sid bc s1 s2 s3 c1 c2 o1 o2 :
  ok s1 → commits sid bc s1 s2 c1 o1 → commits sid bc s2 s3 c2 o2 →
  commits sid bc s1 s3 (c1 ++ c2) (o1 ++ o2).
Proof.
  intros Hs H1 H2. pose proof (commits_latest _ _ _ _ _ _ Hs H1) as Hlat.
  destruct H1 as (Hok1 & Hl1 & Ho1 & Hb1), H2 as (Hok2 & Hl2 & Ho2 & Hb2).
  unfold commits. split_and!; [done| | |].
  - rewrite Hl2, Hl1, Hlat, fmap_app, numbered_app, (assoc_L (++)), length_fmap.
    do 2 f_equal. lia.
  - intros sid' Hne. by rewrite Ho2, Ho1.
  - rewrite broadcasts_app, Hb1, Hb2, Hlat. destruct bc; [|done].
    rewrite hub_numbered_app. do 2 f_equal. lia.
Qed.

Lemma flush_commits b items s' out :
  cfg_Publish (b_cfg b) = None → ok (store b) → items ≠ [] → flush b items = (s', out) →
  ∃ c, c `sublist_of` items ∧ commits (cfg_SessionID (b_cfg b)) (cfg_Broadcast (b_cfg b)) (store b) s' c out.
Proof.
  intros Hp Hok Hne. unfold flush. rewrite Hp.
  destruct (es_append _ _ _) as [s1 [err|first]] eqn:E; intros [= <- <-].
  - apply es_append_err in E as [Hok' Hl]; [|done]. exists []. split; [apply sublist_nil_l|].
    unfold commits. rewrite Hl. simpl. rewrite app_nil_r.
    split_and!; auto. by destruct (cfg_ReportError _), (cfg_Broadcast _).
  - apply es_append_ok in E as (Hok' & -> & Hmax & Hl & Ho); [|done|by destruct items].
    exists items. split; [done|]. unfold commits. split_and!; auto.
    destruct (cfg_Broadcast (b_cfg b)); [|done].
    rewrite broadcasts_Broadcast, sequenced_numbered.
    + by rewrite Z.add_0_r.
    + rewrite es_latest_log by done. lia.
    + rewrite length_fmap in Hmax. lia.
Qed.

Lemma flushBatch_commits b b' out :
  cfg_Publish (b_cfg b) = None → ok (store b) → flushBatch b = (b', out) →
  ∃ c, c `sublist_of` batch b ∧
       commits (cfg_SessionID (b_cfg b)) (cfg_Broadcast (b_cfg b)) (store b) (store b') c out.
Proof.
  intros Hp Hok. unfold flushBatch. destruct (batch b) as [|x l] eqn:E.
  - intros [= <- <-]. exists []. split; [done|]. by apply commits_nil.
  - destruct (flush b (x :: l)) as [s' out'] eqn:Ef. intros [= <- <-].
    destruct (flush_commits b (x :: l) s' out' Hp Hok) as (c & Hc & Hcom); [done|done|].
    exists c. split; [done|]. simpl. destruct Hcom as (? & ? & ? & Hb). by split_and!.
Qed.

Lemma step_commits a b b' out :
  cfg_Publish (b_cfg b) = None → ok (store b) → step a b = Some (b', out) →
  ∃ c, c `sublist_of` flushed out ∧
       commits (cfg_SessionID (b_cfg b)) (cfg_Broadcast (b_cfg b)) (store b) (store b') c out.
Proof.
  intros Hp Hok Hst.
  assert (∀ b1 b2 o, cfg_Publish (b_cfg b1) = None → b_cfg b1 = b_cfg b → store b1 = store b →
    flushBatch b1 = (b2, o) → ∃ c, c `sublist_of` flushed o ∧
    commits (cfg_SessionID (b_cfg b)) (cfg_Broadcast (b_cfg b)) (store b) (store b2) c o) as Hfb.
  { intros b1 b2 o Hp1 Hc1 Hs1 Hf. pose proof (flushBatch_spec _ _ _ Hf) as (_ & _ & _ & _ & _ & _ & HE & _).
    destruct (flushBatch_commits b1 b2 o) as (c & Hsub & Hcom); [done|by rewrite Hs1|done|].
    exists c. rewrite HE. by rewrite Hs1, Hc1 in Hcom. }
  assert (∀ b1, store b1 = store b → ∃ c, c `sublist_of` flushed [] ∧
    commits (cfg_SessionID (b_cfg b)) (cfg_Broadcast (b_cfg b)) (store b) (store b1) c []) as Hnil.
  { intros b1 ->. exists []. split; [done|]. by apply commits_nil. }
  destruct a; cbn [step] in Hst; repeat case_match; simplify_eq; cbn [store];
    first [by apply Hnil | by (eapply Hfb; [| | |done])].
Qed.

Lemma run_commits as_ b b' out :
  batcher_ok b → cfg_Publish (b_cfg b) = None → ok (store b) → run as_ b = Some (b', out) →
  ∃ c, c `sublist_of` flushed out ∧
       commits (cfg_SessionID (b_cfg b)) (cfg_Broadcast (b_cfg b)) (store b) (store b') c out.
Proof.
  revert b out. induction as_ as [|a as_ IH]; intros b out Hbo Hp Hok; cbn [run].
  - intros [= <- <-]. exists []. split; [done|]. by apply commits_nil.
  - intros ([b1 o1] & H1 & ([b2 o2] & H2 & [= <- <-])%bind_Some)%bind_Some.
    pose proof (step_spec _ _ _ _ Hbo H1) as (Hbo1 & _ & Hcfg & _ & _).
    destruct (step_commits _ _ _ _ Hp Hok H1) as (c1 & Hs1 & Hc1).
    destruct (IH b1 o2 Hbo1) as (c2 & Hs2 & Hc2); [by rewrite Hcfg|by destruct Hc1|done|].
    exists (c1 ++ c2). rewrite flushed_app. split; [by apply sublist_app|].
    rewrite Hcfg in Hc2. by eapply commits_trans.
Qed.
End durable.

(** ** Properties *)

(** under every interleaving of producers, the goroutine, the timer and
    [Close], no accepted event is lost, duplicated or reordered: what was
    handed to the Store so far, then the open batch, then the queue, is
    exactly what was accepted, in order.  The open batch stays below the
    limit, the timer is armed exactly when the batch is non-empty, and a
    stopped goroutine leaves no open batch. *)
Theorem batcher_keeps_order (cfg : config) (s : st) (as_ : list action) (b : batcher) (out : list output) :
  run as_ (newAdapterEventBatcher cfg s) = Some (b, out) →
  flushed out ++ batch b ++ queue b = accepted as_ ∧
  Z.of_nat (length (batch b)) < maxEvents b ∧ Z.of_nat (length (queue b)) ≤ maxEvents b ∧
  (timer b = true ↔ batch b ≠ []) ∧ (finished b = true → batch b = []).
Proof.
  intros Hrun. apply run_spec in Hrun as ([] & Hc & _); [|apply new_ok].
  by split_and!.
Qed.

End batcher.

End Batcher.
