(* ===== verification/Json.v ===== *)
(** * Decoding JSON payloads

    The part of Go's [encoding/json] that the Store and the Hub use on event
    payloads: the syntax check and decoding of a JSON text ([parse]), and
    [json.Unmarshal] into a struct of string fields ([unmarshalStrings]).

    The decoder works on bytes as Go does: strings are unquoted with their
    escapes, invalid UTF-8 becomes U+FFFD, lone surrogates too, control
    characters are refused, the nesting depth is limited to 10000, numbers are
    kept as written, object members keep their order and repetitions. *)

From S2P Require Import Prelude.
From Stdlib Require Import Strings.Ascii.
From stdpp Require Import base strings list option.
#[local] Open Scope Z_scope.

Module Json.

Inductive json :=
  | JNull
  | JBool (b : bool)
  | JNumber (lit : string)
  | JString (s : string)
  | JArray (l : list json)
  | JObject (members : list (string * json)).

(** Bytes as numbers 0..255. *)
Definition byte_of (c : ascii) : Z := Z.of_N (N_of_ascii c).
Definition char_of (z : Z) : ascii := ascii_of_N (Z.to_N z).
Definition bytes_of (s : string) : list Z := byte_of <$> String.list_ascii_of_string s.
Definition string_of (l : list Z) : string := String.string_of_list_ascii (char_of <$> l).

Definition between (lo c hi : Z) : bool := bool_decide (lo ≤ c) && bool_decide (c ≤ hi).

(** ** UTF-8 *)

Definition utf8_encode (r : Z) : list Z :=
  if bool_decide (r < 0x80) then [r]
  else if bool_decide (r < 0x800) then [0xC0 + r / 64; 0x80 + r mod 64]
  else if bool_decide (r < 0x10000) then [0xE0 + r / 4096; 0x80 + r / 64 mod 64; 0x80 + r mod 64]
  else [0xF0 + r / 262144; 0x80 + r / 4096 mod 64; 0x80 + r / 64 mod 64; 0x80 + r mod 64].

Definition cont (c : Z) : bool := between 0x80 c 0xBF.

(** The length of the valid encoding the bytes start with, 0 if none. *)
Definition utf8_width (l : list Z) : nat :=
  match l with
  | [] => 0%nat
  | a :: l =>
      if bool_decide (a < 0x80) then 1%nat
      else match l with
      | b :: l =>
          if between 0xC2 a 0xDF && cont b then 2%nat
          else match l with
          | c :: l =>
              if ((bool_decide (a = 0xE0) && between 0xA0 b 0xBF)
                  || (between 0xE1 a 0xEC && cont b) || (bool_decide (a = 0xED) && between 0x80 b 0x9F)
                  || (between 0xEE a 0xEF && cont b)) && cont c then 3%nat
              else match l with
              | d :: _ =>
                  if ((bool_decide (a = 0xF0) && between 0x90 b 0xBF)
                      || (between 0xF1 a 0xF3 && cont b) || (bool_decide (a = 0xF4) && between 0x80 b 0x8F))
                     && cont c && cont d then 4%nat else 0%nat
              | [] => 0%nat
              end
          | [] => 0%nat
          end
      | [] => 0%nat
      end
  end.

(** [utf8.Valid]; [copy] bytes of the current rune are still to pass. *)
Fixpoint utf8_valid (copy : nat) (l : list Z) : bool :=
  match l with
  | [] => true
  | _ :: rest =>
      match copy with
      | S copy => utf8_valid copy rest
      | O => match utf8_width l with O => false | S w => utf8_valid w rest end
      end
  end.

Definition ValidString (s : string) : bool := utf8_valid 0 (bytes_of s).

Definition RuneError : list Z := [0xEF; 0xBF; 0xBD].

(** What follows the given bytes. *)
Fixpoint strip (p l : list Z) : option (list Z) :=
  match p, l with
  | [], _ => Some l
  | a :: p, b :: l => if bool_decide (a = b) then strip p l else None
  | _, [] => None
  end.

(** ** String literals *)

Definition hex (c : Z) : option Z :=
  if between 48 c 57 then Some (c - 48)
  else if between 97 c 102 then Some (c - 87)
  else if between 65 c 70 then Some (c - 55)
  else None.

Definition getu4 (l : list Z) : option (Z * list Z) :=
  match l with
  | a :: b :: c :: d :: l =>
      a ← hex a; b ← hex b; c ← hex c; d ← hex d;
      Some (((a * 16 + b) * 16 + c) * 16 + d, l)
  | _ => None
  end.

Definition surrogate (r : Z) : bool := between 0xD800 r 0xDFFF.

(** The bytes after an opening quote: the decoded content and what follows the
    closing quote.  [copy] is the number of bytes of a multi-byte rune still to
    be copied. *)
Fixpoint unquote (fuel copy : nat) (l : list Z) : option (list Z * list Z) :=
  match fuel with
  | O => None
  | S fuel =>
      match l with
      | [] => None
      | c :: rest =>
          match copy with
          | S copy => '(s, r) ← unquote fuel copy rest; Some (c :: s, r)
          | O =>
              if bool_decide (c = 34) then Some ([], rest)
              else if bool_decide (c < 0x20) then None
              else if bool_decide (c = 92) then
                match rest with
                | [] => None
                | e :: rest =>
                    let simple b := '(s, r) ← unquote fuel 0 rest; Some (b :: s, r) in
                    if bool_decide (e = 34) then simple 34
                    else if bool_decide (e = 92) then simple 92
                    else if bool_decide (e = 47) then simple 47
                    else if bool_decide (e = 98) then simple 8
                    else if bool_decide (e = 102) then simple 12
                    else if bool_decide (e = 110) then simple 10
                    else if bool_decide (e = 114) then simple 13
                    else if bool_decide (e = 116) then simple 9
                    else if bool_decide (e = 117) then
                      '(r1, rest) ← getu4 rest;
                      if surrogate r1 then
                        match strip [92; 117] rest with
                        | Some rest' =>
                            '(r2, rest') ← getu4 rest';
                            if between 0xD800 r1 0xDBFF && between 0xDC00 r2 0xDFFF then
                              '(s, r) ← unquote fuel 0 rest';
                              Some (utf8_encode ((r1 - 0xD800) * 1024 + (r2 - 0xDC00) + 0x10000) ++ s, r)
                            else '(s, r) ← unquote fuel 0 rest; Some (RuneError ++ s, r)
                        | None => '(s, r) ← unquote fuel 0 rest; Some (RuneError ++ s, r)
                        end
                      else '(s, r) ← unquote fuel 0 rest; Some (utf8_encode r1 ++ s, r)
                    else None
                end
              else
                match utf8_width l with
                | O => '(s, r) ← unquote fuel 0 rest; Some (RuneError ++ s, r)
                | S w => '(s, r) ← unquote fuel w rest; Some (c :: s, r)
                end
          end
      end
  end.

(** ** Numbers: the literal and what follows it *)

Definition digit (c : Z) : bool := between 48 c 57.

Fixpoint span_digits (l : list Z) : list Z * list Z :=
  match l with
  | c :: rest => if digit c then let '(d, r) := span_digits rest in (c :: d, r) else ([], l)
  | [] => ([], [])
  end.

Definition digits1 (l : list Z) : option (list Z * list Z) :=
  match span_digits l with
  | ([], _) => None
  | r => Some r
  end.

Definition number_sign (l : list Z) : list Z * list Z :=
  match strip [45] l with Some r => ([45], r) | None => ([], l) end.

Definition number_int (l : list Z) : option (list Z * list Z) :=
  match strip [48] l with Some r => Some ([48], r) | None => digits1 l end.

Definition number_frac (l : list Z) : option (list Z * list Z) :=
  match strip [46] l with
  | Some r => '(d, r) ← digits1 r; Some (46 :: d, r)
  | None => Some ([], l)
  end.

Definition exp_sign (l : list Z) : list Z * list Z :=
  match strip [43] l with Some r => ([43], r) | None => number_sign l end.

Definition number_exp (l : list Z) : option (list Z * list Z) :=
  match l with
  | e :: r =>
      if bool_decide (e = 101) || bool_decide (e = 69) then
        let '(s, r) := exp_sign r in
        '(d, r) ← digits1 r; Some (e :: s ++ d, r)
      else Some ([], l)
  | [] => Some ([], l)
  end.

Definition number (l : list Z) : option (list Z * list Z) :=
  let '(sign, l) := number_sign l in
  '(int, l) ← number_int l;
  '(frac, l) ← number_frac l;
  '(exp, l) ← number_exp l;
  Some (sign ++ int ++ frac ++ exp, l).

(** ** Values *)

Definition is_space (c : Z) : bool := bool_decide (c ∈ [32; 9; 13; 10]).

Fixpoint skip (l : list Z) : list Z :=
  match l with
  | c :: rest => if is_space c then skip rest else l
  | [] => []
  end.

Definition maxNestingDepth : nat := Z.to_nat 10000.

Definition null_bytes : list Z := [110; 117; 108; 108].
Definition true_bytes : list Z := [116; 114; 117; 101].
Definition false_bytes : list Z := [102; 97; 108; 115; 101].

(** A value that is neither a string nor an array nor an object. *)
Definition scalar (l : list Z) : option (json * list Z) :=
  match strip null_bytes l with
  | Some r => Some (JNull, r)
  | None =>
      match strip true_bytes l with
      | Some r => Some (JBool true, r)
      | None =>
          match strip false_bytes l with
          | Some r => Some (JBool false, r)
          | None => '(lit, r) ← number l; Some (JNumber (string_of lit), r)
          end
      end
  end.

(** One value, the members of an object after [{], the elements of an array
    after [\[]; [depth] is what is left of the nesting limit. *)
Fixpoint value (fuel depth : nat) (l : list Z) : option (json * list Z) :=
  match fuel with
  | O => None
  | S fuel =>
      match skip l with
      | [] => None
      | c :: r =>
          if bool_decide (c = 34) then
            '(s, r) ← unquote fuel 0 r; Some (JString (string_of s), r)
          else if bool_decide (c = 91) then
            match depth with
            | O => None
            | S depth =>
                match strip [93] (skip r) with
                | Some r => Some (JArray [], r)
                | None => '(vs, r) ← elements fuel depth (skip r); Some (JArray vs, r)
                end
            end
          else if bool_decide (c = 123) then
            match depth with
            | O => None
            | S depth =>
                match strip [125] (skip r) with
                | Some r => Some (JObject [], r)
                | None => '(ms, r) ← members fuel depth (skip r); Some (JObject ms, r)
                end
            end
          else scalar (c :: r)
      end
  end
with elements (fuel depth : nat) (l : list Z) : option (list json * list Z) :=
  match fuel with
  | O => None
  | S fuel =>
      '(v, r) ← value fuel depth l;
      match skip r with
      | [] => None
      | c :: r =>
          if bool_decide (c = 44) then '(vs, r) ← elements fuel depth r; Some (v :: vs, r)
          else if bool_decide (c = 93) then Some ([v], r)
          else None
      end
  end
with members (fuel depth : nat) (l : list Z) : option (list (string * json) * list Z) :=
  match fuel with
  | O => None
  | S fuel =>
      r ← strip [34] (skip l);
      '(k, r) ← unquote fuel 0 r;
      r ← strip [58] (skip r);
      '(v, r) ← value fuel depth r;
      match skip r with
      | [] => None
      | c :: r =>
          if bool_decide (c = 44) then '(ms, r) ← members fuel depth r; Some ((string_of k, v) :: ms, r)
          else if bool_decide (c = 125) then Some ([(string_of k, v)], r)
          else None
      end
  end.

(** A whole text: one value and nothing but white space after it. *)
Definition parse (text : string) : option json :=
  let l := bytes_of text in
  '(v, r) ← value (2 * length l + 2) maxNestingDepth l;
  match skip r with [] => Some v | _ => None end.

(** ** [json.Unmarshal] into a struct of strings *)

(** Field names match exactly or up to simple case folding; for ASCII names
    the fold also identifies U+017F with [s] and U+212A with [k]. *)
Fixpoint fold (l : list Z) : list Z :=
  match l with
  | 0xC5 :: 0xBF :: l => 83 :: fold l
  | 0xE2 :: 0x84 :: 0xAA :: l => 75 :: fold l
  | c :: l => (if between 97 c 122 then c - 32 else c) :: fold l
  | [] => []
  end.

Definition field_matches (name key : string) : bool :=
  bool_decide (fold (bytes_of name) = fold (bytes_of key)).

(** The field a key selects: an exact match is preferred. *)
Definition select (names : list string) (key : string) : option nat :=
  match list_find (λ n, n = key) names with
  | Some (i, _) => Some i
  | None => fst <$> list_find (λ n, field_matches n key) names
  end.

(** Assign the members in order; [false] records a type error, which does not
    stop the decoding. *)
Fixpoint assign (names : list string) (ms : list (string * json)) (fields : list string) (good : bool)
  : list string * bool :=
  match ms with
  | [] => (fields, good)
  | (k, v) :: ms =>
      match select names k with
      | None => assign names ms fields good
      | Some i =>
          match v with
          | JString s => assign names ms (<[i := s]> fields) good
          | JNull => assign names ms fields good
          | _ => assign names ms fields false
          end
      end
  end.

(** [Some fields] when [json.Unmarshal] returns nil. *)
Definition unmarshalStrings (names : list string) (payload : string) : option (list string) :=
  v ← parse payload;
  match v with
  | JObject ms =>
      let '(fields, good) := assign names ms ((λ _, "") <$> names) true in
      if good then Some fields else None
  | JNull => Some ((λ _, "") <$> names)
  | _ => None
  end.

Definition quote (s : string) : string := string_of [34] +:+ s +:+ string_of [34].

Example parse_state : unmarshalStrings ["state"] ("{" +:+ quote "State" +:+ ": " +:+ quote "ended" +:+ "}") = Some ["ended"].
Proof. vm_compute. reflexivity. Qed.

Example parse_bad : unmarshalStrings ["state"] ("{" +:+ quote "state" +:+ ": 1}") = None.
Proof. vm_compute. reflexivity. Qed.

(** ** [json.Marshal]

    Strings are escaped as [encoding/json] does with HTML escaping on: the
    short escapes, [\u00XX] for other control characters and for the HTML
    characters, [\u2028] and [\u2029], and the replacement character for bytes that are no UTF-8. *)

Definition hex_digit (z : Z) : Z := if bool_decide (z < 10) then 48 + z else 87 + z.

Definition escape_u (z : Z) : list Z :=
  [92; 117; hex_digit (z / 4096); hex_digit (z / 256 mod 16); hex_digit (z / 16 mod 16); hex_digit (z mod 16)].

Definition escape_byte (c : Z) : list Z :=
  if bool_decide (c ∈ [34; 92]) then [92; c]
  else if bool_decide (c = 8) then [92; 98]
  else if bool_decide (c = 12) then [92; 102]
  else if bool_decide (c = 10) then [92; 110]
  else if bool_decide (c = 13) then [92; 114]
  else if bool_decide (c = 9) then [92; 116]
  else if bool_decide (c < 32) || bool_decide (c ∈ [60; 62; 38]) then escape_u c
  else [c].

Fixpoint escape_string (fuel : nat) (l : list Z) : list Z :=
  match fuel with
  | O => []
  | S fuel =>
      match l with
      | [] => []
      | c :: rest =>
          if bool_decide (c < 0x80) then escape_byte c ++ escape_string fuel rest
          else
            match utf8_width l with
            | O => escape_u 0xFFFD ++ escape_string fuel rest
            | w => if bool_decide (take w l = utf8_encode 0x2028) then escape_u 0x2028 ++ escape_string fuel (drop w l)
                   else if bool_decide (take w l = utf8_encode 0x2029) then escape_u 0x2029 ++ escape_string fuel (drop w l)
                   else take w l ++ escape_string fuel (drop w l)
            end
      end
  end.

Definition marshalString (s : string) : string :=
  string_of ([34] ++ escape_string (String.length s) (bytes_of s) ++ [34]).

Definition marshalOption (s : option string) : string :=
  match s with Some s => marshalString s | None => "null" end.

(** A struct: its fields in order, already marshalled. *)
Definition marshalStruct (fields : list (string * string)) : string :=
  "{" +:+ String.concat "," ((λ f, marshalString f.1 +:+ ":" +:+ f.2) <$> fields) +:+ "}".

Example marshal_quotes : unmarshalStrings ["a"] (marshalStruct [("a", marshalString (string_of [34; 60; 10; 104]))])
  = Some [string_of [34; 60; 10; 104]].
Proof. vm_compute. reflexivity. Qed.

End Json.
