(* ===== verification/Wire.v ===== *)
(** * Typed JSON

    What [protocol/codec.go] uses of [encoding/json] beyond the syntax of
    [Json]: raw messages, objects kept member by member ([strictObject] and
    maps of raw messages), decoding into Go values ([json.Unmarshal] with its
    treatment of [null], of repeated and case-folded keys and of type errors)
    and printing them ([json.Marshal]).

    The class [GoJson] is the interface between the Go types and their JSON
    form; every struct of the protocol is an instance of it. *)

From S2P Require Import Prelude Json.
From stdpp Require Import base strings list option.
#[local] Open Scope Z_scope.

Module Wire.
Import Json.

(** ** Raw messages

    The bytes of one value, without white space around it, and what they
    denote. *)
Record raw := mkRaw { text : string; ast : json }.

Definition fuel_of (l : list Z) : nat := 2 * length l + 2.

Definition rawValue (fuel depth : nat) (l : list Z) : option (raw * list Z) :=
  '(v, r) ← value fuel depth l;
  let s := skip l in
  Some (mkRaw (string_of (take (length s - length r) s)) v, r).

(** The members of an object after [{], the elements of an array after
    [\[]. *)
Fixpoint rawMembers (fuel depth : nat) (l : list Z) : option (list (string * raw) * list Z) :=
  match fuel with
  | O => None
  | S fuel =>
      r ← strip [34] (skip l);
      '(k, r) ← unquote fuel 0 r;
      r ← strip [58] (skip r);
      '(v, r) ← rawValue fuel depth r;
      match skip r with
      | [] => None
      | c :: r =>
          if bool_decide (c = 44) then '(ms, r) ← rawMembers fuel depth r; Some ((string_of k, v) :: ms, r)
          else if bool_decide (c = 125) then Some ([(string_of k, v)], r)
          else None
      end
  end.

Fixpoint rawElements (fuel depth : nat) (l : list Z) : option (list raw * list Z) :=
  match fuel with
  | O => None
  | S fuel =>
      '(v, r) ← rawValue fuel depth l;
      match skip r with
      | [] => None
      | c :: r =>
          if bool_decide (c = 44) then '(vs, r) ← rawElements fuel depth r; Some (v :: vs, r)
          else if bool_decide (c = 93) then Some ([v], r)
          else None
      end
  end.

Definition rawObject (l : list Z) : option (list (string * raw) * list Z) :=
  r ← strip [123] (skip l);
  match strip [125] (skip r) with
  | Some r => Some ([], r)
  | None => rawMembers (fuel_of l) maxNestingDepth (skip r)
  end.

Definition rawArray (l : list Z) : option (list raw * list Z) :=
  r ← strip [91] (skip l);
  match strip [93] (skip r) with
  | Some r => Some ([], r)
  | None => rawElements (fuel_of l) maxNestingDepth (skip r)
  end.

(** ** Maps of raw messages

    A Go map is the list of its members, one per key. *)
Definition fields := list (string * raw).

Fixpoint get {A} (k : string) (l : list (string * A)) : option A :=
  match l with
  | [] => None
  | (k', v) :: l => if String.eqb k' k then Some v else get k l
  end.

Fixpoint put {A} (k : string) (v : A) (l : list (string * A)) : list (string * A) :=
  match l with
  | [] => [(k, v)]
  | (k', v') :: l => if String.eqb k' k then (k, v) :: l else (k', v') :: put k v l
  end.

Definition remove {A} (k : string) (l : list (string * A)) : list (string * A) :=
  List.filter (λ m, negb (String.eqb m.1 k)) l.

Definition only {A} (keys : list string) (l : list (string * A)) : bool :=
  forallb (λ m, bool_decide (m.1 ∈ keys)) l.

(** [strictObject]: an object with every key once and nothing after it. *)
Definition strictObject (data : string) : option fields :=
  '(ms, r) ← rawObject (bytes_of data);
  match skip r with
  | [] => if bool_decide (NoDup (fst <$> ms)) then Some ms else None
  | _ => None
  end.

(** [json.Unmarshal] into a nil [map\[string\]json.RawMessage]: the last of
    several members with one key is kept. *)
Definition unmarshalMap (data : string) : option fields :=
  v ← parse data;
  match v with
  | JObject _ => '(ms, _) ← rawObject (bytes_of data); Some (foldl (λ m kv, put kv.1 kv.2 m) [] ms)
  | JNull => Some []
  | _ => None
  end.

(** [json.Unmarshal] into a nil [\[\]json.RawMessage]; [nil] is the empty
    list. *)
Definition asList (r : raw) : option (list raw) :=
  match ast r with
  | JArray _ => fst <$> rawArray (bytes_of (text r))
  | JNull => Some []
  | _ => None
  end.

(** ** Numbers *)

Fixpoint decimal (acc : Z) (l : list Z) : option Z :=
  match l with
  | [] => Some acc
  | c :: l => if digit c then decimal (acc * 10 + (c - 48)) l else None
  end.

(** [strconv.ParseInt(literal, 10, 64)] on a JSON number. *)
Definition parseInt (lit : string) : option Z :=
  z ← match bytes_of lit with
      | 45 :: l => Z.opp <$> decimal 0 l
      | l => decimal 0 l
      end;
  if in_i64 z then Some z else None.

Fixpoint digits (fuel : nat) (n : Z) (acc : list Z) : list Z :=
  match fuel with
  | O => acc
  | S fuel =>
      let acc := (48 + n mod 10) :: acc in
      if bool_decide (n < 10) then acc else digits fuel (n / 10) acc
  end.

(** [strconv.FormatInt(z, 10)]: an int64 has at most 19 digits. *)
Definition formatInt (z : Z) : string :=
  string_of (if bool_decide (z < 0) then 45 :: digits 20 (- z) [] else digits 20 z []).

(** ** Go values *)

(** [zero]: the zero value; [isEmpty]: what [omitempty] leaves out;
    [unmarshal r old]: decoding [r] into a variable that holds [old], [None] on a
    type error; [marshal]: [None] when a raw message is not JSON. *)
Class GoJson (A : Type) := {
  zero : A;
  isEmpty : A → bool;
  unmarshal : raw → A → option A;
  marshal : A → option string;
}.

#[global] Instance string_json : GoJson string := {
  zero := "";
  isEmpty s := bool_decide (s = "");
  unmarshal r old := match ast r with JString s => Some s | JNull => Some old | _ => None end;
  marshal s := Some (marshalString s);
}.

(** [int] and [int64]. *)
#[global] Instance int_json : GoJson Z := {
  zero := 0;
  isEmpty z := bool_decide (z = 0);
  unmarshal r old := match ast r with JNumber lit => parseInt lit | JNull => Some old | _ => None end;
  marshal z := Some (formatInt z);
}.

#[global] Instance bool_json : GoJson bool := {
  zero := false;
  isEmpty := negb;
  unmarshal r old := match ast r with JBool b => Some b | JNull => Some old | _ => None end;
  marshal (b : bool) := Some (if b then "true" else "false");
}.

(** A pointer: [null] makes it nil, another value is decoded into what it
    points to. *)
#[global] Instance pointer_json {A} `{GoJson A} : GoJson (option A) := {
  zero := None;
  isEmpty p := bool_decide (p = None);
  unmarshal r old := match ast r with JNull => Some None | _ => Some <$> unmarshal r (default zero old) end;
  marshal p := match p with None => Some "null" | Some a => marshal a end;
}.

(** [json.RawMessage].  Printing one checks it, drops its white space and
    escapes the HTML characters, U+2028 and U+2029. *)
Inductive RawMessage := NilRaw | Raw (data : string).

#[global] Instance RawMessage_eq_dec : EqDecision RawMessage.
Proof. solve_decision. Defined.

(** The three bytes of U+2028 or U+2029. *)
Definition separator (l : list Z) : option Z :=
  match l with
  | a :: b :: c :: _ =>
      if bool_decide (a = 0xE2) && bool_decide (b = 0x80) then
        if bool_decide (c = 0xA8) then Some 0x2028
        else if bool_decide (c = 0xA9) then Some 0x2029
        else None
      else None
  | _ => None
  end.

(** [drop]: bytes of a separator still to pass; [instr]: inside a string;
    [esc]: after a backslash. *)
Fixpoint compact (drop : nat) (instr esc : bool) (l : list Z) : list Z :=
  match l with
  | [] => []
  | c :: rest =>
      match drop, separator l with
      | S drop, _ => compact drop instr esc rest
      | O, Some r => escape_u r ++ compact 2 instr false rest
      | O, None =>
          if instr then
            (if bool_decide (c ∈ [60; 62; 38]) then escape_u c else [c])
            ++ (if esc then compact 0 true false rest
                else if bool_decide (c = 92) then compact 0 true true rest
                else compact 0 (bool_decide (c ≠ 34)) false rest)
          else if is_space c then compact 0 false false rest
          else c :: compact 0 (bool_decide (c = 34)) false rest
      end
  end.

Definition compactText (t : string) : string := string_of (compact 0 false false (bytes_of t)).

#[global] Instance raw_json : GoJson RawMessage := {
  zero := NilRaw;
  isEmpty m := match m with NilRaw => true | Raw t => bool_decide (t = "") end;
  unmarshal r old := Some (Raw (text r));
  marshal m :=
    match m with
    | NilRaw => Some "null"
    | Raw t => match parse t with Some _ => Some (compactText t) | None => None end
    end;
}.

(** A slice: its elements, and the elements a later decoding finds between its
    length and its capacity. *)
Inductive slice (A : Type) := NilSlice | Slice (elems spare : list A).
Arguments NilSlice {A}.
Arguments Slice {A} elems spare.

Definition elems {A} (s : slice A) : list A := match s with NilSlice => [] | Slice l _ => l end.
Definition backing {A} (s : slice A) : list A := match s with NilSlice => [] | Slice l m => l ++ m end.

(** Each element is decoded into the one the backing array holds. *)
Fixpoint into {A} `{GoJson A} (rs : list raw) (old : list A) : option (list A * list A) :=
  match rs with
  | [] => Some ([], old)
  | r :: rs =>
      a ← unmarshal r (default zero (head old));
      '(l, spare) ← into rs (tail old);
      Some (a :: l, spare)
  end.

Definition marshalArray (ts : list string) : string := "[" +:+ String.concat "," ts +:+ "]".

#[global] Instance slice_json {A} `{GoJson A} : GoJson (slice A) := {
  zero := NilSlice;
  isEmpty s := bool_decide (length (elems s) = 0%nat);
  unmarshal r old :=
    match ast r with
    | JNull => Some NilSlice
    | JArray _ =>
        rs ← asList r;
        match rs with
        | [] => Some (Slice [] [])
        | _ => '(l, spare) ← into rs (backing old); Some (Slice l spare)
        end
    | _ => None
    end;
  marshal s := match s with NilSlice => Some "null" | Slice l _ => marshalArray <$> mapM marshal l end;
}.

(** ** Structs *)

(** The struct field a key selects. *)
Definition fieldOf (names : list string) (key : string) : option string := i ← select names key; names !! i.

(** The value of one field after all members were decoded in order. *)
Fixpoint member {A} `{GoJson A} (names : list string) (name : string) (ms : fields) (old : A) : option A :=
  match ms with
  | [] => Some old
  | (k, r) :: ms =>
      if bool_decide (fieldOf names k = Some name) then new ← unmarshal r old; member names name ms new
      else member names name ms old
  end.

(** A struct, [decode] taking its members. *)
Definition unmarshalStruct {S} (decode : fields → S → option S) (r : raw) (old : S) : option S :=
  match ast r with
  | JObject _ => '(ms, _) ← rawObject (bytes_of (text r)); decode ms old
  | JNull => Some old
  | _ => None
  end.

Definition out {A} `{GoJson A} (name : string) (a : A) : option (list (string * string)) :=
  t ← marshal a; Some [(name, t)].

(** A field with the option [omitempty]. *)
Definition outNonEmpty {A} `{GoJson A} (name : string) (a : A) : option (list (string * string)) :=
  if isEmpty a then Some [] else out name a.

Definition struct (parts : list (option (list (string * string)))) : option string :=
  ps ← mapM id parts; Some (marshalStruct (concat ps)).

(** ** [json.Unmarshal] and [json.Marshal] at the top *)

Definition Unmarshal {A} `{GoJson A} (data : string) (old : A) : option A :=
  '(r, _) ← rawValue (fuel_of (bytes_of data)) maxNestingDepth (bytes_of data);
  _ ← parse data;
  unmarshal r old.

(** [json.Unmarshal(fields\[k\], &v)] with a fresh [v]: an absent member is an
    empty input. *)
Definition asField {A} `{GoJson A} (k : string) (fs : fields) : option A :=
  r ← get k fs; unmarshal r zero.

(** [fields\[k\] != nil]. *)
Definition has (k : string) (fs : fields) : bool := bool_decide (get k fs ≠ None).

(** [bytes.Equal(bytes.TrimSpace(raw), "null")]. *)
Definition isNull (r : raw) : bool := bool_decide (text r = "null").

(** [json.Marshal] of a map: its keys are sorted. *)
Fixpoint insertKey {A} (m : string * A) (l : list (string * A)) : list (string * A) :=
  match l with
  | [] => [m]
  | m' :: l => if String.leb m.1 m'.1 then m :: m' :: l else m' :: insertKey m l
  end.

Definition sortKeys {A} (l : list (string * A)) : list (string * A) := foldr insertKey [] l.

Definition marshalMap (fs : fields) : string :=
  marshalStruct (sortKeys ((λ m, (m.1, compactText (text m.2))) <$> fs)).

End Wire.
