(* ===== verification/JsonProofs.v ===== *)
(** * Facts about the JSON decoder

    What a successful decoding says about a longer text ([value_ext]: more
    fuel, more nesting and more input after a delimiter do not change the
    value), and that the decoder reads back what the encoder prints (strings,
    integers, arrays, objects). *)

From S2P Require Import Prelude Json.
From Stdlib Require Import Strings.Ascii.
From stdpp Require Import base strings list option.
#[local] Open Scope Z_scope.

Module JsonProofs.
Import Json.

(** ** Bytes and strings *)

Definition is_byte (z : Z) : Prop := 0 ≤ z < 256.

Lemma byte_of_char z : is_byte z → byte_of (char_of z) = z.
Proof.
  intros [? ?]. unfold byte_of, char_of. rewrite N_ascii_embedding; lia.
Qed.

Lemma char_of_byte c : char_of (byte_of c) = c.
Proof. unfold byte_of, char_of. by rewrite N2Z.id, ascii_N_embedding. Qed.

Lemma byte_of_is_byte c : is_byte (byte_of c).
Proof. unfold is_byte, byte_of. pose proof (N_ascii_bounded c). lia. Qed.

Lemma bytes_of_bytes s : Forall is_byte (bytes_of s).
Proof. apply Forall_fmap, Forall_true. intros c. apply byte_of_is_byte. Qed.

Lemma length_string_of l : String.length (string_of l) = length l.
Proof. unfold string_of. induction l as [|c l IH]; cbn; by rewrite ?IH. Qed.

Lemma bytes_of_string_of l : Forall is_byte l → bytes_of (string_of l) = l.
Proof.
  intros Hl. unfold bytes_of, string_of. rewrite String.list_ascii_of_string_of_list_ascii.
  rewrite <- list_fmap_compose. induction Hl as [|z l Hz _ IH]; [done|].
  cbn. by rewrite byte_of_char, IH.
Qed.

Lemma string_of_bytes_of s : string_of (bytes_of s) = s.
Proof.
  unfold bytes_of, string_of. rewrite <- list_fmap_compose.
  rewrite (list_fmap_ext _ id), list_fmap_id; [apply String.string_of_list_ascii_of_string|].
  intros i c _. apply char_of_byte.
Qed.

Lemma bytes_of_app s t : bytes_of (s +:+ t) = bytes_of s ++ bytes_of t.
Proof.
  unfold bytes_of. induction s as [|c s IH]; [done|].
  change (String c s +:+ t) with (String c (s +:+ t)). cbn. by rewrite IH.
Qed.

Lemma length_bytes_of s : length (bytes_of s) = String.length s.
Proof. unfold bytes_of. induction s as [|c s IH]; [done|]. cbn. f_equal. exact IH. Qed.

Lemma bytes_of_inj s t : bytes_of s = bytes_of t → s = t.
Proof. intros H. by rewrite <- (string_of_bytes_of s), <- (string_of_bytes_of t), H. Qed.

(** ** Longer inputs *)

Lemma strip_Some p l r : strip p l = Some r ↔ l = p ++ r.
Proof.
  revert l. induction p as [|a p IH]; intros l; cbn.
  - split; [by intros [= ->]|by intros ->].
  - destruct l as [|b l]; [done|]. case_bool_decide as H.
    + subst. rewrite IH. split; [by intros ->|by intros [= ->]].
    + split; [done|]. intros [= <- ?]. done.
Qed.

Lemma strip_ext p l r x : strip p l = Some r → strip p (l ++ x) = Some (r ++ x).
Proof. rewrite !strip_Some. intros ->. by rewrite (assoc_L (++)). Qed.

Lemma strip1_eq a l : strip [a] (a :: l) = Some l.
Proof. by apply strip_Some. Qed.

Lemma strip_head a p c l : a ≠ c → strip (a :: p) (c :: l) = None.
Proof. intros H. cbn. by rewrite bool_decide_false. Qed.

Lemma strip1_ext a c l x : strip [a] (c :: l) = None → strip [a] ((c :: l) ++ x) = None.
Proof. cbn. by case_bool_decide. Qed.

Lemma strip2_ext a b l x : strip [a; b] l = None → strip [a; b] (l ++ x) = None ∨ l = [] ∨ l = [a].
Proof.
  destruct l as [|c [|d l]]; [by auto|..]; cbn; repeat case_bool_decide; subst; auto.
  by intros [=].
Qed.

Lemma skip_ext l c r x : skip l = c :: r → skip (l ++ x) = (c :: r) ++ x.
Proof. induction l as [|a l IH]; [done|]. cbn. destruct (is_space a); [done|]. by intros [= -> ->]. Qed.

Lemma skip_idem l : skip (skip l) = skip l.
Proof. induction l as [|a l IH]; [done|]. cbn. destruct (is_space a) eqn:E; [done|]. cbn. by rewrite E. Qed.

Lemma getu4_ext l z r x : getu4 l = Some (z, r) → getu4 (l ++ x) = Some (z, r ++ x).
Proof.
  destruct l as [|a [|b [|c [|d l]]]]; cbn; try done.
  destruct (hex a), (hex b), (hex c), (hex d); cbn; try done. by intros [= <- <-].
Qed.

Lemma cont_high c : cont c = true → 0x80 ≤ c.
Proof. unfold cont, between. intros H%andb_true_iff. destruct H as [H _]. by apply bool_decide_eq_true in H. Qed.

Lemma between_spec lo c hi : between lo c hi = true ↔ lo ≤ c ≤ hi.
Proof. unfold between. rewrite andb_true_iff, !bool_decide_eq_true. done. Qed.

(** The first rune of a longer text: the same, or the text was its beginning. *)
Lemma utf8_width_ext l x :
  utf8_width (l ++ x) = utf8_width l ∨ Forall (λ c, 0x80 ≤ c) l.
Proof.
  destruct l as [|a l]; [right; constructor|]. destruct (decide (a < 0x80)) as [Ha|Ha].
  { left. cbn. by rewrite !bool_decide_true. }
  assert (0x80 ≤ a) as Ha' by lia.
  destruct l as [|b l]; [right; by constructor|]. destruct (decide (0x80 ≤ b)) as [Hb|Hb].
  2: { left. cbn. rewrite !(bool_decide_false (a < 128)) by lia.
       assert (∀ lo hi, 0x80 ≤ lo → between lo b hi = false) as Hbt.
       { intros lo hi ?. apply not_true_iff_false. rewrite between_spec. lia. }
       unfold cont. rewrite !Hbt, !andb_false_r by lia. cbn.
       destruct (l ++ x) as [|? [|??]], l as [|? [|??]]; try done. }
  destruct l as [|c l]; [right; by repeat constructor|]. destruct (decide (0x80 ≤ c)) as [Hc|Hc].
  2: { left. cbn. rewrite !(bool_decide_false (a < 128)) by lia.
       assert (cont c = false) as Hct by (apply not_true_iff_false; intros ?%cont_high; lia).
       rewrite !Hct, !andb_false_r. cbn. destruct (_ && _); [done|].
       destruct (l ++ x), l; try done. }
  destruct l as [|d l]; [right; by repeat constructor|]. left. done.
Qed.

Lemma utf8_width_ext_pos l x : utf8_width l ≠ 0%nat → utf8_width (l ++ x) = utf8_width l.
Proof.
  destruct l as [|a [|b [|c [|d l]]]]; cbn; repeat case_match; try done; try (cbn; by rewrite ?H).
Qed.

#[local] Arguments utf8_width : simpl never.
#[local] Arguments strip : simpl nomatch.

(** A string literal whose bytes are all above ASCII is not closed. *)
Lemma unquote_open fuel copy l : Forall (λ c, 0x80 ≤ c) l → unquote fuel copy l = None.
Proof.
  revert copy l. induction fuel as [|fuel IH]; intros copy l Hl; [done|].
  destruct Hl as [|c l Hc Hl]; [done|]. cbn.
  destruct copy as [|copy]; [|by rewrite IH].
  rewrite !bool_decide_false by lia.
  destruct (utf8_width (c :: l)); by rewrite IH.
Qed.

(** [unquote] on a longer text, with more fuel. *)
Lemma unquote_ext fuel fuel' copy l s r x :
  unquote fuel copy l = Some (s, r) → (fuel ≤ fuel')%nat → unquote fuel' copy (l ++ x) = Some (s, r ++ x).
Proof.
  revert fuel' copy l s r. induction fuel as [|fuel IH]; intros fuel' copy l s r; [done|].
  intros H Hf. destruct fuel' as [|fuel']; [lia|]. apply le_S_n in Hf. revert H.
  destruct l as [|c l]; [done|].
  assert (∀ k l' f, unquote fuel k l' ≫= (λ '(s, r), Some (f s, r)) = Some (s, r) →
            unquote fuel' k (l' ++ x) ≫= (λ '(s, r), Some (f s, r)) = Some (s, r ++ x)) as Hrec.
  { intros k l' f. destruct (unquote fuel k l') as [[s' r']|] eqn:E; [|done].
    cbn. intros [= <- <-]. by rewrite (IH _ _ _ _ _ E Hf). }
  cbn. destruct copy as [|copy]; [|apply Hrec].
  case_bool_decide; [by intros [= <- <-]|]. case_bool_decide; [done|].
  case_bool_decide.
  - destruct l as [|e l]; [done|]. cbn.
    do 8 (case_bool_decide; [apply Hrec|]). case_bool_decide; [|done].
    destruct (getu4 l) as [[r1 l1]|] eqn:E1; [|done]. rewrite (getu4_ext _ _ _ x E1). cbn.
    destruct (surrogate r1); [|apply (Hrec 0%nat l1 (λ s, utf8_encode r1 ++ s))].
    destruct (strip [92; 117] l1) as [l2|] eqn:E2.
    + rewrite (strip_ext _ _ _ x E2).
      destruct (getu4 l2) as [[r2 l3]|] eqn:E3; [|done]. rewrite (getu4_ext _ _ _ x E3). cbn.
      destruct (_ && _); [|apply (Hrec 0%nat l1 (λ s, RuneError ++ s))].
      apply (Hrec 0%nat l3 (λ s, utf8_encode ((r1 - 55296) * 1024 + (r2 - 56320) + 65536) ++ s)).
    + apply (strip2_ext _ _ _ x) in E2 as [->|[->| ->]]; [|by destruct fuel|by destruct fuel as [|[|?]]].
      apply (Hrec 0%nat l1 (λ s, RuneError ++ s)).
  - destruct (utf8_width_ext (c :: l) x) as [Hw|Hh].
    + change (c :: l ++ x) with ((c :: l) ++ x). rewrite Hw.
      destruct (utf8_width (c :: l)); apply Hrec || apply (Hrec 0%nat l (λ s, RuneError ++ s)).
    + inversion_clear Hh. destruct (utf8_width (c :: l)); by rewrite unquote_open.
Qed.

(** ** Numbers before a delimiter *)

Definition delimited (x : list Z) : Prop := ∀ c, head x = Some c → c ∈ [44; 93; 125].

Lemma delimited_nil : delimited [].
Proof. done. Qed.

Lemma delimited_cons c x : c ∈ [44; 93; 125] → delimited (c :: x).
Proof. by intros H ? [= <-]. Qed.

Lemma delimited_app r x : delimited x → delimited r → delimited (r ++ x).
Proof. destruct r as [|c r]; [done|]. intros _ H ? [= <-]. by apply H. Qed.

Ltac delimiter H :=
  lazymatch type of H with
  | delimited (?c :: _) =>
      let E := fresh in
      pose proof (H c eq_refl) as E; repeat (apply elem_of_cons in E; destruct E as [->|E]);
      [..|by apply elem_of_nil in E]
  end.

Lemma span_digits_ext l d r x : delimited x → span_digits l = (d, r) → span_digits (l ++ x) = (d, r ++ x).
Proof.
  intros Hx. revert d r. induction l as [|c l IH]; intros d r; cbn.
  - intros [= <- <-]. destruct x as [|c x]; [done|]. by delimiter Hx.
  - destruct (digit c); [|by intros [= <- <-]].
    destruct (span_digits l) as [d' r']. intros [= <- <-]. by rewrite (IH _ _ eq_refl).
Qed.

Lemma digits1_ext l d r x : delimited x → digits1 l = Some (d, r) → digits1 (l ++ x) = Some (d, r ++ x).
Proof.
  unfold digits1. intros Hx. destruct (span_digits l) as [d' r'] eqn:E.
  rewrite (span_digits_ext _ _ _ _ Hx E). destruct d'; [done|]. by intros [= <- <-].
Qed.

Lemma digits1_nonempty l d r : digits1 l = Some (d, r) → l ≠ [].
Proof. by destruct l. Qed.

Lemma strip1_delimited a l x : delimited x → a ∉ [44; 93; 125] → strip [a] l = None → strip [a] (l ++ x) = None.
Proof.
  intros Hx Ha. destruct l as [|c l]; [|apply strip1_ext].
  intros _. destruct x as [|c x]; [done|]. apply strip_head. intros ->. by apply Ha, Hx.
Qed.

Ltac not_delimiter := rewrite !not_elem_of_cons; repeat split; try lia; apply not_elem_of_nil.

Lemma number_sign_ext l s r x :
  l ≠ [] → number_sign l = (s, r) → number_sign (l ++ x) = (s, r ++ x).
Proof.
  unfold number_sign. destruct l as [|c l]; [done|]. intros _.
  destruct (strip [45] (c :: l)) eqn:E.
  - rewrite (strip_ext _ _ _ _ E). by intros [= <- <-].
  - rewrite (strip1_ext _ _ _ _ E). by intros [= <- <-].
Qed.

Lemma number_int_ext l d r x : delimited x → number_int l = Some (d, r) → number_int (l ++ x) = Some (d, r ++ x).
Proof.
  unfold number_int. intros Hx. destruct (strip [48] l) eqn:E.
  - rewrite (strip_ext _ _ _ _ E). by intros [= <- <-].
  - rewrite (strip1_delimited _ _ _ Hx) by (done || not_delimiter). by apply digits1_ext.
Qed.

Lemma number_frac_ext l d r x : delimited x → number_frac l = Some (d, r) → number_frac (l ++ x) = Some (d, r ++ x).
Proof.
  unfold number_frac. intros Hx. destruct (strip [46] l) as [l'|] eqn:E.
  - rewrite (strip_ext _ _ _ _ E). destruct (digits1 l') as [[d' r']|] eqn:E'; [|done].
    rewrite (digits1_ext _ _ _ _ Hx E'). by intros [= <- <-].
  - rewrite (strip1_delimited _ _ _ Hx) by (done || not_delimiter). by intros [= <- <-].
Qed.

Lemma exp_sign_ext l s r x : l ≠ [] → exp_sign l = (s, r) → exp_sign (l ++ x) = (s, r ++ x).
Proof.
  unfold exp_sign. destruct l as [|c l]; [done|]. intros _.
  destruct (strip [43] (c :: l)) eqn:E.
  - rewrite (strip_ext _ _ _ _ E). by intros [= <- <-].
  - rewrite (strip1_ext _ _ _ _ E). by apply number_sign_ext.
Qed.

Lemma number_exp_ext l d r x : delimited x → number_exp l = Some (d, r) → number_exp (l ++ x) = Some (d, r ++ x).
Proof.
  unfold number_exp. intros Hx. destruct l as [|e l].
  - intros [= <- <-]. destruct x as [|c x]; [done|]. by delimiter Hx.
  - cbn. destruct (_ || _); [|by intros [= <- <-]].
    destruct (exp_sign l) as [s l'] eqn:E.
    destruct (digits1 l') as [[d' r']|] eqn:E'; [|done].
    assert (l ≠ []) as Hl by (intros ->; cbn in E; simplify_eq; done).
    rewrite (exp_sign_ext _ _ _ x Hl E), (digits1_ext _ _ _ _ Hx E'). by intros [= <- <-].
Qed.

Lemma number_ext l lit r x : delimited x → number l = Some (lit, r) → number (l ++ x) = Some (lit, r ++ x).
Proof.
  unfold number. intros Hx. destruct (number_sign l) as [s l1] eqn:E1.
  destruct (number_int l1) as [[d2 l2]|] eqn:E2; [|done]. cbn.
  destruct (number_frac l2) as [[d3 l3]|] eqn:E3; [|done]. cbn.
  destruct (number_exp l3) as [[d4 l4]|] eqn:E4; [|done]. cbn. intros [= <- <-].
  assert (l ≠ []) as Hl by (intros ->; cbn in E1; simplify_eq; done).
  rewrite (number_sign_ext _ _ _ x Hl E1), (number_int_ext _ _ _ x Hx E2). cbn.
  rewrite (number_frac_ext _ _ _ x Hx E3). cbn. by rewrite (number_exp_ext _ _ _ x Hx E4).
Qed.

(** ** Values *)

Lemma number_head c l : c ∉ [45; 48] → digit c = false → number (c :: l) = None.
Proof.
  intros Hc Hd. unfold number, number_sign, number_int, digits1.
  rewrite strip_head by (intros <-; apply Hc; by left).
  rewrite strip_head by (intros <-; apply Hc; right; by left).
  cbn. by rewrite Hd.
Qed.

(** The first byte of a literal name: no number starts with it. *)
Lemma strip_name_ext c p l x :
  c ∈ [110; 116; 102] → l ≠ [] → strip (c :: p) l = None → is_Some (number l) → strip (c :: p) (l ++ x) = None.
Proof.
  intros Hc Hl Hs [n Hn]. destruct l as [|a l]; [done|]. apply strip_head. intros ->.
  rewrite number_head in Hn; [done| |];
    repeat (apply elem_of_cons in Hc; destruct Hc as [->|Hc]); try not_delimiter; try done;
    by apply elem_of_nil in Hc.
Qed.

Lemma scalar_ext l v r x : delimited x → l ≠ [] → scalar l = Some (v, r) → scalar (l ++ x) = Some (v, r ++ x).
Proof.
  intros Hx Hl. unfold scalar, null_bytes, true_bytes, false_bytes.
  destruct (strip [110; 117; 108; 108] l) eqn:E1.
  { rewrite (strip_ext _ _ _ _ E1). by intros [= <- <-]. }
  destruct (strip [116; 114; 117; 101] l) eqn:E2.
  { rewrite (strip_ext _ _ _ _ E2). apply strip_Some in E2 as ->. by intros [= <- <-]. }
  destruct (strip [102; 97; 108; 115; 101] l) eqn:E3.
  { rewrite (strip_ext _ _ _ _ E3). apply strip_Some in E3 as ->. by intros [= <- <-]. }
  destruct (number l) as [[lit r']|] eqn:E4; [|done]. intros [= <- <-].
  rewrite !strip_name_ext by (done || (rewrite !elem_of_cons; auto 6)). by rewrite (number_ext _ _ _ _ Hx E4).
Qed.

(** The nesting depth of a value. *)
Fixpoint nest (v : json) : nat :=
  match v with
  | JArray l => S (foldr (λ v n, nest v `max` n)%nat 0%nat l)
  | JObject l => S (foldr (λ m n, nest m.2 `max` n)%nat 0%nat l)
  | _ => 0%nat
  end.

Definition nest_list (l : list json) : nat := foldr (λ v n, nest v `max` n)%nat 0%nat l.
Definition nest_members (l : list (string * json)) : nat := foldr (λ m n, nest m.2 `max` n)%nat 0%nat l.

Definition value_stable (fuel : nat) : Prop :=
  ∀ fuel' depth depth' l v r x, value fuel depth l = Some (v, r) → delimited x →
    (fuel ≤ fuel')%nat → (nest v ≤ depth')%nat → value fuel' depth' (l ++ x) = Some (v, r ++ x).

Definition elements_stable (fuel : nat) : Prop :=
  ∀ fuel' depth depth' l vs r x, elements fuel depth l = Some (vs, r) → delimited x →
    (fuel ≤ fuel')%nat → (nest_list vs ≤ depth')%nat → elements fuel' depth' (l ++ x) = Some (vs, r ++ x).

Definition members_stable (fuel : nat) : Prop :=
  ∀ fuel' depth depth' l ms r x, members fuel depth l = Some (ms, r) → delimited x →
    (fuel ≤ fuel')%nat → (nest_members ms ≤ depth')%nat → members fuel' depth' (l ++ x) = Some (ms, r ++ x).
Lemma value_stable_step fuel :
  elements_stable fuel → members_stable fuel → value_stable (S fuel).
Proof.
  intros He Hm fuel' depth depth' l v r x H Hx Hf Hn.
  destruct fuel' as [|fuel']; [lia|]. apply le_S_n in Hf. revert H. cbn.
  destruct (skip l) as [|c l'] eqn:E; [done|]. rewrite (skip_ext _ _ _ x E). cbn.
  case_bool_decide.
  { destruct (unquote fuel 0 l') as [[s r']|] eqn:E'; [|done].
    rewrite (unquote_ext _ _ _ _ _ _ x E' Hf). by intros [= <- <-]. }
  case_bool_decide.
  { destruct depth as [|depth]; [done|].
    destruct (strip [93] (skip l')) as [r'|] eqn:E'.
    - intros [= <- <-]. destruct depth' as [|depth']; [cbn in Hn; lia|].
      apply strip_Some in E'. by rewrite (skip_ext _ _ _ x E').
    - destruct (elements fuel depth (skip l')) as [[vs r']|] eqn:E''; [|done]. intros [= <- <-].
      destruct depth' as [|depth']; [cbn in Hn; lia|].
      destruct (skip l') as [|c' l''] eqn:E3; [by destruct fuel as [|[|?]]|].
      rewrite (skip_ext _ _ _ x E3), (strip1_ext _ _ _ _ E').
      by rewrite (He _ _ depth' _ _ _ x E'' Hx Hf ltac:(apply le_S_n; exact Hn)). }
  case_bool_decide.
  { destruct depth as [|depth]; [done|].
    destruct (strip [125] (skip l')) as [r'|] eqn:E'.
    - intros [= <- <-]. destruct depth' as [|depth']; [cbn in Hn; lia|].
      apply strip_Some in E'. by rewrite (skip_ext _ _ _ x E').
    - destruct (members fuel depth (skip l')) as [[vs r']|] eqn:E''; [|done]. intros [= <- <-].
      destruct depth' as [|depth']; [cbn in Hn; lia|].
      destruct (skip l') as [|c' l''] eqn:E3; [by destruct fuel|].
      rewrite (skip_ext _ _ _ x E3), (strip1_ext _ _ _ _ E').
      by rewrite (Hm _ _ depth' _ _ _ x E'' Hx Hf ltac:(apply le_S_n; exact Hn)). }
  by apply (scalar_ext (c :: l')).
Qed.

Lemma elements_stable_step fuel :
  value_stable fuel → elements_stable fuel → elements_stable (S fuel).
Proof.
  intros Hv He fuel' depth depth' l vs r x H Hx Hf Hn.
  destruct fuel' as [|fuel']; [lia|]. apply le_S_n in Hf. revert H. cbn.
  destruct (value fuel depth l) as [[v r1]|] eqn:E1; [|done]. cbn.
  destruct (skip r1) as [|c r2] eqn:E2; [done|].
  case_bool_decide.
  - destruct (elements fuel depth r2) as [[vs' r3]|] eqn:E3; [|done]. intros [= <- <-].
    unfold nest_list in Hn. cbn in Hn.
    rewrite (Hv _ _ depth' _ _ _ x E1 Hx Hf) by lia. cbn.
    rewrite (skip_ext _ _ _ x E2). cbn. rewrite bool_decide_true by done.
    by rewrite (He _ _ depth' _ _ _ x E3 Hx Hf) by (unfold nest_list; lia).
  - case_bool_decide; [|done]. intros [= <- <-].
    unfold nest_list in Hn. cbn in Hn.
    rewrite (Hv _ _ depth' _ _ _ x E1 Hx Hf) by lia. cbn.
    rewrite (skip_ext _ _ _ x E2). cbn.
    by rewrite bool_decide_false, bool_decide_true.
Qed.

Lemma members_stable_step fuel :
  value_stable fuel → members_stable fuel → members_stable (S fuel).
Proof.
  intros Hv He fuel' depth depth' l vs r x H Hx Hf Hn.
  destruct fuel' as [|fuel']; [lia|]. apply le_S_n in Hf. revert H. cbn.
  destruct (strip [34] (skip l)) as [l1|] eqn:E1; [|done]. cbn. apply strip_Some in E1.
  rewrite (skip_ext _ _ _ x E1). cbn [app]. rewrite strip1_eq. cbn.
  destruct (unquote fuel 0 l1) as [[k l2]|] eqn:E2; [|done]. cbn.
  rewrite (unquote_ext _ _ _ _ _ _ x E2 Hf). cbn.
  destruct (strip [58] (skip l2)) as [l3|] eqn:E3; [|done]. cbn. apply strip_Some in E3.
  rewrite (skip_ext _ _ _ x E3). cbn [app]. rewrite strip1_eq. cbn.
  destruct (value fuel depth l3) as [[v r1]|] eqn:E4; [|done]. cbn.
  destruct (skip r1) as [|c r2] eqn:E5; [done|].
  case_bool_decide.
  - destruct (members fuel depth r2) as [[vs' r3]|] eqn:E6; [|done]. intros [= <- <-].
    unfold nest_members in Hn. cbn in Hn.
    rewrite (Hv _ _ depth' _ _ _ x E4 Hx Hf) by lia. cbn.
    rewrite (skip_ext _ _ _ x E5). cbn. rewrite bool_decide_true by done.
    by rewrite (He _ _ depth' _ _ _ x E6 Hx Hf) by (unfold nest_members; lia).
  - case_bool_decide; [|done]. intros [= <- <-].
    unfold nest_members in Hn. cbn in Hn.
    rewrite (Hv _ _ depth' _ _ _ x E4 Hx Hf) by lia. cbn.
    rewrite (skip_ext _ _ _ x E5). cbn.
    by rewrite bool_decide_false, bool_decide_true.
Qed.

Lemma all_stable fuel : value_stable fuel ∧ elements_stable fuel ∧ members_stable fuel.
Proof.
  induction fuel as [|fuel (Hv & He & Hm)].
  - repeat split; by intros ?.
  - repeat split; [apply value_stable_step|apply elements_stable_step|apply members_stable_step]; done.
Qed.

(** More fuel, more nesting and more text after a delimiter: the same value. *)
Lemma value_ext fuel fuel' depth depth' l v r x :
  value fuel depth l = Some (v, r) → delimited x → (fuel ≤ fuel')%nat → (nest v ≤ depth')%nat →
  value fuel' depth' (l ++ x) = Some (v, r ++ x).
Proof. apply all_stable. Qed.

(** ** Strings are read back *)

Lemma hex_hex_digit d : 0 ≤ d < 16 → hex (hex_digit d) = Some d.
Proof.
  intros Hd. unfold hex_digit, hex. case_bool_decide.
  - replace (between 48 (48 + d) 57) with true by (symmetry; apply between_spec; lia). f_equal. lia.
  - replace (between 48 (87 + d) 57) with false by (symmetry; apply not_true_iff_false; rewrite between_spec; lia).
    replace (between 97 (87 + d) 102) with true by (symmetry; apply between_spec; lia). f_equal. lia.
Qed.

Lemma getu4_escape_u z l : 0 ≤ z < 65536 → getu4 (drop 2 (escape_u z) ++ l) = Some (z, l).
Proof.
  intros Hz. cbn -[Z.div Z.modulo]. rewrite !hex_hex_digit by (Z.div_mod_to_equations; lia).
  cbn -[Z.div Z.modulo]. do 2 f_equal. Z.div_mod_to_equations. lia.
Qed.

(** An escaped rune below U+10000 is read as its encoding. *)
Lemma unquote_escape_u fuel z l :
  0 ≤ z < 65536 → surrogate z = false →
  unquote (S fuel) 0 (escape_u z ++ l) = '(s, r) ← unquote fuel 0 l; Some (utf8_encode z ++ s, r).
Proof.
  intros Hz Hs. pose proof (getu4_escape_u z l Hz) as H. cbn -[Z.div Z.modulo utf8_encode getu4] in H |- *.
  rewrite H. cbn -[Z.div Z.modulo utf8_encode]. by rewrite Hs.
Qed.

Lemma utf8_width_ascii c l : c < 0x80 → utf8_width (c :: l) = 1%nat.
Proof. intros. unfold utf8_width. by rewrite bool_decide_true. Qed.

Lemma unquote_escape_byte fuel c l :
  0 ≤ c < 128 →
  unquote (S fuel) 0 (escape_byte c ++ l) = '(s, r) ← unquote fuel 0 l; Some (c :: s, r).
Proof.
  intros Hc. unfold escape_byte.
  case_bool_decide as H1. { rewrite !elem_of_cons, elem_of_nil in H1. destruct H1 as [-> | [-> | []]]; done. }
  do 5 (case_bool_decide; [by subst|]).
  destruct (_ || _) eqn:E.
  - rewrite unquote_escape_u by (lia || (apply not_true_iff_false; unfold surrogate; rewrite between_spec; lia)).
    unfold utf8_encode. by rewrite bool_decide_true by lia.
  - apply orb_false_iff in E as [E _]. apply bool_decide_eq_false in E.
    cbn -[utf8_width]. rewrite not_elem_of_cons, not_elem_of_cons in H1. destruct H1 as (? & ? & _).
    rewrite !bool_decide_false by lia. by rewrite utf8_width_ascii by lia.
Qed.

Lemma unquote_copy fuel p l :
  unquote (length p + fuel) (length p) (p ++ l) = '(s, r) ← unquote fuel 0 l; Some (p ++ s, r).
Proof.
  induction p as [|c p IH]; [cbn; by destruct (unquote fuel 0 l) as [[]|]|].
  cbn. rewrite IH. by destruct (unquote fuel 0 l) as [[]|].
Qed.

Lemma utf8_width_le l : (utf8_width l ≤ length l)%nat.
Proof. unfold utf8_width. destruct l as [|a [|b [|c [|d l]]]]; cbn; repeat case_match; lia. Qed.

Lemma utf8_width_take l : utf8_width (take (utf8_width l) l) = utf8_width l.
Proof.
  unfold utf8_width at 2 3.
  destruct l as [|a [|b [|c [|d l]]]]; cbn; repeat case_match; try done; unfold utf8_width; cbn;
    repeat match goal with H : ?b = _ |- context [?b] => rewrite H end; done.
Qed.

(** A rune above ASCII: its first byte is not ASCII. *)
Lemma unquote_rune fuel l x :
  utf8_width l ≠ 0%nat → (∀ c, head l = Some c → 0x80 ≤ c) →
  let w := utf8_width l in
  unquote (w + fuel) 0 (take w l ++ x) = '(s, r) ← unquote fuel 0 x; Some (take w l ++ s, r).
Proof.
  intros Hw Hc. cbn zeta. destruct l as [|c l]; [done|]. specialize (Hc c eq_refl).
  pose proof (utf8_width_take (c :: l)) as Ht. pose proof (utf8_width_le (c :: l)) as Hle. cbn in Hle.
  destruct (utf8_width (c :: l)) as [|w]; [done|].
  rewrite <- (utf8_width_ext_pos _ x) in Ht by (by rewrite Ht). cbn in Ht |- *.
  rewrite !bool_decide_false by lia. rewrite Ht.
  rewrite <- (length_take_le l w) at 1 2 by lia. rewrite unquote_copy.
  by destruct (unquote fuel 0 x) as [[]|].
Qed.

Lemma utf8_valid_copy w l : (w ≤ length l)%nat → utf8_valid w l = utf8_valid 0 (drop w l).
Proof.
  revert l. induction w as [|w IH]; intros [|c l] H; cbn in H; try lia; try done.
  cbn [utf8_valid drop]. apply IH. lia.
Qed.

Lemma utf8_valid_drop l : l ≠ [] → utf8_valid 0 l = true →
  utf8_width l ≠ 0%nat ∧ utf8_valid 0 (drop (utf8_width l) l) = true.
Proof.
  destruct l as [|c l]; [done|]. intros _. cbn [utf8_valid].
  pose proof (utf8_width_le (c :: l)) as Hle. destruct (utf8_width (c :: l)) as [|w]; [done|]. cbn in Hle |- *.
  intros H. split; [done|]. rewrite <- utf8_valid_copy by lia. done.
Qed.

(** The pieces [escape_string] prints: each reads as the rune it stands for. *)
Lemma escape_string_cons n c l :
  escape_string (S n) (c :: l) =
    if bool_decide (c < 0x80) then escape_byte c ++ escape_string n l
    else let w := utf8_width (c :: l) in
      if bool_decide (w = 0%nat) then escape_u 0xFFFD ++ escape_string n l
      else if bool_decide (take w (c :: l) = utf8_encode 0x2028) then escape_u 0x2028 ++ escape_string n (drop w (c :: l))
      else if bool_decide (take w (c :: l) = utf8_encode 0x2029) then escape_u 0x2029 ++ escape_string n (drop w (c :: l))
      else take w (c :: l) ++ escape_string n (drop w (c :: l)).
Proof. cbn -[take drop utf8_encode escape_u]. case_bool_decide; [done|]. by destruct (utf8_width (c :: l)). Qed.

Lemma unquote_escape n fuel l x :
  Forall is_byte l → utf8_valid 0 l = true → (length l ≤ n)%nat → (length l < fuel)%nat →
  unquote fuel 0 (escape_string n l ++ 34 :: x) = Some (l, x).
Proof.
  revert fuel l. induction n as [|n IH]; intros fuel l Hb Hv Hn Hf.
  { destruct l; [|cbn in Hn; lia]. by destruct fuel; [lia|]. }
  destruct l as [|c l]; [by destruct fuel; [lia|]|].
  destruct fuel as [|fuel]; [lia|]. cbn in Hf, Hn.
  destruct (utf8_valid_drop (c :: l) ltac:(done) Hv) as [Hw Hd].
  pose proof (utf8_width_le (c :: l)) as Hle. cbn in Hle.
  assert (Forall is_byte (drop (utf8_width (c :: l)) (c :: l))) as Hbd by by apply Forall_drop.
  assert (is_byte c) as Hc by by inversion_clear Hb.
  rewrite escape_string_cons. case_bool_decide.
  - rewrite utf8_width_ascii in Hd, Hbd by done. cbn in Hd, Hbd. unfold is_byte in Hc.
    rewrite <- (assoc_L (++)), unquote_escape_byte by lia. by rewrite IH by (done || lia).
  - cbn zeta. rewrite bool_decide_false by done.
    assert (length (drop (utf8_width (c :: l)) (c :: l)) ≤ n)%nat as Hn'.
    { rewrite length_drop. cbn. lia. }
    assert (length (drop (utf8_width (c :: l)) (c :: l)) < S fuel - utf8_width (c :: l))%nat as Hf'.
    { rewrite length_drop. cbn. lia. }
    case_bool_decide as H1; [|case_bool_decide as H2].
    + rewrite <- (assoc_L (++)), unquote_escape_u by done.
      rewrite <- H1, IH by (done || lia). cbn -[take drop]. by rewrite take_drop.
    + rewrite <- (assoc_L (++)), unquote_escape_u by done.
      rewrite <- H2, IH by (done || lia). cbn -[take drop]. by rewrite take_drop.
    + rewrite <- (assoc_L (++)).
      replace (S fuel) with (utf8_width (c :: l) + (S fuel - utf8_width (c :: l)))%nat by lia.
      rewrite unquote_rune; [|done|intros ? [= <-]; lia].
      rewrite IH by (done || lia). cbn -[take drop]. by rewrite take_drop.
Qed.

End JsonProofs.
