(* ===== verification/WireProofs.v ===== *)
(** * Printing and reading JSON values

    A canonical text is one the decoder reads as a value, in any context, and
    that printing a raw message leaves alone.  Strings, integers, arrays and
    structs as [json.Marshal] prints them are canonical ([canonical_string],
    ...), objects are read back member by member ([strictObject_print],
    [unmarshalMap_print]). *)

From S2P Require Import Prelude Json Wire JsonProofs.
From stdpp Require Import base strings list option.
#[local] Open Scope Z_scope.

Module WireProofs.
Import Json Wire JsonProofs.

#[local] Arguments utf8_width : simpl never.
#[local] Arguments strip : simpl nomatch.

(** ** Compaction of texts that follow each other *)

Lemma separator_Some l z : separator l = Some z → ∃ c l', l = [0xE2; 0x80; c] ++ l' ∧ (c = 0xA8 ∨ c = 0xA9).
Proof.
  destruct l as [|a [|b [|c l]]]; try done. cbn. repeat case_bool_decide; try done; subst; eauto.
Qed.

Lemma compact_separator i e l z l' c :
  l = [0xE2; 0x80; c] ++ l' → separator l = Some z → compact 0 i e l = escape_u z ++ compact 0 i false l'.
Proof. intros -> H. cbn in *. by rewrite H. Qed.

(** The scanner's state after a text. *)
Fixpoint final (drop : nat) (instr esc : bool) (l : list Z) : bool * bool :=
  match l with
  | [] => (instr, esc)
  | c :: rest =>
      match drop, separator l with
      | S drop, _ => final drop instr esc rest
      | O, Some r => final 2 instr false rest
      | O, None =>
          if instr then
            if esc then final 0 true false rest
            else if bool_decide (c = 92) then final 0 true true rest
            else final 0 (bool_decide (c ≠ 34)) false rest
          else if is_space c then final 0 false false rest
          else final 0 (bool_decide (c = 34)) false rest
      end
  end.

Definition no_separator (x : list Z) : Prop := ∀ c, head x = Some c → c < 0x80.

Lemma delimited_no_separator x : delimited x → no_separator x.
Proof.
  intros Hx c Hc. specialize (Hx c Hc). rewrite !elem_of_cons, elem_of_nil in Hx. lia.
Qed.

Lemma separator_ext c l x : no_separator x → separator (c :: l ++ x) = separator (c :: l).
Proof.
  intros Hx. destruct l as [|a [|b l]]; cbn; [| |done].
  - destruct x as [|b [|d x]]; try done. specialize (Hx b eq_refl).
    rewrite (bool_decide_false (b = 128)) by lia. by rewrite andb_false_r.
  - destruct x as [|d x]; try done. specialize (Hx d eq_refl). destruct (_ && _); [|done].
    by rewrite !bool_decide_false by lia.
Qed.

Lemma compact_app n l i e x :
  (length l ≤ n)%nat → no_separator x →
  compact 0 i e (l ++ x) = compact 0 i e l ++ compact 0 (final 0 i e l).1 (final 0 i e l).2 x.
Proof.
  intros Hn Hx. revert l i e Hn. induction n as [|n IH]; intros l i e Hn.
  { destruct l; [done|cbn in Hn; lia]. }
  destruct l as [|c l]; [done|]. cbn in Hn.
  pose proof (separator_ext c l x Hx) as Hs. destruct (separator (c :: l)) as [z|] eqn:E.
  - destruct (separator_Some _ _ E) as (d & l' & Hl & _). injection Hl as -> ->.
    rewrite (compact_separator _ _ _ _ (l' ++ x) _ eq_refl Hs), (compact_separator _ _ _ _ l' _ eq_refl E).
    cbn in Hn. rewrite IH by lia. cbn [final]. by rewrite E, (assoc_L (++)).
  - cbn [compact final app]. rewrite Hs, E.
    repeat case_match; cbn; rewrite IH by lia; by rewrite <- ?(assoc_L (++)).
Qed.

(** ** Canonical texts *)

(** Printing leaves the text alone whatever follows it. *)
Definition settled (t : list Z) : Prop :=
  ∀ x, delimited x → compact 0 false false (t ++ x) = t ++ compact 0 false false x.

Record canonical (t : string) (v : json) : Prop := {
  can_value : value (fuel_of (bytes_of t)) (nest v) (bytes_of t) = Some (v, []);
  can_skip : skip (bytes_of t) = bytes_of t;
  can_settled : settled (bytes_of t);
}.

Lemma canonical_compactText t v : canonical t v → compactText t = t.
Proof.
  intros [_ _ H]. unfold compactText. rewrite <- (app_nil_r (bytes_of t)), (H [] delimited_nil).
  cbn. by rewrite app_nil_r, string_of_bytes_of.
Qed.

Lemma canonical_nonempty t v : canonical t v → bytes_of t ≠ [].
Proof. intros [H _ _] E. rewrite E in H. done. Qed.

Lemma skip_app_canonical t v x : canonical t v → skip (bytes_of t ++ x) = bytes_of t ++ x.
Proof.
  intros Hc. pose proof (canonical_nonempty _ _ Hc). destruct Hc as [_ Hs _].
  destruct (bytes_of t) as [|c l]; [done|]. by rewrite (skip_ext _ _ _ x Hs).
Qed.

Lemma canonical_rawValue t v fuel depth x :
  canonical t v → delimited x → (fuel_of (bytes_of t) ≤ fuel)%nat → (nest v ≤ depth)%nat →
  rawValue fuel depth (bytes_of t ++ x) = Some (mkRaw t v, x).
Proof.
  intros Hc Hx Hf Hd. unfold rawValue. rewrite (skip_app_canonical t v x Hc).
  rewrite (value_ext _ fuel _ depth _ _ _ x (can_value _ _ Hc) Hx Hf Hd). cbn.
  rewrite length_app, Nat.add_sub, take_app_length. by rewrite string_of_bytes_of.
Qed.

(** A raw message that is one value without white space around it. *)
Definition wholeValue (p : string) : option json :=
  match rawValue (fuel_of (bytes_of p)) maxNestingDepth (bytes_of p) with
  | Some (r, []) => if bool_decide (text r = p) then Some (ast r) else None
  | _ => None
  end.

(** Printing prints it as it is, and it ends outside a string. *)
Definition compacted (p : string) : bool :=
  bool_decide (compactText p = p) && bool_decide (final 0 false false (bytes_of p) = (false, false)).

Lemma string_of_inj l l' : Forall is_byte l → Forall is_byte l' → string_of l = string_of l' → l = l'.
Proof. intros H H' E. by rewrite <- (bytes_of_string_of l H), <- (bytes_of_string_of l' H'), E. Qed.

Lemma escape_u_bytes z : 0 ≤ z < 65536 → Forall is_byte (escape_u z).
Proof.
  intros Hz. assert (∀ d, 0 ≤ d < 16 → is_byte (hex_digit d)) as H.
  { intros d Hd. unfold hex_digit, is_byte. case_bool_decide; lia. }
  repeat constructor; try done; apply H; Z.div_mod_to_equations; lia.
Qed.

Lemma compact_bytes n l i e : (length l ≤ n)%nat → Forall is_byte l → Forall is_byte (compact 0 i e l).
Proof.
  revert l i e. induction n as [|n IH]; intros l i e Hn Hl; (destruct Hl as [|c l Hc Hl]; [constructor|]); cbn in Hn; [lia|].
  destruct (separator (c :: l)) as [z|] eqn:E.
  - destruct (separator_Some _ _ E) as (d & l' & Heq & Hd). injection Heq as -> ->.
    rewrite (compact_separator _ _ _ _ l' _ eq_refl E). apply Forall_app. split.
    + apply escape_u_bytes. destruct Hd as [-> | ->]; injection E as <-; lia.
    + cbn in Hn. do 2 apply Forall_inv_tail in Hl. apply IH; [lia|done].
  - cbn [compact]. rewrite E.
    assert (Forall is_byte (escape_u c)) as Hesc by (apply escape_u_bytes; unfold is_byte in Hc; lia).
    repeat case_match;
      first [apply Forall_app; split; [first [exact Hesc|by repeat constructor]|]|constructor; [done|]|idtac];
      apply IH; (lia || done).
Qed.

Lemma canonical_wholeValue p v : wholeValue p = Some v → compacted p = true → canonical p v.
Proof.
  unfold wholeValue, compacted. intros Hv [Hc%bool_decide_eq_true Hf%bool_decide_eq_true]%andb_true_iff.
  destruct (rawValue _ _ _) as [[r [|]]|] eqn:E; try done. case_bool_decide as Ht; [|done]. injection Hv as <-.
  unfold rawValue in E. destruct (value _ _ _) as [[w r']|] eqn:Ew; [|done]. cbn in E. injection E as <- ->. cbn in *.
  rewrite Nat.sub_0_r, firstn_all in Ht.
  assert (skip (bytes_of p) = bytes_of p) as Hs.
  { apply string_of_inj; [..|by rewrite string_of_bytes_of]; [|apply bytes_of_bytes].
    pose proof (bytes_of_bytes p) as H. revert H. generalize (bytes_of p). induction l as [|c l IH]; [done|].
    cbn. case_match; [|done]. inversion_clear 1. auto. }
  split; [|done|].
  - pose proof (value_ext _ (fuel_of (bytes_of p)) _ (nest w) _ _ _ [] Ew delimited_nil) as H.
    rewrite app_nil_r in H. by apply H.
  - intros x Hx. rewrite (compact_app _ _ _ _ _ (le_n _) (delimited_no_separator _ Hx)), Hf. cbn. f_equal.
    apply string_of_inj; [eapply compact_bytes; [done|]| |rewrite string_of_bytes_of]; try apply bytes_of_bytes.
    exact Hc.
Qed.

(** ** Strings are canonical *)

Lemma separator_head c l : c ≠ 0xE2 → separator (c :: l) = None.
Proof. intros H. destruct l as [|a [|b l]]; try done. cbn. by rewrite bool_decide_false. Qed.

Lemma compact_plain c y :
  c ∉ [60; 62; 38; 92; 34] → separator (c :: y) = None →
  compact 0 true false (c :: y) = c :: compact 0 true false y.
Proof.
  rewrite !not_elem_of_cons. intros (? & ? & ? & ? & ? & _) Hs. cbn [compact]. rewrite Hs.
  rewrite bool_decide_false by (rewrite !elem_of_cons, elem_of_nil; naive_solver).
  by rewrite bool_decide_false, bool_decide_true by done.
Qed.

Lemma compact_escaped c y :
  c ∉ [60; 62; 38; 0xE2] → compact 0 true false (92 :: c :: y) = 92 :: c :: compact 0 true false y.
Proof.
  rewrite !not_elem_of_cons. intros (? & ? & ? & ? & _). cbn [compact]. rewrite !separator_head by done.
  rewrite (bool_decide_false (c ∈ _)) by (rewrite !elem_of_cons, elem_of_nil; naive_solver). done.
Qed.

Ltac not_special := rewrite !not_elem_of_cons; repeat split; try lia; apply not_elem_of_nil.

Lemma hex_digit_range d : 0 ≤ d < 16 → 48 ≤ hex_digit d ≤ 57 ∨ 97 ≤ hex_digit d ≤ 102.
Proof. unfold hex_digit. case_bool_decide; lia. Qed.

Lemma compact_escape_u z y :
  0 ≤ z < 65536 → compact 0 true false (escape_u z ++ y) = escape_u z ++ compact 0 true false y.
Proof.
  intros Hz. unfold escape_u. cbn [app].
  rewrite compact_escaped by not_special. do 2 f_equal.
  assert (∀ d y, 0 ≤ d < 16 → compact 0 true false (hex_digit d :: y) = hex_digit d :: compact 0 true false y) as H.
  { intros d y' Hd. pose proof (hex_digit_range d Hd).
    apply compact_plain; [not_special|apply separator_head; lia]. }
  rewrite !H by (Z.div_mod_to_equations; lia). done.
Qed.

Lemma compact_escape_byte c y :
  0 ≤ c < 128 → compact 0 true false (escape_byte c ++ y) = escape_byte c ++ compact 0 true false y.
Proof.
  intros Hc. unfold escape_byte.
  case_bool_decide as H1.
  { rewrite !elem_of_cons, elem_of_nil in H1. cbn [app]. apply compact_escaped.
    destruct H1 as [-> | [-> | []]]; not_special. }
  do 5 (case_bool_decide; [cbn [app]; apply compact_escaped; not_special|]).
  destruct (_ || _) eqn:E; [apply compact_escape_u; lia|].
  apply orb_false_iff in E as [_ E]. apply bool_decide_eq_false in E. cbn [app].
  apply compact_plain; [|apply separator_head; lia].
  rewrite !not_elem_of_cons in E. rewrite !not_elem_of_cons in H1. not_special.
Qed.

Ltac case_if E := lazymatch goal with |- (if ?b then _ else _) ≠ _ → _ => destruct b eqn:E end.

(** The bytes of a rune above ASCII. *)
Lemma utf8_width_shape l c :
  head l = Some c → 0x80 ≤ c → utf8_width l ≠ 0%nat →
  ∃ t, take (utf8_width l) l = c :: t ∧ Forall (λ b, 0x80 ≤ b ≤ 0xBF) t ∧ (c = 0xE2 → length t = 2%nat).
Proof.
  destruct l as [|a l]; [done|]. intros [= ->] Hc. unfold utf8_width.
  rewrite bool_decide_false by lia. cbv iota.
  destruct l as [|b l]; [done|]. case_if E2.
  { intros _. apply andb_true_iff in E2 as [Ha Hb%between_spec]. apply between_spec in Ha.
    exists [b]. repeat constructor; try lia. }
  destruct l as [|d l]; [done|]. case_if E3.
  { intros _. apply andb_true_iff in E3 as [Ha Hd%between_spec].
    exists [b; d]. repeat constructor; try lia; unfold cont in Ha;
      rewrite !orb_true_iff, !andb_true_iff, !between_spec in Ha; lia. }
  destruct l as [|f l]; [done|]. case_if E4; [|done].
  intros _. rewrite !andb_true_iff, !orb_true_iff, !andb_true_iff, !bool_decide_eq_true in E4.
  unfold cont in E4. rewrite !between_spec in E4.
  exists [b; d; f]. repeat constructor; lia.
Qed.

Lemma compact_continuation t y :
  Forall (λ b, 0x80 ≤ b ≤ 0xBF) t → compact 0 true false (t ++ y) = t ++ compact 0 true false y.
Proof.
  induction 1 as [|b t Hb _ IH]; [done|]. cbn [app].
  rewrite compact_plain; [by rewrite IH|not_special|apply separator_head; lia].
Qed.

Lemma compact_rune l c y :
  head l = Some c → 0x80 ≤ c → utf8_width l ≠ 0%nat →
  take (utf8_width l) l ≠ utf8_encode 0x2028 → take (utf8_width l) l ≠ utf8_encode 0x2029 →
  compact 0 true false (take (utf8_width l) l ++ y) = take (utf8_width l) l ++ compact 0 true false y.
Proof.
  intros Hl Hc Hw. destruct (utf8_width_shape l c Hl Hc Hw) as (t & -> & Ht & Hlen).
  intros H1 H2. cbn [app]. rewrite compact_plain; [by rewrite compact_continuation|not_special|].
  destruct (decide (c = 0xE2)) as [->|?]; [|by apply separator_head].
  destruct t as [|a [|b [|]]]; try (cbn in Hlen; specialize (Hlen eq_refl); done).
  cbn. destruct (decide (a = 0x80)) as [->|]; [|by rewrite (bool_decide_false (a = _))].
  rewrite (bool_decide_false (b = 168)) by (intros ->; by apply H1).
  by rewrite (bool_decide_false (b = 169)) by (intros ->; by apply H2).
Qed.

Lemma compact_escape n l y :
  Forall is_byte l → utf8_valid 0 l = true → (length l ≤ n)%nat →
  compact 0 true false (escape_string n l ++ y) = escape_string n l ++ compact 0 true false y.
Proof.
  revert l. induction n as [|n IH]; intros l Hb Hv Hn; [done|].
  destruct l as [|c l]; [done|]. cbn in Hn.
  destruct (utf8_valid_drop (c :: l) ltac:(done) Hv) as [Hw Hd].
  assert (Forall is_byte (drop (utf8_width (c :: l)) (c :: l))) as Hbd by by apply Forall_drop.
  assert (is_byte c) as Hc by by inversion_clear Hb.
  rewrite escape_string_cons. case_bool_decide.
  - rewrite utf8_width_ascii in Hd, Hbd by done. cbn in Hd, Hbd. unfold is_byte in Hc.
    rewrite <- !(assoc_L (++)), compact_escape_byte by lia. by rewrite IH by (done || lia).
  - cbn zeta. rewrite bool_decide_false by done.
    assert (length (drop (utf8_width (c :: l)) (c :: l)) ≤ n)%nat as Hn'.
    { rewrite length_drop. cbn. lia. }
    case_bool_decide as H1; [|case_bool_decide as H2]; rewrite <- !(assoc_L (++)).
    + rewrite compact_escape_u by lia. by rewrite IH.
    + rewrite compact_escape_u by lia. by rewrite IH.
    + rewrite (compact_rune _ c) by (done || lia). by rewrite IH.
Qed.

Ltac solve_bytes := unfold is_byte in *; repeat apply Forall_cons_2; try apply Forall_nil_2; lia.

Lemma escape_byte_bytes c : is_byte c → Forall is_byte (escape_byte c).
Proof.
  intros Hc. unfold escape_byte.
  do 6 (case_bool_decide; [solve_bytes|]).
  destruct (_ || _); [|solve_bytes]. apply escape_u_bytes. unfold is_byte in Hc. lia.
Qed.

Lemma escape_string_bytes n l : Forall is_byte l → Forall is_byte (escape_string n l).
Proof.
  revert l. induction n as [|n IH]; intros l Hl; [constructor|]. destruct Hl as [|c l Hc Hl]; [constructor|].
  assert (Forall is_byte (c :: l)) as Hcl by by constructor.
  rewrite escape_string_cons. cbn zeta.
  repeat case_bool_decide; apply Forall_app; split; try (apply escape_u_bytes; lia);
    try (apply IH; try done; by apply Forall_drop); try by apply escape_byte_bytes.
  by apply Forall_take.
Qed.

Lemma bytes_of_marshalString s :
  bytes_of (marshalString s) = 34 :: escape_string (String.length s) (bytes_of s) ++ [34].
Proof.
  unfold marshalString. apply bytes_of_string_of. cbn [app].
  constructor; [done|]. apply Forall_app. split; [apply escape_string_bytes, bytes_of_bytes|by repeat constructor].
Qed.

(** The length of the text bounds the length of the string. *)
Lemma escape_string_length n l : utf8_valid 0 l = true → (length l ≤ n)%nat →
  (length l ≤ length (escape_string n l))%nat.
Proof.
  revert l. induction n as [|n IH]; intros l Hv Hn; [destruct l; cbn in *; lia|].
  destruct l as [|c l]; [done|]. destruct (utf8_valid_drop (c :: l) ltac:(done) Hv) as [Hw Hd].
  pose proof (utf8_width_le (c :: l)) as Hle. cbn in Hn, Hle.
  rewrite escape_string_cons. case_bool_decide.
  - rewrite utf8_width_ascii in Hd by done. cbn in Hd. specialize (IH l Hd ltac:(lia)).
    rewrite length_app. cbn. unfold escape_byte. repeat case_match; cbn; lia.
  - cbn zeta. rewrite bool_decide_false by done.
    assert (length (drop (utf8_width (c :: l)) (c :: l)) ≤ n)%nat as Hn' by (rewrite length_drop; cbn; lia).
    specialize (IH _ Hd Hn'). rewrite length_drop in IH. cbn in IH.
    case_bool_decide as H1; [|case_bool_decide as H2].
    + apply (f_equal length) in H1. rewrite length_take in H1.
      change (length (utf8_encode 0x2028)) with 3%nat in H1. cbn [length] in H1. rewrite length_app. cbn [length escape_u]. lia.
    + apply (f_equal length) in H2. rewrite length_take in H2.
      change (length (utf8_encode 0x2029)) with 3%nat in H2. cbn [length] in H2. rewrite length_app. cbn [length escape_u]. lia.
    + rewrite length_app, length_take. cbn [length]. lia.
Qed.

Lemma compact_string s x : ValidString s = true →
  compact 0 false false (bytes_of (marshalString s) ++ x) = bytes_of (marshalString s) ++ compact 0 false false x.
Proof.
  intros Hv. rewrite bytes_of_marshalString. cbn [app compact].
  rewrite !separator_head by lia. cbn. f_equal. rewrite <- !(assoc_L (++)).
  rewrite compact_escape; [|apply bytes_of_bytes|done|by rewrite length_bytes_of].
  f_equal. cbn [app compact]. by rewrite !separator_head by lia.
Qed.

Lemma canonical_string s : ValidString s = true → canonical (marshalString s) (JString s).
Proof.
  intros Hv. split; [rewrite bytes_of_marshalString..|intros x _; by apply compact_string].
  - unfold fuel_of. rewrite Nat.add_comm. cbn -[unquote]. change (is_space 34) with false. cbn -[unquote].
    pose proof (escape_string_length (String.length s) (bytes_of s) Hv) as Hlen.
    rewrite length_bytes_of in Hlen. specialize (Hlen (le_n _)).
    rewrite unquote_escape; [|apply bytes_of_bytes|done|by rewrite length_bytes_of|].
    + cbn. by rewrite string_of_bytes_of.
    + rewrite length_bytes_of, length_app. cbn. lia.
  - done.
Qed.

(** ** Integers *)

Lemma decimal_app a l c : decimal a (l ++ [c]) = z ← decimal a l; decimal z [c].
Proof. revert a. induction l as [|d l IH]; intros a; [done|]. cbn. destruct (digit d); [apply IH|done]. Qed.

Lemma length_digits fuel n acc : (length (digits fuel n acc) ≤ fuel + length acc)%nat.
Proof.
  revert n acc. induction fuel as [|fuel IH]; intros n acc; cbn; [lia|]. case_bool_decide; cbn; [lia|]. etrans; [apply IH|]. cbn. lia.
Qed.

Lemma digits_spec fuel n acc :
  0 ≤ n < 10 ^ Z.of_nat fuel → (0 < fuel)%nat →
  ∃ ds, digits fuel n acc = ds ++ acc ∧ Forall (λ c, digit c = true) ds ∧ decimal 0 ds = Some n
        ∧ ds ≠ [] ∧ (head ds = Some 48 → ds = [48]).
Proof.
  revert n acc. induction fuel as [|fuel IH]; intros n acc Hn Hf; [lia|]. cbn -[Z.modulo Z.div].
  assert (∀ d, 0 ≤ d < 10 → digit (48 + d) = true) as Hdigit by (intros; apply between_spec; lia).
  case_bool_decide as H10.
  - exists [48 + n]. rewrite (Z.mod_small n 10) by lia. split; [done|].
    split; [by repeat constructor; apply Hdigit; lia|]. split; [|split; [done|by intros [= ->]]].
    cbn. rewrite Hdigit by lia. f_equal. lia.
  - destruct fuel as [|fuel]; [cbn in Hn; lia|].
    rewrite Nat2Z.inj_succ, Z.pow_succ_r in Hn by lia.
    assert (0 ≤ n / 10 < 10 ^ Z.of_nat (S fuel)) as Hq by (Z.div_mod_to_equations; lia).
    assert (0 ≤ n mod 10 < 10) as Hm by (apply Z.mod_pos_bound; lia).
    destruct (IH (n / 10) ((48 + n mod 10) :: acc) Hq ltac:(lia)) as (ds & -> & Hds & Hdec & Hne & Hz).
    exists (ds ++ [48 + n mod 10]). rewrite <- (assoc_L (++)). split; [done|].
    split; [apply Forall_app; split; [done|by repeat constructor; apply Hdigit]|].
    split; [|split; [by destruct ds|]].
    + rewrite decimal_app, Hdec. cbn -[Z.modulo Z.div]. rewrite Hdigit by done. f_equal.
      pose proof (Z.div_mod n 10 ltac:(lia)). lia.
    + destruct ds as [|c ds]; [done|]. cbn. intros [= ->]. rewrite Hz in Hdec by done.
      injection Hdec as Hdec. Z.div_mod_to_equations. lia.
Qed.

Lemma span_digits_all ds : Forall (λ c, digit c = true) ds → span_digits ds = (ds, []).
Proof. induction 1 as [|c ds Hc _ IH]; [done|]. cbn. by rewrite Hc, IH. Qed.

Lemma number_digits ds :
  Forall (λ c, digit c = true) ds → ds ≠ [] → (head ds = Some 48 → ds = [48]) →
  number ds = Some (ds, []) ∧ number (45 :: ds) = Some (45 :: ds, []).
Proof.
  intros Hds Hne Hz. destruct ds as [|c ds]; [done|].
  assert (number_int (c :: ds) = Some (c :: ds, [])) as Hi.
  { unfold number_int. destruct (decide (c = 48)) as [->|Hc].
    - by rewrite Hz, strip1_eq by done.
    - rewrite strip_head by done. unfold digits1. by rewrite span_digits_all. }
  assert (number_sign (c :: ds) = ([], c :: ds)) as Hs.
  { unfold number_sign. rewrite strip_head; [done|]. intros <-. by apply Forall_inv in Hds. }
  unfold number. rewrite Hs, Hi. split; cbn; [by rewrite !app_nil_r|].
  unfold number_sign. rewrite strip1_eq, Hi. cbn. by rewrite !app_nil_r.
Qed.

(** Outside strings everything but white space is kept. *)
Definition outside (c : Z) : bool := negb (is_space c) && bool_decide (c ≠ 34) && bool_decide (c < 128).

Lemma compact_outside p y :
  forallb outside p = true → compact 0 false false (p ++ y) = p ++ compact 0 false false y.
Proof.
  induction p as [|c p IH]; [done|]. cbn [forallb]. unfold outside at 1.
  intros [[[Hs%negb_true_iff Hq%bool_decide_eq_true]%andb_true_iff Hh%bool_decide_eq_true]%andb_true_iff Hp]%andb_true_iff.
  cbn [app compact]. rewrite separator_head by lia. rewrite Hs, bool_decide_false by done. by rewrite IH.
Qed.

Lemma scalar_number c l : c ∉ [110; 116; 102] →
  scalar (c :: l) = '(lit, r) ← number (c :: l); Some (JNumber (string_of lit), r).
Proof.
  rewrite !not_elem_of_cons. intros (? & ? & ? & _). unfold scalar, null_bytes, true_bytes, false_bytes.
  by rewrite !strip_head by done.
Qed.

Lemma digit_range c : digit c = true ↔ 48 ≤ c ≤ 57.
Proof. apply between_spec. Qed.

Lemma is_space_range c : 33 ≤ c → is_space c = false.
Proof. intros. apply bool_decide_eq_false. rewrite !elem_of_cons, elem_of_nil. lia. Qed.

Lemma digits_outside ds : Forall (λ c, digit c = true) ds → forallb outside ds = true.
Proof.
  induction 1 as [|c ds Hc%digit_range _ IH]; [done|]. cbn [forallb]. rewrite IH.
  unfold outside. rewrite is_space_range by lia. by rewrite !bool_decide_true by lia.
Qed.

(** A text of digits with or without a sign. *)
Lemma canonical_number l c r :
  l = c :: r → digit c = true ∨ c = 45 → number l = Some (l, []) → forallb outside l = true → Forall is_byte l →
  canonical (string_of l) (JNumber (string_of l)).
Proof.
  intros Hl Hc Hn Ho Hb.
  assert (45 ≤ c ≤ 57) as Hr by (destruct Hc as [?%digit_range| ->]; lia).
  split; rewrite bytes_of_string_of by done.
  - subst l. unfold fuel_of. rewrite Nat.add_comm. cbn -[number]. rewrite is_space_range by lia.
    rewrite !bool_decide_false by lia. rewrite scalar_number by not_special. by rewrite Hn.
  - subst l. cbn. by rewrite is_space_range by lia.
  - intros x _. by apply compact_outside.
Qed.

Lemma digits_bytes ds : Forall (λ c, digit c = true) ds → Forall is_byte ds.
Proof. induction 1 as [|c ds Hc%digit_range _ IH]; constructor; [unfold is_byte; lia|done]. Qed.

Lemma formatInt_spec z : in_i64 z = true →
  canonical (formatInt z) (JNumber (formatInt z)) ∧ parseInt (formatInt z) = Some z.
Proof.
  intros Hz. pose proof Hz as Hr. apply bool_decide_eq_true in Hr.
  unfold two63, max_int64 in Hr. unfold formatInt.
  assert (∀ n, 0 ≤ n ≤ 9223372036854775808 → ∃ ds, digits 20 n [] = ds ∧ Forall (λ c, digit c = true) ds ∧
            decimal 0 ds = Some n ∧ ds ≠ [] ∧ (head ds = Some 48 → ds = [48])) as Hd.
  { intros n Hn. destruct (digits_spec 20 n []) as (ds & H & ?);
      [change (10 ^ Z.of_nat 20) with 100000000000000000000; lia|lia|].
    rewrite app_nil_r in H. eauto. }
  destruct (decide (z < 0)); [rewrite bool_decide_true by done|rewrite bool_decide_false by done].
  - destruct (Hd (- z)) as (ds & -> & Hds & Hdec & Hne & Hh); [lia|].
    destruct (number_digits ds Hds Hne Hh) as [_ Hn].
    assert (Forall is_byte (45 :: ds)) as Hb by (constructor; [done|by apply digits_bytes]).
    split.
    + apply (canonical_number _ 45 ds); auto. cbn. by rewrite digits_outside.
    + unfold parseInt. rewrite bytes_of_string_of, Hdec by done. cbn. by rewrite Z.opp_involutive, Hz.
  - destruct (Hd z) as (ds & -> & Hds & Hdec & Hne & Hh); [lia|].
    destruct (number_digits ds Hds Hne Hh) as [Hn _]. pose proof (digits_bytes ds Hds) as Hb.
    destruct ds as [|c ds]; [done|]. pose proof (Forall_inv Hds) as Hc. cbn in Hc.
    split; [apply (canonical_number _ c ds); auto; by apply digits_outside|].
    unfold parseInt. rewrite bytes_of_string_of by done. apply digit_range in Hc.
    assert ((match c :: ds with 45 :: l => Z.opp <$> decimal 0 l | l => decimal 0 l end) = decimal 0 (c :: ds)) as ->.
    { destruct c as [|p|p]; try done. by do 6 (destruct p as [p|p|]; try done). }
    rewrite Hdec. cbn. by rewrite Hz.
Qed.

Lemma canonical_int z : in_i64 z = true → canonical (formatInt z) (JNumber (formatInt z)).
Proof. intros. by apply formatInt_spec. Qed.

Lemma parseInt_formatInt z : in_i64 z = true → parseInt (formatInt z) = Some z.
Proof. intros. by apply formatInt_spec. Qed.

Lemma canonical_literal t v :
  value (fuel_of (bytes_of t)) 0 (bytes_of t) = Some (v, []) → nest v = 0%nat → forallb outside (bytes_of t) = true →
  canonical t v.
Proof.
  intros Hv Hd Ho. split; [by rewrite Hd| |intros x _; by apply compact_outside].
  destruct (bytes_of t) as [|c l]; [done|]. cbn in Ho |- *. unfold outside in Ho. by destruct (is_space c).
Qed.

Lemma canonical_null : canonical "null" JNull.
Proof. by apply canonical_literal. Qed.

Lemma canonical_bool (b : bool) : canonical (if b then "true" else "false") (JBool b).
Proof. destruct b; by apply canonical_literal. Qed.

(** ** Arrays and objects *)

Lemma elements_raw fuel depth l :
  elements fuel depth l = (λ p : list raw * list Z, (ast <$> p.1, p.2)) <$> rawElements fuel depth l.
Proof.
  revert l. induction fuel as [|fuel IH]; intros l; [done|]. cbn. unfold rawValue.
  destruct (value fuel depth l) as [[v r]|]; [|done]. cbn.
  destruct (skip r) as [|c r']; [done|]. repeat case_bool_decide; [|done..].
  rewrite IH. by destruct (rawElements fuel depth r') as [[]|].
Qed.

Lemma members_raw fuel depth l :
  members fuel depth l = (λ p : fields * list Z, (prod_map id ast <$> p.1, p.2)) <$> rawMembers fuel depth l.
Proof.
  revert l. induction fuel as [|fuel IH]; intros l; [done|]. cbn. unfold rawValue.
  destruct (strip _ _) as [l1|]; [|done]. cbn. destruct (unquote _ _ _) as [[k l2]|]; [|done]. cbn.
  destruct (strip _ _) as [l3|]; [|done]. cbn. destruct (value fuel depth l3) as [[v r]|]; [|done]. cbn.
  destruct (skip r) as [|c r']; [done|]. repeat case_bool_decide; [|done..].
  rewrite IH. by destruct (rawMembers fuel depth r') as [[]|].
Qed.

Definition canonical_raw (r : raw) : Prop := canonical (text r) (ast r).

(** The texts of a list, separated by commas. *)
Fixpoint joined (ts : list (list Z)) : list Z :=
  match ts with
  | [] => []
  | [t] => t
  | t :: ts => t ++ 44 :: joined ts
  end.

Lemma bytes_of_concat ts : bytes_of (String.concat "," ts) = joined (bytes_of <$> ts).
Proof.
  induction ts as [|t [|t' ts] IH]; [done..|].
  change (String.concat "," (t :: t' :: ts)) with (t +:+ "," +:+ String.concat "," (t' :: ts)).
  rewrite !bytes_of_app, IH. done.
Qed.

Lemma joined_cons t ts x : joined (t :: ts) ++ x = t ++ match ts with [] => x | _ => 44 :: joined ts ++ x end.
Proof. destruct ts; [done|]. cbn [joined]. by rewrite <- (assoc_L (++)). Qed.

Lemma skip_plain c l : is_space c = false → skip (c :: l) = c :: l.
Proof. intros H. cbn. by rewrite H. Qed.

Lemma rawElements_print rs fuel depth x :
  Forall canonical_raw rs → rs ≠ [] → (nest_list (ast <$> rs) ≤ depth)%nat →
  (2 * length (joined ((bytes_of ∘ text) <$> rs)) + 3 ≤ fuel)%nat →
  rawElements fuel depth (joined ((bytes_of ∘ text) <$> rs) ++ 93 :: x) = Some (rs, x).
Proof.
  intros Hrs. revert fuel. induction Hrs as [|r rs Hr Hrs IH]; intros fuel Hne Hd Hf; [done|].
  destruct fuel as [|fuel]; [lia|]. cbn [fmap list_fmap] in Hf |- *. rewrite joined_cons. cbn in Hd. unfold compose at 1.
  assert (length (joined ((bytes_of ∘ text) r :: ((bytes_of ∘ text) <$> rs))) =
    length (bytes_of (text r)) + match rs with [] => 0 | _ => S (length (joined ((bytes_of ∘ text) <$> rs))) end)%nat as Hlen.
  { destruct rs; cbn; [lia|]. by rewrite length_app. }
  rewrite Hlen in Hf. destruct r as [t v]. cbn [text ast] in *. cbn [rawElements].
  rewrite (canonical_rawValue t v); [|done| | |]; unfold fuel_of.
  - cbn [mbind option_bind]. destruct rs as [|r' rs]; cbn [fmap list_fmap]; rewrite skip_plain by done; [done|].
    cbn [bool_decide]. rewrite bool_decide_true by done.
    rewrite IH; [done..| |]; cbn [fmap list_fmap] in *; [unfold nest_list; lia|lia].
  - destruct rs; apply delimited_cons; rewrite !elem_of_cons; auto.
  - destruct rs; lia.
  - lia.
Qed.

(** The text of a member. *)
Definition memberBytes (m : string * raw) : list Z := bytes_of (marshalString m.1) ++ 58 :: bytes_of (text m.2).

Definition good_member (m : string * raw) : Prop := ValidString m.1 = true ∧ canonical_raw m.2.

Lemma rawMembers_print ms fuel depth x :
  Forall good_member ms → ms ≠ [] → (nest_members (prod_map id ast <$> ms) ≤ depth)%nat →
  (2 * length (joined (memberBytes <$> ms)) + 3 ≤ fuel)%nat →
  rawMembers fuel depth (joined (memberBytes <$> ms) ++ 125 :: x) = Some (ms, x).
Proof.
  intros Hms. revert fuel. induction Hms as [|m ms Hm Hms IH]; intros fuel Hne Hd Hf; [done|].
  destruct fuel as [|fuel]; [lia|]. cbn [fmap list_fmap] in Hf |- *. rewrite joined_cons.
  assert (length (joined (memberBytes m :: (memberBytes <$> ms))) =
    length (memberBytes m) + match ms with [] => 0 | _ => S (length (joined (memberBytes <$> ms))) end)%nat as Hlen.
  { destruct ms; cbn; [lia|]. by rewrite length_app. }
  rewrite Hlen in Hf. clear Hlen. destruct m as [k [t v]]. destruct Hm as [Hk Ht]. cbn [fst snd] in *.
  unfold memberBytes at 1 in Hf. unfold memberBytes at 1. cbn [fst snd text] in Hf |- *. rewrite bytes_of_marshalString in Hf |- *.
  pose proof (escape_string_length (String.length k) (bytes_of k) Hk ltac:(by rewrite length_bytes_of)) as Hlen.
  rewrite length_bytes_of in Hlen. rewrite length_app in Hf. cbn [length] in Hf. rewrite length_app in Hf. cbn [length] in Hf.
  change (nest v `max` nest_members (prod_map id ast <$> ms) ≤ depth)%nat in Hd.
  rewrite <- (assoc_L (++)). cbn [app rawMembers]. rewrite skip_plain by done.
  rewrite strip1_eq. cbn [mbind option_bind]. rewrite <- (assoc_L (++)). cbn [app].
  rewrite unquote_escape; [|apply bytes_of_bytes|done|by rewrite length_bytes_of|rewrite length_bytes_of; lia].
  cbn [mbind option_bind]. rewrite skip_plain by done. rewrite strip1_eq. cbn [mbind option_bind].
  rewrite (canonical_rawValue t v); [|done| | |]; unfold fuel_of.
  - cbn [mbind option_bind]. rewrite string_of_bytes_of.
    destruct ms as [|m' ms]; cbn [fmap list_fmap]; rewrite skip_plain by done; [done|].
    rewrite bool_decide_true by done.
    by rewrite IH by (done || lia || (cbn [fmap list_fmap] in *; lia)).
  - destruct ms; apply delimited_cons; rewrite !elem_of_cons; auto.
  - destruct ms; lia.
  - lia.
Qed.

(** The text [json.Marshal] prints for the members. *)
Definition print (ms : fields) : string := marshalStruct ((λ m, (m.1, text m.2)) <$> ms).
Definition object (ms : fields) : json := JObject (prod_map id ast <$> ms).

Lemma bytes_of_print ms : bytes_of (print ms) = 123 :: joined (memberBytes <$> ms) ++ [125].
Proof.
  unfold print, marshalStruct. rewrite !bytes_of_app, bytes_of_concat. cbn [app].
  rewrite <- !list_fmap_compose. f_equal. f_equal. f_equal. apply list_fmap_ext. intros i m _.
  unfold compose, memberBytes. cbn. by rewrite !bytes_of_app.
Qed.

Lemma joined_nonempty m ms : ∃ l, joined (memberBytes m :: ms) = 34 :: l.
Proof.
  unfold memberBytes. rewrite bytes_of_marshalString. destruct ms; eexists; reflexivity.
Qed.

(** An object's text inside a longer text. *)
Lemma rawObject_print ms x :
  Forall good_member ms → (nest_members (prod_map id ast <$> ms) ≤ maxNestingDepth)%nat →
  rawObject (bytes_of (print ms) ++ x) = Some (ms, x).
Proof.
  intros Hms Hd. unfold rawObject. rewrite bytes_of_print. cbn [app]. rewrite skip_plain by done.
  rewrite strip1_eq. cbn [mbind option_bind]. destruct ms as [|m ms]; [done|].
  destruct (joined_nonempty m (memberBytes <$> ms)) as [l Hl].
  change (memberBytes m :: (memberBytes <$> ms)) with (memberBytes <$> (m :: ms)) in Hl.
  assert (skip ((joined (memberBytes <$> m :: ms) ++ [125]) ++ x) = joined (memberBytes <$> m :: ms) ++ 125 :: x) as ->.
  { rewrite <- (assoc_L (++)), Hl. by apply skip_plain. }
  assert (strip [125] (joined (memberBytes <$> m :: ms) ++ 125 :: x) = None) as -> by by rewrite Hl.
  apply rawMembers_print; try done. unfold fuel_of. cbn [length]. rewrite !length_app. cbn [length]. lia.
Qed.

Lemma compact_joined {A} (f : A → list Z) l x :
  Forall (λ a, settled (f a)) l → delimited x →
  compact 0 false false (joined (f <$> l) ++ x) = joined (f <$> l) ++ compact 0 false false x.
Proof.
  intros Hl Hx. induction Hl as [|a l Ha _ IH]; [done|]. cbn [fmap list_fmap]. rewrite !joined_cons.
  rewrite Ha by (destruct l; [done|apply delimited_cons; rewrite !elem_of_cons; auto]). f_equal.
  destruct l as [|b l]; [done|]. cbn [fmap list_fmap].
  change (compact 0 false false ([44] ++ (joined (f <$> (b :: l)) ++ x)) = [44] ++ (joined (f <$> (b :: l)) ++ compact 0 false false x)).
  by rewrite compact_outside, IH.
Qed.

Lemma settled_member m : good_member m → settled (memberBytes m).
Proof.
  intros [Hk [_ _ Ht]] x Hx. unfold memberBytes. rewrite <- !(assoc_L (++)).
  rewrite compact_string by done. f_equal.
  change (compact 0 false false ([58] ++ (bytes_of (text m.2) ++ x)) = [58] ++ (bytes_of (text m.2) ++ compact 0 false false x)).
  by rewrite compact_outside, Ht.
Qed.

(** A text in brackets. *)
Lemma settled_brackets o c l :
  outside o = true → outside c = true → c ∈ [44; 93; 125] →
  (∀ x, delimited x → compact 0 false false (l ++ x) = l ++ compact 0 false false x) →
  settled (o :: l ++ [c]).
Proof.
  intros Ho Hc Hd Hl x _. change ((o :: l ++ [c]) ++ x) with ([o] ++ ((l ++ [c]) ++ x)).
  rewrite compact_outside by (cbn; by rewrite Ho). rewrite <- (assoc_L (++)).
  rewrite Hl by by apply delimited_cons. rewrite compact_outside by (cbn; by rewrite Hc).
  cbn. by rewrite <- (assoc_L (++)).
Qed.

Lemma canonical_object ms : Forall good_member ms → canonical (print ms) (object ms).
Proof.
  intros Hms. split; rewrite bytes_of_print; [|by apply skip_plain|].
  - unfold fuel_of. rewrite Nat.add_comm. cbn [Nat.add value]. rewrite skip_plain by done.
    rewrite !bool_decide_false, bool_decide_true by done. cbn [nest object].
    destruct ms as [|m ms]; [done|].
    destruct (joined_nonempty m (memberBytes <$> ms)) as [l Hl].
    change (memberBytes m :: (memberBytes <$> ms)) with (memberBytes <$> (m :: ms)) in Hl.
    assert (skip (joined (memberBytes <$> m :: ms) ++ [125]) = joined (memberBytes <$> m :: ms) ++ [125]) as ->.
    { rewrite Hl. by apply skip_plain. }
    assert (strip [125] (joined (memberBytes <$> m :: ms) ++ [125]) = None) as -> by by rewrite Hl.
    rewrite members_raw, rawMembers_print; [done..|]. cbn [length]. rewrite length_app. cbn [length]. lia.
  - apply settled_brackets; [done..|rewrite !elem_of_cons; auto|]. intros x Hx. apply compact_joined; [|done].
    eapply Forall_impl; [|exact Hms]. apply settled_member.
Qed.

Lemma bytes_of_marshalArray ts : bytes_of (marshalArray ts) = 91 :: joined (bytes_of <$> ts) ++ [93].
Proof. unfold marshalArray. by rewrite !bytes_of_app, bytes_of_concat. Qed.

Lemma joined_canonical r rs : canonical_raw r →
  ∃ c l, joined ((bytes_of ∘ text) <$> (r :: rs)) = c :: l ∧ is_space c = false ∧ c ≠ 93.
Proof.
  intros Hr. pose proof (canonical_nonempty _ _ Hr). destruct Hr as [Hv Hs _].
  destruct (bytes_of (text r)) as [|c l] eqn:E; [done|].
  exists c. eexists. split; [|split].
  - cbn [fmap list_fmap]. rewrite <- (app_nil_r (joined _)), joined_cons. unfold compose at 1. rewrite E. reflexivity.
  - cbn in Hs. destruct (is_space c) eqn:Ec; [|done]. exfalso.
    assert (length (skip l) ≤ length l)%nat as Hlen by (clear; induction l as [|a l IH]; cbn; [lia|case_match; cbn; lia]).
    rewrite Hs in Hlen. cbn in Hlen. lia.
  - intros ->. unfold fuel_of in Hv. rewrite Nat.add_comm in Hv. cbn [Nat.add value] in Hv. rewrite skip_plain in Hv by done.
    rewrite !bool_decide_false in Hv by done. rewrite scalar_number in Hv by not_special. by rewrite number_head in Hv by (done || not_special).
Qed.

Lemma canonical_array rs : Forall canonical_raw rs → canonical (marshalArray (text <$> rs)) (JArray (ast <$> rs)).
Proof.
  intros Hrs. split; rewrite bytes_of_marshalArray, <- list_fmap_compose; [|by apply skip_plain|].
  - unfold fuel_of. rewrite Nat.add_comm. cbn [Nat.add value]. rewrite skip_plain by done.
    rewrite bool_decide_false, bool_decide_true by done. cbn [nest].
    destruct rs as [|r rs]; [done|].
    destruct (joined_canonical r rs (Forall_inv Hrs)) as (c & l & Hl & Hsp & Hc).
    assert (skip (joined ((bytes_of ∘ text) <$> r :: rs) ++ [93]) = joined ((bytes_of ∘ text) <$> r :: rs) ++ [93]) as ->.
    { rewrite Hl. by apply skip_plain. }
    assert (strip [93] (joined ((bytes_of ∘ text) <$> r :: rs) ++ [93]) = None) as ->.
    { rewrite Hl. by apply strip_head. }
    rewrite elements_raw, rawElements_print; [done..|]. cbn [length]. rewrite length_app. cbn [length]. lia.
  - apply settled_brackets; [done..|rewrite !elem_of_cons; auto|]. intros x Hx. apply compact_joined; [|done].
    eapply Forall_impl; [|exact Hrs]. by intros r [_ _ H].
Qed.

Lemma rawArray_print rs x :
  Forall canonical_raw rs → (nest_list (ast <$> rs) ≤ maxNestingDepth)%nat →
  rawArray (bytes_of (marshalArray (text <$> rs)) ++ x) = Some (rs, x).
Proof.
  intros Hrs Hd. unfold rawArray. rewrite bytes_of_marshalArray, <- list_fmap_compose. cbn [app].
  rewrite skip_plain by done. rewrite strip1_eq. cbn [mbind option_bind]. destruct rs as [|r rs]; [done|].
  destruct (joined_canonical r rs (Forall_inv Hrs)) as (c & l & Hl & Hsp & Hc).
  assert (skip ((joined ((bytes_of ∘ text) <$> r :: rs) ++ [93]) ++ x) = joined ((bytes_of ∘ text) <$> r :: rs) ++ 93 :: x) as ->.
  { rewrite <- (assoc_L (++)), Hl. by apply skip_plain. }
  assert (strip [93] (joined ((bytes_of ∘ text) <$> r :: rs) ++ 93 :: x) = None) as ->.
  { rewrite Hl. by apply strip_head. }
  apply rawElements_print; try done. unfold fuel_of. cbn [length]. rewrite !length_app. cbn [length]. lia.
Qed.

(** ** Objects as maps *)

Definition shallow (ms : fields) : Prop := (nest_members (prod_map id ast <$> ms) < maxNestingDepth)%nat.

Lemma parse_canonical t v : canonical t v → (nest v ≤ maxNestingDepth)%nat → parse t = Some v.
Proof.
  intros Hc Hd. unfold parse.
  pose proof (value_ext _ (2 * length (bytes_of t) + 2) _ maxNestingDepth _ _ _ [] (can_value _ _ Hc) delimited_nil) as H.
  rewrite app_nil_r in H. by rewrite H.
Qed.

Lemma strictObject_print ms :
  Forall good_member ms → shallow ms → NoDup (fst <$> ms) → strictObject (print ms) = Some ms.
Proof.
  intros Hms Hd Hn. unfold strictObject. pose proof (rawObject_print ms [] Hms) as H.
  rewrite app_nil_r in H. rewrite H by (unfold shallow in Hd; lia). cbn. by rewrite bool_decide_true.
Qed.

Lemma put_fresh {A} k (v : A) l : k ∉ (fst <$> l) → put k v l = l ++ [(k, v)].
Proof.
  induction l as [|[k' v'] l IH]; [done|]. cbn. rewrite not_elem_of_cons. intros [Hk Hl].
  destruct (String.eqb_spec k' k); [congruence|]. by rewrite IH.
Qed.

Lemma foldl_put {A} (l acc : list (string * A)) :
  NoDup (fst <$> (acc ++ l)) → foldl (λ m kv, put kv.1 kv.2 m) acc l = acc ++ l.
Proof.
  revert acc. induction l as [|[k v] l IH]; intros acc Hn; [by rewrite app_nil_r|]. cbn.
  rewrite put_fresh; [by rewrite IH, <- (assoc_L (++)) by by rewrite <- (assoc_L (++))|].
  rewrite fmap_app in Hn. apply list.NoDup_app in Hn as (_ & Hn & _). intros H. apply (Hn k H). by left.
Qed.

Lemma unmarshalMap_print ms :
  Forall good_member ms → shallow ms → NoDup (fst <$> ms) → unmarshalMap (print ms) = Some ms.
Proof.
  intros Hms Hd Hn. unfold unmarshalMap.
  rewrite (parse_canonical _ _ (canonical_object ms Hms)) by exact Hd. cbn.
  pose proof (rawObject_print ms [] Hms) as H. rewrite app_nil_r in H.
  rewrite H by (unfold shallow in Hd; lia). cbn. by rewrite foldl_put.
Qed.

Lemma insertKey_fmap {A B} (f : A → B) m l :
  insertKey (prod_map id f m) (prod_map id f <$> l) = prod_map id f <$> insertKey m l.
Proof.
  induction l as [|m' l IH]; [done|]. cbn. destruct (String.leb _ _); [done|]. cbn. by rewrite IH.
Qed.

Lemma sortKeys_fmap {A B} (f : A → B) l : sortKeys (prod_map id f <$> l) = prod_map id f <$> sortKeys l.
Proof.
  induction l as [|m l IH]; [done|].
  change (insertKey (prod_map id f m) (sortKeys (prod_map id f <$> l)) = prod_map id f <$> insertKey m (sortKeys l)).
  by rewrite IH, insertKey_fmap.
Qed.

(** Printing a map prints its sorted members. *)
Lemma marshalMap_print ms : Forall good_member ms → marshalMap ms = print (sortKeys ms).
Proof.
  intros Hms. unfold marshalMap, print. f_equal.
  etrans; [|exact (sortKeys_fmap text ms)]. f_equal. induction Hms as [|m ms [_ Hm] _ IH]; [done|].
  cbn. by rewrite IH, (canonical_compactText _ _ Hm).
Qed.

Lemma insertKey_perm {A} (m : string * A) l : insertKey m l ≡ₚ m :: l.
Proof.
  induction l as [|m' l IH]; [done|]. cbn. destruct (String.leb _ _); [done|]. rewrite IH. apply Permutation_swap.
Qed.

Lemma sortKeys_perm {A} (l : list (string * A)) : sortKeys l ≡ₚ l.
Proof.
  induction l as [|m l IH]; [done|]. change (insertKey m (sortKeys l) ≡ₚ m :: l). by rewrite insertKey_perm, IH.
Qed.

Lemma nest_members_bound ms n : (nest_members ms ≤ n)%nat ↔ Forall (λ m, (nest m.2 ≤ n)%nat) ms.
Proof.
  unfold nest_members. induction ms as [|m ms IH]; cbn.
  - split; [constructor|lia].
  - rewrite list.Forall_cons, <- IH. lia.
Qed.

(** Being shallow is about the members, not their order. *)
Lemma shallow_Forall ms : shallow ms ↔ Forall (λ m, (nest (ast m.2) < maxNestingDepth)%nat) ms.
Proof.
  unfold shallow. assert (0 < maxNestingDepth)%nat as H0 by (unfold maxNestingDepth; lia).
  revert H0. generalize maxNestingDepth. intros [|d] H0; [lia|].
  rewrite Nat.lt_succ_r, nest_members_bound, list.Forall_fmap.
  split; intros H; (eapply list.Forall_impl; [exact H|]); intros [k r]; cbn; lia.
Qed.

End WireProofs.
