(* ===== verification/Printable.v ===== *)
(** * Go values are read back

    The class [Printable] states for a Go type that what [json.Marshal] prints
    is decoded to the same value; integers, strings, booleans, pointers, slices
    and raw messages are instances, and [struct_printed] makes an instance of a
    struct from its fields. *)

From S2P Require Import Prelude Json Wire JsonProofs WireProofs.
From stdpp Require Import base strings list option.
#[local] Open Scope Z_scope.

Module Printable.
Import Json Wire JsonProofs WireProofs.

(** ** Looking members up *)

Lemma get_app {A} k (l m : list (string * A)) : get k (l ++ m) = match get k l with Some v => Some v | None => get k m end.
Proof. induction l as [|[k' v] l IH]; [done|]. cbn. by destruct (String.eqb k' k). Qed.

Lemma get_None {A} k (l : list (string * A)) : k ∉ (fst <$> l) → get k l = None.
Proof.
  induction l as [|[k' v] l IH]; [done|]. cbn. rewrite not_elem_of_cons. intros [Hk Hl].
  destruct (String.eqb_spec k' k); [congruence|auto].
Qed.

Lemma get_Some {A} k (v : A) l : NoDup (fst <$> l) → get k l = Some v ↔ (k, v) ∈ l.
Proof.
  induction l as [|[k' v'] l IH]; cbn; [by rewrite elem_of_nil|].
  intros [Hk Hl]%list.NoDup_cons. rewrite elem_of_cons. destruct (String.eqb_spec k' k) as [->|Hne].
  - split; [intros [= ->]; by left|]. intros [[= ->]|H]; [done|].
    exfalso. apply Hk. by apply list_elem_of_fmap_2' with (x := (k, v)).
  - rewrite IH by done. split; [by right|]. intros [[= -> ->]|H]; [done|done].
Qed.

Lemma get_perm {A} k (l m : list (string * A)) : NoDup (fst <$> l) → l ≡ₚ m → get k l = get k m.
Proof.
  intros Hl Hp. assert (NoDup (fst <$> m)) as Hm by by rewrite <- Hp.
  destruct (get k l) as [v|] eqn:E.
  - symmetry. apply get_Some; [done|]. rewrite <- Hp. by apply get_Some.
  - destruct (get k m) as [v|] eqn:E'; [|done]. apply get_Some in E'; [|done].
    rewrite <- Hp in E'. apply get_Some in E'; [|done]. congruence.
Qed.

Lemma remove_absent {A} k (l : list (string * A)) : k ∉ (fst <$> l) → remove k l = l.
Proof.
  unfold remove. induction l as [|[k' v] l IH]; [done|]. cbn. rewrite not_elem_of_cons. intros [Hk Hl].
  destruct (String.eqb_spec k' k); [congruence|]. cbn. by rewrite IH.
Qed.

Lemma remove_perm {A} k (l m : list (string * A)) : l ≡ₚ m → remove k l ≡ₚ remove k m.
Proof.
  unfold remove. induction 1 as [|x l l' _ IH|x y l|l1 l2 l3 _ IH1 _ IH2]; [done|..|by etrans]; cbn.
  - case_match; [by constructor|done].
  - repeat case_match; try done. constructor.
Qed.

(** ** Decoding the fields of a struct *)

(** The field [name] of a struct decoded from [ms]. *)
Definition field_is {A} `{GoJson A} (ms : fields) (name : string) (a : A) : Prop :=
  match get name ms with Some r => unmarshal r zero | None => Some zero end = Some a.

Lemma select_exact names k : k ∈ names → fieldOf names k = Some k.
Proof.
  intros Hk. unfold fieldOf, select.
  destruct (list_find (λ n, n = k) names) as [[i n]|] eqn:E.
  - apply list_find_Some in E as (Hi & -> & _). cbn. exact Hi.
  - exfalso. rewrite list_find_None in E. rewrite list.Forall_forall in E. by apply (E k).
Qed.

Lemma member_absent {A} `{GoJson A} names name ms (old : A) :
  Forall (λ m, m.1 ∈ names) ms → name ∉ (fst <$> ms) → member names name ms old = Some old.
Proof.
  intros Hms. induction Hms as [|[k r] ms Hk _ IH]; [done|]. cbn. rewrite not_elem_of_cons. intros [Hn Hl].
  rewrite select_exact by done. rewrite bool_decide_false by congruence. auto.
Qed.

Lemma member_get {A} `{GoJson A} names name ms (a : A) :
  Forall (λ m, m.1 ∈ names) ms → NoDup (fst <$> ms) → field_is ms name a → member names name ms zero = Some a.
Proof.
  unfold field_is. intros Hms. induction Hms as [|[k r] ms Hk Hms IH]; [done|]. cbn.
  intros [Hn Hl]%list.NoDup_cons. rewrite select_exact by done.
  destruct (String.eqb_spec k name) as [->|Hne].
  - intros ->. rewrite bool_decide_true by done. cbn. by apply member_absent.
  - rewrite bool_decide_false by congruence. auto.
Qed.

(** ** Types whose printed values are read back *)

(** [ok a]: [a] can be printed and is read back; [depth_of] bounds the nesting
    of what is printed; [nullable]: [a] may be printed as [null]. *)
Class Printable (A : Type) `{GoJson A} := {
  ok : A → Prop;
  depth_of : nat;
  nullable : bool;
  printed : ∀ a, ok a → ∃ r, marshal a = Some (text r) ∧ canonical_raw r ∧ (nest (ast r) ≤ depth_of)%nat
                          ∧ unmarshal r zero = Some a ∧ (nullable = false → ast r ≠ JNull);
}.

#[global] Program Instance string_printable : Printable string := {
  ok s := ValidString s = true; depth_of := 0; nullable := false }.
Next Obligation.
  intros s Hs. exists (mkRaw (marshalString s) (JString s)).
  split_and!; try done; by apply canonical_string.
Qed.

#[global] Program Instance int_printable : Printable Z := {
  ok z := in_i64 z = true; depth_of := 0; nullable := false }.
Next Obligation.
  intros z Hz. exists (mkRaw (formatInt z) (JNumber (formatInt z))). cbn. rewrite parseInt_formatInt by done.
  split_and!; try done; by apply canonical_int.
Qed.

#[global] Program Instance bool_printable : Printable bool := { ok b := True; depth_of := 0; nullable := false }.
Next Obligation.
  intros b _. exists (mkRaw (if b then "true" else "false") (JBool b)).
  split_and!; try done; apply canonical_bool.
Qed.

(** Types that are never printed as [null]: those pointers may point to. *)
Class Solid (A : Type) `{Printable A} : Prop := solid : nullable (A := A) = false.

#[global] Instance string_solid : Solid string.
Proof. done. Qed.
#[global] Instance int_solid : Solid Z.
Proof. done. Qed.
#[global] Instance bool_solid : Solid bool.
Proof. done. Qed.

#[global] Program Instance pointer_printable {A} `{Solid A} : Printable (option A) := {
  ok p := match p with Some a => ok a | None => True end; depth_of := depth_of (A := A); nullable := true }.
Next Obligation.
  intros A ? ? Hn [a|] Ha; cbn in *.
  - destruct (printed a Ha) as (r & Hm & Hc & Hd & Hu & Hnn). exists r. split_and!; try done.
    cbn. rewrite Hu. specialize (Hnn Hn). by destruct (ast r).
  - exists (mkRaw "null" JNull). split_and!; try done; try apply canonical_null. cbn. lia.
Qed.

(** A raw message in the form it is printed in, nested no deeper than the
    frames around it allow. *)
Definition rawDepth : nat := maxNestingDepth - 4.

Lemma rawDepth_max : (rawDepth + 4 = maxNestingDepth)%nat.
Proof. unfold rawDepth, maxNestingDepth. lia. Qed.

Lemma rawDepth_large : (100 ≤ rawDepth)%nat.
Proof. unfold rawDepth, maxNestingDepth. lia. Qed.

Definition okRaw (m : RawMessage) : Prop :=
  match m with
  | Raw p => ∃ v, wholeValue p = Some v ∧ compacted p = true ∧ (nest v ≤ rawDepth)%nat
  | NilRaw => False
  end.

#[global] Program Instance raw_printable : Printable RawMessage := {
  ok := okRaw; depth_of := rawDepth; nullable := true }.
Next Obligation.
  intros [|p]; [done|]. intros (v & Hv & Hp & Hd). pose proof (canonical_wholeValue p v Hv Hp) as Hc.
  pose proof rawDepth_max.
  exists (mkRaw p v). cbn [marshal raw_json unmarshal text ast]. rewrite (parse_canonical _ _ Hc) by lia.
  rewrite (canonical_compactText _ _ Hc). split_and!; try done; try apply Hc.
Qed.

Lemma nest_list_bound vs n : Forall (λ v, (nest v ≤ n)%nat) vs → (nest_list vs ≤ n)%nat.
Proof. unfold nest_list. induction 1 as [|v vs Hv _ IH]; cbn; lia. Qed.

Lemma printed_list {A} `{Printable A} l :
  Forall ok l → ∃ rs, mapM marshal l = Some (text <$> rs) ∧ Forall canonical_raw rs
    ∧ Forall (λ r, (nest (ast r) ≤ depth_of (A := A))%nat) rs ∧ into rs [] = Some (l, []).
Proof.
  induction 1 as [|a l Ha _ (rs & Hm & Hc & Hd & Hi)]; [exists []; split_and!; constructor|].
  destruct (printed a Ha) as (r & Hm' & Hc' & Hd' & Hu & _). exists (r :: rs).
  split_and!; [|by constructor..|].
  - cbn. by rewrite Hm', Hm.
  - cbn. by rewrite Hu, Hi.
Qed.

(** A slice without spare elements. *)
Program Definition slice_printable {A} `{Printable A} (Hd : (S (depth_of (A := A)) ≤ maxNestingDepth)%nat)
  : Printable (slice A) := {|
  ok s := match s with NilSlice => True | Slice l spare => spare = [] ∧ Forall ok l end;
  depth_of := S (depth_of (A := A)); nullable := true |}.
Next Obligation.
  intros A ? ? Hd [|l spare]; cbn.
  - intros _. exists (mkRaw "null" JNull). split_and!; try done; try apply canonical_null. cbn. lia.
  - intros [-> Hl]. destruct (printed_list l Hl) as (rs & Hm & Hc & Hn & Hi).
    assert (nest_list (ast <$> rs) ≤ depth_of (A := A))%nat as Hn' by by apply nest_list_bound, list.Forall_fmap.
    exists (mkRaw (marshalArray (text <$> rs)) (JArray (ast <$> rs))).
    pose proof (canonical_array rs Hc) as Hcan.
    split_and!; [by rewrite Hm|exact Hcan|unfold nest_list in Hn'; cbn; lia| |done].
    unfold asList. cbn [ast text].
    pose proof (rawArray_print rs [] Hc ltac:(lia)) as Hr. rewrite app_nil_r in Hr. rewrite Hr. cbn.
    destruct rs as [|r rs]; [|by rewrite Hi]. cbn in Hi. by injection Hi as <-.
Qed.

(** ** Structs *)

(** What one field of a struct prints. *)
Record part (p : option (list (string * string))) (d : nat) (name : string) (ms : fields) : Prop := {
  part_text : p = Some ((λ m, (m.1, text m.2)) <$> ms);
  part_good : Forall good_member ms;
  part_nest : Forall (λ m, (nest (ast m.2) ≤ d)%nat) ms;
  part_keys : ms = [] ∨ ∃ r, ms = [(name, r)];
}.

Lemma out_part {A} `{Printable A} d name a :
  ValidString name = true → (depth_of (A := A) ≤ d)%nat → ok a →
  ∃ r, part (out name a) d name [(name, r)] ∧ unmarshal r zero = Some a ∧ marshal a = Some (text r) ∧ canonical_raw r.
Proof.
  intros Hn Hd Ha. destruct (printed a Ha) as (r & Hm & Hc & Hnest & Hu & _). exists r. split; [|done].
  split; [unfold out; by rewrite Hm|apply list.Forall_singleton; by split|apply list.Forall_singleton; cbn; lia|eauto].
Qed.

Lemma outNonEmpty_part {A} `{Printable A} d name a :
  ValidString name = true → (depth_of (A := A) ≤ d)%nat → ok a → (isEmpty a = true → a = zero) →
  ∃ ms, part (outNonEmpty name a) d name ms ∧ field_is ms name a ∧ (ms = [] ↔ isEmpty a = true)
        ∧ (∀ r, get name ms = Some r → marshal a = Some (text r) ∧ canonical_raw r).
Proof.
  intros Hn Hd Ha Hz. unfold outNonEmpty. destruct (isEmpty a) eqn:E.
  - exists []. split; [split; auto|]. rewrite Hz by done. done.
  - destruct (out_part d name a Hn Hd Ha) as (r & Hp & Hu & Hm). exists [(name, r)]. split; [done|].
    unfold field_is. cbn. rewrite String.eqb_refl. split_and!; [done|done|by intros ? [= <-]].
Qed.

Lemma part_other p d name ms k : part p d name ms → k ≠ name → get k ms = None.
Proof.
  intros [_ _ _ [->|[r ->]]] Hk; [done|]. cbn. by destruct (String.eqb_spec name k).
Qed.

Lemma part_in p d name ms m : part p d name ms → m ∈ ms → m.1 = name.
Proof.
  intros [_ _ _ [->|[r ->]]]; [by intros ?%elem_of_nil|]. rewrite list_elem_of_singleton. by intros ->.
Qed.

(** The parts of a struct in the order they are printed. *)
Definition parts (ps : list (option (list (string * string)))) (d : nat) (names : list string) (mss : list fields) : Prop :=
  Forall3 (λ p name ms, part p d name ms) ps names mss.

Lemma parts_text ps d names mss : parts ps d names mss → struct ps = Some (print (concat mss)).
Proof.
  intros H. unfold struct, print.
  assert (mapM id ps = Some ((λ ms : fields, (λ m, (m.1, text m.2)) <$> ms) <$> mss)) as ->.
  { induction H as [|p n ms ps ns mss Hp _ IH]; [done|]. cbn. by rewrite (part_text _ _ _ _ Hp), IH. }
  cbn. f_equal. f_equal. clear. induction mss as [|ms mss IH]; [done|]. cbn. by rewrite IH, fmap_app.
Qed.

Lemma parts_Forall ps d names mss :
  parts ps d names mss →
  Forall good_member (concat mss) ∧ Forall (λ m, (nest (ast m.2) ≤ d)%nat) (concat mss)
  ∧ Forall (λ m, m.1 ∈ names) (concat mss).
Proof.
  induction 1 as [|p n ms ps ns mss Hp _ (IH1 & IH2 & IH3)]; [split_and!; constructor|]. cbn.
  split_and!; apply list.Forall_app; split; try apply Hp; try done.
  - apply list.Forall_forall. intros m Hm. rewrite (part_in _ _ _ _ _ Hp Hm). by left.
  - eapply list.Forall_impl; [exact IH3|]. cbn. intros m Hm. by right.
Qed.

Lemma parts_NoDup ps d names mss : parts ps d names mss → NoDup names → NoDup (fst <$> concat mss).
Proof.
  induction 1 as [|p n ms ps ns mss Hp Hps IH]; [constructor|]. intros [Hn Hns]%list.NoDup_cons. cbn.
  rewrite fmap_app. destruct (part_keys _ _ _ _ Hp) as [->|[r ->]]; [by apply IH|]. cbn.
  apply list.NoDup_cons. split; [|by apply IH]. intros ([k r'] & -> & Hin)%list_elem_of_fmap.
  destruct (parts_Forall _ _ _ _ Hps) as (_ & _ & Hk). rewrite list.Forall_forall in Hk. apply Hk in Hin. by apply Hn.
Qed.

(** ** Fields of a struct as one list *)

(** A field of a struct: its name, its [omitempty] option, its value. *)
Record fieldv := fv {
  fv_name : string;
  fv_omit : bool;
  fv_type : Type;
  fv_json : GoJson fv_type;
  fv_print : Printable fv_type;
  fv_value : fv_type;
}.
Arguments fv fv_name fv_omit {fv_type fv_json fv_print} fv_value.

Definition fv_out (f : fieldv) : option (list (string * string)) :=
  let '(fv name omit a) := f in if omit then outNonEmpty name a else out name a.

(** The value can be printed and what is left out is the zero value. *)
Definition fv_ok (f : fieldv) : Prop :=
  let '(fv name omit a) := f in ok a ∧ (omit = true → isEmpty a = true → a = zero).

Definition fv_static (d : nat) (f : fieldv) : Prop :=
  let '(@fv name omit A _ _ a) := f in ValidString name = true ∧ (depth_of (A := A) ≤ d)%nat.

(** The members hold the field, as it is printed. *)
Definition fv_read (ms : fields) (f : fieldv) : Prop :=
  let '(fv name omit a) := f in
  field_is ms name a ∧ (get name ms = None ↔ omit = true ∧ isEmpty a = true)
  ∧ (∀ r, get name ms = Some r → marshal a = Some (text r) ∧ canonical_raw r).

Lemma fv_part d f : fv_static d f → fv_ok f → ∃ ms, part (fv_out f) d (fv_name f) ms ∧ fv_read ms f.
Proof.
  destruct f as [name omit A J P a]. intros [Hn Hd] [Ha Hz]. destruct omit; cbn.
  - destruct (outNonEmpty_part d name a Hn Hd Ha (Hz eq_refl)) as (ms & Hp & Hf & He & Hm). exists ms. split; [done|].
    split; [done|]. split; [|done]. split.
    + intros Hg. split; [done|]. apply He.
      destruct (part_keys _ _ _ _ Hp) as [->|[r ->]]; [done|]. cbn in Hg. by rewrite String.eqb_refl in Hg.
    + intros [_ E]. apply He in E. by subst ms.
  - destruct (out_part d name a Hn Hd Ha) as (r & Hp & Hu & Hm). exists [(name, r)]. split; [done|].
    unfold field_is. cbn. rewrite String.eqb_refl. split; [done|].
    split; [split; [done|by intros [? _]]|by intros ? [= <-]].
Qed.

(** Whether the field is printed. *)
Definition fv_printed (f : fieldv) : bool := let '(fv name omit a) := f in negb (omit && isEmpty a).

Lemma part_key p d name omit A J P a ms :
  part p d name ms → fv_read ms (@fv name omit A J P a) →
  fst <$> ms = if fv_printed (@fv name omit A J P a) then [name] else [].
Proof.
  intros Hp (_ & Hg & _). cbn. destruct (part_keys _ _ _ _ Hp) as [->|[r ->]]; cbn.
  - destruct Hg as [Hg _]. destruct (Hg eq_refl) as [-> ->]. done.
  - destruct (omit && isEmpty a) eqn:E; [|done]. apply andb_true_iff in E.
    apply Hg in E. cbn in E. by rewrite String.eqb_refl in E.
Qed.

(** What a list of fields prints. *)
Record encoded (ps : list (option (list (string * string)))) (d : nat) (names : list string) (ms : fields) : Prop := {
  enc_text : struct ps = Some (print ms);
  enc_good : Forall good_member ms;
  enc_nest : Forall (λ m, (nest (ast m.2) ≤ d)%nat) ms;
  enc_names : Forall (λ m, m.1 ∈ names) ms;
  enc_NoDup : NoDup (fst <$> ms);
}.

Lemma fv_read_get ms ms' f : get (fv_name f) ms = get (fv_name f) ms' → fv_read ms f → fv_read ms' f.
Proof. destruct f as [name omit A J P a]. cbn. unfold field_is. by intros ->. Qed.

Lemma fields_encoded d fs :
  Forall (fv_static d) fs → NoDup (fv_name <$> fs) → Forall fv_ok fs →
  ∃ ms, encoded (fv_out <$> fs) d (fv_name <$> fs) ms ∧ Forall (fv_read ms) fs
        ∧ fst <$> ms = fv_name <$> List.filter fv_printed fs.
Proof.
  intros Hs Hn Ho.
  assert (∃ mss, parts (fv_out <$> fs) d (fv_name <$> fs) mss ∧ Forall (fv_read (concat mss)) fs
                 ∧ fst <$> concat mss = fv_name <$> List.filter fv_printed fs) as (mss & Hp & Hr & Hkeys).
  { induction Hs as [|f fs Hf Hfs IH]; [exists []; split_and!; constructor|]. cbn in Hn.
    apply list.NoDup_cons in Hn as [Hnf Hn]. apply list.Forall_cons in Ho as [Hof Ho].
    destruct (fv_part d f Hf Hof) as (ms & Hp & Hr). destruct (IH Hn Ho) as (mss & Hps & Hrs & Hks).
    exists (ms :: mss). split; [by constructor|].
    assert (fst <$> concat (ms :: mss) = fv_name <$> List.filter fv_printed (f :: fs)) as Hk.
    { cbn. rewrite fmap_app, Hks. destruct f as [name omit A J P a]. rewrite (part_key _ _ _ _ _ _ _ _ _ Hp Hr). cbn.
      by destruct (omit && isEmpty a). }
    split; [|done]. constructor; cbn.
    - apply (fv_read_get ms); [|done]. rewrite get_app.
      destruct (get (fv_name f) ms) eqn:E; [done|]. symmetry. apply get_None.
      intros ([k r] & Hkr & Hin)%list_elem_of_fmap. cbn in Hkr. subst k.
      destruct (parts_Forall _ _ _ _ Hps) as (_ & _ & Hnames). rewrite list.Forall_forall in Hnames.
      by apply Hnf, (Hnames _ Hin).
    - apply list.Forall_forall. intros g Hg. rewrite list.Forall_forall in Hrs.
      apply (fv_read_get (concat mss)); [|by apply Hrs]. rewrite get_app.
      rewrite (part_other _ _ _ _ _ Hp); [done|]. intros E. apply Hnf. rewrite <- E. by apply list_elem_of_fmap_2. }
  exists (concat mss). split; [|done]. clear Hkeys. destruct (parts_Forall _ _ _ _ Hp) as (? & ? & ?).
  split; try done; [by eapply parts_text|by eapply parts_NoDup].
Qed.

Lemma nest_object ms d : Forall (λ m, (nest (ast m.2) ≤ d)%nat) ms → (nest (object ms) ≤ S d)%nat.
Proof.
  intros H. apply le_n_S. change (nest_members (prod_map id ast <$> ms) ≤ d)%nat.
  by apply nest_members_bound, list.Forall_fmap.
Qed.

Lemma encoded_shallow ps d names ms : encoded ps d names ms → (d < maxNestingDepth)%nat → shallow ms.
Proof.
  intros [_ _ Hn _ _] Hd. apply shallow_Forall. eapply list.Forall_impl; [exact Hn|]. cbn. lia.
Qed.

Lemma encoded_canonical ps d names ms : encoded ps d names ms → canonical_raw (mkRaw (print ms) (object ms)).
Proof. intros [_ Hg _ _ _]. by apply canonical_object. Qed.

Lemma encoded_unmarshal {S} ps d names ms (decode : fields → S → option S) old :
  encoded ps d names ms → (d < maxNestingDepth)%nat →
  unmarshalStruct decode (mkRaw (print ms) (object ms)) old = decode ms old.
Proof.
  intros He Hd. unfold unmarshalStruct. cbn [ast object text].
  pose proof (rawObject_print ms [] (enc_good _ _ _ _ He)) as H. rewrite app_nil_r in H.
  pose proof (encoded_shallow _ _ _ _ He Hd) as Hs. unfold shallow in Hs. rewrite H by lia. done.
Qed.

(** A struct is printable when its fields are. *)
Lemma struct_printed {S} `{GoJson S} d (fs : list fieldv) (s : S) (decode : fields → S → option S) :
  marshal s = struct (fv_out <$> fs) → (∀ r old, unmarshal r old = unmarshalStruct decode r old) →
  Forall (fv_static d) fs → NoDup (fv_name <$> fs) → (d < maxNestingDepth)%nat →
  (∀ ms, Forall (λ m, m.1 ∈ (fv_name <$> fs)) ms → NoDup (fst <$> ms) → Forall (fv_read ms) fs → decode ms zero = Some s) →
  Forall fv_ok fs →
  ∃ r, marshal s = Some (text r) ∧ canonical_raw r ∧ (nest (ast r) ≤ Datatypes.S d)%nat
       ∧ unmarshal r zero = Some s ∧ (false = false → ast r ≠ JNull).
Proof.
  intros Hm Hu Hs Hn Hd Hdec Ho. destruct (fields_encoded d fs Hs Hn Ho) as (ms & He & Hr & _).
  exists (mkRaw (print ms) (object ms)). split_and!; [|by eapply encoded_canonical| | |done].
  - rewrite Hm. apply He.
  - apply nest_object, He.
  - rewrite Hu, (encoded_unmarshal _ _ _ _ _ _ He Hd). apply Hdec; [apply He|apply He|done].
Qed.

(** Decoding struct fields from members that hold them. *)
Ltac read_fields :=
  repeat match goal with
    | H : Forall (fv_read _) (_ :: _) |- _ => apply list.Forall_cons in H; destruct H as [(? & ? & ?) H]
    end;
  repeat match goal with
    | Hn : NoDup (fst <$> ?ms), Hk : Forall _ ?ms, Hf : field_is ?ms ?name ?a |- context [member ?names ?name ?ms ?old] =>
        replace (member names name ms old) with (Some a) by (symmetry; exact (member_get names name ms a Hk Hn Hf));
        cbn [mbind option_bind]
    end.

End Printable.
