(* ===== verification/GoText.v ===== *)
(** * Strings as the protocol checks them

    The parts of Go's [strings], [unicode], [encoding/binary] and [fmt] that
    [protocol/codec.go] uses on identifiers, paths and fingerprints: iteration
    over runes, splitting, prefixes, big-endian integers and hexadecimal. *)

From S2P Require Import Prelude Json JsonProofs.
From stdpp Require Import base strings list.
#[local] Open Scope Z_scope.

Module GoText.
Import Json JsonProofs.

(** ** Runes *)

Definition utf8_decode (l : list Z) : Z :=
  match l with
  | [a] => a
  | [a; b] => (a - 0xC0) * 64 + (b - 0x80)
  | [a; b; c] => ((a - 0xE0) * 64 + (b - 0x80)) * 64 + (c - 0x80)
  | [a; b; c; d] => (((a - 0xF0) * 64 + (b - 0x80)) * 64 + (c - 0x80)) * 64 + (d - 0x80)
  | _ => 0xFFFD
  end.

(** [for _, r := range s]: a byte that starts no rune counts as U+FFFD;
    [copy] bytes of the current rune are still to pass. *)
Fixpoint runes (copy : nat) (l : list Z) : list Z :=
  match l with
  | [] => []
  | _ :: rest =>
      match copy with
      | S copy => runes copy rest
      | O =>
          match utf8_width l with
          | O => 0xFFFD :: runes 0 rest
          | S w => utf8_decode (take (S w) l) :: runes w rest
          end
      end
  end.

Definition runesOf (s : string) : list Z := runes 0 (bytes_of s).

(** [unicode.IsControl]. *)
Definition isControl (r : Z) : bool := between 0 r 0x1F || between 0x7F r 0x9F.

Definition lower (r : Z) : bool := between 97 r 122.
Definition upper (r : Z) : bool := between 65 r 90.
Definition lowerHex (r : Z) : bool := digit r || between 97 r 102.

(** ** Splitting *)

(** [strings.Split(s, sep)] for a one-byte separator. *)
Fixpoint split (sep : Z) (l : list Z) : list (list Z) :=
  match l with
  | [] => [[]]
  | c :: l =>
      if bool_decide (c = sep) then [] :: split sep l
      else match split sep l with
           | part :: parts => (c :: part) :: parts
           | [] => [[c]]
           end
  end.

Definition Split (s : string) (sep : Z) : list string := string_of <$> split sep (bytes_of s).

(** [strings.HasPrefix] and [strings.TrimPrefix]. *)
Definition HasPrefix (s prefix : string) : bool := bool_decide (strip (bytes_of prefix) (bytes_of s) ≠ None).
Definition TrimPrefix (s prefix : string) : string :=
  match strip (bytes_of prefix) (bytes_of s) with Some l => string_of l | None => s end.

(** [strings.ContainsAny(s, chars)], [strings.Contains] of one byte. *)
Definition ContainsAny (s : string) (chars : list Z) : bool :=
  existsb (λ c, bool_decide (c ∈ chars)) (bytes_of s).

(** ** Integers as bytes *)

(** The low [n] bytes, the most significant first
    ([binary.BigEndian.PutUint16], [PutUint64]). *)
Fixpoint bigEndian (n : nat) (z : Z) : list Z :=
  match n with
  | O => []
  | S n => z / 256 ^ Z.of_nat n mod 256 :: bigEndian n z
  end.

(** [fmt.Sprintf("%x", bytes)]. *)
Definition hexBytes (l : list Z) : string :=
  string_of (l ≫= λ b, [hex_digit (b / 16); hex_digit (b mod 16)]).

(** ** Facts *)

Lemma split_nonempty sep l : split sep l ≠ [].
Proof. destruct l as [|c l]; [done|]. cbn. case_bool_decide; [done|]. by destruct (split sep l). Qed.

(** No part holds the separator, and the parts joined by it are the text. *)
Lemma split_parts sep l p : p ∈ split sep l → sep ∉ p.
Proof.
  revert p. induction l as [|c l IH]; cbn; intros p.
  - rewrite list_elem_of_singleton. intros ->. apply not_elem_of_nil.
  - case_bool_decide as Hc.
    + rewrite elem_of_cons. intros [->|H]; [apply not_elem_of_nil|by apply IH].
    + destruct (split sep l) as [|part parts] eqn:E; [by destruct (split_nonempty sep l E)|].
      rewrite elem_of_cons. intros [->|H]; [|by apply IH; right].
      rewrite not_elem_of_cons. split; [congruence|]. apply IH. by left.
Qed.

Lemma length_bigEndian n z : length (bigEndian n z) = n.
Proof. induction n as [|n IH]; cbn; by rewrite ?IH. Qed.

(** An integer is determined by its bytes. *)
Fixpoint bigEndianValue (l : list Z) : Z :=
  match l with
  | [] => 0
  | c :: l => c * 256 ^ Z.of_nat (length l) + bigEndianValue l
  end.

Lemma bigEndianValue_spec n z : 0 ≤ z → bigEndianValue (bigEndian n z) = z mod 256 ^ Z.of_nat n.
Proof.
  intros Hz. induction n as [|n IH]; [by rewrite Z.mod_1_r|].
  cbn [bigEndian bigEndianValue]. rewrite IH, length_bigEndian.
  rewrite Nat2Z.inj_succ, Z.pow_succ_r by lia. set (p := 256 ^ Z.of_nat n).
  assert (0 < p) by (apply Z.pow_pos_nonneg; lia).
  rewrite (Z.mul_comm 256 p), Z.rem_mul_r by lia. lia.
Qed.

Lemma bigEndian_inj n a b :
  0 ≤ a < 256 ^ Z.of_nat n → 0 ≤ b < 256 ^ Z.of_nat n → bigEndian n a = bigEndian n b → a = b.
Proof.
  intros Ha Hb E. apply (f_equal bigEndianValue) in E. rewrite !bigEndianValue_spec in E by lia.
  by rewrite !Z.mod_small in E by lia.
Qed.

Example split_path : Split "a/b//c" 47 = ["a"; "b"; ""; "c"].
Proof. vm_compute. reflexivity. Qed.

Example runes_accent : runes 0 [0xC3; 0xA9; 0x41; 0xFF] = [0xE9; 0x41; 0xFFFD].
Proof. vm_compute. reflexivity. Qed.

End GoText.
