(* ===== verification/Sha256.v ===== *)
(** * SHA-256

    [crypto/sha256], which the capability and request fingerprints are made
    with: FIPS 180-4 on lists of bytes, with 32-bit words as integers modulo
    [2^32].  The test vectors at the end are those of the standard. *)

From S2P Require Import Prelude Json GoText.
From stdpp Require Import base strings list.
#[local] Open Scope Z_scope.

Module Sha256.
Import Json GoText.

Definition w32 (z : Z) : Z := Z.land z 0xFFFFFFFF.
Definition add32 (a b : Z) : Z := w32 (a + b).
Definition rotr (n a : Z) : Z := Z.lor (Z.shiftr a n) (w32 (Z.shiftl a (32 - n))).
Definition xor3 (a b c : Z) : Z := Z.lxor a (Z.lxor b c).

Definition Ch (x y z : Z) : Z := Z.lxor (Z.land x y) (Z.land (Z.lxor x 0xFFFFFFFF) z).
Definition Maj (x y z : Z) : Z := xor3 (Z.land x y) (Z.land x z) (Z.land y z).
Definition Sigma0 (x : Z) : Z := xor3 (rotr 2 x) (rotr 13 x) (rotr 22 x).
Definition Sigma1 (x : Z) : Z := xor3 (rotr 6 x) (rotr 11 x) (rotr 25 x).
Definition sigma0 (x : Z) : Z := xor3 (rotr 7 x) (rotr 18 x) (Z.shiftr x 3).
Definition sigma1 (x : Z) : Z := xor3 (rotr 17 x) (rotr 19 x) (Z.shiftr x 10).

(** The first primes: those that no smaller one divides. *)
Fixpoint sieve (fuel : nat) (n : Z) (primes : list Z) : list Z :=
  match fuel with
  | O => primes
  | S fuel => sieve fuel (n + 1) (if existsb (λ p, bool_decide (n mod p = 0)) primes then primes else primes ++ [n])
  end.

Definition primes : list Z := Eval vm_compute in take 64 (sieve 320 2 []).

(** The largest [r] with [r^3 <= n], one bit at a time. *)
Fixpoint cbrt (bits : nat) (r n : Z) : Z :=
  match bits with
  | O => r
  | S bits => let r' := r + 2 ^ Z.of_nat bits in cbrt bits (if bool_decide (r' ^ 3 ≤ n) then r' else r) n
  end.

(** The first 32 bits of the fractional parts of the cube roots of the first
    64 primes, and of the square roots of the first eight. *)
Definition K : list Z := Eval vm_compute in (λ p, w32 (cbrt 40 0 (p * 2 ^ 96))) <$> primes.

Definition H0 : list Z := Eval vm_compute in (λ p, w32 (Z.sqrt (p * 2 ^ 64))) <$> take 8 primes.

(** Padding to a multiple of 64 bytes, with the length in bits at the end. *)
Definition pad (m : list Z) : list Z :=
  let n := Z.of_nat (length m) in
  m ++ 0x80 :: replicate (Z.to_nat ((55 - n) mod 64)) 0 ++ bigEndian 8 (8 * n).

(** The message schedule, the newest word first. *)
Fixpoint schedule (n : nat) (w : list Z) : list Z :=
  match n with
  | O => w
  | S n =>
      let at_ i := nth i w 0 in
      schedule n (add32 (add32 (sigma1 (at_ 1%nat)) (at_ 6%nat)) (add32 (sigma0 (at_ 14%nat)) (at_ 15%nat)) :: w)
  end.

Fixpoint words (fuel : nat) (l : list Z) : list Z :=
  match fuel, l with
  | S fuel, a :: b :: c :: d :: l => bigEndianValue [a; b; c; d] :: words fuel l
  | _, _ => []
  end.

Definition round (s : list Z) (kw : Z * Z) : list Z :=
  match s with
  | [a; b; c; d; e; f; g; h] =>
      let t1 := add32 (add32 h (Sigma1 e)) (add32 (Ch e f g) (add32 kw.1 kw.2)) in
      let t2 := add32 (Sigma0 a) (Maj a b c) in
      [add32 t1 t2; a; b; c; add32 d t1; e; f; g]
  | _ => s
  end.

Definition block (state chunk : list Z) : list Z :=
  let w := reverse (schedule 48 (reverse (words 16 chunk))) in
  zip_with add32 state (foldl round state (zip K w)).

Fixpoint blocks (fuel : nat) (state l : list Z) : list Z :=
  match fuel, l with
  | S fuel, _ :: _ => blocks fuel (block state (take 64 l)) (drop 64 l)
  | _, _ => state
  end.

(** [sha256.Sum256]. *)
Definition Sum256 (m : list Z) : list Z :=
  let p := pad m in blocks (length p) H0 p ≫= bigEndian 4.

(** The digests as the protocol writes them: [fmt.Sprintf("sha256:%x", digest)]. *)
Definition fingerprint (m : list Z) : string := "sha256:" +:+ hexBytes (Sum256 m).

Example sum_empty : hexBytes (Sum256 []) = "e3b0c44298fc1c149afbf4c8996fb92427ae41e4649b934ca495991b7852b855".
Proof. vm_compute. reflexivity. Qed.

Example sum_abc : hexBytes (Sum256 (bytes_of "abc")) = "ba7816bf8f01cfea414140de5dae2223b00361a396177a9cb410ff61f20015ad".
Proof. vm_compute. reflexivity. Qed.

Example sum_two_blocks : hexBytes (Sum256 (bytes_of "abcdbcdecdefdefgefghfghighijhijkijkljklmklmnlmnomnopnopq"))
  = "248d6a61d20638b8e5c026930c3e6039a33ce45964ff2167f6ecedd419db06c1".
Proof. vm_compute. reflexivity. Qed.

End Sha256.
