(* ===== verification/EncryptedPacket.v ===== *)
(** * Encrypted packet carriers

    [protocol/encrypted_packet.go]: the envelope of a sealed event or command.
    The Hub and the Store never decrypt it; they check that it is a carrier for
    the transport's scope, type and command, and read the few public fields of
    its projection.  [store/sqlite/encrypted_event.go] turns an encrypted event
    into the event the attention projection reads. *)

From S2P Require Import Prelude StoreApi Json.
From stdpp Require Import base strings list.
#[local] Open Scope Z_scope.

Module EncryptedPacket.
Import Json.

Definition MaxEncryptedPacketCarrierBytes : Z := 49 * 1024.

Record EncryptedProjection := mkProjection {
  State : string;
  Role : string;
  RequestID : string;
  Decision : string;
  Operation : string;
  Outcome : string;
  CompletionState : string;
  ReasonCode : string;
  CommandID : string;
  InterruptSupported : bool;
  StopSupported : bool;
}.

Record EncryptedPacketCarrier := mkCarrier {
  KeyID : string;
  Sender : string;
  MessageID : string;
  Public : EncryptedProjection;
  Nonce : string;
  Ciphertext : string;
  Signature : string;
}.

(** ** Strict objects: every key at most once *)

Definition object := list (string * json).

Definition strictFields (v : json) : option object :=
  match v with
  | JObject ms => if bool_decide (NoDup (fst <$> ms)) then Some ms else None
  | _ => None
  end.

Definition field (name : string) (ms : object) : option json :=
  snd <$> (snd <$> list_find (λ m, m.1 = name) ms).

Definition encryptedObject (v : json) (names : list string) : option object :=
  fields ← strictFields v;
  if bool_decide (length fields = length names) && forallb (λ n, bool_decide (n ∈ fst <$> fields)) names
  then Some fields else None.

(** [json.Unmarshal(raw, &value)] with [var value string]; an absent field is
    an empty input. *)
Definition as_string (v : option json) : option string :=
  match v with
  | Some (JString s) => Some s
  | Some JNull => Some ""
  | _ => None
  end.

Definition as_bool (v : option json) : option bool :=
  match v with
  | Some (JBool b) => Some b
  | Some JNull => Some false
  | _ => None
  end.

(** ** Identifiers and base64 *)

Definition identifier_byte (c : Z) : bool :=
  between 65 c 90 || between 97 c 122 || between 48 c 57 || bool_decide (c ∈ [95; 46; 58; 47; 45]).

Definition validProtocolIdentifier (value : string) : bool :=
  bool_decide (0 < len value) && bool_decide (len value ≤ 128) && forallb identifier_byte (bytes_of value).

Definition base64_value (c : Z) : option Z :=
  if between 65 c 90 then Some (c - 65)
  else if between 97 c 122 then Some (c - 71)
  else if between 48 c 57 then Some (c + 4)
  else if bool_decide (c = 45) then Some 62
  else if bool_decide (c = 95) then Some 63
  else None.

(** Unpadded URL base64 that decodes strictly (its unused low bits are zero)
    to [min] to [max] bytes. *)
Definition validBase64URL (value : string) (min max : Z) : bool :=
  match mapM base64_value (bytes_of value) with
  | None => false
  | Some digits =>
      let n := Z.of_nat (length digits) in
      let rest := n mod 4 in
      let final := default 0 (last digits) in
      bool_decide (n ≤ (max * 8 + 5) / 6) &&
      (bool_decide (rest = 0) || (bool_decide (rest = 2) && bool_decide (final mod 16 = 0))
       || (bool_decide (rest = 3) && bool_decide (final mod 4 = 0))) &&
      bool_decide (min ≤ n * 6 / 8) && bool_decide (n * 6 / 8 ≤ max)
  end.

(** ** The public projection *)

(** [read] of [validateRunControlOutcomeProjection]: absent, or a non-empty string. *)
Definition read (name : string) (fields : object) : option (option string) :=
  match field name fields with
  | None => Some None
  | v => match as_string v with
         | Some s => if bool_decide (s = "") then None else Some (Some s)
         | None => None
         end
  end.

Definition optional (v : option string) (p : string → bool) : bool :=
  match v with Some s => p s | None => true end.

Definition validateRunControlOutcomeProjection (fields : object) : bool :=
  forallb (λ f : string * json, bool_decide (f.1 ∈ ["operation"; "outcome"; "completion_state"; "reason_code";
                                   "command_id"; "cmd_id"])) fields &&
  match read "operation" fields, read "outcome" fields, read "completion_state" fields,
        read "reason_code" fields, read "command_id" fields, read "cmd_id" fields with
  | Some (Some operation), Some (Some outcome), Some completion, Some reason, Some command, cmd =>
      bool_decide (operation ∈ ["interrupt"; "stop"]) &&
      bool_decide (outcome ∈ ["completed"; "rejected"; "timeout"; "outcome_unknown"]) &&
      optional completion (λ c, bool_decide (c ∈ ["ready"; "ended"])) &&
      optional reason validProtocolIdentifier &&
      match command, cmd with
      | Some id, _ => validProtocolIdentifier id
      | None, Some id => optional id validProtocolIdentifier
      | None, None => false
      end
  | _, _, _, _, _, _ => false
  end.

Definition projection_names (contentType : string) : list string :=
  if bool_decide (contentType = "session.state") then ["state"]
  else if bool_decide (contentType = "session.message") then ["role"]
  else if bool_decide (contentType = "permission.request") then ["request_id"]
  else if bool_decide (contentType ∈ ["permission.decision"; "permission.respond"]) then ["request_id"; "decision"]
  else [].

Definition valid_public (name value : string) : bool :=
  bool_decide (value ≠ "") &&
  (if bool_decide (name = "state") then
     bool_decide (value ∈ ["starting"; "ready"; "busy"; "waiting_permission"; "ended"; "error"])
   else if bool_decide (name = "role") then bool_decide (value ∈ ["user"; "agent"; "system"])
   else if bool_decide (name = "request_id") then validProtocolIdentifier value
   else if bool_decide (name = "decision") then bool_decide (value ∈ ["approve"; "deny"; "expired"])
   else true).

Definition validateEncryptedProjection (contentType : string) (v : json) : bool :=
  match strictFields v with
  | None => false
  | Some fields =>
      if bool_decide (contentType = "session.run.outcome") then validateRunControlOutcomeProjection fields
      else if bool_decide (contentType = "session.run.capabilities") then
        forallb (λ f, bool_decide (f.1 ∈ ["interrupt_supported"; "stop_supported"])
                      && bool_decide (is_Some (as_bool (Some f.2)))) fields
      else
        let names := projection_names contentType in
        bool_decide (length fields = length names) &&
        forallb (λ n, match as_string (field n fields) with
                      | Some value => valid_public n value
                      | None => false
                      end) names
  end.

(** ** Decoding a carrier *)

Definition text (name : string) (fields : object) : string := default "" (as_string (field name fields)).
Definition flag (name : string) (fields : object) : bool := default false (as_bool (field name fields)).

Definition public_of (fields : object) : EncryptedProjection :=
  mkProjection (text "state" fields) (text "role" fields) (text "request_id" fields) (text "decision" fields)
    (text "operation" fields) (text "outcome" fields) (text "completion_state" fields)
    (text "reason_code" fields) (text "command_id" fields)
    (flag "interrupt_supported" fields) (flag "stop_supported" fields).

Definition is_one (v : option json) : bool :=
  match v with Some (JNumber n) => bool_decide (n = "1") | _ => false end.

Definition DecodeEncryptedPacketCarrier (data scope contentType commandID : string)
    : option EncryptedPacketCarrier :=
  if bool_decide (MaxEncryptedPacketCarrierBytes < len data)
     || bool_decide (scope ∉ ["event"; "command"]) || negb (validProtocolIdentifier contentType)
     || (bool_decide (scope = "command") && negb (validProtocolIdentifier commandID))
     || (bool_decide (scope = "event") && bool_decide (commandID ≠ ""))
  then None
  else
    v ← parse data;
    fields ← encryptedObject v ["version"; "scope"; "key_id"; "sender"; "message_id"; "type"; "packet"];
    pv ← field "packet" fields;
    packet ← encryptedObject pv ["version"; "public"; "encrypted"];
    ev ← field "encrypted" packet;
    envelope ← encryptedObject ev ["nonce"; "ciphertext"; "signature"];
    public ← field "public" packet;
    if negb (validateEncryptedProjection contentType public) then None
    else
      public_fields ← strictFields public;
      (* json.Unmarshal: each member has its field's type *)
      scope' ← as_string (field "scope" fields);
      key_id ← as_string (field "key_id" fields);
      sender ← as_string (field "sender" fields);
      message_id ← as_string (field "message_id" fields);
      type ← as_string (field "type" fields);
      nonce ← as_string (field "nonce" envelope);
      ciphertext ← as_string (field "ciphertext" envelope);
      signature ← as_string (field "signature" envelope);
      if negb (is_one (field "version" fields)) || negb (is_one (field "version" packet))
         || bool_decide (scope' ≠ scope) || bool_decide (type ≠ contentType)
         || negb (validProtocolIdentifier key_id) || negb (validProtocolIdentifier sender)
         || negb (validProtocolIdentifier message_id)
         || (bool_decide (scope = "command") && bool_decide (message_id ≠ commandID))
         || negb (validBase64URL nonce 12 12) || negb (validBase64URL ciphertext 16 (32768 + 16))
         || negb (validBase64URL signature 64 64)
      then None
      else Some (mkCarrier key_id sender message_id (public_of public_fields) nonce ciphertext signature).

(** [json.Marshal(carrier.Packet.Public)]: [omitempty] drops empty members. *)
Definition marshalPublic (p : EncryptedProjection) : string :=
  let str (name value : string) := if bool_decide (value = "") then [] else [(name, marshalString value)] in
  let boolean (name : string) (value : bool) := if value then [(name, "true")] else [] in
  marshalStruct (str "state" (State p) ++ str "role" (Role p) ++ str "request_id" (RequestID p)
    ++ str "decision" (Decision p) ++ str "operation" (Operation p) ++ str "outcome" (Outcome p)
    ++ str "completion_state" (CompletionState p) ++ str "reason_code" (ReasonCode p)
    ++ str "command_id" (CommandID p) ++ boolean "interrupt_supported" (InterruptSupported p)
    ++ boolean "stop_supported" (StopSupported p)).

(** [sqliteProjectionEvent]: what the projection reads of a stored event. *)
Definition sqliteProjectionEvent (event : PendingEvent) (encrypted : bool) : error + PendingEvent :=
  if negb encrypted then inr event
  else
    match DecodeEncryptedPacketCarrier (pe_Payload event) "event" (pe_Type event) "" with
    | None => inl (Err "invalid encrypted packet carrier")
    | Some carrier => inr (mkPendingEvent (pe_Type event) (pe_Time event) (marshalPublic (Public carrier)))
    end.

End EncryptedPacket.
