(* ===== verification/CodecPayloads.v ===== *)
(** * Payloads of commands and events

    The payload grammars of [protocol/codec.go]: settings changes, settings
    capabilities and their fingerprints, settings results, run-control
    capabilities and outcomes, file-reference capabilities, sends and outcomes,
    encrypted content and attach grants.  A decoder returns [None] where the
    code returns an error.

    [nfc] stands for [norm.NFC.String] of [golang.org/x/text], which is not
    part of the repository. *)

From S2P Require Import Prelude StoreApi Json Wire GoText Sha256 EncryptedPacket.
From stdpp Require Import base strings list option.
#[local] Open Scope Z_scope.

Module CodecPayloads.
Import Json Wire GoText Sha256.

Definition when (b : bool) : option unit := if b then Some tt else None.

(** ** Identifiers, reasons and fingerprints *)

Definition MaxSettingsIdentifierBytes : Z := 128.
Definition MaxSettingsCommandIDBytes : Z := 255.
Definition MaxEventPayloadBytes : Z := 64 * 1024.
Definition MaxAttachGrantBytes : Z := 64 * 1024.
Definition LegacySettingsCapabilitySchemaVersion : Z := 1.
Definition SettingsCapabilitySchemaVersion : Z := 2.

Definition lenBetween (lo : Z) (s : string) (hi : Z) : bool := between lo (len s) hi.

Definition validSettingsCommandID (value : string) : bool := lenBetween 1 value MaxSettingsCommandIDBytes.

Definition letterOrDigit (c : Z) : bool := lower c || upper c || digit c.

Definition validSettingsIdentifier (value : string) : bool :=
  lenBetween 1 value MaxSettingsIdentifierBytes &&
  match bytes_of value with
  | [] => false
  | ch :: rest => letterOrDigit ch && forallb (λ ch, letterOrDigit ch || bool_decide (ch ∈ [46; 95; 58; 47; 45])) rest
  end.

Definition validSettingsFingerprint (value : string) : bool :=
  bool_decide (len value = 71) && HasPrefix value "sha256:" && forallb lowerHex (runesOf (TrimPrefix value "sha256:")).

Definition validFileReferenceFingerprint (value : string) : bool :=
  bool_decide (len value = 71) && HasPrefix value "sha256:" && forallb lowerHex (runesOf (TrimPrefix value "sha256:")).

Definition validSettingsReason (value : string) : bool :=
  lenBetween 1 value 64 &&
  match bytes_of value with
  | [] => false
  | ch :: rest => lower ch && forallb (λ r, lower r || digit r || bool_decide (r = 95)) (runes 0 rest)
  end.

Definition validSettingsReasonPointer (value : option string) : bool :=
  match value with Some v => validSettingsReason v | None => false end.

Definition validSettingsOutcome (value : string) : bool :=
  bool_decide (value ∈ ["applied"; "rejected"; "timeout"; "unsupported"; "stale_capability"; "outcome_unknown";
                        "mismatched_effective"]).

Definition validRunControlOutcome (value : string) : bool :=
  bool_decide (value ∈ ["completed"; "rejected"; "timeout"; "unsupported"; "outcome_unknown"]).

(** ** Settings changes *)

Record SettingsChange := mkSettingsChange {
  CapabilityFingerprint : string;
  RequestedModelID : option string;
  RequestedReasoningEffortID : option string;
  RequestedPermissionModeID : option string;
}.

(** An optional member that, when present, is a settings identifier. *)
Definition requestedID (k : string) (fs : fields) : option (option string) :=
  match get k fs with
  | None => Some None
  | Some r =>
      value ← unmarshal r "";
      if validSettingsIdentifier value then Some (Some value) else None
  end.

Definition DecodeSettingsChangePayload (payload : string) : option SettingsChange :=
  fs ← strictObject payload;
  _ ← when (bool_decide (2 ≤ length fs)%nat && bool_decide (length fs ≤ 4)%nat
            && only ["capability_fingerprint"; "model_id"; "reasoning_effort_id"; "permission_mode_id"] fs);
  fp ← asField "capability_fingerprint" fs;
  _ ← when (validSettingsFingerprint fp);
  model ← requestedID "model_id" fs;
  effort ← requestedID "reasoning_effort_id" fs;
  mode ← requestedID "permission_mode_id" fs;
  _ ← when (negb (bool_decide (model = None) && bool_decide (effort = None) && bool_decide (mode = None)));
  Some (mkSettingsChange fp model effort mode).

(** ** Settings capabilities *)

Record SettingsCapabilityChoice := mkChoice { choice_ID : string; choice_Label : string }.

Definition choice_names : list string := ["id"; "label"].

#[global] Instance choice_json : GoJson SettingsCapabilityChoice := {
  zero := mkChoice "" "";
  isEmpty _ := false;
  unmarshal := unmarshalStruct (λ ms old,
    id ← member choice_names "id" ms (choice_ID old);
    label ← member choice_names "label" ms (choice_Label old);
    Some (mkChoice id label));
  marshal c := struct [out "id" (choice_ID c); out "label" (choice_Label c)];
}.

Record SettingsCapabilityPayload := mkSettingsCapability {
  sc_SchemaVersion : Z;
  sc_Fingerprint : string;
  sc_Models : slice SettingsCapabilityChoice;
  sc_ReasoningEfforts : slice SettingsCapabilityChoice;
  sc_PermissionModes : slice SettingsCapabilityChoice;
  sc_EffectiveModelID : string;
  sc_EffectiveReasoningEffortID : option string;
  sc_EffectivePermissionModeID : string;
  sc_ModelChange : string;
  sc_ReasoningEffortChange : string;
  sc_PermissionChange : string;
  sc_ModelReadOnlyReason : option string;
  sc_ReasoningEffortReadOnlyReason : option string;
  sc_PermissionReadOnlyReason : option string;
}.

(** [SettingsCapabilityPayload.MarshalJSON]. *)
Definition marshalSettingsCapability (p : SettingsCapabilityPayload) : option string :=
  if bool_decide (sc_SchemaVersion p = LegacySettingsCapabilitySchemaVersion) then
    struct [out "schema_version" (sc_SchemaVersion p); out "fingerprint" (sc_Fingerprint p);
            out "models" (sc_Models p); out "permission_modes" (sc_PermissionModes p);
            out "effective_model_id" (sc_EffectiveModelID p);
            out "effective_permission_mode_id" (sc_EffectivePermissionModeID p);
            out "model_change" (sc_ModelChange p); out "permission_change" (sc_PermissionChange p);
            out "model_read_only_reason" (sc_ModelReadOnlyReason p);
            out "permission_read_only_reason" (sc_PermissionReadOnlyReason p)]
  else
    let reasoningEfforts := match sc_ReasoningEfforts p with NilSlice => Slice [] [] | s => s end in
    struct [out "schema_version" (sc_SchemaVersion p); out "fingerprint" (sc_Fingerprint p);
            out "models" (sc_Models p); out "reasoning_efforts" reasoningEfforts;
            out "permission_modes" (sc_PermissionModes p);
            out "effective_model_id" (sc_EffectiveModelID p);
            out "effective_reasoning_effort_id" (sc_EffectiveReasoningEffortID p);
            out "effective_permission_mode_id" (sc_EffectivePermissionModeID p);
            out "model_change" (sc_ModelChange p); out "reasoning_effort_change" (sc_ReasoningEffortChange p);
            out "permission_change" (sc_PermissionChange p);
            out "model_read_only_reason" (sc_ModelReadOnlyReason p);
            out "reasoning_effort_read_only_reason" (sc_ReasoningEffortReadOnlyReason p);
            out "permission_read_only_reason" (sc_PermissionReadOnlyReason p)].

(** [appendString]: a 16-bit length and the bytes. *)
Definition appendString (value : string) : list Z := bigEndian 2 (len value) ++ bytes_of value.

Definition appendChoice (c : SettingsCapabilityChoice) : list Z := appendString (choice_ID c) ++ appendString (choice_Label c).

Definition appendChoices (l : list SettingsCapabilityChoice) : list Z :=
  (Z.of_nat (length l) mod 256) :: (l ≫= appendChoice).

Definition appendChangeMode (mode : string) : list Z :=
  if bool_decide (mode = "allowed") then [1] else if bool_decide (mode = "unsupported") then [2] else [0].

Definition settingsCapabilityData (c : SettingsCapabilityPayload) : list Z :=
  let version := if bool_decide (sc_SchemaVersion c = 0) then LegacySettingsCapabilitySchemaVersion else sc_SchemaVersion c in
  let v2 (l : list Z) := if bool_decide (SettingsCapabilitySchemaVersion ≤ version) then l else [] in
  bytes_of ("agentwharf.settings-capability.v" +:+ formatInt version) ++ [0; version mod 256]
  ++ appendChoices (elems (sc_Models c)) ++ v2 (appendChoices (elems (sc_ReasoningEfforts c)))
  ++ appendChoices (elems (sc_PermissionModes c))
  ++ appendString (sc_EffectiveModelID c) ++ v2 (appendString (default "" (sc_EffectiveReasoningEffortID c)))
  ++ appendString (sc_EffectivePermissionModeID c)
  ++ appendChangeMode (sc_ModelChange c) ++ v2 (appendChangeMode (sc_ReasoningEffortChange c))
  ++ appendChangeMode (sc_PermissionChange c)
  ++ appendString (default "" (sc_ModelReadOnlyReason c))
  ++ v2 (appendString (default "" (sc_ReasoningEffortReadOnlyReason c)))
  ++ appendString (default "" (sc_PermissionReadOnlyReason c)).

Definition settingsCapabilityFingerprint (c : SettingsCapabilityPayload) : string := fingerprint (settingsCapabilityData c).

Definition decodeSettingsCapabilityChoices (data : raw) : option (slice SettingsCapabilityChoice) :=
  entries ← asList data;
  l ← mapM (λ entry : raw,
        fs ← strictObject (text entry);
        _ ← when (bool_decide (length fs = 2%nat) && has "id" fs && has "label" fs);
        id ← asField "id" fs;
        label ← asField "label" fs;
        _ ← when (only ["id"; "label"] fs);
        Some (mkChoice id label)) entries;
  Some (Slice l []).

Definition settingsChoiceContains (choices : list SettingsCapabilityChoice) (id : string) : bool :=
  existsb (λ c, bool_decide (choice_ID c = id)) choices.

Definition validSettingsChangeMode (mode : string) (reason : option string) (choices : nat) : bool :=
  if bool_decide (mode = "allowed") then bool_decide (2 ≤ choices)%nat && bool_decide (reason = None)
  else bool_decide (mode = "read_only")
       && match reason with Some r => lenBetween 1 r 64 && validSettingsReason r | None => false end.

Section Capability.
Context (nfc : string → string).

Definition validSettingsLabel (value : string) : bool :=
  lenBetween 1 value 128 && ValidString value && bool_decide (nfc value = value)
  && forallb (λ r, negb (isControl r)) (runesOf value).

Fixpoint validChoices (last : string) (choices : list SettingsCapabilityChoice) : bool :=
  match choices with
  | [] => true
  | c :: choices =>
      validSettingsIdentifier (choice_ID c) && validSettingsLabel (choice_Label c)
      && (bool_decide (last = "") || String.ltb last (choice_ID c))
      && validChoices (choice_ID c) choices
  end.

Definition validSettingsChoices (choices : list SettingsCapabilityChoice) (min max : nat) : bool :=
  bool_decide (min ≤ length choices)%nat && bool_decide (length choices ≤ max)%nat && validChoices "" choices.

Definition validReasoningEffortCapability (c : SettingsCapabilityPayload) : bool :=
  let efforts := elems (sc_ReasoningEfforts c) in
  if bool_decide (sc_ReasoningEffortChange c = "unsupported") then
    bool_decide (length efforts = 0%nat) && bool_decide (sc_EffectiveReasoningEffortID c = None)
    && validSettingsReasonPointer (sc_ReasoningEffortReadOnlyReason c)
  else
    validSettingsChoices efforts 1 16
    && match sc_EffectiveReasoningEffortID c with
       | Some id => validSettingsIdentifier id && settingsChoiceContains efforts id
       | None => false
       end
    && validSettingsChangeMode (sc_ReasoningEffortChange c) (sc_ReasoningEffortReadOnlyReason c) (length efforts).

Definition capability_keys (schemaVersion : Z) : list string :=
  ["schema_version"; "fingerprint"; "models"; "permission_modes"; "effective_model_id";
   "effective_permission_mode_id"; "model_change"; "permission_change"; "model_read_only_reason";
   "permission_read_only_reason"]
  ++ (if bool_decide (schemaVersion = SettingsCapabilitySchemaVersion)
      then ["reasoning_efforts"; "effective_reasoning_effort_id"; "reasoning_effort_change";
            "reasoning_effort_read_only_reason"]
      else []).

(** The checks on the decoded value, the recomputed fingerprint last. *)
Definition validSettingsCapability (c : SettingsCapabilityPayload) : bool :=
  let models := elems (sc_Models c) in
  let modes := elems (sc_PermissionModes c) in
  validSettingsFingerprint (sc_Fingerprint c)
  && (bool_decide (sc_SchemaVersion c ≠ SettingsCapabilitySchemaVersion) || validReasoningEffortCapability c)
  && validSettingsChoices models 1 32 && validSettingsChoices modes 1 16
  && validSettingsIdentifier (sc_EffectiveModelID c) && validSettingsIdentifier (sc_EffectivePermissionModeID c)
  && settingsChoiceContains models (sc_EffectiveModelID c)
  && settingsChoiceContains modes (sc_EffectivePermissionModeID c)
  && validSettingsChangeMode (sc_ModelChange c) (sc_ModelReadOnlyReason c) (length models)
  && validSettingsChangeMode (sc_PermissionChange c) (sc_PermissionReadOnlyReason c) (length modes)
  && bool_decide (sc_Fingerprint c = settingsCapabilityFingerprint c).

Definition DecodeSettingsCapabilityPayload (payload : string) : option SettingsCapabilityPayload :=
  fs ← strictObject payload;
  schemaVersion ← asField "schema_version" fs;
  _ ← when (bool_decide (schemaVersion ∈ [LegacySettingsCapabilitySchemaVersion; SettingsCapabilitySchemaVersion]));
  let allowed := capability_keys schemaVersion in
  _ ← when (bool_decide (length fs = length allowed) && only allowed fs);
  models ← get "models" fs ≫= decodeSettingsCapabilityChoices;
  modes ← get "permission_modes" fs ≫= decodeSettingsCapabilityChoices;
  fp ← asField "fingerprint" fs;
  model ← asField "effective_model_id" fs;
  mode ← asField "effective_permission_mode_id" fs;
  modelChange ← asField "model_change" fs;
  permissionChange ← asField "permission_change" fs;
  modelReason ← asField "model_read_only_reason" fs;
  permissionReason ← asField "permission_read_only_reason" fs;
  '(efforts, effort, effortChange, effortReason) ←
    (if bool_decide (schemaVersion = SettingsCapabilitySchemaVersion) then
       efforts ← get "reasoning_efforts" fs ≫= decodeSettingsCapabilityChoices;
       effort ← asField "effective_reasoning_effort_id" fs;
       effortChange ← asField "reasoning_effort_change" fs;
       effortReason ← asField "reasoning_effort_read_only_reason" fs;
       Some (efforts, effort, effortChange, effortReason)
     else Some (NilSlice, None, "", None));
  let c := mkSettingsCapability schemaVersion fp models efforts modes model effort mode modelChange effortChange
             permissionChange modelReason effortReason permissionReason in
  if validSettingsCapability c then Some c else None.

End Capability.

(** ** Results of settings changes *)

Record SettingsEffectivePayload := mkSettingsEffective {
  se_CommandID : string;
  se_RequestFingerprint : string;
  se_EffectiveFingerprint : string;
  se_Outcome : string;
  se_EffectiveModelID : string;
  se_EffectiveReasoningEffortID : option string;
  se_EffectivePermissionModeID : string;
  se_ReasonCode : option string;
}.

Definition DecodeSettingsEffectivePayload (payload : string) : option SettingsEffectivePayload :=
  fs ← strictObject payload;
  _ ← when ((bool_decide (length fs = 7%nat) || bool_decide (length fs = 8%nat))
            && only ["cmd_id"; "request_fingerprint"; "effective_fingerprint"; "outcome"; "effective_model_id";
                     "effective_reasoning_effort_id"; "effective_permission_mode_id"; "reason_code"] fs);
  cmd ← asField "cmd_id" fs;
  _ ← when (validSettingsCommandID cmd);
  request ← asField "request_fingerprint" fs;
  _ ← when (validSettingsFingerprint request);
  effective ← asField "effective_fingerprint" fs;
  _ ← when (validSettingsFingerprint effective);
  outcome ← asField "outcome" fs;
  _ ← when (validSettingsOutcome outcome);
  model ← asField "effective_model_id" fs;
  _ ← when (validSettingsIdentifier model);
  mode ← asField "effective_permission_mode_id" fs;
  _ ← when (validSettingsIdentifier mode);
  reason ← asField "reason_code" fs;
  effort ← match get "effective_reasoning_effort_id" fs with
           | None => Some None
           | Some r =>
               id ← unmarshal r (None : option string);
               if match id with Some id => validSettingsIdentifier id | None => true end then Some id else None
           end;
  _ ← when (if bool_decide (outcome = "applied") then bool_decide (reason = None)
            else validSettingsReasonPointer reason);
  Some (mkSettingsEffective cmd request effective outcome model effort mode reason).

(** ** Run control *)

Record RunControlCapabilityPayload := mkRunControlCapability {
  rc_SchemaVersion : Z;
  rc_InterruptSupported : bool;
  rc_StopSupported : bool;
}.

Definition validRunControlBoolean (value : raw) : bool := bool_decide (text value ∈ ["true"; "false"]).

Definition DecodeRunControlCapabilityPayload (payload : string) : option RunControlCapabilityPayload :=
  _ ← when (lenBetween 1 payload MaxEventPayloadBytes);
  fs ← strictObject payload;
  _ ← when (bool_decide (length fs = 3%nat) && only ["schema_version"; "interrupt_supported"; "stop_supported"] fs);
  version ← asField "schema_version" fs;
  interrupt ← get "interrupt_supported" fs;
  stop ← get "stop_supported" fs;
  interruptSupported ← unmarshal interrupt false;
  stopSupported ← unmarshal stop false;
  _ ← when (bool_decide (version = 1) && validRunControlBoolean interrupt && validRunControlBoolean stop);
  Some (mkRunControlCapability version interruptSupported stopSupported).

Record RunControlOutcomePayload := mkRunControlOutcome {
  ro_CommandID : string;
  ro_Operation : string;
  ro_Outcome : string;
  ro_CompletionState : option string;
  ro_ReasonCode : option string;
}.

Definition DecodeRunControlOutcomePayload (payload : string) : option RunControlOutcomePayload :=
  _ ← when (lenBetween 1 payload MaxEventPayloadBytes);
  fs ← strictObject payload;
  _ ← when (bool_decide (length fs = 5%nat)
            && only ["cmd_id"; "operation"; "outcome"; "completion_state"; "reason_code"] fs);
  cmd ← asField "cmd_id" fs;
  _ ← when (validSettingsCommandID cmd);
  operation ← asField "operation" fs;
  _ ← when (bool_decide (operation ∈ ["interrupt"; "stop"]));
  outcome ← asField "outcome" fs;
  _ ← when (validRunControlOutcome outcome);
  completion ← asField "completion_state" fs;
  reason ← asField "reason_code" fs;
  _ ← when (if bool_decide (outcome = "completed") then
              bool_decide (completion = Some (if bool_decide (operation = "stop") then "ended" else "ready"))
              && bool_decide (reason = None)
            else bool_decide (completion = None) && validSettingsReasonPointer reason);
  Some (mkRunControlOutcome cmd operation outcome completion reason).

(** ** File-reference capabilities *)

Record FileReferenceDispositionCapability := mkDisposition {
  fd_Mode : string;
  fd_MaxBytes : option Z;
  fd_Reason : option string;
}.

Record FileReferenceImageCapability := mkImage {
  fi_Mode : string;
  fi_MaxBytes : option Z;
  fi_MediaTypes : slice string;
  fi_Reason : option string;
}.

Record FileReferenceCapabilityPayload := mkFileReferenceCapability {
  fc_SchemaVersion : Z;
  fc_Fingerprint : string;
  fc_MaxReferences : Z;
  fc_MaxTotalBytes : Z;
  fc_File : FileReferenceDispositionCapability;
  fc_Image : FileReferenceImageCapability;
}.

Definition validFileReferenceReason (value : option string) : bool :=
  match value with Some v => validSettingsReason v | None => false end.

Definition validMaxBytes (value : option Z) (total : Z) : bool :=
  match value with Some n => between 1 n total | None => false end.

Definition validFileReferenceDisposition (value : FileReferenceDispositionCapability) (total : Z) : bool :=
  if bool_decide (fd_Mode value = "allowed") then
    bool_decide (fd_Reason value = None) && validMaxBytes (fd_MaxBytes value) total
  else bool_decide (fd_Mode value = "unsupported") && bool_decide (fd_MaxBytes value = None)
       && validFileReferenceReason (fd_Reason value).

Fixpoint validMediaTypes (last : string) (l : list string) : bool :=
  match l with
  | [] => true
  | mediaType :: l =>
      bool_decide (mediaType ∈ ["image/png"; "image/jpeg"; "image/webp"; "image/gif"])
      && (bool_decide (last = "") || String.ltb last mediaType)
      && validMediaTypes mediaType l
  end.

Definition validFileReferenceImage (value : FileReferenceImageCapability) (total : Z) : bool :=
  let mediaTypes := elems (fi_MediaTypes value) in
  if bool_decide (fi_Mode value = "allowed") then
    bool_decide (fi_Reason value = None) && validMaxBytes (fi_MaxBytes value) total
    && bool_decide (1 ≤ length mediaTypes)%nat && bool_decide (length mediaTypes ≤ 4)%nat
    && validMediaTypes "" mediaTypes
  else bool_decide (fi_Mode value = "unsupported") && bool_decide (fi_MaxBytes value = None)
       && bool_decide (length mediaTypes = 0%nat) && validFileReferenceReason (fi_Reason value).

Definition appendFileReferenceString (value : string) : list Z := bigEndian 2 (len value) ++ bytes_of value.

(** The flag and the bound of a disposition ([appendDisposition]). *)
Definition appendMode (mode : string) (maxBytes : option Z) : list Z :=
  if bool_decide (mode = "allowed") then 1 :: bigEndian 8 (default 0 maxBytes) else 0 :: bigEndian 8 0.

Definition appendReason (mode : string) (reason : option string) : list Z :=
  appendFileReferenceString (if bool_decide (mode = "allowed") then "" else default "" reason).

Definition fileReferenceCapabilityData (c : FileReferenceCapabilityPayload) : list Z :=
  let file := fc_File c in
  let image := fc_Image c in
  let mediaTypes := elems (fi_MediaTypes image) in
  bytes_of "agentwharf.file-reference-capability.v1" ++ [0; 1; fc_MaxReferences c mod 256]
  ++ bigEndian 8 (fc_MaxTotalBytes c)
  ++ appendMode (fd_Mode file) (fd_MaxBytes file) ++ appendReason (fd_Mode file) (fd_Reason file)
  ++ appendMode (fi_Mode image) (fi_MaxBytes image)
  ++ (Z.of_nat (length mediaTypes) mod 256) :: (mediaTypes ≫= appendFileReferenceString)
  ++ appendReason (fi_Mode image) (fi_Reason image).

Definition validFileReferenceLimits (c : FileReferenceCapabilityPayload) : bool :=
  bool_decide (fc_SchemaVersion c = 1) && between 1 (fc_MaxReferences c) 8
  && between 1 (fc_MaxTotalBytes c) 10485760
  && validFileReferenceDisposition (fc_File c) (fc_MaxTotalBytes c)
  && validFileReferenceImage (fc_Image c) (fc_MaxTotalBytes c).

Definition FileReferenceCapabilityFingerprint (c : FileReferenceCapabilityPayload) : string :=
  if validFileReferenceLimits c then fingerprint (fileReferenceCapabilityData c) else "".

Definition validFileReferenceCapability (c : FileReferenceCapabilityPayload) : bool :=
  bool_decide (fc_SchemaVersion c = 1) && validFileReferenceFingerprint (fc_Fingerprint c)
  && bool_decide (FileReferenceCapabilityFingerprint c ≠ "").

Definition decodeFileReferenceDisposition (r : raw) : option FileReferenceDispositionCapability :=
  fs ← strictObject (text r);
  _ ← when (bool_decide (length fs = 3%nat) && only ["mode"; "max_bytes"; "reason"] fs);
  mode ← asField "mode" fs;
  maxBytes ← asField "max_bytes" fs;
  reason ← asField "reason" fs;
  Some (mkDisposition mode maxBytes reason).

Definition decodeFileReferenceImage (r : raw) : option FileReferenceImageCapability :=
  fs ← strictObject (text r);
  _ ← when (bool_decide (length fs = 4%nat) && only ["mode"; "max_bytes"; "media_types"; "reason"] fs);
  mode ← asField "mode" fs;
  maxBytes ← asField "max_bytes" fs;
  mediaTypes ← asField "media_types" fs;
  reason ← asField "reason" fs;
  Some (mkImage mode maxBytes mediaTypes reason).

Definition DecodeFileReferenceCapabilityPayload (payload : string) : option FileReferenceCapabilityPayload :=
  fs ← strictObject payload;
  _ ← when (bool_decide (length fs = 6%nat)
            && only ["schema_version"; "fingerprint"; "max_references"; "max_total_bytes"; "file"; "image"] fs);
  version ← asField "schema_version" fs;
  fp ← asField "fingerprint" fs;
  maxReferences ← asField "max_references" fs;
  maxTotalBytes ← asField "max_total_bytes" fs;
  file ← get "file" fs ≫= decodeFileReferenceDisposition;
  image ← get "image" fs ≫= decodeFileReferenceImage;
  let c := mkFileReferenceCapability version fp maxReferences maxTotalBytes file image in
  _ ← when (validFileReferenceCapability c && bool_decide (fp = FileReferenceCapabilityFingerprint c));
  Some c.

(** ** Sends with file references *)

Record FileReferencePart := mkFileReferencePart {
  fp_Disposition : string;
  fp_Bytes : Z;
  fp_MediaType : option string;
}.

Record FileReferenceSendPayload := mkFileReferenceSend {
  fs_CapabilityFingerprint : string;
  fs_RequestFingerprint : string;
  fs_ReferenceCount : Z;
  fs_HasReferences : bool;
  fs_References : list FileReferencePart;
}.

Definition validFileReferencePath (value : string) : bool :=
  lenBetween 1 value 1024 && ValidString value && negb (HasPrefix value "/") && negb (ContainsAny value [92])
  && negb (ContainsAny value [0])
  && bool_decide (length (Split value 47) ≤ 32)%nat
  && forallb (λ part, bool_decide (part ∉ [""; "."; ".."])) (Split value 47).

Definition validFileReferenceOpaqueVersion (value : string) : bool :=
  lenBetween 1 value 256 && ValidString value && negb (ContainsAny value [0]).

Definition validFileReferenceMediaType (value : option string) : bool :=
  match value with
  | None => true
  | Some v => lenBetween 1 v 127 && forallb (λ ch, between 0x20 ch 0x7E) (runesOf v)
  end.

(** The members of a [file_reference] part. *)
Record ReferencePart := mkReferencePart {
  rp_path : string;
  rp_version : string;
  rp_digest : string;
  rp_part : FileReferencePart;
}.

Definition readFileReferencePart (fs : fields) : option ReferencePart :=
  _ ← when (bool_decide (length fs = 7%nat)
            && only ["kind"; "disposition"; "path"; "version"; "content_digest"; "bytes"; "media_type"] fs);
  disposition ← asField "disposition" fs;
  path ← asField "path" fs;
  version ← asField "version" fs;
  digest ← asField "content_digest" fs;
  bytes ← asField "bytes" fs;
  mediaType ← asField "media_type" fs;
  _ ← when (bool_decide (disposition ∈ ["file"; "image"]) && validFileReferencePath path
            && validFileReferenceOpaqueVersion version && validFileReferenceFingerprint digest
            && between 0 bytes 10485760 && validFileReferenceMediaType mediaType);
  Some (mkReferencePart path version digest (mkFileReferencePart disposition bytes mediaType)).

Definition decodeFileReferencePart (fs : fields) : option FileReferencePart := rp_part <$> readFileReferencePart fs.

(** One part of the content: its kind, its members, and its canonical text. *)
Definition contentPart (part : raw) : option (string * fields * string) :=
  fs ← strictObject (text part);
  kind ← asField "kind" fs;
  Some (kind, fs, marshalMap fs).

Definition isReference (p : string * fields * string) : bool := bool_decide (p.1.1 = "file_reference").

(** A part beside references: exactly a text. *)
Definition textPart (fs : fields) : bool :=
  bool_decide (length fs = 2%nat) && bool_decide ((asField "text" fs : option string) ≠ None)
  && bool_decide ((asField "kind" fs : option string) = Some "text").

Definition noReferences : FileReferenceSendPayload := mkFileReferenceSend "" "" 0 false [].

(** The text the request fingerprint is taken of. *)
Definition canonicalSend (parts : list string) (capabilityFingerprint : string) : string :=
  marshalStruct [("content", marshalArray (compactText <$> parts));
                 ("capability_fingerprint", marshalString capabilityFingerprint)].

Definition DecodeFileReferenceSendPayload (payload : string) : option FileReferenceSendPayload :=
  fs ← strictObject payload;
  match get "content" fs ≫= asList with
  | None => Some noReferences
  | Some raws =>
      parts ← mapM contentPart raws;
      references ← mapM (λ p : string * fields * string, decodeFileReferencePart p.1.2) (List.filter isReference parts);
      match references with
      | [] => Some noReferences
      | _ =>
          _ ← when (forallb (λ p, isReference p || textPart p.1.2) parts);
          _ ← when (bool_decide (length fs = 2%nat));
          fp ← asField "capability_fingerprint" fs;
          _ ← when (validFileReferenceFingerprint fp && bool_decide (length references ≤ 8)%nat
                    && only ["content"; "capability_fingerprint"] fs);
          let canonical := canonicalSend (snd <$> parts) fp in
          _ ← when (bool_decide (len canonical ≤ 8192));
          Some (mkFileReferenceSend fp (fingerprint (bytes_of canonical)) (Z.of_nat (length references)) true references)
      end
  end.

(** ** Outcomes of file references *)

Record FileReferenceOutcomePayload := mkFileReferenceOutcome {
  fo_MessageID : string;
  fo_CommandID : string;
  fo_Outcome : string;
  fo_ReferenceIndex : option Z;
  fo_Reason : option string;
}.

Definition validFileReferenceRejectionReason (reason : string) : bool :=
  bool_decide (reason ∈ ["missing"; "removed"; "stale_reference"; "size_changed"; "media_type_changed";
                         "image_unsupported"; "provider_unsupported"; "unsafe_path"; "quarantined"; "access_denied"]).

Definition validFileReferenceOutcome (o : FileReferenceOutcomePayload) : bool :=
  validSettingsCommandID (fo_MessageID o) && validSettingsCommandID (fo_CommandID o)
  && (if bool_decide (fo_Outcome o = "delivered") then
        bool_decide (fo_ReferenceIndex o = None) && bool_decide (fo_Reason o = None)
      else if bool_decide (fo_Outcome o = "outcome_unknown") then
        bool_decide (fo_ReferenceIndex o = None)
        && match fo_Reason o with
           | Some reason => bool_decide (reason ∈ ["delivery_unconfirmed"; "writer_lost"; "adapter_deadline"])
           | None => false
           end
      else if bool_decide (fo_Outcome o = "rejected") then
        match fo_ReferenceIndex o, fo_Reason o with
        | Some index, Some reason => bool_decide (0 ≤ index) && validFileReferenceRejectionReason reason
        | _, _ => false
        end
      else false).

Definition DecodeFileReferenceOutcomePayload (payload : string) : option FileReferenceOutcomePayload :=
  fs ← strictObject payload;
  _ ← when (bool_decide (length fs = 5%nat)
            && only ["message_id"; "cmd_id"; "outcome"; "reference_index"; "reason"] fs);
  message ← asField "message_id" fs;
  cmd ← asField "cmd_id" fs;
  outcome ← asField "outcome" fs;
  index ← asField "reference_index" fs;
  reason ← asField "reason" fs;
  let o := mkFileReferenceOutcome message cmd outcome index reason in
  if validFileReferenceOutcome o then Some o else None.

(** ** Attach grants *)

Definition DecodeAttachGrantPayload (payload : string) : option string :=
  _ ← when (lenBetween 1 payload (MaxAttachGrantBytes + 32));
  fs ← strictObject payload;
  _ ← when (bool_decide (length fs = 1%nat));
  grant ← asField "grant" fs;
  _ ← when (lenBetween 1 grant MaxAttachGrantBytes);
  Some grant.

(** ** Encrypted content *)

Record EncryptedContentPayload := mkEncryptedContent {
  ec_Version : Z;
  ec_Scope : string;
  ec_KeyID : string;
  ec_Sender : string;
  ec_MessageID : string;
  ec_Type : string;
  ec_Nonce : string;
  ec_Ciphertext : string;
  ec_Signature : string;
}.

Definition content_names : list string :=
  ["version"; "scope"; "key_id"; "sender"; "message_id"; "type"; "nonce"; "ciphertext"; "signature"].

Definition decodeContentFields (ms : fields) : option EncryptedContentPayload :=
  version ← member content_names "version" ms 0;
  scope ← member content_names "scope" ms "";
  key ← member content_names "key_id" ms "";
  sender ← member content_names "sender" ms "";
  message ← member content_names "message_id" ms "";
  type ← member content_names "type" ms "";
  nonce ← member content_names "nonce" ms "";
  ciphertext ← member content_names "ciphertext" ms "";
  signature ← member content_names "signature" ms "";
  Some (mkEncryptedContent version scope key sender message type nonce ciphertext signature).

Definition DecodeEncryptedContentPayload (data : string) : option EncryptedContentPayload :=
  _ ← when (bool_decide (len data ≤ 48 * 1024));
  fs ← strictObject data;
  _ ← when (bool_decide (length fs = 9%nat)
            && forallb (λ k, match get k fs with Some r => negb (isNull r) | None => false end) content_names);
  p ← decodeContentFields fs;
  _ ← when (bool_decide (ec_Version p = 1) && bool_decide (ec_Scope p ∈ ["command"; "event"; "launch"])
            && EncryptedPacket.validProtocolIdentifier (ec_KeyID p) && EncryptedPacket.validProtocolIdentifier (ec_Sender p)
            && EncryptedPacket.validProtocolIdentifier (ec_MessageID p) && EncryptedPacket.validProtocolIdentifier (ec_Type p)
            && EncryptedPacket.validBase64URL (ec_Nonce p) 12 12
            && EncryptedPacket.validBase64URL (ec_Ciphertext p) 16 (32768 + 16)
            && EncryptedPacket.validBase64URL (ec_Signature p) 64 64);
  Some p.

End CodecPayloads.
