(* ===== verification/EncryptedRequests.v ===== *)
(** * Requests carried between endpoints

    [protocol/encrypted_file.go], [encrypted_launch.go],
    [encrypted_pairing.go], [session_initialization.go] and
    [trusted_key_request.go]: what the Hub checks of requests whose content
    only endpoints can open, and the payloads endpoints read once they are
    decrypted. *)

From S2P Require Import Prelude StoreApi Json Wire GoText EncryptedPacket CodecPayloads.
From stdpp Require Import base strings list option.
#[local] Open Scope Z_scope.

Module EncryptedRequests.
Import Json Wire GoText CodecPayloads.
Import EncryptedPacket(validProtocolIdentifier, validBase64URL).

(** ** File requests *)

Definition safeEncryptedPath (path : string) (allowDot : bool) : bool :=
  if bool_decide (path = ".") then allowDot
  else lenBetween 1 path 4096 && negb (HasPrefix path "/") && negb (ContainsAny path [92])
       && negb (ContainsAny path [0; 13; 10])
       && forallb (λ component, bool_decide (component ∉ [""; "."; ".."])) (Split path 47).

Definition decodePath (data : string) (allowDot : bool) : option string :=
  fs ← strictObject data;
  _ ← when (bool_decide (length fs = 1%nat));
  path ← asField "path" fs;
  _ ← when (safeEncryptedPath path allowDot);
  Some path.

Definition DecodeEncryptedFileReadRequest (data : string) : option string := decodePath data false.
Definition DecodeEncryptedFileListRequest (data : string) : option string := decodePath data true.

(** ** Launch settings *)

Record EncryptedLaunchSettings := mkLaunch {
  l_Provider : string;
  l_WorkingDirectory : string;
  l_WorkingDirectoryID : string;
  l_ModelID : string;
  l_ReasoningEffortID : string;
  l_PermissionModeID : string;
}.

Definition noLaunch : EncryptedLaunchSettings := mkLaunch "" "" "" "" "" "".

Definition directoryRune (c : Z) : bool := upper c || lower c || digit c || bool_decide (c ∈ [95; 45]).

Definition validDirectoryIdentityID (value : string) : bool :=
  HasPrefix value "dir_v1_" && bool_decide (len value = len "dir_v1_" + 22)
  && forallb directoryRune (runesOf (TrimPrefix value "dir_v1_")).

(** One member of the [launch] object. *)
Definition launchSetting (m : string * raw) (s : EncryptedLaunchSettings) : option EncryptedLaunchSettings :=
  let '(name, value) := m in
  text ← (if isNull value then None else unmarshal value "");
  let '(mkLaunch provider directory identity model effort mode) := s in
  if bool_decide (name = "provider") then
    _ ← when (validSettingsIdentifier text); Some (mkLaunch text directory identity model effort mode)
  else if bool_decide (name = "working_directory") then
    _ ← when (bool_decide (len text ≤ 4096) && negb (ContainsAny text [0; 13; 10]));
    Some (mkLaunch provider text identity model effort mode)
  else if bool_decide (name = "working_directory_id") then
    _ ← when (validDirectoryIdentityID text); Some (mkLaunch provider directory text model effort mode)
  else if bool_decide (name = "model_id") then
    _ ← when (validSettingsIdentifier text); Some (mkLaunch provider directory identity text effort mode)
  else if bool_decide (name = "reasoning_effort_id") then
    _ ← when (validSettingsIdentifier text); Some (mkLaunch provider directory identity model text mode)
  else if bool_decide (name = "permission_mode_id") then
    _ ← when (validSettingsIdentifier text); Some (mkLaunch provider directory identity model effort text)
  else None.

Fixpoint launchSettings (ms : fields) (s : EncryptedLaunchSettings) : option EncryptedLaunchSettings :=
  match ms with
  | [] => Some s
  | m :: ms => s ← launchSetting m s; launchSettings ms s
  end.

Definition DecodeEncryptedLaunchSettings (payload : string) : option EncryptedLaunchSettings :=
  fs ← strictObject payload;
  match get "launch" fs with
  | None => Some noLaunch
  | Some r =>
      launch ← strictObject (text r);
      s ← launchSettings launch noLaunch;
      _ ← when (bool_decide (l_WorkingDirectory s = "") || bool_decide (l_WorkingDirectoryID s = ""));
      Some s
  end.

(** ** Relayed key material *)

(** [encryptedObject]: exactly the named members. *)
Definition exactly (data : string) (names : list string) : option fields :=
  fs ← strictObject data;
  _ ← when (bool_decide (length fs = length names) && forallb (λ n, has n fs) names);
  Some fs.

Record EncryptedPairingRequest := mkPairing { pr_Enc : string; pr_Ciphertext : string }.

Definition DecodeEncryptedPairingRequest (data : string) : option EncryptedPairingRequest :=
  _ ← when (bool_decide (len data ≤ 2048));
  fs ← exactly data ["enc"; "ciphertext"];
  enc ← asField "enc" fs;
  ciphertext ← asField "ciphertext" fs;
  _ ← when (validBase64URL enc 65 65 && validBase64URL ciphertext 16 1024);
  Some (mkPairing enc ciphertext).

Definition DecodeSessionKeyResponse (data : string) : option EncryptedPairingRequest :=
  _ ← when (bool_decide (len data ≤ 1024));
  response ← DecodeEncryptedPairingRequest data;
  _ ← when (validBase64URL (pr_Ciphertext response) 48 48);
  Some response.

Record SessionInitialization := mkInitialization {
  si_Machine : string;
  si_Account : string;
  si_Session : string;
  si_KeyID : string;
  si_Device : string;
  si_Signature : string;
}.

Definition readInitialization (data : string) : option SessionInitialization :=
  fs ← exactly data ["machine"; "account"; "session"; "key_id"; "device"; "signature"];
  machine ← asField "machine" fs;
  account ← asField "account" fs;
  session ← asField "session" fs;
  key ← asField "key_id" fs;
  device ← asField "device" fs;
  signature ← asField "signature" fs;
  Some (mkInitialization machine account session key device signature).

Definition DecodeSessionInitialization (data machine session : string) : option SessionInitialization :=
  _ ← when (bool_decide (len data ≤ 2048) && validProtocolIdentifier machine && validProtocolIdentifier session);
  r ← readInitialization data;
  _ ← when (bool_decide (si_Machine r = machine) && bool_decide (si_Session r = session)
            && validProtocolIdentifier (si_Account r) && validProtocolIdentifier (si_KeyID r)
            && validProtocolIdentifier (si_Device r) && validBase64URL (si_Signature r) 64 64);
  Some r.

Definition DecodeSessionKeyRequest (data machine session device keyID : string) : option SessionInitialization :=
  _ ← when (bool_decide (len data ≤ 2048) && validProtocolIdentifier machine && validProtocolIdentifier session
            && validProtocolIdentifier device && validProtocolIdentifier keyID);
  r ← readInitialization data;
  _ ← when (bool_decide (si_Machine r = machine) && bool_decide (si_Session r = session)
            && bool_decide (si_Device r = device) && bool_decide (si_KeyID r = keyID)
            && validProtocolIdentifier (si_Account r) && validBase64URL (si_Signature r) 64 64);
  Some r.

Record TrustedSessionKeyRequest := mkTrusted {
  tr_Machine : string;
  tr_Account : string;
  tr_Session : string;
  tr_KeyID : string;
  tr_Device : string;
  tr_SigningKey : string;
  tr_WrappingKey : string;
  tr_Signature : string;
}.

Definition DecodeTrustedSessionKeyRequest (data machine session device keyID : string) : option TrustedSessionKeyRequest :=
  _ ← when (bool_decide (len data ≤ 4096) && validProtocolIdentifier machine && validProtocolIdentifier session
            && validProtocolIdentifier device && validProtocolIdentifier keyID);
  fs ← exactly data ["machine"; "account"; "session"; "key_id"; "device"; "signing_key"; "wrapping_key"; "signature"];
  machine' ← asField "machine" fs;
  account ← asField "account" fs;
  session' ← asField "session" fs;
  key ← asField "key_id" fs;
  device' ← asField "device" fs;
  signing ← asField "signing_key" fs;
  wrapping ← asField "wrapping_key" fs;
  signature ← asField "signature" fs;
  _ ← when (bool_decide (machine' = machine) && bool_decide (session' = session) && bool_decide (device' = device)
            && bool_decide (key = keyID) && validProtocolIdentifier account && validBase64URL signing 32 32
            && validBase64URL wrapping 65 65 && validBase64URL signature 64 64);
  Some (mkTrusted machine' account session' key device' signing wrapping signature).

End EncryptedRequests.
