(* ===== verification/Frames.v ===== *)
(** * Protocol frames

    The frame types of [protocol/codec.go] as records, with the fields in the
    order of the source and the JSON names and [omitempty] options of their
    struct tags: [x_fields] prints the fields of a frame, [x_decode] decodes the
    members of an object into one. *)

From S2P Require Import Prelude Json Wire.
From stdpp Require Import base strings list option.
#[local] Open Scope Z_scope.

Module Frames.
Import Json Wire.

Definition ProtocolVersion : Z := 1.
Definition ProtocolVersionV2 : Z := 2.

Record Subscription := mkSubscription {
  sub_SessionID : string;
  sub_LastSeq : Z;
  sub_SkipReplay : bool;
}.

Definition sub_fields (v : Subscription) : list (option (list (string * string))) :=
  [out "session_id" (sub_SessionID v); out "last_seq" (sub_LastSeq v);
   outNonEmpty "skip_replay" (sub_SkipReplay v)].

Definition sub_names : list string :=
  ["session_id"; "last_seq"; "skip_replay"].

Definition sub_decode (ms : fields) (old : Subscription) : option Subscription :=
  v0 ← member sub_names "session_id" ms (sub_SessionID old);
  v1 ← member sub_names "last_seq" ms (sub_LastSeq old);
  v2 ← member sub_names "skip_replay" ms (sub_SkipReplay old);
  Some (mkSubscription v0 v1 v2).

#[global] Instance sub_json : GoJson Subscription := {
  zero := mkSubscription zero zero zero;
  isEmpty _ := false;
  unmarshal := unmarshalStruct sub_decode;
  marshal v := struct (sub_fields v);
}.

Record Hello := mkHello {
  h_ProtocolVersion : Z;
  h_Role : string;
  h_Token : string;
  h_Subscriptions : slice Subscription;
  h_SessionID : string;
  h_Provider : string;
  h_Resume : bool;
  h_ContentMode : string;
}.

Definition h_fields (v : Hello) : list (option (list (string * string))) :=
  [out "protocol_version" (h_ProtocolVersion v); out "role" (h_Role v); out "token" (h_Token v);
   outNonEmpty "subscriptions" (h_Subscriptions v); outNonEmpty "session_id" (h_SessionID v);
   outNonEmpty "provider" (h_Provider v); outNonEmpty "resume" (h_Resume v);
   outNonEmpty "content_mode" (h_ContentMode v)].

Definition h_names : list string :=
  ["protocol_version"; "role"; "token"; "subscriptions"; "session_id"; "provider"; "resume";
   "content_mode"].

Definition h_decode (ms : fields) (old : Hello) : option Hello :=
  v0 ← member h_names "protocol_version" ms (h_ProtocolVersion old);
  v1 ← member h_names "role" ms (h_Role old);
  v2 ← member h_names "token" ms (h_Token old);
  v3 ← member h_names "subscriptions" ms (h_Subscriptions old);
  v4 ← member h_names "session_id" ms (h_SessionID old);
  v5 ← member h_names "provider" ms (h_Provider old);
  v6 ← member h_names "resume" ms (h_Resume old);
  v7 ← member h_names "content_mode" ms (h_ContentMode old);
  Some (mkHello v0 v1 v2 v3 v4 v5 v6 v7).

#[global] Instance h_json : GoJson Hello := {
  zero := mkHello zero zero zero zero zero zero zero zero;
  isEmpty _ := false;
  unmarshal := unmarshalStruct h_decode;
  marshal v := struct (h_fields v);
}.

Record HistoryPageCapability := mkHistoryPageCapability {
  hpc_MaxLimit : Z;
}.

Definition hpc_fields (v : HistoryPageCapability) : list (option (list (string * string))) :=
  [out "max_limit" (hpc_MaxLimit v)].

Definition hpc_names : list string :=
  ["max_limit"].

Definition hpc_decode (ms : fields) (old : HistoryPageCapability) : option HistoryPageCapability :=
  v0 ← member hpc_names "max_limit" ms (hpc_MaxLimit old);
  Some (mkHistoryPageCapability v0).

#[global] Instance hpc_json : GoJson HistoryPageCapability := {
  zero := mkHistoryPageCapability zero;
  isEmpty _ := false;
  unmarshal := unmarshalStruct hpc_decode;
  marshal v := struct (hpc_fields v);
}.

Record AttentionSummaryCapability := mkAttentionSummaryCapability {
  asc_MaxSessions : Z;
}.

Definition asc_fields (v : AttentionSummaryCapability) : list (option (list (string * string))) :=
  [out "max_sessions" (asc_MaxSessions v)].

Definition asc_names : list string :=
  ["max_sessions"].

Definition asc_decode (ms : fields) (old : AttentionSummaryCapability) : option AttentionSummaryCapability :=
  v0 ← member asc_names "max_sessions" ms (asc_MaxSessions old);
  Some (mkAttentionSummaryCapability v0).

#[global] Instance asc_json : GoJson AttentionSummaryCapability := {
  zero := mkAttentionSummaryCapability zero;
  isEmpty _ := false;
  unmarshal := unmarshalStruct asc_decode;
  marshal v := struct (asc_fields v);
}.

Record SettingsCapability := mkSettingsCapability {
  stc_SchemaVersion : Z;
  stc_MaxPendingChanges : Z;
  stc_ProviderResponseTimeoutSeconds : Z;
}.

Definition stc_fields (v : SettingsCapability) : list (option (list (string * string))) :=
  [out "schema_version" (stc_SchemaVersion v); out "max_pending_changes" (stc_MaxPendingChanges v);
   out "provider_response_timeout_seconds" (stc_ProviderResponseTimeoutSeconds v)].

Definition stc_names : list string :=
  ["schema_version"; "max_pending_changes"; "provider_response_timeout_seconds"].

Definition stc_decode (ms : fields) (old : SettingsCapability) : option SettingsCapability :=
  v0 ← member stc_names "schema_version" ms (stc_SchemaVersion old);
  v1 ← member stc_names "max_pending_changes" ms (stc_MaxPendingChanges old);
  v2 ← member stc_names "provider_response_timeout_seconds" ms (stc_ProviderResponseTimeoutSeconds old);
  Some (mkSettingsCapability v0 v1 v2).

#[global] Instance stc_json : GoJson SettingsCapability := {
  zero := mkSettingsCapability zero zero zero;
  isEmpty _ := false;
  unmarshal := unmarshalStruct stc_decode;
  marshal v := struct (stc_fields v);
}.

Record RunControlCapability := mkRunControlCapability {
  rcc_SchemaVersion : Z;
  rcc_MaxPending : Z;
  rcc_CompletionTimeoutSeconds : Z;
}.

Definition rcc_fields (v : RunControlCapability) : list (option (list (string * string))) :=
  [out "schema_version" (rcc_SchemaVersion v); out "max_pending" (rcc_MaxPending v);
   out "completion_timeout_seconds" (rcc_CompletionTimeoutSeconds v)].

Definition rcc_names : list string :=
  ["schema_version"; "max_pending"; "completion_timeout_seconds"].

Definition rcc_decode (ms : fields) (old : RunControlCapability) : option RunControlCapability :=
  v0 ← member rcc_names "schema_version" ms (rcc_SchemaVersion old);
  v1 ← member rcc_names "max_pending" ms (rcc_MaxPending old);
  v2 ← member rcc_names "completion_timeout_seconds" ms (rcc_CompletionTimeoutSeconds old);
  Some (mkRunControlCapability v0 v1 v2).

#[global] Instance rcc_json : GoJson RunControlCapability := {
  zero := mkRunControlCapability zero zero zero;
  isEmpty _ := false;
  unmarshal := unmarshalStruct rcc_decode;
  marshal v := struct (rcc_fields v);
}.

Record FileReferenceHelloCapability := mkFileReferenceHelloCapability {
  frc_SchemaVersion : Z;
  frc_MaxReferences : Z;
  frc_MaxMetadataBytes : Z;
}.

Definition frc_fields (v : FileReferenceHelloCapability) : list (option (list (string * string))) :=
  [out "schema_version" (frc_SchemaVersion v); out "max_references" (frc_MaxReferences v);
   out "max_metadata_bytes" (frc_MaxMetadataBytes v)].

Definition frc_names : list string :=
  ["schema_version"; "max_references"; "max_metadata_bytes"].

Definition frc_decode (ms : fields) (old : FileReferenceHelloCapability) : option FileReferenceHelloCapability :=
  v0 ← member frc_names "schema_version" ms (frc_SchemaVersion old);
  v1 ← member frc_names "max_references" ms (frc_MaxReferences old);
  v2 ← member frc_names "max_metadata_bytes" ms (frc_MaxMetadataBytes old);
  Some (mkFileReferenceHelloCapability v0 v1 v2).

#[global] Instance frc_json : GoJson FileReferenceHelloCapability := {
  zero := mkFileReferenceHelloCapability zero zero zero;
  isEmpty _ := false;
  unmarshal := unmarshalStruct frc_decode;
  marshal v := struct (frc_fields v);
}.

Record HelloCapabilities := mkHelloCapabilities {
  hc_HistoryPage : option HistoryPageCapability;
  hc_AttentionSummary : option AttentionSummaryCapability;
  hc_Settings : option SettingsCapability;
  hc_RunControl : option RunControlCapability;
  hc_FileReferences : option FileReferenceHelloCapability;
}.

Definition hc_fields (v : HelloCapabilities) : list (option (list (string * string))) :=
  [outNonEmpty "history_page" (hc_HistoryPage v);
   outNonEmpty "attention_summary" (hc_AttentionSummary v); outNonEmpty "settings" (hc_Settings v);
   outNonEmpty "run_control" (hc_RunControl v); outNonEmpty "file_references" (hc_FileReferences v)].

Definition hc_names : list string :=
  ["history_page"; "attention_summary"; "settings"; "run_control"; "file_references"].

Definition hc_decode (ms : fields) (old : HelloCapabilities) : option HelloCapabilities :=
  v0 ← member hc_names "history_page" ms (hc_HistoryPage old);
  v1 ← member hc_names "attention_summary" ms (hc_AttentionSummary old);
  v2 ← member hc_names "settings" ms (hc_Settings old);
  v3 ← member hc_names "run_control" ms (hc_RunControl old);
  v4 ← member hc_names "file_references" ms (hc_FileReferences old);
  Some (mkHelloCapabilities v0 v1 v2 v3 v4).

#[global] Instance hc_json : GoJson HelloCapabilities := {
  zero := mkHelloCapabilities zero zero zero zero zero;
  isEmpty _ := false;
  unmarshal := unmarshalStruct hc_decode;
  marshal v := struct (hc_fields v);
}.

Record ConnectionAuthorityReceipt := mkConnectionAuthorityReceipt {
  car_SessionID : string;
  car_ConnectionEpoch : Z;
  car_CredentialGeneration : Z;
  car_AcceptedFence : Z;
  car_WriterLeaseID : string;
  car_ExpiresAt : Z;
}.

Definition car_fields (v : ConnectionAuthorityReceipt) : list (option (list (string * string))) :=
  [out "session_id" (car_SessionID v); out "connection_epoch" (car_ConnectionEpoch v);
   out "credential_generation" (car_CredentialGeneration v);
   out "accepted_fence" (car_AcceptedFence v); out "writer_lease_id" (car_WriterLeaseID v);
   out "expires_at" (car_ExpiresAt v)].

Definition car_names : list string :=
  ["session_id"; "connection_epoch"; "credential_generation"; "accepted_fence"; "writer_lease_id";
   "expires_at"].

Definition car_decode (ms : fields) (old : ConnectionAuthorityReceipt) : option ConnectionAuthorityReceipt :=
  v0 ← member car_names "session_id" ms (car_SessionID old);
  v1 ← member car_names "connection_epoch" ms (car_ConnectionEpoch old);
  v2 ← member car_names "credential_generation" ms (car_CredentialGeneration old);
  v3 ← member car_names "accepted_fence" ms (car_AcceptedFence old);
  v4 ← member car_names "writer_lease_id" ms (car_WriterLeaseID old);
  v5 ← member car_names "expires_at" ms (car_ExpiresAt old);
  Some (mkConnectionAuthorityReceipt v0 v1 v2 v3 v4 v5).

#[global] Instance car_json : GoJson ConnectionAuthorityReceipt := {
  zero := mkConnectionAuthorityReceipt zero zero zero zero zero zero;
  isEmpty _ := false;
  unmarshal := unmarshalStruct car_decode;
  marshal v := struct (car_fields v);
}.

Record SessionSummary := mkSessionSummary {
  ss_SessionID : string;
  ss_State : string;
  ss_Provider : string;
  ss_LatestSeq : Z;
  ss_ReplayFrom : Z;
}.

Definition ss_fields (v : SessionSummary) : list (option (list (string * string))) :=
  [out "session_id" (ss_SessionID v); out "state" (ss_State v); out "provider" (ss_Provider v);
   out "latest_seq" (ss_LatestSeq v); out "replay_from" (ss_ReplayFrom v)].

Definition ss_names : list string :=
  ["session_id"; "state"; "provider"; "latest_seq"; "replay_from"].

Definition ss_decode (ms : fields) (old : SessionSummary) : option SessionSummary :=
  v0 ← member ss_names "session_id" ms (ss_SessionID old);
  v1 ← member ss_names "state" ms (ss_State old);
  v2 ← member ss_names "provider" ms (ss_Provider old);
  v3 ← member ss_names "latest_seq" ms (ss_LatestSeq old);
  v4 ← member ss_names "replay_from" ms (ss_ReplayFrom old);
  Some (mkSessionSummary v0 v1 v2 v3 v4).

#[global] Instance ss_json : GoJson SessionSummary := {
  zero := mkSessionSummary zero zero zero zero zero;
  isEmpty _ := false;
  unmarshal := unmarshalStruct ss_decode;
  marshal v := struct (ss_fields v);
}.

Record HelloAck := mkHelloAck {
  ha_ContentMode : string;
  ha_ProtocolVersion : Z;
  ha_Sessions : slice SessionSummary;
  ha_Capabilities : option HelloCapabilities;
  ha_ConnectionAuthority : option ConnectionAuthorityReceipt;
}.

Definition ha_fields (v : HelloAck) : list (option (list (string * string))) :=
  [outNonEmpty "content_mode" (ha_ContentMode v); out "protocol_version" (ha_ProtocolVersion v);
   out "sessions" (ha_Sessions v); outNonEmpty "capabilities" (ha_Capabilities v);
   outNonEmpty "connection_authority" (ha_ConnectionAuthority v)].

Definition ha_names : list string :=
  ["content_mode"; "protocol_version"; "sessions"; "capabilities"; "connection_authority"].

Definition ha_decode (ms : fields) (old : HelloAck) : option HelloAck :=
  v0 ← member ha_names "content_mode" ms (ha_ContentMode old);
  v1 ← member ha_names "protocol_version" ms (ha_ProtocolVersion old);
  v2 ← member ha_names "sessions" ms (ha_Sessions old);
  v3 ← member ha_names "capabilities" ms (ha_Capabilities old);
  v4 ← member ha_names "connection_authority" ms (ha_ConnectionAuthority old);
  Some (mkHelloAck v0 v1 v2 v3 v4).

#[global] Instance ha_json : GoJson HelloAck := {
  zero := mkHelloAck zero zero zero zero zero;
  isEmpty _ := false;
  unmarshal := unmarshalStruct ha_decode;
  marshal v := struct (ha_fields v);
}.

Record Event := mkEvent {
  ev_Type : string;
  ev_SessionID : string;
  ev_Seq : option Z;
  ev_Time : Z;
  ev_Payload : RawMessage;
  ev_ProposalID : string;
}.

Definition ev_fields (v : Event) : list (option (list (string * string))) :=
  [out "type" (ev_Type v); out "session_id" (ev_SessionID v); outNonEmpty "seq" (ev_Seq v);
   out "time" (ev_Time v); out "payload" (ev_Payload v); outNonEmpty "proposal_id" (ev_ProposalID v)].

Definition ev_names : list string :=
  ["type"; "session_id"; "seq"; "time"; "payload"; "proposal_id"].

Definition ev_decode (ms : fields) (old : Event) : option Event :=
  v0 ← member ev_names "type" ms (ev_Type old);
  v1 ← member ev_names "session_id" ms (ev_SessionID old);
  v2 ← member ev_names "seq" ms (ev_Seq old);
  v3 ← member ev_names "time" ms (ev_Time old);
  v4 ← member ev_names "payload" ms (ev_Payload old);
  v5 ← member ev_names "proposal_id" ms (ev_ProposalID old);
  Some (mkEvent v0 v1 v2 v3 v4 v5).

#[global] Instance ev_json : GoJson Event := {
  zero := mkEvent zero zero zero zero zero zero;
  isEmpty _ := false;
  unmarshal := unmarshalStruct ev_decode;
  marshal v := struct (ev_fields v);
}.

Record EventReceipt := mkEventReceipt {
  er_ProposalID : string;
  er_Seq : Z;
  er_Status : string;
}.

Definition er_fields (v : EventReceipt) : list (option (list (string * string))) :=
  [out "proposal_id" (er_ProposalID v); out "seq" (er_Seq v); out "status" (er_Status v)].

Record Command := mkCommand {
  cmd_CommandID : string;
  cmd_Type : string;
  cmd_SessionID : string;
  cmd_Payload : RawMessage;
}.

Definition cmd_fields (v : Command) : list (option (list (string * string))) :=
  [out "cmd_id" (cmd_CommandID v); out "type" (cmd_Type v); out "session_id" (cmd_SessionID v);
   out "payload" (cmd_Payload v)].

Definition cmd_names : list string :=
  ["cmd_id"; "type"; "session_id"; "payload"].

Definition cmd_decode (ms : fields) (old : Command) : option Command :=
  v0 ← member cmd_names "cmd_id" ms (cmd_CommandID old);
  v1 ← member cmd_names "type" ms (cmd_Type old);
  v2 ← member cmd_names "session_id" ms (cmd_SessionID old);
  v3 ← member cmd_names "payload" ms (cmd_Payload old);
  Some (mkCommand v0 v1 v2 v3).

#[global] Instance cmd_json : GoJson Command := {
  zero := mkCommand zero zero zero zero;
  isEmpty _ := false;
  unmarshal := unmarshalStruct cmd_decode;
  marshal v := struct (cmd_fields v);
}.

Record CommandAck := mkCommandAck {
  ca_CommandID : string;
  ca_Status : string;
  ca_Reason : string;
}.

Definition ca_fields (v : CommandAck) : list (option (list (string * string))) :=
  [out "cmd_id" (ca_CommandID v); out "status" (ca_Status v); out "reason" (ca_Reason v)].

Definition ca_names : list string :=
  ["cmd_id"; "status"; "reason"].

Definition ca_decode (ms : fields) (old : CommandAck) : option CommandAck :=
  v0 ← member ca_names "cmd_id" ms (ca_CommandID old);
  v1 ← member ca_names "status" ms (ca_Status old);
  v2 ← member ca_names "reason" ms (ca_Reason old);
  Some (mkCommandAck v0 v1 v2).

#[global] Instance ca_json : GoJson CommandAck := {
  zero := mkCommandAck zero zero zero;
  isEmpty _ := false;
  unmarshal := unmarshalStruct ca_decode;
  marshal v := struct (ca_fields v);
}.

Record Ping := mkPing {
  ping_Nonce : string;
}.

Definition ping_fields (v : Ping) : list (option (list (string * string))) :=
  [outNonEmpty "nonce" (ping_Nonce v)].

Definition ping_names : list string :=
  ["nonce"].

Definition ping_decode (ms : fields) (old : Ping) : option Ping :=
  v0 ← member ping_names "nonce" ms (ping_Nonce old);
  Some (mkPing v0).

#[global] Instance ping_json : GoJson Ping := {
  zero := mkPing zero;
  isEmpty _ := false;
  unmarshal := unmarshalStruct ping_decode;
  marshal v := struct (ping_fields v);
}.

Record Pong := mkPong {
  pong_Nonce : string;
}.

Definition pong_fields (v : Pong) : list (option (list (string * string))) :=
  [outNonEmpty "nonce" (pong_Nonce v)].

Definition pong_names : list string :=
  ["nonce"].

Definition pong_decode (ms : fields) (old : Pong) : option Pong :=
  v0 ← member pong_names "nonce" ms (pong_Nonce old);
  Some (mkPong v0).

#[global] Instance pong_json : GoJson Pong := {
  zero := mkPong zero;
  isEmpty _ := false;
  unmarshal := unmarshalStruct pong_decode;
  marshal v := struct (pong_fields v);
}.

Record ErrorFrame := mkErrorFrame {
  ef_Code : string;
  ef_Message : string;
  ef_Fatal : bool;
}.

Definition ef_fields (v : ErrorFrame) : list (option (list (string * string))) :=
  [out "code" (ef_Code v); out "message" (ef_Message v); outNonEmpty "fatal" (ef_Fatal v)].

Definition ef_names : list string :=
  ["code"; "message"; "fatal"].

Definition ef_decode (ms : fields) (old : ErrorFrame) : option ErrorFrame :=
  v0 ← member ef_names "code" ms (ef_Code old);
  v1 ← member ef_names "message" ms (ef_Message old);
  v2 ← member ef_names "fatal" ms (ef_Fatal old);
  Some (mkErrorFrame v0 v1 v2).

#[global] Instance ef_json : GoJson ErrorFrame := {
  zero := mkErrorFrame zero zero zero;
  isEmpty _ := false;
  unmarshal := unmarshalStruct ef_decode;
  marshal v := struct (ef_fields v);
}.

Record TargetJoin := mkTargetJoin {
  tj_ProtocolVersion : Z;
  tj_JoinNonce : string;
}.

Definition tj_fields (v : TargetJoin) : list (option (list (string * string))) :=
  [out "protocol_version" (tj_ProtocolVersion v); out "join_nonce" (tj_JoinNonce v)].

Record TargetJoinChallenge := mkTargetJoinChallenge {
  tjc_TargetSessionID : string;
  tjc_JoinNonce : string;
  tjc_ExpiresAt : Z;
}.

Definition tjc_fields (v : TargetJoinChallenge) : list (option (list (string * string))) :=
  [out "target_session_id" (tjc_TargetSessionID v); out "join_nonce" (tjc_JoinNonce v);
   out "expires_at" (tjc_ExpiresAt v)].

Record TargetJoinCredential := mkTargetJoinCredential {
  tjd_Credential : string;
  tjd_TargetSessionID : string;
  tjd_TargetCredentialLineageRef : string;
  tjd_Generation : Z;
  tjd_ExpiresAt : Z;
}.

Definition tjd_fields (v : TargetJoinCredential) : list (option (list (string * string))) :=
  [out "credential" (tjd_Credential v); out "target_session_id" (tjd_TargetSessionID v);
   out "target_credential_lineage_ref" (tjd_TargetCredentialLineageRef v);
   out "generation" (tjd_Generation v); out "expires_at" (tjd_ExpiresAt v)].

Record CredentialRotationRequest := mkCredentialRotationRequest {
  crr_RotationID : string;
}.

Definition crr_fields (v : CredentialRotationRequest) : list (option (list (string * string))) :=
  [out "rotation_id" (crr_RotationID v)].

Record CredentialRotationCredential := mkCredentialRotationCredential {
  crc_SessionID : string;
  crc_RotationID : string;
  crc_Generation : Z;
  crc_Credential : string;
  crc_ExpiresAt : Z;
}.

Definition crc_fields (v : CredentialRotationCredential) : list (option (list (string * string))) :=
  [out "session_id" (crc_SessionID v); out "rotation_id" (crc_RotationID v);
   out "generation" (crc_Generation v); out "credential" (crc_Credential v);
   out "expires_at" (crc_ExpiresAt v)].

Record CredentialRotationPossession := mkCredentialRotationPossession {
  crp_SessionID : string;
  crp_RotationID : string;
  crp_Generation : Z;
  crp_AcceptedEpoch : Z;
}.

Definition crp_fields (v : CredentialRotationPossession) : list (option (list (string * string))) :=
  [out "session_id" (crp_SessionID v); out "rotation_id" (crp_RotationID v);
   out "generation" (crp_Generation v); out "accepted_epoch" (crp_AcceptedEpoch v)].

Record CredentialRotationActivation := mkCredentialRotationActivation {
  cra_RotationID : string;
  cra_Generation : Z;
  cra_ConnectionEpoch : Z;
  cra_AcceptedFence : Z;
}.

Definition cra_fields (v : CredentialRotationActivation) : list (option (list (string * string))) :=
  [out "rotation_id" (cra_RotationID v); out "generation" (cra_Generation v);
   out "connection_epoch" (cra_ConnectionEpoch v); out "accepted_fence" (cra_AcceptedFence v)].

Record SettingsDeliveryExecute := mkSettingsDeliveryExecute {
  sde_SessionID : string;
  sde_CommandID : string;
  sde_ReservationVersion : Z;
  sde_OperationTimeoutMS : Z;
}.

Definition sde_fields (v : SettingsDeliveryExecute) : list (option (list (string * string))) :=
  [out "session_id" (sde_SessionID v); out "cmd_id" (sde_CommandID v);
   out "reservation_version" (sde_ReservationVersion v);
   out "operation_timeout_ms" (sde_OperationTimeoutMS v)].

Record ProviderStart := mkProviderStart {
  ps_Attempt : Z;
}.

Definition ps_fields (v : ProviderStart) : list (option (list (string * string))) :=
  [outNonEmpty "attempt" (ps_Attempt v)].

Record ProviderStartPrepare := mkProviderStartPrepare {
  psp_Attempt : Z;
}.

Definition psp_fields (v : ProviderStartPrepare) : list (option (list (string * string))) :=
  [outNonEmpty "attempt" (psp_Attempt v)].

Record ProviderStartStarted := mkProviderStartStarted {
  pss_Attempt : Z;
}.

Definition pss_fields (v : ProviderStartStarted) : list (option (list (string * string))) :=
  [outNonEmpty "attempt" (pss_Attempt v)].

Record ProviderStartAck := mkProviderStartAck {
  psa_Attempt : Z;
  psa_Status : string;
  psa_RecoveryHandle : string;
}.

Definition psa_fields (v : ProviderStartAck) : list (option (list (string * string))) :=
  [outNonEmpty "attempt" (psa_Attempt v); out "status" (psa_Status v);
   outNonEmpty "recovery_handle" (psa_RecoveryHandle v)].

Record HistoryPageRequest := mkHistoryPageRequest {
  hpq_RequestID : string;
  hpq_SessionID : string;
  hpq_BeforeSeq : option Z;
  hpq_Limit : Z;
}.

Definition hpq_fields (v : HistoryPageRequest) : list (option (list (string * string))) :=
  [out "request_id" (hpq_RequestID v); out "session_id" (hpq_SessionID v);
   outNonEmpty "before_seq" (hpq_BeforeSeq v); out "limit" (hpq_Limit v)].

Record HistoryPageEvent := mkHistoryPageEvent {
  hpe_Frame : string;
  hpe_Type : string;
  hpe_SessionID : string;
  hpe_Seq : Z;
  hpe_Time : Z;
  hpe_Payload : RawMessage;
}.

Definition hpe_fields (v : HistoryPageEvent) : list (option (list (string * string))) :=
  [out "frame" (hpe_Frame v); out "type" (hpe_Type v); out "session_id" (hpe_SessionID v);
   out "seq" (hpe_Seq v); out "time" (hpe_Time v); out "payload" (hpe_Payload v)].

Definition hpe_names : list string :=
  ["frame"; "type"; "session_id"; "seq"; "time"; "payload"].

Definition hpe_decode (ms : fields) (old : HistoryPageEvent) : option HistoryPageEvent :=
  v0 ← member hpe_names "frame" ms (hpe_Frame old);
  v1 ← member hpe_names "type" ms (hpe_Type old);
  v2 ← member hpe_names "session_id" ms (hpe_SessionID old);
  v3 ← member hpe_names "seq" ms (hpe_Seq old);
  v4 ← member hpe_names "time" ms (hpe_Time old);
  v5 ← member hpe_names "payload" ms (hpe_Payload old);
  Some (mkHistoryPageEvent v0 v1 v2 v3 v4 v5).

#[global] Instance hpe_json : GoJson HistoryPageEvent := {
  zero := mkHistoryPageEvent zero zero zero zero zero zero;
  isEmpty _ := false;
  unmarshal := unmarshalStruct hpe_decode;
  marshal v := struct (hpe_fields v);
}.

Record HistoryPageResponse := mkHistoryPageResponse {
  hpr_RequestID : string;
  hpr_SessionID : string;
  hpr_Events : slice HistoryPageEvent;
  hpr_LatestSeq : Z;
  hpr_NextBeforeSeq : option Z;
  hpr_RetentionState : string;
}.

Definition hpr_fields (v : HistoryPageResponse) : list (option (list (string * string))) :=
  [out "request_id" (hpr_RequestID v); out "session_id" (hpr_SessionID v);
   out "events" (hpr_Events v); out "latest_seq" (hpr_LatestSeq v);
   out "next_before_seq" (hpr_NextBeforeSeq v); out "retention_state" (hpr_RetentionState v)].

Record AttentionSubscribe := mkAttentionSubscribe {
  asb_RequestID : string;
}.

Definition asb_fields (v : AttentionSubscribe) : list (option (list (string * string))) :=
  [out "request_id" (asb_RequestID v)].

Record AttentionPermission := mkAttentionPermission {
  ap_ID : string;
  ap_Status : string;
}.

Definition ap_fields (v : AttentionPermission) : list (option (list (string * string))) :=
  [out "id" (ap_ID v); out "status" (ap_Status v)].

Definition ap_names : list string :=
  ["id"; "status"].

Definition ap_decode (ms : fields) (old : AttentionPermission) : option AttentionPermission :=
  v0 ← member ap_names "id" ms (ap_ID old);
  v1 ← member ap_names "status" ms (ap_Status old);
  Some (mkAttentionPermission v0 v1).

#[global] Instance ap_json : GoJson AttentionPermission := {
  zero := mkAttentionPermission zero zero;
  isEmpty _ := false;
  unmarshal := unmarshalStruct ap_decode;
  marshal v := struct (ap_fields v);
}.

Record AttentionBlocker := mkAttentionBlocker {
  ab_Kind : string;
  ab_Reason : option string;
  ab_ExpiresAt : option Z;
  ab_BlockingSessionID : option string;
  ab_Operation : option string;
}.

Definition ab_fields (v : AttentionBlocker) : list (option (list (string * string))) :=
  [out "kind" (ab_Kind v); outNonEmpty "reason" (ab_Reason v);
   outNonEmpty "expires_at" (ab_ExpiresAt v);
   outNonEmpty "blocking_session_id" (ab_BlockingSessionID v);
   outNonEmpty "operation" (ab_Operation v)].

Definition ab_names : list string :=
  ["kind"; "reason"; "expires_at"; "blocking_session_id"; "operation"].

Definition ab_decode (ms : fields) (old : AttentionBlocker) : option AttentionBlocker :=
  v0 ← member ab_names "kind" ms (ab_Kind old);
  v1 ← member ab_names "reason" ms (ab_Reason old);
  v2 ← member ab_names "expires_at" ms (ab_ExpiresAt old);
  v3 ← member ab_names "blocking_session_id" ms (ab_BlockingSessionID old);
  v4 ← member ab_names "operation" ms (ab_Operation old);
  Some (mkAttentionBlocker v0 v1 v2 v3 v4).

#[global] Instance ab_json : GoJson AttentionBlocker := {
  zero := mkAttentionBlocker zero zero zero zero zero;
  isEmpty _ := false;
  unmarshal := unmarshalStruct ab_decode;
  marshal v := struct (ab_fields v);
}.

Record AttentionSummary := mkAttentionSummary {
  as_SessionID : string;
  as_LatestSeq : Z;
  as_State : string;
  as_Permission : option AttentionPermission;
  as_TerminalOutcome : option string;
  as_LatestChangeSeq : option Z;
  as_Blocker : option AttentionBlocker;
  as_SummaryVersion : Z;
  as_SummaryState : string;
}.

Definition as_fields (v : AttentionSummary) : list (option (list (string * string))) :=
  [out "session_id" (as_SessionID v); out "latest_seq" (as_LatestSeq v); out "state" (as_State v);
   outNonEmpty "permission" (as_Permission v); outNonEmpty "terminal_outcome" (as_TerminalOutcome v);
   outNonEmpty "latest_change_seq" (as_LatestChangeSeq v); outNonEmpty "blocker" (as_Blocker v);
   out "summary_version" (as_SummaryVersion v); out "summary_state" (as_SummaryState v)].

Definition as_names : list string :=
  ["session_id"; "latest_seq"; "state"; "permission"; "terminal_outcome"; "latest_change_seq";
   "blocker"; "summary_version"; "summary_state"].

Definition as_decode (ms : fields) (old : AttentionSummary) : option AttentionSummary :=
  v0 ← member as_names "session_id" ms (as_SessionID old);
  v1 ← member as_names "latest_seq" ms (as_LatestSeq old);
  v2 ← member as_names "state" ms (as_State old);
  v3 ← member as_names "permission" ms (as_Permission old);
  v4 ← member as_names "terminal_outcome" ms (as_TerminalOutcome old);
  v5 ← member as_names "latest_change_seq" ms (as_LatestChangeSeq old);
  v6 ← member as_names "blocker" ms (as_Blocker old);
  v7 ← member as_names "summary_version" ms (as_SummaryVersion old);
  v8 ← member as_names "summary_state" ms (as_SummaryState old);
  Some (mkAttentionSummary v0 v1 v2 v3 v4 v5 v6 v7 v8).

#[global] Instance as_json : GoJson AttentionSummary := {
  zero := mkAttentionSummary zero zero zero zero zero zero zero zero zero;
  isEmpty _ := false;
  unmarshal := unmarshalStruct as_decode;
  marshal v := struct (as_fields v);
}.

Record AttentionSummaryFrame := mkAttentionSummaryFrame {
  asf_RequestID : string;
  asf_Kind : string;
  asf_SubscriptionState : string;
  asf_Summaries : slice AttentionSummary;
}.

Definition asf_fields (v : AttentionSummaryFrame) : list (option (list (string * string))) :=
  [out "request_id" (asf_RequestID v); out "kind" (asf_Kind v);
   out "subscription_state" (asf_SubscriptionState v); out "summaries" (asf_Summaries v)].

(** ** Frames *)

Inductive Frame :=
  | FHello (v : Hello)
  | FHelloAck (v : HelloAck)
  | FEvent (v : Event)
  | FEventReceipt (v : EventReceipt)
  | FCommand (v : Command)
  | FCommandAck (v : CommandAck)
  | FPing (v : Ping)
  | FPong (v : Pong)
  | FErrorFrame (v : ErrorFrame)
  | FHistoryPageRequest (v : HistoryPageRequest)
  | FHistoryPageResponse (v : HistoryPageResponse)
  | FAttentionSubscribe (v : AttentionSubscribe)
  | FAttentionSummaryFrame (v : AttentionSummaryFrame)
  | FTargetJoin (v : TargetJoin)
  | FTargetJoinChallenge (v : TargetJoinChallenge)
  | FTargetJoinCredential (v : TargetJoinCredential)
  | FCredentialRotationRequest (v : CredentialRotationRequest)
  | FCredentialRotationCredential (v : CredentialRotationCredential)
  | FCredentialRotationPossession (v : CredentialRotationPossession)
  | FCredentialRotationActivation (v : CredentialRotationActivation)
  | FSettingsDeliveryExecute (v : SettingsDeliveryExecute)
  | FProviderStart (v : ProviderStart)
  | FProviderStartPrepare (v : ProviderStartPrepare)
  | FProviderStartStarted (v : ProviderStartStarted)
  | FProviderStartAck (v : ProviderStartAck).

(** The method [FrameName] of each frame type. *)
Definition FrameName (f : Frame) : string :=
  match f with
  | FHello _ => "hello"
  | FHelloAck _ => "hello.ack"
  | FEvent _ => "event"
  | FEventReceipt _ => "event.receipt"
  | FCommand _ => "command"
  | FCommandAck _ => "command.ack"
  | FPing _ => "ping"
  | FPong _ => "pong"
  | FErrorFrame _ => "error"
  | FHistoryPageRequest _ => "history.page"
  | FHistoryPageResponse _ => "history.page"
  | FAttentionSubscribe _ => "attention.subscribe"
  | FAttentionSummaryFrame _ => "attention.summary"
  | FTargetJoin _ => "target.join"
  | FTargetJoinChallenge _ => "target.join.challenge"
  | FTargetJoinCredential _ => "target.join.credential"
  | FCredentialRotationRequest _ => "credential.rotation.request"
  | FCredentialRotationCredential _ => "credential.rotation.credential"
  | FCredentialRotationPossession _ => "credential.rotation.possession"
  | FCredentialRotationActivation _ => "credential.rotation.activation"
  | FSettingsDeliveryExecute _ => "settings.delivery.execute"
  | FProviderStart _ => "provider.start"
  | FProviderStartPrepare _ => "provider.start.prepare"
  | FProviderStartStarted _ => "provider.start.started"
  | FProviderStartAck _ => "provider.start.ack"
  end.

(** [json.Marshal] of a frame. *)
Definition marshalFrame (f : Frame) : option string :=
  struct match f with
  | FHello v => h_fields v
  | FHelloAck v => ha_fields v
  | FEvent v => ev_fields v
  | FEventReceipt v => er_fields v
  | FCommand v => cmd_fields v
  | FCommandAck v => ca_fields v
  | FPing v => ping_fields v
  | FPong v => pong_fields v
  | FErrorFrame v => ef_fields v
  | FHistoryPageRequest v => hpq_fields v
  | FHistoryPageResponse v => hpr_fields v
  | FAttentionSubscribe v => asb_fields v
  | FAttentionSummaryFrame v => asf_fields v
  | FTargetJoin v => tj_fields v
  | FTargetJoinChallenge v => tjc_fields v
  | FTargetJoinCredential v => tjd_fields v
  | FCredentialRotationRequest v => crr_fields v
  | FCredentialRotationCredential v => crc_fields v
  | FCredentialRotationPossession v => crp_fields v
  | FCredentialRotationActivation v => cra_fields v
  | FSettingsDeliveryExecute v => sde_fields v
  | FProviderStart v => ps_fields v
  | FProviderStartPrepare v => psp_fields v
  | FProviderStartStarted v => pss_fields v
  | FProviderStartAck v => psa_fields v
  end.

End Frames.
