(* ===== verification/FrameFields.v ===== *)
(** * The fields of the protocol's structs

    For every struct of [Frames] the list of its fields with their JSON names,
    and that the structs nested in frames are read back. *)

From S2P Require Import Prelude Json Wire JsonProofs WireProofs Printable Frames.
From stdpp Require Import base strings list option.
#[local] Open Scope Z_scope.

Module FrameFields.
Import Json Wire JsonProofs WireProofs Printable Frames.

Ltac solve_depth := cbn -[rawDepth maxNestingDepth]; pose proof rawDepth_max; unfold maxNestingDepth in *; lia.

Ltac solve_static := repeat (apply list.Forall_cons; split; [split; [vm_compute; reflexivity|solve_depth]|]); apply list.Forall_nil; exact I.

Ltac solve_NoDup := apply (bool_decide_unpack _); vm_compute; exact I.

(** The premises of [struct_printed] for one struct. *)
Ltac solve_struct :=
  try done; try solve_static; try solve_NoDup; try solve_depth;
  let ms := fresh "ms" in let Hk := fresh in let Hn := fresh in let Hr := fresh in
  intros ms Hk Hn Hr;
  lazymatch type of Hr with Forall _ (?desc _) => unfold desc in Hr end;
  lazymatch goal with |- ?decode ms zero = Some ?v => unfold decode; read_fields; by destruct v end.

Definition sub_desc (v : Subscription) : list fieldv :=
  [fv "session_id" false (sub_SessionID v); fv "last_seq" false (sub_LastSeq v);
   fv "skip_replay" true (sub_SkipReplay v)].

#[global] Program Instance sub_printable : Printable Subscription := {
  ok v := Forall fv_ok (sub_desc v); depth_of := S 0; nullable := false }.
Next Obligation.
  intros v. apply (struct_printed 0 (sub_desc v) v sub_decode); solve_struct.
Qed.

#[global] Instance sub_solid : Solid Subscription.
Proof. done. Qed.

#[global] Instance sub_slice_printable : Printable (slice Subscription).
Proof. apply slice_printable. solve_depth. Defined.

Definition h_desc (v : Hello) : list fieldv :=
  [fv "protocol_version" false (h_ProtocolVersion v); fv "role" false (h_Role v);
   fv "token" false (h_Token v); fv "subscriptions" true (h_Subscriptions v);
   fv "session_id" true (h_SessionID v); fv "provider" true (h_Provider v);
   fv "resume" true (h_Resume v); fv "content_mode" true (h_ContentMode v)].

Definition hpc_desc (v : HistoryPageCapability) : list fieldv :=
  [fv "max_limit" false (hpc_MaxLimit v)].

#[global] Program Instance hpc_printable : Printable HistoryPageCapability := {
  ok v := Forall fv_ok (hpc_desc v); depth_of := S 0; nullable := false }.
Next Obligation.
  intros v. apply (struct_printed 0 (hpc_desc v) v hpc_decode); solve_struct.
Qed.

#[global] Instance hpc_solid : Solid HistoryPageCapability.
Proof. done. Qed.

Definition asc_desc (v : AttentionSummaryCapability) : list fieldv :=
  [fv "max_sessions" false (asc_MaxSessions v)].

#[global] Program Instance asc_printable : Printable AttentionSummaryCapability := {
  ok v := Forall fv_ok (asc_desc v); depth_of := S 0; nullable := false }.
Next Obligation.
  intros v. apply (struct_printed 0 (asc_desc v) v asc_decode); solve_struct.
Qed.

#[global] Instance asc_solid : Solid AttentionSummaryCapability.
Proof. done. Qed.

Definition stc_desc (v : SettingsCapability) : list fieldv :=
  [fv "schema_version" false (stc_SchemaVersion v);
   fv "max_pending_changes" false (stc_MaxPendingChanges v);
   fv "provider_response_timeout_seconds" false (stc_ProviderResponseTimeoutSeconds v)].

#[global] Program Instance stc_printable : Printable SettingsCapability := {
  ok v := Forall fv_ok (stc_desc v); depth_of := S 0; nullable := false }.
Next Obligation.
  intros v. apply (struct_printed 0 (stc_desc v) v stc_decode); solve_struct.
Qed.

#[global] Instance stc_solid : Solid SettingsCapability.
Proof. done. Qed.

Definition rcc_desc (v : RunControlCapability) : list fieldv :=
  [fv "schema_version" false (rcc_SchemaVersion v); fv "max_pending" false (rcc_MaxPending v);
   fv "completion_timeout_seconds" false (rcc_CompletionTimeoutSeconds v)].

#[global] Program Instance rcc_printable : Printable RunControlCapability := {
  ok v := Forall fv_ok (rcc_desc v); depth_of := S 0; nullable := false }.
Next Obligation.
  intros v. apply (struct_printed 0 (rcc_desc v) v rcc_decode); solve_struct.
Qed.

#[global] Instance rcc_solid : Solid RunControlCapability.
Proof. done. Qed.

Definition frc_desc (v : FileReferenceHelloCapability) : list fieldv :=
  [fv "schema_version" false (frc_SchemaVersion v); fv "max_references" false (frc_MaxReferences v);
   fv "max_metadata_bytes" false (frc_MaxMetadataBytes v)].

#[global] Program Instance frc_printable : Printable FileReferenceHelloCapability := {
  ok v := Forall fv_ok (frc_desc v); depth_of := S 0; nullable := false }.
Next Obligation.
  intros v. apply (struct_printed 0 (frc_desc v) v frc_decode); solve_struct.
Qed.

#[global] Instance frc_solid : Solid FileReferenceHelloCapability.
Proof. done. Qed.

Definition hc_desc (v : HelloCapabilities) : list fieldv :=
  [fv "history_page" true (hc_HistoryPage v); fv "attention_summary" true (hc_AttentionSummary v);
   fv "settings" true (hc_Settings v); fv "run_control" true (hc_RunControl v);
   fv "file_references" true (hc_FileReferences v)].

#[global] Program Instance hc_printable : Printable HelloCapabilities := {
  ok v := Forall fv_ok (hc_desc v); depth_of := S 1; nullable := false }.
Next Obligation.
  intros v. apply (struct_printed 1 (hc_desc v) v hc_decode); solve_struct.
Qed.

#[global] Instance hc_solid : Solid HelloCapabilities.
Proof. done. Qed.

Definition car_desc (v : ConnectionAuthorityReceipt) : list fieldv :=
  [fv "session_id" false (car_SessionID v); fv "connection_epoch" false (car_ConnectionEpoch v);
   fv "credential_generation" false (car_CredentialGeneration v);
   fv "accepted_fence" false (car_AcceptedFence v); fv "writer_lease_id" false (car_WriterLeaseID v);
   fv "expires_at" false (car_ExpiresAt v)].

#[global] Program Instance car_printable : Printable ConnectionAuthorityReceipt := {
  ok v := Forall fv_ok (car_desc v); depth_of := S 0; nullable := false }.
Next Obligation.
  intros v. apply (struct_printed 0 (car_desc v) v car_decode); solve_struct.
Qed.

#[global] Instance car_solid : Solid ConnectionAuthorityReceipt.
Proof. done. Qed.

Definition ss_desc (v : SessionSummary) : list fieldv :=
  [fv "session_id" false (ss_SessionID v); fv "state" false (ss_State v);
   fv "provider" false (ss_Provider v); fv "latest_seq" false (ss_LatestSeq v);
   fv "replay_from" false (ss_ReplayFrom v)].

#[global] Program Instance ss_printable : Printable SessionSummary := {
  ok v := Forall fv_ok (ss_desc v); depth_of := S 0; nullable := false }.
Next Obligation.
  intros v. apply (struct_printed 0 (ss_desc v) v ss_decode); solve_struct.
Qed.

#[global] Instance ss_solid : Solid SessionSummary.
Proof. done. Qed.

#[global] Instance ss_slice_printable : Printable (slice SessionSummary).
Proof. apply slice_printable. solve_depth. Defined.

Definition ha_desc (v : HelloAck) : list fieldv :=
  [fv "content_mode" true (ha_ContentMode v); fv "protocol_version" false (ha_ProtocolVersion v);
   fv "sessions" false (ha_Sessions v); fv "capabilities" true (ha_Capabilities v);
   fv "connection_authority" true (ha_ConnectionAuthority v)].

Definition ev_desc (v : Event) : list fieldv :=
  [fv "type" false (ev_Type v); fv "session_id" false (ev_SessionID v); fv "seq" true (ev_Seq v);
   fv "time" false (ev_Time v); fv "payload" false (ev_Payload v);
   fv "proposal_id" true (ev_ProposalID v)].

Definition er_desc (v : EventReceipt) : list fieldv :=
  [fv "proposal_id" false (er_ProposalID v); fv "seq" false (er_Seq v);
   fv "status" false (er_Status v)].

Definition cmd_desc (v : Command) : list fieldv :=
  [fv "cmd_id" false (cmd_CommandID v); fv "type" false (cmd_Type v);
   fv "session_id" false (cmd_SessionID v); fv "payload" false (cmd_Payload v)].

Definition ca_desc (v : CommandAck) : list fieldv :=
  [fv "cmd_id" false (ca_CommandID v); fv "status" false (ca_Status v);
   fv "reason" false (ca_Reason v)].

Definition ping_desc (v : Ping) : list fieldv :=
  [fv "nonce" true (ping_Nonce v)].

Definition pong_desc (v : Pong) : list fieldv :=
  [fv "nonce" true (pong_Nonce v)].

Definition ef_desc (v : ErrorFrame) : list fieldv :=
  [fv "code" false (ef_Code v); fv "message" false (ef_Message v); fv "fatal" true (ef_Fatal v)].

Definition tj_desc (v : TargetJoin) : list fieldv :=
  [fv "protocol_version" false (tj_ProtocolVersion v); fv "join_nonce" false (tj_JoinNonce v)].

Definition tjc_desc (v : TargetJoinChallenge) : list fieldv :=
  [fv "target_session_id" false (tjc_TargetSessionID v); fv "join_nonce" false (tjc_JoinNonce v);
   fv "expires_at" false (tjc_ExpiresAt v)].

Definition tjd_desc (v : TargetJoinCredential) : list fieldv :=
  [fv "credential" false (tjd_Credential v); fv "target_session_id" false (tjd_TargetSessionID v);
   fv "target_credential_lineage_ref" false (tjd_TargetCredentialLineageRef v);
   fv "generation" false (tjd_Generation v); fv "expires_at" false (tjd_ExpiresAt v)].

Definition crr_desc (v : CredentialRotationRequest) : list fieldv :=
  [fv "rotation_id" false (crr_RotationID v)].

Definition crc_desc (v : CredentialRotationCredential) : list fieldv :=
  [fv "session_id" false (crc_SessionID v); fv "rotation_id" false (crc_RotationID v);
   fv "generation" false (crc_Generation v); fv "credential" false (crc_Credential v);
   fv "expires_at" false (crc_ExpiresAt v)].

Definition crp_desc (v : CredentialRotationPossession) : list fieldv :=
  [fv "session_id" false (crp_SessionID v); fv "rotation_id" false (crp_RotationID v);
   fv "generation" false (crp_Generation v); fv "accepted_epoch" false (crp_AcceptedEpoch v)].

Definition cra_desc (v : CredentialRotationActivation) : list fieldv :=
  [fv "rotation_id" false (cra_RotationID v); fv "generation" false (cra_Generation v);
   fv "connection_epoch" false (cra_ConnectionEpoch v);
   fv "accepted_fence" false (cra_AcceptedFence v)].

Definition sde_desc (v : SettingsDeliveryExecute) : list fieldv :=
  [fv "session_id" false (sde_SessionID v); fv "cmd_id" false (sde_CommandID v);
   fv "reservation_version" false (sde_ReservationVersion v);
   fv "operation_timeout_ms" false (sde_OperationTimeoutMS v)].

Definition ps_desc (v : ProviderStart) : list fieldv :=
  [fv "attempt" true (ps_Attempt v)].

Definition psp_desc (v : ProviderStartPrepare) : list fieldv :=
  [fv "attempt" true (psp_Attempt v)].

Definition pss_desc (v : ProviderStartStarted) : list fieldv :=
  [fv "attempt" true (pss_Attempt v)].

Definition psa_desc (v : ProviderStartAck) : list fieldv :=
  [fv "attempt" true (psa_Attempt v); fv "status" false (psa_Status v);
   fv "recovery_handle" true (psa_RecoveryHandle v)].

Definition hpq_desc (v : HistoryPageRequest) : list fieldv :=
  [fv "request_id" false (hpq_RequestID v); fv "session_id" false (hpq_SessionID v);
   fv "before_seq" true (hpq_BeforeSeq v); fv "limit" false (hpq_Limit v)].

Definition hpe_desc (v : HistoryPageEvent) : list fieldv :=
  [fv "frame" false (hpe_Frame v); fv "type" false (hpe_Type v);
   fv "session_id" false (hpe_SessionID v); fv "seq" false (hpe_Seq v); fv "time" false (hpe_Time v);
   fv "payload" false (hpe_Payload v)].

#[global] Program Instance hpe_printable : Printable HistoryPageEvent := {
  ok v := Forall fv_ok (hpe_desc v); depth_of := S rawDepth; nullable := false }.
Next Obligation.
  intros v. apply (struct_printed rawDepth (hpe_desc v) v hpe_decode); solve_struct.
Qed.

#[global] Instance hpe_solid : Solid HistoryPageEvent.
Proof. done. Qed.

#[global] Instance hpe_slice_printable : Printable (slice HistoryPageEvent).
Proof. apply slice_printable. solve_depth. Defined.

Definition hpr_desc (v : HistoryPageResponse) : list fieldv :=
  [fv "request_id" false (hpr_RequestID v); fv "session_id" false (hpr_SessionID v);
   fv "events" false (hpr_Events v); fv "latest_seq" false (hpr_LatestSeq v);
   fv "next_before_seq" false (hpr_NextBeforeSeq v); fv "retention_state" false (hpr_RetentionState v)].

Definition asb_desc (v : AttentionSubscribe) : list fieldv :=
  [fv "request_id" false (asb_RequestID v)].

Definition ap_desc (v : AttentionPermission) : list fieldv :=
  [fv "id" false (ap_ID v); fv "status" false (ap_Status v)].

#[global] Program Instance ap_printable : Printable AttentionPermission := {
  ok v := Forall fv_ok (ap_desc v); depth_of := S 0; nullable := false }.
Next Obligation.
  intros v. apply (struct_printed 0 (ap_desc v) v ap_decode); solve_struct.
Qed.

#[global] Instance ap_solid : Solid AttentionPermission.
Proof. done. Qed.

Definition ab_desc (v : AttentionBlocker) : list fieldv :=
  [fv "kind" false (ab_Kind v); fv "reason" true (ab_Reason v); fv "expires_at" true (ab_ExpiresAt v);
   fv "blocking_session_id" true (ab_BlockingSessionID v); fv "operation" true (ab_Operation v)].

#[global] Program Instance ab_printable : Printable AttentionBlocker := {
  ok v := Forall fv_ok (ab_desc v); depth_of := S 0; nullable := false }.
Next Obligation.
  intros v. apply (struct_printed 0 (ab_desc v) v ab_decode); solve_struct.
Qed.

#[global] Instance ab_solid : Solid AttentionBlocker.
Proof. done. Qed.

Definition as_desc (v : AttentionSummary) : list fieldv :=
  [fv "session_id" false (as_SessionID v); fv "latest_seq" false (as_LatestSeq v);
   fv "state" false (as_State v); fv "permission" true (as_Permission v);
   fv "terminal_outcome" true (as_TerminalOutcome v);
   fv "latest_change_seq" true (as_LatestChangeSeq v); fv "blocker" true (as_Blocker v);
   fv "summary_version" false (as_SummaryVersion v); fv "summary_state" false (as_SummaryState v)].

#[global] Program Instance as_printable : Printable AttentionSummary := {
  ok v := Forall fv_ok (as_desc v); depth_of := S 1; nullable := false }.
Next Obligation.
  intros v. apply (struct_printed 1 (as_desc v) v as_decode); solve_struct.
Qed.

#[global] Instance as_solid : Solid AttentionSummary.
Proof. done. Qed.

#[global] Instance as_slice_printable : Printable (slice AttentionSummary).
Proof. apply slice_printable. solve_depth. Defined.

Definition asf_desc (v : AttentionSummaryFrame) : list fieldv :=
  [fv "request_id" false (asf_RequestID v); fv "kind" false (asf_Kind v);
   fv "subscription_state" false (asf_SubscriptionState v); fv "summaries" false (asf_Summaries v)].

(** The fields of a frame. *)
Definition frame_desc (f : Frame) : list fieldv :=
  match f with
  | FHello v => h_desc v
  | FHelloAck v => ha_desc v
  | FEvent v => ev_desc v
  | FEventReceipt v => er_desc v
  | FCommand v => cmd_desc v
  | FCommandAck v => ca_desc v
  | FPing v => ping_desc v
  | FPong v => pong_desc v
  | FErrorFrame v => ef_desc v
  | FHistoryPageRequest v => hpq_desc v
  | FHistoryPageResponse v => hpr_desc v
  | FAttentionSubscribe v => asb_desc v
  | FAttentionSummaryFrame v => asf_desc v
  | FTargetJoin v => tj_desc v
  | FTargetJoinChallenge v => tjc_desc v
  | FTargetJoinCredential v => tjd_desc v
  | FCredentialRotationRequest v => crr_desc v
  | FCredentialRotationCredential v => crc_desc v
  | FCredentialRotationPossession v => crp_desc v
  | FCredentialRotationActivation v => cra_desc v
  | FSettingsDeliveryExecute v => sde_desc v
  | FProviderStart v => ps_desc v
  | FProviderStartPrepare v => psp_desc v
  | FProviderStartStarted v => pss_desc v
  | FProviderStartAck v => psa_desc v
  end.

End FrameFields.
