(* ===== verification/Codec.v ===== *)
(** * The protocol codec

    [Decode] and [Encode] of [protocol/codec.go], the decoders of the single
    frames they dispatch to, and the version and event-type checks.  An error
    says which decoder refused the data; its message is left out. *)

From S2P Require Import Prelude StoreApi Json Wire EncryptedPacket CodecPayloads GoText Frames.
From stdpp Require Import base strings list option.
#[local] Open Scope Z_scope.

Module Codec.
Import Json Wire GoText CodecPayloads Frames.

Inductive codecError :=
  | ErrEnvelope
  | ErrInvalidFrame (name : string)
  | ErrUnknownFrame (name : string).

Definition result := (codecError + Frame)%type.

Definition HistoryPageMaxLimit : Z := 100.
Definition MinTargetJoinNonceBytes : Z := 32.
Definition MaxTargetJoinNonceBytes : Z := 128.
Definition MaxTargetJoinCredentialBytes : Z := 4096.
Definition MaxCredentialRotationIDBytes : Z := 256.

(** ** Frames with exactly the named members *)

Definition targetJoinFields (data frame : string) (keys : list string) : option fields :=
  fs ← strictObject data;
  _ ← when (bool_decide (length fs = length keys + 1)%nat);
  actual ← asField "frame" fs;
  _ ← when (bool_decide (actual = frame) && forallb (λ k, has k fs) keys);
  Some fs.

(** The optional member [attempt]. *)
Definition attemptOf (fs : fields) : option Z :=
  match get "attempt" fs with
  | None => Some 0
  | Some r => n ← unmarshal r 0; if bool_decide (1 ≤ n) then Some n else None
  end.

(** The first of several member lists a frame has. *)
Fixpoint firstFields (data frame : string) (variants : list (list string)) : option fields :=
  match variants with
  | [] => None
  | keys :: variants =>
      match targetJoinFields data frame keys with
      | Some fs => Some fs
      | None => firstFields data frame variants
      end
  end.

Definition decodeProviderStart (data : string) : option Frame :=
  fs ← firstFields data "provider.start" [["attempt"]; []];
  n ← attemptOf fs;
  Some (FProviderStart (mkProviderStart n)).

Definition decodeProviderStartPrepare (data : string) : option Frame :=
  fs ← firstFields data "provider.start.prepare" [["attempt"]; []];
  n ← attemptOf fs;
  Some (FProviderStartPrepare (mkProviderStartPrepare n)).

Definition decodeProviderStartStarted (data : string) : option Frame :=
  fs ← firstFields data "provider.start.started" [["attempt"]; []];
  n ← attemptOf fs;
  Some (FProviderStartStarted (mkProviderStartStarted n)).

Definition validRecoveryHandle (value : string) : bool :=
  lenBetween 32 value 128 && forallb (λ c, lower c || digit c) (runesOf value).

Definition decodeProviderStartAck (data : string) : option Frame :=
  fs ← firstFields data "provider.start.ack" [["attempt"; "status"; "recovery_handle"]; ["attempt"; "status"]; ["status"]];
  n ← attemptOf fs;
  status ← asField "status" fs;
  _ ← when (bool_decide (status ∈ ["admitted"; "rejected"]));
  handle ← match get "recovery_handle" fs with
           | None => Some ""
           | Some r => h ← unmarshal r ""; if validRecoveryHandle h then Some h else None
           end;
  _ ← when (negb (bool_decide (status = "rejected") && bool_decide (handle ≠ "")));
  Some (FProviderStartAck (mkProviderStartAck n status handle)).

Definition decodeTargetJoin (data : string) : option Frame :=
  fs ← targetJoinFields data "target.join" ["protocol_version"; "join_nonce"];
  version ← asField "protocol_version" fs;
  nonce ← asField "join_nonce" fs;
  _ ← when (bool_decide (version = ProtocolVersionV2)
            && lenBetween MinTargetJoinNonceBytes nonce MaxTargetJoinNonceBytes);
  Some (FTargetJoin (mkTargetJoin version nonce)).

Definition decodeTargetJoinChallenge (data : string) : option Frame :=
  fs ← targetJoinFields data "target.join.challenge" ["target_session_id"; "join_nonce"; "expires_at"];
  target ← asField "target_session_id" fs;
  nonce ← asField "join_nonce" fs;
  expires ← asField "expires_at" fs;
  _ ← when (bool_decide (target ≠ "") && lenBetween MinTargetJoinNonceBytes nonce MaxTargetJoinNonceBytes
            && bool_decide (0 < expires));
  Some (FTargetJoinChallenge (mkTargetJoinChallenge target nonce expires)).

Definition decodeTargetJoinCredential (data : string) : option Frame :=
  fs ← targetJoinFields data "target.join.credential"
         ["credential"; "target_session_id"; "target_credential_lineage_ref"; "generation"; "expires_at"];
  credential ← asField "credential" fs;
  target ← asField "target_session_id" fs;
  lineage ← asField "target_credential_lineage_ref" fs;
  generation ← asField "generation" fs;
  expires ← asField "expires_at" fs;
  _ ← when (lenBetween 1 credential MaxTargetJoinCredentialBytes && bool_decide (target ≠ "")
            && bool_decide (lineage ≠ "") && bool_decide (1 ≤ generation) && bool_decide (0 < expires));
  Some (FTargetJoinCredential (mkTargetJoinCredential credential target lineage generation expires)).

Definition validRotationID (id : string) : bool := lenBetween 1 id MaxCredentialRotationIDBytes.

Definition decodeCredentialRotationRequest (data : string) : option Frame :=
  fs ← targetJoinFields data "credential.rotation.request" ["rotation_id"];
  id ← asField "rotation_id" fs;
  _ ← when (validRotationID id);
  Some (FCredentialRotationRequest (mkCredentialRotationRequest id)).

Definition decodeCredentialRotationCredential (data : string) : option Frame :=
  fs ← targetJoinFields data "credential.rotation.credential"
         ["session_id"; "rotation_id"; "generation"; "credential"; "expires_at"];
  session ← asField "session_id" fs;
  id ← asField "rotation_id" fs;
  generation ← asField "generation" fs;
  credential ← asField "credential" fs;
  expires ← asField "expires_at" fs;
  _ ← when (bool_decide (session ≠ "") && validRotationID id && bool_decide (1 ≤ generation)
            && lenBetween 1 credential MaxTargetJoinCredentialBytes && bool_decide (0 < expires));
  Some (FCredentialRotationCredential (mkCredentialRotationCredential session id generation credential expires)).

Definition decodeCredentialRotationPossession (data : string) : option Frame :=
  fs ← targetJoinFields data "credential.rotation.possession" ["session_id"; "rotation_id"; "generation"; "accepted_epoch"];
  session ← asField "session_id" fs;
  id ← asField "rotation_id" fs;
  generation ← asField "generation" fs;
  epoch ← asField "accepted_epoch" fs;
  _ ← when (bool_decide (session ≠ "") && validRotationID id && bool_decide (1 ≤ generation) && bool_decide (1 ≤ epoch));
  Some (FCredentialRotationPossession (mkCredentialRotationPossession session id generation epoch)).

Definition decodeCredentialRotationActivation (data : string) : option Frame :=
  fs ← targetJoinFields data "credential.rotation.activation" ["rotation_id"; "generation"; "connection_epoch"; "accepted_fence"];
  id ← asField "rotation_id" fs;
  generation ← asField "generation" fs;
  epoch ← asField "connection_epoch" fs;
  fence ← asField "accepted_fence" fs;
  _ ← when (validRotationID id && bool_decide (1 ≤ generation) && bool_decide (1 ≤ epoch) && bool_decide (1 ≤ fence));
  Some (FCredentialRotationActivation (mkCredentialRotationActivation id generation epoch fence)).

Definition decodeSettingsDeliveryExecute (data : string) : option Frame :=
  fs ← targetJoinFields data "settings.delivery.execute" ["session_id"; "cmd_id"; "reservation_version"; "operation_timeout_ms"];
  session ← asField "session_id" fs;
  cmd ← asField "cmd_id" fs;
  version ← asField "reservation_version" fs;
  timeout ← asField "operation_timeout_ms" fs;
  _ ← when (validSettingsCommandID session && validSettingsCommandID cmd && bool_decide (1 ≤ version)
            && bool_decide (timeout = 30000));
  Some (FSettingsDeliveryExecute (mkSettingsDeliveryExecute session cmd version timeout)).

Definition decodeEventReceipt (data : string) : option Frame :=
  fs ← targetJoinFields data "event.receipt" ["proposal_id"; "seq"; "status"];
  proposal ← asField "proposal_id" fs;
  seq ← asField "seq" fs;
  status ← asField "status" fs;
  _ ← when (lenBetween 1 proposal 255 && bool_decide (1 ≤ seq) && bool_decide (status = "accepted"));
  Some (FEventReceipt (mkEventReceipt proposal seq status)).

(** ** Attention *)

Definition decodeAttentionSubscribe (data : string) : option Frame :=
  fs ← targetJoinFields data "attention.subscribe" ["request_id"];
  request ← asField "request_id" fs;
  _ ← when (validSettingsCommandID request);
  Some (FAttentionSubscribe (mkAttentionSubscribe request)).

(** [decodeOptionalString], [decodeOptionalInt64]: absent and [null] are nil. *)
Definition decodeOptional {A} `{GoJson A} (r : option raw) : option (option A) :=
  match r with
  | None => Some None
  | Some r => if isNull r then Some None else Some <$> unmarshal r zero
  end.

Definition decodeOptionalAttentionPermission (r : option raw) : option (option AttentionPermission) :=
  match r with
  | None => Some None
  | Some r =>
      if isNull r then Some None
      else
        fs ← strictObject (text r);
        _ ← when (bool_decide (length fs = 2%nat));
        id ← asField "id" fs;
        status ← asField "status" fs;
        Some (Some (mkAttentionPermission id status))
  end.

Definition decodeOptionalAttentionBlocker (r : option raw) : option (option AttentionBlocker) :=
  match r with
  | None => Some None
  | Some r =>
      if isNull r then Some None
      else
        fs ← strictObject (text r);
        _ ← when (only ["kind"; "reason"; "expires_at"; "blocking_session_id"; "operation"] fs);
        kind ← asField "kind" fs;
        reason ← decodeOptional (get "reason" fs);
        expires ← decodeOptional (get "expires_at" fs);
        blocking ← decodeOptional (get "blocking_session_id" fs);
        operation ← decodeOptional (get "operation" fs);
        Some (Some (mkAttentionBlocker kind reason expires blocking operation))
  end.

Definition optionally {A} (p : A → bool) (o : option A) : bool := match o with Some a => p a | None => true end.

Definition validAttentionBlocker (b : AttentionBlocker) : bool :=
  bool_decide (ab_Kind b ∈ ["queued"; "reauthorization_required"; "new_run_required"; "outcome_unknown"])
  && (bool_decide (ab_Kind b = "queued")
      || bool_decide (ab_Reason b = None) && bool_decide (ab_ExpiresAt b = None) && bool_decide (ab_BlockingSessionID b = None))
  && (bool_decide (ab_Kind b = "outcome_unknown") || bool_decide (ab_Operation b = None))
  && optionally validSettingsIdentifier (ab_Reason b)
  && optionally validSettingsCommandID (ab_BlockingSessionID b)
  && optionally validSettingsIdentifier (ab_Operation b).

Definition validAttentionSummary (s : AttentionSummary) : bool :=
  validSettingsCommandID (as_SessionID s) && bool_decide (0 ≤ as_LatestSeq s) && bool_decide (0 ≤ as_SummaryVersion s)
  && bool_decide (as_SummaryState s ∈ ["complete"; "incomplete"]) && bool_decide (as_State s ≠ "")
  && optionally (λ p, validSettingsCommandID (ap_ID p) && bool_decide (ap_Status p = "pending")) (as_Permission s)
  && optionally validAttentionBlocker (as_Blocker s).

Definition decodeAttentionSummary1 (entry : raw) : option AttentionSummary :=
  fs ← strictObject (text entry);
  _ ← when (only ["session_id"; "latest_seq"; "state"; "permission"; "terminal_outcome"; "latest_change_seq"; "blocker";
                  "summary_version"; "summary_state"] fs);
  session ← asField "session_id" fs;
  latest ← asField "latest_seq" fs;
  state ← asField "state" fs;
  version ← asField "summary_version" fs;
  summaryState ← asField "summary_state" fs;
  permission ← decodeOptionalAttentionPermission (get "permission" fs);
  terminal ← decodeOptional (get "terminal_outcome" fs);
  change ← decodeOptional (get "latest_change_seq" fs);
  blocker ← decodeOptionalAttentionBlocker (get "blocker" fs);
  let s := mkAttentionSummary session latest state permission terminal change blocker version summaryState in
  if validAttentionSummary s then Some s else None.

Definition decodeAttentionSummaries (r : raw) : option (list AttentionSummary) :=
  entries ← asList r;
  _ ← when (bool_decide (length entries ≤ 64)%nat);
  mapM decodeAttentionSummary1 entries.

Definition decodeAttentionSummary (data : string) : option Frame :=
  fs ← targetJoinFields data "attention.summary" ["request_id"; "kind"; "subscription_state"; "summaries"];
  request ← asField "request_id" fs;
  kind ← asField "kind" fs;
  state ← asField "subscription_state" fs;
  _ ← when (validSettingsCommandID request && bool_decide (kind ∈ ["snapshot"; "update"])
            && bool_decide (state ∈ ["complete"; "incomplete"]));
  summaries ← get "summaries" fs ≫= decodeAttentionSummaries;
  _ ← when (forallb validAttentionSummary summaries && bool_decide (NoDup (as_SessionID <$> summaries)));
  Some (FAttentionSummaryFrame (mkAttentionSummaryFrame request kind state (Slice summaries []))).

(** ** History pages *)

Definition EventTypeAllowed (version : Z) (eventType : string) (durable : bool) : bool :=
  if durable && bool_decide (eventType ∈ ["presence"; "agent.activity"; "log.tail"; "resource.sample"]) then false
  else bool_decide (ProtocolVersion ≤ version).

Definition PeerEventTypeAllowed (eventType : string) : bool := bool_decide (eventType ≠ "").

Definition decodeHistoryPageEvent (sessionID : string) (r : raw) : option HistoryPageEvent :=
  fs ← strictObject (text r);
  _ ← when (bool_decide (length fs = 6%nat) && only ["frame"; "type"; "session_id"; "seq"; "time"; "payload"] fs);
  frame ← asField "frame" fs;
  _ ← when (bool_decide (frame = "event"));
  type ← asField "type" fs;
  _ ← when (bool_decide (type ≠ ""));
  session ← asField "session_id" fs;
  _ ← when (bool_decide (session = sessionID));
  seq ← asField "seq" fs;
  _ ← when (bool_decide (1 ≤ seq));
  time ← asField "time" fs;
  payload ← get "payload" fs;
  _ ← when (bool_decide (len (text payload) ≤ MaxEventPayloadBytes) && EventTypeAllowed ProtocolVersionV2 type true);
  Some (mkHistoryPageEvent frame type session seq time (Raw (text payload))).

Definition decodeHistoryPageEvents (r : raw) (sessionID : string) : option (list HistoryPageEvent) :=
  raws ← asList r;
  _ ← when (bool_decide (Z.of_nat (length raws) ≤ HistoryPageMaxLimit));
  mapM (decodeHistoryPageEvent sessionID) raws.

(** The sequence numbers increase and do not pass the latest. *)
Fixpoint validEventSeqs (previous : option Z) (latest : Z) (l : list HistoryPageEvent) : bool :=
  match l with
  | [] => true
  | e :: l =>
      bool_decide (hpe_Seq e ≤ latest) && optionally (λ p, bool_decide (p < hpe_Seq e)) previous
      && validEventSeqs (Some (hpe_Seq e)) latest l
  end.

Definition validHistoryPageResponse (r : HistoryPageResponse) : bool :=
  bool_decide (0 ≤ hpr_LatestSeq r) && bool_decide (hpr_RetentionState r ∈ ["complete"; "retention_gap"])
  && validEventSeqs None (hpr_LatestSeq r) (elems (hpr_Events r))
  && match hpr_NextBeforeSeq r with
     | None => true
     | Some n =>
         bool_decide (0 < n)
         && match elems (hpr_Events r) with [] => false | e :: _ => bool_decide (n = hpe_Seq e) end
     end.

Definition decodeRequiredHistoryFields (fs : fields) : option (string * string) :=
  request ← asField "request_id" fs;
  _ ← when (bool_decide (request ≠ ""));
  session ← asField "session_id" fs;
  _ ← when (bool_decide (session ≠ ""));
  Some (request, session).

Definition decodeHistoryPageResponse (fs : fields) : option Frame :=
  _ ← when (negb (has "before_seq" fs || has "limit" fs));
  '(request, session) ← decodeRequiredHistoryFields fs;
  events ← get "events" fs;
  _ ← when (negb (isNull events));
  latest ← asField "latest_seq" fs;
  next ← asField "next_before_seq" fs;
  state ← asField "retention_state" fs;
  l ← decodeHistoryPageEvents events session;
  let r := mkHistoryPageResponse request session (Slice l []) latest next state in
  if validHistoryPageResponse r then Some (FHistoryPageResponse r) else None.

Definition decodeHistoryPageRequest (fs : fields) : option Frame :=
  '(request, session) ← decodeRequiredHistoryFields fs;
  limit ← asField "limit" fs;
  _ ← when (between 1 limit HistoryPageMaxLimit);
  before ← match get "before_seq" fs with
           | None => Some None
           | Some r =>
               n ← (if isNull r then None else unmarshal r None);
               match n with Some n => if bool_decide (1 ≤ n) then Some (Some n) else None | None => None end
           end;
  Some (FHistoryPageRequest (mkHistoryPageRequest request session before limit)).

Definition decodeHistoryPage (data : string) : option Frame :=
  fs ← strictObject data;
  _ ← when (only ["frame"; "request_id"; "session_id"; "before_seq"; "limit"; "events"; "latest_seq";
                  "next_before_seq"; "retention_state"] fs);
  frame ← asField "frame" fs;
  _ ← when (bool_decide (frame = "history.page"));
  if has "events" fs || has "latest_seq" fs || has "next_before_seq" fs || has "retention_state" fs
  then decodeHistoryPageResponse fs
  else decodeHistoryPageRequest fs.

(** ** Frames decoded into structs *)

(** [decodeInto(data, out)] with a fresh [out]. *)
Definition decodeInto {A} `{GoJson A} (data : string) : option A :=
  env ← unmarshalMap data;
  Unmarshal (marshalMap (remove "frame" env)) zero.

Definition decodeEvent (data : string) : option Frame :=
  fs ← strictObject data;
  frame ← asField "frame" fs;
  _ ← when (bool_decide (frame = "event"));
  event ← Unmarshal (marshalMap (remove "frame" fs)) zero;
  Some (FEvent event).

Definition decodeCommand (data : string) : option Frame :=
  command ← decodeInto data;
  if bool_decide (cmd_Type command ≠ "session.settings.change") then Some (FCommand command)
  else
    fs ← targetJoinFields data "command" ["cmd_id"; "type"; "session_id"; "payload"];
    _ ← when (validSettingsCommandID (cmd_CommandID command) && validSettingsCommandID (cmd_SessionID command));
    payload ← get "payload" fs;
    match DecodeSettingsChangePayload (text payload) with
    | Some _ => Some (FCommand command)
    | None =>
        match EncryptedPacket.DecodeEncryptedPacketCarrier (text payload) "command" (cmd_Type command) (cmd_CommandID command) with
        | Some _ => Some (FCommand command)
        | None => None
        end
    end.

(** ** Decode and Encode *)

(** The envelope: only the member [frame]. *)
Definition frameOf (data : string) : option string :=
  '(r, _) ← rawValue (fuel_of (bytes_of data)) maxNestingDepth (bytes_of data);
  _ ← parse data;
  unmarshalStruct (λ ms old, member ["frame"] "frame" ms old) r "".

Definition decodeFrame (name data : string) : option Frame :=
  if String.eqb name "hello" then FHello <$> decodeInto data
  else if String.eqb name "hello.ack" then FHelloAck <$> decodeInto data
  else if String.eqb name "event" then decodeEvent data
  else if String.eqb name "event.receipt" then decodeEventReceipt data
  else if String.eqb name "command" then decodeCommand data
  else if String.eqb name "command.ack" then FCommandAck <$> decodeInto data
  else if String.eqb name "ping" then FPing <$> decodeInto data
  else if String.eqb name "pong" then FPong <$> decodeInto data
  else if String.eqb name "error" then FErrorFrame <$> decodeInto data
  else if String.eqb name "history.page" then decodeHistoryPage data
  else if String.eqb name "attention.subscribe" then decodeAttentionSubscribe data
  else if String.eqb name "attention.summary" then decodeAttentionSummary data
  else if String.eqb name "target.join" then decodeTargetJoin data
  else if String.eqb name "target.join.challenge" then decodeTargetJoinChallenge data
  else if String.eqb name "target.join.credential" then decodeTargetJoinCredential data
  else if String.eqb name "credential.rotation.request" then decodeCredentialRotationRequest data
  else if String.eqb name "credential.rotation.credential" then decodeCredentialRotationCredential data
  else if String.eqb name "credential.rotation.possession" then decodeCredentialRotationPossession data
  else if String.eqb name "credential.rotation.activation" then decodeCredentialRotationActivation data
  else if String.eqb name "settings.delivery.execute" then decodeSettingsDeliveryExecute data
  else if String.eqb name "provider.start" then decodeProviderStart data
  else if String.eqb name "provider.start.prepare" then decodeProviderStartPrepare data
  else if String.eqb name "provider.start.started" then decodeProviderStartStarted data
  else if String.eqb name "provider.start.ack" then decodeProviderStartAck data
  else None.

Definition frameNames : list string :=
  ["hello"; "hello.ack"; "event"; "event.receipt"; "command"; "command.ack"; "ping"; "pong"; "error"; "history.page";
   "attention.subscribe"; "attention.summary"; "target.join"; "target.join.challenge"; "target.join.credential";
   "credential.rotation.request"; "credential.rotation.credential"; "credential.rotation.possession";
   "credential.rotation.activation"; "settings.delivery.execute"; "provider.start"; "provider.start.prepare";
   "provider.start.started"; "provider.start.ack"].

Definition Decode (data : string) : result :=
  match frameOf data with
  | None => inl ErrEnvelope
  | Some name =>
      if bool_decide (name ∈ frameNames) then
        match decodeFrame name data with Some f => inr f | None => inl (ErrInvalidFrame name) end
      else inl (ErrUnknownFrame name)
  end.

Definition Encode (f : Frame) : option string :=
  body ← marshalFrame f;
  fs ← unmarshalMap body;
  Some (marshalMap (put "frame" (mkRaw (marshalString (FrameName f)) (JString (FrameName f))) fs)).

(** ** Versions *)

Definition NegotiateVersion (peer supported : list Z) : option Z :=
  let best := foldl (λ best version, if bool_decide (version ∈ supported) && bool_decide (best < version)
                                     then version else best) 0 peer in
  if bool_decide (best = 0) then None else Some best.

Definition NegotiateHighestVersion (peerHighest hubHighest : Z) : option Z :=
  if bool_decide (peerHighest < 1) || bool_decide (hubHighest < 1) then None
  else if bool_decide (peerHighest < hubHighest) then Some peerHighest else Some hubHighest.

End Codec.
