(* ===== verification/CodecProofs.v ===== *)
(** * Frames are read back

    [Encode] prints a frame as an object with its fields and the member
    [frame], sorted by key ([Encode_spec]); [Decode] of that text is the frame
    ([roundtrip]) for every frame whose values JSON can carry and that the
    decoder of its kind accepts. *)

From S2P Require Import Prelude StoreApi Json Wire JsonProofs WireProofs Printable EncryptedPacket CodecPayloads.
From S2P Require Import GoText Frames FrameFields Codec.
From stdpp Require Import base strings list option.
#[local] Open Scope Z_scope.

Module CodecProofs.
Import Json Wire JsonProofs WireProofs Printable GoText CodecPayloads Frames FrameFields Codec.

(** Every value of the frame can be carried: strings are UTF-8, integers fit
    64 bits, payloads are JSON in printed form, and nothing is lost by leaving
    out empty fields. *)
Definition carried (f : Frame) : Prop := Forall fv_ok (frame_desc f).

Definition frameDepth : nat := rawDepth + 2.

Lemma frameDepth_max : (frameDepth < maxNestingDepth)%nat.
Proof. unfold frameDepth. pose proof rawDepth_max. lia. Qed.

Ltac solve_frame_static :=
  repeat (apply list.Forall_cons; split;
    [split; [vm_compute; reflexivity|unfold frameDepth; cbn -[rawDepth]; pose proof rawDepth_large; lia]|]); apply list.Forall_nil; exact I.

Lemma frame_static f : Forall (fv_static frameDepth) (frame_desc f).
Proof. destruct f; cbn [frame_desc]; solve_frame_static. Qed.

Lemma frame_names_NoDup f : NoDup ("frame" :: (fv_name <$> frame_desc f)).
Proof. destruct f; solve_NoDup. Qed.

(** No other field is taken for [frame]. *)
Lemma frame_names_fold f : Forall (λ k, field_matches "frame" k = false) (fv_name <$> frame_desc f).
Proof. destruct f; repeat (apply list.Forall_cons; split; [vm_compute; reflexivity|]); apply list.Forall_nil; exact I. Qed.

Lemma frame_text f : marshalFrame f = struct (fv_out <$> frame_desc f).
Proof. by destruct f. Qed.

Definition nameRaw (f : Frame) : raw := mkRaw (marshalString (FrameName f)) (JString (FrameName f)).

(** What [Encode] prints: the members in some order. *)
Record printedAs (f : Frame) (data : string) (L : fields) : Prop := {
  pa_data : data = print L;
  pa_good : Forall good_member L;
  pa_shallow : shallow L;
  pa_NoDup : NoDup (fst <$> L);
  pa_frame : get "frame" L = Some (nameRaw f);
  pa_names : Forall (λ m, m.1 ∈ (fv_name <$> frame_desc f)) (remove "frame" L);
  pa_read : Forall (fv_read L) (frame_desc f);
  pa_length : length L = S (length (List.filter fv_printed (frame_desc f)));
}.

Lemma fv_read_perm ms ms' fs :
  (∀ k, k ∈ (fv_name <$> fs) → get k ms = get k ms') → Forall (fv_read ms) fs → Forall (fv_read ms') fs.
Proof.
  intros Hg. rewrite !list.Forall_forall. intros H f Hf. apply (fv_read_get ms); [|by apply H].
  apply Hg. by apply list_elem_of_fmap_2.
Qed.

Lemma nameRaw_good f : good_member ("frame", nameRaw f).
Proof. split; [done|]. apply canonical_string. by destruct f. Qed.

Lemma Encode_spec f : carried f → ∃ data L, Encode f = Some data ∧ printedAs f data L.
Proof.
  intros Hc. pose proof (frame_names_NoDup f) as Hnd. apply list.NoDup_cons in Hnd as [Hfr Hnd].
  destruct (fields_encoded frameDepth (frame_desc f) (frame_static f) Hnd Hc) as (ms & He & Hr & Hk).
  pose proof (encoded_shallow _ _ _ _ He frameDepth_max) as Hs. destruct He as [Ht Hg _ Hn Hdup].
  assert ("frame" ∉ (fst <$> ms)) as Hfresh.
  { intros ([k r] & Heq & Hin)%list_elem_of_fmap. cbn in Heq. subst k. rewrite list.Forall_forall in Hn.
    by apply Hfr, (Hn _ Hin). }
  set (L0 := ms ++ [("frame", nameRaw f)]). set (L := sortKeys L0).
  assert (Forall good_member L0) as Hg0 by (apply list.Forall_app; split; [done|apply list.Forall_singleton, nameRaw_good]).
  pose proof (sortKeys_perm L0) as Hp. fold L in Hp.
  assert (NoDup (fst <$> L0)) as Hd0.
  { unfold L0. rewrite fmap_app. apply list.NoDup_app. split_and!; [done| |apply NoDup_singleton].
    intros k Hk' ->%list_elem_of_singleton. done. }
  assert (NoDup (fst <$> L)) as Hd by by rewrite Hp.
  exists (print L), L. split.
  - unfold Encode. rewrite frame_text, Ht. cbn [mbind option_bind]. rewrite unmarshalMap_print by done.
    cbn [mbind option_bind]. rewrite put_fresh by done. fold (nameRaw f) L0. by rewrite marshalMap_print.
  - assert (∀ k, get k L = get k L0) as Hget by (intros; by apply get_perm).
    assert (get "frame" L0 = Some (nameRaw f)) as Hgf by (unfold L0; by rewrite get_app, (get_None _ ms Hfresh)).
    split; [done|by rewrite Hp| |done|by rewrite Hget, Hgf| | |].
    + apply shallow_Forall. rewrite Hp. unfold L0. apply list.Forall_app. split; [by apply shallow_Forall|].
      apply list.Forall_singleton. cbn. unfold maxNestingDepth. lia.
    + rewrite (remove_perm _ _ _ Hp). unfold L0, remove. rewrite List.filter_app. cbn [List.filter fst].
      rewrite String.eqb_refl. cbn [negb]. rewrite app_nil_r. fold (remove "frame" ms). by rewrite remove_absent.
    + apply (fv_read_perm ms); [|done]. intros k Hk'. rewrite Hget. unfold L0. rewrite get_app.
      destruct (get k ms) eqn:E; [done|]. symmetry. apply get_None. intros ->%list_elem_of_singleton. done.
    + rewrite Hp. unfold L0. rewrite length_app. cbn.
      rewrite <- (length_fmap fst ms), Hk, length_fmap. lia.
Qed.

(** ** The envelope *)

Lemma rawValue_print L :
  Forall good_member L → shallow L →
  rawValue (fuel_of (bytes_of (print L))) maxNestingDepth (bytes_of (print L)) = Some (mkRaw (print L) (object L), [])
  ∧ parse (print L) = Some (object L).
Proof.
  intros Hg Hs. pose proof (canonical_object L Hg) as Hc.
  assert (nest (object L) ≤ maxNestingDepth)%nat as Hd by exact Hs. split; [|by apply parse_canonical].
  pose proof (canonical_rawValue (print L) (object L) (fuel_of (bytes_of (print L))) maxNestingDepth [] Hc) as H.
  rewrite app_nil_r in H. apply H; [apply delimited_nil|done|done].
Qed.

Lemma unmarshalStruct_print {S} (decode : fields → S → option S) L old :
  Forall good_member L → shallow L → unmarshalStruct decode (mkRaw (print L) (object L)) old = decode L old.
Proof.
  intros Hg Hs. unfold unmarshalStruct. cbn [ast object text].
  pose proof (rawObject_print L [] Hg) as H. rewrite app_nil_r in H. unfold shallow in Hs. by rewrite H by lia.
Qed.

Lemma fieldOf_frame k : field_matches "frame" k = false → fieldOf ["frame"] k = None.
Proof.
  intros H. unfold fieldOf, select. cbn. rewrite decide_False by (intros <-; vm_compute in H; done).
  cbn. rewrite decide_False; [done|]. rewrite H. exact id.
Qed.

Lemma member_frame L (old : string) :
  Forall (λ m, m.1 = "frame" ∨ field_matches "frame" m.1 = false) L → NoDup (fst <$> L) →
  member ["frame"] "frame" L old = match get "frame" L with Some r => unmarshal r old | None => Some old end.
Proof.
  intros HL. induction HL as [|[k r] L Hk HL IH] in old |- *; [done|]. cbn [fst] in Hk.
  change (fst <$> ((k, r) :: L)) with (k :: (fst <$> L)). intros [Hn Hd]%list.NoDup_cons. cbn [member get].
  destruct Hk as [->|Hk].
  - rewrite bool_decide_true by done. rewrite String.eqb_refl.
    destruct (unmarshal r old) as [new|]; [|done]. cbn [mbind option_bind]. rewrite IH by done. by rewrite get_None.
  - rewrite fieldOf_frame, bool_decide_false by done. destruct (String.eqb_spec k "frame"); [by subst|]. by apply IH.
Qed.

Lemma elem_of_remove {A} k (l : list (string * A)) m : m ∈ l → m.1 ≠ k → m ∈ remove k l.
Proof.
  intros Hm Hk. unfold remove. induction Hm as [m l|m m' l _ IH]; cbn.
  - destruct (String.eqb_spec m.1 k); [done|]. by left.
  - case_match; [right|]; by apply IH.
Qed.

Lemma frameOf_printed f data L : printedAs f data L → frameOf data = Some (FrameName f).
Proof.
  intros [-> Hg Hs Hd Hf Hn _ _]. unfold frameOf. destruct (rawValue_print L Hg Hs) as [-> ->].
  cbn [mbind option_bind]. rewrite unmarshalStruct_print by done. rewrite member_frame; [by rewrite Hf| |done].
  pose proof (frame_names_fold f) as Hfold. rewrite list.Forall_forall in Hfold. rewrite list.Forall_forall in Hn.
  apply list.Forall_forall.
  intros m Hm. destruct (decide (m.1 = "frame")) as [->|Hne]; [by left|right].
  by apply Hfold, Hn, elem_of_remove.
Qed.

Lemma FrameName_known f : FrameName f ∈ frameNames.
Proof. destruct f; apply (bool_decide_unpack _); vm_compute; exact I. Qed.

Lemma Decode_printed f data L : printedAs f data L → decodeFrame (FrameName f) data = Some f → Decode data = inr f.
Proof.
  intros Hp Hd. unfold Decode. rewrite (frameOf_printed _ _ _ Hp).
  rewrite bool_decide_true by apply FrameName_known. by rewrite Hd.
Qed.

(** ** Frames decoded into structs *)

Lemma NoDup_remove {A} k (l : list (string * A)) : NoDup (fst <$> l) → NoDup (fst <$> remove k l).
Proof.
  unfold remove. induction l as [|m l IH]; [done|]. cbn. intros [Hm Hl]%list.NoDup_cons.
  case_match; [|by apply IH]. cbn. apply list.NoDup_cons. split; [|by apply IH].
  intros (m' & Heq & Hin)%list_elem_of_fmap. apply Hm. rewrite Heq. apply list_elem_of_fmap_2.
  apply list_elem_of_In, List.filter_In in Hin as [Hin _]. by apply list_elem_of_In.
Qed.

Lemma get_remove {A} k k' (l : list (string * A)) : k ≠ k' → get k (remove k' l) = get k l.
Proof.
  intros Hk. unfold remove. induction l as [|[x v] l IH]; [done|]. cbn.
  destruct (String.eqb_spec x k') as [->|Hx]; cbn.
  - destruct (String.eqb_spec k' k); [by subst|done].
  - destruct (String.eqb_spec x k); [done|done].
Qed.

Lemma Forall_remove {A} (P : string * A → Prop) k l : Forall P l → Forall P (remove k l).
Proof. unfold remove. induction 1; cbn; [constructor|]. case_match; [by constructor|done]. Qed.

(** The object without [frame], printed again and decoded. *)
Lemma withoutFrame_decoded {S} `{GoJson S} (decode : fields → S → option S) f data L (s : S) :
  printedAs f data L → (∀ r old, unmarshal r old = unmarshalStruct decode r old) →
  (∀ ms, Forall (λ m, m.1 ∈ (fv_name <$> frame_desc f)) ms → NoDup (fst <$> ms) →
         Forall (fv_read ms) (frame_desc f) → decode ms zero = Some s) →
  Unmarshal (marshalMap (remove "frame" L)) zero = Some s.
Proof.
  intros [-> Hg Hs Hd Hf Hn Hr _] Hu Hdec. set (R := remove "frame" L) in *.
  assert (Forall good_member R) as HgR by by apply Forall_remove.
  rewrite marshalMap_print by done. set (T := sortKeys R). pose proof (sortKeys_perm R) as Hp. fold T in Hp.
  assert (NoDup (fst <$> R)) as HdR by by apply NoDup_remove.
  assert (Forall good_member T) as HgT by by rewrite Hp.
  assert (shallow T) as HsT.
  { apply shallow_Forall. rewrite Hp. apply Forall_remove. by apply shallow_Forall. }
  unfold Unmarshal. destruct (rawValue_print T HgT HsT) as [-> ->]. cbn [mbind option_bind].
  rewrite Hu, unmarshalStruct_print by done. apply Hdec; [by rewrite Hp|by rewrite Hp|].
  apply (fv_read_perm L); [|done]. intros k Hk. rewrite (get_perm k T R) by (by rewrite ?Hp).
  symmetry. apply get_remove. intros ->. pose proof (frame_names_NoDup f) as Hnd. by apply list.NoDup_cons in Hnd as [? _].
Qed.

Lemma decodeInto_printed {S} `{GoJson S} (decode : fields → S → option S) f data L (s : S) :
  printedAs f data L → (∀ r old, unmarshal r old = unmarshalStruct decode r old) →
  (∀ ms, Forall (λ m, m.1 ∈ (fv_name <$> frame_desc f)) ms → NoDup (fst <$> ms) →
         Forall (fv_read ms) (frame_desc f) → decode ms zero = Some s) →
  decodeInto data = Some s.
Proof.
  intros Hp Hu Hdec. unfold decodeInto. rewrite (pa_data _ _ _ Hp).
  rewrite unmarshalMap_print by apply Hp. cbn [mbind option_bind]. by eapply withoutFrame_decoded.
Qed.

Lemma strictObject_printed f data L : printedAs f data L → strictObject data = Some L.
Proof. intros Hp. rewrite (pa_data _ _ _ Hp). apply strictObject_print; apply Hp. Qed.

(** ** Frames with exactly their members *)

Lemma read_asField {A} `{Printable A} L name (a : A) : fv_read L (fv name false a) → asField name L = Some a ∧ has name L = true.
Proof.
  intros (Hf & Hg & _). unfold asField, has, field_is in *. destruct (get name L) as [r|]; [by split|].
  by destruct (proj1 Hg eq_refl).
Qed.

Lemma frame_asField f data L : printedAs f data L → asField "frame" L = Some (FrameName f).
Proof. intros Hp. unfold asField. by rewrite (pa_frame _ _ _ Hp). Qed.

Lemma targetJoinFields_printed f data L keys :
  printedAs f data L → length (List.filter fv_printed (frame_desc f)) = length keys →
  forallb (λ k, has k L) keys = true → targetJoinFields data (FrameName f) keys = Some L.
Proof.
  intros Hp Hl Hh. unfold targetJoinFields. rewrite (strictObject_printed _ _ _ Hp). cbn [mbind option_bind].
  rewrite (pa_length _ _ _ Hp), Hl, Nat.add_1_r, bool_decide_true by done. cbn [when mbind option_bind].
  rewrite (frame_asField _ _ _ Hp). cbn [mbind option_bind]. by rewrite bool_decide_true, Hh.
Qed.

(** With another number of members the frame is not taken. *)
Lemma targetJoinFields_length f data L keys :
  printedAs f data L → length (List.filter fv_printed (frame_desc f)) ≠ length keys →
  targetJoinFields data (FrameName f) keys = None.
Proof.
  intros Hp Hl. unfold targetJoinFields. rewrite (strictObject_printed _ _ _ Hp). cbn [mbind option_bind].
  by rewrite (pa_length _ _ _ Hp), Nat.add_1_r, bool_decide_false by lia.
Qed.

(** Turn what the members hold into equations of the decoder's lookups. *)
Ltac look_up Hp :=
  let Hr := fresh "Hr" in
  pose proof (pa_read _ _ _ Hp) as Hr; cbn [frame_desc] in Hr;
  lazymatch type of Hr with Forall _ (?desc _) => unfold desc in Hr end;
  repeat (apply list.Forall_cons in Hr;
          let H := fresh "Hf" in destruct Hr as [H Hr];
          first [apply read_asField in H; destruct H as [? ?]|idtac]);
  clear Hr.

Ltac rewrite_fields :=
  repeat match goal with
    | H : asField ?k ?L = Some _ |- context [asField ?k ?L] => rewrite H; cbn [mbind option_bind]
    end.

(** A frame all of whose members are required. *)
Ltac strict_frame Hp :=
  look_up Hp;
  match goal with
  | |- context [targetJoinFields ?data ?name ?keys] =>
      let H := fresh in
      pose proof (targetJoinFields_printed _ _ _ keys Hp eq_refl) as H; cbn [FrameName] in H;
      rewrite H by (cbn [forallb]; repeat match goal with H : has _ _ = true |- _ => rewrite H; clear H end; reflexivity);
      clear H
  end;
  cbn [mbind option_bind]; rewrite_fields.

(** ** What the decoders accept *)

Definition wantsAttempt (n : Z) : bool := bool_decide (0 ≤ n).

Definition acceptableEvent (session : string) (e : HistoryPageEvent) : bool :=
  bool_decide (hpe_Frame e = "event") && bool_decide (hpe_Type e ≠ "") && bool_decide (hpe_SessionID e = session)
  && bool_decide (1 ≤ hpe_Seq e)
  && match hpe_Payload e with Raw p => bool_decide (len p ≤ MaxEventPayloadBytes) | NilRaw => false end
  && EventTypeAllowed ProtocolVersionV2 (hpe_Type e) true.

(** The conditions each decoder puts on the values of its frame. *)
Definition acceptable (f : Frame) : bool :=
  match f with
  | FHello _ | FHelloAck _ | FEvent _ | FCommandAck _ | FPing _ | FPong _ | FErrorFrame _ => true
  | FCommand c =>
      bool_decide (cmd_Type c ≠ "session.settings.change")
      || validSettingsCommandID (cmd_CommandID c) && validSettingsCommandID (cmd_SessionID c)
         && match cmd_Payload c with
            | Raw p => match DecodeSettingsChangePayload p with
                       | Some _ => true
                       | None => match EncryptedPacket.DecodeEncryptedPacketCarrier p "command" (cmd_Type c) (cmd_CommandID c) with
                                 | Some _ => true
                                 | None => false
                                 end
                       end
            | NilRaw => false
            end
  | FEventReceipt v => lenBetween 1 (er_ProposalID v) 255 && bool_decide (1 ≤ er_Seq v) && bool_decide (er_Status v = "accepted")
  | FHistoryPageRequest v =>
      bool_decide (hpq_RequestID v ≠ "") && bool_decide (hpq_SessionID v ≠ "")
      && between 1 (hpq_Limit v) HistoryPageMaxLimit && optionally (λ n, bool_decide (1 ≤ n)) (hpq_BeforeSeq v)
  | FHistoryPageResponse v =>
      bool_decide (hpr_RequestID v ≠ "") && bool_decide (hpr_SessionID v ≠ "")
      && match hpr_Events v with
         | NilSlice => false
         | Slice l _ => bool_decide (Z.of_nat (length l) ≤ HistoryPageMaxLimit)
                        && forallb (acceptableEvent (hpr_SessionID v)) l
         end
      && validHistoryPageResponse v
  | FAttentionSubscribe v => validSettingsCommandID (asb_RequestID v)
  | FAttentionSummaryFrame v =>
      validSettingsCommandID (asf_RequestID v) && bool_decide (asf_Kind v ∈ ["snapshot"; "update"])
      && bool_decide (asf_SubscriptionState v ∈ ["complete"; "incomplete"])
      && match asf_Summaries v with
         | NilSlice => false
         | Slice l _ => bool_decide (length l ≤ 64)%nat && forallb validAttentionSummary l
                        && bool_decide (NoDup (as_SessionID <$> l))
         end
  | FTargetJoin v =>
      bool_decide (tj_ProtocolVersion v = ProtocolVersionV2)
      && lenBetween MinTargetJoinNonceBytes (tj_JoinNonce v) MaxTargetJoinNonceBytes
  | FTargetJoinChallenge v =>
      bool_decide (tjc_TargetSessionID v ≠ "") && lenBetween MinTargetJoinNonceBytes (tjc_JoinNonce v) MaxTargetJoinNonceBytes
      && bool_decide (0 < tjc_ExpiresAt v)
  | FTargetJoinCredential v =>
      lenBetween 1 (tjd_Credential v) MaxTargetJoinCredentialBytes && bool_decide (tjd_TargetSessionID v ≠ "")
      && bool_decide (tjd_TargetCredentialLineageRef v ≠ "") && bool_decide (1 ≤ tjd_Generation v)
      && bool_decide (0 < tjd_ExpiresAt v)
  | FCredentialRotationRequest v => validRotationID (crr_RotationID v)
  | FCredentialRotationCredential v =>
      bool_decide (crc_SessionID v ≠ "") && validRotationID (crc_RotationID v) && bool_decide (1 ≤ crc_Generation v)
      && lenBetween 1 (crc_Credential v) MaxTargetJoinCredentialBytes && bool_decide (0 < crc_ExpiresAt v)
  | FCredentialRotationPossession v =>
      bool_decide (crp_SessionID v ≠ "") && validRotationID (crp_RotationID v) && bool_decide (1 ≤ crp_Generation v)
      && bool_decide (1 ≤ crp_AcceptedEpoch v)
  | FCredentialRotationActivation v =>
      validRotationID (cra_RotationID v) && bool_decide (1 ≤ cra_Generation v) && bool_decide (1 ≤ cra_ConnectionEpoch v)
      && bool_decide (1 ≤ cra_AcceptedFence v)
  | FSettingsDeliveryExecute v =>
      validSettingsCommandID (sde_SessionID v) && validSettingsCommandID (sde_CommandID v)
      && bool_decide (1 ≤ sde_ReservationVersion v) && bool_decide (sde_OperationTimeoutMS v = 30000)
  | FProviderStart v => wantsAttempt (ps_Attempt v)
  | FProviderStartPrepare v => wantsAttempt (psp_Attempt v)
  | FProviderStartStarted v => wantsAttempt (pss_Attempt v)
  | FProviderStartAck v =>
      wantsAttempt (psa_Attempt v) && bool_decide (psa_Status v ∈ ["admitted"; "rejected"])
      && (bool_decide (psa_RecoveryHandle v = "")
          || validRecoveryHandle (psa_RecoveryHandle v) && bool_decide (1 ≤ psa_Attempt v)
             && bool_decide (psa_Status v ≠ "rejected"))
  end.

Ltac struct_decoded :=
  let ms := fresh "ms" in let Hk := fresh in let Hn := fresh in let Hr := fresh in
  intros ms Hk Hn Hr; cbn [frame_desc] in Hr;
  lazymatch type of Hr with Forall _ (?desc _) => unfold desc in Hr end;
  lazymatch goal with |- ?decode ms zero = Some ?v => unfold decode; read_fields; by destruct v end.

Lemma decode_strict f data L :
  printedAs f data L → acceptable f = true →
  match f with
  | FEventReceipt _ | FTargetJoin _ | FTargetJoinChallenge _ | FTargetJoinCredential _ | FCredentialRotationRequest _
  | FCredentialRotationCredential _ | FCredentialRotationPossession _ | FCredentialRotationActivation _
  | FSettingsDeliveryExecute _ | FAttentionSubscribe _ => decodeFrame (FrameName f) data = Some f
  | _ => True
  end.
Proof.
  intros Hp Ha. destruct f; try exact I; cbn [acceptable] in Ha;
    cbn [FrameName decodeFrame String.eqb Ascii.eqb Bool.eqb];
    lazymatch goal with |- ?decode data = Some _ => unfold decode end;
    strict_frame Hp; rewrite Ha; cbn [when mbind option_bind]; by destruct v.
Qed.

Lemma decode_struct f data L :
  printedAs f data L →
  match f with
  | FHello _ | FHelloAck _ | FCommandAck _ | FPing _ | FPong _ | FErrorFrame _ => decodeFrame (FrameName f) data = Some f
  | _ => True
  end.
Proof.
  intros Hp. destruct f; try exact I; cbn [FrameName decodeFrame String.eqb Ascii.eqb Bool.eqb].
  - rewrite (decodeInto_printed h_decode _ _ _ v Hp); [done|done|struct_decoded].
  - rewrite (decodeInto_printed ha_decode _ _ _ v Hp); [done|done|struct_decoded].
  - rewrite (decodeInto_printed ca_decode _ _ _ v Hp); [done|done|struct_decoded].
  - rewrite (decodeInto_printed ping_decode _ _ _ v Hp); [done|done|struct_decoded].
  - rewrite (decodeInto_printed pong_decode _ _ _ v Hp); [done|done|struct_decoded].
  - rewrite (decodeInto_printed ef_decode _ _ _ v Hp); [done|done|struct_decoded].
Qed.

Lemma decode_event v data L : printedAs (FEvent v) data L → decodeFrame "event" data = Some (FEvent v).
Proof.
  intros Hp. cbn [decodeFrame String.eqb Ascii.eqb Bool.eqb]. unfold decodeEvent.
  rewrite (strictObject_printed _ _ _ Hp). cbn [mbind option_bind]. rewrite (frame_asField _ _ _ Hp).
  cbn [mbind option_bind FrameName]. rewrite bool_decide_true by done. cbn [when mbind option_bind].
  rewrite (withoutFrame_decoded ev_decode _ _ _ v Hp); [done|done|struct_decoded].
Qed.

(** The text of a member that holds a raw message. *)
Lemma read_raw L name p : fv_read L (fv name false (Raw p)) → ∃ r, get name L = Some r ∧ text r = p.
Proof.
  intros (Hf & Hg & _). unfold field_is in Hf. destruct (get name L) as [r|].
  - exists r. split; [done|]. cbn in Hf. by injection Hf.
  - by destruct (proj1 Hg eq_refl).
Qed.

Lemma decode_command v data L :
  printedAs (FCommand v) data L → acceptable (FCommand v) = true → decodeFrame "command" data = Some (FCommand v).
Proof.
  intros Hp Ha. cbn [decodeFrame String.eqb Ascii.eqb Bool.eqb]. unfold decodeCommand.
  rewrite (decodeInto_printed cmd_decode _ _ _ v Hp); [|done|struct_decoded]. cbn [mbind option_bind].
  cbn [acceptable] in Ha. destruct (bool_decide (cmd_Type v ≠ "session.settings.change")) eqn:E; [done|].
  cbn [orb] in Ha. rewrite !andb_true_iff in Ha. destruct Ha as [[Hc Hs] Hpay].
  destruct (cmd_Payload v) as [|p] eqn:Epay; [done|].
  pose proof (pa_read _ _ _ Hp) as Hr. cbn [frame_desc] in Hr. unfold cmd_desc in Hr.
  rewrite Epay in Hr. do 4 (apply list.Forall_cons in Hr; let H := fresh "Hf" in destruct Hr as [H Hr]).
  destruct (read_raw _ _ _ Hf2) as (r & Hget & <-).
  apply read_asField in Hf as [_ Hf], Hf0 as [_ Hf0], Hf1 as [_ Hf1], Hf2 as [_ Hf2].
  pose proof (targetJoinFields_printed _ _ _ ["cmd_id"; "type"; "session_id"; "payload"] Hp eq_refl) as Hfields.
  cbn [FrameName] in Hfields. rewrite Hfields by (cbn [forallb]; by rewrite Hf, Hf0, Hf1, Hf2).
  cbn [mbind option_bind]. rewrite Hc, Hs. cbn [andb when mbind option_bind]. rewrite Hget. cbn [mbind option_bind].
  by repeat case_match.
Qed.

Lemma canonical_unique t v w : canonical t v → canonical t w → v = w.
Proof.
  intros Hv Hw.
  pose proof (value_ext _ (fuel_of (bytes_of t)) _ (nest v `max` nest w)%nat _ _ _ [] (can_value _ _ Hv) delimited_nil) as H1.
  pose proof (value_ext _ (fuel_of (bytes_of t)) _ (nest v `max` nest w)%nat _ _ _ [] (can_value _ _ Hw) delimited_nil) as H2.
  rewrite H1 in H2 by lia. specialize (H2 (le_n _) ltac:(lia)). by injection H2.
Qed.

(** ** Provider starts *)

(** A field that may have been left out. *)
Lemma read_optional {A} `{Printable A} L name (a : A) :
  fv_read L (fv name true a) →
  (isEmpty a = true ∧ get name L = None) ∨ (isEmpty a = false ∧ has name L = true ∧ ∃ r, get name L = Some r ∧ unmarshal r zero = Some a).
Proof.
  intros (Hf & Hg & _). unfold field_is, has in *. destruct (get name L) as [r|].
  - right. destruct (isEmpty a); [|by eauto]. exfalso. by specialize (proj2 Hg (conj eq_refl eq_refl)).
  - left. split; [|done]. by apply Hg.
Qed.

Lemma attempt_read L n : fv_read L (fv "attempt" true n) → 0 ≤ n →
  attemptOf L = Some n ∧ (n ≠ 0 → has "attempt" L = true).
Proof.
  intros Hr Hn. unfold attemptOf. destruct (read_optional _ _ _ Hr) as [[He ->]|(He & Hh & r & -> & Hu)].
  - apply bool_decide_eq_true in He. by subst.
  - apply bool_decide_eq_false in He. change (@zero Z int_json) with 0 in Hu. rewrite Hu. cbn [mbind option_bind].
    by rewrite bool_decide_true by lia.
Qed.

(** The two member lists of the frames that only carry an attempt. *)
Lemma firstFields_attempt f data L n :
  printedAs f data L → frame_desc f = [fv "attempt" true n] → 0 ≤ n →
  firstFields data (FrameName f) [["attempt"]; []] = Some L ∧ attemptOf L = Some n.
Proof.
  intros Hp Hd Hn. pose proof (pa_read _ _ _ Hp) as Hr. rewrite Hd in Hr. apply list.Forall_cons in Hr as [Hr _].
  destruct (attempt_read _ _ Hr Hn) as [Ha Hh]. split; [|done]. cbn [firstFields].
  destruct (decide (n = 0)) as [->|Hne].
  - rewrite (targetJoinFields_length _ _ _ _ Hp) by (by rewrite Hd).
    by rewrite (targetJoinFields_printed _ _ _ _ Hp) by (by rewrite ?Hd).
  - rewrite (targetJoinFields_printed _ _ _ _ Hp); [done| |].
    + rewrite Hd. cbn. by rewrite bool_decide_false.
    + cbn [forallb]. by rewrite Hh.
Qed.

Lemma decode_provider f data L :
  printedAs f data L → acceptable f = true →
  match f with
  | FProviderStart _ | FProviderStartPrepare _ | FProviderStartStarted _ => decodeFrame (FrameName f) data = Some f
  | _ => True
  end.
Proof.
  intros Hp Ha. destruct f; try exact I; cbn [acceptable] in Ha; apply bool_decide_eq_true in Ha;
    destruct (firstFields_attempt _ _ _ _ Hp eq_refl Ha) as [Hf Hn];
    cbn [FrameName decodeFrame String.eqb Ascii.eqb Bool.eqb] in Hf |- *;
    lazymatch goal with |- ?decode data = Some _ => unfold decode end;
    rewrite Hf; cbn [mbind option_bind]; rewrite Hn; by destruct v.
Qed.

Lemma decode_provider_ack v data L :
  printedAs (FProviderStartAck v) data L → acceptable (FProviderStartAck v) = true →
  decodeFrame "provider.start.ack" data = Some (FProviderStartAck v).
Proof.
  intros Hp Ha. cbn [acceptable] in Ha. rewrite !andb_true_iff in Ha.
  destruct Ha as [[Hn%bool_decide_eq_true Hstatus] Hhandle].
  pose proof (pa_read _ _ _ Hp) as Hr. cbn [frame_desc] in Hr. unfold psa_desc in Hr.
  do 3 (apply list.Forall_cons in Hr; let H := fresh "Hf" in destruct Hr as [H Hr]). clear Hr.
  destruct (attempt_read _ _ Hf Hn) as [Hattempt Hhas]. apply read_asField in Hf0 as [Hst Hhs].
  assert (firstFields data "provider.start.ack" [["attempt"; "status"; "recovery_handle"]; ["attempt"; "status"]; ["status"]] = Some L) as Hfields.
  { change "provider.start.ack" with (FrameName (FProviderStartAck v)). cbn [firstFields].
    assert (length (List.filter fv_printed (frame_desc (FProviderStartAck v))) =
      (if bool_decide (psa_Attempt v = 0%Z) then 0 else 1) + 1 + (if bool_decide (psa_RecoveryHandle v = "") then 0 else 1))%nat as Hl.
    { cbn. by destruct (bool_decide (psa_Attempt v = 0)), (bool_decide (psa_RecoveryHandle v = "")). }
    destruct (read_optional _ _ _ Hf1) as [[He Hg]|(He & Hh & _)]; cbn in He; rewrite He in Hl.
    - destruct (decide (psa_Attempt v = 0)) as [E|E]; [rewrite bool_decide_true in Hl by done|rewrite bool_decide_false in Hl by done].
      + rewrite !(targetJoinFields_length _ _ _ _ Hp) by (rewrite Hl; done).
        rewrite (targetJoinFields_printed _ _ _ ["status"] Hp Hl); [done|]. cbn [forallb]. by rewrite Hhs.
      + rewrite (targetJoinFields_length _ _ _ _ Hp) by (rewrite Hl; done).
        rewrite (targetJoinFields_printed _ _ _ ["attempt"; "status"] Hp Hl); [done|]. cbn [forallb]. by rewrite Hhs, Hhas.
    - rewrite He in Hhandle. cbn [orb] in Hhandle. rewrite !andb_true_iff in Hhandle.
      destruct Hhandle as [[_ H1%bool_decide_eq_true] _]. rewrite bool_decide_false in Hl by lia.
      rewrite (targetJoinFields_printed _ _ _ ["attempt"; "status"; "recovery_handle"] Hp Hl); [done|].
      cbn [forallb]. by rewrite Hhs, Hhas, Hh by lia. }
  cbn [decodeFrame String.eqb Ascii.eqb Bool.eqb]. unfold decodeProviderStartAck. rewrite Hfields. cbn [mbind option_bind].
  rewrite Hattempt. cbn [mbind option_bind]. rewrite Hst. cbn [mbind option_bind]. rewrite Hstatus. cbn [when mbind option_bind].
  destruct (read_optional _ _ _ Hf1) as [[He Hg]|(He & Hh & r & Hg & Hu)]; cbn in He; rewrite Hg.
  - apply bool_decide_eq_true in He. cbn [mbind option_bind]. rewrite (bool_decide_false (_ ≠ _)) by naive_solver.
    rewrite andb_false_r. destruct v. cbn in *. by subst.
  - change (@zero string string_json) with "" in Hu. rewrite Hu. cbn [mbind option_bind].
    rewrite He in Hhandle. cbn [orb] in Hhandle. rewrite !andb_true_iff in Hhandle.
    destruct Hhandle as [[-> _] Hrej%bool_decide_eq_true]. cbn [mbind option_bind].
    rewrite (bool_decide_false (_ = "rejected")) by done. by destruct v.
Qed.

End CodecProofs.
