(* ===== verification/CodecRoundtrip.v ===== *)
(** * The round trip of the codec

    The frames whose members hold lists and nested objects (history pages and
    attention summaries), and the theorem for all frames. *)

From S2P Require Import Prelude StoreApi Json Wire JsonProofs WireProofs Printable EncryptedPacket CodecPayloads.
From S2P Require Import GoText Frames FrameFields Codec CodecProofs.
From stdpp Require Import base strings list option.
#[local] Open Scope Z_scope.

Module CodecRoundtrip.
Import Json Wire JsonProofs WireProofs Printable GoText CodecPayloads Frames FrameFields Codec CodecProofs.

(** ** Objects and lists inside a frame *)

(** The text of a struct is an object with exactly its printed fields. *)
Lemma struct_strict {S} `{GoJson S} d (fs : list fieldv) (s : S) t :
  marshal s = struct (fv_out <$> fs) → Forall (fv_static d) fs → NoDup (fv_name <$> fs) → (d < maxNestingDepth)%nat →
  Forall fv_ok fs → marshal s = Some t →
  ∃ ms, strictObject t = Some ms ∧ Forall (fv_read ms) fs ∧ Forall (λ m, m.1 ∈ (fv_name <$> fs)) ms
        ∧ length ms = length (List.filter fv_printed fs).
Proof.
  intros Hm Hs Hn Hd Ho Ht. destruct (fields_encoded d fs Hs Hn Ho) as (ms & He & Hr & Hk).
  rewrite Hm, (enc_text _ _ _ _ He) in Ht. injection Ht as <-. exists ms. split_and!; [|done|apply He|].
  - apply strictObject_print; [apply He|by eapply encoded_shallow|apply He].
  - by rewrite <- (length_fmap fst ms), Hk, length_fmap.
Qed.

Lemma slice_asList {A} `{Printable A} l r :
  Forall ok l → (S (depth_of (A := A)) ≤ maxNestingDepth)%nat →
  marshal (Slice l []) = Some (text r) → canonical_raw r →
  ∃ rs, asList r = Some rs ∧ Forall2 (λ a r, marshal a = Some (text r) ∧ canonical_raw r) l rs.
Proof.
  intros Hl Hd Hm Hc. destruct (printed_list l Hl) as (rs & Hrs & Hcan & Hn & _). exists rs.
  cbn [marshal slice_json] in Hm. rewrite Hrs in Hm. injection Hm as Hm.
  pose proof (canonical_array rs Hcan) as Ha. rewrite Hm in Ha.
  pose proof (canonical_unique _ _ _ Ha Hc) as Hast. split.
  - unfold asList. rewrite <- Hast, <- Hm.
    assert (nest_list (ast <$> rs) ≤ maxNestingDepth)%nat as Hb.
    { transitivity (depth_of (A := A)); [by apply nest_list_bound, list.Forall_fmap|lia]. }
    pose proof (rawArray_print rs [] Hcan Hb) as Hr. rewrite app_nil_r in Hr. by rewrite Hr.
  - apply mapM_Some in Hrs. rewrite Forall2_fmap_r in Hrs. clear -Hrs Hcan.
    induction Hrs as [|a r l rs Hm _ IH]; [constructor|]. apply list.Forall_cons in Hcan as [Hr Hcan].
    constructor; [done|by apply IH].
Qed.

Lemma mapM_Forall2 {A B} (f : B → option A) l rs : Forall2 (λ a r, f r = Some a) l rs → mapM f rs = Some l.
Proof. induction 1 as [|a r l rs Ha _ IH]; [done|]. cbn. by rewrite Ha, IH. Qed.

Lemma canonical_not_null r : canonical_raw r → ast r ≠ JNull → isNull r = false.
Proof.
  intros Hc Hn. apply bool_decide_eq_false. intros E. destruct r as [t a]. cbn in E. subst t.
  by apply Hn, (canonical_unique _ _ _ Hc canonical_null).
Qed.

(** A pointer field that is left out when nil. *)
Lemma read_pointer {A} `{Solid A} L name (o : option A) :
  fv_read L (fv name true o) →
  (o = None ∧ get name L = None) ∨
  (∃ a r, o = Some a ∧ get name L = Some r ∧ unmarshal r zero = Some a ∧ marshal a = Some (text r)
          ∧ canonical_raw r ∧ isNull r = false).
Proof.
  intros (Hf & Hg & Hm). unfold field_is in Hf. destruct (get name L) as [r|].
  - right. destruct (Hm r eq_refl) as [Hmar Hc]. destruct o as [a|].
    + exists a, r. cbn in Hf, Hmar. assert (ast r ≠ JNull) as Hn by (intros E; by rewrite E in Hf).
      split_and!; try done; [|by apply canonical_not_null].
      by destruct (ast r); [done|..]; destruct (unmarshal r zero); cbn in Hf; simplify_eq.
    + by specialize (proj2 Hg (conj eq_refl eq_refl)).
  - left. by injection Hf as <-.
Qed.

Lemma decodeOptional_read {A} `{Solid A} L name (o : option A) :
  fv_read L (fv name true o) → decodeOptional (get name L) = Some o.
Proof.
  intros Hr. destruct (read_pointer _ _ _ Hr) as [[-> ->]|(a & r & -> & -> & Hu & _ & _ & Hn)]; [done|].
  cbn. by rewrite Hn, Hu.
Qed.

(** ** History pages *)

Ltac some_fields Hr :=
  repeat (apply list.Forall_cons in Hr;
          let H := fresh "Hf" in destruct Hr as [H Hr]);
  clear Hr.

Lemma decode_history_event session e r :
  Forall fv_ok (hpe_desc e) → acceptableEvent session e = true → marshal e = Some (text r) →
  decodeHistoryPageEvent session r = Some e.
Proof.
  intros Ho Ha Hm.
  destruct (struct_strict rawDepth (hpe_desc e) e (text r)) as (ms & Hms & Hr & Hk & Hl); try done.
  { solve_static. } { solve_NoDup. } { pose proof rawDepth_max; lia. }
  unfold acceptableEvent in Ha. rewrite !andb_true_iff in Ha. destruct Ha as (((((H1 & H2) & H3) & H4) & H5) & H6).
  destruct (hpe_Payload e) as [|p] eqn:Ep; [done|].
  unfold hpe_desc in Hr. rewrite Ep in Hr. some_fields Hr.
  destruct (read_raw _ _ _ Hf4) as (rp & Hget & <-).
  apply read_asField in Hf as [Hf _], Hf0 as [Hf0 _], Hf1 as [Hf1 _], Hf2 as [Hf2 _], Hf3 as [Hf3 _].
  unfold decodeHistoryPageEvent. rewrite Hms. cbn [mbind option_bind]. rewrite Hl, bool_decide_true by done.
  assert (only ["frame"; "type"; "session_id"; "seq"; "time"; "payload"] ms = true) as ->.
  { unfold only. apply forallb_forall. intros m Hin%list_elem_of_In. rewrite list.Forall_forall in Hk.
    apply bool_decide_eq_true, (Hk m Hin). }
  cbn [andb when mbind option_bind]. rewrite Hf. cbn [mbind option_bind]. rewrite H1. cbn [when mbind option_bind].
  rewrite Hf0. cbn [mbind option_bind]. rewrite H2. cbn [when mbind option_bind].
  rewrite Hf1. cbn [mbind option_bind]. rewrite H3. cbn [when mbind option_bind].
  rewrite Hf2. cbn [mbind option_bind]. rewrite H4. cbn [when mbind option_bind].
  rewrite Hf3. cbn [mbind option_bind]. rewrite Hget. cbn [mbind option_bind]. rewrite H5, H6. cbn [andb when mbind option_bind].
  destruct e. cbn in *. by subst.
Qed.

Lemma printed_key f data L m : printedAs f data L → m ∈ L → m.1 = "frame" ∨ m.1 ∈ (fv_name <$> frame_desc f).
Proof.
  intros Hp Hm. destruct (decide (m.1 = "frame")) as [?|Hne]; [by left|right].
  pose proof (pa_names _ _ _ Hp) as Hn. rewrite list.Forall_forall in Hn. by apply (Hn m), elem_of_remove.
Qed.

Lemma printed_absent f data L k :
  printedAs f data L → k ∉ "frame" :: (fv_name <$> frame_desc f) → has k L = false.
Proof.
  intros Hp Hk. unfold has. rewrite get_None; [done|]. intros ([k' r] & -> & Hin)%list_elem_of_fmap.
  apply Hk. apply elem_of_cons. by apply (printed_key _ _ _ _ Hp) in Hin.
Qed.

Lemma printed_only f data L keys :
  printedAs f data L → forallb (λ k, bool_decide (k ∈ keys)) ("frame" :: (fv_name <$> frame_desc f)) = true →
  only keys L = true.
Proof.
  intros Hp Hk. unfold only. apply forallb_forall. intros m Hm%list_elem_of_In.
  rewrite forallb_forall in Hk. apply Hk. apply list_elem_of_In, elem_of_cons. by eapply printed_key.
Qed.

Ltac absent Hp k :=
  rewrite (printed_absent _ _ _ k Hp) by (apply (bool_decide_unpack _); vm_compute; exact I).

Lemma decode_history_request v data L :
  printedAs (FHistoryPageRequest v) data L → acceptable (FHistoryPageRequest v) = true →
  decodeFrame "history.page" data = Some (FHistoryPageRequest v).
Proof.
  intros Hp Ha. cbn [acceptable] in Ha. rewrite !andb_true_iff in Ha. destruct Ha as [[[H1 H2] H3] H4].
  pose proof (pa_read _ _ _ Hp) as Hr. cbn [frame_desc] in Hr. unfold hpq_desc in Hr. some_fields Hr.
  apply read_asField in Hf as [Hf _], Hf0 as [Hf0 _], Hf2 as [Hf2 _].
  cbn [decodeFrame String.eqb Ascii.eqb Bool.eqb]. unfold decodeHistoryPage.
  rewrite (strictObject_printed _ _ _ Hp). cbn [mbind option_bind].
  rewrite (printed_only _ _ _ _ Hp) by done. cbn [when mbind option_bind].
  rewrite (frame_asField _ _ _ Hp). cbn [mbind option_bind FrameName]. rewrite bool_decide_true by done.
  cbn [when mbind option_bind].
  absent Hp "events". absent Hp "latest_seq". absent Hp "next_before_seq". absent Hp "retention_state". cbn [orb].
  unfold decodeHistoryPageRequest, decodeRequiredHistoryFields. rewrite Hf. cbn [mbind option_bind]. rewrite H1.
  cbn [when mbind option_bind]. rewrite Hf0. cbn [mbind option_bind]. rewrite H2. cbn [when mbind option_bind].
  rewrite Hf2. cbn [mbind option_bind]. rewrite H3. cbn [when mbind option_bind].
  destruct Hf1 as (Hread & Hg & Hm). unfold field_is in Hread. destruct (get "before_seq" L) as [r|].
  - destruct (hpq_BeforeSeq v) as [n|] eqn:En.
    + destruct (Hm r eq_refl) as [_ Hcan].
      rewrite (canonical_not_null r Hcan) by (intros E; cbn in Hread; by rewrite E in Hread).
      change (@zero (option Z) _) with (@None Z) in Hread. rewrite Hread. cbn [mbind option_bind].
      cbn [optionally] in H4. rewrite H4. cbn [mbind option_bind]. destruct v. cbn in *. by subst.
    + by specialize (proj2 Hg (conj eq_refl eq_refl)).
  - cbn [mbind option_bind]. injection Hread as Hread. change (@zero (option Z) _) with (@None Z) in Hread.
    destruct v. cbn in *. by subst.
Qed.

Lemma decode_history_response v data L :
  carried (FHistoryPageResponse v) → printedAs (FHistoryPageResponse v) data L →
  acceptable (FHistoryPageResponse v) = true → decodeFrame "history.page" data = Some (FHistoryPageResponse v).
Proof.
  intros Hok Hp Ha. cbn [acceptable] in Ha. rewrite !andb_true_iff in Ha. destruct Ha as [[[H1 H2] H3] H4].
  destruct (hpr_Events v) as [|l spare] eqn:Eev; [done|]. rewrite !andb_true_iff in H3. destruct H3 as [Hlen Hev].
  unfold carried in Hok. cbn [frame_desc] in Hok. unfold hpr_desc in Hok. rewrite Eev in Hok.
  do 2 apply list.Forall_cons in Hok as [_ Hok]. apply list.Forall_cons in Hok as [[[-> Hl] _] _].
  pose proof (pa_read _ _ _ Hp) as Hr. cbn [frame_desc] in Hr. unfold hpr_desc in Hr. rewrite Eev in Hr. some_fields Hr.
  destruct Hf1 as (Hread & Hg & Hm). apply read_asField in Hf as [Hf _], Hf0 as [Hf0 _], Hf2 as [Hf2 Hl2], Hf3 as [Hf3 _], Hf4 as [Hf4 _].
  cbn [decodeFrame String.eqb Ascii.eqb Bool.eqb]. unfold decodeHistoryPage.
  rewrite (strictObject_printed _ _ _ Hp). cbn [mbind option_bind].
  rewrite (printed_only _ _ _ _ Hp) by done. cbn [when mbind option_bind].
  rewrite (frame_asField _ _ _ Hp). cbn [mbind option_bind FrameName]. rewrite bool_decide_true by done.
  cbn [when mbind option_bind]. rewrite Hl2, orb_true_r. cbn [orb].
  unfold decodeHistoryPageResponse, decodeRequiredHistoryFields. absent Hp "before_seq". absent Hp "limit".
  cbn [orb negb when mbind option_bind].
  rewrite Hf. cbn [mbind option_bind]. rewrite H1. cbn [when mbind option_bind].
  rewrite Hf0. cbn [mbind option_bind]. rewrite H2. cbn [when mbind option_bind].
  unfold field_is in Hread. destruct (get "events" L) as [r|]; [|by destruct (proj1 Hg eq_refl)]. cbn [mbind option_bind].
  destruct (Hm r eq_refl) as [Hmar Hcan].
  rewrite (canonical_not_null r Hcan) by (intros E; cbn in Hread; by rewrite E in Hread).
  cbn [negb when mbind option_bind]. rewrite Hf2. cbn [mbind option_bind]. rewrite Hf3. cbn [mbind option_bind].
  rewrite Hf4. cbn [mbind option_bind]. unfold decodeHistoryPageEvents.
  destruct (slice_asList l r Hl ltac:(solve_depth) Hmar Hcan) as (rs & Has & Hrs). rewrite Has. cbn [mbind option_bind].
  rewrite <- (Forall2_length Hrs), Hlen. cbn [when mbind option_bind].
  rewrite (mapM_Forall2 _ l).
  - cbn [mbind option_bind]. rewrite <- Eev. destruct v. cbn in *. subst. by rewrite H4.
  - clear -Hrs Hev Hl. induction Hrs as [|e r l rs [He _] _ IH]; [constructor|].
    cbn in Hev. apply andb_true_iff in Hev as [Hev1 Hev]. apply list.Forall_cons in Hl as [He1 Hl].
    constructor; [by apply decode_history_event|by apply IH].
Qed.

(** ** Attention summaries *)

Lemma struct_only fs (ms : list (string * raw)) keys :
  Forall (λ m, m.1 ∈ (fv_name <$> fs)) ms → forallb (λ k, bool_decide (k ∈ keys)) (fv_name <$> fs) = true →
  only keys ms = true.
Proof.
  intros Hms Hk. unfold only. apply forallb_forall. intros m Hm%list_elem_of_In.
  rewrite forallb_forall in Hk. apply Hk, list_elem_of_In. rewrite list.Forall_forall in Hms. by apply Hms.
Qed.

Lemma decode_permission L (o : option AttentionPermission) :
  ok o → fv_read L (fv "permission" true o) → decodeOptionalAttentionPermission (get "permission" L) = Some o.
Proof.
  intros Ho Hr. destruct (read_pointer _ _ _ Hr) as [[-> ->]|(p & r & -> & -> & _ & Hm & _ & Hn)]; [done|].
  destruct (struct_strict 0 (ap_desc p) p (text r)) as (ms & Hms & Hf & _ & Hl); try done.
  { solve_static. } { solve_NoDup. } { unfold maxNestingDepth. lia. }
  unfold ap_desc in Hf. some_fields Hf. apply read_asField in Hf0 as [Hf0 _], Hf1 as [Hf1 _].
  cbn [decodeOptionalAttentionPermission]. rewrite Hn, Hms. cbn [mbind option_bind]. rewrite Hl, bool_decide_true by done.
  cbn [when mbind option_bind]. rewrite Hf0. cbn [mbind option_bind]. rewrite Hf1. by destruct p.
Qed.

Lemma decode_blocker L (o : option AttentionBlocker) :
  ok o → fv_read L (fv "blocker" true o) → decodeOptionalAttentionBlocker (get "blocker" L) = Some o.
Proof.
  intros Ho Hr. destruct (read_pointer _ _ _ Hr) as [[-> ->]|(b & r & -> & -> & _ & Hm & _ & Hn)]; [done|].
  destruct (struct_strict 0 (ab_desc b) b (text r)) as (ms & Hms & Hf & Hk & _); try done.
  { solve_static. } { solve_NoDup. } { unfold maxNestingDepth. lia. }
  unfold ab_desc in Hf. some_fields Hf. apply read_asField in Hf0 as [Hf0 _].
  apply decodeOptional_read in Hf1, Hf2, Hf3, Hf4.
  cbn [decodeOptionalAttentionBlocker]. rewrite Hn, Hms. cbn [mbind option_bind].
  rewrite (struct_only _ _ _ Hk) by done. cbn [when mbind option_bind]. rewrite Hf0. cbn [mbind option_bind].
  rewrite Hf1. cbn [mbind option_bind]. rewrite Hf2. cbn [mbind option_bind].
  rewrite Hf3. cbn [mbind option_bind]. rewrite Hf4. by destruct b.
Qed.

Lemma decode_summary s r :
  Forall fv_ok (as_desc s) → validAttentionSummary s = true → marshal s = Some (text r) →
  decodeAttentionSummary1 r = Some s.
Proof.
  intros Ho Ha Hm.
  destruct (struct_strict 1 (as_desc s) s (text r)) as (ms & Hms & Hf & Hk & _); try done.
  { solve_static. } { solve_NoDup. } { unfold maxNestingDepth. lia. }
  unfold as_desc in Ho, Hf. some_fields Hf.
  repeat (apply list.Forall_cons in Ho; let H := fresh "Ho" in destruct Ho as [[H _] Ho]).
  apply read_asField in Hf0 as [Hf0 _], Hf1 as [Hf1 _], Hf2 as [Hf2 _], Hf7 as [Hf7 _], Hf8 as [Hf8 _].
  apply decode_permission in Hf3; [|done]. apply decode_blocker in Hf6; [|done]. apply decodeOptional_read in Hf4, Hf5.
  unfold decodeAttentionSummary1. rewrite Hms. cbn [mbind option_bind].
  rewrite (struct_only _ _ _ Hk) by done. cbn [when mbind option_bind].
  rewrite Hf0. cbn [mbind option_bind]. rewrite Hf1. cbn [mbind option_bind]. rewrite Hf2. cbn [mbind option_bind].
  rewrite Hf7. cbn [mbind option_bind]. rewrite Hf8. cbn [mbind option_bind]. rewrite Hf3. cbn [mbind option_bind].
  rewrite Hf4. cbn [mbind option_bind]. rewrite Hf5. cbn [mbind option_bind]. rewrite Hf6. cbn [mbind option_bind].
  destruct s. cbn in *. by rewrite Ha.
Qed.

Lemma decode_attention_summary v data L :
  carried (FAttentionSummaryFrame v) → printedAs (FAttentionSummaryFrame v) data L →
  acceptable (FAttentionSummaryFrame v) = true → decodeFrame "attention.summary" data = Some (FAttentionSummaryFrame v).
Proof.
  intros Hok Hp Ha. cbn [acceptable] in Ha. rewrite !andb_true_iff in Ha. destruct Ha as [[[H1 H2] H3] H4].
  destruct (asf_Summaries v) as [|l spare] eqn:Es; [done|]. rewrite !andb_true_iff in H4. destruct H4 as [[Hlen Hval] Hnd].
  unfold carried in Hok. cbn [frame_desc] in Hok. unfold asf_desc in Hok. rewrite Es in Hok.
  do 3 apply list.Forall_cons in Hok as [_ Hok]. apply list.Forall_cons in Hok as [[[-> Hl] _] _].
  pose proof (pa_read _ _ _ Hp) as Hr. cbn [frame_desc] in Hr. unfold asf_desc in Hr. rewrite Es in Hr. some_fields Hr.
  pose proof (read_asField _ _ _ Hf2) as [_ Hhas]. destruct Hf2 as (Hread & Hg & Hm).
  apply read_asField in Hf as [Hf Hh], Hf0 as [Hf0 Hh0], Hf1 as [Hf1 Hh1].
  cbn [decodeFrame String.eqb Ascii.eqb Bool.eqb]. unfold decodeAttentionSummary.
  pose proof (targetJoinFields_printed _ _ _ ["request_id"; "kind"; "subscription_state"; "summaries"] Hp eq_refl) as Hfields.
  cbn [FrameName] in Hfields. rewrite Hfields by (cbn [forallb]; by rewrite Hh, Hh0, Hh1, Hhas). cbn [mbind option_bind].
  rewrite Hf. cbn [mbind option_bind]. rewrite Hf0. cbn [mbind option_bind]. rewrite Hf1. cbn [mbind option_bind].
  rewrite H1, H2, H3. cbn [andb when mbind option_bind].
  destruct (get "summaries" L) as [r|]; [|by destruct (proj1 Hg eq_refl)]. cbn [mbind option_bind].
  destruct (Hm r eq_refl) as [Hmar Hcan]. unfold decodeAttentionSummaries.
  destruct (slice_asList l r Hl ltac:(solve_depth) Hmar Hcan) as (rs & Has & Hrs). rewrite Has. cbn [mbind option_bind].
  rewrite <- (Forall2_length Hrs), Hlen. cbn [when mbind option_bind].
  rewrite (mapM_Forall2 _ l).
  - cbn [mbind option_bind]. rewrite Hval, Hnd. cbn [andb when mbind option_bind]. rewrite <- Es. by destruct v.
  - clear -Hrs Hval Hl. induction Hrs as [|s r l rs [Hs _] _ IH]; [constructor|].
    cbn in Hval. apply andb_true_iff in Hval as [Hv Hval]. apply list.Forall_cons in Hl as [Hs1 Hl].
    constructor; [by apply decode_summary|by apply IH].
Qed.

(** ** The theorem *)

Lemma decodeFrame_printed f data L :
  carried f → acceptable f = true → printedAs f data L → decodeFrame (FrameName f) data = Some f.
Proof.
  intros Hc Ha Hp.
  pose proof (decode_strict f data L Hp Ha) as H1. pose proof (decode_struct f data L Hp) as H2.
  pose proof (decode_provider f data L Hp Ha) as H3.
  destruct f; cbn [FrameName] in *; try done;
    eauto using decode_event, decode_command, decode_provider_ack, decode_history_request, decode_history_response,
      decode_attention_summary.
Qed.

(** C15: Every frame whose values JSON can carry and that satisfies the
    conditions of its kind is encoded, and decoding the encoding gives the
    frame back. *)
Theorem codec_roundtrip f :
  carried f → acceptable f = true → ∃ data, Encode f = Some data ∧ Decode data = inr f.
Proof.
  intros Hc Ha. destruct (Encode_spec f Hc) as (data & L & He & Hp). exists data. split; [done|].
  apply (Decode_printed _ _ _ Hp). by apply (decodeFrame_printed f data L).
Qed.

End CodecRoundtrip.
