(* ===== verification/CodecSafety.v ===== *)
(** * What the decoder lets through

    The other direction of the codec: a frame [Decode] returns satisfies the
    conditions of its kind ([decoded_frames_are_within_bounds]), the frames of
    the strict kinds carry exactly their members, whatever else is on the wire
    ([strict_frames_carry_nothing_else]), and paths of decoded file references
    and file requests stay inside the directory they are resolved in
    ([decoded_paths_stay_inside]). *)

From S2P Require Import Prelude StoreApi Json Wire JsonProofs WireProofs Printable EncryptedPacket CodecPayloads EncryptedRequests.
From S2P Require Import GoText Frames FrameFields Codec CodecProofs.
From stdpp Require Import base strings list option.
#[local] Open Scope Z_scope.

Module CodecSafety.
Import Json Wire JsonProofs WireProofs Printable GoText CodecPayloads EncryptedRequests Frames FrameFields Codec CodecProofs.

(** ** Inverting decoders *)

Lemma when_Some b u : when b = Some u → b = true.
Proof. by destruct b. Qed.

(** Take a successful chain of lookups and checks apart. *)
Ltac inv_decode H :=
  repeat lazymatch type of H with
    | Some _ = Some _ => injection H as H
    | None = Some _ => discriminate H
    | when ?b ≫= _ = Some _ =>
        let E := fresh "Hwhen" in destruct (when b) eqn:E; [apply when_Some in E|discriminate H];
        cbn [mbind option_bind] in H
    | ?o ≫= _ = Some _ =>
        let E := fresh "Hget" in destruct o eqn:E; [|discriminate H]; cbn [mbind option_bind] in H
    | match ?o with _ => _ end = Some _ =>
        let E := fresh "Hcase" in destruct o eqn:E; try discriminate H; cbn [mbind option_bind] in H
    | (if ?b then _ else _) = Some _ =>
        let E := fresh "Hif" in destruct b eqn:E; try discriminate H; cbn [mbind option_bind] in H
    end.

(** The conditions of a frame's kind, except for the payload of a settings
    command, which is checked as it was sent. *)
Definition withinBounds (f : Frame) : bool :=
  match f with
  | FCommand c =>
      bool_decide (cmd_Type c ≠ "session.settings.change")
      || validSettingsCommandID (cmd_CommandID c) && validSettingsCommandID (cmd_SessionID c)
  | _ => acceptable f
  end.

Lemma attemptOf_bound fs n : attemptOf fs = Some n → wantsAttempt n = true.
Proof.
  unfold attemptOf, wantsAttempt. intros H. apply bool_decide_eq_true.
  destruct (get "attempt" fs) as [r|]; [|by injection H as <-].
  destruct (unmarshal r 0) as [m|]; [|done]. cbn in H. case_bool_decide; [|done]. injection H as <-. lia.
Qed.

(** ** Exactly the members *)

Lemma get_key {A} k (l : list (string * A)) v : get k l = Some v → k ∈ (fst <$> l).
Proof.
  induction l as [|[k' v'] l IH]; [done|]. cbn. rewrite elem_of_cons.
  destruct (String.eqb_spec k' k) as [->|_]; [by left|]. intros H. right. by apply IH.
Qed.

Lemma has_key k fs : has k fs = true → k ∈ (fst <$> fs).
Proof.
  unfold has. intros H%bool_decide_eq_true. destruct (get k fs) as [v|] eqn:E; [exact (get_key _ _ _ E)|done].
Qed.

Lemma strictObject_NoDup data fs : strictObject data = Some fs → NoDup (fst <$> fs).
Proof.
  unfold strictObject. destruct (rawObject _) as [[ms r]|]; [|done]. cbn. destruct (skip r); [|done].
  case_bool_decide; [|done]. by intros [= <-].
Qed.

Lemma asField_key {A} `{GoJson A} k fs (a : A) : asField k fs = Some a → k ∈ (fst <$> fs).
Proof. unfold asField. destruct (get k fs) as [v|] eqn:E; [|done]. intros _. exact (get_key _ _ _ E). Qed.

Lemma targetJoinFields_exact data frame keys fs :
  targetJoinFields data frame keys = Some fs → NoDup ("frame" :: keys) →
  strictObject data = Some fs ∧ fst <$> fs ≡ₚ "frame" :: keys.
Proof.
  unfold targetJoinFields. intros H Hk. inv_decode H. subst.
  apply andb_true_iff in Hwhen0 as [_ Hh]. apply bool_decide_eq_true in Hwhen. split; [done|]. symmetry.
  apply submseteq_length_Permutation; [|rewrite length_fmap; cbn; lia].
  apply NoDup_submseteq; [done|]. intros k [->|Hin]%elem_of_cons; [|].
  { match goal with H : asField "frame" _ = Some _ |- _ => exact (asField_key _ _ _ H) end. }
  rewrite forallb_forall in Hh. by apply has_key, Hh, list_elem_of_In.
Qed.

Lemma firstFields_exact data frame variants fs :
  firstFields data frame variants = Some fs → Forall (λ keys, NoDup ("frame" :: keys)) variants →
  strictObject data = Some fs ∧ ∃ keys, keys ∈ variants ∧ fst <$> fs ≡ₚ "frame" :: keys.
Proof.
  intros H Hv. induction Hv as [|keys variants Hk _ IH]; [done|]. cbn [firstFields] in H.
  destruct (targetJoinFields data frame keys) eqn:E.
  - injection H as <-. destruct (targetJoinFields_exact _ _ _ _ E Hk) as [? ?]. split; [done|]. exists keys. split; [by left|done].
  - destruct (IH H) as [? (k & ? & ?)]. split; [done|]. exists k. split; [by right|done].
Qed.

(** ** Bounds *)

Lemma attemptOf_present fs n : attemptOf fs = Some n → "attempt" ∈ (fst <$> fs) → NoDup (fst <$> fs) → 1 ≤ n.
Proof.
  unfold attemptOf. intros H Hin Hnd. destruct (get "attempt" fs) as [r|] eqn:E.
  - destruct (unmarshal r 0) as [m|]; [|done]. cbn in H. case_bool_decide; [|done]. by injection H as <-.
  - exfalso. apply list_elem_of_fmap in Hin as ([k v] & Heq & Hin). cbn in Heq. subst k.
    apply (get_Some _ _ _ Hnd) in Hin. congruence.
Qed.

Lemma decodeProviderStartAck_bounds data f : decodeProviderStartAck data = Some f → withinBounds f = true.
Proof.
  unfold decodeProviderStartAck. intros H. destruct (firstFields _ _ _) as [fs|] eqn:Hfields; [|done].
  cbn [mbind option_bind] in H.
  destruct (firstFields_exact _ _ _ _ Hfields) as [Hs (keys & Hin & Hperm)].
  { repeat (apply list.Forall_cons; split; [solve_NoDup|]). by apply list.Forall_nil. }
  destruct (attemptOf fs) as [n|] eqn:Hn; [|done]. cbn [mbind option_bind] in H.
  destruct (asField "status" fs) as [status|] eqn:Hst; [|done]. cbn [mbind option_bind] in H.
  destruct (bool_decide (status ∈ ["admitted"; "rejected"])) eqn:Hstatus; [|done]. cbn [when mbind option_bind] in H.
  pose proof (attemptOf_bound _ _ Hn) as Hb. pose proof (strictObject_NoDup _ _ Hs) as Hnd.
  destruct (get "recovery_handle" fs) as [r|] eqn:Hg.
  - destruct (unmarshal r "") as [h|]; [|discriminate H]. cbn [mbind option_bind] in H.
    destruct (validRecoveryHandle h) eqn:Hh; [|discriminate H]. cbn [mbind option_bind] in H.
    destruct (negb _) eqn:Hrej; [|done]. cbn [when mbind option_bind] in H. injection H as <-.
    assert (1 ≤ n) as H1.
    { apply (attemptOf_present _ _ Hn); [|done]. apply get_key in Hg. rewrite Hperm in Hg |- *.
      rewrite !elem_of_cons, elem_of_nil in Hin. destruct Hin as [-> | [-> | [-> | []]]];
        rewrite !elem_of_cons, elem_of_nil in Hg |- *; naive_solver. }
    cbn [withinBounds acceptable psa_Attempt psa_Status psa_RecoveryHandle]. rewrite Hb, Hstatus, Hh, (bool_decide_true (1 ≤ n)) by done.
    destruct (decide (h = "")) as [->|Hne]; [done|]. rewrite (bool_decide_false (h = "")) by done. cbn [andb orb].
    rewrite (bool_decide_true (h ≠ "")) in Hrej by done. rewrite andb_true_r in Hrej.
    apply negb_true_iff, bool_decide_eq_false in Hrej. by rewrite bool_decide_true.
  - cbn [mbind option_bind] in H. destruct (negb _); [|done]. cbn [when mbind option_bind] in H. injection H as <-.
    cbn. by rewrite Hb, Hstatus.
Qed.

Lemma decodeRequiredHistoryFields_bounds fs request session :
  decodeRequiredHistoryFields fs = Some (request, session) →
  bool_decide (request ≠ "") = true ∧ bool_decide (session ≠ "") = true.
Proof. unfold decodeRequiredHistoryFields. intros H. inv_decode H. by simplify_eq. Qed.

Lemma decodeHistoryPageEvent_bounds session r e :
  decodeHistoryPageEvent session r = Some e → acceptableEvent session e = true.
Proof.
  unfold decodeHistoryPageEvent. intros H. inv_decode H. subst e. unfold acceptableEvent.
  cbn [hpe_Frame hpe_Type hpe_SessionID hpe_Seq hpe_Payload].
  repeat match goal with H : _ && _ = true |- _ => apply andb_true_iff in H as [? ?] end.
  repeat match goal with H : ?b = true |- context [?b] => rewrite H end. done.
Qed.

Lemma mapM_forallb {A B} (f : B → option A) (p : A → bool) l rs :
  mapM f rs = Some l → (∀ r a, f r = Some a → p a = true) → forallb p l = true ∧ length l = length rs.
Proof.
  intros H Hp. apply mapM_Some in H. induction H as [|r a rs l Hr _ [IH1 IH2]]; [done|].
  cbn. rewrite IH1, IH2, (Hp _ _ Hr). done.
Qed.

Lemma decodeHistoryPage_bounds data f : decodeHistoryPage data = Some f → withinBounds f = true.
Proof.
  unfold decodeHistoryPage. intros H. destruct (strictObject data) as [fs|] eqn:Hs; [|done]. cbn [mbind option_bind] in H.
  destruct (only _ fs) eqn:Ho; [|done]. cbn [when mbind option_bind] in H.
  destruct (asField "frame" fs) as [frame|]; [|done]. cbn [mbind option_bind] in H.
  destruct (bool_decide (frame = "history.page")); [|done]. cbn [when mbind option_bind] in H.
  destruct (_ || has "retention_state" fs).
  - unfold decodeHistoryPageResponse in H. destruct (negb _); [|done]. cbn [when mbind option_bind] in H.
    destruct (decodeRequiredHistoryFields fs) as [[request session]|] eqn:Hr; [|done]. cbn [mbind option_bind] in H.
    destruct (decodeRequiredHistoryFields_bounds _ _ _ Hr) as [H1 H2].
    inv_decode H. subst f. cbn [withinBounds acceptable hpr_RequestID hpr_SessionID hpr_Events]. rewrite H1, H2.
    match goal with H : decodeHistoryPageEvents _ _ = Some _ |- _ => unfold decodeHistoryPageEvents in H; rename H into Hev end.
    destruct (asList _) as [raws|]; [|done]. cbn [mbind option_bind] in Hev.
    destruct (bool_decide (Z.of_nat (length raws) ≤ _)) eqn:Hlen; [|done]. cbn [when mbind option_bind] in Hev.
    destruct (mapM_forallb _ (acceptableEvent session) _ _ Hev) as [-> ->].
    { intros ? ?. apply decodeHistoryPageEvent_bounds. }
    rewrite Hlen. done.
  - unfold decodeHistoryPageRequest in H.
    destruct (decodeRequiredHistoryFields fs) as [[request session]|] eqn:Hr; [|done]. cbn [mbind option_bind] in H.
    destruct (decodeRequiredHistoryFields_bounds _ _ _ Hr) as [H1 H2].
    destruct (asField "limit" fs) as [limit|]; [|done]. cbn [mbind option_bind] in H.
    destruct (between 1 limit HistoryPageMaxLimit) eqn:Hlim; [|done]. cbn [when mbind option_bind] in H.
    assert (∃ before, f = FHistoryPageRequest (mkHistoryPageRequest request session before limit)
            ∧ optionally (λ n, bool_decide (1 ≤ n)) before = true) as (before & -> & Hb).
    { destruct (get "before_seq" fs) as [r|]; [|cbn [mbind option_bind] in H; injection H as <-; by eauto].
      destruct (if isNull r then None else unmarshal r None) as [[n|]|]; try discriminate H.
      cbn [mbind option_bind] in H. destruct (bool_decide (1 ≤ n)) eqn:Hn; [|discriminate H].
      cbn [mbind option_bind] in H. injection H as <-. eauto. }
    cbn. by rewrite H1, H2, Hlim, Hb.
Qed.

Lemma decodeAttentionSummary1_bounds r s : decodeAttentionSummary1 r = Some s → validAttentionSummary s = true.
Proof. unfold decodeAttentionSummary1. intros H. inv_decode H. by subst. Qed.

Lemma decodeAttentionSummary_bounds data f : decodeAttentionSummary data = Some f → withinBounds f = true.
Proof.
  unfold decodeAttentionSummary. intros H. inv_decode H. subst f.
  cbn [withinBounds acceptable asf_RequestID asf_Kind asf_SubscriptionState asf_Summaries].
  repeat match goal with H : _ && _ = true |- _ => apply andb_true_iff in H as [? ?] end.
  match goal with H : get "summaries" _ ≫= _ = Some _ |- _ => rename H into Hl end.
  destruct (get "summaries" _) as [r|]; [|done]. cbn [mbind option_bind] in Hl. unfold decodeAttentionSummaries in Hl.
  destruct (asList r) as [raws|]; [|done]. cbn [mbind option_bind] in Hl.
  destruct (bool_decide (length raws ≤ 64)%nat) eqn:Hlen; [|done]. cbn [when mbind option_bind] in Hl.
  destruct (mapM_forallb _ validAttentionSummary _ _ Hl) as [Hv Hn]; [apply decodeAttentionSummary1_bounds|].
  rewrite Hn, Hlen. repeat match goal with H : ?b = true |- context [?b] => rewrite H end. done.
Qed.

Lemma decodeCommand_bounds data f : decodeCommand data = Some f → withinBounds f = true.
Proof.
  unfold decodeCommand. destruct (decodeInto data) as [c|]; [|done]. cbn [mbind option_bind].
  destruct (bool_decide (cmd_Type c ≠ "session.settings.change")) eqn:E.
  - intros [= <-]. cbn [withinBounds]. by rewrite E.
  - intros H. destruct (targetJoinFields _ _ _); [|done]. cbn [mbind option_bind] in H.
    destruct (validSettingsCommandID (cmd_CommandID c) && _) eqn:Hv; [|done]. cbn [when mbind option_bind] in H.
    destruct (get "payload" _); [|done]. cbn [mbind option_bind] in H.
    assert (f = FCommand c) as -> by by repeat case_match; simplify_eq.
    cbn [withinBounds]. by rewrite E, Hv.
Qed.

Ltac dispatch H := repeat (lazymatch type of H with (if ?b then _ else _) = Some _ => destruct b end).


(** ** Strict frames *)

(** The kinds decoded member by member. *)
Definition strictKind (f : Frame) : bool :=
  match f with
  | FHello _ | FHelloAck _ | FEvent _ | FCommand _ | FCommandAck _ | FPing _ | FPong _ | FErrorFrame _ => false
  | _ => true
  end.

(** The members of the text are [frame] and the fields the frame prints. *)
Definition carriesExactly (data : string) (f : Frame) : Prop :=
  ∃ fs, strictObject data = Some fs ∧ fst <$> fs ≡ₚ "frame" :: (fv_name <$> List.filter fv_printed (frame_desc f)).

Lemma targetJoinFields_carries data frame keys fs f :
  targetJoinFields data frame keys = Some fs → NoDup ("frame" :: keys) →
  keys = fv_name <$> List.filter fv_printed (frame_desc f) → carriesExactly data f.
Proof. intros H Hn ->. destruct (targetJoinFields_exact _ _ _ _ H Hn) as [? ?]. by exists fs. Qed.

Lemma attemptOf_absent fs n : attemptOf fs = Some n → "attempt" ∉ (fst <$> fs) → n = 0.
Proof. unfold attemptOf. intros H Hn. rewrite get_None in H by done. by injection H as <-. Qed.

(** Whether the attempt is on the wire is whether it is not zero. *)
Lemma firstFields_carries data frame fs f n :
  firstFields data frame [["attempt"]; []] = Some fs → attemptOf fs = Some n → frame_desc f = [fv "attempt" true n] →
  carriesExactly data f.
Proof.
  intros Hf Hn Hd. destruct (firstFields_exact _ _ _ _ Hf) as [Hs (keys & Hin & Hp)].
  { repeat (apply list.Forall_cons; split; [solve_NoDup|]). by apply list.Forall_nil. }
  exists fs. split; [done|]. rewrite Hp, Hd. cbn. rewrite !elem_of_cons, elem_of_nil in Hin.
  destruct Hin as [-> | [-> | []]].
  - assert (1 ≤ n) by (eapply attemptOf_present; [done|rewrite Hp; by right; left|by eapply strictObject_NoDup]).
    by rewrite bool_decide_false by lia.
  - apply attemptOf_absent in Hn as ->; [by rewrite bool_decide_true|]. rewrite Hp. by intros H%list_elem_of_singleton.
Qed.

Lemma decodeProviderStartAck_carries data f : decodeProviderStartAck data = Some f → carriesExactly data f.
Proof.
  unfold decodeProviderStartAck. intros H. destruct (firstFields _ _ _) as [fs|] eqn:Hfields; [|done].
  cbn [mbind option_bind] in H. destruct (firstFields_exact _ _ _ _ Hfields) as [Hs (keys & Hin & Hperm)].
  { repeat (apply list.Forall_cons; split; [solve_NoDup|]). by apply list.Forall_nil. }
  destruct (attemptOf fs) as [n|] eqn:Hn; [|done]. cbn [mbind option_bind] in H.
  destruct (asField "status" fs) as [status|] eqn:Hst; [|done]. cbn [mbind option_bind] in H.
  destruct (bool_decide (status ∈ _)); [|done]. cbn [when mbind option_bind] in H.
  assert (∃ handle, f = FProviderStartAck (mkProviderStartAck n status handle)
          ∧ (handle = "" ↔ "recovery_handle" ∉ (fst <$> fs))) as (handle & -> & Hh).
  { destruct (get "recovery_handle" fs) as [r|] eqn:Hg.
    - destruct (unmarshal r "") as [h|]; [|discriminate H]. cbn [mbind option_bind] in H.
      destruct (validRecoveryHandle h) eqn:Hv; [|discriminate H]. cbn [mbind option_bind] in H.
      destruct (negb _); [|discriminate H]. cbn [when mbind option_bind] in H. injection H as <-. exists h. split; [done|].
      apply get_key in Hg. split; [by intros ->|done].
    - cbn [mbind option_bind] in H. destruct (negb _); [|discriminate H]. cbn [when mbind option_bind] in H.
      injection H as <-. exists "". split; [done|]. split; [|done]. intros _ Hk.
      apply list_elem_of_fmap in Hk as ([k v] & Heq & Hk). cbn in Heq. subst k.
      apply (get_Some _ _ _ (strictObject_NoDup _ _ Hs)) in Hk. congruence. }
  exists fs. split; [done|]. rewrite Hperm in Hh |- *. cbn [frame_desc psa_desc List.filter].
  assert ("attempt" ∈ keys → fv_printed (fv "attempt" true n) = true) as Hp.
  { intros Ha. assert (1 ≤ n) as H1.
    { eapply attemptOf_present; [done|rewrite Hperm; by right|by eapply strictObject_NoDup]. }
    cbn. by rewrite bool_decide_false by lia. }
  rewrite !elem_of_cons, elem_of_nil in Hin. destruct Hin as [-> | [-> | [-> | []]]]; cbn.
  - cbn in Hp. rewrite Hp by (by left).
    rewrite (bool_decide_false (handle = "")); [done|]. rewrite Hh. intros Hx. apply Hx. do 3 right. by left.
  - cbn in Hp. rewrite Hp by (by left). rewrite bool_decide_true; [done|]. apply Hh.
    rewrite !not_elem_of_cons. repeat split; try done. apply not_elem_of_nil.
  - apply attemptOf_absent in Hn as ->; [|rewrite Hperm; rewrite !not_elem_of_cons; repeat split; try done; apply not_elem_of_nil].
    rewrite (bool_decide_true (0 = 0)), (bool_decide_true (handle = "")); [done| |done]. apply Hh.
    rewrite !not_elem_of_cons. repeat split; try done. apply not_elem_of_nil.
Qed.

(** The members are those of [l] when the others that are allowed are absent. *)
Lemma members_perm (fs : fields) allowed l :
  NoDup (fst <$> fs) → only allowed fs = true → NoDup l → Forall (λ k, k ∈ (fst <$> fs)) l →
  Forall (λ k, k ∈ l ∨ has k fs = false) allowed → fst <$> fs ≡ₚ l.
Proof.
  intros Hn Ho Hl Hin Hall. apply NoDup_Permutation; [done|done|]. intros k. split.
  - intros Hk. rewrite list.Forall_forall in Hall. unfold only in Ho. rewrite forallb_forall in Ho.
    apply list_elem_of_fmap in Hk as Hm. destruct Hm as ([k' r] & -> & Hm).
    specialize (Ho _ (proj1 (list_elem_of_In _ _) Hm)). apply bool_decide_eq_true in Ho.
    destruct (Hall _ Ho) as [?|Hf]; [done|]. exfalso. unfold has in Hf. apply bool_decide_eq_false in Hf.
    apply Hf. apply (get_Some _ _ _ Hn) in Hm. cbn. by rewrite Hm.
  - intros Hk. rewrite list.Forall_forall in Hin. by apply Hin.
Qed.

Ltac present :=
  repeat (apply list.Forall_cons; split;
    [first [match goal with
            | H : asField ?k ?fs = Some _ |- ?k ∈ (fst <$> ?fs) => exact (asField_key _ _ _ H)
            | H : get ?k ?fs = Some _ |- ?k ∈ (fst <$> ?fs) => exact (get_key _ _ _ H)
            end
           |by right
           |left; apply (bool_decide_unpack _); vm_compute; exact I]|]);
  by apply list.Forall_nil.

Lemma has_None k fs : get k fs = None → has k fs = false.
Proof. unfold has. by intros ->. Qed.

Lemma decodeHistoryPage_carries data f : decodeHistoryPage data = Some f → carriesExactly data f.
Proof.
  unfold decodeHistoryPage. intros H. destruct (strictObject data) as [fs|] eqn:Hs; [|done]. cbn [mbind option_bind] in H.
  destruct (only _ fs) eqn:Ho; [|done]. cbn [when mbind option_bind] in H.
  destruct (asField "frame" fs) as [frame|] eqn:Hfr; [|done]. cbn [mbind option_bind] in H.
  destruct (bool_decide (frame = "history.page")); [|done]. cbn [when mbind option_bind] in H.
  pose proof (strictObject_NoDup _ _ Hs) as Hn. exists fs. split; [done|].
  destruct (_ || has "retention_state" fs) eqn:Hkind.
  - unfold decodeHistoryPageResponse in H. destruct (negb _) eqn:Hneg; [|done]. cbn [when mbind option_bind] in H.
    apply negb_true_iff, orb_false_iff in Hneg as [Hb1 Hb2].
    unfold decodeRequiredHistoryFields in H.
    destruct (asField "request_id" fs) as [request|] eqn:Hr; [|done]. cbn [mbind option_bind] in H.
    destruct (bool_decide (request ≠ "")); [|done]. cbn [when mbind option_bind] in H.
    destruct (asField "session_id" fs) as [session|] eqn:Hse; [|done]. cbn [mbind option_bind] in H.
    destruct (bool_decide (session ≠ "")); [|done]. cbn [when mbind option_bind] in H.
    inv_decode H. subst f. apply (members_perm _ _ _ Hn Ho); [solve_NoDup|cbn; present|present].
  - rewrite !orb_false_iff in Hkind. destruct Hkind as [[[He Hla] Hne] Hre].
    unfold decodeHistoryPageRequest, decodeRequiredHistoryFields in H.
    destruct (asField "request_id" fs) as [request|] eqn:Hr; [|done]. cbn [mbind option_bind] in H.
    destruct (bool_decide (request ≠ "")); [|done]. cbn [when mbind option_bind] in H.
    destruct (asField "session_id" fs) as [session|] eqn:Hse; [|done]. cbn [mbind option_bind] in H.
    destruct (bool_decide (session ≠ "")); [|done]. cbn [when mbind option_bind] in H.
    destruct (asField "limit" fs) as [limit|] eqn:Hlimit; [|done]. cbn [mbind option_bind] in H.
    destruct (between 1 limit HistoryPageMaxLimit) eqn:Hlim; [|done]. cbn [when mbind option_bind] in H.
    destruct (get "before_seq" fs) as [r|] eqn:Hbf.
    + destruct (if isNull r then None else unmarshal r None) as [[n|]|]; try discriminate H.
      cbn [mbind option_bind] in H. destruct (bool_decide (1 ≤ n)); [|discriminate H].
      cbn [mbind option_bind] in H. injection H as <-.
      apply (members_perm _ _ _ Hn Ho); [solve_NoDup|cbn; present|present].
    + cbn [mbind option_bind] in H. injection H as <-. apply has_None in Hbf.
      apply (members_perm _ _ _ Hn Ho); [solve_NoDup|cbn; present|present].
Qed.

(** C17: A frame of a strict kind was sent as an object with exactly the members
    it has: nothing is repeated, missing or smuggled beside them, so no
    credential, nonce or fence frame carries data its type does not show. *)
Theorem strict_frames_carry_nothing_else data f :
  Decode data = inr f → strictKind f = true → carriesExactly data f.
Proof.
  unfold Decode. destruct (frameOf data) as [name|]; [|done]. destruct (bool_decide _); [|done].
  destruct (decodeFrame name data) as [f'|] eqn:H; [|done]. intros [= ->] Hk. unfold decodeFrame in H. dispatch H;
    try (destruct (decodeInto data); [|done]; by injection H as <-);
    eauto using decodeHistoryPage_carries, decodeProviderStartAck_carries.
  all: try discriminate H.
  all: lazymatch type of H with
       | ?decode _ = _ => unfold decode in H; inv_decode H; subst f
       end; try done; eauto using firstFields_carries.
  all: eapply targetJoinFields_carries; [done|solve_NoDup|reflexivity].
Qed.

(** ** Paths *)

(** Lexical resolution of one path component in a directory. *)
Definition enter (dir : list string) (component : string) : list string :=
  if bool_decide (component ∈ [""; "."]) then dir
  else if bool_decide (component = "..") then take (length dir - 1) dir
  else dir ++ [component].

(** The directories passed while resolving a relative path from [root]. *)
Definition visited (root : list string) (path : string) (n : nat) : list string :=
  foldl enter root (take n (Split path 47)).

(** The paths endpoints and the Hub take from decoded payloads. *)
Inductive decodedPath (path : string) : Prop :=
  | path_of_reference fs part : readFileReferencePart fs = Some part → rp_path part = path → decodedPath path
  | path_of_read data : DecodeEncryptedFileReadRequest data = Some path → decodedPath path
  | path_of_list data : DecodeEncryptedFileListRequest data = Some path → decodedPath path.

Lemma visited_plain root l n :
  forallb (λ part, bool_decide (part ∉ [""; "."; ".."])) l = true → root `prefix_of` foldl enter root (take n l).
Proof.
  revert root n. induction l as [|c l IH]; intros root [|n] H; try done. cbn in H.
  apply andb_true_iff in H as [Hc%bool_decide_eq_true Hl]. rewrite !not_elem_of_cons in Hc. destruct Hc as (? & ? & ? & _).
  cbn [take foldl]. unfold enter at 2. rewrite bool_decide_false by (rewrite !elem_of_cons, elem_of_nil; naive_solver).
  rewrite bool_decide_false by done. etrans; [|by apply IH]. by apply prefix_app_r.
Qed.

Lemma safeEncryptedPath_inside path allowDot :
  safeEncryptedPath path allowDot = true →
  HasPrefix path "/" = false ∧ ∀ root n, root `prefix_of` visited root path n.
Proof.
  unfold safeEncryptedPath. case_bool_decide as Hdot.
  - intros _. subst path. split; [done|]. intros root [|n]; [done|]. by destruct n.
  - rewrite !andb_true_iff, !negb_true_iff. intros ((((_ & Hp) & _) & _) & Hparts). split; [done|].
    intros root n. by apply visited_plain.
Qed.

Lemma decodePath_safe data allowDot path : decodePath data allowDot = Some path → safeEncryptedPath path allowDot = true.
Proof. unfold decodePath. intros H. inv_decode H. by subst. Qed.

(** C18: A path that a decoded file reference, file request or directory request
    names is relative, and resolving it never leaves the directory it is
    resolved in, not even on the way. *)
Theorem decoded_paths_stay_inside path :
  decodedPath path → HasPrefix path "/" = false ∧ ∀ root n, root `prefix_of` visited root path n.
Proof.
  intros [fs part H <-|data H|data H].
  - unfold readFileReferencePart in H. inv_decode H. subst part. cbn [rp_path].
    repeat match goal with H : _ && _ = true |- _ => apply andb_true_iff in H as [? ?] end.
    match goal with H : validFileReferencePath _ = true |- _ => unfold validFileReferencePath in H; rename H into Hp end.
    rewrite !andb_true_iff, !negb_true_iff in Hp. destruct Hp as ((((((_ & _) & Hp) & _) & _) & _) & Hparts).
    split; [done|]. intros root n. by apply visited_plain.
  - by eapply safeEncryptedPath_inside, decodePath_safe.
  - by eapply safeEncryptedPath_inside, decodePath_safe.
Qed.

End CodecSafety.
