(* ===== verification/CodecFingerprints.v ===== *)
(** * Fingerprints identify capabilities

    The canonical bytes the fingerprints of settings and file-reference
    capabilities are taken of can be read in one way only, so two decoded
    capabilities with the same fingerprint are the same capability unless
    SHA-256 collides on their bytes. *)

From S2P Require Import Prelude StoreApi Json Wire JsonProofs WireProofs GoText Sha256 EncryptedPacket CodecPayloads CodecSafety.
From stdpp Require Import base strings list option.
#[local] Open Scope Z_scope.

Module CodecFingerprints.
Import Json Wire JsonProofs WireProofs GoText Sha256 CodecPayloads CodecSafety.

(** ** Digests *)

Lemma bigEndian_bytes n z : Forall is_byte (bigEndian n z).
Proof.
  induction n as [|n IH]; [constructor|]. cbn. constructor; [|done].
  unfold is_byte. pose proof (Z.mod_pos_bound (z / 256 ^ Z.of_nat n) 256). lia.
Qed.

Lemma Sum256_bytes m : Forall is_byte (Sum256 m).
Proof.
  unfold Sum256. generalize (blocks (length (pad m)) H0 (pad m)). intros l.
  induction l as [|w l IH]; [constructor|]. cbn [mbind list_bind]. apply list.Forall_app.
  split; [apply bigEndian_bytes|done].
Qed.

Lemma hex_digit_inj a b : 0 ≤ a < 16 → 0 ≤ b < 16 → hex_digit a = hex_digit b → a = b.
Proof. unfold hex_digit. intros ? ?. repeat case_bool_decide; lia. Qed.

Lemma hexBytes_inj l m : Forall is_byte l → Forall is_byte m → hexBytes l = hexBytes m → l = m.
Proof.
  intros Hl Hm H. unfold hexBytes in H. apply string_of_inj in H.
  - revert m Hm H. induction Hl as [|a l Ha Hl IH]; intros m Hm H; destruct Hm as [|b m Hb Hm]; try done.
    cbn -[Z.div Z.modulo] in H. injection H as H1 H2 H3. unfold is_byte in *.
    apply hex_digit_inj in H1; [|Z.div_mod_to_equations; lia..].
    apply hex_digit_inj in H2; [|Z.div_mod_to_equations; lia..].
    f_equal; [Z.div_mod_to_equations; lia|]. by apply IH.
  - clear -Hl. induction Hl as [|a l Ha Hl IH]; [constructor|]. cbn -[Z.div Z.modulo].
    unfold is_byte in Ha. repeat constructor; try done;
      match goal with |- context [hex_digit ?d] => pose proof (hex_digit_range d ltac:(Z.div_mod_to_equations; lia)); lia end.
  - clear -Hm. induction Hm as [|a l Ha Hl IH]; [constructor|]. cbn -[Z.div Z.modulo].
    unfold is_byte in Ha. repeat constructor; try done;
      match goal with |- context [hex_digit ?d] => pose proof (hex_digit_range d ltac:(Z.div_mod_to_equations; lia)); lia end.
Qed.

Lemma fingerprint_inj a b : fingerprint a = fingerprint b → Sum256 a = Sum256 b.
Proof.
  unfold fingerprint. intros H. apply (f_equal bytes_of) in H. rewrite !bytes_of_app in H.
  apply app_inv_head, bytes_of_inj in H. apply hexBytes_inj; [apply Sum256_bytes..|done].
Qed.

(** ** Pieces that can be read off *)

(** A piece before any rest: equal texts have equal pieces and equal rests. *)
Definition piece {A} (enc : A → list Z) (P : A → Prop) : Prop :=
  ∀ a b x y, P a → P b → enc a ++ x = enc b ++ y → a = b ∧ x = y.

Definition short (s : string) : Prop := len s < 65536.

Lemma appendString_piece : piece appendString short.
Proof.
  intros a b x y Ha Hb H. unfold appendString in H. rewrite <- !(assoc_L (++)) in H.
  apply app_inj_1 in H as [Hl H]; [|by rewrite !length_bigEndian].
  pose proof (len_nonneg a). pose proof (len_nonneg b). unfold short in *.
  apply bigEndian_inj in Hl; [|cbn; lia..]. unfold len in Hl.
  apply app_inj_1 in H as [Hs H]; [|rewrite !length_bytes_of; lia]. split; [by apply bytes_of_inj|done].
Qed.

(** A counted list of pieces. *)
Lemma list_piece {A} (enc : A → list Z) (P : A → Prop) :
  piece enc P →
  piece (λ l, (Z.of_nat (length l) mod 256) :: (l ≫= enc)) (λ l, Forall P l ∧ (length l < 256)%nat).
Proof.
  intros Hp l m x y [Hl Hln] [Hm Hmn] H. cbn in H. injection H as Hlen H.
  rewrite !Z.mod_small in Hlen by lia. apply Nat2Z.inj in Hlen. clear Hln Hmn.
  revert m Hm Hlen H. induction Hl as [|a l Ha _ IH]; intros m Hm Hlen H; destruct Hm as [|b m Hb Hm]; try done.
  cbn in H, Hlen. rewrite <- !(assoc_L (++)) in H. destruct (Hp _ _ _ _ Ha Hb H) as [-> H'].
  destruct (IH m Hm) as [-> ->]; [lia|done|done].
Qed.

Lemma appendChoice_piece : piece appendChoice (λ c, short (choice_ID c) ∧ short (choice_Label c)).
Proof.
  intros [a1 a2] [b1 b2] x y [Ha1 Ha2] [Hb1 Hb2] H. unfold appendChoice in H. cbn in *.
  rewrite <- !(assoc_L (++)) in H. apply appendString_piece in H as [-> H]; [|done..].
  by apply appendString_piece in H as [-> H].
Qed.

Lemma appendChoices_piece :
  piece appendChoices (λ l, Forall (λ c, short (choice_ID c) ∧ short (choice_Label c)) l ∧ (length l < 256)%nat).
Proof. apply list_piece, appendChoice_piece. Qed.

(** A change mode among those that are valid. *)
Lemma appendChangeMode_piece : piece appendChangeMode (λ m, m ∈ ["allowed"; "unsupported"; "read_only"]).
Proof.
  intros a b x y Ha Hb H. rewrite !elem_of_cons, elem_of_nil in Ha, Hb.
  destruct Ha as [-> | [-> | [-> | []]]], Hb as [-> | [-> | [-> | []]]]; cbn in H; by simplify_eq.
Qed.

(** An absent string is written as the empty one. *)
Lemma appendOptional_piece : piece (λ o, appendString (default "" o)) (λ o, ∀ s, o = Some s → short s ∧ s ≠ "").
Proof.
  intros a b x y Ha Hb H. destruct a as [a|], b as [b|]; cbn [from_option id] in H.
  - destruct (Ha a eq_refl), (Hb b eq_refl). by apply appendString_piece in H as [-> ?].
  - destruct (Ha a eq_refl). by apply appendString_piece in H as [-> ?].
  - destruct (Hb b eq_refl). by apply appendString_piece in H as [<- ?].
  - by apply appendString_piece in H as [_ ?].
Qed.

(** ** Valid values are short *)

Lemma lenBetween_short lo s hi : lenBetween lo s hi = true → 0 < lo → hi < 65536 → short s ∧ s ≠ "".
Proof. unfold lenBetween, short. rewrite between_spec. intros ? ? ?. split; [lia|]. intros ->. change (len "") with 0 in *. lia. Qed.

Lemma identifier_short s : validSettingsIdentifier s = true → short s ∧ s ≠ "".
Proof. unfold validSettingsIdentifier. intros [H _]%andb_true_iff. by eapply lenBetween_short. Qed.

Lemma reason_short s : validSettingsReason s = true → short s ∧ s ≠ "".
Proof. unfold validSettingsReason. intros [H _]%andb_true_iff. by eapply lenBetween_short. Qed.

Lemma reasonPointer_short o s : validSettingsReasonPointer o = true → o = Some s → short s ∧ s ≠ "".
Proof. intros H ->. by apply reason_short. Qed.

Lemma changeMode_valid mode reason n :
  validSettingsChangeMode mode reason n = true →
  mode ∈ ["allowed"; "unsupported"; "read_only"] ∧ (∀ s, reason = Some s → short s ∧ s ≠ "").
Proof.
  unfold validSettingsChangeMode. case_bool_decide as Ha.
  - intros [_ Hr%bool_decide_eq_true]%andb_true_iff. subst. split; [by left|done].
  - intros [Hm%bool_decide_eq_true Hr]%andb_true_iff. subst mode. split; [by do 2 right; left|].
    intros s ->. apply andb_true_iff in Hr as [_ Hr]. by apply reason_short.
Qed.

Section Settings.
Context (nfc : string → string).

Lemma choices_short last l :
  validChoices nfc last l = true → Forall (λ c, short (choice_ID c) ∧ short (choice_Label c)) l.
Proof.
  revert last. induction l as [|c l IH]; intros last H; [constructor|]. cbn in H. rewrite !andb_true_iff in H.
  destruct H as [[[Hi Hl] _] Hr]. constructor; [|by eapply IH]. split; [by apply identifier_short|].
  unfold validSettingsLabel in Hl. rewrite !andb_true_iff in Hl. destruct Hl as [[[Hl _] _] _]. by eapply lenBetween_short.
Qed.

Lemma validChoices_piece l min max :
  validSettingsChoices nfc l min max = true → (max < 256)%nat →
  Forall (λ c, short (choice_ID c) ∧ short (choice_Label c)) l ∧ (length l < 256)%nat.
Proof.
  unfold validSettingsChoices. rewrite !andb_true_iff, !bool_decide_eq_true. intros [[_ Hl] Hc] Hm.
  split; [by eapply choices_short|lia].
Qed.

(** What the decoder returns besides what it checks. *)
Lemma decodeChoices_shape r s : decodeSettingsCapabilityChoices r = Some s → ∃ l, s = Slice l [].
Proof. unfold decodeSettingsCapabilityChoices. intros H. inv_decode H. subst s. eauto. Qed.

Record decodedSettings (c : SettingsCapabilityPayload) : Prop := {
  ds_valid : validSettingsCapability nfc c = true;
  ds_version : sc_SchemaVersion c = 1 ∨ sc_SchemaVersion c = 2;
  ds_models : ∃ l, sc_Models c = Slice l [];
  ds_modes : ∃ l, sc_PermissionModes c = Slice l [];
  ds_efforts : sc_SchemaVersion c = 2 → ∃ l, sc_ReasoningEfforts c = Slice l [];
  ds_legacy : sc_SchemaVersion c = 1 →
    sc_ReasoningEfforts c = NilSlice ∧ sc_EffectiveReasoningEffortID c = None
    ∧ sc_ReasoningEffortChange c = "" ∧ sc_ReasoningEffortReadOnlyReason c = None;
}.

Lemma decoded_settings p c : DecodeSettingsCapabilityPayload nfc p = Some c → decodedSettings c.
Proof.
  unfold DecodeSettingsCapabilityPayload. intros H.
  destruct (strictObject p) as [fs|]; [|done]. cbn [mbind option_bind] in H.
  destruct (asField "schema_version" fs) as [version|]; [|done]. cbn [mbind option_bind] in H.
  destruct (bool_decide (version ∈ _)) eqn:Hv; [|done]. cbn [when mbind option_bind] in H.
  apply bool_decide_eq_true in Hv. rewrite !elem_of_cons, elem_of_nil in Hv.
  destruct (_ && only _ fs); [|done]. cbn [when mbind option_bind] in H.
  destruct (get "models" fs ≫= _) as [models|] eqn:Hmodels; [|done]. cbn [mbind option_bind] in H.
  destruct (get "permission_modes" fs ≫= _) as [modes|] eqn:Hmodes; [|done]. cbn [mbind option_bind] in H.
  destruct (get "models" fs); [|done]. destruct (get "permission_modes" fs); [|done]. cbn in Hmodels, Hmodes.
  apply decodeChoices_shape in Hmodels as [l1 ->], Hmodes as [l2 ->].
  do 7 (match type of H with ?o ≫= _ = Some _ => destruct o; [|done] end; cbn [mbind option_bind] in H).
  unfold LegacySettingsCapabilitySchemaVersion, SettingsCapabilitySchemaVersion in *.
  destruct (bool_decide (version = 2)) eqn:E2.
  - apply bool_decide_eq_true in E2. subst version.
    destruct (get "reasoning_efforts" fs) as [re|]; [|done]. cbn [mbind option_bind] in H.
    destruct (decodeSettingsCapabilityChoices re) as [efforts|] eqn:He; [|done]. cbn [mbind option_bind] in H.
    apply decodeChoices_shape in He as [l3 ->].
    do 3 (match type of H with (?o ≫= _) ≫= _ = Some _ => destruct o; [|done] end; cbn [mbind option_bind] in H).
    destruct (validSettingsCapability nfc _) eqn:Hval; [|done]. injection H as <-.
    split; cbn; eauto; lia.
  - cbn [mbind option_bind] in H. destruct (validSettingsCapability nfc _) eqn:Hval; [|done]. injection H as <-.
    apply bool_decide_eq_false in E2. split; cbn; eauto; [naive_solver|lia].
Qed.

(** The bytes of the two versions. *)
Definition settingsPrefix (version : Z) : list Z :=
  bytes_of ("agentwharf.settings-capability.v" +:+ formatInt version) ++ [0; version mod 256].

Lemma settingsData_legacy c : sc_SchemaVersion c = 1 →
  settingsCapabilityData c = settingsPrefix 1 ++ appendChoices (elems (sc_Models c)) ++ appendChoices (elems (sc_PermissionModes c))
    ++ appendString (sc_EffectiveModelID c) ++ appendString (sc_EffectivePermissionModeID c)
    ++ appendChangeMode (sc_ModelChange c) ++ appendChangeMode (sc_PermissionChange c)
    ++ appendString (default "" (sc_ModelReadOnlyReason c)) ++ appendString (default "" (sc_PermissionReadOnlyReason c)) ++ [].
Proof.
  intros H. unfold settingsCapabilityData, settingsPrefix. rewrite H.
  rewrite (bool_decide_false (1 = 0)) by lia. unfold SettingsCapabilitySchemaVersion.
  rewrite (bool_decide_false (2 ≤ 1)) by lia. rewrite <- !(assoc_L (++)), app_nil_r. done.
Qed.

Lemma settingsData_current c : sc_SchemaVersion c = 2 →
  settingsCapabilityData c = settingsPrefix 2 ++ appendChoices (elems (sc_Models c)) ++ appendChoices (elems (sc_ReasoningEfforts c))
    ++ appendChoices (elems (sc_PermissionModes c))
    ++ appendString (sc_EffectiveModelID c) ++ appendString (default "" (sc_EffectiveReasoningEffortID c))
    ++ appendString (sc_EffectivePermissionModeID c)
    ++ appendChangeMode (sc_ModelChange c) ++ appendChangeMode (sc_ReasoningEffortChange c) ++ appendChangeMode (sc_PermissionChange c)
    ++ appendString (default "" (sc_ModelReadOnlyReason c)) ++ appendString (default "" (sc_ReasoningEffortReadOnlyReason c))
    ++ appendString (default "" (sc_PermissionReadOnlyReason c)) ++ [].
Proof.
  intros H. unfold settingsCapabilityData, settingsPrefix. rewrite H.
  rewrite (bool_decide_false (2 = 0)) by lia. unfold SettingsCapabilitySchemaVersion.
  rewrite (bool_decide_true (2 ≤ 2)) by lia. rewrite <- !(assoc_L (++)), app_nil_r. done.
Qed.

(** What the bytes need of a capability to be read back. *)
Record readable (c : SettingsCapabilityPayload) : Prop := {
  rd_models : Forall (λ c, short (choice_ID c) ∧ short (choice_Label c)) (elems (sc_Models c)) ∧ (length (elems (sc_Models c)) < 256)%nat;
  rd_modes : Forall (λ c, short (choice_ID c) ∧ short (choice_Label c)) (elems (sc_PermissionModes c)) ∧ (length (elems (sc_PermissionModes c)) < 256)%nat;
  rd_model : short (sc_EffectiveModelID c);
  rd_mode : short (sc_EffectivePermissionModeID c);
  rd_modelChange : sc_ModelChange c ∈ ["allowed"; "unsupported"; "read_only"];
  rd_permissionChange : sc_PermissionChange c ∈ ["allowed"; "unsupported"; "read_only"];
  rd_modelReason : ∀ s, sc_ModelReadOnlyReason c = Some s → short s ∧ s ≠ "";
  rd_permissionReason : ∀ s, sc_PermissionReadOnlyReason c = Some s → short s ∧ s ≠ "";
}.

Record readableEfforts (c : SettingsCapabilityPayload) : Prop := {
  re_efforts : Forall (λ c, short (choice_ID c) ∧ short (choice_Label c)) (elems (sc_ReasoningEfforts c)) ∧ (length (elems (sc_ReasoningEfforts c)) < 256)%nat;
  re_effort : ∀ s, sc_EffectiveReasoningEffortID c = Some s → short s ∧ s ≠ "";
  re_change : sc_ReasoningEffortChange c ∈ ["allowed"; "unsupported"; "read_only"];
  re_reason : ∀ s, sc_ReasoningEffortReadOnlyReason c = Some s → short s ∧ s ≠ "";
}.

Lemma valid_readable c : validSettingsCapability nfc c = true → readable c.
Proof.
  unfold validSettingsCapability. rewrite !andb_true_iff.
  intros ((((((((((_ & _) & Hm) & Hp) & Hi) & Hj) & _) & _) & Hc1) & Hc2) & _).
  destruct (changeMode_valid _ _ _ Hc1) as [? ?]. destruct (changeMode_valid _ _ _ Hc2) as [? ?].
  apply validChoices_piece in Hm; [|lia]. apply validChoices_piece in Hp; [|lia].
  split; try done; by apply identifier_short.
Qed.

Lemma valid_readableEfforts c : validSettingsCapability nfc c = true → sc_SchemaVersion c = 2 → readableEfforts c.
Proof.
  unfold validSettingsCapability. rewrite !andb_true_iff.
  intros ((((((((((_ & He) & _) & _) & _) & _) & _) & _) & _) & _) & _) Hv.
  rewrite bool_decide_false in He by (unfold SettingsCapabilitySchemaVersion; naive_solver). cbn [orb] in He.
  unfold validReasoningEffortCapability in He. case_bool_decide as Hu; rewrite !andb_true_iff in He.
  - destruct He as [[Hl%bool_decide_eq_true Hn%bool_decide_eq_true] Hr]. split.
    + destruct (elems (sc_ReasoningEfforts c)); [|done]. split; [constructor|cbn; lia].
    + by rewrite Hn.
    + rewrite Hu. by right; left.
    + intros s. by apply reasonPointer_short.
  - destruct He as [[Hl Hid] Hc]. destruct (changeMode_valid _ _ _ Hc) as [? ?].
    apply validChoices_piece in Hl; [|lia]. split; try done. intros s Hs. rewrite Hs in Hid.
    apply andb_true_iff in Hid as [Hid _]. by apply identifier_short.
Qed.

(** Read the next piece off both texts. *)
Ltac read_piece H :=
  first [apply appendChoices_piece in H as [? H]|apply appendOptional_piece in H as [? H]
        |apply appendString_piece in H as [? H]|apply appendChangeMode_piece in H as [? H]]; [|done..].

Lemma settings_data_inj c1 c2 :
  decodedSettings c1 → decodedSettings c2 → sc_Fingerprint c1 = sc_Fingerprint c2 →
  settingsCapabilityData c1 = settingsCapabilityData c2 → c1 = c2.
Proof.
  intros [V1 D1 [m1 M1] [p1 P1] E1 L1] [V2 D2 [m2 M2] [p2 P2] E2 L2] Hf H.
  pose proof (valid_readable _ V1) as []. pose proof (valid_readable _ V2) as [].
  destruct D1 as [D1|D1], D2 as [D2|D2];
    rewrite ?(settingsData_legacy _ D1), ?(settingsData_current _ D1),
            ?(settingsData_legacy _ D2), ?(settingsData_current _ D2) in H.
  - apply app_inv_head in H. do 4 read_piece H. do 2 read_piece H. do 2 read_piece H.
    destruct (L1 D1) as (? & ? & ? & ?), (L2 D2) as (? & ? & ? & ?).
    destruct c1, c2. cbn in *. subst. by simplify_eq/=.
  - exfalso. by vm_compute in H.
  - exfalso. by vm_compute in H.
  - apply app_inv_head in H. pose proof (valid_readableEfforts _ V1 D1) as []. pose proof (valid_readableEfforts _ V2 D2) as [].
    do 12 read_piece H. destruct (E1 D1) as [l1 ?], (E2 D2) as [l2 ?].
    destruct c1, c2. cbn in *. subst. by simplify_eq/=.
Qed.

End Settings.

(** Two decoded settings capabilities with the same fingerprint are the same
    capability, or their canonical bytes are a collision of SHA-256: the
    fingerprint a client names commits it to one list of models, efforts and
    modes, their labels, the effective ones and what may be changed. *)
Theorem settings_fingerprint_identifies nfc p1 p2 c1 c2 :
  DecodeSettingsCapabilityPayload nfc p1 = Some c1 → DecodeSettingsCapabilityPayload nfc p2 = Some c2 →
  sc_Fingerprint c1 = sc_Fingerprint c2 →
  c1 = c2 ∨ (settingsCapabilityData c1 ≠ settingsCapabilityData c2
             ∧ Sum256 (settingsCapabilityData c1) = Sum256 (settingsCapabilityData c2)).
Proof.
  intros H1 H2 Hf. apply decoded_settings in H1, H2.
  destruct (decide (settingsCapabilityData c1 = settingsCapabilityData c2)) as [Hd|Hd].
  - left. by eapply settings_data_inj.
  - right. split; [done|]. apply fingerprint_inj.
    assert (∀ c, decodedSettings nfc c → sc_Fingerprint c = settingsCapabilityFingerprint c) as Hfp.
    { intros c [V _ _ _ _ _]. unfold validSettingsCapability in V. apply andb_true_iff in V as [_ V].
      by apply bool_decide_eq_true in V. }
    apply Hfp in H1, H2. unfold settingsCapabilityFingerprint in *. congruence.
Qed.

End CodecFingerprints.
