(* ===== verification/CodecScenarios.v ===== *)
(** * Concrete frames and payloads

    Frames are encoded and decoded, malformed texts are refused, and the
    theorems about the codec are applied at concrete inputs. Texts are written
    with apostrophes for the quotation marks of JSON. *)

From S2P Require Import Prelude StoreApi Json Wire JsonProofs WireProofs Printable GoText Sha256 EncryptedPacket.
From S2P Require Import CodecPayloads EncryptedRequests Frames FrameFields Codec CodecProofs CodecRoundtrip CodecSafety.
From S2P Require Import CodecFingerprints.
From stdpp Require Import base strings list option.
#[local] Open Scope Z_scope.

Module CodecScenarios.
Import Json Wire Printable GoText CodecPayloads EncryptedRequests Frames FrameFields Codec CodecProofs CodecSafety.

Definition js (s : string) : string :=
  string_of ((λ c, if bool_decide (c = 39) then 34 else c) <$> bytes_of s).

(** ** Decoding *)

Example decode_ping : Decode (js " { 'Frame' : 'ping', 'extra': [1] } ") = inr (FPing (mkPing "")).
Proof. vm_compute. reflexivity. Qed.

Example decode_unknown : Decode (js "{'frame':'teleport'}") = inl (ErrUnknownFrame "teleport").
Proof. vm_compute. reflexivity. Qed.

Example decode_trailing : Decode (js "{'frame':'ping'} {}") = inl ErrEnvelope.
Proof. vm_compute. reflexivity. Qed.

Definition nonce : string := "0123456789abcdef0123456789abcdef".

Definition joinText : string := js "{'join_nonce':'" +:+ nonce +:+ js "','protocol_version':2,'frame':'target.join'}".
Definition join : Frame := FTargetJoin (mkTargetJoin 2 nonce).

Example decode_join : Decode joinText = inr join.
Proof. vm_compute. reflexivity. Qed.

Example decode_short_nonce :
  Decode (js "{'join_nonce':'0123','protocol_version':2,'frame':'target.join'}") = inl (ErrInvalidFrame "target.join").
Proof. vm_compute. reflexivity. Qed.

Example decode_smuggled :
  Decode (js "{'join_nonce':'" +:+ nonce +:+ js "','protocol_version':2,'frame':'target.join','x':1}")
  = inl (ErrInvalidFrame "target.join").
Proof. vm_compute. reflexivity. Qed.

Example decode_repeated :
  Decode (js "{'join_nonce':'" +:+ nonce +:+ js "','join_nonce':'" +:+ nonce
          +:+ js "','protocol_version':2,'frame':'target.join'}") = inl (ErrInvalidFrame "target.join").
Proof. vm_compute. reflexivity. Qed.

(** ** The theorems at these frames *)

Lemma codec_roundtrip_witness :
  (∃ data, Encode join = Some data ∧ Decode data = inr join).
Proof.
  apply CodecRoundtrip.codec_roundtrip; [|vm_compute; reflexivity].
  unfold carried. cbn. repeat (apply list.Forall_cons; split); [..|by apply list.Forall_nil];
    split; first [done | vm_compute; done].
Defined.


Lemma strict_frames_carry_nothing_else_witness : Decode joinText = inr join ∧ carriesExactly joinText join.
Proof. split; [exact decode_join|]. apply strict_frames_carry_nothing_else; [exact decode_join|reflexivity]. Defined.

Lemma decoded_paths_stay_inside_witness :
  HasPrefix "docs/plan.md" "/" = false ∧ ∀ root n, root `prefix_of` visited root "docs/plan.md" n.
Proof.
  apply decoded_paths_stay_inside. apply (path_of_read _ (js "{'path':'docs/plan.md'}")). vm_compute. reflexivity.
Defined.

Example climbing_path : DecodeEncryptedFileReadRequest (js "{'path':'docs/../../etc'}") = None.
Proof. vm_compute. reflexivity. Qed.

(** ** A settings capability *)

Definition capability : SettingsCapabilityPayload :=
  let c fp := CodecPayloads.mkSettingsCapability 2 fp (Slice [mkChoice "large" "Large"; mkChoice "small" "Small"] []) (Slice [] [])
                (Slice [mkChoice "ask" "Ask"] []) "large" None "ask" "allowed" "unsupported" "read_only"
                None (Some "unsupported") (Some "policy") in
  c (settingsCapabilityFingerprint (c "")).

Definition capabilityText : string := Eval vm_compute in default "" (marshalSettingsCapability capability).

Example decode_capability : DecodeSettingsCapabilityPayload id capabilityText = Some capability.
Proof. vm_compute. reflexivity. Qed.

Lemma settings_fingerprint_identifies_witness :
  capability = capability
  ∨ (settingsCapabilityData capability ≠ settingsCapabilityData capability
     ∧ Sha256.Sum256 (settingsCapabilityData capability) = Sha256.Sum256 (settingsCapabilityData capability)).
Proof.
  apply (CodecFingerprints.settings_fingerprint_identifies id capabilityText (" " +:+ capabilityText));
    [exact decode_capability|vm_compute; reflexivity|reflexivity].
Defined.

End CodecScenarios.
