(* ===== verification/Sqlite.v ===== *)
(** * The SQLite store: tables, clock and transactions

    The state [store/sqlite/store.go] works on: the tables its [init] creates
    (rows as records with the columns of the schema, primary keys as map keys),
    the fence allocator kept in a second database file, and the clock.  SQL
    statements become functions on tables; [CHECK], [UNIQUE] and trigger
    conditions of the schema that a statement can violate are tested where the
    statement writes.

    [Store] runs every operation on one connection ([SetMaxOpenConns(1)]), so
    operations do not interleave.  [with_tx] is [BeginTx] with the deferred
    [Rollback]: an error undoes what the operation wrote to the main database,
    but not the fences it allocated in the second one, which autocommits. *)

From S2P Require Import Prelude StoreApi.
From Stdlib Require Import Strings.Ascii.
From stdpp Require Import base gmap strings list sorting.
#[local] Open Scope Z_scope.

(** ** SQL functions *)

(** [length(X)] of a TEXT value: code points before the first NUL. *)
Fixpoint utf8_chars (inside : bool) (l : list N) : Z :=
  match l with
  | [] => 0
  | c :: l =>
      if bool_decide (c = 0%N) then 0
      else if inside && bool_decide (0x80 ≤ c < 0xC0)%N then utf8_chars true l
      else 1 + utf8_chars (bool_decide (0xC0 ≤ c)%N) l
  end.

Definition sql_length (s : string) : Z :=
  utf8_chars false (N_of_ascii <$> String.list_ascii_of_string s).

Definition text_between (lo : Z) (s : string) (hi : Z) : bool :=
  bool_decide (lo ≤ sql_length s) && bool_decide (sql_length s ≤ hi).

(** [validConnectionID], [validAttachmentText]: the Go side counts bytes. *)
Definition validConnectionID (value : string) : bool :=
  bool_decide (0 < len value) && bool_decide (len value ≤ 255).

Definition validAttachmentText (value : string) (limit : Z) : bool :=
  bool_decide (0 < len value) && bool_decide (len value ≤ limit).

(** ** Rows *)

Record event_row := mkEventRow {
  er_session_id : string;
  er_seq : Z;
  er_type : string;
  er_payload : string;
  er_event_time_ms : Z;
  er_created_at_ms : Z;
}.

Record attention_row := mkAttentionRow {
  ar_latest_seq : Z;
  ar_state : string;
  ar_permission_id : option string;
  ar_permission_status : option string;
  ar_terminal_outcome : option string;
  ar_latest_change_seq : option Z;
  ar_blocker_kind : option string;
  ar_blocker_reason : option string;
  ar_blocker_expires_at_ns : option Z;
  ar_blocking_session_id : option string;
  ar_blocker_operation : option string;
  ar_summary_version : Z;
  ar_last_durable_event_at_ms : option Z;
  ar_last_client_command_at_ms : option Z;
  ar_projection_state : string;
  ar_created_at_ms : Z;
  ar_updated_at_ms : Z;
}.

Record connection_row := mkConnectionRow {
  cr_connection_epoch : Z;
  cr_accepted_fence : Z;
  cr_active_credential_generation : Z;
  cr_credential_generation_high_watermark : Z;
  cr_active_credential_expires_at_ms : Z;
  cr_pending_credential_generation : option Z;
  cr_pending_credential_expires_at_ms : option Z;
  cr_prior_recovery_credential_generation : option Z;
  cr_rotation_id : option string;
  cr_revoked_at_ms : option Z;
  cr_terminal_at_ms : option Z;
  cr_created_at_ms : Z;
  cr_updated_at_ms : Z;
}.

(** [store.SettingsWriter], also the row of [session_settings_live_writers]. *)
Record SettingsWriter := mkWriter {
  ConnectionEpoch : Z;
  CredentialGeneration : Z;
  LeaseID : string;
}.

#[global] Instance SettingsWriter_eq_dec : EqDecision SettingsWriter.
Proof. solve_decision. Defined.

Record command_row := mkCommandRow {
  pc_type : string;
  pc_event_seq : Z;
  pc_status : string;
  pc_expires_at_ns : Z;
  pc_created_at_ms : Z;
  pc_updated_at_ms : Z;
}.

Record proposal_row := mkProposalRow {
  pp_event_seq : Z;
  pp_created_at_ms : Z;
}.

Record run_capability_row := mkRunCapabilityRow {
  rp_event_seq : Z;
  rp_version : Z;
  rp_interrupt_supported : bool;
  rp_stop_supported : bool;
  rp_writer : SettingsWriter;
  rp_created_at_ms : Z;
  rp_updated_at_ms : Z;
}.

Record run_control_row := mkRunControlRow {
  rc_operation : string;
  rc_capability_version : Z;
  rc_reservation_version : Z;
  rc_pre_control_state : string;
  rc_pre_control_state_seq : Z;
  rc_writer : SettingsWriter;
  rc_deadline_ms : Z;
  rc_status : string;
  rc_terminal_event_seq : option Z;
  rc_created_at_ms : Z;
  rc_updated_at_ms : Z;
}.

#[global] Instance run_control_row_eq_dec : EqDecision run_control_row.
Proof. solve_decision. Defined.

Record file_capability_row := mkFileCapabilityRow {
  fp_event_seq : Z;
  fp_fingerprint : string;
  fp_writer : SettingsWriter;
  fp_created_at_ms : Z;
  fp_updated_at_ms : Z;
}.

Record file_command_row := mkFileCommandRow {
  fc_message_id : string;
  fc_capability_fingerprint : string;
  fc_request_fingerprint : string;
  fc_reference_count : Z;
  fc_reservation_version : Z;
  fc_delivery_deadline_ms : Z;
  fc_writer : option SettingsWriter;
  fc_status : string;
  fc_terminal_event_seq : option Z;
  fc_created_at_ms : Z;
  fc_updated_at_ms : Z;
}.

Record settings_capability_row := mkSettingsCapabilityRow {
  sp_event_seq : Z;
  sp_fingerprint : string;
  sp_effective_model_id : string;
  sp_effective_reasoning_effort_id : option string;
  sp_effective_permission_mode_id : string;
  sp_capability_version : Z;
  sp_writer : SettingsWriter;
  sp_created_at_ms : Z;
  sp_updated_at_ms : Z;
}.

Record settings_command_row := mkSettingsCommandRow {
  sc_request_fingerprint : string;
  sc_requested_model_id : option string;
  sc_requested_reasoning_effort_id : option string;
  sc_requested_permission_mode_id : option string;
  sc_reservation_version : Z;
  sc_delivery_deadline_ms : Z;
  sc_operation_deadline_ms : option Z;
  sc_writer : SettingsWriter;
  sc_reserved_capability_event_seq : Z;
  sc_reserved_fingerprint : string;
  sc_reserved_effective_model_id : string;
  sc_reserved_effective_reasoning_effort_id : option string;
  sc_reserved_effective_permission_mode_id : string;
  sc_status : string;
  sc_terminal_event_seq : option Z;
  sc_created_at_ms : Z;
  sc_updated_at_ms : Z;
}.

(** keyed by [attempt_jti_hash] *)
Record attach_attempt_row := mkAttachAttemptRow {
  at_attach_id : string;
  at_bootstrap_session_id : string;
  at_target_session_id : string;
  at_provider : string;
  at_fingerprint_domain : string;
  at_fingerprint_version : Z;
  at_fingerprint_digest : string;
  at_fingerprint_key_version : Z;
  at_expires_at_ns : Z;
  at_admission_outcome : string;
  at_issued_credential_generation : option Z;
  at_created_at_ms : Z;
}.

(** keyed by [attach_id] *)
Record attachment_row := mkAttachmentRow {
  ta_bootstrap_session_id : string;
  ta_target_session_id : string;
  ta_status : string;
  ta_delivery_state : string;
  ta_delivery_version : Z;
  ta_queue_reason : option string;
  ta_expires_at_ns : option Z;
  ta_canceled_at_ms : option Z;
  ta_blocking_session_id : option string;
  ta_target_credential_lineage_ref : string;
  ta_created_at_ms : Z;
  ta_updated_at_ms : Z;
}.

(** keyed by the 32 bytes of [workspace_key] *)
Record lease_row := mkLeaseRow {
  ls_worker_id : string;
  ls_session_id : string;
  ls_writer : SettingsWriter;            (* connection_epoch, credential_generation, lease_id *)
  ls_child_parent_workspace_key : option string;
  ls_child_capability_digest : option string;
  ls_child_scope_expires_at_ns : option Z;
  ls_status : string;
  ls_version : Z;
  ls_expires_at_ns : Z;
  ls_created_at_ms : Z;
  ls_updated_at_ms : Z;
}.

(** ** The databases *)

Record DB := mkDB {
  session_events : list event_row; (* in rowid order *)
  attention : gmap string attention_row; (* session_attention_summaries *)
  connections : gmap string connection_row; (* session_adapter_connections *)
  live_writers : gmap string SettingsWriter; (* session_settings_live_writers *)
  pending_commands : gmap (string * string) command_row; (* session_pending_commands *)
  event_proposals : gmap (string * string) proposal_row; (* session_event_proposals *)
  run_capabilities : gmap string run_capability_row; (* session_run_control_capabilities *)
  run_controls : gmap (string * string) run_control_row; (* session_run_controls *)
  file_capabilities : gmap string file_capability_row; (* session_file_reference_capabilities *)
  file_commands : gmap (string * string) file_command_row; (* session_file_reference_commands *)
  settings_capabilities : gmap string settings_capability_row; (* session_settings_capabilities *)
  settings_commands : gmap (string * string) settings_command_row; (* session_settings_commands *)
  attach_attempts : gmap string attach_attempt_row; (* session_attach_attempts *)
  attachments : gmap string attachment_row; (* session_attachments *)
  leases : gmap string lease_row; (* session_workspace_leases *)
  migration_pending : bool; (* session_attention_migration.state *)
  migration_checkpoint : string; (* its checkpoint_session_id *)
  next_fence : Z; (* session_adapter_fence_allocator *)
}.

(** [clock n] is what the [n]-th reading of the clock returns, in
    milliseconds. *)
Record World := mkWorld {
  db : DB;
  side_fence : Z;                        (* fence_store.adapter_fence_allocator *)
  clock : nat → Z;
  tick : nat;
}.

(** What [init] creates in a new file. *)
Definition empty_db : DB :=
  mkDB [] ∅ ∅ ∅ ∅ ∅ ∅ ∅ ∅ ∅ ∅ ∅ ∅ ∅ ∅ false EmptyString 1.
Definition new_world (clk : nat → Z) : World := mkWorld empty_db 1 clk 0.

Definition M (A : Type) : Type := SE World error A.

Definition set_db (f : DB → DB) (w : World) : World :=
  mkWorld (f (db w)) (side_fence w) (clock w) (tick w).

Definition upd_events (f : list event_row → list event_row) (d : DB) : DB :=
  mkDB (f (session_events d)) (attention d) (connections d) (live_writers d) (pending_commands d)
    (event_proposals d) (run_capabilities d) (run_controls d) (file_capabilities d) (file_commands
    d) (settings_capabilities d) (settings_commands d) (attach_attempts d) (attachments d) (leases
    d) (migration_pending d) (migration_checkpoint d) (next_fence d).
Definition upd_attention (f : gmap string attention_row → gmap string attention_row) (d : DB) : DB :=
  mkDB (session_events d) (f (attention d)) (connections d) (live_writers d) (pending_commands d)
    (event_proposals d) (run_capabilities d) (run_controls d) (file_capabilities d) (file_commands
    d) (settings_capabilities d) (settings_commands d) (attach_attempts d) (attachments d) (leases
    d) (migration_pending d) (migration_checkpoint d) (next_fence d).
Definition upd_connections (f : gmap string connection_row → gmap string connection_row) (d : DB) : DB :=
  mkDB (session_events d) (attention d) (f (connections d)) (live_writers d) (pending_commands d)
    (event_proposals d) (run_capabilities d) (run_controls d) (file_capabilities d) (file_commands
    d) (settings_capabilities d) (settings_commands d) (attach_attempts d) (attachments d) (leases
    d) (migration_pending d) (migration_checkpoint d) (next_fence d).
Definition upd_live_writers (f : gmap string SettingsWriter → gmap string SettingsWriter) (d : DB) : DB :=
  mkDB (session_events d) (attention d) (connections d) (f (live_writers d)) (pending_commands d)
    (event_proposals d) (run_capabilities d) (run_controls d) (file_capabilities d) (file_commands
    d) (settings_capabilities d) (settings_commands d) (attach_attempts d) (attachments d) (leases
    d) (migration_pending d) (migration_checkpoint d) (next_fence d).
Definition upd_pending_commands (f : gmap (string * string) command_row → gmap (string * string) command_row) (d : DB) : DB :=
  mkDB (session_events d) (attention d) (connections d) (live_writers d) (f (pending_commands d))
    (event_proposals d) (run_capabilities d) (run_controls d) (file_capabilities d) (file_commands
    d) (settings_capabilities d) (settings_commands d) (attach_attempts d) (attachments d) (leases
    d) (migration_pending d) (migration_checkpoint d) (next_fence d).
Definition upd_proposals (f : gmap (string * string) proposal_row → gmap (string * string) proposal_row) (d : DB) : DB :=
  mkDB (session_events d) (attention d) (connections d) (live_writers d) (pending_commands d) (f
    (event_proposals d)) (run_capabilities d) (run_controls d) (file_capabilities d) (file_commands
    d) (settings_capabilities d) (settings_commands d) (attach_attempts d) (attachments d) (leases
    d) (migration_pending d) (migration_checkpoint d) (next_fence d).
Definition upd_run_capabilities (f : gmap string run_capability_row → gmap string run_capability_row) (d : DB) : DB :=
  mkDB (session_events d) (attention d) (connections d) (live_writers d) (pending_commands d)
    (event_proposals d) (f (run_capabilities d)) (run_controls d) (file_capabilities d)
    (file_commands d) (settings_capabilities d) (settings_commands d) (attach_attempts d)
    (attachments d) (leases d) (migration_pending d) (migration_checkpoint d) (next_fence d).
Definition upd_run_controls (f : gmap (string * string) run_control_row → gmap (string * string) run_control_row) (d : DB) : DB :=
  mkDB (session_events d) (attention d) (connections d) (live_writers d) (pending_commands d)
    (event_proposals d) (run_capabilities d) (f (run_controls d)) (file_capabilities d)
    (file_commands d) (settings_capabilities d) (settings_commands d) (attach_attempts d)
    (attachments d) (leases d) (migration_pending d) (migration_checkpoint d) (next_fence d).
Definition upd_file_capabilities (f : gmap string file_capability_row → gmap string file_capability_row) (d : DB) : DB :=
  mkDB (session_events d) (attention d) (connections d) (live_writers d) (pending_commands d)
    (event_proposals d) (run_capabilities d) (run_controls d) (f (file_capabilities d))
    (file_commands d) (settings_capabilities d) (settings_commands d) (attach_attempts d)
    (attachments d) (leases d) (migration_pending d) (migration_checkpoint d) (next_fence d).
Definition upd_file_commands (f : gmap (string * string) file_command_row → gmap (string * string) file_command_row) (d : DB) : DB :=
  mkDB (session_events d) (attention d) (connections d) (live_writers d) (pending_commands d)
    (event_proposals d) (run_capabilities d) (run_controls d) (file_capabilities d) (f
    (file_commands d)) (settings_capabilities d) (settings_commands d) (attach_attempts d)
    (attachments d) (leases d) (migration_pending d) (migration_checkpoint d) (next_fence d).
Definition upd_settings_capabilities (f : gmap string settings_capability_row → gmap string settings_capability_row) (d : DB) : DB :=
  mkDB (session_events d) (attention d) (connections d) (live_writers d) (pending_commands d)
    (event_proposals d) (run_capabilities d) (run_controls d) (file_capabilities d) (file_commands
    d) (f (settings_capabilities d)) (settings_commands d) (attach_attempts d) (attachments d)
    (leases d) (migration_pending d) (migration_checkpoint d) (next_fence d).
Definition upd_settings_commands (f : gmap (string * string) settings_command_row → gmap (string * string) settings_command_row) (d : DB) : DB :=
  mkDB (session_events d) (attention d) (connections d) (live_writers d) (pending_commands d)
    (event_proposals d) (run_capabilities d) (run_controls d) (file_capabilities d) (file_commands
    d) (settings_capabilities d) (f (settings_commands d)) (attach_attempts d) (attachments d)
    (leases d) (migration_pending d) (migration_checkpoint d) (next_fence d).
Definition upd_attach_attempts (f : gmap string attach_attempt_row → gmap string attach_attempt_row) (d : DB) : DB :=
  mkDB (session_events d) (attention d) (connections d) (live_writers d) (pending_commands d)
    (event_proposals d) (run_capabilities d) (run_controls d) (file_capabilities d) (file_commands
    d) (settings_capabilities d) (settings_commands d) (f (attach_attempts d)) (attachments d)
    (leases d) (migration_pending d) (migration_checkpoint d) (next_fence d).
Definition upd_attachments (f : gmap string attachment_row → gmap string attachment_row) (d : DB) : DB :=
  mkDB (session_events d) (attention d) (connections d) (live_writers d) (pending_commands d)
    (event_proposals d) (run_capabilities d) (run_controls d) (file_capabilities d) (file_commands
    d) (settings_capabilities d) (settings_commands d) (attach_attempts d) (f (attachments d))
    (leases d) (migration_pending d) (migration_checkpoint d) (next_fence d).
Definition upd_leases (f : gmap string lease_row → gmap string lease_row) (d : DB) : DB :=
  mkDB (session_events d) (attention d) (connections d) (live_writers d) (pending_commands d)
    (event_proposals d) (run_capabilities d) (run_controls d) (file_capabilities d) (file_commands
    d) (settings_capabilities d) (settings_commands d) (attach_attempts d) (attachments d) (f
    (leases d)) (migration_pending d) (migration_checkpoint d) (next_fence d).
Definition upd_migration_pending (f : bool → bool) (d : DB) : DB :=
  mkDB (session_events d) (attention d) (connections d) (live_writers d) (pending_commands d)
    (event_proposals d) (run_capabilities d) (run_controls d) (file_capabilities d) (file_commands
    d) (settings_capabilities d) (settings_commands d) (attach_attempts d) (attachments d) (leases
    d) (f (migration_pending d)) (migration_checkpoint d) (next_fence d).
Definition upd_migration_checkpoint (f : string → string) (d : DB) : DB :=
  mkDB (session_events d) (attention d) (connections d) (live_writers d) (pending_commands d)
    (event_proposals d) (run_capabilities d) (run_controls d) (file_capabilities d) (file_commands
    d) (settings_capabilities d) (settings_commands d) (attach_attempts d) (attachments d) (leases
    d) (migration_pending d) (f (migration_checkpoint d)) (next_fence d).
Definition upd_next_fence (f : Z → Z) (d : DB) : DB :=
  mkDB (session_events d) (attention d) (connections d) (live_writers d) (pending_commands d)
    (event_proposals d) (run_capabilities d) (run_controls d) (file_capabilities d) (file_commands
    d) (settings_capabilities d) (settings_commands d) (attach_attempts d) (attachments d) (leases
    d) (migration_pending d) (migration_checkpoint d) (f (next_fence d)).

(** ** Clock and transactions *)

(** [sqliteNowMillis], [time.Now().UnixMilli()] and the ['now'] of a statement. *)
Definition nowMillis : M Z := λ w,
  (mkWorld (db w) (side_fence w) (clock w) (S (tick w)), inr (clock w (tick w))).

Definition with_tx {A} (body : M A) : M A := λ w,
  match body w with
  | (w', inl e) => (mkWorld (db w) (side_fence w') (clock w') (tick w'), inl e)
  | (w', inr a) => (w', inr a)
  end.

Definition query {A} (f : DB → A) : M A := gets (λ w, f (db w)).
Definition exec (f : DB → DB) : M unit := modify (set_db f).

(** [QueryRow]: no row is [sql.ErrNoRows]. *)
Definition query_row {A} (f : DB → option A) : M A :=
  r ← query f;
  match r with Some a => mret a | None => throw ErrNoRows end.

(** A statement the schema may refuse. *)
Definition check (what : string) (b : bool) : M unit := fail_if (negb b) (ErrConstraint what).

Lemma wp_now Q X (w : World) :
  wp nowMillis Q X w ↔
  Q (clock w (tick w)) (mkWorld (db w) (side_fence w) (clock w) (S (tick w))).
Proof. done. Qed.

Lemma wp_tx {A} (body : M A) Q X (w : World) :
  wp (with_tx body) Q X w ↔
  wp body Q (λ e w', X e (mkWorld (db w) (side_fence w') (clock w') (tick w'))) w.
Proof. unfold wp, with_tx. by destruct (body w) as [w' [e|a]]. Qed.

Lemma wp_query {A} (f : DB → A) Q (X : error → World → Prop) w :
  wp (query f) Q X w ↔ Q (f (db w)) w.
Proof. done. Qed.

Lemma wp_exec f Q (X : error → World → Prop) w : wp (exec f) Q X w ↔ Q tt (set_db f w).
Proof. done. Qed.

Lemma wp_query_row {A} (f : DB → option A) Q (X : error → World → Prop) w :
  wp (query_row f) Q X w ↔ match f (db w) with Some a => Q a w | None => X ErrNoRows w end.
Proof. unfold wp, query_row, query, gets, mbind, SE_bind. by destruct (f (db w)). Qed.

Lemma wp_check what b Q (X : error → World → Prop) w :
  wp (check what b) Q X w ↔ (b = false → X (ErrConstraint what) w) ∧ (b = true → Q tt w).
Proof. unfold check. rewrite wp_fail_if. destruct b; simpl; naive_solver. Qed.

(** [db_step]: the rules of this file and of the prelude. *)
Ltac db_step :=
  lazymatch goal with
  | |- wp nowMillis _ _ _ => rewrite wp_now
  | |- wp (with_tx _) _ _ _ => rewrite wp_tx
  | |- wp (query _) _ _ _ => rewrite wp_query
  | |- wp (exec _) _ _ _ => rewrite wp_exec
  | |- wp (query_row ?f) _ _ ?w =>
      rewrite wp_query_row; let E := fresh "E" in destruct (f (db w)) eqn:E
  | |- wp (check _ _) _ _ _ => rewrite wp_check; split; intros ?
  | |- _ => wp_step
  end; cbv beta iota.

Ltac db_steps := repeat db_step.

(** ** Frames

    [keeps f m]: whatever [m] does, [f] of the world stays. *)
Definition keeps {A B} (f : World → B) (m : M A) : Prop := ∀ w,
  wp m (λ _ w', f w' = f w) (λ _ w', f w' = f w) w.

Section keeps.
Context {B : Type} (f : World → B).

Lemma keeps_wp {A} (m : M A) w0 w Q (X : error → World → Prop) :
  keeps f m → f w = f w0 → (∀ a w', f w' = f w0 → Q a w') → (∀ e w', f w' = f w0 → X e w') → wp m Q X w.
Proof.
  intros Hm Hw HQ HX. eapply wp_mono; [apply Hm|..]; intros; [apply HQ|apply HX]; congruence.
Qed.

Lemma keeps_bind {A C} (m : M A) (k : A → M C) : keeps f m → (∀ a, keeps f (k a)) → keeps f (m ≫= k).
Proof.
  intros Hm Hk w. rewrite wp_bind. apply (keeps_wp _ w); [done|done| |done].
  intros a w' Hw'. apply (keeps_wp _ w); [apply Hk|done|done|done].
Qed.
Lemma keeps_ret {A} (a : A) : keeps f (mret a).
Proof. by intros w. Qed.
Lemma keeps_throw {A} e : keeps f (throw e : M A).
Proof. by intros w. Qed.
Lemma keeps_fail_if b e : keeps f (fail_if b e).
Proof. intros w. rewrite wp_fail_if. done. Qed.
Lemma keeps_check what b : keeps f (check what b).
Proof. apply keeps_fail_if. Qed.
Lemma keeps_query {A} (g : DB → A) : keeps f (query g).
Proof. by intros w. Qed.
Lemma keeps_query_row {A} (g : DB → option A) : keeps f (query_row g).
Proof. intros w. rewrite wp_query_row. by destruct (g (db w)). Qed.
Lemma keeps_get : keeps f get.
Proof. by intros w. Qed.
Lemma keeps_lift {A} (r : error + A) : keeps f (lift r).
Proof. intros w. rewrite wp_lift. by destruct r. Qed.
Lemma keeps_on_error {A} g (m : M A) : keeps f m → keeps f (on_error g m).
Proof. intros Hm w. rewrite wp_on_error. apply Hm. Qed.
Lemma keeps_try {A} (m : M A) : keeps f m → keeps f (try_ m).
Proof. intros Hm w. rewrite wp_try. apply Hm. Qed.
Lemma keeps_for_each {A} (l : list A) body : (∀ a, keeps f (body a)) → keeps f (for_each l body).
Proof. intros Hb. induction l; simpl; [apply keeps_ret|by apply keeps_bind]. Qed.
Lemma keeps_exec g : (∀ w, f (set_db g w) = f w) → keeps f (exec g).
Proof. intros Hg w. rewrite wp_exec. apply Hg. Qed.
Lemma keeps_tx {A} (m : M A) :
  (∀ w w', f (mkWorld (db w) (side_fence w') (clock w') (tick w')) = f w) → keeps f m → keeps f (with_tx m).
Proof. intros Hg Hm w. rewrite wp_tx. apply (keeps_wp _ w); [done|done|done|]. intros e w' _. apply Hg. Qed.
Lemma keeps_now : (∀ w, f (mkWorld (db w) (side_fence w) (clock w) (S (tick w))) = f w) → keeps f nowMillis.
Proof. intros Hg w. rewrite wp_now. apply Hg. Qed.
End keeps.

(** Frames by structure; side conditions hold by computation. *)
Ltac keeps_step :=
  first
    [ solve [eauto 2 with keeps nocore]
    | lazymatch goal with
      | |- keeps _ (mbind _ _) => apply keeps_bind; [|intros ?]
      | |- keeps _ (mret _) => apply keeps_ret
      | |- keeps _ (throw _) => apply keeps_throw
      | |- keeps _ (with_tx _) => apply keeps_tx; [intros ? ?; reflexivity|]
      | |- keeps _ (fail_if _ _) => apply keeps_fail_if
      | |- keeps _ (check _ _) => apply keeps_check
      | |- keeps _ (query _) => apply keeps_query
      | |- keeps _ (query_row _) => apply keeps_query_row
      | |- keeps _ get => apply keeps_get
      | |- keeps _ (lift _) => apply keeps_lift
      | |- keeps _ (on_error _ _) => apply keeps_on_error
      | |- keeps _ (try_ _) => apply keeps_try
      | |- keeps _ (for_each _ _) => apply keeps_for_each; intros ?
      | |- keeps _ (exec _) => apply keeps_exec; intros ?; reflexivity
      | |- keeps _ nowMillis => apply keeps_now; intros ?; reflexivity
      | |- keeps _ (match ?x with _ => _ end) => destruct x
      end ]; cbv beta iota zeta.
Create HintDb keeps discriminated.
Ltac keeps_auto := cbv zeta; repeat keeps_step.

(** The same through the definitions an operation is made of. *)
Ltac head_of t := lazymatch t with ?f _ => head_of f | _ => t end.
Ltac keeps_deep :=
  keeps_auto;
  try (lazymatch goal with
       | |- keeps _ ?m => let h := head_of m in progress (unfold h); keeps_deep
       end).

(** ** Event rows *)

Definition session_rows (sid : string) (d : DB) : list event_row :=
  filter (λ r, er_session_id r = sid) (session_events d).

(** [COALESCE(MAX(seq), 0)] over integer rows. *)
Definition max_seq (l : list event_row) : Z :=
  match er_seq <$> l with
  | [] => 0
  | x :: xs => foldr Z.max x xs
  end.

Definition latest_seq (sid : string) (d : DB) : Z := max_seq (session_rows sid d).

(** [SELECT ... WHERE session_id=? AND seq=?] *)
Definition event_at (sid : string) (seq : Z) (d : DB) : option event_row :=
  snd <$> list_find (λ r, er_session_id r = sid ∧ er_seq r = seq) (session_events d).

(** [INSERT INTO session_events], with its CHECK and UNIQUE constraints. *)
Definition insert_event (row : event_row) : M unit :=
  check "session_events.seq" (bool_decide (0 < er_seq row)) ≫= λ _,
  dup ← query (event_at (er_session_id row) (er_seq row));
  check "session_events.session_id, session_events.seq" (bool_decide (dup = None)) ≫= λ _,
  exec (upd_events (λ l, l ++ [row])).

(** ** The log invariant

    Every Session's rows carry the numbers 1, 2, ... in insertion order, and
    the last number is an [int64]. *)
Definition log_ok (d : DB) : Prop := ∀ sid,
  (∀ (i : nat) r, session_rows sid d !! i = Some r → er_seq r = Z.of_nat i + 1) ∧
  Z.of_nat (length (session_rows sid d)) ≤ max_int64.

Lemma foldr_max_ge x xs : x ≤ foldr Z.max x xs ∧ ∀ y, y ∈ xs → y ≤ foldr Z.max x xs.
Proof.
  induction xs as [|z xs [IH1 IH2]]; simpl.
  - split; [lia|]. intros y Hy. by apply elem_of_nil in Hy.
  - split; [lia|]. intros y [->|Hy]%elem_of_cons; [lia|]. specialize (IH2 y Hy). lia.
Qed.

Lemma foldr_max_in x xs : foldr Z.max x xs ∈ x :: xs.
Proof.
  induction xs as [|z xs IH]; simpl; [set_solver|].
  destruct (Z.max_spec z (foldr Z.max x xs)) as [[_ ->]|[_ ->]]; set_solver.
Qed.

Lemma max_seq_ge l r : r ∈ l → er_seq r ≤ max_seq l.
Proof.
  intros Hr. assert (er_seq r ∈ er_seq <$> l) as Hin by (by apply list_elem_of_fmap_2).
  unfold max_seq. destruct (er_seq <$> l) as [|x xs]; [by apply elem_of_nil in Hin|].
  pose proof (foldr_max_ge x xs) as [H1 H2].
  apply elem_of_cons in Hin as [->|Hin]; auto.
Qed.

Lemma max_seq_in l : l ≠ [] → ∃ r, r ∈ l ∧ max_seq l = er_seq r.
Proof.
  intros Hl. unfold max_seq. destruct (er_seq <$> l) as [|x xs] eqn:E.
  { by apply fmap_nil_inv in E. }
  pose proof (foldr_max_in x xs) as Hin. rewrite <-E in Hin.
  apply list_elem_of_fmap in Hin as (r & -> & Hr). by exists r.
Qed.

Lemma latest_seq_dense d sid :
  log_ok d → latest_seq sid d = Z.of_nat (length (session_rows sid d)).
Proof.
  intros Hok. destruct (Hok sid) as [Hdense _]. unfold latest_seq.
  destruct (decide (session_rows sid d = [])) as [->|Hne]; [done|].
  destruct (max_seq_in _ Hne) as (r & Hr & Hmax).
  apply list_elem_of_lookup in Hr as [i Hi]. pose proof (Hdense i r Hi).
  apply lookup_lt_Some in Hi as Hlt.
  destruct (lookup_lt_is_Some_2 (session_rows sid d) (length (session_rows sid d) - 1))
    as [r' Hr']; [lia|].
  pose proof (Hdense _ _ Hr'). pose proof (max_seq_ge _ r' (list_elem_of_lookup_2 _ _ _ Hr')). lia.
Qed.

Lemma session_rows_snoc sid d row :
  session_rows sid (upd_events (λ l, l ++ [row]) d)
    = session_rows sid d ++ (if decide (er_session_id row = sid) then [row] else []).
Proof.
  unfold session_rows. simpl. by rewrite filter_app.
Qed.

Lemma log_ok_snoc d row :
  log_ok d → er_seq row = latest_seq (er_session_id row) d + 1 → er_seq row ≤ max_int64 →
  log_ok (upd_events (λ l, l ++ [row]) d).
Proof.
  intros Hok Hseq Hmax sid. rewrite session_rows_snoc. destruct (Hok sid) as [Hdense Hlen].
  destruct (decide (er_session_id row = sid)) as [<-|Hne]; [|by rewrite app_nil_r].
  rewrite latest_seq_dense in Hseq by done. split.
  - intros i r [Hi|[Hge Hi]]%lookup_app_Some; [by apply Hdense|].
    destruct (i - length (session_rows (er_session_id row) d))%nat eqn:E; [|done].
    simplify_eq/=. lia.
  - rewrite length_app. simpl. lia.
Qed.

(** Appending the next number succeeds exactly while the numbers last; at the
    largest [int64] the wrapped number is refused by the CHECK. *)
Lemma insert_event_next w row Q X :
  log_ok (db w) →
  er_seq row = i64 (latest_seq (er_session_id row) (db w) + 1) →
  (er_seq row = latest_seq (er_session_id row) (db w) + 1 → er_seq row ≤ max_int64 →
   log_ok (upd_events (λ l, l ++ [row]) (db w)) →
   Q tt (set_db (upd_events (λ l, l ++ [row])) w)) →
  (latest_seq (er_session_id row) (db w) = max_int64 → ∀ e, is_no_rows e = false → X e w) →
  wp (insert_event row) Q X w.
Proof.
  intros Hok Hseq HQ HX. pose proof (latest_seq_dense (db w) (er_session_id row) Hok) as Hlen.
  destruct (Hok (er_session_id row)) as [Hdense Hle].
  destruct (i64_succ_cases (latest_seq (er_session_id row) (db w))) as [[Hlt H]|[Heq H]];
    [unfold two63, max_int64 in *; lia| |].
  - unfold insert_event. rewrite H in Hseq. db_steps; bool_hyps; [lia| |].
    + exfalso. unfold event_at in *.
      destruct (list_find _ _) as [[i r]|] eqn:E; [|done].
      apply list_find_Some in E as (Hi & [Hs He] & _).
      assert (r ∈ session_rows (er_session_id row) (db w)) as Hin.
      { apply list_elem_of_filter. split; [done|]. by eapply list_elem_of_lookup_2. }
      apply max_seq_ge in Hin. fold (latest_seq (er_session_id row) (db w)) in Hin. lia.
    + assert (er_seq row ≤ max_int64) by lia. apply HQ; auto. by apply log_ok_snoc.
  - unfold insert_event. rewrite H in Hseq. db_steps; bool_hyps; auto.
    unfold two63 in *. lia.
Qed.
