(* ===== verification/Attention.v ===== *)
(** * The attention projection of [store/sqlite/store.go]

    [session_attention_summaries] keeps one row per Session, projected from
    the events the Store appends: [sqliteAttentionEventProjection] reads an
    event, [projectSQLiteAttentionEvent] folds it into the row, and
    [upsertSQLiteAttentionLedger] records evidence that is not an event.  The
    row is read back and validated by [querySQLiteAttentionSummary] and written
    by [upsertSQLiteAttentionSummary] under the table's CHECK constraints. *)

From S2P Require Import Prelude StoreApi Json Sqlite.
From stdpp Require Import base gmap strings list.
#[local] Open Scope Z_scope.

Module Attention.

(** ** Data *)

Definition AttentionProjectionComplete : string := "complete".
Definition AttentionProjectionIncomplete : string := "incomplete".
Definition AttentionPermissionPending : string := "pending".

Record AttentionBlocker := mkBlocker {
  Kind : string;
  Reason : option string;
  ExpiresAt : option time;
  BlockingSessionID : option string;
  Operation : option string;
}.

Record AttentionPermission := mkPermission {
  ID : string;
  Status : string;
}.

Record SessionAttentionSummary := mkSummary {
  sm_SessionID : string;
  LatestSeq : Z;
  State : string;
  Permission : option AttentionPermission;
  TerminalOutcome : option string;
  LatestChangeSeq : option Z;
  Blocker : option AttentionBlocker;
  SummaryVersion : Z;
  LastDurableEventAt : option time;
  LastClientCommandAt : option time;
  StateOfProjection : string;
}.

#[global] Instance AttentionBlocker_eq_dec : EqDecision AttentionBlocker.
Proof. solve_decision. Defined.
#[global] Instance AttentionPermission_eq_dec : EqDecision AttentionPermission.
Proof. solve_decision. Defined.

(** ** CHECK constraints

    SQL conditions are three-valued: a comparison with NULL is unknown, and a
    CHECK refuses a row only when its condition is false. *)

Definition sql_bool := option bool.
Definition sql_and (a b : sql_bool) : sql_bool :=
  match a, b with
  | Some false, _ | _, Some false => Some false
  | Some true, Some true => Some true
  | _, _ => None
  end.
Definition sql_or (a b : sql_bool) : sql_bool :=
  match a, b with
  | Some true, _ | _, Some true => Some true
  | Some false, Some false => Some false
  | _, _ => None
  end.
Definition is_null {A} (v : option A) : sql_bool := Some (match v with None => true | Some _ => false end).
Definition sql_eq (v : option string) (s : string) : sql_bool := (λ x, bool_decide (x = s)) <$> v.
Definition sql_in (v : option string) (l : list string) : sql_bool := (λ x, bool_decide (x ∈ l)) <$> v.
Definition length_between (lo : Z) (v : option string) (hi : Z) : sql_bool :=
  (λ x, text_between lo x hi) <$> v.
(** a CHECK accepts what is not false *)
Definition accepted (b : sql_bool) : bool := match b with Some false => false | _ => true end.

Definition session_states : list string :=
  ["starting"; "ready"; "busy"; "waiting_permission"; "recovering"; "ended"; "error"].

(** The CHECKs of [session_attention_summaries]. *)
Definition attention_checks (session_id : string) (r : attention_row) : bool :=
  text_between 1 session_id 255 &&
  bool_decide (0 ≤ ar_latest_seq r) &&
  bool_decide (ar_state r ∈ session_states) &&
  bool_decide (0 ≤ ar_summary_version r) &&
  bool_decide (ar_projection_state r ∈ ["complete"; "incomplete"]) &&
  match ar_latest_change_seq r with
  | None => true
  | Some c => bool_decide (0 < c) && bool_decide (c ≤ ar_latest_seq r)
  end &&
  accepted (sql_or (sql_and (is_null (ar_permission_id r)) (is_null (ar_permission_status r)))
                   (sql_and (length_between 1 (ar_permission_id r) 255)
                            (sql_eq (ar_permission_status r) "pending"))) &&
  accepted (sql_or (is_null (ar_terminal_outcome r)) (length_between 1 (ar_terminal_outcome r) 128)) &&
  accepted (sql_or (is_null (ar_blocking_session_id r)) (length_between 1 (ar_blocking_session_id r) 255)) &&
  accepted (sql_or (is_null (ar_blocker_reason r)) (length_between 1 (ar_blocker_reason r) 128)) &&
  accepted (sql_or (is_null (ar_blocker_operation r)) (length_between 1 (ar_blocker_operation r) 128)) &&
  let no_reason := sql_and (is_null (ar_blocker_reason r))
        (sql_and (is_null (ar_blocker_expires_at_ns r)) (is_null (ar_blocking_session_id r))) in
  accepted
    (sql_or (sql_and (is_null (ar_blocker_kind r)) (sql_and no_reason (is_null (ar_blocker_operation r))))
    (sql_or (sql_and (sql_eq (ar_blocker_kind r) "queued") (is_null (ar_blocker_operation r)))
    (sql_or (sql_and (sql_eq (ar_blocker_kind r) "outcome_unknown") no_reason)
            (sql_and (sql_in (ar_blocker_kind r) ["reauthorization_required"; "new_run_required"])
                     (sql_and no_reason (is_null (ar_blocker_operation r))))))).

(** ** Reading and writing a row *)

Definition querySQLiteAttentionSummary (sessionID : string) (r : attention_row)
    : error + SessionAttentionSummary :=
  if negb (validConnectionID sessionID) || bool_decide (ar_latest_seq r < 0)
     || bool_decide (ar_summary_version r < 0)
     || (bool_decide (ar_projection_state r ≠ AttentionProjectionComplete)
         && bool_decide (ar_projection_state r ≠ AttentionProjectionIncomplete))
     || bool_decide (ar_created_at_ms r < 1) || bool_decide (ar_updated_at_ms r < ar_created_at_ms r)
  then inl (Err "attention summary row is invalid")
  else
    let permission :=
      match ar_permission_id r, ar_permission_status r with
      | None, None => Some None
      | Some id, Some status =>
          if bool_decide (status ≠ AttentionPermissionPending) || negb (validConnectionID id) then None
          else Some (Some (mkPermission id status))
      | _, _ => None
      end in
    match permission with
    | None => inl (Err "attention permission row is invalid")
    | Some permission =>
        let blocker :=
          match ar_blocker_kind r with
          | Some kind =>
              Some (Some (mkBlocker kind (ar_blocker_reason r) (ar_blocker_expires_at_ns r)
                            (ar_blocking_session_id r) (ar_blocker_operation r)))
          | None =>
              match ar_blocker_reason r, ar_blocker_expires_at_ns r, ar_blocking_session_id r,
                    ar_blocker_operation r with
              | None, None, None, None => Some None
              | _, _, _, _ => None
              end
          end in
        match blocker with
        | None => inl (Err "attention blocker row is invalid")
        | Some blocker =>
            inr (mkSummary sessionID (ar_latest_seq r) (ar_state r) permission (ar_terminal_outcome r)
                   (ar_latest_change_seq r) blocker (ar_summary_version r)
                   (of_UnixMilli <$> ar_last_durable_event_at_ms r)
                   (of_UnixMilli <$> ar_last_client_command_at_ms r) (ar_projection_state r))
        end
    end.

(** [SELECT ... WHERE session_id = ?] followed by the scan above. *)
Definition loadAttentionSummary (sessionID : string) : M SessionAttentionSummary :=
  row ← query_row (λ d, attention d !! sessionID);
  lift (querySQLiteAttentionSummary sessionID row).

(** The columns [upsertSQLiteAttentionSummary] writes. *)
Definition summary_row (summary : SessionAttentionSummary) (createdMS nowMS : Z) : attention_row :=
  mkAttentionRow (LatestSeq summary) (State summary)
    (ID <$> Permission summary) (Status <$> Permission summary)
    (TerminalOutcome summary) (LatestChangeSeq summary)
    (Kind <$> Blocker summary) (Blocker summary ≫= Reason)
    (UnixNano <$> (Blocker summary ≫= ExpiresAt))
    (Blocker summary ≫= BlockingSessionID) (Blocker summary ≫= Operation)
    (SummaryVersion summary)
    (UnixMilli <$> LastDurableEventAt summary) (UnixMilli <$> LastClientCommandAt summary)
    (StateOfProjection summary) createdMS nowMS.

Definition upsertSQLiteAttentionSummary (summary : SessionAttentionSummary) (nowMS : Z) : M unit :=
  fail_if (negb (validConnectionID (sm_SessionID summary)) || bool_decide (LatestSeq summary < 0)
           || bool_decide (SummaryVersion summary < 0)
           || (bool_decide (StateOfProjection summary ≠ AttentionProjectionComplete)
               && bool_decide (StateOfProjection summary ≠ AttentionProjectionIncomplete)))
    (Err "invalid attention summary") ≫= λ _,
  old ← query (λ d, attention d !! sm_SessionID summary);
  let row := summary_row summary (default nowMS (ar_created_at_ms <$> old)) nowMS in
  on_error (Wrap "upsert attention summary")
    (check "session_attention_summaries" (attention_checks (sm_SessionID summary) row)) ≫= λ _,
  exec (upd_attention (<[sm_SessionID summary := row]>)).

(** [UPDATE]s of single fields of a summary. *)
Definition with_ledger (s : SessionAttentionSummary) (version : Z) (blocker : option AttentionBlocker)
    (client : option time) : SessionAttentionSummary :=
  mkSummary (sm_SessionID s) (LatestSeq s) (State s) (Permission s) (TerminalOutcome s)
    (LatestChangeSeq s) blocker version (LastDurableEventAt s) client (StateOfProjection s).

Definition new_summary (sessionID : string) (version : Z) : SessionAttentionSummary :=
  mkSummary sessionID 0 "starting" None None None None version None None AttentionProjectionIncomplete.

Definition upsertSQLiteAttentionLedger (sessionID : string) (blocker : option AttentionBlocker)
    (clientAtMS : option Z) : M unit :=
  r ← try_ (loadAttentionSummary sessionID);
  summary ← match r with
    | inl err => if is_no_rows err then mret (new_summary sessionID 1)
                 else throw (Wrap "load attention ledger" err)
    | inr s => mret (with_ledger s (i64 (SummaryVersion s + 1)) (Blocker s) (LastClientCommandAt s))
    end;
  let summary := with_ledger summary (SummaryVersion summary) blocker
       (match clientAtMS with Some ms => Some (of_UnixMilli ms) | None => LastClientCommandAt summary end) in
  nowMS ← nowMillis;
  upsertSQLiteAttentionSummary summary nowMS.

(** ** Projecting an event *)

Record sqliteAttentionProjection := mkProjection {
  pj_state : option string;
  stateObserved : bool;
  permissionID : option string;
  permissionDecisionID : option string;
  permissionChange : bool;
  terminalOutcome : option string;
  projectionIncomplete : bool;
  terminal : bool;
}.

Definition incomplete_projection (observed : bool) : sqliteAttentionProjection :=
  mkProjection None observed None None false None true false.

Definition nothing_projected : sqliteAttentionProjection :=
  mkProjection None false None None false None false false.

Definition state_projection (state : string) : sqliteAttentionProjection :=
  let ends := bool_decide (state ∈ ["ended"; "error"]) in
  mkProjection (Some state) true None None false (if ends then Some state else None) false ends.

Definition sqliteAttentionEventProjection (event : PendingEvent) : sqliteAttentionProjection :=
  if bool_decide (pe_Type event = "permission.request") then
    match Json.unmarshalStrings ["request_id"] (pe_Payload event) with
    | Some [request] =>
        if validConnectionID request then mkProjection None false (Some request) None true None false false
        else incomplete_projection false
    | _ => incomplete_projection false
    end
  else if bool_decide (pe_Type event = "permission.decision") then
    match Json.unmarshalStrings ["request_id"; "decision"] (pe_Payload event) with
    | Some [request; decision] =>
        if validConnectionID request && bool_decide (decision ∈ ["approve"; "deny"; "expired"])
        then mkProjection None false None (Some request) true None false false
        else incomplete_projection false
    | _ => incomplete_projection false
    end
  else if bool_decide (pe_Type event = "session.error") then
    mkProjection (Some "error") true None None false (Some "error") false true
  else if bool_decide (pe_Type event ≠ "session.state") then nothing_projected
  else
    match Json.unmarshalStrings ["state"] (pe_Payload event) with
    | Some [state] =>
        if bool_decide (state = "working") then state_projection "busy"
        else if bool_decide (state ∈ session_states) then state_projection state
        else incomplete_projection true
    | _ => incomplete_projection true
    end.

Definition next_permission (s : SessionAttentionSummary) (p : sqliteAttentionProjection)
    : option AttentionPermission :=
  if permissionChange p then
    match permissionID p with
    | Some id => Some (mkPermission id AttentionPermissionPending)
    | None =>
        match Permission s, permissionDecisionID p with
        | Some permission, Some id => if bool_decide (ID permission = id) then None else Some permission
        | permission, _ => permission
        end
    end
  else Permission s.

(** The terminal outcome follows the state; an event that shows no state may
    only fill an empty outcome. *)
Definition next_outcome (s : SessionAttentionSummary) (p : sqliteAttentionProjection) : option string :=
  match stateObserved p, pj_state p with
  | true, Some state =>
      if bool_decide (state ∈ ["ended"; "error"]) then Some (default state (terminalOutcome p)) else None
  | _, _ =>
      match TerminalOutcome s, terminalOutcome p with
      | None, Some outcome => Some outcome
      | o, _ => o
      end
  end.

(** [projectSQLiteAttentionEvent] between the load and the write. *)
Definition fold_projection (created : bool) (summary : SessionAttentionSummary) (seq nowMS : Z)
    (p : sqliteAttentionProjection) : SessionAttentionSummary :=
  let incomplete0 := projectionIncomplete p
        || (bool_decide (0 < LatestSeq summary) && bool_decide (seq ≠ i64 (LatestSeq summary + 1))) in
  let incomplete := incomplete0
        || (bool_decide (seq = 1) && (negb (stateObserved p) || bool_decide (pj_state p = None))) in
  let state_of_projection :=
    if (negb created && bool_decide (StateOfProjection summary = AttentionProjectionIncomplete))
       || incomplete || (stateObserved p && bool_decide (pj_state p = None))
    then AttentionProjectionIncomplete else AttentionProjectionComplete in
  mkSummary (sm_SessionID summary) seq (default (State summary) (pj_state p))
    (next_permission summary p) (next_outcome summary p)
    (match pj_state p with Some _ => Some seq | None => LatestChangeSeq summary end)
    (Blocker summary) (SummaryVersion summary) (Some (of_UnixMilli nowMS))
    (LastClientCommandAt summary) state_of_projection.

Definition projectSQLiteAttentionEvent (sessionID : string) (seq : Z) (event : PendingEvent) (nowMS : Z)
    : M bool :=
  r ← try_ (loadAttentionSummary sessionID);
  summary ← match r with
    | inl err => if is_no_rows err then mret (true, new_summary sessionID 0)
                 else throw (Wrap "load attention summary" err)
    | inr s => mret (false, s)
    end;
  let projection := sqliteAttentionEventProjection event in
  upsertSQLiteAttentionSummary
    (fold_projection summary.1 summary.2 seq nowMS projection) nowMS ≫= λ _,
  mret (terminal projection).

(** ** Specifications *)

(** The summary a projection starts from: the stored one, or a new one. *)
Definition current_summary (fresh : SessionAttentionSummary) (sid : string) (d : DB)
    : error + (bool * SessionAttentionSummary) :=
  match attention d !! sid with
  | None => inr (true, fresh)
  | Some r => match querySQLiteAttentionSummary sid r with inl e => inl e | inr s => inr (false, s) end
  end.

Lemma wp_load sid Q X (w : World) :
  wp (loadAttentionSummary sid) Q X w ↔
  match attention (db w) !! sid with
  | None => X ErrNoRows w
  | Some r => match querySQLiteAttentionSummary sid r with inl e => X e w | inr s => Q s w end
  end.
Proof.
  unfold loadAttentionSummary. rewrite wp_bind, wp_query_row.
  destruct (attention (db w) !! sid); [|done]. by rewrite wp_lift.
Qed.

(** Errors of the scan are messages: never "no rows". *)
Lemma query_summary_err sid r e : querySQLiteAttentionSummary sid r = inl e → is_no_rows e = false.
Proof. unfold querySQLiteAttentionSummary. intros H. repeat (case_match; simplify_eq/=; try done). Qed.

Lemma query_summary_sid sid r s : querySQLiteAttentionSummary sid r = inr s → sm_SessionID s = sid.
Proof. unfold querySQLiteAttentionSummary. intros H. repeat (case_match; simplify_eq/=; try done). Qed.

(** The row an upsert leaves for a summary. *)
Definition upserted (s : SessionAttentionSummary) (nowMS : Z) (d : DB) : attention_row :=
  summary_row s (default nowMS (ar_created_at_ms <$> attention d !! sm_SessionID s)) nowMS.

Definition summary_storable (s : SessionAttentionSummary) (nowMS : Z) (d : DB) : bool :=
  validConnectionID (sm_SessionID s) && bool_decide (0 ≤ LatestSeq s) &&
  bool_decide (0 ≤ SummaryVersion s) &&
  bool_decide (StateOfProjection s ∈ [AttentionProjectionComplete; AttentionProjectionIncomplete]) &&
  attention_checks (sm_SessionID s) (upserted s nowMS d).

Lemma wp_upsert s nowMS Q X (w : World) :
  (summary_storable s nowMS (db w) = true →
   Q tt (set_db (upd_attention (<[sm_SessionID s := upserted s nowMS (db w)]>)) w)) →
  (summary_storable s nowMS (db w) = false → ∀ e, is_no_rows e = false → X e w) →
  wp (upsertSQLiteAttentionSummary s nowMS) Q X w.
Proof.
  intros HQ HX. unfold upsertSQLiteAttentionSummary.
  destruct (summary_storable s nowMS (db w)) eqn:Hst; unfold summary_storable in Hst.
  - db_steps; bool_hyps; try by apply HQ.
    + exfalso. rewrite !orb_true_iff in *. rewrite elem_of_cons, list_elem_of_singleton in *.
      repeat match goal with H : _ ∨ _ |- _ => destruct H | H : negb _ = true |- _ => apply negb_true_iff in H end;
        bool_hyps; try congruence; lia.
    + exfalso. unfold upserted in *. congruence.
  - db_steps; bool_hyps; try (by apply HX). exfalso.
    fold (upserted s nowMS (db w)) in *. rewrite <-not_true_iff_false in Hst. apply Hst.
    rewrite !andb_true_iff, !bool_decide_eq_true. split; [|done].
    repeat split; try done; try lia.
    rewrite elem_of_cons, list_elem_of_singleton.
    match goal with H : _ && _ = false |- _ => apply andb_false_iff in H as [?|?] end; bool_hyps;
      [left|right]; by apply dec_stable.
Qed.

(** One projected event: the row of its Session is replaced, nothing else
    changes, and a failure changes nothing. *)
Lemma project_spec sid seq ev nowMS Q X (w : World) :
  (∀ created s, current_summary (new_summary sid 0) sid (db w) = inr (created, s) →
     let s' := fold_projection created s seq nowMS (sqliteAttentionEventProjection ev) in
     sm_SessionID s' = sid → summary_storable s' nowMS (db w) = true →
     Q (terminal (sqliteAttentionEventProjection ev))
       (set_db (upd_attention (<[sid := upserted s' nowMS (db w)]>)) w)) →
  (∀ e, is_no_rows e = false → X e w) →
  wp (projectSQLiteAttentionEvent sid seq ev nowMS) Q X w.
Proof.
  intros HQ HX. unfold projectSQLiteAttentionEvent.
  rewrite wp_bind, wp_try, wp_load. unfold current_summary in HQ.
  destruct (attention (db w) !! sid) as [r|] eqn:Hr.
  - destruct (querySQLiteAttentionSummary sid r) as [e|s] eqn:Hs.
    + rewrite wp_bind, (query_summary_err _ _ _ Hs). rewrite wp_throw. apply HX. simpl.
      by eapply query_summary_err.
    + rewrite wp_bind, wp_ret, wp_bind. cbv beta zeta.
      pose proof (query_summary_sid _ _ _ Hs) as Hsid.
      apply wp_upsert; [|by auto]. intros Hok. rewrite wp_ret. simpl sm_SessionID. rewrite Hsid.
      by apply (HQ false s).
  - rewrite wp_bind. simpl is_no_rows. cbv iota. rewrite wp_ret, wp_bind. cbv beta zeta.
    apply wp_upsert; [|by auto]. intros Hok. rewrite wp_ret. by apply (HQ true (new_summary sid 0)).
Qed.

End Attention.
