(* ===== verification/EventLog.v ===== *)
(** * The event log of [store/sqlite/store.go]

    [Append] numbers a batch of events, inserts them, projects each of them
    into the attention summary and fences the Adapter connection of a Session
    that ended, all in one transaction; [Replay], [LatestSeq] and [History]
    read the log.  The log of a Session is dense: its rows are numbered 1, 2,
    ... in insertion order, whatever is appended, fails or wraps around
    ([log_ok]).  On that the Store is an [EventStore], and paging backwards
    through [History] returns exactly the log. *)

From S2P Require Import Prelude StoreApi Json Sqlite Attention.
From stdpp Require Import base gmap strings list sorting.
#[local] Open Scope Z_scope.

Module EventLog.
Import Attention.

(** ** Operations *)

(** [UPDATE session_adapter_connections SET revoked_at_ms = ?, terminal_at_ms = ?,
    updated_at_ms = ? WHERE session_id = ? AND terminal_at_ms IS NULL], with the
    two CHECKs it can violate. *)
Definition terminate_row (nowMS : Z) (c : connection_row) : connection_row :=
  mkConnectionRow (cr_connection_epoch c) (cr_accepted_fence c) (cr_active_credential_generation c)
    (cr_credential_generation_high_watermark c) (cr_active_credential_expires_at_ms c)
    (cr_pending_credential_generation c) (cr_pending_credential_expires_at_ms c)
    (cr_prior_recovery_credential_generation c) (cr_rotation_id c)
    (Some nowMS) (Some nowMS) (cr_created_at_ms c) nowMS.

Definition fence_terminal (sessionID : string) (nowMS : Z) : M unit :=
  row ← query (λ d, connections d !! sessionID);
  match row with
  | Some c =>
      if bool_decide (cr_terminal_at_ms c = None) then
        check "session_adapter_connections" (bool_decide (cr_created_at_ms c ≤ nowMS)) ≫= λ _,
        exec (upd_connections (<[sessionID := terminate_row nowMS c]>))
      else mret tt
  | None => mret tt
  end.

(** One round of the loop in [Append]. *)
Definition append_event (sessionID : string) (firstSeq createdAt : Z) (iev : nat * PendingEvent) : M unit :=
  let '(i, ev) := iev in
  let seq := i64 (firstSeq + Z.of_nat i) in
  on_error (Wrap "append event")
    (insert_event (mkEventRow sessionID seq (pe_Type ev) (pe_Payload ev) (UnixMilli (pe_Time ev)) createdAt))
    ≫= λ _,
  nowMS ← nowMillis;
  terminal ← on_error (Wrap "project attention event")
    (projectSQLiteAttentionEvent sessionID seq ev nowMS);
  if terminal : bool
  then on_error (Wrap "fence terminal attention event") (fence_terminal sessionID nowMS)
  else mret tt.

Definition Append (sessionID : string) (evs : list PendingEvent) : M Z :=
  if bool_decide (evs = []) then mret 0
  else with_tx (
    latest ← query (latest_seq sessionID);
    let firstSeq := i64 (latest + 1) in
    createdAt ← nowMillis;
    for_each (imap pair evs) (append_event sessionID firstSeq createdAt) ≫= λ _,
    mret firstSeq).

(** Rows as the Store scans them. *)
Definition scan_event (r : event_row) : Event :=
  mkEvent (er_session_id r) (er_seq r) (er_type r) (of_UnixMilli (er_event_time_ms r)) (er_payload r).

Definition by_seq (r1 r2 : event_row) : Prop := er_seq r1 ≤ er_seq r2.
#[global] Instance by_seq_dec r1 r2 : Decision (by_seq r1 r2).
Proof. unfold by_seq. apply _. Defined.

(** [ORDER BY seq ASC] *)
Definition order_by_seq : list event_row → list event_row := merge_sort by_seq.

(** [Replay] hands the events after [afterSeq] to [fn], which acts on its own
    state and may stop the replay. *)
Definition Replay {S} (d : DB) (sessionID : string) (afterSeq : Z)
    (fn : option (Event → SE S error unit)) : SE S error unit :=
  match fn with
  | None => throw (Err "replay callback is nil")
  | Some fn =>
      for_each (order_by_seq (filter (λ r, afterSeq < er_seq r) (session_rows sessionID d)))
        (λ r, on_error (Wrap "replay event") (fn (scan_event r)))
  end.

Definition LatestSeq (sessionID : string) : M Z := query (latest_seq sessionID).

Record HistoryPage := mkHistoryPage {
  Events : list Event;
  NextBeforeSeq : option Z;
  hp_LatestSeq : Z;
  RetentionState : string;
}.

Definition maxHistoryPageSize : Z := 100.
Definition RetentionComplete : string := "complete".
Definition RetentionGap : string := "retention_gap".

(** [COALESCE(MIN(seq), 0)] *)
Definition min_seq (l : list event_row) : Z :=
  match er_seq <$> l with
  | [] => 0
  | x :: xs => foldr Z.min x xs
  end.

Definition History (d : DB) (sessionID : string) (beforeSeq : option Z) (limit : Z) : error + HistoryPage :=
  if bool_decide (limit < 1) || bool_decide (maxHistoryPageSize < limit)
  then inl (Err "history limit must be between 1 and 100")
  else
    let all := session_rows sessionID d in
    let latestSeq := max_seq all in
    let earliestSeq := min_seq all in
    let eventCount := Z.of_nat (length all) in
    let selected :=
      match beforeSeq with
      | None => all
      | Some before => filter (λ r, er_seq r < before) all
      end in
    (* ORDER BY seq DESC LIMIT limit+1 *)
    let events := scan_event <$> take (Z.to_nat (limit + 1)) (reverse (order_by_seq selected)) in
    let retention :=
      if bool_decide (0 < eventCount)
         && (bool_decide (1 < earliestSeq) || bool_decide (eventCount ≠ i64 (latestSeq - earliestSeq + 1)))
      then RetentionGap else RetentionComplete in
    if bool_decide (limit < Z.of_nat (length events)) then
      inr (mkHistoryPage (reverse (take (Z.to_nat limit) events))
             (Seq <$> events !! Z.to_nat (limit - 1)) latestSeq retention)
    else inr (mkHistoryPage (reverse events) None latestSeq retention).

(** ** What an append does *)

Definition event_row_of (sid : string) (seq createdAt : Z) (ev : PendingEvent) : event_row :=
  mkEventRow sid seq (pe_Type ev) (pe_Payload ev) (UnixMilli (pe_Time ev)) createdAt.

(** the connections after a terminal event *)
Definition terminated (sid : string) (nowMS : Z) (conns : gmap string connection_row)
    : gmap string connection_row :=
  match conns !! sid with
  | Some c => if bool_decide (cr_terminal_at_ms c = None) then <[sid := terminate_row nowMS c]> conns
              else conns
  | None => conns
  end.

(** One event durably inserted under the next number and projected into the
    summary.  [pev] is what the projection reads of [ev]. *)
Record projected (sid : string) (createdAt nowMS : Z) (ev pev : PendingEvent) (d d' : DB) : Prop := {
  pr_seq : latest_seq sid d + 1 ≤ max_int64;
  pr_log : log_ok d';
  pr_row : ∃ created s,
    current_summary (new_summary sid 0) sid d = inr (created, s) ∧
    let seq := latest_seq sid d + 1 in
    let s' := fold_projection created s seq nowMS (sqliteAttentionEventProjection pev) in
    sm_SessionID s' = sid ∧ summary_storable s' nowMS d = true ∧
    d' = upd_attention (<[sid := upserted s' nowMS d]>)
           (upd_events (λ l, l ++ [event_row_of sid seq createdAt ev]) d)
}.

(** the CHECKs of the update that fences a connection *)
Definition terminable (sid : string) (nowMS : Z) (conns : gmap string connection_row) : Prop :=
  ∀ c, conns !! sid = Some c → cr_terminal_at_ms c = None → cr_created_at_ms c ≤ nowMS.

(** One event appended: projected, and the connection fenced when it ends the
    Session. *)
Record event_appended (sid : string) (createdAt : Z) (ev : PendingEvent) (w w' : World) : Prop := {
  ea_project : ∃ d', projected sid createdAt (clock w (tick w)) ev ev (db w) d' ∧
    w' = mkWorld
           (upd_connections
              (λ conns, if terminal (sqliteAttentionEventProjection ev)
                        then terminated sid (clock w (tick w)) conns else conns) d')
           (side_fence w) (clock w) (S (tick w)) ∧
    (terminal (sqliteAttentionEventProjection ev) = true →
     terminable sid (clock w (tick w)) (connections (db w)))
}.

(** Inserting the next event and then projecting it. *)
Lemma project_inserted sid createdAt nowMS ev pev seq Q X w w' :
  log_ok (db w) → seq = latest_seq sid (db w) + 1 → seq ≤ max_int64 →
  db w' = upd_events (λ l, l ++ [event_row_of sid seq createdAt ev]) (db w) →
  (∀ d', projected sid createdAt nowMS ev pev (db w) d' →
     Q (terminal (sqliteAttentionEventProjection pev)) (set_db (λ _, d') w')) →
  (∀ e, is_no_rows e = false → X e w') →
  wp (projectSQLiteAttentionEvent sid seq pev nowMS) Q X w'.
Proof.
  intros Hlog -> Hmax Hdb HQ HX. apply project_spec; [|done].
  assert (∀ f, current_summary f sid (db w') = current_summary f sid (db w)) as Hcur by by rewrite Hdb.
  assert (log_ok (db w')) as Hlog'. { rewrite Hdb. by apply log_ok_snoc. }
  intros created s Hs s' Hsid Hst. rewrite Hcur in Hs.
  replace (set_db (upd_attention (<[sid:=upserted s' nowMS (db w')]>)) w') with
    (set_db (λ _, upd_attention (<[sid:=upserted s' nowMS (db w)]>)
       (upd_events (λ l, l ++ [event_row_of sid (latest_seq sid (db w) + 1) createdAt ev]) (db w))) w');
    [|unfold set_db; by rewrite Hdb].
  apply HQ. split; [done|by rewrite Hdb in Hlog'|].
  exists created, s. split; [done|]. split; [done|]. split; [by rewrite Hdb in Hst|done].
Qed.

Lemma wp_fence_terminal sid nowMS Q X (w : World) :
  (terminable sid nowMS (connections (db w)) → Q tt (set_db (upd_connections (terminated sid nowMS)) w)) →
  (∀ e, is_no_rows e = false → X e w) →
  wp (fence_terminal sid nowMS) Q X w.
Proof.
  intros HQ HX. unfold fence_terminal, terminable, set_db, upd_connections, terminated in *.
  db_steps; bool_hyps; try (by apply HX).
  all: destruct w as [[] ? ? ?]; simpl in *; rewrite ?E in HQ; rewrite ?E0 in HQ;
    repeat case_bool_decide; try done; apply HQ; naive_solver.
Qed.

Lemma append_event_spec sid first createdAt i ev Q X (w : World) :
  log_ok (db w) → i64 (first + Z.of_nat i) = i64 (latest_seq sid (db w) + 1) →
  (∀ w', event_appended sid createdAt ev w w' → Q tt w') →
  (∀ e w', side_fence w' = side_fence w → clock w' = clock w → (tick w ≤ tick w')%nat →
     is_no_rows e = false → X e w') →
  wp (append_event sid first createdAt (i, ev)) Q X w.
Proof.
  intros Hok Hseq HQ HX. unfold append_event. rewrite Hseq. db_step. db_step.
  apply insert_event_next; [done|done| |]; simpl er_seq; simpl er_session_id; cycle 1.
  { intros _ e He. apply HX; simpl; auto. }
  intros Hseq' Hmax Hlog. db_step. db_step. db_step. db_step. rewrite Hseq'.
  eapply (project_inserted _ createdAt _ ev); [done|done|by rewrite <-Hseq'| |..]; simpl.
  { done. }
  2: { intros. apply HX; simpl; auto. }
  intros d' Hd'. destruct (terminal (sqliteAttentionEventProjection ev)) eqn:Ht.
  - db_step. apply wp_fence_terminal; [|intros; apply HX; simpl; auto]. intros Hterm. apply HQ. split. exists d'.
    rewrite Ht. split; [done|]. split; [done|]. intros _ c Hc. apply Hterm.
    by destruct Hd' as [_ _ (created & s & _ & _ & _ & ->)].
  - rewrite wp_ret. apply HQ. split. exists d'. rewrite Ht. by destruct d'.
Qed.

Fixpoint events_appended (sid : string) (createdAt : Z) (evs : list PendingEvent) (w w' : World) : Prop :=
  match evs with
  | [] => w' = w
  | ev :: evs => ∃ w1, event_appended sid createdAt ev w w1 ∧ events_appended sid createdAt evs w1 w'
  end.

Lemma projected_rows sid createdAt now ev pev d d' :
  projected sid createdAt now ev pev d d' →
  session_events d' = session_events d ++ [event_row_of sid (latest_seq sid d + 1) createdAt ev].
Proof. by intros [_ _ (created & s & _ & _ & _ & ->)]. Qed.

Lemma event_appended_rows sid createdAt ev w w' :
  event_appended sid createdAt ev w w' →
  session_events (db w')
    = session_events (db w) ++ [event_row_of sid (latest_seq sid (db w) + 1) createdAt ev].
Proof. intros [(d' & Hd' & -> & _)]. by apply projected_rows in Hd'. Qed.

Lemma event_appended_log sid createdAt ev w w' : event_appended sid createdAt ev w w' → log_ok (db w').
Proof. intros [(d' & Hd' & -> & _)]. by apply pr_log in Hd'. Qed.

Lemma event_appended_seq sid createdAt ev w w' :
  event_appended sid createdAt ev w w' → latest_seq sid (db w) + 1 ≤ max_int64.
Proof. intros [(d' & Hd' & -> & _)]. by apply pr_seq in Hd'. Qed.

Lemma event_appended_latest sid createdAt ev w w' :
  log_ok (db w) → event_appended sid createdAt ev w w' →
  latest_seq sid (db w') = latest_seq sid (db w) + 1.
Proof.
  intros Hok Ha. pose proof (event_appended_log _ _ _ _ _ Ha) as Hok'. apply event_appended_rows in Ha.
  rewrite !latest_seq_dense by done. unfold session_rows in *. rewrite Ha, filter_app, length_app.
  rewrite filter_cons_True by done. simpl. lia.
Qed.

Lemma append_loop sid first createdAt (f : nat → PendingEvent → nat * PendingEvent) k evs Q X (w : World) :
  (∀ i ev, f i ev = ((k + i)%nat, ev)) →
  log_ok (db w) → i64 (first + Z.of_nat k) = i64 (latest_seq sid (db w) + 1) →
  (∀ w', events_appended sid createdAt evs w w' → Q tt w') →
  (∀ e w', side_fence w' = side_fence w → clock w' = clock w → (tick w ≤ tick w')%nat →
     is_no_rows e = false → X e w') →
  wp (for_each (imap f evs) (append_event sid first createdAt)) Q X w.
Proof.
  revert f k w. induction evs as [|ev evs IH]; intros f k w Hf Hok Hseq HQ HX.
  - simpl. rewrite wp_ret. by apply HQ.
  - rewrite imap_cons, Hf, Nat.add_0_r. simpl for_each. rewrite wp_bind.
    apply append_event_spec; [done|done| |done]. intros w1 Hw1.
    assert (side_fence w1 = side_fence w ∧ clock w1 = clock w ∧ tick w1 = S (tick w)) as (Hs & Hc & Ht).
    { by destruct Hw1 as [(d' & _ & -> & _)]. }
    apply (IH _ (k + 1)%nat).
    + intros i ev'. simpl. rewrite Hf. f_equal. lia.
    + by eapply event_appended_log.
    + rewrite (event_appended_latest _ _ _ _ _ Hok Hw1).
      rewrite <-(i64_add (latest_seq sid (db w) + 1)), <-Hseq, i64_add. f_equal. lia.
    + intros w' Hw'. apply HQ. by exists w1.
    + intros e w' ??? He. apply HX; [congruence|congruence|lia|done].
Qed.

Lemma events_appended_log_ok sid createdAt evs w w' :
  log_ok (db w) → events_appended sid createdAt evs w w' → log_ok (db w').
Proof.
  revert w. induction evs as [|ev evs IH]; intros w Hok Ha; [by simplify_eq/=|].
  destruct Ha as (w1 & Hw1 & Ha). eapply IH; [|done]. by eapply event_appended_log.
Qed.

(** [Append] either leaves the database as it was or appends every event. *)
Lemma Append_spec sid evs Q X (w : World) :
  log_ok (db w) → evs ≠ [] →
  (∀ w', events_appended sid (clock w (tick w)) evs
           (mkWorld (db w) (side_fence w) (clock w) (S (tick w))) w' →
         Q (latest_seq sid (db w) + 1) w') →
  (∀ e w', db w' = db w → side_fence w' = side_fence w → clock w' = clock w →
           (tick w ≤ tick w')%nat → is_no_rows e = false → X e w') →
  wp (Append sid evs) Q X w.
Proof.
  intros Hok Hne HQ HX. unfold Append. rewrite bool_decide_eq_false_2 by done.
  do 6 db_step. apply (append_loop _ _ _ _ 0%nat); simpl; auto.
  - by rewrite i64_add, Z.add_0_r.
  - intros w' Hw'. rewrite wp_ret.
    destruct evs as [|ev evs]; [done|]. destruct Hw' as (w1 & Hw1 & Hw').
    pose proof (event_appended_seq _ _ _ _ _ Hw1) as Hmax. simpl in Hmax.
    rewrite i64_small; [|rewrite latest_seq_dense in * by done; unfold two63 in *; lia].
    apply HQ. by exists w1.
  - intros e w' ????. apply HX; simpl; auto with lia.
Qed.

Lemma Append_log_ok sid evs w : log_ok (db w) → log_ok (db (Append sid evs w).1).
Proof.
  intros Hok. destruct (decide (evs = [])) as [->|Hne]; [done|].
  destruct (Append sid evs w) as [w' r] eqn:Hrun.
  assert (wp (Append sid evs) (λ _ w', log_ok (db w')) (λ _ w', log_ok (db w')) w) as Hwp.
  { apply Append_spec; [done|done| |].
    - intros w2 Ha. refine (events_appended_log_ok _ _ _ _ _ _ Ha). exact Hok.
    - intros e w2 -> _ _ _ _. done. }
  by destruct r; apply (wp_elim _ _ _ _ _ _ Hwp Hrun).
Qed.

(** ** Reading a dense log *)

Definition dense_from (k : Z) (l : list event_row) : Prop :=
  ∀ (i : nat) r, l !! i = Some r → er_seq r = k + Z.of_nat i + 1.

Lemma dense_cons k r l : dense_from k (r :: l) → er_seq r = k + 1 ∧ dense_from (k + 1) l.
Proof.
  intros H. split; [rewrite (H 0%nat r eq_refl); lia|].
  intros i r' Hi. rewrite (H (S i) r' Hi). lia.
Qed.

Lemma dense_session d sid : log_ok d → dense_from 0 (session_rows sid d).
Proof. intros Hok i r Hi. destruct (Hok sid) as [H _]. rewrite (H i r Hi). lia. Qed.

Lemma dense_ge k l r : dense_from k l → r ∈ l → k < er_seq r.
Proof. intros H [i Hi]%list_elem_of_lookup. rewrite (H i r Hi). lia. Qed.

Lemma dense_filter_after k l a :
  dense_from k l → filter (λ r, a < er_seq r) l = drop (Z.to_nat (a - k)) l.
Proof.
  revert k. induction l as [|r l IH]; intros k Hd; [by rewrite drop_nil|].
  destruct (dense_cons _ _ _ Hd) as [Hr Hl].
  destruct (decide (a < er_seq r)).
  - rewrite filter_cons_True by done. replace (Z.to_nat (a - k)) with 0%nat by lia. simpl. f_equal.
    rewrite (IH (k + 1)) by done. by replace (Z.to_nat (a - (k + 1))) with 0%nat by lia.
  - rewrite filter_cons_False by done. replace (Z.to_nat (a - k)) with (S (Z.to_nat (a - (k + 1)))) by lia.
    simpl. by apply IH.
Qed.

Lemma dense_filter_before k l b :
  dense_from k l → filter (λ r, er_seq r < b) l = take (Z.to_nat (b - 1 - k)) l.
Proof.
  revert k. induction l as [|r l IH]; intros k Hd; [by rewrite take_nil|].
  destruct (dense_cons _ _ _ Hd) as [Hr Hl].
  destruct (decide (er_seq r < b)).
  - rewrite filter_cons_True by done. replace (Z.to_nat (b - 1 - k)) with (S (Z.to_nat (b - 1 - (k + 1)))) by lia.
    simpl. f_equal. by apply IH.
  - rewrite filter_cons_False by done. replace (Z.to_nat (b - 1 - k)) with 0%nat by lia. simpl.
    rewrite (IH (k + 1)) by done. by replace (Z.to_nat (b - 1 - (k + 1))) with 0%nat by lia.
Qed.

Lemma dense_drop k n l : dense_from k l → dense_from (k + Z.of_nat n) (drop n l).
Proof. intros H i r Hi. rewrite lookup_drop in Hi. rewrite (H _ _ Hi). lia. Qed.

Lemma dense_take k n l : dense_from k l → dense_from k (take n l).
Proof. intros H i r Hi. apply lookup_take_Some in Hi as [Hi _]. by apply H. Qed.

Lemma dense_sorted k l : dense_from k l → StronglySorted by_seq l.
Proof.
  revert k. induction l as [|r l IH]; intros k Hd; [constructor|].
  destruct (dense_cons _ _ _ Hd) as [Hr Hl]. constructor; [by eapply IH|].
  apply Forall_forall. intros r' Hr'. apply (dense_ge _ _ _ Hl) in Hr'. unfold by_seq. lia.
Qed.

Lemma dense_seq_inj k l r1 r2 : dense_from k l → r1 ∈ l → r2 ∈ l → er_seq r1 = er_seq r2 → r1 = r2.
Proof.
  intros H [i Hi]%list_elem_of_lookup [j Hj]%list_elem_of_lookup Heq.
  pose proof (H i r1 Hi). pose proof (H j r2 Hj). assert (i = j) as -> by lia. congruence.
Qed.

Lemma by_seq_trans : Transitive by_seq.
Proof. unfold by_seq. intros ???. lia. Qed.
Lemma by_seq_total : Total by_seq.
Proof. unfold by_seq. intros ??. lia. Qed.

(** [ORDER BY seq] leaves a dense list as it is. *)
Lemma order_by_dense k l : dense_from k l → order_by_seq l = l.
Proof.
  intros Hd. pose proof by_seq_trans. pose proof by_seq_total. unfold order_by_seq.
  apply (StronglySorted_unique_strong by_seq).
  - intros x1 x2 H1 H2 H12 H21. unfold by_seq in *.
    rewrite (merge_sort_Permutation by_seq l) in H1. eapply dense_seq_inj; [done..|lia].
  - by apply StronglySorted_merge_sort.
  - by eapply dense_sorted.
  - apply merge_sort_Permutation.
Qed.

(** A callback that collects what it is given. *)
Definition collect : Event → SE (list Event) error unit := λ ev, modify (λ l, l ++ [ev]).

Definition replayed (d : DB) (sid : string) (afterSeq : Z) : list Event :=
  (Replay d sid afterSeq (Some collect) []).1.

Lemma for_each_collect l acc :
  for_each l (λ r, on_error (Wrap "replay event") (collect (scan_event r))) acc
    = (acc ++ (scan_event <$> l), inr tt).
Proof.
  revert acc. induction l as [|r l IH]; intros acc; simpl; [by rewrite app_nil_r|].
  unfold mbind, SE_bind, on_error, collect, modify. simpl.
  unfold mbind, SE_bind, on_error, collect, modify in IH. rewrite IH. by rewrite <-(assoc_L (++)).
Qed.

Lemma replayed_dense d sid a :
  log_ok d → replayed d sid a = scan_event <$> drop (Z.to_nat a) (session_rows sid d).
Proof.
  intros Hok. unfold replayed, Replay. rewrite for_each_collect. simpl.
  pose proof (dense_session d sid Hok) as Hd.
  rewrite (dense_filter_after _ _ a Hd). rewrite Z.sub_0_r.
  erewrite order_by_dense; [done|]. by apply dense_drop.
Qed.

Lemma events_appended_rows sid createdAt evs w w' :
  log_ok (db w) → events_appended sid createdAt evs w w' →
  session_rows sid (db w') = session_rows sid (db w)
    ++ imap (λ i ev, event_row_of sid (latest_seq sid (db w) + 1 + Z.of_nat i) createdAt ev) evs ∧
  ∀ sid', sid' ≠ sid → session_rows sid' (db w') = session_rows sid' (db w).
Proof.
  revert w. induction evs as [|ev evs IH]; intros w Hok Ha.
  - simplify_eq/=. by rewrite app_nil_r.
  - destruct Ha as (w1 & Hw1 & Ha). pose proof (event_appended_log _ _ _ _ _ Hw1) as Hok1.
    pose proof (event_appended_latest _ _ _ _ _ Hok Hw1) as Hl1.
    pose proof (event_appended_rows _ _ _ _ _ Hw1) as Hr1.
    destruct (IH w1 Hok1 Ha) as [-> Hother]. rewrite imap_cons, Hl1. split.
    + unfold session_rows at 1. rewrite Hr1, filter_app, filter_cons_True, filter_nil by done.
      rewrite <-(assoc_L (++)). simpl. fold (session_rows sid (db w)). rewrite Z.add_0_r.
      do 2 f_equal. apply imap_ext. intros i ev' _. simpl. f_equal. lia.
    + intros sid' Hne. rewrite Hother by done. unfold session_rows at 1.
      rewrite Hr1, filter_app, filter_cons_False, filter_nil, app_nil_r by done. done.
Qed.

Lemma scan_numbered sid first createdAt evs :
  scan_event <$> imap (λ i ev, event_row_of sid (first + Z.of_nat i) createdAt ev) evs = numbered sid first evs.
Proof.
  revert first. induction evs as [|ev evs IH]; intros first; [done|].
  rewrite imap_cons. simpl. rewrite <-IH, Z.add_0_r. f_equal. f_equal. apply imap_ext.
  intros i ev' _. simpl. f_equal. lia.
Qed.

(** ** The Store as an [EventStore] *)

#[global] Instance sqlite_store : EventStore World := {
  es_append w sid evs := Append sid evs w;
  es_log w sid := replayed (db w) sid 0;
  es_latest w sid := latest_seq sid (db w);
}.

Lemma sqlite_log w sid : log_ok (db w) → es_log w sid = scan_event <$> session_rows sid (db w).
Proof. intros Hok. simpl. by rewrite replayed_dense. Qed.

Lemma session_rows_sid sid d r : r ∈ session_rows sid d → er_session_id r = sid.
Proof. by intros [? _]%list_elem_of_filter. Qed.

Lemma events_appended_max sid createdAt evs w w' :
  log_ok (db w) → events_appended sid createdAt evs w w' →
  latest_seq sid (db w) + Z.of_nat (length evs) ≤ max_int64.
Proof.
  intros Hok Ha. destruct (events_appended_rows _ _ _ _ _ Hok Ha) as [Hr _].
  pose proof (events_appended_log_ok _ _ _ _ _ Hok Ha sid) as [_ Hlen].
  rewrite Hr, length_app, length_imap in Hlen. rewrite latest_seq_dense by done. lia.
Qed.

#[global] Instance sqlite_store_laws : EventStoreLaws World (λ w, log_ok (db w)).
Proof.
  split.
  - intros w sid Hok. rewrite sqlite_log by done. rewrite length_fmap. by apply latest_seq_dense.
  - intros w sid i ev Hok. rewrite sqlite_log by done. rewrite list_lookup_fmap_Some.
    intros (r & -> & Hi). simpl. split; [by apply (Hok sid)|].
    apply session_rows_sid with (d := db w). by eapply list_elem_of_lookup_2.
  - intros w w' sid evs first Hok Hne Hrun.
    refine (wp_elim _ (λ f w', f = first → w' = w' → _) (λ _ _, True) w w' _ _ Hrun eq_refl eq_refl).
    apply Append_spec; [done|done| |done]. intros w2 Ha <- _. simpl in Ha.
    assert (log_ok (db (mkWorld (db w) (side_fence w) (clock w) (S (tick w))))) as Hok2 by done.
    pose proof (events_appended_log_ok _ _ _ _ _ Hok2 Ha) as Hok'.
    destruct (events_appended_rows _ _ _ _ _ Hok2 Ha) as [Hr Hother].
    pose proof (events_appended_max _ _ _ _ _ Hok2 Ha) as Hmax. simpl in *.
    split; [done|]. split; [done|]. split; [lia|]. split.
    + rewrite !replayed_dense by done. simpl. rewrite !drop_0, Hr, fmap_app. f_equal. apply scan_numbered.
    + intros sid' Hne'. rewrite !replayed_dense by done. simpl. by rewrite !drop_0, Hother.
  - intros w w' sid evs err Hok Hrun. destruct (decide (evs = [])) as [->|Hne]; [done|].
    assert (wp (Append sid evs) (λ _ _, True) (λ _ w', db w' = db w) w) as Hwp.
    { by apply Append_spec. }
    pose proof (wp_elim _ _ _ _ _ _ Hwp Hrun) as Hdb. simpl in *. by rewrite Hdb.
Qed.

(** C4: What [Append] stores, [Replay] returns.  After a successful append,
    replaying from the sequence number before the returned one hands the
    callback exactly the appended events, numbered consecutively from it, and
    [LatestSeq] is the number of the last; every other Session replays as
    before. *)
Theorem append_replay_roundtrip w w' sid evs first :
  log_ok (db w) → evs ≠ [] → Append sid evs w = (w', inr first) →
  first = latest_seq sid (db w) + 1 ∧
  Replay (db w') sid (first - 1) (Some collect) [] = (numbered sid first evs, inr tt) ∧
  (LatestSeq sid w').2 = inr (first + Z.of_nat (length evs) - 1) ∧
  ∀ sid' a, sid' ≠ sid → replayed (db w') sid' a = replayed (db w) sid' a.
Proof.
  intros Hok Hne Hrun.
  assert (wp (Append sid evs) (λ f w', f = latest_seq sid (db w) + 1 ∧ log_ok (db w') ∧
    session_rows sid (db w') = session_rows sid (db w) ++ imap (λ i ev,
       event_row_of sid (latest_seq sid (db w) + 1 + Z.of_nat i) (clock w (tick w)) ev) evs ∧
    ∀ sid', sid' ≠ sid → session_rows sid' (db w') = session_rows sid' (db w)) (λ _ _, True) w) as Hwp.
  { apply Append_spec; [done|done| |done]. intros w2 Ha.
    split; [done|]. split; [refine (events_appended_log_ok _ _ _ _ _ _ Ha); exact Hok|].
    by apply events_appended_rows in Ha. }
  destruct (wp_elim _ _ _ _ _ _ Hwp Hrun) as (-> & Hok' & Hr & Hother).
  set (latest := latest_seq sid (db w)) in *.
  assert (latest = Z.of_nat (length (session_rows sid (db w)))) as Hlat by by apply latest_seq_dense.
  split; [done|]. split; [|split].
  - assert (replayed (db w') sid (latest + 1 - 1) = numbered sid (latest + 1) evs) as <-.
    { rewrite replayed_dense by done. rewrite Hr, drop_app_length' by lia. apply scan_numbered. }
    unfold replayed, Replay. rewrite for_each_collect. done.
  - simpl. rewrite latest_seq_dense by done. rewrite Hr, length_app, length_imap. f_equal. lia.
  - intros sid' a Hne'. rewrite !replayed_dense by done. by rewrite Hother.
Qed.

(** ** Paging through [History] *)

Lemma min_seq_dense l : dense_from 0 l → l ≠ [] → min_seq l = 1.
Proof.
  intros Hd Hne. unfold min_seq. destruct l as [|r l]; [done|]. simpl.
  destruct (dense_cons _ _ _ Hd) as [-> Hl]. simpl.
  assert (∀ k, 1 ≤ k → dense_from k l → foldr Z.min 1 (er_seq <$> l) = 1) as H; [|by eapply (H 1)].
  clear. induction l as [|r l IH]; intros k Hk Hd; [done|].
  rewrite fmap_cons. cbn [foldr].
  destruct (dense_cons _ _ _ Hd) as [-> Hl]. rewrite (IH (k + 1)) by (done || lia). lia.
Qed.

(** The events a page with [beforeSeq] may draw from. *)
Definition before_rows (rows : list event_row) (beforeSeq : option Z) : list event_row :=
  match beforeSeq with
  | None => rows
  | Some b => take (Z.to_nat (b - 1)) rows
  end.

(** [History] in closed form on a dense log: the last [limit] of the events
    before [beforeSeq], with the number to continue at when older ones remain. *)
Lemma History_dense d sid before limit :
  log_ok d → 1 ≤ limit ≤ 100 →
  let rows := before_rows (session_rows sid d) before in
  let n := Z.of_nat (length rows) in
  History d sid before limit =
    inr (mkHistoryPage (scan_event <$> drop (Z.to_nat (n - limit)) rows)
          (if decide (limit < n) then Some (n - limit + 1) else None)
          (latest_seq sid d) RetentionComplete).
Proof.
  intros Hok Hlim rows n. pose proof (dense_session d sid Hok) as Hd. unfold History, maxHistoryPageSize.
  rewrite !bool_decide_eq_false_2 by lia. cbv zeta. simpl orb.
  assert (match before with None => session_rows sid d
          | Some b => filter (λ r, er_seq r < b) (session_rows sid d) end = rows) as ->.
  { unfold rows. destruct before as [b|]; [|done]. simpl.
    rewrite (dense_filter_before _ _ _ Hd). by rewrite Z.sub_0_r. }
  assert (dense_from 0 rows) as Hrows.
  { unfold rows. destruct before; [by apply dense_take|done]. }
  rewrite (order_by_dense _ _ Hrows).
  assert (∀ b : bool, b = false → (if b then RetentionGap else RetentionComplete) = RetentionComplete)
    as Hret by by intros [].
  rewrite Hret; cycle 1.
  { destruct (decide (session_rows sid d = [])) as [->|Hne]; [done|].
    rewrite (min_seq_dense _ Hd Hne). fold (latest_seq sid d). rewrite latest_seq_dense by done.
    rewrite i64_small; [|destruct (Hok sid); unfold two63; lia].
    rewrite (bool_decide_eq_false_2 (_ ≠ _)); [by rewrite andb_false_r|]. intros []. lia. }
  fold (latest_seq sid d). rewrite length_fmap, length_take, length_reverse.
  destruct (decide (limit < n)) as [Hlt|Hge].
  - rewrite bool_decide_eq_true_2 by (unfold n in *; lia). f_equal. f_equal.
    + rewrite <-fmap_take, take_take, Nat.min_l, <-fmap_reverse, reverse_take, reverse_involutive by lia.
      rewrite length_reverse. do 2 f_equal. unfold n. lia.
    + rewrite list_lookup_fmap, lookup_take_lt, reverse_lookup by (unfold n in *; lia).
      destruct (lookup_lt_is_Some_2 rows (length rows - S (Z.to_nat (limit - 1)))) as [r Hr];
        [unfold n in *; lia|].
      rewrite Hr. simpl. rewrite (Hrows _ _ Hr). f_equal. unfold n. lia.
  - rewrite bool_decide_eq_false_2 by (unfold n in *; lia). f_equal. f_equal.
    rewrite take_ge by (rewrite length_reverse; unfold n in *; lia).
    rewrite <-fmap_reverse, reverse_involutive. by replace (Z.to_nat (n - limit)) with 0%nat by lia.
Qed.

(** A client paging backwards: newest page first, then from the returned
    number on, until there is none. *)
Fixpoint page_back (fuel : nat) (d : DB) (sid : string) (before : option Z) (limit : Z)
    : option (list (list Event)) :=
  match fuel with
  | O => None
  | S fuel =>
      match History d sid before limit with
      | inl _ => None
      | inr page =>
          match NextBeforeSeq page with
          | None => Some [Events page]
          | Some b => (λ older, older ++ [Events page]) <$> page_back fuel d sid (Some b) limit
          end
      end
  end.

Lemma page_back_complete fuel d sid before limit :
  log_ok d → 1 ≤ limit ≤ 100 → (length (before_rows (session_rows sid d) before) < fuel)%nat →
  ∃ pages, page_back fuel d sid before limit = Some pages ∧
    concat pages = scan_event <$> before_rows (session_rows sid d) before ∧
    Forall (λ p, Z.of_nat (length p) ≤ limit) pages.
Proof.
  intros Hok Hlim. revert before. induction fuel as [|fuel IH]; intros before Hf; [lia|].
  simpl. rewrite History_dense by done. cbv zeta. simpl.
  set (rows := before_rows (session_rows sid d) before) in *.
  set (n := Z.of_nat (length rows)) in *.
  destruct (decide (limit < n)) as [Hlt|Hge].
  - assert (before_rows (session_rows sid d) (Some (n - limit + 1)) = take (Z.to_nat (n - limit)) rows) as Hb.
    { simpl. replace (n - limit + 1 - 1) with (n - limit) by lia. unfold rows, before_rows.
      destruct before as [b|]; [|done]. rewrite take_take. f_equal.
      assert (n ≤ Z.of_nat (Z.to_nat (b - 1))); [|lia]. unfold n, rows, before_rows.
      rewrite length_take. lia. }
    destruct (IH (Some (n - limit + 1))) as (pages & Hp & Hc & Hl).
    { rewrite Hb, length_take. unfold n in *. lia. }
    rewrite Hp. eexists. split; [done|]. split.
    + rewrite concat_app, Hc, Hb. simpl. rewrite app_nil_r, <-fmap_app. by rewrite take_drop.
    + apply Forall_app. split; [done|]. constructor; [|done].
      rewrite length_fmap, length_drop. unfold n in *. lia.
  - eexists. split; [done|]. simpl. rewrite app_nil_r.
    replace (Z.to_nat (n - limit)) with 0%nat by lia. split; [done|].
    constructor; [|done]. rewrite length_fmap, length_drop. unfold n in *. lia.
Qed.

(** C10: Paging backwards through [History] terminates and loses or repeats
    nothing: with any legal limit, pages of at most that many events, requested
    from the newest and continued at each returned [NextBeforeSeq] until there
    is none, concatenate to exactly what a replay of the whole Session
    delivers.  An illegal limit is refused. *)
Theorem history_pages_are_the_log d sid limit :
  log_ok d →
  if decide (1 ≤ limit ≤ 100) then
    ∃ pages, page_back (S (Z.to_nat (latest_seq sid d))) d sid None limit = Some pages ∧
      concat pages = replayed d sid 0 ∧ Forall (λ p, Z.of_nat (length p) ≤ limit) pages
  else ∃ e, History d sid None limit = inl e.
Proof.
  intros Hok. destruct (decide _) as [Hlim|Hlim].
  - destruct (page_back_complete (S (Z.to_nat (latest_seq sid d))) d sid None limit) as (pages & H1 & H2 & H3);
      [done|done| |].
    + rewrite latest_seq_dense by done. simpl. lia.
    + exists pages. split; [done|]. split; [|done]. by rewrite H2, replayed_dense.
  - unfold History, maxHistoryPageSize. destruct (decide (limit < 1)) as [?|?].
    + rewrite bool_decide_eq_true_2 by done. simpl. eauto.
    + rewrite (bool_decide_eq_true_2 (100 < limit)) by lia. rewrite orb_true_r. eauto.
Qed.

(** ** Concrete runs *)

Definition demo_world : World := new_world (λ n, 1700000000000 + Z.of_nat n).

Definition state_event (state : string) : PendingEvent :=
  mkPendingEvent "session.state" (of_UnixMilli 1700000000000)
    ("{" +:+ Json.quote "state" +:+ ":" +:+ Json.quote state +:+ "}").

Definition message_event : PendingEvent :=
  mkPendingEvent "message" (of_UnixMilli 1700000000001) "{}".

Definition demo_events : list PendingEvent := [state_event "ready"; message_event; state_event "ended"].

Lemma log_ok_empty : log_ok empty_db.
Proof. intros sid. split; [by intros [|i] r|done]. Qed.

Definition demo_after : World := (Append "s1" demo_events demo_world).1.

Lemma demo_run : Append "s1" demo_events demo_world = (demo_after, inr 1).
Proof.
  unfold demo_after. apply (run_eq (Append "s1" demo_events) demo_world (inr 1)).
  vm_compute. reflexivity.
Qed.

Lemma append_replay_roundtrip_witness :
  Replay (db demo_after) "s1" (1 - 1) (Some collect) [] = (numbered "s1" 1 demo_events, inr tt).
Proof.
  apply (append_replay_roundtrip demo_world demo_after "s1" demo_events 1 log_ok_empty);
    [discriminate|exact demo_run].
Defined.

Lemma history_pages_are_the_log_witness :
  ∃ pages, page_back (S (Z.to_nat (latest_seq "s1" (db demo_after)))) (db demo_after) "s1" None 2 = Some pages ∧
    concat pages = replayed (db demo_after) "s1" 0 ∧ Forall (λ p, Z.of_nat (length p) ≤ 2) pages.
Proof.
  apply (history_pages_are_the_log (db demo_after) "s1" 2).
  exact (Append_log_ok "s1" demo_events demo_world log_ok_empty).
Defined.

End EventLog.
