(* ===== verification/AttentionSpec.v ===== *)
(** * What an attention summary promises

    A client that reads [session_attention_summaries] instead of the log relies
    on [projection_state]: a summary that is ['complete'] and up to date agrees
    with the log it summarises.  [summarises] states that agreement without
    folding: the state is the last state an event of the log shows, the
    terminal outcome is that state when it is terminal, and the pending
    permission is the newest request no later decision answers. *)

From S2P Require Import Prelude StoreApi Json EncryptedPacket Sqlite Attention EventLog.
From stdpp Require Import base gmap strings list.
#[local] Open Scope Z_scope.

Module AttentionSpec.
Import Attention EventLog.

(** What a reader sees of a stored event: its plaintext, or the public part of
    the carrier it is. *)
Definition row_event (r : event_row) : PendingEvent :=
  mkPendingEvent (er_type r) (of_UnixMilli (er_event_time_ms r)) (er_payload r).

Definition reads (r : event_row) (p : sqliteAttentionProjection) : Prop :=
  p = sqliteAttentionEventProjection (row_event r) ∨
  ∃ pev, EncryptedPacket.sqliteProjectionEvent (row_event r) true = inr pev ∧
         p = sqliteAttentionEventProjection pev.

Definition last_state (log : list sqliteAttentionProjection) : option string := last (omap pj_state log).

(** Newest first: the first request met, unless a decision already seen
    answers it. *)
Fixpoint open_request (decided : list string) (newest_first : list sqliteAttentionProjection) : option string :=
  match newest_first with
  | [] => None
  | p :: older =>
      match permissionID p, permissionDecisionID p with
      | Some id, _ => if bool_decide (id ∈ decided) then None else Some id
      | None, Some id => open_request (id :: decided) older
      | None, None => open_request decided older
      end
  end.

Definition pending_permission (log : list sqliteAttentionProjection) : option string :=
  open_request [] (reverse log).

Record summarises (r : attention_row) (log : list sqliteAttentionProjection) : Prop := {
  sum_state : Some (ar_state r) = last_state log;
  sum_outcome : ar_terminal_outcome r
    = if bool_decide (ar_state r ∈ ["ended"; "error"]) then Some (ar_state r) else None;
  sum_permission : ar_permission_id r = pending_permission log;
  sum_readable : Forall (λ p, projectionIncomplete p = false) log;
}.

(** The invariant: a summary never runs ahead of the log, and one that claims
    to be complete and current is right. *)
Record summary_ok (r : attention_row) (log : list event_row) (latest : Z) : Prop := {
  so_latest : 0 ≤ ar_latest_seq r ≤ latest;
  so_positive : ar_projection_state r = AttentionProjectionComplete → 0 < ar_latest_seq r;
  so_right : ar_projection_state r = AttentionProjectionComplete → ar_latest_seq r = latest →
    ∃ shown, Forall2 reads log shown ∧ summarises r shown;
}.

Definition attention_ok (d : DB) : Prop := ∀ sid,
  match attention d !! sid with
  | None => session_rows sid d = []
  | Some r => summary_ok r (session_rows sid d) (latest_seq sid d)
  end.

(** ** The shape of a projection *)

Definition well_shaped (p : sqliteAttentionProjection) : Prop :=
  match pj_state p with
  | Some state =>
      stateObserved p = true ∧ permissionChange p = false ∧ permissionID p = None ∧
      permissionDecisionID p = None ∧
      terminalOutcome p = if bool_decide (state ∈ ["ended"; "error"]) then Some state else None
  | None => terminalOutcome p = None ∧
      (permissionChange p = true ↔ is_Some (permissionID p) ∨ is_Some (permissionDecisionID p))
  end.

Lemma well_shaped_incomplete b : well_shaped (incomplete_projection b).
Proof. split; [done|]. split; [done|]. by intros [[]|[]]. Qed.

Lemma well_shaped_nothing : well_shaped nothing_projected.
Proof. split; [done|]. split; [done|]. by intros [[]|[]]. Qed.

Lemma well_shaped_state state : well_shaped (state_projection state).
Proof. done. Qed.

Lemma projection_shape ev : well_shaped (sqliteAttentionEventProjection ev).
Proof.
  unfold sqliteAttentionEventProjection. repeat case_match;
    auto using well_shaped_incomplete, well_shaped_nothing, well_shaped_state.
  all: split; [done|]; split; [|done]; simpl; eauto.
Qed.

Lemma query_summary_fields sid r s :
  querySQLiteAttentionSummary sid r = inr s →
  Attention.LatestSeq s = ar_latest_seq r ∧ State s = ar_state r ∧ (ID <$> Permission s) = ar_permission_id r ∧
  TerminalOutcome s = ar_terminal_outcome r ∧ StateOfProjection s = ar_projection_state r ∧
  LatestChangeSeq s = ar_latest_change_seq r ∧
  (ar_projection_state r ≠ AttentionProjectionIncomplete → ar_projection_state r = AttentionProjectionComplete).
Proof.
  unfold querySQLiteAttentionSummary. intros H. destruct (_ || _) eqn:Hg in H; [done|].
  bool_hyps. assert (ar_projection_state r ≠ AttentionProjectionIncomplete →
    ar_projection_state r = AttentionProjectionComplete).
  { intros Hi. rewrite (bool_decide_eq_true_2 (_ ≠ AttentionProjectionIncomplete)), andb_true_r in * by done.
    bool_hyps. by apply dec_stable. }
  repeat (case_match; simplify_eq/=; try done).
Qed.

Lemma last_state_snoc log p :
  last_state (log ++ [p]) = match pj_state p with Some s => Some s | None => last_state log end.
Proof.
  unfold last_state. rewrite omap_app. simpl. destruct (pj_state p); [|by rewrite app_nil_r].
  by rewrite last_snoc.
Qed.

Lemma open_request_decided id decided log :
  open_request (id :: decided) log
    = match open_request decided log with
      | Some id' => if bool_decide (id = id') then None else Some id'
      | None => None
      end.
Proof.
  revert id decided. induction log as [|r log IH]; intros id decided; [done|]. simpl.
  destruct (permissionID r) as [id'|].
  - repeat case_bool_decide; try done; set_solver.
  - destruct (permissionDecisionID r) as [id'|]; [|by apply IH].
    assert (∀ a b, open_request (a :: b :: decided) log = open_request (b :: a :: decided) log) as Hswap.
    { intros a b. rewrite (IH a (b :: decided)), (IH b (a :: decided)), (IH a decided), (IH b decided).
      destruct (open_request decided log); [|done]. by repeat case_bool_decide. }
    by rewrite Hswap, (IH id (id' :: decided)).
Qed.

Lemma pending_permission_snoc log p :
  pending_permission (log ++ [p]) =
    match permissionID p, permissionDecisionID p with
    | Some id, _ => Some id
    | None, Some id =>
        match pending_permission log with
        | Some id' => if bool_decide (id = id') then None else Some id'
        | None => None
        end
    | None, None => pending_permission log
    end.
Proof.
  unfold pending_permission. rewrite reverse_app. simpl.
  destruct (permissionID p) as [id|]; [done|].
  destruct (permissionDecisionID p) as [id|]; [|done]. by rewrite open_request_decided.
Qed.

(** ** Projecting one event keeps the promise *)

Lemma next_permission_id s p :
  (permissionChange p = true ↔ is_Some (permissionID p) ∨ is_Some (permissionDecisionID p)) →
  ID <$> next_permission s p =
    match permissionID p, permissionDecisionID p with
    | Some id, _ => Some id
    | None, Some id =>
        match ID <$> Permission s with
        | Some id' => if bool_decide (id = id') then None else Some id'
        | None => None
        end
    | None, None => ID <$> Permission s
    end.
Proof.
  intros Hiff. unfold next_permission. destruct (permissionChange p).
  - destruct (permissionID p) as [id|]; [done|]. destruct (permissionDecisionID p) as [id|].
    + destruct (Permission s) as [perm|]; [|done]. simpl. by repeat case_bool_decide; subst.
    + destruct Hiff as [[[? ?]|[? ?]] _]; done.
  - destruct (permissionID p) as [id|]; [by destruct Hiff as [_ H]; discriminate H; left|].
    destruct (permissionDecisionID p) as [id|]; [by destruct Hiff as [_ H]; discriminate H; right|done].
Qed.

Lemma summarises_snoc log p created s seq now createdMS :
  well_shaped p →
  let r' := summary_row (fold_projection created s seq now p) createdMS now in
  projectionIncomplete p = false →
  (log = [] ∧ is_Some (pj_state p) ∧ Permission s = None ∨
   ∃ r, summarises r log ∧ State s = ar_state r ∧ (ID <$> Permission s) = ar_permission_id r ∧
     TerminalOutcome s = ar_terminal_outcome r) →
  summarises r' (log ++ [p]).
Proof.
  intros Hshape r' Hread Hold. unfold well_shaped in Hshape. split.
  - rewrite last_state_snoc. simpl. destruct (pj_state p) as [st|]; [done|]. simpl.
    destruct Hold as [(_ & [] & _)|(r & Hs & -> & _)]; [done|]. by apply sum_state.
  - simpl. unfold next_outcome. destruct (pj_state p) as [st|].
    + destruct Hshape as (-> & _ & _ & _ & ->). simpl. by case_bool_decide.
    + destruct Hshape as (-> & _). simpl.
      destruct Hold as [(_ & [] & _)|(r & Hs & -> & _ & ->)]; [done|].
      rewrite <-(sum_outcome _ _ Hs). by destruct (stateObserved p), (ar_terminal_outcome r).
  - rewrite pending_permission_snoc. simpl. rewrite next_permission_id.
    + destruct Hold as [(-> & [st Hst] & Hp)|(r & Hs & _ & -> & _)].
      * rewrite Hst in Hshape. destruct Hshape as (_ & _ & -> & -> & _). by rewrite Hp.
      * by rewrite (sum_permission _ _ Hs).
    + destruct (pj_state p); [|by apply Hshape]. destruct Hshape as (_ & -> & -> & -> & _).
      split; [done|]. by intros [[]|[]].
  - apply Forall_app. split; [|by repeat constructor].
    destruct Hold as [(-> & _)|(r & Hs & _)]; [apply Forall_nil_2|by eapply sum_readable].
Qed.

Lemma projected_attention_ok sid createdAt now ev pev d d' :
  log_ok d → attention_ok d → projected sid createdAt now ev pev d d' →
  (∀ seq, reads (event_row_of sid seq createdAt ev) (sqliteAttentionEventProjection pev)) →
  attention_ok d'.
Proof.
  intros Hlog Hok Ha Hreads sid'. pose proof (projected_rows _ _ _ _ _ _ _ Ha) as Hrows.
  pose proof (pr_seq _ _ _ _ _ _ _ Ha) as Hmax. pose proof (pr_log _ _ _ _ _ _ _ Ha) as Hlog'.
  destruct Ha as [_ _ (created & s & Hcur & Hsid & Hst & ->)]. simpl attention.
  destruct (decide (sid' = sid)) as [->|Hne]; cycle 1.
  { rewrite lookup_insert_ne by done. specialize (Hok sid').
    unfold latest_seq, session_rows in *. simpl session_events in *.
    rewrite filter_app, filter_cons_False, filter_nil, app_nil_r by done. done. }
  rewrite lookup_insert_eq, (latest_seq_dense _ sid Hlog'). unfold session_rows.
  rewrite Hrows, filter_app, filter_cons_True, filter_nil by done.
  fold (session_rows sid d). rewrite length_app. simpl length.
  specialize (Hok sid). unfold current_summary in Hcur.
  pose proof (latest_seq_dense _ sid Hlog) as Hdense.
  set (e := event_row_of sid (latest_seq sid d + 1) createdAt ev).
  pose proof (projection_shape pev) as Hshape. specialize (Hreads (latest_seq sid d + 1)). fold e in Hreads.
  set (p := sqliteAttentionEventProjection pev) in *.
  split; simpl; [lia|lia|].
  unfold upserted. simpl. intros Hcomplete _.
  destruct (_ || _) eqn:Hflags in Hcomplete; [done|]. bool_hyps.
  assert (∀ shown, Forall2 reads (session_rows sid d) shown →
    Forall2 reads (session_rows sid d ++ [e]) (shown ++ [p])) as Hsnoc.
  { intros shown Hs'. apply Forall2_app; [done|]. by apply Forall2_cons_2; [|apply Forall2_nil_2]. }
  destruct (attention d !! sid) as [r|] eqn:Hr.
  - destruct (querySQLiteAttentionSummary sid r) as [|s0] eqn:Hq; [done|].
    injection Hcur as <- <-. simpl in Hsid |- *.
    apply query_summary_fields in Hq as (Hls & Hstate & Hperm & Hout & Hproj & _ & Hc).
    rewrite Hproj, Hls in *. simpl in *. bool_hyps. specialize (Hc ltac:(done)).
    pose proof (so_positive _ _ _ Hok Hc) as Hpos. pose proof (so_latest _ _ _ Hok).
    rewrite (bool_decide_eq_true_2 (0 < _)) in * by done. simpl in *. bool_hyps.
    rewrite i64_small in * by (unfold two63 in *; lia).
    destruct (so_right _ _ _ Hok) as (shown & Hshown & Hsum); [done|lia|].
    exists (shown ++ [p]). split; [by apply Hsnoc|].
    apply summarises_snoc; [done|done|]. right. by exists r.
  - injection Hcur as <- <-. simpl in Hsid |- *. exists ([] ++ [p]). split; [by apply Hsnoc; rewrite Hok|].
    rewrite Hr. apply summarises_snoc; [done|done|]. left.
    rewrite (bool_decide_eq_true_2 (_ + 1 = 1)) in * by (rewrite Hdense, Hok; done). simpl in *.
    bool_hyps. split; [done|]. split; [|done].
    destruct (pj_state p); [eauto|done].
Qed.

Lemma reads_plain sid seq createdAt ev :
  reads (event_row_of sid seq createdAt ev) (sqliteAttentionEventProjection ev).
Proof. left. done. Qed.

(** the event a Store operation projects, encrypted or not *)
Lemma reads_projection sid seq createdAt ev encrypted pev :
  EncryptedPacket.sqliteProjectionEvent ev encrypted = inr pev →
  reads (event_row_of sid seq createdAt ev) (sqliteAttentionEventProjection pev).
Proof.
  unfold EncryptedPacket.sqliteProjectionEvent. destruct encrypted; simpl.
  - destruct (EncryptedPacket.DecodeEncryptedPacketCarrier _ _ _ _) as [c|] eqn:E; [|done].
    intros [= <-]. right. unfold EncryptedPacket.sqliteProjectionEvent. simpl. rewrite E. eauto.
  - intros [= <-]. by left.
Qed.

Lemma event_appended_attention_ok sid createdAt ev w w' :
  log_ok (db w) → attention_ok (db w) → event_appended sid createdAt ev w w' → attention_ok (db w').
Proof.
  intros Hlog Hok [(d' & Hd' & -> & _)].
  exact (projected_attention_ok _ _ _ _ _ _ _ Hlog Hok Hd' (λ seq, reads_plain _ seq _ _)).
Qed.

Lemma attention_ok_empty : attention_ok empty_db.
Proof. intros sid. simpl. by rewrite lookup_empty. Qed.

End AttentionSpec.
