(* ===== verification/Connections.v ===== *)
(** * Adapter connections of [store/sqlite/store.go]

    [session_adapter_connections] binds a Session to the one Adapter that may
    write for it: a connection epoch and an accepted fence that advance with
    every hello and credential activation, the generations of its credential,
    and the instants it was revoked or ended.  Fences come from an allocator
    in a second database file that no rollback touches, so that a fence is
    never handed out twice.  A hello, and a termination before it, also fence
    the run controls and file references the previous writer left open.

    [tx] below is [connectionTx != nil]: the operation runs inside a
    transaction its caller opened, instead of one of its own. *)

From S2P Require Import Prelude StoreApi Json Sqlite Attention EventLog.
From stdpp Require Import base gmap strings list.
#[local] Open Scope Z_scope.

Module Connections.

(** ** Data *)

Record AdapterConnection := mkConnection {
  ac_SessionID : string;
  ac_ConnectionEpoch : Z;
  ac_AcceptedFence : Z;
  ac_ActiveCredentialGeneration : Z;
  ac_CredentialGenerationHighWatermark : Z;
  ac_ActiveCredentialExpiresAt : time;
  ac_PendingCredentialGeneration : option Z;
  ac_PendingCredentialExpiresAt : option time;
  ac_PriorRecoveryGeneration : option Z;
  ac_RotationID : option string;
  ac_RevokedAt : option time;
  ac_TerminalAt : option time;
}.

Record AdapterConnectionInitialize := mkInitialize {
  in_SessionID : string;
  in_ActiveCredentialGeneration : Z;
  in_ActiveCredentialExpiresAt : time;
}.

Record AdapterCredentialPreHelloRefresh := mkRefresh {
  rf_ExpectedActiveCredentialGeneration : Z;
  rf_ActiveCredentialExpiresAt : time;
}.

Record AdapterHello := mkHello {
  he_CredentialGeneration : Z;
  he_WriterLeaseID : string;
}.

Record AdapterConnectionAdmission := mkAdmission {
  ad_CredentialGeneration : Z;
  ad_ConnectionEpoch : Z;
  ad_AcceptedFence : Z;
  ad_GrantFence : Z;
}.

Record ConnectionAuthorityReceipt := mkReceipt {
  re_SessionID : string;
  re_ConnectionEpoch : Z;
  re_CredentialGeneration : Z;
  re_AcceptedFence : Z;
  re_WriterLeaseID : string;
  re_ExpiresAt : time;
}.

Record AdapterCredentialRotation := mkRotation {
  ro_ExpectedActiveCredentialGeneration : Z;
  ro_ExpectedEpoch : Z;
  ro_PendingGeneration : Z;
  ro_ExpiresAt : time;
  ro_RotationID : string;
}.

Record AdapterCredentialActivation := mkActivation {
  av_ExpectedActiveCredentialGeneration : Z;
  av_ExpectedEpoch : Z;
  av_PendingGeneration : Z;
  av_RotationID : string;
}.

Record CommandAuthority := mkAuthority {
  ca_ConnectionEpoch : Z;
  ca_CredentialGeneration : Z;
}.

(** ** The fence allocator *)

(** [UPDATE adapter_fence_allocator SET next_fence = next_fence + 1 WHERE ...
    next_fence < 9223372036854775807 RETURNING next_fence - 1], on the second
    file: the effect survives a rollback of the caller. *)
Definition allocateAdapterFence : M Z := λ w,
  if bool_decide (side_fence w < max_int64) then
    let w' := mkWorld (db w) (side_fence w + 1) (clock w) (tick w) in
    if bool_decide (side_fence w < 1) then (w', inl (Err "sqlite allocated invalid grant fence"))
    else (w', inr (side_fence w))
  else (w, inl (Wrap "allocate adapter grant fence" ErrNoRows)).

Definition syncAdapterFence (fence : Z) : M unit :=
  exec (upd_next_fence (λ next, Z.max next (i64 (fence + 1)))).

Definition AllocateAdapterGrantFence : M Z :=
  fence ← allocateAdapterFence;
  syncAdapterFence fence ≫= λ _,
  mret fence.

(** ** Reading a row *)

Definition scan_connection (sessionID : string) (c : connection_row) : AdapterConnection :=
  mkConnection sessionID (cr_connection_epoch c) (cr_accepted_fence c) (cr_active_credential_generation c)
    (cr_credential_generation_high_watermark c) (of_UnixMilli (cr_active_credential_expires_at_ms c))
    (cr_pending_credential_generation c) (of_UnixMilli <$> cr_pending_credential_expires_at_ms c)
    (cr_prior_recovery_credential_generation c) (cr_rotation_id c)
    (of_UnixMilli <$> cr_revoked_at_ms c) (of_UnixMilli <$> cr_terminal_at_ms c).

Definition same_nil {A B} (a : option A) (b : option B) : bool :=
  match a, b with None, None | Some _, Some _ => true | _, _ => false end.

Definition validAdapterConnectionRow (c : AdapterConnection) (createdAtMS updatedAtMS nowMS nextFence : Z)
    : bool :=
  if negb (validConnectionID (ac_SessionID c)) || bool_decide (ac_ConnectionEpoch c < 0)
     || bool_decide (ac_AcceptedFence c < 0)
     || negb (Bool.eqb (bool_decide (ac_ConnectionEpoch c = 0)) (bool_decide (ac_AcceptedFence c = 0)))
     || bool_decide (ac_ActiveCredentialGeneration c < 1)
     || bool_decide (ac_CredentialGenerationHighWatermark c < ac_ActiveCredentialGeneration c)
     || bool_decide (UnixMilli (ac_ActiveCredentialExpiresAt c) ≤ createdAtMS)
     || bool_decide (createdAtMS < 1) || bool_decide (updatedAtMS < createdAtMS)
     || bool_decide (nowMS < updatedAtMS)
     || bool_decide (nextFence < 1) || bool_decide (nextFence ≤ ac_AcceptedFence c)
     || negb (same_nil (ac_PendingCredentialGeneration c) (ac_PendingCredentialExpiresAt c))
     || negb (same_nil (ac_PendingCredentialGeneration c) (ac_RotationID c))
  then false
  else if match ac_PendingCredentialGeneration c, ac_PendingCredentialExpiresAt c, ac_RotationID c with
       | Some pending, Some expires, Some rotation =>
           bool_decide (pending < 1) || bool_decide (ac_CredentialGenerationHighWatermark c < pending)
           || bool_decide (pending = ac_ActiveCredentialGeneration c)
           || bool_decide (ac_PriorRecoveryGeneration c = Some pending)
           || bool_decide (UnixMilli expires ≤ createdAtMS) || negb (validAttachmentText rotation 255)
       | _, _, _ => false
       end
  then false
  else if match ac_PriorRecoveryGeneration c with
       | Some prior => bool_decide (prior < 1) || bool_decide (ac_CredentialGenerationHighWatermark c < prior)
           || bool_decide (prior = ac_ActiveCredentialGeneration c)
       | None => false
       end
  then false
  else forallb (λ t : option time, match t with
       | Some t => negb (bool_decide (UnixMilli t < createdAtMS) || bool_decide (nowMS < UnixMilli t))
       | None => true
       end) [ac_RevokedAt c; ac_TerminalAt c].

(** A row whose epoch left the [int64] range was stored as a REAL and fails to
    scan.  [now] of the statement is read once. *)
Definition queryAdapterConnectionWhere (sessionID : string) (predicate : Z → World → connection_row → bool)
    : M AdapterConnection :=
  nowMS ← nowMillis;
  w ← get;
  match connections (db w) !! sessionID with
  | Some c =>
      if predicate nowMS w c then
        if negb (in_i64 (cr_connection_epoch c)) then throw (Err "sql: Scan error")
        else
          let connection := scan_connection sessionID c in
          if validAdapterConnectionRow connection (cr_created_at_ms c) (cr_updated_at_ms c) nowMS (next_fence (db w))
          then mret connection
          else throw (Err "adapter connection row is invalid")
      else throw ErrNoRows
  | None => throw ErrNoRows
  end.

Definition queryAdapterConnection (sessionID : string) : M AdapterConnection :=
  queryAdapterConnectionWhere sessionID (λ _ _ _, true).

Definition GetAdapterConnection (sessionID : string) : M AdapterConnection :=
  fail_if (negb (validConnectionID sessionID)) (Err "invalid adapter connection session") ≫= λ _,
  on_error (Wrap "select adapter connection") (queryAdapterConnection sessionID).

(** ** Writing a row *)

Definition null_or {A} (v : option A) (p : A → bool) : bool := match v with Some a => p a | None => true end.

(** The CHECKs of [session_adapter_connections]. *)
Definition connection_checks (sessionID : string) (c : connection_row) : bool :=
  text_between 1 sessionID 255 &&
  bool_decide (0 ≤ cr_connection_epoch c) && bool_decide (0 ≤ cr_accepted_fence c) &&
  bool_decide (0 < cr_active_credential_generation c) &&
  bool_decide (0 < cr_credential_generation_high_watermark c) &&
  null_or (cr_pending_credential_generation c) (λ g, bool_decide (0 < g)) &&
  null_or (cr_prior_recovery_credential_generation c) (λ g, bool_decide (0 < g)) &&
  null_or (cr_rotation_id c) (λ r, text_between 1 r 255) &&
  bool_decide (cr_created_at_ms c < cr_active_credential_expires_at_ms c) &&
  same_nil (cr_pending_credential_generation c) (cr_pending_credential_expires_at_ms c) &&
  same_nil (cr_pending_credential_generation c) (cr_rotation_id c) &&
  bool_decide (cr_active_credential_generation c ≤ cr_credential_generation_high_watermark c) &&
  null_or (cr_pending_credential_generation c) (λ g, bool_decide (g ≤ cr_credential_generation_high_watermark c)) &&
  null_or (cr_prior_recovery_credential_generation c)
    (λ g, bool_decide (g ≤ cr_credential_generation_high_watermark c)) &&
  bool_decide (cr_pending_credential_generation c ≠ Some (cr_active_credential_generation c)) &&
  bool_decide (cr_prior_recovery_credential_generation c ≠ Some (cr_active_credential_generation c)) &&
  null_or (cr_pending_credential_generation c)
    (λ g, bool_decide (cr_prior_recovery_credential_generation c ≠ Some g)) &&
  null_or (cr_revoked_at_ms c) (λ t, bool_decide (cr_created_at_ms c ≤ t)) &&
  null_or (cr_terminal_at_ms c) (λ t, bool_decide (cr_created_at_ms c ≤ t)).

(** The trigger [session_adapter_connections_advance_fence]. *)
Definition fence_trigger (nextFence : Z) (old new : connection_row) : bool :=
  bool_decide (cr_accepted_fence new = cr_accepted_fence old)
  || (bool_decide (cr_accepted_fence old < cr_accepted_fence new)
      && bool_decide (cr_accepted_fence new < nextFence)).

(** [UPDATE session_adapter_connections SET ... WHERE session_id = ? AND ...]:
    the number of rows it changed. *)
Definition update_connection_row (sessionID : string) (wher : connection_row → bool)
    (set : connection_row → connection_row) : M Z :=
  d ← query id;
  match connections d !! sessionID with
  | Some c =>
      if wher c then
        check "adapter accepted fence is not allocator-owned" (fence_trigger (next_fence d) c (set c)) ≫= λ _,
        check "session_adapter_connections" (connection_checks sessionID (set c)) ≫= λ _,
        exec (upd_connections (<[sessionID := set c]>)) ≫= λ _,
        mret 1
      else mret 0
  | None => mret 0
  end.

(** ** Fencing what the previous writer left open *)

(** [appendRunControlEventExecutor], [appendRunControlEventTx] *)
Definition appendRunControlEvent (sessionID eventType payload : string) (nowMS : Z) : M Z :=
  latest ← query (latest_seq sessionID);
  let seq := i64 (latest + 1) in
  insert_event (mkEventRow sessionID seq eventType payload nowMS nowMS) ≫= λ _,
  mret seq.

Definition outcome_payload (commandID operation outcome : string) (completion reason : option string) : string :=
  Json.marshalStruct [("cmd_id", Json.marshalString commandID); ("operation", Json.marshalString operation);
    ("outcome", Json.marshalString outcome); ("completion_state", Json.marshalOption completion);
    ("reason_code", Json.marshalOption reason)].

Definition finish_control (outcome : string) (seq nowMS : Z) (r : run_control_row) : run_control_row :=
  mkRunControlRow (rc_operation r) (rc_capability_version r) (rc_reservation_version r)
    (rc_pre_control_state r) (rc_pre_control_state_seq r) (rc_writer r) (rc_deadline_ms r)
    outcome (Some seq) (rc_created_at_ms r) nowMS.

(** [UPDATE session_run_controls SET status=?, terminal_event_seq=?, ... WHERE
    session_id=? AND cmd_id=? AND reservation_version=? AND status='pending' AND ...] *)
Definition update_pending_control (sessionID commandID : string) (version : Z) (wher : run_control_row → bool)
    (set : run_control_row → run_control_row) : M Z :=
  row ← query (λ d, run_controls d !! (sessionID, commandID));
  match row with
  | Some r =>
      if bool_decide (rc_reservation_version r = version) && bool_decide (rc_status r = "pending") && wher r then
        exec (upd_run_controls (<[(sessionID, commandID) := set r]>)) ≫= λ _, mret 1
      else mret 0
  | None => mret 0
  end.

Definition pending_controls (sessionID : string) (d : DB) : list (string * run_control_row) :=
  omap (λ kr : string * string * run_control_row,
          if bool_decide (kr.1.1 = sessionID) && bool_decide (rc_status kr.2 = "pending")
          then Some (kr.1.2, kr.2) else None)
    (map_to_list (run_controls d)).

Definition fence_control (sessionID : string) (nowMS : Z) (cr : string * run_control_row) : M unit :=
  let '(commandID, r) := cr in
  seq ← appendRunControlEvent sessionID "session.run.outcome"
          (outcome_payload commandID (rc_operation r) "outcome_unknown" None (Some "adapter_disconnected")) nowMS;
  changed ← update_pending_control sessionID commandID (rc_reservation_version r) (λ _, true)
          (finish_control "outcome_unknown" seq nowMS);
  fail_if (bool_decide (changed ≠ 1)) (Err "run-control replacement fence lost race").

Definition file_outcome_payload (messageID commandID outcome : string) (reason : option string) : string :=
  Json.marshalStruct [("message_id", Json.marshalString messageID); ("cmd_id", Json.marshalString commandID);
    ("outcome", Json.marshalString outcome); ("reference_index", "null"); ("reason", Json.marshalOption reason)].

Definition finish_file_command (outcome : string) (seq nowMS : Z) (r : file_command_row) : file_command_row :=
  mkFileCommandRow (fc_message_id r) (fc_capability_fingerprint r) (fc_request_fingerprint r)
    (fc_reference_count r) (fc_reservation_version r) (fc_delivery_deadline_ms r) (fc_writer r)
    outcome (Some seq) (fc_created_at_ms r) nowMS.

Definition file_command_open (r : file_command_row) : bool :=
  bool_decide (fc_status r ∈ ["delivery_pending"; "pending"]).

Definition open_file_commands (sessionID : string) (d : DB) : list (string * file_command_row) :=
  omap (λ kr : string * string * file_command_row,
          if bool_decide (kr.1.1 = sessionID) && file_command_open kr.2 then Some (kr.1.2, kr.2) else None)
    (map_to_list (file_commands d)).

Definition fence_file_command (sessionID : string) (nowMS : Z) (cr : string * file_command_row) : M unit :=
  let '(commandID, r) := cr in
  seq ← appendRunControlEvent sessionID "session.file_references.outcome"
          (file_outcome_payload (fc_message_id r) commandID "outcome_unknown" (Some "writer_lost")) nowMS;
  row ← query (λ d, file_commands d !! (sessionID, commandID));
  match row with
  | Some r' =>
      if file_command_open r'
      then exec (upd_file_commands (<[(sessionID, commandID) := finish_file_command "outcome_unknown" seq nowMS r']>))
      else throw (Err "file-reference replacement fence lost race")
  | None => throw (Err "file-reference replacement fence lost race")
  end.

Definition fenceFileReferenceCommandsAfterWriterReplacement (sessionID : string) (nowMS : Z) : M unit :=
  exec (upd_file_capabilities (delete sessionID)) ≫= λ _,
  rows ← query (open_file_commands sessionID);
  for_each rows (fence_file_command sessionID nowMS).

Definition fenceRunControlsAfterWriterReplacement (sessionID : string) (nowMS : Z) : M unit :=
  exec (upd_run_capabilities (delete sessionID)) ≫= λ _,
  rows ← query (pending_controls sessionID);
  for_each rows (fence_control sessionID nowMS) ≫= λ _,
  fenceFileReferenceCommandsAfterWriterReplacement sessionID nowMS.

(** ** Mutations *)

Definition withConnectionMutation {A} (tx : bool) (fn : M A) : M A :=
  if tx then fn else with_tx fn.

Definition updateConnectionAfter (tx : bool) (sessionID : string) (fenced : bool)
    (wher : Z → connection_row → bool) (set : Z → Z → connection_row → connection_row)
    (after : AdapterConnection → Z → M unit) : M AdapterConnection :=
  withConnectionMutation tx (
    locked ← on_error (Wrap "lock adapter connection for mutation")
      (update_connection_row sessionID (λ _, true) id);
    fail_if (bool_decide (locked ≠ 1)) (Err "lock adapter connection for mutation") ≫= λ _,
    fence ← (if fenced then
               fence ← allocateAdapterFence;
               syncAdapterFence fence ≫= λ _, mret fence
             else mret 0);
    nowMS ← nowMillis;
    on_error (Wrap "validate adapter connection before mutation")
      (queryAdapterConnection sessionID) ≫= λ _,
    changed ← on_error (Wrap "update adapter connection")
      (update_connection_row sessionID (wher nowMS) (set nowMS fence));
    fail_if (bool_decide (changed ≠ 1)) (Err "adapter connection state conflict") ≫= λ _,
    connection ← queryAdapterConnection sessionID;
    on_error (Wrap "bind adapter writer lease") (after connection nowMS) ≫= λ _,
    mret connection).

Definition updateConnection (tx : bool) (sessionID : string) (fenced : bool)
    (wher : Z → connection_row → bool) (set : Z → Z → connection_row → connection_row) : M AdapterConnection :=
  updateConnectionAfter tx sessionID fenced wher set (λ _ _, mret tt).

(** [revoked_at_ms IS NULL AND terminal_at_ms IS NULL] *)
Definition live (c : connection_row) : bool :=
  bool_decide (cr_revoked_at_ms c = None) && bool_decide (cr_terminal_at_ms c = None).

(** [connection_epoch = 0 AND accepted_fence = 0 AND no pending, prior or rotation] *)
Definition before_hello (c : connection_row) : bool :=
  bool_decide (cr_connection_epoch c = 0) && bool_decide (cr_accepted_fence c = 0) &&
  bool_decide (cr_pending_credential_generation c = None) &&
  bool_decide (cr_prior_recovery_credential_generation c = None) && bool_decide (cr_rotation_id c = None).

Definition InitializeAdapterConnection (tx : bool) (request : AdapterConnectionInitialize) : M AdapterConnection :=
  let sessionID := in_SessionID request in
  let generation := in_ActiveCredentialGeneration request in
  let expires := in_ActiveCredentialExpiresAt request in
  fail_if (negb (validConnectionID sessionID) || bool_decide (generation < 1) || IsZero expires)
    (Err "invalid adapter connection initialization") ≫= λ _,
  withConnectionMutation tx (
    nowMS ← nowMillis;
    fail_if (bool_decide (UnixMilli expires ≤ nowMS)) (Err "adapter connection expiry is not in the future") ≫= λ _,
    (* INSERT OR IGNORE *)
    existing ← query (λ d, connections d !! sessionID);
    let row := mkConnectionRow 0 0 generation generation (UnixMilli expires) None None None None None None nowMS nowMS in
    (if bool_decide (existing = None) && connection_checks sessionID row
     then exec (upd_connections (<[sessionID := row]>)) else mret tt) ≫= λ _,
    connection ← on_error (Wrap "read initialized adapter connection") (queryAdapterConnection sessionID);
    fail_if (bool_decide (ac_ConnectionEpoch connection ≠ 0) || bool_decide (ac_AcceptedFence connection ≠ 0)
             || bool_decide (ac_ActiveCredentialGeneration connection ≠ generation)
             || bool_decide (ac_CredentialGenerationHighWatermark connection ≠ generation)
             || bool_decide (ac_ActiveCredentialExpiresAt connection ≠ of_UnixMilli (UnixMilli expires))
             || bool_decide (ac_PendingCredentialGeneration connection ≠ None)
             || bool_decide (ac_PriorRecoveryGeneration connection ≠ None)
             || bool_decide (ac_RotationID connection ≠ None) || bool_decide (ac_RevokedAt connection ≠ None)
             || bool_decide (ac_TerminalAt connection ≠ None))
      (Err "adapter connection initialization conflicts with existing state") ≫= λ _,
    mret connection).

Definition ValidateWarmAttachTargetActivation (sessionID : string) (generation : Z) (expiresAt : time) : M unit :=
  fail_if (negb (validConnectionID sessionID) || bool_decide (generation < 1) || IsZero expiresAt)
    (Err "invalid sqlite warm attach target activation") ≫= λ _,
  on_error (λ _, Err "sqlite warm attach target activation is expired or fenced")
    (queryAdapterConnectionWhere sessionID (λ nowMS _ c,
       bool_decide (cr_active_credential_generation c = generation) &&
       bool_decide (cr_credential_generation_high_watermark c = generation) &&
       bool_decide (cr_active_credential_expires_at_ms c = UnixMilli expiresAt) &&
       before_hello c && live c && bool_decide (nowMS < cr_active_credential_expires_at_ms c))) ≫= λ _,
  mret tt.

Definition refresh_row (nowMS expiresAtMS : Z) (c : connection_row) : connection_row :=
  mkConnectionRow (cr_connection_epoch c) (cr_accepted_fence c) (cr_active_credential_generation c)
    (cr_credential_generation_high_watermark c) expiresAtMS (cr_pending_credential_generation c)
    (cr_pending_credential_expires_at_ms c) (cr_prior_recovery_credential_generation c) (cr_rotation_id c)
    (cr_revoked_at_ms c) (cr_terminal_at_ms c) (cr_created_at_ms c) nowMS.

Definition RefreshAdapterCredentialBeforeHello (tx : bool) (sessionID : string)
    (refresh : AdapterCredentialPreHelloRefresh) : M AdapterConnection :=
  let generation := rf_ExpectedActiveCredentialGeneration refresh in
  let expiresAtMS := UnixMilli (rf_ActiveCredentialExpiresAt refresh) in
  fail_if (negb (validConnectionID sessionID) || bool_decide (generation < 1)
           || IsZero (rf_ActiveCredentialExpiresAt refresh))
    (Err "invalid pre-hello adapter credential refresh") ≫= λ _,
  updateConnection tx sessionID false
    (λ nowMS c,
       bool_decide (cr_active_credential_generation c = generation) && before_hello c && live c &&
       ((bool_decide (cr_active_credential_expires_at_ms c = expiresAtMS)
         && bool_decide (nowMS < cr_active_credential_expires_at_ms c))
        || (bool_decide (cr_active_credential_expires_at_ms c ≤ nowMS) && bool_decide (nowMS < expiresAtMS)
            && bool_decide (cr_active_credential_expires_at_ms c < expiresAtMS))))
    (λ nowMS _, refresh_row nowMS expiresAtMS).

Definition end_row (nowMS : Z) (c : connection_row) : connection_row :=
  mkConnectionRow (cr_connection_epoch c) (cr_accepted_fence c) (cr_active_credential_generation c)
    (cr_credential_generation_high_watermark c) (cr_active_credential_expires_at_ms c)
    (cr_pending_credential_generation c) (cr_pending_credential_expires_at_ms c)
    (cr_prior_recovery_credential_generation c) (cr_rotation_id c)
    (Some (default nowMS (cr_revoked_at_ms c))) (Some (default nowMS (cr_terminal_at_ms c)))
    (cr_created_at_ms c) nowMS.

Definition TerminateAdapterConnectionBeforeHello (tx : bool) (sessionID : string) (generation : Z)
    : M AdapterConnection :=
  fail_if (negb (validConnectionID sessionID) || bool_decide (generation < 1))
    (Err "invalid pre-hello adapter connection termination") ≫= λ _,
  updateConnectionAfter tx sessionID false
    (λ _ c, bool_decide (cr_active_credential_generation c = generation) && before_hello c &&
       (live c || (bool_decide (cr_revoked_at_ms c = cr_terminal_at_ms c)
                   && bool_decide (cr_revoked_at_ms c ≠ None))))
    (λ nowMS _, end_row nowMS)
    (λ _ nowMS, fenceRunControlsAfterWriterReplacement sessionID nowMS).

Definition hello_row (nowMS fence : Z) (c : connection_row) : connection_row :=
  mkConnectionRow (cr_connection_epoch c + 1) fence (cr_active_credential_generation c)
    (cr_credential_generation_high_watermark c) (cr_active_credential_expires_at_ms c)
    (cr_pending_credential_generation c) (cr_pending_credential_expires_at_ms c)
    (cr_prior_recovery_credential_generation c) (cr_rotation_id c)
    (cr_revoked_at_ms c) (cr_terminal_at_ms c) (cr_created_at_ms c) nowMS.

(** [INSERT INTO session_settings_live_writers ... ON CONFLICT DO UPDATE] *)
Definition upsert_live_writer (sessionID : string) (writer : SettingsWriter) : M unit :=
  check "session_settings_live_writers"
    (text_between 1 sessionID 255 && bool_decide (0 < ConnectionEpoch writer)
     && bool_decide (0 < CredentialGeneration writer) && text_between 1 (LeaseID writer) 255) ≫= λ _,
  exec (upd_live_writers (<[sessionID := writer]>)).

Definition AcceptAdapterHello (tx : bool) (sessionID : string) (hello : AdapterHello) : M AdapterConnection :=
  fail_if (negb (validConnectionID sessionID) || bool_decide (he_CredentialGeneration hello < 1))
    (Err "invalid adapter hello") ≫= λ _,
  GetAdapterConnection sessionID ≫= λ _,
  updateConnectionAfter tx sessionID true
    (λ nowMS c, bool_decide (cr_active_credential_generation c = he_CredentialGeneration hello) &&
       bool_decide (nowMS < cr_active_credential_expires_at_ms c) && live c)
    hello_row
    (λ connection nowMS,
       if bool_decide (he_WriterLeaseID hello = "") then fenceRunControlsAfterWriterReplacement sessionID nowMS
       else
         fail_if (bool_decide (255 < len (he_WriterLeaseID hello))) (Err "invalid adapter writer lease") ≫= λ _,
         upsert_live_writer sessionID (mkWriter (ac_ConnectionEpoch connection)
           (ac_ActiveCredentialGeneration connection) (he_WriterLeaseID hello)) ≫= λ _,
         fenceRunControlsAfterWriterReplacement sessionID nowMS).

Definition rotation_row (nowMS : Z) (rotation : AdapterCredentialRotation) (c : connection_row) : connection_row :=
  mkConnectionRow (cr_connection_epoch c) (cr_accepted_fence c) (cr_active_credential_generation c)
    (ro_PendingGeneration rotation) (cr_active_credential_expires_at_ms c)
    (Some (ro_PendingGeneration rotation)) (Some (UnixMilli (ro_ExpiresAt rotation)))
    (cr_prior_recovery_credential_generation c) (Some (ro_RotationID rotation))
    (cr_revoked_at_ms c) (cr_terminal_at_ms c) (cr_created_at_ms c) nowMS.

Definition PrepareAdapterCredentialRotation (tx : bool) (sessionID : string)
    (rotation : AdapterCredentialRotation) : M AdapterConnection :=
  let expiresAtMS := UnixMilli (ro_ExpiresAt rotation) in
  fail_if (negb (validConnectionID sessionID)
           || bool_decide (ro_ExpectedActiveCredentialGeneration rotation < 1)
           || bool_decide (ro_ExpectedEpoch rotation < 1) || bool_decide (ro_PendingGeneration rotation < 1)
           || negb (validAttachmentText (ro_RotationID rotation) 255) || IsZero (ro_ExpiresAt rotation))
    (Err "invalid adapter credential rotation") ≫= λ _,
  updateConnection tx sessionID false
    (λ nowMS c,
       bool_decide (cr_active_credential_generation c = ro_ExpectedActiveCredentialGeneration rotation) &&
       bool_decide (cr_connection_epoch c = ro_ExpectedEpoch rotation) &&
       bool_decide (0 < cr_connection_epoch c) && bool_decide (0 < cr_accepted_fence c) &&
       match cr_pending_credential_generation c, cr_pending_credential_expires_at_ms c with
       | None, _ => true
       | Some _, Some expires => bool_decide (expires ≤ nowMS)
       | Some _, None => false
       end &&
       bool_decide (cr_credential_generation_high_watermark c < ro_PendingGeneration rotation) &&
       bool_decide (nowMS < cr_active_credential_expires_at_ms c) && bool_decide (nowMS < expiresAtMS) && live c)
    (λ nowMS _, rotation_row nowMS rotation).

(** SET reads the old row; a WHERE that holds has the pending columns set. *)
Definition activate_row (nowMS fence : Z) (c : connection_row) : connection_row :=
  mkConnectionRow (cr_connection_epoch c + 1) fence
    (default 0 (cr_pending_credential_generation c))
    (cr_credential_generation_high_watermark c)
    (default 0 (cr_pending_credential_expires_at_ms c))
    None None (Some (cr_active_credential_generation c)) None
    (cr_revoked_at_ms c) (cr_terminal_at_ms c) (cr_created_at_ms c) nowMS.

Definition ActivateAdapterCredential (tx : bool) (sessionID : string)
    (activation : AdapterCredentialActivation) : M AdapterConnection :=
  fail_if (negb (validConnectionID sessionID)
           || bool_decide (av_ExpectedActiveCredentialGeneration activation < 1)
           || bool_decide (av_ExpectedEpoch activation < 1) || bool_decide (av_PendingGeneration activation < 1)
           || negb (validAttachmentText (av_RotationID activation) 255))
    (Err "invalid adapter credential activation") ≫= λ _,
  GetAdapterConnection sessionID ≫= λ _,
  updateConnection tx sessionID true
    (λ nowMS c,
       bool_decide (cr_active_credential_generation c = av_ExpectedActiveCredentialGeneration activation) &&
       bool_decide (cr_connection_epoch c = av_ExpectedEpoch activation) &&
       bool_decide (0 < cr_connection_epoch c) && bool_decide (0 < cr_accepted_fence c) &&
       bool_decide (cr_pending_credential_generation c = Some (av_PendingGeneration activation)) &&
       bool_decide (cr_rotation_id c = Some (av_RotationID activation)) &&
       bool_decide (nowMS < cr_active_credential_expires_at_ms c) &&
       match cr_pending_credential_expires_at_ms c with Some e => bool_decide (nowMS < e) | None => false end &&
       live c)
    activate_row.

(** ** Validating authority *)

Definition attentionMigrationPending : M bool := query migration_pending.

(** The WHERE of [ValidateAdapterAdmission]. *)
Definition admits (admission : AdapterConnectionAdmission) (nowMS : Z) (w : World) (c : connection_row) : bool :=
  bool_decide (cr_active_credential_generation c = ad_CredentialGeneration admission) &&
  bool_decide (cr_connection_epoch c = ad_ConnectionEpoch admission) &&
  bool_decide (cr_accepted_fence c = ad_AcceptedFence admission) &&
  bool_decide (cr_accepted_fence c < ad_GrantFence admission) &&
  bool_decide (ad_GrantFence admission < next_fence (db w)) &&
  bool_decide (ad_GrantFence admission < side_fence w) &&
  bool_decide (nowMS < cr_active_credential_expires_at_ms c) && live c.

Definition ValidateAdapterAdmission (tx : bool) (sessionID : string) (admission : AdapterConnectionAdmission)
    : M AdapterConnection :=
  fail_if (negb (validConnectionID sessionID) || bool_decide (ad_CredentialGeneration admission < 1)
           || bool_decide (ad_ConnectionEpoch admission < 1) || bool_decide (ad_AcceptedFence admission < 1)
           || bool_decide (ad_GrantFence admission ≤ ad_AcceptedFence admission))
    (Err "invalid adapter admission") ≫= λ _,
  pending ← attentionMigrationPending;
  fail_if pending (Err "sqlite attention migration is incomplete") ≫= λ _,
  (if tx then
     on_error (Wrap "lock adapter admission") (update_connection_row sessionID (λ _, true) id) ≫= λ _, mret tt
   else mret tt) ≫= λ _,
  on_error (Wrap "validate adapter admission") (queryAdapterConnectionWhere sessionID (admits admission)).

(** The EXISTS of [validateLiveSettingsWriter]: one statement, one clock reading. *)
Definition validateLiveSettingsWriter (sessionID : string) (writer : SettingsWriter) : M unit :=
  nowMS ← nowMillis;
  d ← query id;
  let current := match live_writers d !! sessionID, connections d !! sessionID with
    | Some current, Some c =>
        bool_decide (current = writer) &&
        bool_decide (cr_connection_epoch c = ConnectionEpoch current) &&
        bool_decide (cr_active_credential_generation c = CredentialGeneration current) &&
        bool_decide (nowMS < cr_active_credential_expires_at_ms c) && live c
    | _, _ => false
    end in
  fail_if (negb current) (Err "settings writer has no live authority").

Definition issueAdapterConnectionAuthorityReceipt (sessionID : string) (admission : AdapterConnectionAdmission)
    (writer : SettingsWriter) : M ConnectionAuthorityReceipt :=
  connection ← on_error (λ _, Err "adapter connection authority is not live")
    (ValidateAdapterAdmission true sessionID admission);
  on_error (λ _, Err "adapter connection authority is not live") (validateLiveSettingsWriter sessionID writer) ≫= λ _,
  mret (mkReceipt sessionID (ac_ConnectionEpoch connection) (ac_ActiveCredentialGeneration connection)
          (ac_AcceptedFence connection) (LeaseID writer) (ac_ActiveCredentialExpiresAt connection)).

Definition IssueAdapterConnectionAuthorityReceipt (tx : bool) (sessionID : string)
    (admission : AdapterConnectionAdmission) (writer : SettingsWriter) : M ConnectionAuthorityReceipt :=
  fail_if (negb (validConnectionID sessionID) || bool_decide (LeaseID writer = "")
           || bool_decide (ConnectionEpoch writer ≠ ad_ConnectionEpoch admission)
           || bool_decide (CredentialGeneration writer ≠ ad_CredentialGeneration admission))
    (Err "invalid adapter connection authority receipt") ≫= λ _,
  if tx then issueAdapterConnectionAuthorityReceipt sessionID admission writer
  else with_tx (issueAdapterConnectionAuthorityReceipt sessionID admission writer).

(** [WithAdapterConnectionTransaction]: [fn] runs the operations of this file with [tx] true. *)
Definition WithAdapterConnectionTransaction (fn : option (M unit)) : M unit :=
  match fn with
  | None => throw (Err "adapter connection transaction callback is nil")
  | Some fn => with_tx fn
  end.

Definition holds_authority (authority : CommandAuthority) (nowMS : Z) (c : connection_row) : bool :=
  bool_decide (cr_connection_epoch c = ca_ConnectionEpoch authority) &&
  bool_decide (cr_active_credential_generation c = ca_CredentialGeneration authority) &&
  bool_decide (nowMS < cr_active_credential_expires_at_ms c) && live c.

Definition validateCommandAuthority (sessionID : string) (authority : CommandAuthority) (nowMS : Z) : M unit :=
  row ← query (λ d, connections d !! sessionID);
  fail_if (negb (match row with Some c => holds_authority authority nowMS c | None => false end))
    (Err "command authority is no longer current").

Definition lockCommandAuthority (sessionID : string) (authority : CommandAuthority) : M unit :=
  nowMS ← nowMillis;
  changed ← on_error (Wrap "lock command authority")
    (update_connection_row sessionID (holds_authority authority nowMS) id);
  fail_if (bool_decide (changed ≠ 1)) (Err "command authority is no longer current").

End Connections.
