(* ===== verification/Settings.v ===== *)
(** * Settings commands of [store/sqlite/store.go]

    The live writer publishes what model, reasoning effort and permission mode
    are in effect ([session_settings_capabilities]); a client's request to
    change them is reserved against that capability, acknowledged by the writer
    it was reserved for, and finalized once: by that writer before the operation
    deadline, by nobody after it, or, when another writer has taken over, as an
    outcome nobody knows.  At most one request of a Session is open. *)

From S2P Require Import Prelude StoreApi Json Sqlite Attention EventLog Connections.
From stdpp Require Import base gmap strings list sorting.
#[local] Open Scope Z_scope.

Module Settings.
Import Connections.

(** ** Data *)

Definition SettingsCommandDeliveryPending : string := "delivery_pending".
Definition SettingsCommandPending : string := "pending".
Definition SettingsCommandRecoveryPending : string := "recovery_pending".
Definition SettingsCommandApplied : string := "applied".
Definition SettingsCommandRejected : string := "rejected".
Definition SettingsCommandTimeout : string := "timeout".
Definition SettingsCommandUnsupported : string := "unsupported".
Definition SettingsCommandStaleCapability : string := "stale_capability".
Definition SettingsCommandOutcomeUnknown : string := "outcome_unknown".
Definition SettingsCommandMismatched : string := "mismatched_effective".

Record SettingsCapability := mkSettingsCapability {
  sp_SessionID : string;
  sp_EventSeq : Z;
  sp_Fingerprint : string;
  sp_EffectiveModelID : string;
  sp_EffectiveReasoningEffortID : option string;
  sp_EffectivePermissionModeID : string;
  sp_Version : Z;
  sp_Writer : SettingsWriter;
}.

Record SettingsCapabilityUpdate := mkSettingsUpdate {
  su_EventSeq : Z;
  su_Fingerprint : string;
  su_EffectiveModelID : string;
  su_EffectiveReasoningEffortID : option string;
  su_EffectivePermissionModeID : string;
  su_Writer : SettingsWriter;
}.

Record SettingsCommandRequest := mkSettingsRequest {
  sq_CommandID : string;
  sq_RequestFingerprint : string;
  sq_RequestedModelID : option string;
  sq_RequestedReasoningEffortID : option string;
  sq_RequestedPermissionModeID : option string;
  sq_Writer : SettingsWriter;
}.

Record SettingsCommand := mkSettingsCommand {
  sc_SessionID : string;
  sc_CommandID : string;
  sc_RequestFingerprint : string;
  sc_RequestedModelID : option string;
  sc_RequestedReasoningEffortID : option string;
  sc_RequestedPermissionModeID : option string;
  sc_ReservationVersion : Z;
  sc_DeliveryDeadline : time;
  sc_OperationDeadline : option time;
  sc_Writer : SettingsWriter;
  sc_ReservedCapability : SettingsCapability;
  sc_Status : string;
  sc_TerminalEventSeq : option Z;
}.

Record SettingsCommandReserveResult := mkSettingsReserve { sr_Command : SettingsCommand; sr_Duplicate : bool }.

Record SettingsCommandFinalize := mkSettingsFinalize {
  sf_ReservationVersion : Z;
  sf_ExpectedStatus : string;
  sf_Writer : option SettingsWriter;
  sf_Outcome : string;
  sf_ReasonCode : option string;
  sf_EffectiveCapability : SettingsCapability;
}.

(** ** Validation *)

Definition lower (c : Z) : bool := Json.between 97 c 122.
Definition alphanumeric (c : Z) : bool := Json.between 65 c 90 || lower c || Json.between 48 c 57.

Definition validSettingsID (value : string) : bool :=
  bool_decide (1 ≤ len value) && bool_decide (len value ≤ 128) &&
  match Json.bytes_of value with
  | c :: rest =>
      alphanumeric c && forallb (λ c, alphanumeric c || bool_decide (c ∈ [46; 95; 58; 47; 45])) rest
  | [] => false
  end.

Definition validSettingsFingerprint (value : string) : bool :=
  bool_decide (len value = 71) && String.prefix "sha256:" value &&
  forallb (λ c, Json.between 48 c 57 || Json.between 97 c 102) (drop 7 (Json.bytes_of value)).

Definition validSettingsNonterminalStatus (status : string) : bool :=
  bool_decide (status ∈ [SettingsCommandDeliveryPending; SettingsCommandPending; SettingsCommandRecoveryPending]).

Definition validSettingsStatus (status : string) : bool :=
  bool_decide (status ∈ [SettingsCommandDeliveryPending; SettingsCommandPending; SettingsCommandRecoveryPending;
    SettingsCommandApplied; SettingsCommandRejected; SettingsCommandTimeout; SettingsCommandUnsupported;
    SettingsCommandStaleCapability; SettingsCommandOutcomeUnknown; SettingsCommandMismatched]).

Definition validSettingsTerminalStatus (status : string) : bool :=
  validSettingsStatus status && negb (validSettingsNonterminalStatus status).

Definition validSettingsWriter (writer : SettingsWriter) : bool :=
  bool_decide (0 < ConnectionEpoch writer) && bool_decide (0 < CredentialGeneration writer) &&
  bool_decide (LeaseID writer ≠ "") && bool_decide (len (LeaseID writer) ≤ 255).

Definition validSettingsReason (reason : option string) : bool :=
  match reason with
  | None => false
  | Some reason =>
      bool_decide (1 ≤ len reason) && bool_decide (len reason ≤ 64) &&
      match Json.bytes_of reason with c :: _ => lower c | [] => false end &&
      forallb (λ c, lower c || Json.between 48 c 57 || bool_decide (c = 95)) (Json.bytes_of reason)
  end.

Definition validSettingsCapabilityUpdate (sessionID : string) (update : SettingsCapabilityUpdate) : bool :=
  validConnectionID sessionID && bool_decide (0 < su_EventSeq update) &&
  validSettingsFingerprint (su_Fingerprint update) && validSettingsID (su_EffectiveModelID update) &&
  null_or (su_EffectiveReasoningEffortID update) validSettingsID &&
  validSettingsID (su_EffectivePermissionModeID update) && validSettingsWriter (su_Writer update).

Definition is_some {A} (v : option A) : bool := match v with Some _ => true | None => false end.

Definition validSettingsCommandRequest (sessionID : string) (request : SettingsCommandRequest) : bool :=
  validConnectionID sessionID && bool_decide (sq_CommandID request ≠ "") &&
  bool_decide (len (sq_CommandID request) ≤ 256) && validSettingsFingerprint (sq_RequestFingerprint request) &&
  (is_some (sq_RequestedModelID request) || is_some (sq_RequestedReasoningEffortID request)
   || is_some (sq_RequestedPermissionModeID request)) &&
  null_or (sq_RequestedModelID request) validSettingsID &&
  null_or (sq_RequestedReasoningEffortID request) validSettingsID &&
  null_or (sq_RequestedPermissionModeID request) validSettingsID && validSettingsWriter (sq_Writer request).

Definition sameSettingsOptionalID (left right : option string) : bool := bool_decide (left = right).

Definition sameSettingsCapability (left right : SettingsCapability) : bool :=
  bool_decide (sp_SessionID left = sp_SessionID right) && bool_decide (sp_EventSeq left = sp_EventSeq right) &&
  bool_decide (sp_Fingerprint left = sp_Fingerprint right) &&
  bool_decide (sp_EffectiveModelID left = sp_EffectiveModelID right) &&
  sameSettingsOptionalID (sp_EffectiveReasoningEffortID left) (sp_EffectiveReasoningEffortID right) &&
  bool_decide (sp_EffectivePermissionModeID left = sp_EffectivePermissionModeID right) &&
  bool_decide (sp_Version left = sp_Version right) && bool_decide (sp_Writer left = sp_Writer right).

Definition validSettingsCommandRow (command : SettingsCommand) : bool :=
  let reserved := sc_ReservedCapability command in
  let terminal := bool_decide (sc_Status command ≠ SettingsCommandDeliveryPending) &&
    bool_decide (sc_Status command ≠ SettingsCommandPending) &&
    bool_decide (sc_Status command ≠ SettingsCommandRecoveryPending) in
  validSettingsCommandRequest (sc_SessionID command)
    (mkSettingsRequest (sc_CommandID command) (sc_RequestFingerprint command) (sc_RequestedModelID command)
       (sc_RequestedReasoningEffortID command) (sc_RequestedPermissionModeID command) (sc_Writer command)) &&
  bool_decide (0 < sc_ReservationVersion command) && negb (IsZero (sc_DeliveryDeadline command)) &&
  validSettingsStatus (sc_Status command) &&
  sameSettingsCapability reserved
    (mkSettingsCapability (sc_SessionID command) (sp_EventSeq reserved) (sp_Fingerprint reserved)
       (sp_EffectiveModelID reserved) (sp_EffectiveReasoningEffortID reserved) (sp_EffectivePermissionModeID reserved)
       0 (sc_Writer command)) &&
  ((terminal && is_some (sc_TerminalEventSeq command)) || (negb terminal && negb (is_some (sc_TerminalEventSeq command)))).

(** [*requested != effective], with a nil request matching nothing. *)
Definition differs (requested : option string) (effective : option string) : bool :=
  match requested with Some v => negb (bool_decide (effective = Some v)) | None => false end.

Definition deadline_over (deadline : option time) (nowMS : Z) : bool :=
  match deadline with Some t => bool_decide (UnixMilli t ≤ nowMS) | None => false end.

Definition validateSettingsFinalization (command : SettingsCommand) (capability : SettingsCapability)
    (finalize : SettingsCommandFinalize) (nowMS : Z) : error + unit :=
  let reserved := sc_ReservedCapability command in
  let applied := bool_decide (sf_Outcome finalize = SettingsCommandApplied) in
  if applied &&
     (is_some (sf_ReasonCode finalize)
      || differs (sc_RequestedModelID command) (Some (sp_EffectiveModelID capability))
      || differs (sc_RequestedReasoningEffortID command) (sp_EffectiveReasoningEffortID capability)
      || differs (sc_RequestedPermissionModeID command) (Some (sp_EffectivePermissionModeID capability))
      || (negb (is_some (sc_RequestedModelID command))
          && bool_decide (sp_EffectiveModelID reserved ≠ sp_EffectiveModelID capability))
      || (negb (is_some (sc_RequestedReasoningEffortID command))
          && negb (sameSettingsOptionalID (sp_EffectiveReasoningEffortID reserved)
                     (sp_EffectiveReasoningEffortID capability)))
      || (negb (is_some (sc_RequestedPermissionModeID command))
          && bool_decide (sp_EffectivePermissionModeID reserved ≠ sp_EffectivePermissionModeID capability)))
  then inl (Err "applied settings finalization does not match the request")
  else if negb applied && negb (validSettingsReason (sf_ReasonCode finalize))
  then inl (Err "non-applied settings finalization requires a bounded reason")
  else if bool_decide (sf_ExpectedStatus finalize = SettingsCommandDeliveryPending) then
    if is_some (sf_Writer finalize) || bool_decide (sf_Outcome finalize ≠ SettingsCommandRejected)
       || bool_decide (sf_ReasonCode finalize ≠ Some "adapter_delivery_failed")
       || bool_decide (nowMS < UnixMilli (sc_DeliveryDeadline command))
    then inl (Err "delivery-pending settings command may only reject") else inr tt
  else if bool_decide (sf_ExpectedStatus finalize = SettingsCommandPending) then
    if is_some (sf_Writer finalize)
       && (negb (is_some (sc_OperationDeadline command)) || deadline_over (sc_OperationDeadline command) nowMS)
    then inl (Err "settings operation deadline has elapsed")
    else if negb (is_some (sf_Writer finalize))
       && (bool_decide (sf_Outcome finalize ≠ SettingsCommandTimeout)
           || negb (deadline_over (sc_OperationDeadline command) nowMS))
    then inl (Err "unbound pending settings finalization requires an elapsed operation deadline") else inr tt
  else if bool_decide (sf_ExpectedStatus finalize = SettingsCommandRecoveryPending) then
    if is_some (sf_Writer finalize) || bool_decide (sf_Outcome finalize ≠ SettingsCommandOutcomeUnknown)
       || bool_decide (sp_Writer capability = sc_Writer command)
       || bool_decide (sp_EventSeq capability ≤ sp_EventSeq reserved)
    then inl (Err "recovery-pending settings command may only finalize unknown without an old writer") else inr tt
  else inl (Err "settings finalization expected status is not nonterminal").

(** ** Reading *)

Definition scan_settings_capability (sessionID : string) (r : settings_capability_row) : SettingsCapability :=
  mkSettingsCapability sessionID (sp_event_seq r) (sp_fingerprint r) (sp_effective_model_id r)
    (sp_effective_reasoning_effort_id r) (sp_effective_permission_mode_id r) (sp_capability_version r) (sp_writer r).

Definition update_of (c : SettingsCapability) : SettingsCapabilityUpdate :=
  mkSettingsUpdate (sp_EventSeq c) (sp_Fingerprint c) (sp_EffectiveModelID c) (sp_EffectiveReasoningEffortID c)
    (sp_EffectivePermissionModeID c) (sp_Writer c).

Definition valid_capability (c : SettingsCapability) : bool :=
  validSettingsCapabilityUpdate (sp_SessionID c) (update_of c) && bool_decide (1 ≤ sp_Version c).

Definition querySettingsCapability (sessionID : string) : M SettingsCapability :=
  r ← query_row (λ d, settings_capabilities d !! sessionID);
  let capability := scan_settings_capability sessionID r in
  fail_if (negb (valid_capability capability)) (Err "settings capability row is invalid") ≫= λ _,
  mret capability.

Definition scan_settings_command (sessionID commandID : string) (r : settings_command_row) : SettingsCommand :=
  mkSettingsCommand sessionID commandID (sc_request_fingerprint r) (sc_requested_model_id r)
    (sc_requested_reasoning_effort_id r) (sc_requested_permission_mode_id r) (sc_reservation_version r)
    (of_UnixMilli (sc_delivery_deadline_ms r)) (of_UnixMilli <$> sc_operation_deadline_ms r) (sc_writer r)
    (mkSettingsCapability sessionID (sc_reserved_capability_event_seq r) (sc_reserved_fingerprint r)
       (sc_reserved_effective_model_id r) (sc_reserved_effective_reasoning_effort_id r)
       (sc_reserved_effective_permission_mode_id r) 0 (sc_writer r))
    (sc_status r) (sc_terminal_event_seq r).

Definition querySettingsCommand (sessionID commandID : string) : M SettingsCommand :=
  r ← query_row (λ d, settings_commands d !! (sessionID, commandID));
  let command := scan_settings_command sessionID commandID r in
  fail_if (negb (validSettingsCommandRow command)) (Err "settings command row is invalid") ≫= λ _,
  mret command.

Definition verifySettingsCapabilityEvent (sessionID : string) (eventSeq : Z) : M unit :=
  fail_if (bool_decide (eventSeq < 1)) (Err "settings capability event reference is invalid") ≫= λ _,
  e ← query (event_at sessionID eventSeq);
  fail_if (negb (match e with Some e => bool_decide (er_type e = "session.settings.capabilities") | None => false end))
    (Err "settings capability event is not durable").

Definition validateCurrentSettingsWriter (sessionID : string) (writer : SettingsWriter) : M unit :=
  row ← query (λ d, settings_capabilities d !! sessionID);
  fail_if (negb (match row with Some r => bool_decide (sp_writer r = writer) | None => false end))
    (Err "settings writer is no longer current") ≫= λ _,
  validateLiveSettingsWriter sessionID writer.

Definition authority_of (writer : SettingsWriter) : CommandAuthority :=
  mkAuthority (ConnectionEpoch writer) (CredentialGeneration writer).

(** ** Writing *)

Definition writer_checks (writer : SettingsWriter) : bool :=
  bool_decide (0 < ConnectionEpoch writer) && bool_decide (0 < CredentialGeneration writer) &&
  text_between 1 (LeaseID writer) 255.

Definition fingerprint_checks (value : string) : bool :=
  bool_decide (sql_length value = 71) && String.prefix "sha256:" value.

(** The CHECKs of [session_settings_capabilities]. *)
Definition settings_capability_checks (sessionID : string) (r : settings_capability_row) : bool :=
  text_between 1 sessionID 255 && fingerprint_checks (sp_fingerprint r) &&
  text_between 1 (sp_effective_model_id r) 128 &&
  null_or (sp_effective_reasoning_effort_id r) (λ v, text_between 1 v 128) &&
  text_between 1 (sp_effective_permission_mode_id r) 128 && bool_decide (0 < sp_capability_version r) &&
  writer_checks (sp_writer r).

(** [INSERT ... ON CONFLICT(session_id) DO UPDATE] *)
Definition upsert_settings_capability (sessionID : string) (update : SettingsCapabilityUpdate) (nowMS : Z) : M unit :=
  d ← query id;
  let row version created := mkSettingsCapabilityRow (su_EventSeq update) (su_Fingerprint update)
        (su_EffectiveModelID update) (su_EffectiveReasoningEffortID update) (su_EffectivePermissionModeID update)
        version (su_Writer update) created nowMS in
  let new := match settings_capabilities d !! sessionID with
    | None => row 1 nowMS
    | Some old => row (sp_capability_version old + 1) (sp_created_at_ms old)
    end in
  check "session_settings_capabilities" (settings_capability_checks sessionID new) ≫= λ _,
  check "FOREIGN KEY" (bool_decide (is_Some (event_at sessionID (su_EventSeq update) d))) ≫= λ _,
  exec (upd_settings_capabilities (<[sessionID := new]>)).

Definition PublishSettingsCapability (sessionID : string) (update : SettingsCapabilityUpdate) : M SettingsCapability :=
  fail_if (negb (validSettingsCapabilityUpdate sessionID update)) (Err "invalid settings capability") ≫= λ _,
  with_tx (
    nowMS ← nowMillis;
    lockCommandAuthority sessionID (authority_of (su_Writer update)) ≫= λ _,
    validateLiveSettingsWriter sessionID (su_Writer update) ≫= λ _,
    verifySettingsCapabilityEvent sessionID (su_EventSeq update) ≫= λ _,
    on_error (Wrap "upsert settings capability") (upsert_settings_capability sessionID update nowMS) ≫= λ _,
    querySettingsCapability sessionID).

(** ** The ledger of requests *)

Definition settings_open (r : settings_command_row) : bool := validSettingsNonterminalStatus (sc_status r).

Definition open_settings (sessionID : string) (d : DB) : list (string * settings_command_row) :=
  omap (λ kr : string * string * settings_command_row,
          if bool_decide (kr.1.1 = sessionID) && settings_open kr.2 then Some (kr.1.2, kr.2) else None)
    (map_to_list (settings_commands d)).

(** The CHECKs of [session_settings_commands]. *)
Definition settings_checks (sessionID commandID : string) (r : settings_command_row) : bool :=
  text_between 1 sessionID 255 && text_between 1 commandID 256 && fingerprint_checks (sc_request_fingerprint r) &&
  null_or (sc_requested_model_id r) (λ v, text_between 1 v 128) &&
  null_or (sc_requested_reasoning_effort_id r) (λ v, text_between 1 v 128) &&
  null_or (sc_requested_permission_mode_id r) (λ v, text_between 1 v 128) &&
  bool_decide (0 < sc_reservation_version r) && writer_checks (sc_writer r) &&
  fingerprint_checks (sc_reserved_fingerprint r) && text_between 1 (sc_reserved_effective_model_id r) 128 &&
  null_or (sc_reserved_effective_reasoning_effort_id r) (λ v, text_between 1 v 128) &&
  text_between 1 (sc_reserved_effective_permission_mode_id r) 128 && validSettingsStatus (sc_status r) &&
  (is_some (sc_requested_model_id r) || is_some (sc_requested_reasoning_effort_id r)
   || is_some (sc_requested_permission_mode_id r)) &&
  ((bool_decide (sc_status r = "delivery_pending") && negb (is_some (sc_operation_deadline_ms r))
      && negb (is_some (sc_terminal_event_seq r)))
   || (bool_decide (sc_status r ∈ ["pending"; "recovery_pending"]) && is_some (sc_operation_deadline_ms r)
      && negb (is_some (sc_terminal_event_seq r)))
   || (validSettingsTerminalStatus (sc_status r) && is_some (sc_terminal_event_seq r))) &&
  bool_decide (sc_created_at_ms r < sc_delivery_deadline_ms r) &&
  bool_decide (sc_delivery_deadline_ms r ≤ sc_created_at_ms r + 5000) &&
  null_or (sc_operation_deadline_ms r)
    (λ t, bool_decide (sc_created_at_ms r < t) && bool_decide (t ≤ sc_created_at_ms r + 35000)).

(** The FOREIGN KEYs of [session_settings_commands]. *)
Definition settings_references (sessionID : string) (d : DB) (r : settings_command_row) : bool :=
  bool_decide (is_Some (event_at sessionID (sc_reserved_capability_event_seq r) d)) &&
  null_or (sc_terminal_event_seq r) (λ seq, bool_decide (is_Some (event_at sessionID seq d))).

Definition insert_settings_command (sessionID commandID : string) (r : settings_command_row) : M unit :=
  d ← query id;
  check "session_settings_commands" (settings_checks sessionID commandID r) ≫= λ _,
  check "session_settings_commands.session_id, session_settings_commands.cmd_id"
    (negb (is_some (settings_commands d !! (sessionID, commandID)))) ≫= λ _,
  check "session_settings_commands_one_nonterminal_idx"
    (match open_settings sessionID d with [] => true | _ => false end) ≫= λ _,
  check "FOREIGN KEY" (settings_references sessionID d r) ≫= λ _,
  exec (upd_settings_commands (<[(sessionID, commandID) := r]>)).

(** [UPDATE session_settings_commands SET ... WHERE session_id=? AND cmd_id=? AND ...]: rows changed. *)
Definition update_settings_command (sessionID commandID : string) (wher : settings_command_row → bool)
    (set : settings_command_row → settings_command_row) : M Z :=
  d ← query id;
  match settings_commands d !! (sessionID, commandID) with
  | Some r =>
      if wher r then
        check "session_settings_commands" (settings_checks sessionID commandID (set r)) ≫= λ _,
        check "FOREIGN KEY" (settings_references sessionID d (set r)) ≫= λ _,
        exec (upd_settings_commands (<[(sessionID, commandID) := set r]>)) ≫= λ _,
        mret 1
      else mret 0
  | None => mret 0
  end.

(** The columns the three UPDATEs set. *)
Definition progress_row (status : string) (operationDeadline terminalSeq : option Z) (nowMS : Z)
    (r : settings_command_row) : settings_command_row :=
  mkSettingsCommandRow (sc_request_fingerprint r) (sc_requested_model_id r) (sc_requested_reasoning_effort_id r)
    (sc_requested_permission_mode_id r) (sc_reservation_version r) (sc_delivery_deadline_ms r) operationDeadline
    (sc_writer r) (sc_reserved_capability_event_seq r) (sc_reserved_fingerprint r) (sc_reserved_effective_model_id r)
    (sc_reserved_effective_reasoning_effort_id r) (sc_reserved_effective_permission_mode_id r) status terminalSeq
    (sc_created_at_ms r) nowMS.

Definition finish_setting (outcome : string) (seq nowMS : Z) (r : settings_command_row) : settings_command_row :=
  progress_row outcome (sc_operation_deadline_ms r) (Some seq) nowMS r.

(** ** Operations *)

Definition same_request (existing : SettingsCommand) (request : SettingsCommandRequest) : bool :=
  bool_decide (sc_RequestFingerprint existing = sq_RequestFingerprint request) &&
  sameSettingsOptionalID (sc_RequestedModelID existing) (sq_RequestedModelID request) &&
  sameSettingsOptionalID (sc_RequestedReasoningEffortID existing) (sq_RequestedReasoningEffortID request) &&
  sameSettingsOptionalID (sc_RequestedPermissionModeID existing) (sq_RequestedPermissionModeID request).

(** The row [SettingsCommandReserve] inserts. *)
Definition reserved_setting (request : SettingsCommandRequest) (capability : SettingsCapability) (nowMS : Z)
    : settings_command_row :=
  mkSettingsCommandRow (sq_RequestFingerprint request) (sq_RequestedModelID request)
    (sq_RequestedReasoningEffortID request) (sq_RequestedPermissionModeID request) 1 (i64 (nowMS + 5000)) None
    (sq_Writer request) (sp_EventSeq capability) (sp_Fingerprint capability) (sp_EffectiveModelID capability)
    (sp_EffectiveReasoningEffortID capability) (sp_EffectivePermissionModeID capability) "delivery_pending" None
    nowMS nowMS.

Definition SettingsCommandReserve (sessionID : string) (request : SettingsCommandRequest)
    : M SettingsCommandReserveResult :=
  fail_if (negb (validSettingsCommandRequest sessionID request)) (Err "invalid settings command reservation") ≫= λ _,
  with_tx (
    nowMS ← nowMillis;
    lockCommandAuthority sessionID (authority_of (sq_Writer request)) ≫= λ _,
    validateCurrentSettingsWriter sessionID (sq_Writer request) ≫= λ _,
    capability ← on_error (Wrap "select settings capability") (querySettingsCapability sessionID);
    existing ← try_ (querySettingsCommand sessionID (sq_CommandID request));
    match existing with
    | inr existing =>
        fail_if (negb (same_request existing request)) (Err "settings command ID is reused") ≫= λ _,
        mret (mkSettingsReserve existing true)
    | inl err =>
        fail_if (negb (is_no_rows err)) err ≫= λ _,
        fail_if (bool_decide (sp_Fingerprint capability ≠ sq_RequestFingerprint request)
                 || bool_decide (sp_Writer capability ≠ sq_Writer request))
          (Err "settings capability is stale or writer is fenced") ≫= λ _,
        on_error (Wrap "insert settings reservation")
          (insert_settings_command sessionID (sq_CommandID request) (reserved_setting request capability nowMS)) ≫= λ _,
        command ← querySettingsCommand sessionID (sq_CommandID request);
        mret (mkSettingsReserve command false)
    end).

Definition AcknowledgeSettingsCommandDelivery (sessionID commandID : string) (reservationVersion : Z)
    (writer : SettingsWriter) : M SettingsCommand :=
  fail_if (negb (validConnectionID sessionID) || bool_decide (commandID = "") || bool_decide (reservationVersion < 1)
           || negb (validSettingsWriter writer)) (Err "invalid settings delivery acknowledgement") ≫= λ _,
  with_tx (
    nowMS ← nowMillis;
    lockCommandAuthority sessionID (authority_of writer) ≫= λ _,
    validateCurrentSettingsWriter sessionID writer ≫= λ _,
    command ← querySettingsCommand sessionID commandID;
    fail_if (bool_decide (sc_ReservationVersion command ≠ reservationVersion)
             || bool_decide (sc_Writer command ≠ writer)
             || bool_decide (sc_Status command ≠ SettingsCommandDeliveryPending)
             || bool_decide (UnixMilli (sc_DeliveryDeadline command) ≤ nowMS))
      (Err "settings delivery acknowledgement is fenced") ≫= λ _,
    changed ← on_error (Wrap "acknowledge settings delivery")
      (update_settings_command sessionID commandID
         (λ r, bool_decide (sc_reservation_version r = reservationVersion)
               && bool_decide (sc_status r = "delivery_pending") && bool_decide (nowMS < sc_delivery_deadline_ms r)
               && bool_decide (sc_writer r = writer))
         (λ r, progress_row "pending" (Some (i64 (nowMS + 30000))) (sc_terminal_event_seq r) nowMS r));
    fail_if (bool_decide (changed ≠ 1)) (Err "settings delivery acknowledgement lost race") ≫= λ _,
    querySettingsCommand sessionID commandID).

Definition SettingsTerminalEventPayload (command : SettingsCommand) (capability : SettingsCapability) (outcome : string)
    (reason : option string) : string :=
  Json.marshalStruct [("cmd_id", Json.marshalString (sc_CommandID command));
    ("request_fingerprint", Json.marshalString (sc_RequestFingerprint command));
    ("effective_fingerprint", Json.marshalString (sp_Fingerprint capability));
    ("outcome", Json.marshalString outcome);
    ("effective_model_id", Json.marshalString (sp_EffectiveModelID capability));
    ("effective_reasoning_effort_id", Json.marshalOption (sp_EffectiveReasoningEffortID capability));
    ("effective_permission_mode_id", Json.marshalString (sp_EffectivePermissionModeID capability));
    ("reason_code", Json.marshalOption reason)].

Definition RecoverSettingsCommand (sessionID commandID : string) (priorWriter : SettingsWriter) : M SettingsCommand :=
  fail_if (negb (validConnectionID sessionID) || bool_decide (commandID = "")
           || negb (validSettingsWriter priorWriter)) (Err "invalid settings recovery") ≫= λ _,
  with_tx (
    nowMS ← nowMillis;
    command ← querySettingsCommand sessionID commandID;
    fail_if (bool_decide (sc_Writer command ≠ priorWriter)) (Err "settings recovery lost writer fence") ≫= λ _,
    (if bool_decide (sc_Status command = SettingsCommandDeliveryPending) then
       fail_if (bool_decide (nowMS < UnixMilli (sc_DeliveryDeadline command)))
         (Err "settings delivery deadline has not elapsed") ≫= λ _,
       seq ← appendRunControlEvent sessionID "session.settings.effective"
         (SettingsTerminalEventPayload command (sc_ReservedCapability command) SettingsCommandRejected
            (Some "adapter_delivery_failed")) nowMS;
       changed ← on_error (λ _, Err "settings delivery deadline finalization lost race")
         (update_settings_command sessionID commandID
            (λ r, bool_decide (sc_status r = "delivery_pending") && bool_decide (sc_delivery_deadline_ms r ≤ nowMS)
                  && negb (is_some (sc_terminal_event_seq r)))
            (finish_setting "rejected" seq nowMS));
       fail_if (bool_decide (changed ≠ 1)) (Err "settings delivery deadline finalization lost race")
     else
       fail_if (bool_decide (sc_Status command ≠ SettingsCommandPending))
         (Err "settings recovery requires a pending command") ≫= λ _,
       capability ← on_error (λ _, Err "settings recovery requires a fresh replacement writer")
         (querySettingsCapability sessionID);
       fail_if (bool_decide (sp_Writer capability = priorWriter)
                || bool_decide (sp_EventSeq capability ≤ sp_EventSeq (sc_ReservedCapability command)))
         (Err "settings recovery requires a fresh replacement writer") ≫= λ _,
       on_error (λ _, Err "settings recovery replacement writer is not live")
         (validateLiveSettingsWriter sessionID (sp_Writer capability)) ≫= λ _,
       changed ← on_error (Wrap "fence settings writer for recovery")
         (update_settings_command sessionID commandID
            (λ r, bool_decide (sc_status r = "pending") && bool_decide (sc_writer r = priorWriter))
            (λ r, progress_row "recovery_pending" (sc_operation_deadline_ms r) (sc_terminal_event_seq r) nowMS r));
       fail_if (bool_decide (changed ≠ 1)) (Err "settings recovery lost writer fence")) ≫= λ _,
    querySettingsCommand sessionID commandID).

Definition settings_finalize_valid (sessionID commandID : string) (finalize : SettingsCommandFinalize) : bool :=
  negb (negb (validConnectionID sessionID) || bool_decide (commandID = "")
        || bool_decide (sf_ReservationVersion finalize < 1)
        || negb (validSettingsNonterminalStatus (sf_ExpectedStatus finalize))
        || negb (validSettingsTerminalStatus (sf_Outcome finalize))
        || negb (validSettingsCapabilityUpdate sessionID (update_of (sf_EffectiveCapability finalize)))
        || (bool_decide (sp_SessionID (sf_EffectiveCapability finalize) ≠ "")
            && bool_decide (sp_SessionID (sf_EffectiveCapability finalize) ≠ sessionID))).

Definition FinalizeSettingsCommand (sessionID commandID : string) (finalize : SettingsCommandFinalize)
    : M SettingsCommand :=
  fail_if (negb (settings_finalize_valid sessionID commandID finalize)) (Err "invalid settings finalization") ≫= λ _,
  with_tx (
    nowMS ← nowMillis;
    command ← querySettingsCommand sessionID commandID;
    fail_if (bool_decide (sc_ReservationVersion command ≠ sf_ReservationVersion finalize)
             || bool_decide (sc_Status command ≠ sf_ExpectedStatus finalize)
             || match sf_Writer finalize with Some w => bool_decide (sc_Writer command ≠ w) | None => false end)
      (Err "settings finalization is fenced") ≫= λ _,
    match sf_Writer finalize with
    | Some writer =>
        lockCommandAuthority sessionID (authority_of writer) ≫= λ _,
        validateCurrentSettingsWriter sessionID writer
    | None => mret tt
    end ≫= λ _,
    capability ← on_error (λ _, Err "effective settings capability is not current") (querySettingsCapability sessionID);
    fail_if (negb (sameSettingsCapability capability (sf_EffectiveCapability finalize)))
      (Err "effective settings capability is not current") ≫= λ _,
    lift (validateSettingsFinalization command capability finalize nowMS) ≫= λ _,
    seq ← on_error (Wrap "append settings terminal event")
      (appendRunControlEvent sessionID "session.settings.effective"
         (SettingsTerminalEventPayload command capability (sf_Outcome finalize) (sf_ReasonCode finalize)) nowMS);
    changed ← update_settings_command sessionID commandID
      (λ r, bool_decide (sc_reservation_version r = sf_ReservationVersion finalize)
            && bool_decide (sc_status r = sf_ExpectedStatus finalize) && negb (is_some (sc_terminal_event_seq r)))
      (finish_setting (sf_Outcome finalize) seq nowMS);
    fail_if (bool_decide (changed ≠ 1)) (Err "settings finalization lost race") ≫= λ _,
    querySettingsCommand sessionID commandID).

Definition GetSettingsCommand (sessionID commandID : string) : M SettingsCommand :=
  with_tx (querySettingsCommand sessionID commandID).

Definition by_settings_version (a b : string * settings_command_row) : Prop :=
  sc_reservation_version a.2 ≤ sc_reservation_version b.2.
#[global] Instance by_settings_version_dec a b : Decision (by_settings_version a b).
Proof. unfold by_settings_version. apply _. Defined.

Fixpoint load_settings (sessionID : string) (ids : list string) : M (list SettingsCommand) :=
  match ids with
  | [] => mret []
  | commandID :: ids =>
      command ← querySettingsCommand sessionID commandID;
      commands ← load_settings sessionID ids;
      mret (command :: commands)
  end.

Definition PendingSettingsCommands (sessionID : string) : M (list SettingsCommand) :=
  fail_if (negb (validConnectionID sessionID)) (Err "invalid settings pending Session") ≫= λ _,
  with_tx (
    rows ← query (λ d, merge_sort by_settings_version (open_settings sessionID d));
    load_settings sessionID (fst <$> rows)).

End Settings.
