(* ===== verification/FileReferences.v ===== *)
(** * File-reference commands of [store/sqlite/store.go]

    A user message that refers to files of the workspace is appended to the
    log together with an opaque record of the command; the live writer
    acknowledges it, and it ends once, as delivered, as rejected at one of its
    references, or as an outcome nobody knows.  At most one command of a
    Session is open. *)

From S2P Require Import Prelude StoreApi Json Sqlite Attention EventLog Connections Settings.
From stdpp Require Import base gmap strings list sorting pretty.
#[local] Open Scope Z_scope.

Module FileReferences.
Import Connections Settings.

(** ** Data *)

Definition FileReferenceDeliveryPending : string := "delivery_pending".
Definition FileReferencePending : string := "pending".
Definition FileReferenceDelivered : string := "delivered".
Definition FileReferenceRejected : string := "rejected".
Definition FileReferenceOutcomeUnknown : string := "outcome_unknown".

Record FileReferenceCapability := mkFileCapability {
  fp_SessionID : string;
  fp_EventSeq : Z;
  fp_Fingerprint : string;
  fp_Writer : SettingsWriter;
}.

Record FileReferenceCapabilityUpdate := mkFileUpdate {
  fu_EventSeq : Z;
  fu_Fingerprint : string;
  fu_Writer : SettingsWriter;
}.

Record FileReferenceCommand := mkFileCommand {
  fc_SessionID : string;
  fc_CommandID : string;
  fc_MessageID : string;
  fc_CapabilityFingerprint : string;
  fc_RequestFingerprint : string;
  fc_ReferenceCount : Z;
  fc_ReservationVersion : Z;
  fc_DeliveryDeadline : time;
  fc_Writer : option SettingsWriter;
  fc_Status : string;
  fc_TerminalEventSeq : option Z;
}.

Record FileReferenceCommandRequest := mkFileRequest {
  fq_CommandID : string;
  fq_MessageID : string;
  fq_CapabilityFingerprint : string;
  fq_RequestFingerprint : string;
  fq_ReferenceCount : Z;
}.

Record FileReferenceCommandReserve := mkFileReserve { fr_Command : FileReferenceCommand; fr_Duplicate : bool }.

Record FileReferenceCommandFinalize := mkFileFinalize {
  ff_ReservationVersion : Z;
  ff_Writer : option SettingsWriter;
  ff_Outcome : string;
  ff_ReasonCode : option string;
  ff_ReferenceIndex : option Z;
}.

(** ** Validation *)

Definition ValidFileReferenceTerminal (outcome : string) (referenceCount : Z) (reason : option string)
    (index : option Z) : bool :=
  if bool_decide (referenceCount < 1) || bool_decide (8 < referenceCount) then false
  else if bool_decide (outcome = FileReferenceDelivered) then negb (is_some reason) && negb (is_some index)
  else if bool_decide (outcome = FileReferenceRejected) then
    match reason, index with
    | Some reason, Some index =>
        bool_decide (0 ≤ index) && bool_decide (index < referenceCount) &&
        bool_decide (reason ∈ ["missing"; "removed"; "stale_reference"; "size_changed"; "media_type_changed";
          "image_unsupported"; "provider_unsupported"; "unsafe_path"; "quarantined"; "access_denied"])
    | _, _ => false
    end
  else if bool_decide (outcome = FileReferenceOutcomeUnknown) then
    match reason, index with
    | Some reason, None => bool_decide (reason ∈ ["delivery_unconfirmed"; "writer_lost"; "adapter_deadline"])
    | _, _ => false
    end
  else false.

Definition validFileReferenceCapabilityUpdate (sessionID : string) (update : FileReferenceCapabilityUpdate) : bool :=
  validConnectionID sessionID && bool_decide (0 < fu_EventSeq update) &&
  validSettingsFingerprint (fu_Fingerprint update) && validSettingsWriter (fu_Writer update).

Definition validFileReferenceRequest (sessionID : string) (request : FileReferenceCommandRequest) : bool :=
  validConnectionID sessionID && bool_decide (fq_CommandID request ≠ "") &&
  bool_decide (len (fq_CommandID request) ≤ 256) && bool_decide (fq_MessageID request ≠ "") &&
  bool_decide (len (fq_MessageID request) ≤ 256) && validSettingsFingerprint (fq_CapabilityFingerprint request) &&
  validSettingsFingerprint (fq_RequestFingerprint request) && bool_decide (1 ≤ fq_ReferenceCount request) &&
  bool_decide (fq_ReferenceCount request ≤ 8).

(** [json.Valid] *)
Definition valid_json (payload : string) : bool := is_some (Json.parse payload).

(** ** Reading *)

Definition queryFileReferenceCapability (sessionID : string) : M FileReferenceCapability :=
  row ← query (λ d, file_capabilities d !! sessionID);
  match row with
  | Some r =>
      if validFileReferenceCapabilityUpdate sessionID (mkFileUpdate (fp_event_seq r) (fp_fingerprint r) (fp_writer r))
      then mret (mkFileCapability sessionID (fp_event_seq r) (fp_fingerprint r) (fp_writer r))
      else throw (Err "file-reference capability row is invalid")
  | None => throw (Err "file-reference capability row is invalid")
  end.

Definition scan_file_command (sessionID commandID : string) (r : file_command_row) : FileReferenceCommand :=
  mkFileCommand sessionID commandID (fc_message_id r) (fc_capability_fingerprint r) (fc_request_fingerprint r)
    (fc_reference_count r) (fc_reservation_version r) (of_UnixMilli (fc_delivery_deadline_ms r)) (fc_writer r)
    (fc_status r) (fc_terminal_event_seq r).

Definition queryFileReferenceCommand (sessionID commandID : string) : M FileReferenceCommand :=
  r ← query_row (λ d, file_commands d !! (sessionID, commandID));
  mret (scan_file_command sessionID commandID r).

(** ** Publishing a capability *)

(** [INSERT ... ON CONFLICT(session_id) DO UPDATE ... WHERE capability_event_seq <
    excluded.capability_event_seq]: rows changed. *)
Definition upsert_file_capability (sessionID : string) (update : FileReferenceCapabilityUpdate) (nowMS : Z) : M Z :=
  d ← query id;
  let row created := mkFileCapabilityRow (fu_EventSeq update) (fu_Fingerprint update) (fu_Writer update) created nowMS in
  check "session_file_reference_capabilities"
    (text_between 1 sessionID 255 && bool_decide (sql_length (fu_Fingerprint update) = 71)
     && writer_checks (fu_Writer update)) ≫= λ _,
  check "FOREIGN KEY" (bool_decide (is_Some (event_at sessionID (fu_EventSeq update) d))) ≫= λ _,
  match file_capabilities d !! sessionID with
  | None => exec (upd_file_capabilities (<[sessionID := row nowMS]>)) ≫= λ _, mret 1
  | Some old =>
      if bool_decide (fp_event_seq old < fu_EventSeq update)
      then exec (upd_file_capabilities (<[sessionID := row (fp_created_at_ms old)]>)) ≫= λ _, mret 1
      else mret 0
  end.

Definition PublishFileReferenceCapability (sessionID : string) (update : FileReferenceCapabilityUpdate)
    : M FileReferenceCapability :=
  fail_if (negb (validFileReferenceCapabilityUpdate sessionID update)) (Err "invalid file-reference capability") ≫= λ _,
  with_tx (
    now ← nowMillis;
    lockCommandAuthority sessionID (authority_of (fu_Writer update)) ≫= λ _,
    validateLiveSettingsWriter sessionID (fu_Writer update) ≫= λ _,
    e ← query (event_at sessionID (fu_EventSeq update));
    fail_if (negb (match e with
                   | Some e => bool_decide (er_type e = "session.file_references.capabilities")
                   | None => false
                   end)) (Err "file-reference capability event is invalid") ≫= λ _,
    n ← upsert_file_capability sessionID update now;
    fail_if (bool_decide (n ≠ 1)) (Err "file-reference capability is stale") ≫= λ _,
    queryFileReferenceCapability sessionID).

(** ** Committing *)

(** The CHECKs of [session_file_reference_commands]. *)
Definition file_checks (sessionID commandID : string) (r : file_command_row) : bool :=
  text_between 1 sessionID 255 && text_between 1 commandID 256 && text_between 1 (fc_message_id r) 256 &&
  bool_decide (sql_length (fc_capability_fingerprint r) = 71) &&
  bool_decide (sql_length (fc_request_fingerprint r) = 71) &&
  bool_decide (1 ≤ fc_reference_count r) && bool_decide (fc_reference_count r ≤ 8) &&
  bool_decide (0 < fc_reservation_version r) &&
  bool_decide (fc_created_at_ms r < fc_delivery_deadline_ms r) &&
  bool_decide (fc_delivery_deadline_ms r ≤ fc_created_at_ms r + 600000) &&
  ((bool_decide (fc_status r = "delivery_pending") && negb (is_some (fc_writer r))
      && negb (is_some (fc_terminal_event_seq r)))
   || (bool_decide (fc_status r = "pending") && is_some (fc_writer r) && negb (is_some (fc_terminal_event_seq r)))
   || (bool_decide (fc_status r ∈ ["delivered"; "rejected"; "outcome_unknown"]) && is_some (fc_terminal_event_seq r))).

Definition file_references (sessionID : string) (d : DB) (r : file_command_row) : bool :=
  null_or (fc_terminal_event_seq r) (λ seq, bool_decide (is_Some (event_at sessionID seq d))).

Definition insert_file_command (sessionID commandID : string) (r : file_command_row) : M unit :=
  d ← query id;
  check "session_file_reference_commands" (file_checks sessionID commandID r) ≫= λ _,
  check "session_file_reference_commands.session_id, session_file_reference_commands.cmd_id"
    (negb (is_some (file_commands d !! (sessionID, commandID)))) ≫= λ _,
  check "session_file_reference_commands_one_nonterminal_idx"
    (match open_file_commands sessionID d with [] => true | _ => false end) ≫= λ _,
  exec (upd_file_commands (<[(sessionID, commandID) := r]>)).

Definition same_file_request (existing : FileReferenceCommand) (request : FileReferenceCommandRequest) : bool :=
  bool_decide (fc_MessageID existing = fq_MessageID request) &&
  bool_decide (fc_CapabilityFingerprint existing = fq_CapabilityFingerprint request) &&
  bool_decide (fc_RequestFingerprint existing = fq_RequestFingerprint request) &&
  bool_decide (fc_ReferenceCount existing = fq_ReferenceCount request).

Definition CommitFileReferenceCommand (sessionID : string) (message : PendingEvent)
    (request : FileReferenceCommandRequest) : M FileReferenceCommandReserve :=
  fail_if (negb (validFileReferenceRequest sessionID request) || bool_decide (pe_Type message ≠ "session.message")
           || negb (valid_json (pe_Payload message))) (Err "invalid file-reference command") ≫= λ _,
  with_tx (
    now ← nowMillis;
    existing ← try_ (queryFileReferenceCommand sessionID (fq_CommandID request));
    match existing with
    | inr existing =>
        fail_if (negb (same_file_request existing request)) (Err "file-reference command ID is reused") ≫= λ _,
        mret (mkFileReserve existing true)
    | inl err =>
        fail_if (negb (is_no_rows err)) err ≫= λ _,
        capability ← on_error (λ _, Err "file-reference capability is stale") (queryFileReferenceCapability sessionID);
        fail_if (bool_decide (fp_Fingerprint capability ≠ fq_CapabilityFingerprint request))
          (Err "file-reference capability is stale") ≫= λ _,
        on_error (λ _, Err "file-reference capability is stale")
          (validateLiveSettingsWriter sessionID (fp_Writer capability)) ≫= λ _,
        appendRunControlEvent sessionID (pe_Type message) (pe_Payload message) now ≫= λ _,
        insert_file_command sessionID (fq_CommandID request)
          (mkFileCommandRow (fq_MessageID request) (fq_CapabilityFingerprint request) (fq_RequestFingerprint request)
             (fq_ReferenceCount request) 1 (i64 (now + 600000)) None "delivery_pending" None now now) ≫= λ _,
        command ← queryFileReferenceCommand sessionID (fq_CommandID request);
        mret (mkFileReserve command false)
    end).

(** [UPDATE session_file_reference_commands SET ... WHERE session_id=? AND cmd_id=? AND ...]: rows changed. *)
Definition update_file_command (sessionID commandID : string) (wher : file_command_row → bool)
    (set : file_command_row → file_command_row) : M Z :=
  d ← query id;
  match file_commands d !! (sessionID, commandID) with
  | Some r =>
      if wher r then
        check "session_file_reference_commands" (file_checks sessionID commandID (set r)) ≫= λ _,
        check "FOREIGN KEY" (file_references sessionID d (set r)) ≫= λ _,
        exec (upd_file_commands (<[(sessionID, commandID) := set r]>)) ≫= λ _,
        mret 1
      else mret 0
  | None => mret 0
  end.

Definition acknowledged_row (writer : SettingsWriter) (now : Z) (r : file_command_row) : file_command_row :=
  mkFileCommandRow (fc_message_id r) (fc_capability_fingerprint r) (fc_request_fingerprint r) (fc_reference_count r)
    (fc_reservation_version r) (fc_delivery_deadline_ms r) (Some writer) "pending" (fc_terminal_event_seq r)
    (fc_created_at_ms r) now.

Definition AcknowledgeFileReferenceDelivery (sessionID commandID : string) (version : Z) (writer : SettingsWriter)
    : M FileReferenceCommand :=
  with_tx (
    fail_if (negb (validConnectionID sessionID) || negb (validSettingsWriter writer) || bool_decide (version < 1))
      (Err "invalid file-reference delivery") ≫= λ _,
    now ← nowMillis;
    lockCommandAuthority sessionID (authority_of writer) ≫= λ _,
    validateLiveSettingsWriter sessionID writer ≫= λ _,
    capability ← on_error (λ _, Err "file-reference writer is fenced") (queryFileReferenceCapability sessionID);
    fail_if (bool_decide (fp_Writer capability ≠ writer)) (Err "file-reference writer is fenced") ≫= λ _,
    n ← update_file_command sessionID commandID
      (λ r, bool_decide (fc_reservation_version r = version) && bool_decide (fc_status r = "delivery_pending")
            && bool_decide (now < fc_delivery_deadline_ms r))
      (acknowledged_row writer now);
    fail_if (bool_decide (n ≠ 1)) (Err "file-reference delivery is fenced") ≫= λ _,
    queryFileReferenceCommand sessionID commandID).

(** ** Ending *)

Definition file_terminal_payload (command : FileReferenceCommand) (outcome : string) (index : option Z)
    (reason : option string) : string :=
  Json.marshalStruct [("message_id", Json.marshalString (fc_MessageID command));
    ("cmd_id", Json.marshalString (fc_CommandID command)); ("outcome", Json.marshalString outcome);
    ("reference_index", match index with Some i => pretty i | None => "null" end);
    ("reason", Json.marshalOption reason)].

Definition FinalizeFileReferenceCommand (sessionID commandID : string) (finalize : FileReferenceCommandFinalize)
    : M FileReferenceCommand :=
  fail_if (negb (validConnectionID sessionID) || bool_decide (commandID = "")
           || bool_decide (ff_ReservationVersion finalize < 1)
           || bool_decide (ff_Outcome finalize ∉ [FileReferenceDelivered; FileReferenceRejected; FileReferenceOutcomeUnknown]))
    (Err "invalid file-reference finalization") ≫= λ _,
  with_tx (
    now ← nowMillis;
    command ← queryFileReferenceCommand sessionID commandID;
    fail_if (bool_decide (fc_ReservationVersion command ≠ ff_ReservationVersion finalize)
             || bool_decide (fc_Status command ≠ FileReferencePending)
             || negb (ValidFileReferenceTerminal (ff_Outcome finalize) (fc_ReferenceCount command)
                        (ff_ReasonCode finalize) (ff_ReferenceIndex finalize)))
      (Err "file-reference finalization is fenced") ≫= λ _,
    (if bool_decide (ff_Outcome finalize ≠ FileReferenceOutcomeUnknown) then
       match ff_Writer finalize, fc_Writer command with
       | Some writer, Some owner =>
           fail_if (bool_decide (writer ≠ owner)) (Err "file-reference writer finalization is fenced") ≫= λ _,
           lockCommandAuthority sessionID (authority_of writer) ≫= λ _,
           validateLiveSettingsWriter sessionID writer ≫= λ _,
           capability ← on_error (λ _, Err "file-reference capability is fenced") (queryFileReferenceCapability sessionID);
           fail_if (bool_decide (fp_Writer capability ≠ writer)
                    || bool_decide (fp_Fingerprint capability ≠ fc_CapabilityFingerprint command))
             (Err "file-reference capability is fenced")
       | _, _ => throw (Err "file-reference writer finalization is fenced")
       end
     else mret tt) ≫= λ _,
    seq ← appendRunControlEvent sessionID "session.file_references.outcome"
      (file_terminal_payload command (ff_Outcome finalize) (ff_ReferenceIndex finalize) (ff_ReasonCode finalize)) now;
    n ← update_file_command sessionID commandID
      (λ r, bool_decide (fc_reservation_version r = ff_ReservationVersion finalize)
            && bool_decide (fc_status r = "pending") && negb (is_some (fc_terminal_event_seq r)))
      (finish_file_command (ff_Outcome finalize) seq now);
    fail_if (bool_decide (n ≠ 1)) (Err "file-reference terminal update is fenced") ≫= λ _,
    queryFileReferenceCommand sessionID commandID).

Definition GetFileReferenceCommand (sessionID commandID : string) : M FileReferenceCommand :=
  queryFileReferenceCommand sessionID commandID.

Definition RecoverFileReferenceCommand (sessionID commandID reason : string) : M FileReferenceCommand :=
  command ← GetFileReferenceCommand sessionID commandID;
  if bool_decide (fc_Status command ≠ FileReferenceDeliveryPending) then
    FinalizeFileReferenceCommand sessionID commandID
      (mkFileFinalize (fc_ReservationVersion command) None FileReferenceOutcomeUnknown (Some reason) None)
  else
  fail_if (bool_decide (reason ≠ "adapter_deadline"))
    (Err "file-reference delivery recovery requires adapter deadline") ≫= λ _,
  with_tx (
    now ← nowMillis;
    command ← queryFileReferenceCommand sessionID commandID;
    fail_if (bool_decide (fc_Status command ≠ FileReferenceDeliveryPending)
             || After (fc_DeliveryDeadline command) (of_UnixMilli now))
      (Err "file-reference delivery recovery is fenced") ≫= λ _,
    seq ← appendRunControlEvent sessionID "session.file_references.outcome"
      (file_terminal_payload command FileReferenceOutcomeUnknown None (Some reason)) now;
    n ← update_file_command sessionID commandID
      (λ r, bool_decide (fc_reservation_version r = fc_ReservationVersion command)
            && bool_decide (fc_status r = "delivery_pending") && bool_decide (fc_delivery_deadline_ms r ≤ now)
            && negb (is_some (fc_terminal_event_seq r)))
      (finish_file_command "outcome_unknown" seq now);
    fail_if (bool_decide (n ≠ 1)) (Err "file-reference delivery recovery is fenced") ≫= λ _,
    queryFileReferenceCommand sessionID commandID).

Definition by_file_version (a b : string * file_command_row) : Prop :=
  fc_reservation_version a.2 ≤ fc_reservation_version b.2.
#[global] Instance by_file_version_dec a b : Decision (by_file_version a b).
Proof. unfold by_file_version. apply _. Defined.

Fixpoint load_files (sessionID : string) (ids : list string) : M (list FileReferenceCommand) :=
  match ids with
  | [] => mret []
  | commandID :: ids =>
      command ← GetFileReferenceCommand sessionID commandID;
      commands ← load_files sessionID ids;
      mret (command :: commands)
  end.

Definition PendingFileReferenceCommands (sessionID : string) : M (list FileReferenceCommand) :=
  rows ← query (λ d, merge_sort by_file_version (open_file_commands sessionID d));
  load_files sessionID (fst <$> rows).

End FileReferences.
