(* ===== verification/Invariant.v ===== *)
(** * What every operation of the SQLite Store keeps

    [store_inv] is the invariant of the whole database: dense logs, honest
    attention summaries, well-formed connections whose fences come from the
    allocator, and references that point at events of their Session.
    [evolves] is what may happen over time: logs only grow at their end,
    connections only move forwards and never come back to life, a claimed
    command is never claimed again, an outcome is never revised, and a fence
    is never given back, not even by a transaction that fails.

    [sound m]: from any state satisfying the invariant, [m] ends, whether it
    returns or fails, in a state that satisfies it and evolved from the first.
    [tsound m] asks less of a failure, for code that only runs inside a
    transaction that a failure undoes.  The operations of the other files are
    sound; the properties of the Store follow for every sequence of operations. *)

From S2P Require Import Prelude StoreApi Sqlite Attention EventLog AttentionSpec Connections.
From S2P Require Import Settings FileReferences.
From stdpp Require Import base gmap strings list.
#[local] Open Scope Z_scope.

Module Invariant.
Import EventLog AttentionSpec Connections Settings FileReferences.

(** ** Rows over time *)

Record row_evolves (c c' : connection_row) : Prop := {
  re_created : cr_created_at_ms c' = cr_created_at_ms c;
  re_epoch : cr_connection_epoch c ≤ cr_connection_epoch c';
  re_fence : cr_accepted_fence c ≤ cr_accepted_fence c';
  re_high : cr_credential_generation_high_watermark c ≤ cr_credential_generation_high_watermark c';
  re_generation : cr_active_credential_generation c ≤ cr_active_credential_generation c';
  re_live : live c = false → live c' = false;
}.

Definition status_le (a b : string) : Prop :=
  a = b ∨ (a = "pending" ∧ b ∈ ["received"; "completed"; "outcome_unknown"]) ∨
  (a = "received" ∧ b ∈ ["completed"; "outcome_unknown"]).

Record command_evolves (c c' : command_row) : Prop := {
  ce_type : pc_type c' = pc_type c;
  ce_seq : pc_event_seq c' = pc_event_seq c;
  ce_expires : pc_expires_at_ns c' = pc_expires_at_ns c;
  ce_created : pc_created_at_ms c' = pc_created_at_ms c;
  ce_status : status_le (pc_status c) (pc_status c');
}.

Record control_evolves (r r' : run_control_row) : Prop := {
  cv_operation : rc_operation r' = rc_operation r;
  cv_writer : rc_writer r' = rc_writer r;
  cv_deadline : rc_deadline_ms r' = rc_deadline_ms r;
  cv_final : rc_status r ≠ "pending" → r' = r;
}.

Definition file_evolves (r r' : file_command_row) : Prop :=
  fc_message_id r' = fc_message_id r ∧ (file_command_open r = false → r' = r).

(** What a settings request is about: everything but its progress. *)
Definition setting_identity (r : settings_command_row) : settings_command_row := progress_row "" None None 0 r.

(** delivery_pending, pending, recovery_pending, ended *)
Definition setting_rank (r : settings_command_row) : nat :=
  if bool_decide (sc_status r = "delivery_pending") then 0
  else if bool_decide (sc_status r = "pending") then 1
  else if bool_decide (sc_status r = "recovery_pending") then 2 else 3.

Record settings_evolves (r r' : settings_command_row) : Prop := {
  se_identity : setting_identity r' = setting_identity r;
  se_rank : (setting_rank r ≤ setting_rank r')%nat;
  se_final : settings_open r = false → r' = r;
}.

(** An attachment keeps its identity; every change moves its version; a
    cancelled one stays as it is and one that was started stays started. *)
Record attachment_evolves (a a' : attachment_row) : Prop := {
  ae_bootstrap : ta_bootstrap_session_id a' = ta_bootstrap_session_id a;
  ae_target : ta_target_session_id a' = ta_target_session_id a;
  ae_lineage : ta_target_credential_lineage_ref a' = ta_target_credential_lineage_ref a;
  ae_version : ta_delivery_version a ≤ ta_delivery_version a';
  ae_same : ta_delivery_version a' = ta_delivery_version a → a' = a;
  ae_canceled : ta_status a = "canceled" → a' = a;
  ae_started : ta_status a = "start_received" → ta_status a' = "start_received";
}.

(** Every change of a workspace lease moves its version. *)
Record lease_evolves (r r' : lease_row) : Prop := {
  le_created : ls_created_at_ms r' = ls_created_at_ms r;
  le_version : ls_version r ≤ ls_version r';
  le_same : ls_version r' = ls_version r → r' = r;
}.

(** A table whose rows stay and change only as [R] allows. *)
Definition table_evolves `{Countable K} {V} (R : V → V → Prop) (m m' : gmap K V) : Prop :=
  ∀ k v, m !! k = Some v → ∃ v', m' !! k = Some v' ∧ R v v'.

(** The attempt was past its expiry at one of the clock readings in between. *)
Definition expired_between (w w' : World) (r : attach_attempt_row) : Prop := ∃ n,
  (tick w ≤ n < tick w')%nat ∧ at_expires_at_ns r ≤ clock w n * 1000000.

Record evolves (w w' : World) : Prop := {
  ev_clock : clock w' = clock w;
  ev_tick : (tick w ≤ tick w')%nat;
  ev_side : side_fence w ≤ side_fence w';
  ev_next : next_fence (db w) ≤ next_fence (db w');
  ev_log : ∀ sid, session_rows sid (db w) `prefix_of` session_rows sid (db w');
  ev_attention : table_evolves (λ _ _, True) (attention (db w)) (attention (db w'));
  ev_connections : table_evolves row_evolves (connections (db w)) (connections (db w'));
  ev_commands : table_evolves command_evolves (pending_commands (db w)) (pending_commands (db w'));
  ev_proposals : table_evolves eq (event_proposals (db w)) (event_proposals (db w'));
  ev_controls : table_evolves control_evolves (run_controls (db w)) (run_controls (db w'));
  ev_files : table_evolves file_evolves (file_commands (db w)) (file_commands (db w'));
  ev_attachments : table_evolves attachment_evolves (attachments (db w)) (attachments (db w'));
  ev_leases : table_evolves lease_evolves (leases (db w)) (leases (db w'));
  ev_settings : table_evolves settings_evolves (settings_commands (db w)) (settings_commands (db w'));
  ev_capabilities : table_evolves (λ _ _, True) (settings_capabilities (db w)) (settings_capabilities (db w'));
  ev_attempts : ∀ k r, attach_attempts (db w) !! k = Some r →
    attach_attempts (db w') !! k = Some r ∨ expired_between w w' r;
}.

#[global] Instance row_evolves_preorder : PreOrder row_evolves.
Proof. split; [by split|]. intros a b c [] []. split; try lia; try congruence. auto. Qed.

#[global] Instance status_le_preorder : PreOrder status_le.
Proof.
  split; [by left|]. intros a b c Hab Hbc. unfold status_le in *.
  destruct Hab as [->|[[-> Hb]|[-> Hb]]]; [done| |].
  - destruct Hbc as [->|[[-> Hc]|[-> Hc]]]; [naive_solver..|]. right. left. set_solver.
  - destruct Hbc as [->|[[-> Hc]|[-> Hc]]]; [naive_solver|set_solver..].
Qed.

#[global] Instance command_evolves_preorder : PreOrder command_evolves.
Proof.
  split; [by split|]. intros a b c [] []. split; try congruence. by etrans.
Qed.

#[global] Instance control_evolves_preorder : PreOrder control_evolves.
Proof.
  split; [by split|]. intros a b c [] []. split; try congruence.
  intros Ha. assert (b = a) as -> by auto. auto.
Qed.

#[global] Instance file_evolves_preorder : PreOrder file_evolves.
Proof.
  split; [by split|]. intros a b c [Hm Ho] [Hm' Ho']. split; [congruence|].
  intros Ha. specialize (Ho Ha). subst. auto.
Qed.

#[global] Instance attachment_evolves_preorder : PreOrder attachment_evolves.
Proof.
  split; [by split|]. intros a b c [] []. split; try congruence; try lia.
  - intros Hv. assert (c = b) as -> by (apply ae_same1; lia). apply ae_same0. lia.
  - intros Ha. specialize (ae_canceled0 Ha). subst b. auto.
  - auto.
Qed.

#[global] Instance lease_evolves_preorder : PreOrder lease_evolves.
Proof.
  split; [by split|]. intros a b c [] []. split; try congruence; try lia.
  intros Hv. assert (c = b) as -> by (apply le_same1; lia). apply le_same0. lia.
Qed.

#[global] Instance settings_evolves_preorder : PreOrder settings_evolves.
Proof.
  split; [by split|]. intros a b c [] []. split; try congruence; try lia.
  intros Ha. specialize (se_final0 Ha). subst b. auto.
Qed.

#[global] Instance table_evolves_preorder `{Countable K} {V} (R : V → V → Prop) :
  PreOrder R → PreOrder (table_evolves (K := K) R).
Proof.
  intros HR. split.
  - intros m k v Hv. exists v. split; [done|]. reflexivity.
  - intros m1 m2 m3 H12 H23 k v Hv. destruct (H12 k v Hv) as (v2 & Hv2 & H2).
    destruct (H23 k v2 Hv2) as (v3 & Hv3 & H3). exists v3. split; [done|]. by transitivity v2.
Qed.

#[global] Instance true_preorder V : PreOrder (λ _ _ : V, True).
Proof. by split. Qed.

#[global] Instance evolves_preorder : PreOrder evolves.
Proof.
  split; [split; try done; by left|]. intros a b c Hab Hbc.
  pose proof (ev_clock _ _ Hab) as Hclk. pose proof (ev_tick _ _ Hab). pose proof (ev_tick _ _ Hbc).
  pose proof (ev_attempts _ _ Hab) as Ha. pose proof (ev_attempts _ _ Hbc) as Hb.
  destruct Hab, Hbc. split; [congruence|lia|lia|lia| |..|].
  { intros sid. by transitivity (session_rows sid (db b)). }
  1-10: eapply (transitivity (R := table_evolves _)); eauto.
  intros k r Hr. destruct (Ha k r Hr) as [Hr'|(n & ? & ?)]; [|right; exists n; split; [lia|done]].
  destruct (Hb k r Hr') as [?|(n & ? & ?)]; [by left|]. right. exists n. rewrite <-Hclk. split; [lia|done].
Qed.

(** Updating or adding one row. *)
Lemma table_evolves_insert `{Countable K} {V} (R : V → V → Prop) `{!PreOrder R} (m : gmap K V) k v' :
  (∀ v, m !! k = Some v → R v v') → table_evolves R m (<[k := v']> m).
Proof.
  intros HR k' v Hv. destruct (decide (k = k')) as [<-|Hne].
  - exists v'. rewrite lookup_insert_eq. auto.
  - exists v. by rewrite lookup_insert_ne.
Qed.

(** ** The invariant *)

Record connection_ok (next : Z) (sid : string) (c : connection_row) : Prop := {
  co_checks : connection_checks sid c = true;
  co_fence : cr_accepted_fence c < next;
  co_pending : ∀ g, cr_pending_credential_generation c = Some g → cr_active_credential_generation c < g;
}.

(** [UNIQUE (target_session_id)] *)
Definition one_per_target (m : gmap string attachment_row) : Prop := ∀ k1 k2 a1 a2,
  m !! k1 = Some a1 → m !! k2 = Some a2 → ta_target_session_id a1 = ta_target_session_id a2 → k1 = k2.

(** [UNIQUE (session_id) WHERE status IN (...)] *)
Definition one_open {V} (open : V → bool) (m : gmap (string * string) V) : Prop := ∀ sid c1 c2 v1 v2,
  m !! (sid, c1) = Some v1 → m !! (sid, c2) = Some v2 → open v1 = true → open v2 = true → c1 = c2.

Definition none_open {V} (open : V → bool) (m : gmap (string * string) V) (sid : string) : Prop :=
  ∀ cmd v, m !! (sid, cmd) = Some v → open v = false.

Definition control_open (r : run_control_row) : bool := bool_decide (rc_status r = "pending").

(** A stored file-reference command passes the schema, its Session the checks of its readers. *)
Definition file_ok (k : string * string) (r : file_command_row) : Prop :=
  file_checks k.1 k.2 r = true ∧ validConnectionID k.1 = true.

(** A stored settings request passes the schema and the checks of its readers. *)
Definition setting_ok (k : string * string) (r : settings_command_row) : Prop :=
  validSettingsCommandRow (scan_settings_command k.1 k.2 r) = true ∧ settings_checks k.1 k.2 r = true.

Record store_inv (w : World) : Prop := {
  si_log : log_ok (db w);
  si_attention : attention_ok (db w);
  si_fence : 1 ≤ next_fence (db w) ≤ side_fence w ∧ side_fence w ≤ max_int64;
  si_connections : map_Forall (connection_ok (next_fence (db w))) (connections (db w));
  si_controls : map_Forall (λ k _, is_Some (attention (db w) !! k.1)) (run_controls (db w));
  si_files : map_Forall (λ k _, is_Some (attention (db w) !! k.1)) (file_commands (db w));
  si_commands : map_Forall (λ k c, 1 ≤ pc_event_seq c ≤ latest_seq k.1 (db w)) (pending_commands (db w));
  si_proposals : map_Forall (λ k p, 1 ≤ pp_event_seq p ≤ latest_seq k.1 (db w)) (event_proposals (db w));
  si_targets : one_per_target (attachments (db w));
  si_one_control : one_open control_open (run_controls (db w));
  si_one_file : one_open file_command_open (file_commands (db w));
  si_file_rows : map_Forall file_ok (file_commands (db w));
  si_file_capabilities : map_Forall (λ sid r, 1 ≤ fp_event_seq r ≤ latest_seq sid (db w)) (file_capabilities (db w));
  si_one_setting : one_open settings_open (settings_commands (db w));
  si_setting_rows : map_Forall setting_ok (settings_commands (db w));
  si_setting_events : map_Forall (λ k r, 1 ≤ sc_reserved_capability_event_seq r ≤ latest_seq k.1 (db w))
    (settings_commands (db w));
  si_setting_capability : map_Forall (λ k _, is_Some (settings_capabilities (db w) !! k.1)) (settings_commands (db w));
  si_capabilities : map_Forall (λ sid r, valid_capability (scan_settings_capability sid r) = true)
    (settings_capabilities (db w));
}.

Definition stepped (w w' : World) : Prop := store_inv w' ∧ evolves w w'.

(** What a failed transaction leaves behind for its rollback. *)
Record aborted (w w' : World) : Prop := {
  ab_clock : clock w' = clock w;
  ab_tick : (tick w ≤ tick w')%nat;
  ab_side : side_fence w ≤ side_fence w' ≤ max_int64;
}.

Definition sound_with (E : World → World → Prop) {A} (m : M A) : Prop := ∀ w, store_inv w →
  wp m (λ _ w', stepped w w') (λ _ w', E w w') w.

Notation sound := (sound_with stepped).
Notation tsound := (sound_with aborted).

Lemma stepped_refl w : store_inv w → stepped w w.
Proof. by split. Qed.

Lemma stepped_trans w1 w2 w3 : stepped w1 w2 → stepped w2 w3 → stepped w1 w3.
Proof. intros [_ H12] [H3 H23]. split; [done|]. by transitivity w2. Qed.

(** The two ways a failure may be judged. *)
Class Outcome (E : World → World → Prop) : Prop := {
  out_stepped w w' : stepped w w' → E w w';
  out_step w w1 w2 : stepped w w1 → E w1 w2 → E w w2;
}.

#[global] Instance stepped_outcome : Outcome stepped.
Proof. split; [done|]. intros. by eapply stepped_trans. Qed.

#[global] Instance aborted_outcome : Outcome aborted.
Proof.
  split.
  - intros w w' [Hinv Hev]. pose proof (si_fence _ Hinv). split; [apply Hev|apply Hev|].
    pose proof (ev_side _ _ Hev). lia.
  - intros w w1 w2 [Hinv Hev] []. pose proof (ev_side _ _ Hev). pose proof (ev_tick _ _ Hev).
    split; [|lia|lia]. rewrite ab_clock0. apply Hev.
Qed.

Lemma one_open_empty {V} (open : V → bool) : one_open open ∅.
Proof. intros ? ? ? ? ? H. by rewrite lookup_empty in H. Qed.

Lemma new_world_inv clk : store_inv (new_world clk).
Proof.
  split; simpl; try apply map_Forall_empty; try apply one_open_empty.
  - apply log_ok_empty.
  - apply attention_ok_empty.
  - unfold max_int64. lia.
  - intros ? ? ? ? H. by rewrite lookup_empty in H.
Qed.

(** ** Elementary steps *)

(** Parts of the invariant and of the evolution a step leaves alone. *)
Ltac unchanged := simpl; try done; try (by left); try (by intros; left).

(** The part of the database [store_inv] and [evolves] look at. *)
Definition core (d : DB) :=
  (session_events d, attention d, connections d, pending_commands d, event_proposals d,
   run_controls d, file_commands d, attachments d, leases d, settings_commands d, settings_capabilities d,
   file_capabilities d, attach_attempts d, next_fence d).

Lemma core_inv w w' :
  core (db w') = core (db w) → side_fence w' = side_fence w → store_inv w → store_inv w'.
Proof.
  destruct w as [[] ???], w' as [[] ???]. unfold core. simpl. intros [= -> -> -> -> -> -> -> -> -> -> -> -> -> ->] ->.
  intros Hw. destruct Hw. split; assumption.
Qed.

Lemma core_evolves w w' :
  core (db w') = core (db w) → side_fence w' = side_fence w → clock w' = clock w →
  (tick w ≤ tick w')%nat → evolves w w'.
Proof.
  destruct w as [[] ???], w' as [[] ???]. unfold core. simpl. intros [= -> -> -> -> -> -> -> -> -> -> -> -> -> ->] -> -> ?.
  split; unchanged; lia.
Qed.

(** Steps outside the core: the clock, live writers, capabilities, ... *)
Lemma step_core w w' :
  store_inv w → core (db w') = core (db w) → side_fence w' = side_fence w → clock w' = clock w →
  (tick w ≤ tick w')%nat → stepped w w'.
Proof. intros. split; [by eapply core_inv|by apply core_evolves]. Qed.

(** A transaction that fails keeps the fences it allocated and nothing else. *)
Lemma step_rollback w w' :
  store_inv w → aborted w w' → stepped w (mkWorld (db w) (side_fence w') (clock w') (tick w')).
Proof.
  intros [] []. split; split; unchanged; lia.
Qed.

Lemma step_connection w sid c' :
  store_inv w → (∀ c, connections (db w) !! sid = Some c → row_evolves c c') →
  connection_ok (next_fence (db w)) sid c' → stepped w (set_db (upd_connections (<[sid := c']>)) w).
Proof.
  intros Hinv Hrow Hok. destruct Hinv. split.
  - split; unchanged. by apply map_Forall_insert_2.
  - split; unchanged. apply table_evolves_insert; [apply _|done].
Qed.

Lemma step_allocate w :
  store_inv w → side_fence w < max_int64 →
  stepped w (mkWorld (db w) (side_fence w + 1) (clock w) (tick w)).
Proof.
  intros [] Hlt. split; split; unchanged; lia.
Qed.

Lemma step_sync w fence :
  store_inv w → fence < side_fence w → stepped w (set_db (upd_next_fence (λ n, n `max` (fence + 1))) w).
Proof.
  intros Hinv Hf. destruct Hinv. split.
  - split; unchanged; [lia|].
    intros sid c Hc. destruct (si_connections0 sid c Hc). split; [done|simpl; lia|done].
  - split; unchanged. lia.
Qed.

(** Appending one row keeps prefixes and references. *)
Lemma latest_seq_snoc d row sid :
  log_ok d → er_seq row = latest_seq (er_session_id row) d + 1 → er_seq row ≤ max_int64 →
  latest_seq sid d ≤ latest_seq sid (upd_events (λ l, l ++ [row]) d).
Proof.
  intros Hok Hseq Hmax. rewrite !latest_seq_dense by auto using log_ok_snoc.
  rewrite session_rows_snoc, length_app. lia.
Qed.

(** References to events stay valid as logs grow. *)
Lemma references_grow `{Countable K} {V} (session : K → string) (f : V → Z) (m : gmap K V) d d' :
  (∀ sid, latest_seq sid d ≤ latest_seq sid d') →
  map_Forall (λ k v, 1 ≤ f v ≤ latest_seq (session k) d) m →
  map_Forall (λ k v, 1 ≤ f v ≤ latest_seq (session k) d') m.
Proof. intros Hle Hm k v Hv. specialize (Hm k v Hv). simpl in *. specialize (Hle (session k)). lia. Qed.

Lemma session_rows_prefix d row sid :
  session_rows sid d `prefix_of` session_rows sid (upd_events (λ l, l ++ [row]) d).
Proof. rewrite session_rows_snoc. by eexists. Qed.

(** An event no summary reads: the Session's summary, if current, now lags. *)
Lemma attention_ok_unread d row :
  log_ok d → attention_ok d → er_seq row = latest_seq (er_session_id row) d + 1 → er_seq row ≤ max_int64 →
  is_Some (attention d !! er_session_id row) → attention_ok (upd_events (λ l, l ++ [row]) d).
Proof.
  intros Hlog Hok Hseq Hmax [r0 Hr0] sid. simpl. specialize (Hok sid).
  pose proof (log_ok_snoc _ _ Hlog Hseq Hmax) as Hlog'.
  destruct (decide (er_session_id row = sid)) as [Heq|Hne].
  - rewrite <-Heq in *. rewrite Hr0 in *. destruct Hok as [Hl Hp _].
    assert (latest_seq (er_session_id row) (upd_events (λ l, l ++ [row]) d)
      = latest_seq (er_session_id row) d + 1) as ->.
    { rewrite !latest_seq_dense by done. rewrite session_rows_snoc, decide_True, length_app by done.
      simpl. lia. }
    split; [lia|done|lia].
  - unfold latest_seq in *. by rewrite session_rows_snoc, decide_False, app_nil_r by done.
Qed.

Lemma step_append w row :
  store_inv w → er_seq row = latest_seq (er_session_id row) (db w) + 1 → er_seq row ≤ max_int64 →
  is_Some (attention (db w) !! er_session_id row) →
  stepped w (set_db (upd_events (λ l, l ++ [row])) w).
Proof.
  intros Hinv Hseq Hmax Hatt. destruct Hinv. split.
  - split; unchanged.
    + by apply log_ok_snoc.
    + by apply attention_ok_unread.
    + apply (references_grow fst _ _ (db w)); [|exact si_commands0]. intros. by apply latest_seq_snoc.
    + apply (references_grow fst _ _ (db w)); [|exact si_proposals0]. intros. by apply latest_seq_snoc.
    + apply (references_grow id _ _ (db w)); [|exact si_file_capabilities0]. intros. by apply latest_seq_snoc.
    + apply (references_grow fst _ _ (db w)); [|exact si_setting_events0]. intros. by apply latest_seq_snoc.
  - split; unchanged. intros sid. apply session_rows_prefix.
Qed.

Lemma projected_latest sid createdAt now ev pev d d' sid' :
  log_ok d → projected sid createdAt now ev pev d d' →
  session_rows sid' d `prefix_of` session_rows sid' d' ∧ latest_seq sid' d ≤ latest_seq sid' d'.
Proof.
  intros Hlog Ha. pose proof (pr_log _ _ _ _ _ _ _ Ha) as Hlog'. apply projected_rows in Ha.
  assert (session_rows sid' d `prefix_of` session_rows sid' d') as Hpre.
  { unfold session_rows. rewrite Ha, filter_app. by eexists. }
  split; [done|]. rewrite !latest_seq_dense by done. apply prefix_length in Hpre. lia.
Qed.

Lemma step_projected w sid createdAt now ev pev d' :
  store_inv w → projected sid createdAt now ev pev (db w) d' →
  (∀ seq, reads (event_row_of sid seq createdAt ev) (Attention.sqliteAttentionEventProjection pev)) →
  stepped w (set_db (λ _, d') w).
Proof.
  intros Hinv Ha Hreads. destruct Hinv.
  pose proof (λ s, projected_latest _ _ _ _ _ _ _ s si_log0 Ha) as Hmono.
  pose proof (projected_attention_ok _ _ _ _ _ _ _ si_log0 si_attention0 Ha Hreads) as Hatt.
  pose proof (pr_log _ _ _ _ _ _ _ Ha) as Hlog'.
  destruct Ha as [_ _ (created & s & _ & _ & _ & ->)].
  assert (∀ k r, attention (db w) !! k = Some r → ∀ v, is_Some (<[sid := v]> (attention (db w)) !! k)) as Hsome.
  { intros k r Hr v. destruct (decide (k = sid)) as [->|?]; [rewrite lookup_insert_eq|rewrite lookup_insert_ne by done]; eauto. }
  split.
  - split; unchanged.
    + intros k c Hc. destruct (si_controls0 k c Hc). by eapply Hsome.
    + intros k c Hc. destruct (si_files0 k c Hc). by eapply Hsome.
    + apply (references_grow fst _ _ (db w)); [|exact si_commands0]. apply Hmono.
    + apply (references_grow fst _ _ (db w)); [|exact si_proposals0]. apply Hmono.
    + apply (references_grow id _ _ (db w)); [|exact si_file_capabilities0]. apply Hmono.
    + apply (references_grow fst _ _ (db w)); [|exact si_setting_events0]. apply Hmono.
  - split; unchanged.
    + intros sid'. by destruct (Hmono sid').
    + apply table_evolves_insert; [apply _|done].
Qed.

(** Evidence that is not an event: what the summary says of the log stays. *)
Definition same_projection (r r' : attention_row) : Prop :=
  ar_latest_seq r' = ar_latest_seq r ∧ ar_state r' = ar_state r ∧ ar_permission_id r' = ar_permission_id r ∧
  ar_terminal_outcome r' = ar_terminal_outcome r ∧ ar_projection_state r' = ar_projection_state r.

Lemma summary_ok_same r r' log latest : same_projection r r' → summary_ok r log latest → summary_ok r' log latest.
Proof.
  intros (Hl & Hs & Hp & Ho & Hps) [H1 H2 H3]. split; rewrite ?Hl, ?Hps; [done..|].
  intros Hc Hlat. destruct (H3 Hc Hlat) as (shown & Hr & []). exists shown. split; [done|].
  split; rewrite ?Hs, ?Hp, ?Ho; done.
Qed.

(** A summary that fits the log can be written. *)
Lemma step_summary w sid r' :
  store_inv w → summary_ok r' (session_rows sid (db w)) (latest_seq sid (db w)) →
  stepped w (set_db (upd_attention (<[sid := r']>)) w).
Proof.
  intros [] Hr'.
  assert (∀ k r, attention (db w) !! k = Some r → is_Some (<[sid := r']> (attention (db w)) !! k)) as Hsome.
  { intros k r Hr. destruct (decide (k = sid)) as [->|?]; [rewrite lookup_insert_eq|rewrite lookup_insert_ne by done]; eauto. }
  split.
  - split; unchanged.
    + intros k. simpl. specialize (si_attention0 k). destruct (decide (k = sid)) as [->|?];
        [by rewrite lookup_insert_eq|by rewrite lookup_insert_ne].
    + intros k c Hc. destruct (si_controls0 k c Hc). by eapply Hsome.
    + intros k c Hc. destruct (si_files0 k c Hc). by eapply Hsome.
  - split; unchanged. apply table_evolves_insert; [apply _|done].
Qed.

Lemma incomplete_ok r log latest :
  0 ≤ ar_latest_seq r ≤ latest → ar_projection_state r = Attention.AttentionProjectionIncomplete →
  summary_ok r log latest.
Proof. intros Hl Hi. split; [done|by rewrite Hi|by rewrite Hi]. Qed.

Lemma step_attention w sid r' :
  store_inv w →
  match attention (db w) !! sid with
  | Some r => same_projection r r'
  | None => ar_latest_seq r' = 0 ∧ ar_projection_state r' = Attention.AttentionProjectionIncomplete
  end →
  stepped w (set_db (upd_attention (<[sid := r']>)) w).
Proof.
  intros Hw Hr'. apply step_summary; [done|]. pose proof (si_attention _ Hw sid) as Hok.
  destruct (attention (db w) !! sid) as [r|]; [by eapply summary_ok_same|].
  destruct Hr' as [H0 Hi]. pose proof (latest_seq_dense _ sid (si_log _ Hw)). apply incomplete_ok; [lia|done].
Qed.

Lemma step_command w k c' :
  store_inv w → (∀ c, pending_commands (db w) !! k = Some c → command_evolves c c') →
  1 ≤ pc_event_seq c' ≤ latest_seq k.1 (db w) →
  stepped w (set_db (upd_pending_commands (<[k := c']>)) w).
Proof.
  intros [] Hev Hseq. split; split; unchanged; [by apply map_Forall_insert_2|].
  apply table_evolves_insert; [apply _|done].
Qed.

Lemma step_proposal w k p :
  store_inv w → event_proposals (db w) !! k = None → 1 ≤ pp_event_seq p ≤ latest_seq k.1 (db w) →
  stepped w (set_db (upd_proposals (<[k := p]>)) w).
Proof.
  intros [] Hk Hseq. split; split; unchanged; [by apply map_Forall_insert_2|].
  apply table_evolves_insert; [apply _|]. intros v Hv. congruence.
Qed.

(** Adding or updating a row of a table with at most one open row a Session. *)
Lemma one_open_insert {V} (open : V → bool) (m : gmap (string * string) V) k v' :
  one_open open m →
  (∀ v, m !! k = Some v → open v' = true → open v = true) →
  (m !! k = None → open v' = true → none_open open m k.1) → one_open open (<[k := v']> m).
Proof.
  intros Hone Hold Hnew. assert (∀ cmd v, cmd ≠ k.2 → m !! (k.1, cmd) = Some v → open v = true → open v' = false) as Hne.
  { intros cmd v Hc Hv Ho. apply not_true_is_false. intros Ho'. destruct k as [sid c]. simpl in *.
    destruct (m !! (sid, c)) as [v0|] eqn:Hk.
    - apply Hc, (Hone sid cmd c v v0 Hv Hk Ho). auto.
    - rewrite (Hnew eq_refl Ho' cmd v Hv) in Ho. done. }
  intros sid c1 c2 v1 v2. rewrite !lookup_insert_Some. destruct k as [s c]. simpl in *.
  intros [[Hk1 <-]|[H1 Hl1]] [[Hk2 <-]|[H2 Hl2]] Ho1 Ho2; [congruence| | |by eapply Hone].
  - injection Hk1 as -> ->. destruct (decide (c2 = c1)) as [->|Hc]; [done|]. rewrite (Hne c2 v2) in Ho1; done.
  - injection Hk2 as -> ->. destruct (decide (c1 = c2)) as [->|Hc]; [done|]. rewrite (Hne c1 v1) in Ho2; done.
Qed.

(** No listed row, no open row. *)
Lemma none_open_listed {V A} (open : V → bool) (f : string * string * V → option A) (m : gmap (string * string) V) sid :
  (∀ cmd v, open v = true → is_Some (f (sid, cmd, v))) → omap f (map_to_list m) = [] → none_open open m sid.
Proof.
  intros Hf Hnil cmd v Hv. destruct (open v) eqn:Ho; [|done]. destruct (Hf cmd v Ho) as [a Ha].
  assert (a ∈ omap f (map_to_list m)) as Hin.
  { apply list_elem_of_omap. exists (sid, cmd, v). by rewrite elem_of_map_to_list. }
  rewrite Hnil in Hin. by apply elem_of_nil in Hin.
Qed.

Lemma step_control w k r' :
  store_inv w → (∀ r, run_controls (db w) !! k = Some r → control_evolves r r') →
  (run_controls (db w) !! k = None → none_open control_open (run_controls (db w)) k.1) →
  is_Some (attention (db w) !! k.1) → stepped w (set_db (upd_run_controls (<[k := r']>)) w).
Proof.
  intros [] Hev Hnew Hatt. split; split; unchanged; [by apply map_Forall_insert_2| |].
  - apply one_open_insert; auto. unfold control_open. intros v Hv Ho. destruct (Hev v Hv) as [_ _ _ Hf].
    destruct (decide (rc_status v = "pending")) as [Hp|Hp]; [by rewrite bool_decide_eq_true_2|].
    by rewrite (Hf Hp) in Ho.
  - apply table_evolves_insert; [apply _|done].
Qed.

Lemma step_file w k r' :
  store_inv w → (∀ r, file_commands (db w) !! k = Some r → file_evolves r r') →
  (file_commands (db w) !! k = None → none_open file_command_open (file_commands (db w)) k.1) →
  file_ok k r' →
  is_Some (attention (db w) !! k.1) → stepped w (set_db (upd_file_commands (<[k := r']>)) w).
Proof.
  intros [] Hev Hnew Hchk Hatt. split; split; unchanged; [by apply map_Forall_insert_2| |by apply map_Forall_insert_2|].
  - apply one_open_insert; auto. intros v Hv Ho. destruct (Hev v Hv) as [_ Hf].
    destruct (file_command_open v) eqn:Hp; [done|]. rewrite (Hf eq_refl) in Ho. congruence.
  - apply table_evolves_insert; [apply _|done].
Qed.

Lemma step_setting w k r' :
  store_inv w → (∀ r, settings_commands (db w) !! k = Some r → settings_evolves r r') →
  (settings_commands (db w) !! k = None → none_open settings_open (settings_commands (db w)) k.1) →
  setting_ok k r' → 1 ≤ sc_reserved_capability_event_seq r' ≤ latest_seq k.1 (db w) →
  is_Some (settings_capabilities (db w) !! k.1) → stepped w (set_db (upd_settings_commands (<[k := r']>)) w).
Proof.
  intros [] Hev Hnew Hok Hseq Hcap. split; split; unchanged; try by apply map_Forall_insert_2.
  - apply one_open_insert; auto. intros v Hv Ho. destruct (Hev v Hv) as [_ _ Hf].
    destruct (settings_open v) eqn:Hp; [done|]. rewrite (Hf eq_refl) in Ho. congruence.
  - apply table_evolves_insert; [apply _|done].
Qed.

Lemma step_capability w sid r' :
  store_inv w → valid_capability (scan_settings_capability sid r') = true →
  stepped w (set_db (upd_settings_capabilities (<[sid := r']>)) w).
Proof.
  intros [] Hok. split; split; unchanged; [|by apply map_Forall_insert_2|].
  - intros k r Hr. destruct (si_setting_capability0 k r Hr). rewrite lookup_insert_is_Some. destruct (decide (sid = k.1)); eauto.
  - apply table_evolves_insert; [apply _|done].
Qed.

Lemma step_file_capability w sid r' :
  store_inv w → 1 ≤ fp_event_seq r' ≤ latest_seq sid (db w) →
  stepped w (set_db (upd_file_capabilities (<[sid := r']>)) w).
Proof. intros [] Hr. split; split; unchanged. by apply map_Forall_insert_2. Qed.

Lemma step_drop_file_capability w sid : store_inv w → stepped w (set_db (upd_file_capabilities (delete sid)) w).
Proof. intros []. split; split; unchanged. by apply map_Forall_delete. Qed.

(** Attempts come, and go when they have expired. *)
Lemma step_attempt w k r :
  store_inv w → attach_attempts (db w) !! k = None → stepped w (set_db (upd_attach_attempts (<[k := r]>)) w).
Proof.
  intros [] Hk. split; split; unchanged. intros k' r' Hr'. left. rewrite lookup_insert_ne; [done|]. congruence.
Qed.

Lemma step_expire w m' :
  store_inv w →
  (∀ k r, attach_attempts (db w) !! k = Some r →
     m' !! k = Some r ∨ at_expires_at_ns r ≤ clock w (tick w) * 1000000) →
  stepped w (mkWorld (upd_attach_attempts (λ _, m') (db w)) (side_fence w) (clock w) (S (tick w))).
Proof.
  intros [] Hm. split; split; unchanged; [lia|]. intros k r Hr. destruct (Hm k r Hr) as [?|?]; [by left|].
  right. exists (tick w). simpl. split; [lia|done].
Qed.

Lemma step_attachment w k a' :
  store_inv w →
  match attachments (db w) !! k with
  | Some a => attachment_evolves a a'
  | None => ∀ k2 a2, attachments (db w) !! k2 = Some a2 → ta_target_session_id a2 ≠ ta_target_session_id a'
  end →
  stepped w (set_db (upd_attachments (<[k := a']>)) w).
Proof.
  intros [] Ha'. split; split; unchanged.
  - intros k1 k2 a1 a2. assert (∀ k2 a2, k2 ≠ k → attachments (db w) !! k2 = Some a2 →
      ta_target_session_id a2 ≠ ta_target_session_id a') as Hne.
    { intros k3 a3 Hk Hl. destruct (attachments (db w) !! k) as [a|] eqn:Ha; [|by eapply Ha'].
      rewrite (ae_target _ _ Ha'). intros Heq. by destruct (Hk (si_targets0 _ _ _ _ Hl Ha Heq)). }
    rewrite !lookup_insert_Some. intros [[<- <-]|[? H1]] [[<- <-]|[? H2]]; eauto; intros Heq.
    + by destruct (Hne k2 a2).
    + by destruct (Hne k1 a1).
  - apply table_evolves_insert; [apply _|]. intros a Ha. by rewrite Ha in Ha'.
Qed.

Lemma step_lease w k r' :
  store_inv w → (∀ r, leases (db w) !! k = Some r → lease_evolves r r') →
  stepped w (set_db (upd_leases (<[k := r']>)) w).
Proof.
  intros [] Hev. split; split; unchanged. apply table_evolves_insert; [apply _|done].
Qed.

(** ** Composing sound operations *)

Section sound.
Context {E : World → World → Prop} `{!Outcome E}.

Lemma sound_wp {A} (m : M A) (w0 w : World) Q :
  sound_with E m → stepped w0 w → (∀ a w', stepped w0 w' → stepped w w' → Q a w') →
  wp m Q (λ _ w', E w0 w') w.
Proof.
  intros Hm Hw HQ. eapply wp_mono; [apply Hm, Hw| |].
  - intros a w' Hw'. apply HQ; [by eapply stepped_trans|done].
  - intros e w' Hw'. by eapply out_step.
Qed.

Lemma sound_weaken {A} (m : M A) : sound m → sound_with E m.
Proof.
  intros Hm w Hw. eapply wp_mono; [by apply Hm|done|]. intros e w' Hw'. by apply out_stepped.
Qed.

Lemma sound_bind {A B} (m : M A) (k : A → M B) :
  sound_with E m → (∀ a, sound_with E (k a)) → sound_with E (m ≫= k).
Proof.
  intros Hm Hk w Hw. rewrite wp_bind. eapply sound_wp; [done|by apply stepped_refl|].
  intros a w' Hw' _. eapply sound_wp; [by apply Hk|done|done].
Qed.

Lemma out_refl w : store_inv w → E w w.
Proof. intros Hw. by apply out_stepped, stepped_refl. Qed.

Lemma sound_ret {A} (a : A) : sound_with E (mret a).
Proof. intros w Hw. rewrite wp_ret. by apply stepped_refl. Qed.

Lemma sound_throw {A} e : sound_with E (throw e : M A).
Proof. intros w Hw. rewrite wp_throw. by apply out_refl. Qed.

Lemma sound_fail_if b e : sound_with E (fail_if b e).
Proof. destruct b; [apply sound_throw|apply sound_ret]. Qed.

(** What follows a guard may use it. *)
Lemma sound_guard {A} b e (k : unit → M A) : (b = false → sound_with E (k tt)) → sound_with E (fail_if b e ≫= k).
Proof.
  intros Hk w Hw. rewrite wp_bind, wp_fail_if. split; intros Hb; [by apply out_refl|]. by apply Hk.
Qed.

Lemma sound_query {A} (f : DB → A) : sound_with E (query f).
Proof. intros w Hw. rewrite wp_query. by apply stepped_refl. Qed.

Lemma sound_get : sound_with E get.
Proof. intros w Hw. rewrite wp_get. by apply stepped_refl. Qed.

Lemma sound_query_row {A} (f : DB → option A) : sound_with E (query_row f).
Proof.
  intros w Hw. rewrite wp_query_row. destruct (f (db w)); [by apply stepped_refl|by apply out_refl].
Qed.

Lemma sound_check what b : sound_with E (check what b).
Proof. apply sound_fail_if. Qed.

Lemma sound_lift {A} (r : error + A) : sound_with E (lift r).
Proof. intros w Hw. rewrite wp_lift. destruct r; [by apply out_refl|by apply stepped_refl]. Qed.

Lemma sound_on_error {A} f (m : M A) : sound_with E m → sound_with E (on_error f m).
Proof. intros Hm w Hw. rewrite wp_on_error. by apply Hm. Qed.

Lemma sound_try {A} (m : M A) : sound m → sound_with E (try_ m).
Proof. intros Hm w Hw. rewrite wp_try. by apply Hm. Qed.

Lemma step_tick w :
  store_inv w → stepped w (mkWorld (db w) (side_fence w) (clock w) (S (tick w))).
Proof. intros Hw. apply step_core; simpl; auto. Qed.

Lemma sound_now : sound_with E nowMillis.
Proof. intros w Hw. rewrite wp_now. by apply step_tick. Qed.

Lemma sound_tx {A} (m : M A) : tsound m → sound_with E (with_tx m).
Proof.
  intros Hm w Hw. rewrite wp_tx. eapply wp_mono; [by apply Hm|done|].
  intros e w' Hw'. by apply out_stepped, step_rollback.
Qed.

Lemma sound_for_each {A} (l : list A) (body : A → M unit) :
  (∀ a, sound_with E (body a)) → sound_with E (for_each l body).
Proof. intros Hb. induction l; simpl; [apply sound_ret|by apply sound_bind]. Qed.

(** A statement outside the core of the database. *)
Lemma sound_exec_core f : (∀ d, core (f d) = core d) → sound_with E (exec f).
Proof. intros Hf w Hw. rewrite wp_exec. apply step_core; simpl; auto. Qed.
End sound.

End Invariant.

(** Soundness by structure: the database [sound] holds the rules above and,
    in the files below, the operations already shown sound. *)
Create HintDb sound discriminated.
#[export] Hint Resolve Invariant.sound_ret Invariant.sound_throw Invariant.sound_fail_if Invariant.sound_query
  Invariant.sound_get Invariant.sound_query_row Invariant.sound_check Invariant.sound_lift
  Invariant.sound_now : sound.

Ltac sound_step :=
  first
    [ solve [eauto 2 with sound nocore typeclass_instances]
    | lazymatch goal with
      | |- Invariant.sound_with _ (mbind _ _) => apply Invariant.sound_bind; [|intros ?]
      | |- Invariant.sound_with _ (on_error _ _) => apply Invariant.sound_on_error
      | |- Invariant.sound_with _ (try_ _) => apply Invariant.sound_try
      | |- Invariant.sound_with _ (with_tx _) => apply Invariant.sound_tx
      | |- Invariant.sound_with _ (for_each _ _) => apply Invariant.sound_for_each; intros ?
      | |- Invariant.sound_with _ (exec _) => apply Invariant.sound_exec_core; intros []; reflexivity
      | |- Invariant.sound_with _ (match ?x with _ => _ end) => destruct x
      end ]; cbv beta iota zeta.

Ltac sound_auto := cbv zeta; repeat sound_step.
