(* ===== verification/StoreSound.v ===== *)
(** * Events, summaries and connections keep the invariant

    Soundness, in the sense of [Invariant], of [Append], of the attention
    ledger, of the fence allocator and of every connection operation. *)

From S2P Require Import Prelude StoreApi Sqlite Attention EventLog AttentionSpec Connections.
From S2P Require Import Settings FileReferences Invariant.
From stdpp Require Import base gmap strings list.
#[local] Open Scope Z_scope.

Module StoreSound.
Import Attention EventLog AttentionSpec Connections Settings FileReferences Invariant.

(** ** Events *)

Lemma terminate_row_evolves nowMS c : cr_terminal_at_ms c = None → row_evolves c (terminate_row nowMS c).
Proof. intros Ht. split; simpl; try lia; try done. Qed.

(** The two CHECKs the statement can violate are the ones it tests. *)
Lemma terminate_row_ok next sid nowMS c :
  connection_ok next sid c → cr_created_at_ms c ≤ nowMS → connection_ok next sid (terminate_row nowMS c).
Proof.
  intros [Hc Hf Hp] Hle. split; [|done|done]. unfold connection_checks in *. simpl. bool_hyps.
  rewrite !andb_true_iff. repeat split; try done; by apply bool_decide_eq_true.
Qed.

Lemma sound_fence_terminal sid nowMS : sound (fence_terminal sid nowMS).
Proof.
  intros w Hw. unfold fence_terminal. db_steps; bool_hyps; try by apply stepped_refl.
  apply step_connection; [done| |].
  - intros c' Hc'. simplify_eq. by apply terminate_row_evolves.
  - apply terminate_row_ok; [by eapply (si_connections _ Hw)|done].
Qed.

(** Inserting the next event: what is left to do is its projection. *)
Lemma insert_next w0 w sid seq createdAt ev Q :
  stepped w0 w → seq = i64 (latest_seq sid (db w) + 1) →
  (seq = latest_seq sid (db w) + 1 → seq ≤ max_int64 →
   Q tt (set_db (upd_events (λ l, l ++ [event_row_of sid seq createdAt ev])) w)) →
  wp (insert_event (event_row_of sid seq createdAt ev)) Q (λ _ w', aborted w0 w') w.
Proof.
  intros [Hinv Hev] Hseq HQ. apply insert_event_next; [apply (si_log _ Hinv)|done| |].
  - intros ? ? _. by apply HQ.
  - intros _ e _. apply out_stepped. by split.
Qed.

(** The projection completes the step. *)
Lemma project_next w0 w sid createdAt ev pev nowMS seq Q w' :
  stepped w0 w → seq = latest_seq sid (db w) + 1 → seq ≤ max_int64 →
  db w' = upd_events (λ l, l ++ [event_row_of sid seq createdAt ev]) (db w) →
  side_fence w' = side_fence w → clock w' = clock w → (tick w ≤ tick w')%nat →
  (∀ seq, reads (event_row_of sid seq createdAt ev) (sqliteAttentionEventProjection pev)) →
  (∀ d', projected sid createdAt nowMS ev pev (db w) d' →
     stepped w0 (mkWorld d' (side_fence w') (clock w') (tick w')) →
     Q (terminal (sqliteAttentionEventProjection pev)) (mkWorld d' (side_fence w') (clock w') (tick w'))) →
  wp (projectSQLiteAttentionEvent sid seq pev nowMS) Q (λ _ w', aborted w0 w') w'.
Proof.
  intros Hw Hseq Hmax Hdb Hs Hc Ht Hreads HQ. pose proof Hw as [Hinv Hev].
  eapply project_inserted; [apply (si_log _ Hinv)|done|done|exact Hdb| |].
  - intros d' Hd'. apply HQ; [done|]. apply (stepped_trans w0 w); [done|].
    pose proof (step_projected w _ _ _ _ _ _ Hinv Hd' Hreads) as Hstep.
    eapply stepped_trans; [exact Hstep|]. apply step_core; simpl; try done. by destruct Hstep.
  - intros e He. apply (out_step _ w); [done|]. pose proof (si_fence _ Hinv). split; [done|done|lia].
Qed.

Lemma step_terminated w sid nowMS :
  store_inv w → terminable sid nowMS (connections (db w)) →
  stepped w (set_db (upd_connections (terminated sid nowMS)) w).
Proof.
  intros Hinv Hterm.
  assert (terminated sid nowMS (connections (db w)) = connections (db w) ∨
    ∃ c, connections (db w) !! sid = Some c ∧ cr_terminal_at_ms c = None ∧
      terminated sid nowMS (connections (db w)) = <[sid := terminate_row nowMS c]> (connections (db w)))
    as [Heq|(c & Hc & Hnone & Heq)].
  { unfold terminated. destruct (connections (db w) !! sid) as [c|]; [|by left].
    case_bool_decide; [|by left]. right. by exists c. }
  - apply step_core; try done. unfold core. simpl. by rewrite Heq.
  - replace (set_db (upd_connections (terminated sid nowMS)) w)
      with (set_db (upd_connections (<[sid := terminate_row nowMS c]>)) w).
    2: { unfold set_db, upd_connections. by rewrite Heq. }
    apply step_connection; [done| |].
    + intros c' Hc'. simplify_eq. by apply terminate_row_evolves.
    + apply terminate_row_ok; [by eapply (si_connections _ Hinv)|by apply Hterm].
Qed.

Lemma event_appended_stepped sid createdAt ev w w' :
  store_inv w → event_appended sid createdAt ev w w' → stepped w w'.
Proof.
  intros Hinv [(d' & Hd' & -> & Hterm)].
  pose proof (step_projected w _ _ _ _ _ _ Hinv Hd' (λ seq, reads_plain _ seq _ _)) as Hstep.
  assert (connections d' = connections (db w)) as Hconn.
  { by destruct Hd' as [_ _ (created & s & _ & _ & _ & ->)]. }
  eapply stepped_trans; [exact Hstep|]. destruct Hstep as [Hinv' _].
  eapply stepped_trans; [by apply step_tick|].
  set (w1 := mkWorld d' (side_fence w) (clock w) (S (tick w))).
  assert (store_inv w1) as Hw1 by by eapply (core_inv (set_db (λ _, d') w)).
  destruct (terminal (sqliteAttentionEventProjection ev)).
  - apply (step_terminated w1); [done|]. simpl. rewrite Hconn. auto.
  - by apply step_core; [| |destruct d'..].
Qed.

Lemma events_appended_stepped sid createdAt evs w w' :
  store_inv w → events_appended sid createdAt evs w w' → stepped w w'.
Proof.
  revert w. induction evs as [|ev evs IH]; intros w Hinv Ha.
  - simpl in Ha. subst. by apply stepped_refl.
  - destruct Ha as (w1 & Hw1 & Ha). pose proof (event_appended_stepped _ _ _ _ _ Hinv Hw1) as Hstep.
    eapply stepped_trans; [done|]. apply IH; [apply Hstep|done].
Qed.

Lemma sound_Append sid evs : sound (Append sid evs).
Proof.
  intros w Hinv. destruct (decide (evs = [])) as [->|Hne].
  { unfold Append. simpl. rewrite wp_ret. by apply stepped_refl. }
  pose proof (si_log _ Hinv) as Hlog. apply Append_spec; [done|done| |].
  - intros w' Ha. pose proof (step_tick w Hinv) as Hstep. eapply stepped_trans; [exact Hstep|].
    eapply events_appended_stepped; [apply Hstep|exact Ha].
  - intros e w' Hdb Hs Hc Ht _. apply step_core; [done|by rewrite Hdb|done..].
Qed.

(** ** The attention ledger *)

Lemma sound_load sid : sound (loadAttentionSummary sid).
Proof. unfold loadAttentionSummary. sound_auto. Qed.

Lemma sound_ledger sid blocker clientAtMS : sound (upsertSQLiteAttentionLedger sid blocker clientAtMS).
Proof.
  intros w Hinv. unfold upsertSQLiteAttentionLedger. rewrite wp_bind, wp_try, wp_load.
  assert (∀ s, sm_SessionID s = sid →
    match attention (db w) !! sid with
    | Some r => same_projection r (upserted s (clock w (tick w)) (db w))
    | None => Attention.LatestSeq s = 0 ∧ StateOfProjection s = AttentionProjectionIncomplete
    end →
    wp (nowMS ← nowMillis; upsertSQLiteAttentionSummary s nowMS)
      (λ _ w', stepped w w') (λ _ w', stepped w w') w) as Hwrite.
  { intros s Hsid Hs. do 2 db_step. pose proof (step_tick w Hinv) as Hstep.
    apply wp_upsert; [|by intros]. intros _. eapply stepped_trans; [exact Hstep|]. rewrite Hsid.
    apply step_attention; [apply Hstep|]. done. }
  destruct (attention (db w) !! sid) as [r|] eqn:Hr.
  - destruct (querySQLiteAttentionSummary sid r) as [e|s] eqn:Hs.
    + rewrite (query_summary_err _ _ _ Hs). wp_steps. by apply stepped_refl.
    + wp_step. wp_step. cbv zeta. apply Hwrite; [by apply query_summary_sid in Hs|].
      apply query_summary_fields in Hs as (Hls & Hst & Hp & Ho & Hps & _).
      unfold same_projection, upserted, summary_row. simpl. auto.
  - simpl. wp_step. wp_step. cbv zeta. by apply Hwrite.
Qed.

(** ** Fences *)

(** The allocator hands out the next number, whatever becomes of the caller. *)
Lemma wp_allocate w0 w Q :
  stepped w0 w →
  (1 ≤ side_fence w < max_int64 →
   let w' := mkWorld (db w) (side_fence w + 1) (clock w) (tick w) in
   stepped w0 w' → Q (side_fence w) w') →
  wp allocateAdapterFence Q (λ _ w', stepped w0 w') w.
Proof.
  intros Hw HQ. pose proof Hw as [Hinv _]. pose proof (si_fence _ Hinv).
  unfold wp, allocateAdapterFence. case_bool_decide; [|done].
  rewrite bool_decide_eq_false_2 by lia. apply HQ; [lia|].
  eapply stepped_trans; [done|]. by apply step_allocate.
Qed.

(** Allocation followed by the copy to the main database. *)
Lemma wp_allocate_sync w0 w Q :
  stepped w0 w →
  (1 ≤ side_fence w < max_int64 →
   let w' := mkWorld (upd_next_fence (λ _, side_fence w + 1) (db w)) (side_fence w + 1) (clock w) (tick w) in
   stepped w0 w' → Q (side_fence w) w') →
  wp (fence ← allocateAdapterFence; syncAdapterFence fence ≫= λ _, mret fence) Q (λ _ w', stepped w0 w') w.
Proof.
  intros Hw HQ. rewrite wp_bind. apply wp_allocate; [done|]. intros Hf w1 Hw1.
  rewrite wp_bind. unfold syncAdapterFence. rewrite wp_exec, wp_ret.
  pose proof Hw as [Hinv _]. pose proof (si_fence _ Hinv).
  replace (set_db _ w1) with
    (mkWorld (upd_next_fence (λ _, side_fence w + 1) (db w)) (side_fence w + 1) (clock w) (tick w)).
  2: { unfold w1, set_db, upd_next_fence. simpl. f_equal. f_equal.
       rewrite i64_small by (unfold two63; lia). lia. }
  apply HQ; [done|]. eapply stepped_trans; [exact Hw1|].
  replace (mkWorld _ _ _ _) with (set_db (upd_next_fence (λ n, n `max` (side_fence w + 1))) w1).
  2: { unfold w1, set_db, upd_next_fence. simpl. f_equal. f_equal. lia. }
  apply step_sync; [apply Hw1|simpl; lia].
Qed.

Lemma sound_AllocateAdapterGrantFence : sound AllocateAdapterGrantFence.
Proof. intros w Hinv. apply wp_allocate_sync; [by apply stepped_refl|done]. Qed.

(** ** Connection rows *)

Lemma sound_queryWhere {E} `{!Outcome E} sid p : sound_with E (queryAdapterConnectionWhere sid p).
Proof. unfold queryAdapterConnectionWhere. sound_auto. Qed.

Lemma sound_queryAdapterConnection {E} `{!Outcome E} sid : sound_with E (queryAdapterConnection sid).
Proof. apply sound_queryWhere. Qed.

Lemma sound_GetAdapterConnection {E} `{!Outcome E} sid : sound_with E (GetAdapterConnection sid).
Proof. unfold GetAdapterConnection. sound_auto. apply sound_queryAdapterConnection. Qed.

#[local] Hint Resolve sound_queryWhere sound_queryAdapterConnection sound_GetAdapterConnection : sound.

(** A statement that keeps what the constraints do not enforce. *)
Definition forward (wher : connection_row → bool) (set : connection_row → connection_row) : Prop :=
  ∀ next sid c, connection_ok next sid c → wher c = true →
    cr_accepted_fence c ≤ cr_accepted_fence (set c) → connection_checks sid (set c) = true →
    row_evolves c (set c) ∧
    ∀ g, cr_pending_credential_generation (set c) = Some g → cr_active_credential_generation (set c) < g.

(** What an UPDATE of one row does: 0 rows when the WHERE excludes it, the new
    row otherwise, and an error when a constraint refuses it. *)
Lemma wp_update_row w0 w sid wher set Q :
  stepped w0 w → forward wher set →
  (∀ c, connections (db w) !! sid = Some c → wher c = true →
     let w' := set_db (upd_connections (<[sid := set c]>)) w in
     (cr_accepted_fence (set c) = cr_accepted_fence c ∨ cr_accepted_fence c < cr_accepted_fence (set c)) →
     stepped w0 w' → Q 1 w') →
  (match connections (db w) !! sid with Some c => wher c = false | None => True end → Q 0 w) →
  wp (update_connection_row sid wher set) Q (λ _ w', stepped w0 w') w.
Proof.
  intros Hw Hfwd HQ1 HQ0. pose proof Hw as [Hinv _]. unfold update_connection_row. db_steps; simpl in *.
  all: unfold id in *; rewrite E in *; try done; try (by apply HQ0).
  pose proof (si_connections _ Hinv sid _ E) as Hok.
  unfold fence_trigger in *. rewrite orb_true_iff, andb_true_iff, !bool_decide_eq_true in *.
  assert (stepped w0 (set_db (upd_connections (<[sid := set c]>)) w)) as Hstep.
  { destruct (Hfwd _ _ _ Hok) as [Hev Hp]; [done|lia|done|]. eapply stepped_trans; [done|].
    apply step_connection; [done| |].
    - intros c' Hc'. by simplify_eq.
    - split; [done| |done]. destruct Hok. lia. }
  apply (HQ1 c); [done|done|lia|done].
Qed.

Lemma forward_id wher : forward wher id.
Proof. intros next sid c [] _ _ _. by split; [reflexivity|]. Qed.

Lemma sound_update_row {E} `{!Outcome E} sid wher set :
  forward wher set → sound_with E (update_connection_row sid wher set).
Proof.
  intros Hf. apply sound_weaken. intros w Hinv. apply wp_update_row; [by apply stepped_refl|done|done|].
  intros _. by apply stepped_refl.
Qed.

(** ** Fencing the previous writer *)

(** An operation that relies on the Session having a summary. *)
Definition sound_if_summarised (sid : string) {A} (m : M A) : Prop := ∀ w, store_inv w →
  is_Some (attention (db w) !! sid) → wp m (λ _ w', stepped w w') (λ _ w', stepped w w') w.

Lemma summarised_stepped sid w w' :
  stepped w w' → is_Some (attention (db w) !! sid) → is_Some (attention (db w') !! sid).
Proof. intros [_ Hev] [r Hr]. destruct (ev_attention _ _ Hev sid r Hr) as (r' & Hr' & _). eauto. Qed.

Lemma summarised_bind {A B} sid (m : M A) (k : A → M B) :
  sound_if_summarised sid m → (∀ a, sound_if_summarised sid (k a)) → sound_if_summarised sid (m ≫= k).
Proof.
  intros Hm Hk w Hw Hs. rewrite wp_bind. eapply wp_mono; [by apply Hm| |done].
  intros a w' Hw'. eapply wp_mono; [apply Hk; [apply Hw'|exact (summarised_stepped _ _ _ Hw' Hs)]| |].
  all: intros ? w2 Hw2; exact (stepped_trans _ _ _ Hw' Hw2).
Qed.

Lemma summarised_sound {A} sid (m : M A) : sound m → sound_if_summarised sid m.
Proof. intros Hm w Hw _. by apply Hm. Qed.

Lemma summarised_for_each {A} sid (l : list A) body :
  (∀ a, sound_if_summarised sid (body a)) → sound_if_summarised sid (for_each l body).
Proof.
  intros Hb. induction l; simpl; [apply summarised_sound, sound_ret|]. apply summarised_bind; auto.
Qed.

Lemma summarised_appendRunControlEvent sid type payload nowMS :
  sound_if_summarised sid (appendRunControlEvent sid type payload nowMS).
Proof.
  intros w Hw Hs. unfold appendRunControlEvent. do 3 db_step.
  apply insert_event_next; [apply (si_log _ Hw)|done| |]; simpl er_session_id; simpl er_seq.
  - intros Hseq Hmax _. rewrite wp_ret. by apply step_append.
  - intros _ e _. by apply stepped_refl.
Qed.

(** A Session whose log has reached an event has a summary. *)
Lemma range_summarised w sid seq :
  store_inv w → 1 ≤ seq ≤ latest_seq sid (db w) → is_Some (attention (db w) !! sid).
Proof.
  intros Hw Hr. pose proof (si_attention _ Hw sid) as Ha. destruct (attention (db w) !! sid); [eauto|].
  rewrite (latest_seq_dense _ _ (si_log _ Hw)), Ha in Hr. simpl in Hr. lia.
Qed.

(** An event number the log has reached is an event. *)
Lemma event_in_range d sid seq : log_ok d → 1 ≤ seq ≤ latest_seq sid d → is_Some (event_at sid seq d).
Proof.
  intros Hlog Hseq. rewrite (latest_seq_dense _ _ Hlog) in Hseq. destruct (Hlog sid) as [Hd _].
  destruct (lookup_lt_is_Some_2 (session_rows sid d) (Z.to_nat (seq - 1))) as [r Hr]; [lia|].
  pose proof (Hd _ _ Hr) as Hs. apply list_elem_of_lookup_2, list_elem_of_filter in Hr as [Hsid Hin].
  unfold event_at. destruct (list_find _ _) eqn:Hf; [by eexists|]. apply list_find_None in Hf.
  rewrite Forall_forall in Hf. destruct (Hf r Hin). split; [done|lia].
Qed.

Lemma wp_append_ok w sid type payload now Q X :
  log_ok (db w) → latest_seq sid (db w) < max_int64 →
  (∀ row, er_session_id row = sid → er_seq row = latest_seq sid (db w) + 1 →
     log_ok (upd_events (λ l, l ++ [row]) (db w)) →
     Q (er_seq row) (set_db (upd_events (λ l, l ++ [row])) w)) →
  wp (appendRunControlEvent sid type payload now) Q X w.
Proof.
  intros Hlog Hmax HQ. unfold appendRunControlEvent. do 3 db_step.
  apply insert_event_next; [done|done| |]; simpl er_session_id; simpl er_seq; [|intros; lia].
  intros Hseq _ Hlog'. rewrite wp_ret. exact (HQ (mkEventRow sid _ _ _ _ _) eq_refl Hseq Hlog').
Qed.

Lemma snoc_event w row :
  log_ok (db w) → er_seq row = latest_seq (er_session_id row) (db w) + 1 →
  log_ok (upd_events (λ l, l ++ [row]) (db w)) →
  (∀ sid, latest_seq sid (db w) ≤ latest_seq sid (upd_events (λ l, l ++ [row]) (db w))) ∧
  latest_seq (er_session_id row) (upd_events (λ l, l ++ [row]) (db w)) = er_seq row.
Proof.
  intros Hlog Hseq Hlog'. split.
  - intros sid. rewrite !latest_seq_dense, session_rows_snoc, length_app by done. lia.
  - rewrite Hseq, !latest_seq_dense, session_rows_snoc, decide_True, length_app by done. simpl. lia.
Qed.

Lemma finish_control_evolves outcome seq nowMS r :
  rc_status r = "pending" → control_evolves r (finish_control outcome seq nowMS r).
Proof. intros Hp. by split. Qed.

Lemma sound_update_pending_control sid cmd version wher set :
  (∀ r, rc_status r = "pending" → control_evolves r (set r)) →
  sound (update_pending_control sid cmd version wher set).
Proof.
  intros Hset w Hw. unfold update_pending_control. db_steps; bool_hyps; try by apply stepped_refl.
  apply step_control; [done| |congruence|].
  - intros r' Hr'. simplify_eq. by apply Hset.
  - by eapply (si_controls _ Hw (sid, cmd)).
Qed.

Lemma summarised_fence_control sid nowMS cr : sound_if_summarised sid (fence_control sid nowMS cr).
Proof.
  destruct cr as [cmd r]. apply summarised_bind; [apply summarised_appendRunControlEvent|]. intros seq.
  apply summarised_sound. sound_auto. apply sound_update_pending_control.
  intros. by apply finish_control_evolves.
Qed.

(** An ended command passes the CHECKs its open row passed. *)
Lemma finish_file_checks sid cmd outcome seq now r :
  outcome ∈ ["delivered"; "rejected"; "outcome_unknown"] → file_checks sid cmd r = true →
  file_checks sid cmd (finish_file_command outcome seq now r) = true.
Proof.
  intros Ho Hr. unfold file_checks in *. simpl. rewrite (bool_decide_eq_true_2 _ Ho), orb_true_r, andb_true_r.
  by apply andb_true_iff in Hr as [? _].
Qed.

Lemma summarised_fence_file_command sid nowMS cr : sound_if_summarised sid (fence_file_command sid nowMS cr).
Proof.
  destruct cr as [cmd r]. apply summarised_bind; [apply summarised_appendRunControlEvent|]. intros seq w Hw Hs.
  db_steps; try by apply stepped_refl. apply step_file; [done| |congruence| |done].
  - intros r' Hr'. simplify_eq. split; [done|]. congruence.
  - destruct (si_file_rows _ Hw (sid, cmd) _ E) as [Hc Hn]. split; [|done]. by apply finish_file_checks; [set_solver|].
Qed.

(** Rows to fence exist only where there is a summary. *)
Lemma summarised_rows {A} (rows : DB → list (string * A)) sid body (k : M unit) :
  (∀ w, store_inv w → rows (db w) ≠ [] → is_Some (attention (db w) !! sid)) →
  (∀ a, sound_if_summarised sid (body a)) → sound k →
  sound (l ← query rows; for_each l body ≫= λ _, k).
Proof.
  intros Hrows Hb Hk w Hw. rewrite wp_bind, wp_query, wp_bind.
  eapply (wp_mono _ (λ _ w', stepped w w') _ (λ _ w', stepped w w')); [| |done].
  - destruct (rows (db w)) as [|r l] eqn:E; [by apply sound_ret|].
    apply (summarised_for_each sid (r :: l)); [done|done|]. apply Hrows; [done|]. by rewrite E.
  - intros _ w' Hw'. eapply sound_wp; [done|done|done].
Qed.

Lemma map_rows_keys {V A} (f : string * string * V → option (string * A)) (sid : string) (m : gmap (string * string) V) :
  (∀ kr, is_Some (f kr) → kr.1.1 = sid) → omap f (map_to_list m) ≠ [] → ∃ cmd v, m !! (sid, cmd) = Some v.
Proof.
  intros Hf Hne. destruct (omap f (map_to_list m)) as [|a l] eqn:E; [done|].
  assert (a ∈ omap f (map_to_list m)) as Ha by (rewrite E; by left).
  apply list_elem_of_omap in Ha as ([[s cmd] v] & Hin & Hfa).
  apply elem_of_map_to_list in Hin. specialize (Hf (s, cmd, v)). rewrite Hfa in Hf. simpl in Hf.
  rewrite <-Hf by done. eauto.
Qed.

Lemma pending_controls_summarised w sid :
  store_inv w → pending_controls sid (db w) ≠ [] → is_Some (attention (db w) !! sid).
Proof.
  intros Hw Hne. apply (map_rows_keys _ sid) in Hne as (cmd & v & Hv).
  - exact (si_controls _ Hw (sid, cmd) v Hv).
  - intros kr. case_match eqn:E; [|by intros []]. by bool_hyps.
Qed.

Lemma open_file_commands_summarised w sid :
  store_inv w → open_file_commands sid (db w) ≠ [] → is_Some (attention (db w) !! sid).
Proof.
  intros Hw Hne. apply (map_rows_keys _ sid) in Hne as (cmd & v & Hv).
  - exact (si_files _ Hw (sid, cmd) v Hv).
  - intros kr. case_match eqn:E; [|by intros []]. by bool_hyps.
Qed.

Lemma sound_fenceFileReferences sid nowMS : sound (fenceFileReferenceCommandsAfterWriterReplacement sid nowMS).
Proof.
  unfold fenceFileReferenceCommandsAfterWriterReplacement.
  apply sound_bind; [intros w Hw; rewrite wp_exec; by apply step_drop_file_capability|intros _].
  intros w Hw.
  assert (sound (rows ← query (open_file_commands sid);
    for_each rows (fence_file_command sid nowMS) ≫= λ _, mret tt)) as Hs.
  { apply (summarised_rows _ sid); [|apply summarised_fence_file_command|apply sound_ret].
    intros. by apply open_file_commands_summarised. }
  specialize (Hs w Hw). rewrite wp_bind, wp_query in Hs |- *. rewrite wp_bind in Hs.
  eapply wp_mono; [exact Hs|done|done].
Qed.

Lemma sound_fenceRunControls sid nowMS : sound (fenceRunControlsAfterWriterReplacement sid nowMS).
Proof.
  unfold fenceRunControlsAfterWriterReplacement. apply sound_bind; [sound_auto|intros _].
  apply (summarised_rows _ sid); [|apply summarised_fence_control|apply sound_fenceFileReferences].
  intros. by apply pending_controls_summarised.
Qed.

(** ** Mutations *)

Lemma sound_withConnectionMutation {A} tx (m : M A) : sound m → sound (withConnectionMutation tx m).
Proof. intros Hm. destruct tx; [done|]. by apply sound_tx, sound_weaken. Qed.

Lemma sound_updateConnectionAfter tx sid fenced wher set after :
  (∀ now fence, forward (wher now) (set now fence)) → (∀ c now, sound (after c now)) →
  sound (updateConnectionAfter tx sid fenced wher set after).
Proof.
  intros Hf Ha. apply sound_withConnectionMutation.
  apply sound_bind; [apply sound_on_error, sound_update_row, forward_id|intros locked].
  apply sound_bind; [apply sound_fail_if|intros _].
  apply sound_bind.
  { destruct fenced; [|apply sound_ret]. intros w Hw. apply wp_allocate_sync; [by apply stepped_refl|done]. }
  intros fence. sound_auto. by apply sound_update_row.
Qed.

Lemma forward_refresh wher now expires : forward wher (refresh_row now expires).
Proof. intros next sid c [] _ _ _. split; [by split; simpl; try lia|done]. Qed.

Lemma forward_end wher now : forward wher (end_row now).
Proof. intros next sid c [] _ _ _. split; [by split; simpl; try lia|done]. Qed.

Lemma forward_hello wher now fence : forward wher (hello_row now fence).
Proof. intros next sid c [] _ ? _. split; [split; simpl in *; try lia; done|done]. Qed.

Lemma forward_rotation wher now rotation :
  (∀ c, wher c = true → cr_credential_generation_high_watermark c < ro_PendingGeneration rotation) →
  forward wher (rotation_row now rotation).
Proof.
  intros Hw next sid c [Hc _ _] Ht _ _. specialize (Hw c Ht). unfold connection_checks in Hc. bool_hyps.
  split; [split; simpl; try lia; done|]. simpl. intros g [= <-]. lia.
Qed.

Lemma forward_activate wher now fence :
  (∀ c, wher c = true → is_Some (cr_pending_credential_generation c)) →
  forward wher (activate_row now fence).
Proof.
  intros Hw next sid c [_ _ Hp] Ht Hfence _. destruct (Hw c Ht) as [g Hg]. specialize (Hp g Hg).
  split; [|done]. split; simpl in *; rewrite ?Hg; simpl; try lia; done.
Qed.

Lemma sound_Initialize tx request : sound (InitializeAdapterConnection tx request).
Proof.
  unfold InitializeAdapterConnection. cbv zeta. apply sound_bind; [apply sound_fail_if|intros _].
  apply sound_withConnectionMutation. apply sound_bind; [apply sound_now|intros nowMS].
  apply sound_bind; [apply sound_fail_if|intros _].
  intros w Hw. rewrite wp_bind, wp_query, wp_bind.
  set (row := mkConnectionRow _ _ _ _ _ _ _ _ _ _ _ _ _).
  eapply (wp_mono _ (λ _ w', stepped w w') _ (λ _ w', stepped w w')); [| |done].
  - destruct (_ && _) eqn:Hb; [|by apply sound_ret]. bool_hyps. rewrite wp_exec.
    apply step_connection; [done| |].
    + intros c Hc. congruence.
    + split; [done| |done]. pose proof (si_fence _ Hw). simpl. lia.
  - intros _ w' Hw'. eapply sound_wp; [|exact Hw'|done]. sound_auto.
Qed.

Lemma sound_ValidateWarmAttach sid g e : sound (ValidateWarmAttachTargetActivation sid g e).
Proof. unfold ValidateWarmAttachTargetActivation. sound_auto. Qed.

Lemma sound_Refresh tx sid refresh : sound (RefreshAdapterCredentialBeforeHello tx sid refresh).
Proof.
  unfold RefreshAdapterCredentialBeforeHello. apply sound_bind; [apply sound_fail_if|intros _].
  apply sound_updateConnectionAfter; [intros; apply forward_refresh|intros; apply sound_ret].
Qed.

Lemma sound_Terminate tx sid g : sound (TerminateAdapterConnectionBeforeHello tx sid g).
Proof.
  unfold TerminateAdapterConnectionBeforeHello. apply sound_bind; [apply sound_fail_if|intros _].
  apply sound_updateConnectionAfter; [intros; apply forward_end|intros; apply sound_fenceRunControls].
Qed.

Lemma sound_upsert_live_writer sid writer : sound (upsert_live_writer sid writer).
Proof. unfold upsert_live_writer. sound_auto. Qed.

Lemma sound_AcceptAdapterHello tx sid hello : sound (AcceptAdapterHello tx sid hello).
Proof.
  unfold AcceptAdapterHello. apply sound_bind; [apply sound_fail_if|intros _].
  apply sound_bind; [apply sound_GetAdapterConnection|intros _].
  apply sound_updateConnectionAfter; [intros; apply forward_hello|].
  intros c now. destruct (bool_decide _); [apply sound_fenceRunControls|].
  apply sound_bind; [apply sound_fail_if|intros _].
  apply sound_bind; [apply sound_upsert_live_writer|intros _]. apply sound_fenceRunControls.
Qed.

Lemma sound_PrepareRotation tx sid rotation : sound (PrepareAdapterCredentialRotation tx sid rotation).
Proof.
  unfold PrepareAdapterCredentialRotation. cbv zeta. apply sound_bind; [apply sound_fail_if|intros _].
  apply sound_updateConnectionAfter; [|intros; apply sound_ret].
  intros now fence. apply forward_rotation. intros c Hc. by bool_hyps.
Qed.

Lemma sound_Activate tx sid activation : sound (ActivateAdapterCredential tx sid activation).
Proof.
  unfold ActivateAdapterCredential. apply sound_bind; [apply sound_fail_if|intros _].
  apply sound_bind; [apply sound_GetAdapterConnection|intros _].
  apply sound_updateConnectionAfter; [|intros; apply sound_ret].
  intros now fence. apply forward_activate. intros c Hc. bool_hyps. eauto.
Qed.

Lemma sound_ValidateAdmission {E} `{!Outcome E} tx sid admission :
  sound_with E (ValidateAdapterAdmission tx sid admission).
Proof.
  unfold ValidateAdapterAdmission, attentionMigrationPending. sound_auto.
  apply sound_update_row, forward_id.
Qed.

Lemma sound_validateLiveSettingsWriter {E} `{!Outcome E} sid writer :
  sound_with E (validateLiveSettingsWriter sid writer).
Proof. unfold validateLiveSettingsWriter. sound_auto. Qed.

Lemma sound_issueReceipt {E} `{!Outcome E} sid admission writer :
  sound_with E (issueAdapterConnectionAuthorityReceipt sid admission writer).
Proof.
  unfold issueAdapterConnectionAuthorityReceipt. sound_auto;
    [apply sound_ValidateAdmission|apply sound_validateLiveSettingsWriter].
Qed.

Lemma sound_IssueReceipt tx sid admission writer :
  sound (IssueAdapterConnectionAuthorityReceipt tx sid admission writer).
Proof.
  unfold IssueAdapterConnectionAuthorityReceipt. apply sound_bind; [apply sound_fail_if|intros _].
  destruct tx; [|apply sound_tx]; apply sound_issueReceipt.
Qed.

Lemma sound_validateCommandAuthority {E} `{!Outcome E} sid authority now :
  sound_with E (validateCommandAuthority sid authority now).
Proof. unfold validateCommandAuthority. sound_auto. Qed.

Lemma sound_lockCommandAuthority {E} `{!Outcome E} sid authority : sound_with E (lockCommandAuthority sid authority).
Proof. unfold lockCommandAuthority. sound_auto. apply sound_update_row, forward_id. Qed.

End StoreSound.

#[export] Hint Resolve StoreSound.sound_fence_terminal StoreSound.sound_Append StoreSound.sound_load
  StoreSound.sound_ledger StoreSound.sound_AllocateAdapterGrantFence StoreSound.sound_queryWhere
  StoreSound.sound_queryAdapterConnection StoreSound.sound_GetAdapterConnection
  StoreSound.sound_fenceRunControls StoreSound.sound_Initialize StoreSound.sound_ValidateWarmAttach
  StoreSound.sound_Refresh StoreSound.sound_Terminate StoreSound.sound_AcceptAdapterHello
  StoreSound.sound_PrepareRotation StoreSound.sound_Activate StoreSound.sound_ValidateAdmission
  StoreSound.sound_validateLiveSettingsWriter StoreSound.sound_IssueReceipt
  StoreSound.sound_validateCommandAuthority StoreSound.sound_lockCommandAuthority : sound.
