(* ===== verification/CommandLedger.v ===== *)
(** * The command ledger of [store/sqlite/store.go]

    A client command is committed once: its event and its row in
    [session_pending_commands] appear in one transaction, a retry with the same
    command ID finds the row, and the row then moves from [pending] over
    [received] to an outcome, each step taken by at most one caller.  A
    proposed event is committed once per proposal ID in the same way.
    [encrypted] selects the sealed variants, whose events are carriers. *)

From S2P Require Import Prelude StoreApi Json EncryptedPacket Sqlite Attention EventLog.
From S2P Require Import AttentionSpec Connections Invariant StoreSound.
From stdpp Require Import base gmap strings list sorting.
#[local] Open Scope Z_scope.

Module CommandLedger.
Import Attention EventLog Connections.

(** ** Data *)

Definition PendingCommandPending : string := "pending".
Definition PendingCommandReceived : string := "received".
Definition PendingCommandCompleted : string := "completed".
Definition PendingCommandOutcomeUnknown : string := "outcome_unknown".

Record PendingCommandRequest := mkRequest {
  rq_CommandID : string;
  rq_Type : string;
  rq_ExpiresAt : time;
}.

Record PendingCommand := mkPendingCommand {
  cm_SessionID : string;
  cm_CommandID : string;
  cm_Type : string;
  cm_EventSeq : Z;
  cm_Status : string;
  cm_ExpiresAt : time;
}.

Record PendingCommandCommit := mkCommit { Command : PendingCommand; Duplicate : bool }.
Record PendingCommandClaim := mkClaim { cl_Command : PendingCommand; Claimed : bool }.

Record ProposedEventReceipt := mkProposedReceipt {
  pr_SessionID : string;
  pr_ProposalID : string;
  pr_Seq : Z;
}.

Definition maxEventPayloadSize : Z := 64 * 1024.

Definition ValidEncryptedCommandType (kind : string) : bool :=
  bool_decide (kind ∈ ["session.send"; "session.interrupt"; "session.stop"; "permission.respond";
    "session.settings.change"; "session.membership.change"; "session.file.read"; "session.file.list"]).

Definition with_status (status : string) (c : PendingCommand) : PendingCommand :=
  mkPendingCommand (cm_SessionID c) (cm_CommandID c) (cm_Type c) (cm_EventSeq c) status (cm_ExpiresAt c).

(** [nowMS*int64(time.Millisecond)] *)
Definition nanos (ms : Z) : Z := i64 (ms * 1000000).

(** ** Validation *)

(** [json.Unmarshal(payload, &struct{Role string}) == nil && payload.Role == "user"] *)
Definition user_message (payload : string) : bool :=
  match Json.unmarshalStrings ["role"] payload with
  | Some [role] => bool_decide (role = "user")
  | _ => false
  end.

Definition payload_fits (payload : string) : bool :=
  bool_decide (1 ≤ len payload) && bool_decide (len payload ≤ maxEventPayloadSize).

Definition validatePendingCommandInput (event : PendingEvent) (request : PendingCommandRequest)
    (storeNow : time) : bool :=
  negb (bool_decide (rq_CommandID request = "") || bool_decide (256 < len (rq_CommandID request))
        || bool_decide (rq_Type request ≠ "session.send") || bool_decide (pe_Type event ≠ "session.message")
        || negb (payload_fits (pe_Payload event)) || negb (user_message (pe_Payload event))
        || negb (After (rq_ExpiresAt request) storeNow)
        || After (rq_ExpiresAt request) (storeNow + 30000000000)).

Definition is_carrier (scope : string) (payload type commandID : string) : bool :=
  match EncryptedPacket.DecodeEncryptedPacketCarrier payload scope type commandID with
  | Some _ => true
  | None => false
  end.

Definition validateEncryptedPendingCommandInput (event : PendingEvent) (request : PendingCommandRequest)
    (storeNow : time) : bool :=
  negb (bool_decide (rq_CommandID request = "") || bool_decide (256 < len (rq_CommandID request))
        || negb (ValidEncryptedCommandType (rq_Type request)) || bool_decide (pe_Type event ≠ "session.command")
        || negb (After (rq_ExpiresAt request) storeNow)
        || After (rq_ExpiresAt request) (storeNow + 30000000000)) &&
  is_carrier "command" (pe_Payload event) (rq_Type request) (rq_CommandID request).

Definition valid_input (encrypted : bool) (event : PendingEvent) (request : PendingCommandRequest)
    (nowMS : Z) : bool :=
  if encrypted then validateEncryptedPendingCommandInput event request (of_UnixMilli nowMS)
  else validatePendingCommandInput event request (of_UnixMilli nowMS).

Definition validPendingCommandStatus (status : string) : bool :=
  bool_decide (status ∈ [PendingCommandPending; PendingCommandReceived; PendingCommandCompleted;
                         PendingCommandOutcomeUnknown]).

(** ** Reading a command *)

Definition scan_command (sessionID commandID : string) (r : command_row) : PendingCommand :=
  mkPendingCommand sessionID commandID (pc_type r) (pc_event_seq r) (pc_status r) (pc_expires_at_ns r).

(** The row joined with its event, whose payload is neither empty nor too large. *)
Definition command_with_event (sessionID commandID : string) (d : DB) : option (command_row * event_row) :=
  r ← pending_commands d !! (sessionID, commandID);
  e ← event_at sessionID (pc_event_seq r) d;
  if payload_fits (er_payload e) then Some (r, e) else None.

(** the bounds every scan of a command row checks *)
Definition row_times_valid (r : command_row) (nowMS : Z) : bool :=
  bool_decide (1 ≤ pc_created_at_ms r) && bool_decide (pc_created_at_ms r ≤ nowMS) &&
  bool_decide (nanos (pc_created_at_ms r) < pc_expires_at_ns r) &&
  bool_decide (pc_expires_at_ns r ≤ nanos (nowMS + 30000)).

Definition queryPendingCommand (sessionID commandID : string) (nowMS : Z) : M PendingCommand :=
  re ← query_row (command_with_event sessionID commandID);
  let '(r, e) := re in
  fail_if (negb (
      bool_decide (sessionID ≠ "") && bool_decide (len sessionID ≤ 255) && bool_decide (commandID ≠ "") &&
      bool_decide (len commandID ≤ 256) && bool_decide (pc_type r = "session.send") &&
      bool_decide (1 ≤ pc_event_seq r) && validPendingCommandStatus (pc_status r) && row_times_valid r nowMS &&
      bool_decide (pc_expires_at_ns r ≤ nanos (pc_created_at_ms r + 30000)) &&
      bool_decide (er_type e = "session.message") && user_message (er_payload e)))
    (Err "pending command row is invalid") ≫= λ _,
  mret (scan_command sessionID commandID r).

Definition queryEncryptedPendingCommand (sessionID commandID : string) (nowMS : Z) : M PendingCommand :=
  re ← query_row (command_with_event sessionID commandID);
  let '(r, e) := re in
  fail_if (negb (
      bool_decide (sessionID ≠ "") && bool_decide (commandID ≠ "") && bool_decide (1 ≤ pc_event_seq r) &&
      validPendingCommandStatus (pc_status r) && row_times_valid r nowMS &&
      bool_decide (er_type e = "session.command") &&
      is_carrier "command" (er_payload e) (pc_type r) commandID))
    (Err "encrypted pending command row is invalid") ≫= λ _,
  mret (scan_command sessionID commandID r).

Definition validateEncryptedCommandRow (command : PendingCommand) : M unit :=
  fail_if (negb (ValidEncryptedCommandType (cm_Type command)) || bool_decide (cm_EventSeq command < 1))
    (Err "invalid encrypted command reference") ≫= λ _,
  e ← on_error (λ _, Err "encrypted command event unavailable")
        (query_row (event_at (cm_SessionID command) (cm_EventSeq command)));
  fail_if (negb (is_carrier "command" (er_payload e) (cm_Type command) (cm_CommandID command))
           || bool_decide (er_type e ≠ "session.command"))
    (Err "invalid encrypted command event").

(** ** Committing a command *)

Definition command_types : list string :=
  ["session.send"; "session.interrupt"; "session.stop"; "permission.respond"; "session.settings.change";
   "session.membership.change"; "session.file.read"; "session.file.list"].

(** The CHECKs of [session_pending_commands]. *)
Definition command_checks (sessionID commandID : string) (r : command_row) : bool :=
  text_between 1 sessionID 255 && text_between 1 commandID 256 && bool_decide (pc_type r ∈ command_types) &&
  bool_decide (0 < pc_event_seq r) &&
  bool_decide (pc_status r ∈ ["pending"; "received"; "completed"; "outcome_unknown"]) &&
  bool_decide (pc_created_at_ms r * 1000000 < pc_expires_at_ns r) &&
  bool_decide (pc_expires_at_ns r ≤ (pc_created_at_ms r + 30000) * 1000000).

Definition insert_command (sessionID commandID : string) (r : command_row) : M unit :=
  d ← query id;
  check "session_pending_commands" (command_checks sessionID commandID r) ≫= λ _,
  check "session_pending_commands.session_id, session_pending_commands.cmd_id"
    (match pending_commands d !! (sessionID, commandID) with Some _ => false | None => true end) ≫= λ _,
  check "FOREIGN KEY" (bool_decide (is_Some (event_at sessionID (pc_event_seq r) d))) ≫= λ _,
  exec (upd_pending_commands (<[(sessionID, commandID) := r]>)).

(** A retry of a sealed command must repeat the stored event and type. *)
Definition check_encrypted_retry (sessionID : string) (existing : PendingCommand) (event : PendingEvent)
    (request : PendingCommandRequest) : M unit :=
  stored ← query (event_at sessionID (cm_EventSeq existing));
  let same := match stored with
    | Some e => bool_decide (er_type e = pe_Type event) && bool_decide (er_payload e = pe_Payload event) &&
                bool_decide (cm_Type existing = rq_Type request)
    | None => false
    end in
  fail_if (negb same) (Err "conflicting encrypted command retry").

Definition commitPendingCommand (sessionID : string) (authority : CommandAuthority) (event : PendingEvent)
    (request : PendingCommandRequest) (encrypted : bool) : M PendingCommandCommit :=
  with_tx (
    nowMS ← nowMillis;
    fail_if (negb (valid_input encrypted event request nowMS)) (Err "invalid pending command") ≫= λ _,
    validateCommandAuthority sessionID authority nowMS ≫= λ _,
    r ← try_ (queryPendingCommand sessionID (rq_CommandID request) nowMS);
    match r with
    | inr existing =>
        (if encrypted then check_encrypted_retry sessionID existing event request else mret tt) ≫= λ _,
        mret (mkCommit existing true)
    | inl err =>
        fail_if (negb (is_no_rows err)) (Wrap "select pending command" err) ≫= λ _,
        latest ← query (latest_seq sessionID);
        let seq := i64 (latest + 1) in
        on_error (Wrap "append pending command event")
          (insert_event (event_row_of sessionID seq nowMS event)) ≫= λ _,
        terminal ← on_error (Wrap "project pending command attention event")
          (projectSQLiteAttentionEvent sessionID seq event nowMS);
        fail_if terminal (Err "pending command event must not be terminal") ≫= λ _,
        nowMS ← nowMillis;
        fail_if (negb (valid_input encrypted event request nowMS)) (Err "invalid pending command") ≫= λ _,
        validateCommandAuthority sessionID authority nowMS ≫= λ _,
        on_error (Wrap "insert pending command")
          (insert_command sessionID (rq_CommandID request)
             (mkCommandRow (rq_Type request) seq "pending" (UnixNano (rq_ExpiresAt request)) nowMS nowMS)) ≫= λ _,
        upsertSQLiteAttentionLedger sessionID None (Some nowMS) ≫= λ _,
        mret (mkCommit (mkPendingCommand sessionID (rq_CommandID request) (rq_Type request) seq
                          PendingCommandPending (rq_ExpiresAt request)) false)
    end).

(** ** Claiming and resolving *)

Definition set_command_status (status : string) (nowMS : Z) (r : command_row) : command_row :=
  mkCommandRow (pc_type r) (pc_event_seq r) status (pc_expires_at_ns r) (pc_created_at_ms r) nowMS.

(** [UPDATE session_pending_commands SET status = ?, updated_at_ms = ? WHERE
    session_id = ? AND cmd_id = ? AND ...]: rows changed. *)
Definition update_command (sessionID commandID : string) (wher : command_row → bool)
    (set : command_row → command_row) : M Z :=
  row ← query (λ d, pending_commands d !! (sessionID, commandID));
  match row with
  | Some r => if wher r then
                exec (upd_pending_commands (<[(sessionID, commandID) := set r]>)) ≫= λ _, mret 1
              else mret 0
  | None => mret 0
  end.

Definition claimPendingCommand (sessionID : string) (authority : CommandAuthority) (commandID : string)
    (encrypted : bool) : M PendingCommandClaim :=
  with_tx (
    nowMS ← nowMillis;
    validateCommandAuthority sessionID authority nowMS ≫= λ _,
    command ← on_error (Wrap "select claimable pending command")
      (if encrypted then queryEncryptedPendingCommand sessionID commandID nowMS
       else queryPendingCommand sessionID commandID nowMS);
    (if encrypted then
       validateEncryptedCommandRow command ≫= λ _,
       fail_if (bool_decide (cm_Status command ∉ [PendingCommandPending; PendingCommandReceived]))
         (Err "encrypted command is not claimable")
     else mret tt) ≫= λ _,
    fail_if (negb (validPendingCommandStatus (cm_Status command))) (Err "pending command status is invalid") ≫= λ _,
    fail_if (bool_decide (UnixNano (cm_ExpiresAt command) ≤ nanos nowMS)) (Err "pending command expired") ≫= λ _,
    if bool_decide (cm_Status command = PendingCommandPending) then
      nowMS ← nowMillis;
      validateCommandAuthority sessionID authority nowMS ≫= λ _,
      changed ← update_command sessionID commandID
        (λ r, bool_decide (pc_status r = "pending") && bool_decide (nanos nowMS < pc_expires_at_ns r))
        (set_command_status "received" nowMS);
      fail_if (bool_decide (changed ≠ 1)) (Err "pending command claim lost authority") ≫= λ _,
      mret (mkClaim (with_status PendingCommandReceived command) true)
    else mret (mkClaim command false)).

Definition outcome_unknown_blocker : AttentionBlocker :=
  mkBlocker "outcome_unknown" None None None (Some "command").

Definition resolvePendingCommand (sessionID : string) (authority : CommandAuthority) (commandID status : string)
    (encrypted : bool) : M PendingCommand :=
  fail_if (bool_decide (status ∉ [PendingCommandCompleted; PendingCommandOutcomeUnknown]))
    (Err "invalid pending command outcome") ≫= λ _,
  with_tx (
    nowMS ← nowMillis;
    validateCommandAuthority sessionID authority nowMS ≫= λ _,
    command ← on_error (Wrap "select resolvable pending command")
      (if encrypted then queryEncryptedPendingCommand sessionID commandID nowMS
       else queryPendingCommand sessionID commandID nowMS);
    (if encrypted then validateEncryptedCommandRow command else mret tt) ≫= λ _,
    fail_if (negb (validPendingCommandStatus (cm_Status command))
             || bool_decide (cm_Status command ≠ PendingCommandReceived))
      (Err "pending command is not received") ≫= λ _,
    nowMS ← nowMillis;
    validateCommandAuthority sessionID authority nowMS ≫= λ _,
    changed ← update_command sessionID commandID (λ r, bool_decide (pc_status r = "received"))
      (set_command_status status nowMS);
    fail_if (bool_decide (changed ≠ 1)) (Err "pending command resolution lost authority") ≫= λ _,
    (if bool_decide (status = PendingCommandOutcomeUnknown)
     then upsertSQLiteAttentionLedger sessionID (Some outcome_unknown_blocker) None
     else mret tt) ≫= λ _,
    mret (with_status status command)).

Definition resolvePendingCommandUnknown (sessionID commandID : string) (encrypted : bool) : M PendingCommand :=
  with_tx (
    nowMS ← nowMillis;
    r ← on_error (Wrap "select received pending command")
      (query_row (λ d, r ← pending_commands d !! (sessionID, commandID);
                       if bool_decide (pc_status r = "received") then Some r else None));
    fail_if ((encrypted && negb (ValidEncryptedCommandType (pc_type r)))
             || (negb encrypted && bool_decide (pc_type r ≠ "session.send"))
             || bool_decide (pc_event_seq r < 1) || bool_decide (pc_created_at_ms r < 1)
             || bool_decide (nowMS < pc_created_at_ms r))
      (Err "received pending command row is invalid") ≫= λ _,
    (if encrypted then
       e ← query_row (event_at sessionID (pc_event_seq r));
       fail_if (negb (is_carrier "command" (er_payload e) (pc_type r) commandID)
                || bool_decide (er_type e ≠ "session.command")) (Err "invalid encrypted pending command")
     else mret tt) ≫= λ _,
    changed ← update_command sessionID commandID (λ r, bool_decide (pc_status r = "received"))
      (set_command_status "outcome_unknown" nowMS);
    fail_if (bool_decide (changed ≠ 1)) (Err "pending command outcome unknown lost race") ≫= λ _,
    upsertSQLiteAttentionLedger sessionID (Some outcome_unknown_blocker) None ≫= λ _,
    mret (with_status PendingCommandOutcomeUnknown (scan_command sessionID commandID r))).

(** ** Listing what is still deliverable *)

Definition by_event_seq (a b : string * command_row * event_row) : Prop :=
  pc_event_seq a.1.2 ≤ pc_event_seq b.1.2.
#[global] Instance by_event_seq_dec a b : Decision (by_event_seq a b).
Proof. unfold by_event_seq. apply _. Defined.

Definition deliverable_rows (sessionID : string) (nowNS : Z) (d : DB) : list (string * command_row * event_row) :=
  omap (λ kr : string * string * command_row,
          let '(sid, cmd, r) := kr in
          e ← event_at sessionID (pc_event_seq r) d;
          if bool_decide (sid = sessionID) && bool_decide (pc_status r ∈ ["pending"; "received"]) &&
             bool_decide (nowNS < pc_expires_at_ns r) &&
             bool_decide (er_type e ∈ ["session.message"; "session.command"]) && payload_fits (er_payload e)
          then Some (cmd, r, e) else None)
    (map_to_list (pending_commands d)).

Definition listPendingCommands (sessionID : string) (authority : CommandAuthority) (encrypted : bool)
    : M (list PendingCommand) :=
  with_tx (
    nowMS ← nowMillis;
    validateCommandAuthority sessionID authority nowMS ≫= λ _,
    rows ← query (λ d, merge_sort by_event_seq (deliverable_rows sessionID (nanos nowMS) d));
    for_each rows (λ row : string * command_row * event_row,
      let '(cmd, r, e) := row in
      fail_if (bool_decide (cmd = "") || bool_decide (256 < len cmd)
               || (negb encrypted && bool_decide (pc_type r ≠ "session.send")) || bool_decide (pc_event_seq r < 1)
               || negb (row_times_valid r nowMS)
               || bool_decide (nanos (pc_created_at_ms r + 30000) < pc_expires_at_ns r)
               || bool_decide (er_type e ≠ if encrypted then "session.command" else "session.message")
               || negb (valid_input encrypted
                          (mkPendingEvent (er_type e) (of_UnixMilli (pc_created_at_ms r)) (er_payload e))
                          (mkRequest cmd (pc_type r) (pc_expires_at_ns r)) nowMS))
        (Err "pending command row is invalid")) ≫= λ _,
    mret ((λ row, scan_command sessionID row.1.1 row.1.2) <$> rows)).

(** ** Proposed events *)

Definition json_valid (payload : string) : bool :=
  match Json.parse payload with Some _ => true | None => false end.

Definition validateProposedEventInput (sessionID : string) (authority : CommandAuthority) (proposalID : string)
    (event : PendingEvent) : bool :=
  negb (bool_decide (sessionID = "") || bool_decide (255 < len sessionID) || bool_decide (proposalID = "")
        || bool_decide (255 < len proposalID) || bool_decide (ca_ConnectionEpoch authority < 1)
        || bool_decide (ca_CredentialGeneration authority < 1) || bool_decide (pe_Type event = "")
        || negb (payload_fits (pe_Payload event)) || negb (json_valid (pe_Payload event))).

(** The receipt, and type, time and payload of the event it stands for. *)
Definition queryProposedEvent (sessionID proposalID : string) (nowMS : Z) : M (ProposedEventReceipt * event_row) :=
  p ← query_row (λ d, event_proposals d !! (sessionID, proposalID));
  e ← query (event_at sessionID (pp_event_seq p));
  match e with
  | Some e =>
      fail_if (negb (bool_decide (1 ≤ pp_event_seq p) && bool_decide (1 ≤ pp_created_at_ms p)
                     && bool_decide (pp_created_at_ms p ≤ nowMS) && bool_decide (er_type e ≠ "")
                     && payload_fits (er_payload e) && json_valid (er_payload e)))
        (Err "proposed event row is invalid") ≫= λ _,
      mret (mkProposedReceipt sessionID proposalID (pp_event_seq p), e)
  | None => throw (Err "proposed event row is invalid")
  end.

(** [INSERT INTO session_event_proposals SELECT ... FROM session_adapter_connections
    WHERE ...]: rows inserted. *)
Definition insert_proposal (sessionID proposalID : string) (seq : Z) (authority : CommandAuthority) (nowMS : Z)
    : M Z :=
  d ← query id;
  match connections d !! sessionID with
  | Some c =>
      if holds_authority authority nowMS c then
        check "session_event_proposals"
          (text_between 1 sessionID 255 && text_between 1 proposalID 255 && bool_decide (0 < seq)
           && bool_decide (0 < nowMS)) ≫= λ _,
        check "session_event_proposals.session_id, session_event_proposals.proposal_id"
          (match event_proposals d !! (sessionID, proposalID) with Some _ => false | None => true end) ≫= λ _,
        check "session_event_proposals.session_id, session_event_proposals.event_seq"
          (forallb (λ kp : string * string * proposal_row,
                      negb (bool_decide (kp.1.1 = sessionID) && bool_decide (pp_event_seq kp.2 = seq)))
             (map_to_list (event_proposals d))) ≫= λ _,
        check "FOREIGN KEY" (bool_decide (is_Some (event_at sessionID seq d))) ≫= λ _,
        exec (upd_proposals (<[(sessionID, proposalID) := mkProposalRow seq nowMS]>)) ≫= λ _,
        mret 1
      else mret 0
  | None => mret 0
  end.

Definition commitProposedEvent (sessionID : string) (authority : CommandAuthority) (proposalID : string)
    (event : PendingEvent) (encrypted : bool) : M ProposedEventReceipt :=
  fail_if (negb (validateProposedEventInput sessionID authority proposalID event)) (Err "invalid proposed event") ≫= λ _,
  projection ← lift (EncryptedPacket.sqliteProjectionEvent event encrypted);
  with_tx (
    lockCommandAuthority sessionID authority ≫= λ _,
    nowMS ← nowMillis;
    r ← try_ (queryProposedEvent sessionID proposalID nowMS);
    match r with
    | inr existing =>
        fail_if (bool_decide (er_type existing.2 ≠ pe_Type event)
                 || bool_decide (er_event_time_ms existing.2 ≠ UnixMilli (pe_Time event))
                 || bool_decide (er_payload existing.2 ≠ pe_Payload event))
          (Err "conflicting proposed event retry") ≫= λ _,
        mret existing.1
    | inl err =>
        fail_if (negb (is_no_rows err)) (Wrap "select proposed event" err) ≫= λ _,
        latest ← query (latest_seq sessionID);
        let seq := i64 (latest + 1) in
        on_error (Wrap "append proposed event") (insert_event (event_row_of sessionID seq nowMS event)) ≫= λ _,
        terminal ← on_error (Wrap "project proposed attention event")
          (projectSQLiteAttentionEvent sessionID seq projection nowMS);
        nowMS ← nowMillis;
        changed ← on_error (Wrap "insert proposed event receipt")
          (insert_proposal sessionID proposalID seq authority nowMS);
        fail_if (bool_decide (changed ≠ 1)) (Err "proposed event lost authority") ≫= λ _,
        (if terminal : bool
         then on_error (Wrap "fence terminal proposed event") (fence_terminal sessionID nowMS)
         else mret tt) ≫= λ _,
        mret (mkProposedReceipt sessionID proposalID seq)
    end).

(** ** Soundness *)

Import AttentionSpec Invariant StoreSound.

(** Numbering, inserting and projecting one event inside a transaction. *)
Lemma tsound_insert_project {A} sid createdAt ev pev nowMS f g (k : Z → bool → M A) :
  (∀ seq, reads (event_row_of sid seq createdAt ev) (sqliteAttentionEventProjection pev)) →
  (∀ latest t, tsound (k latest t)) →
  tsound (latest ← query (latest_seq sid);
          on_error f (insert_event (event_row_of sid (i64 (latest + 1)) createdAt ev)) ≫= λ _,
          t ← on_error g (projectSQLiteAttentionEvent sid (i64 (latest + 1)) pev nowMS);
          k latest t).
Proof.
  intros Hreads Hk w Hw. rewrite wp_bind, wp_query, wp_bind, wp_on_error.
  pose proof (stepped_refl w Hw) as Hrefl.
  apply insert_next; [done|done|]. intros Hseq Hmax. rewrite Hseq in *.
  rewrite wp_bind, wp_on_error.
  apply (project_next w w _ createdAt ev); try done. intros d' _ Hstep.
  eapply sound_wp; [by apply Hk|exact Hstep|done].
Qed.

Lemma event_at_range sid seq w e :
  store_inv w → event_at sid seq (db w) = Some e → 1 ≤ seq ≤ latest_seq sid (db w).
Proof.
  intros Hw He. unfold event_at in He. destruct (list_find _ _) as [[i r]|] eqn:E; [|done].
  apply list_find_Some in E as (Hi & [Hs <-] & _).
  assert (r ∈ session_rows sid (db w)) as Hin.
  { apply list_elem_of_filter. split; [done|]. by eapply list_elem_of_lookup_2. }
  split; [|by apply max_seq_ge].
  apply list_elem_of_lookup in Hin as [j Hj]. destruct (si_log _ Hw sid) as [Hd _].
  rewrite (Hd j r Hj). lia.
Qed.

Lemma sound_queryPendingCommand {E} `{!Outcome E} sid cmd now : sound_with E (queryPendingCommand sid cmd now).
Proof. unfold queryPendingCommand. sound_auto. Qed.
Lemma sound_queryEncryptedPendingCommand {E} `{!Outcome E} sid cmd now :
  sound_with E (queryEncryptedPendingCommand sid cmd now).
Proof. unfold queryEncryptedPendingCommand. sound_auto. Qed.
Lemma sound_validateEncryptedCommandRow {E} `{!Outcome E} c : sound_with E (validateEncryptedCommandRow c).
Proof. unfold validateEncryptedCommandRow. sound_auto. Qed.
Lemma sound_check_encrypted_retry {E} `{!Outcome E} sid c ev rq : sound_with E (check_encrypted_retry sid c ev rq).
Proof. unfold check_encrypted_retry. sound_auto. Qed.
Lemma sound_queryProposedEvent {E} `{!Outcome E} sid id now : sound_with E (queryProposedEvent sid id now).
Proof. unfold queryProposedEvent. sound_auto. Qed.

#[local] Hint Resolve sound_queryPendingCommand sound_queryEncryptedPendingCommand
  sound_validateEncryptedCommandRow sound_check_encrypted_retry sound_queryProposedEvent : sound.

Lemma sound_insert_command sid cmd r : sound (insert_command sid cmd r).
Proof.
  intros w Hw. unfold insert_command. db_steps; try by apply stepped_refl. bool_hyps. unfold id in *.
  match goal with H : is_Some (event_at _ _ _) |- _ => destruct H as [e He] end.
  apply step_command; [done| |by eapply event_at_range].
  intros c Hc. by destruct (pending_commands (db w) !! (sid, cmd)).
Qed.

Lemma sound_update_command sid cmd wher set :
  (∀ r, wher r = true → command_evolves r (set r)) → sound (update_command sid cmd wher set).
Proof.
  intros Hset w Hw. unfold update_command. db_steps; try by apply stepped_refl.
  pose proof (si_commands _ Hw (sid, cmd) _ E) as Hseq. pose proof (Hset _ E0) as Hev.
  apply step_command; [done| |].
  - intros r' Hr'. by simplify_eq.
  - by rewrite (ce_seq _ _ Hev).
Qed.

Lemma received_evolves now r : pc_status r = "pending" → command_evolves r (set_command_status "received" now r).
Proof. intros Hp. split; try done. right. left. split; [done|]. set_solver. Qed.

Lemma resolved_evolves status now r :
  status ∈ [PendingCommandCompleted; PendingCommandOutcomeUnknown] → pc_status r = "received" →
  command_evolves r (set_command_status status now r).
Proof. intros Hs Hp. split; try done. by right; right. Qed.

Lemma sound_insert_proposal sid id seq authority now : sound (insert_proposal sid id seq authority now).
Proof.
  intros w Hw. unfold insert_proposal. db_steps; try by apply stepped_refl. bool_hyps. unfold Datatypes.id in *.
  match goal with H : is_Some (event_at _ _ _) |- _ => destruct H as [e He] end.
  apply step_proposal; [done| |by eapply event_at_range].
  by destruct (event_proposals (db w) !! (sid, id)).
Qed.

Lemma sound_commitPendingCommand sid authority ev request encrypted :
  sound (commitPendingCommand sid authority ev request encrypted).
Proof.
  apply sound_tx. apply sound_bind; [apply sound_now|intros now].
  apply sound_bind; [apply sound_fail_if|intros _].
  apply sound_bind; [apply sound_validateCommandAuthority|intros _].
  apply sound_bind; [apply sound_try, sound_queryPendingCommand|intros [err|existing]]; [|sound_auto].
  apply sound_bind; [apply sound_fail_if|intros _].
  apply tsound_insert_project; [intros; apply reads_plain|].
  intros latest t. sound_auto; apply sound_weaken; [apply sound_insert_command|apply sound_ledger].
Qed.

Lemma sound_claimPendingCommand sid authority cmd encrypted :
  sound (claimPendingCommand sid authority cmd encrypted).
Proof.
  unfold claimPendingCommand. sound_auto; apply sound_weaken, sound_update_command.
  all: intros r Hr; bool_hyps; by apply received_evolves.
Qed.

Lemma sound_resolvePendingCommand sid authority cmd status encrypted :
  sound (resolvePendingCommand sid authority cmd status encrypted).
Proof.
  unfold resolvePendingCommand. apply sound_guard. intros Hs. bool_hyps. apply dec_stable in Hs.
  sound_auto; apply sound_weaken; try apply sound_ledger; apply sound_update_command.
  all: intros r Hr; bool_hyps; by apply resolved_evolves.
Qed.

Lemma sound_resolvePendingCommandUnknown sid cmd encrypted : sound (resolvePendingCommandUnknown sid cmd encrypted).
Proof.
  unfold resolvePendingCommandUnknown. sound_auto; apply sound_weaken; try apply sound_ledger;
    apply sound_update_command.
  all: intros r Hr; bool_hyps; apply resolved_evolves; [set_solver|done].
Qed.

Lemma sound_listPendingCommands sid authority encrypted : sound (listPendingCommands sid authority encrypted).
Proof. unfold listPendingCommands. sound_auto. Qed.

Lemma sound_lift_bind {A B E} `{!Outcome E} (r : error + A) (k : A → M B) :
  (∀ a, r = inr a → sound_with E (k a)) → sound_with E (lift r ≫= k).
Proof.
  intros Hk w Hw. rewrite wp_bind, wp_lift. destruct r; [by apply out_refl|by apply Hk].
Qed.

Lemma sound_commitProposedEvent sid authority id ev encrypted :
  sound (commitProposedEvent sid authority id ev encrypted).
Proof.
  unfold commitProposedEvent. apply sound_bind; [apply sound_fail_if|intros _].
  apply sound_lift_bind. intros pev Hp. apply sound_tx.
  apply sound_bind; [apply sound_lockCommandAuthority|intros _].
  apply sound_bind; [apply sound_now|intros now].
  apply sound_bind; [apply sound_try, sound_queryProposedEvent|intros [err|existing]]; [|sound_auto].
  apply sound_bind; [apply sound_fail_if|intros _].
  apply tsound_insert_project; [intros; by eapply reads_projection|].
  intros latest t. sound_auto; apply sound_weaken; [apply sound_insert_proposal|apply sound_fence_terminal].
Qed.

(** ** A command is committed once *)

Notation command_table := (λ w, pending_commands (db w)).

Lemma keeps_insert_event row : keeps command_table (insert_event row).
Proof. unfold insert_event. keeps_auto. Qed.

Lemma keeps_project sid seq ev now : keeps command_table (projectSQLiteAttentionEvent sid seq ev now).
Proof. unfold projectSQLiteAttentionEvent, loadAttentionSummary, upsertSQLiteAttentionSummary. keeps_auto. Qed.

(** What a scan that succeeds says of the row and its event. *)
Lemma wp_queryPendingCommand sid cmd now Q X w :
  (∀ r e, pending_commands (db w) !! (sid, cmd) = Some r → event_at sid (pc_event_seq r) (db w) = Some e →
     er_type e = "session.message" → Q (scan_command sid cmd r) w) →
  (∀ e, X e w) →
  wp (queryPendingCommand sid cmd now) Q X w.
Proof.
  intros HQ HX. unfold queryPendingCommand. db_steps; try done. bool_hyps.
  unfold command_with_event in *.
  destruct (pending_commands (db w) !! (sid, cmd)) as [r|] eqn:Hr; [|done]. simpl in *.
  destruct (event_at sid (pc_event_seq r) (db w)) as [e'|] eqn:He; [|done]. simpl in *.
  case_match; simplify_eq. by eapply HQ.
Qed.

Lemma wp_queryEncryptedPendingCommand sid cmd now Q X w :
  (∀ r, pending_commands (db w) !! (sid, cmd) = Some r → Q (scan_command sid cmd r) w) →
  (∀ e, X e w) →
  wp (queryEncryptedPendingCommand sid cmd now) Q X w.
Proof.
  intros HQ HX. unfold queryEncryptedPendingCommand. db_steps; try done. bool_hyps.
  unfold command_with_event in *.
  destruct (pending_commands (db w) !! (sid, cmd)) as [r|] eqn:Hr; [|done]. simpl in *.
  destruct (event_at sid (pc_event_seq r) (db w)) as [e'|] eqn:He; [|done]. simpl in *.
  case_match; simplify_eq. by apply HQ.
Qed.

Lemma insert_command_duplicate sid cmd r r0 w Q :
  pending_commands (db w) !! (sid, cmd) = Some r0 → wp (insert_command sid cmd r) Q (λ _ _, True) w.
Proof. intros Hr. unfold insert_command. db_steps; try done. unfold id in *. by rewrite Hr in *. Qed.

(** Once the ledger has a command, committing its ID again stores nothing. *)
Lemma commit_again sid authority ev request encrypted r w :
  pending_commands (db w) !! (sid, rq_CommandID request) = Some r →
  wp (commitPendingCommand sid authority ev request encrypted)
    (λ c w', Duplicate c = true ∧ encrypted = false ∧ Command c = scan_command sid (rq_CommandID request) r ∧
             db w' = db w)
    (λ _ w', db w' = db w) w.
Proof.
  intros Hr. unfold commitPendingCommand. rewrite wp_tx. eapply (wp_mono _ _ _ (λ _ _, True)); [| |done].
  2: { intros c w' Hc. exact Hc. }
  do 2 db_step. db_step. db_step; [done|]. rewrite wp_bind. unfold validateCommandAuthority at 1.
  db_step. db_step. db_step; [done|]. rewrite wp_bind, wp_try. simpl.
  apply wp_queryPendingCommand; simpl.
  - intros r' e Hr' He Hmsg. rewrite Hr in Hr'. injection Hr' as <-. rewrite wp_bind. destruct encrypted.
    + unfold check_encrypted_retry. db_step. db_step. db_step; [done|]. exfalso.
      simpl in *. rewrite He in *. bool_hyps. unfold validateEncryptedPendingCommandInput in *. bool_hyps.
      assert (pe_Type ev = "session.command") by (by apply dec_stable). congruence.
    + by rewrite wp_ret.
  - intros err. db_step. db_step; [done|]. rewrite wp_bind, wp_query, wp_bind, wp_on_error.
    set (w0 := mkWorld _ _ _ _).
    apply (keeps_wp command_table _ w0); [apply keeps_insert_event|done| |done]. intros [] w1 Hw1.
    rewrite wp_bind, wp_on_error. apply (keeps_wp command_table _ w0); [apply keeps_project|done| |done]. intros t w2 Hw2.
    db_step. db_step; [done|]. do 2 db_step. db_step. db_step; [done|]. rewrite wp_bind.
    unfold validateCommandAuthority. db_step. db_step. db_step; [done|].
    rewrite wp_bind, wp_on_error. eapply insert_command_duplicate. simpl. rewrite Hw2. exact Hr.
Qed.

(** A command is durable at most once.  Once the ledger holds a command,
    committing the same command ID again never stores a second event or row:
    the transaction changes nothing, and it succeeds only by returning the
    stored command, with its sequence number, as a duplicate. *)
Theorem committed_command_is_not_stored_again sid authority ev request encrypted r w :
  pending_commands (db w) !! (sid, rq_CommandID request) = Some r →
  match commitPendingCommand sid authority ev request encrypted w with
  | (w', inr c) => db w' = db w ∧ Duplicate c = true ∧ cm_EventSeq (Command c) = pc_event_seq r
  | (w', inl _) => db w' = db w
  end.
Proof.
  intros Hr. pose proof (commit_again sid authority ev request encrypted r w Hr) as H. unfold wp in H.
  destruct (commitPendingCommand _ _ _ _ _ w) as [w' [e|c]]; [done|].
  by destruct H as (Hd & _ & -> & Hdb).
Qed.

(** Retrying a sealed command is never accepted: [commitPendingCommand]
    looks the command up with the plaintext query, which rejects the stored
    carrier, so an exact retry of an encrypted command that is already in the
    ledger fails instead of being reported as a duplicate. *)
Theorem encrypted_retry_always_fails sid authority ev request r w :
  pending_commands (db w) !! (sid, rq_CommandID request) = Some r →
  ∃ e, (commitPendingCommand sid authority ev request true w).2 = inl e.
Proof.
  intros Hr. pose proof (commit_again sid authority ev request true r w Hr) as H. unfold wp in H.
  destruct (commitPendingCommand _ _ _ _ _ w) as [w' [e|c]]; [by exists e|].
  by destruct H as (_ & ? & _).
Qed.

(** ** A command is claimed once *)

Lemma claim_spec sid authority cmd encrypted w :
  wp (claimPendingCommand sid authority cmd encrypted)
    (λ c w', ∃ r, pending_commands (db w) !! (sid, cmd) = Some r ∧
       if Claimed c
       then pc_status r = "pending" ∧
            ∃ now, pending_commands (db w') !! (sid, cmd) = Some (set_command_status "received" now r)
       else pc_status r ≠ "pending" ∧ db w' = db w)
    (λ _ w', db w' = db w) w.
Proof.
  unfold claimPendingCommand. rewrite wp_tx. eapply (wp_mono _ _ _ (λ _ _, True)); [| |done].
  2: { intros c w' Hc. exact Hc. }
  do 2 db_step. rewrite wp_bind. unfold validateCommandAuthority at 1. db_step. db_step. db_step; [done|].
  rewrite wp_bind, wp_on_error. set (w0 := mkWorld _ _ _ _).
  assert (∀ r, pending_commands (db w) !! (sid, cmd) = Some r → 
    wp ((if encrypted then
       validateEncryptedCommandRow (scan_command sid cmd r) ≫= λ _,
       fail_if (bool_decide (cm_Status (scan_command sid cmd r) ∉ [PendingCommandPending; PendingCommandReceived]))
         (Err "encrypted command is not claimable")
     else mret tt)) (λ _ w', w' = w0) (λ _ _, True) w0) as Hchk.
  { intros r Hr. destruct encrypted; [|done]. unfold validateEncryptedCommandRow. by db_steps. }
  assert (∀ (K : PendingCommand → World → Prop), (∀ r, pending_commands (db w) !! (sid, cmd) = Some r →
     K (scan_command sid cmd r) w0) →
    wp (if encrypted then queryEncryptedPendingCommand sid cmd (clock w (tick w))
        else queryPendingCommand sid cmd (clock w (tick w))) K (λ _ _, True) w0) as Hq.
  { intros K HK. destruct encrypted; [apply wp_queryEncryptedPendingCommand|apply wp_queryPendingCommand]; auto. }
  apply Hq. intros r Hr. rewrite wp_bind. eapply wp_mono; [by apply Hchk| |done]. intros [] ? ->.
  db_step. db_step; [done|]. db_step. db_step; [done|]. simpl cm_Status.
  destruct (bool_decide (pc_status r = PendingCommandPending)) eqn:Hst; apply bool_decide_eq_true in Hst || apply bool_decide_eq_false in Hst.
  - do 2 db_step. rewrite wp_bind. unfold validateCommandAuthority. db_step. db_step. db_step; [done|].
    rewrite wp_bind. unfold update_command. db_step. db_step. simpl. rewrite Hr.
    destruct (_ && _); cycle 1. { rewrite wp_ret. db_step. by db_step. }
    rewrite wp_bind, wp_exec, wp_ret. db_step. db_step; [done|]. rewrite wp_ret.
    exists r. split; [done|]. simpl. split; [done|]. eexists. by rewrite lookup_insert_eq.
  - rewrite wp_ret. exists r. by split.
Qed.

End CommandLedger.
