(* ===== verification/AdapterDispatch.v ===== *)
(** * Events an Adapter appends: [store/sqlite/adapter_dispatch.go]

    An Adapter appends under an admission, the tuple of epoch, generation and
    fences its hello gave it.  The admission is validated in the transaction
    that stores the events, after they are written: a batch is stored under a
    connection that is current and live at that moment, or not at all. *)

From S2P Require Import Prelude StoreApi Json EncryptedPacket Sqlite Attention EventLog.
From S2P Require Import AttentionSpec Connections Invariant StoreSound CommandLedger.
From stdpp Require Import base gmap strings list.
#[local] Open Scope Z_scope.

Module AdapterDispatch.
Import Attention EventLog Connections.

Definition ValidateAdapterEffectAdmission (tx : bool) (sessionID : string) (admission : AdapterConnectionAdmission)
    : M AdapterConnection :=
  fail_if (negb tx) (Err "adapter authority transaction is required") ≫= λ _,
  on_error (Wrap "lock adapter admission") (update_connection_row sessionID (λ _, true) id) ≫= λ _,
  ValidateAdapterAdmission tx sessionID admission.

(** The projections, refused when one but the last is terminal. *)
Fixpoint project_all (events : list PendingEvent) (encrypted : bool) : error + list PendingEvent :=
  match events with
  | [] => inr []
  | event :: rest =>
      match EncryptedPacket.sqliteProjectionEvent event encrypted with
      | inl err => inl err
      | inr projection =>
          if bool_decide (rest ≠ []) && terminal (sqliteAttentionEventProjection projection)
          then inl (Err "terminal adapter event must be final")
          else match project_all rest encrypted with
               | inl err => inl err
               | inr projections => inr (projection :: projections)
               end
      end
  end.

(** The loop: [index] and the [terminal] of the last round. *)
Fixpoint store_all (sessionID : string) (firstSeq createdAt : Z) (index : nat)
    (events : list (PendingEvent * PendingEvent)) (terminal : bool) : M bool :=
  match events with
  | [] => mret terminal
  | (event, projection) :: rest =>
      let seq := i64 (firstSeq + Z.of_nat index) in
      on_error (Wrap "append adapter event") (insert_event (event_row_of sessionID seq createdAt event)) ≫= λ _,
      nowMS ← nowMillis;
      terminal ← on_error (Wrap "project adapter attention event")
        (projectSQLiteAttentionEvent sessionID seq projection nowMS);
      store_all sessionID firstSeq createdAt (S index) rest terminal
  end.

Definition appendAdapterEvents (sessionID : string) (admission : AdapterConnectionAdmission)
    (events : list PendingEvent) (encrypted : bool) : M Z :=
  fail_if (bool_decide (events = [])) (Err "invalid sqlite adapter event commit") ≫= λ _,
  projections ← lift (project_all events encrypted);
  with_tx (
    on_error (Wrap "lock adapter authority") (update_connection_row sessionID (λ _, true) id) ≫= λ _,
    latest ← query (latest_seq sessionID);
    let firstSeq := i64 (latest + 1) in
    createdAt ← nowMillis;
    terminal ← store_all sessionID firstSeq createdAt 0 (zip events projections) false;
    on_error (λ _, Err "adapter authority lost") (ValidateAdapterAdmission true sessionID admission) ≫= λ _,
    (if terminal : bool then
       nowMS ← nowMillis;
       on_error (Wrap "fence terminal adapter event") (fence_terminal sessionID nowMS)
     else mret tt) ≫= λ _,
    mret firstSeq).

(** ** Soundness *)

Import AttentionSpec Invariant StoreSound.

Lemma sound_ValidateAdapterEffectAdmission tx sid admission :
  sound (ValidateAdapterEffectAdmission tx sid admission).
Proof.
  unfold ValidateAdapterEffectAdmission. sound_auto. apply sound_update_row, forward_id.
Qed.

Lemma project_all_reads events encrypted projections :
  project_all events encrypted = inr projections →
  length projections = length events ∧
  Forall (λ ep : PendingEvent * PendingEvent, EncryptedPacket.sqliteProjectionEvent ep.1 encrypted = inr ep.2)
    (zip events projections).
Proof.
  revert projections. induction events as [|ev events IH]; intros projections H; simpl in H.
  - by simplify_eq.
  - destruct (EncryptedPacket.sqliteProjectionEvent ev encrypted) as [|p] eqn:Hp; [done|].
    destruct (_ && _); [done|]. destruct (project_all events encrypted) as [|ps]; [done|].
    simplify_eq. destruct (IH ps eq_refl) as [Hl Hf]. simpl. split; [lia|]. by constructor.
Qed.

Lemma tsound_store_all sid first createdAt encrypted events w0 w index t Q :
  stepped w0 w → i64 (first + Z.of_nat index) = i64 (latest_seq sid (db w) + 1) →
  Forall (λ ep : PendingEvent * PendingEvent, EncryptedPacket.sqliteProjectionEvent ep.1 encrypted = inr ep.2) events →
  (∀ t w', stepped w0 w' → Q t w') →
  wp (store_all sid first createdAt index events t) Q (λ _ w', aborted w0 w') w.
Proof.
  revert w index t. induction events as [|[ev pev] events IH]; intros w index t Hw Hseq Hproj HQ; simpl.
  { rewrite wp_ret. auto. }
  apply Forall_cons in Hproj as [Hp Hproj]. rewrite wp_bind, wp_on_error.
  apply insert_next; [done|done|]. intros Hs Hmax. rewrite Hs in *. do 2 db_step. rewrite wp_bind, wp_on_error.
  apply (project_next w0 w _ createdAt ev); try done; [simpl; lia|intros; by eapply reads_projection|].
  intros d' Hd' Hstep. apply IH; [exact Hstep| |done|done].
  pose proof (proj1 Hw) as Hinv. simpl db. apply projected_rows in Hd' as Hrows.
  assert (latest_seq sid d' = latest_seq sid (db w) + 1) as ->.
  { rewrite !latest_seq_dense by (apply (si_log _ Hinv) || by apply (pr_log _ _ _ _ _ _ _ Hd')).
    unfold session_rows. rewrite Hrows, filter_app, filter_cons_True by done. rewrite length_app. simpl. lia. }
  replace (first + Z.of_nat (S index)) with (first + Z.of_nat index + 1) by lia.
  rewrite <-(i64_add (first + Z.of_nat index)), Hs. done.
Qed.

Lemma sound_appendAdapterEvents sid admission events encrypted :
  sound (appendAdapterEvents sid admission events encrypted).
Proof.
  unfold appendAdapterEvents. apply sound_bind; [apply sound_fail_if|intros _].
  apply CommandLedger.sound_lift_bind. intros ps Hps. apply project_all_reads in Hps as [_ Hps].
  apply sound_tx. apply sound_bind; [apply sound_on_error, sound_update_row, forward_id|intros _].
  intros w Hw. rewrite wp_bind, wp_query. do 2 db_step. rewrite wp_bind.
  pose proof (step_tick w Hw) as Hstep.
  eapply tsound_store_all; [exact Hstep| |exact Hps|].
  - simpl. by rewrite i64_add, Z.add_0_r.
  - intros t w' Hw'. eapply sound_wp; [|exact Hw'|done]. sound_auto.
    apply sound_weaken, sound_fence_terminal.
Qed.

End AdapterDispatch.
