(* ===== verification/RunControl.v ===== *)
(** * Run controls of [store/sqlite/store.go]

    An interrupt or a stop is reserved against the capability the live writer
    published and the state the Session was in, at most one at a time, and is
    finalized exactly once: by the writer that reserved it, by a timeout, by
    recovery, or by the hello that replaces the writer. *)

From S2P Require Import Prelude StoreApi Json EncryptedPacket Sqlite Attention EventLog.
From S2P Require Import AttentionSpec Connections Settings Invariant StoreSound CommandLedger.
From stdpp Require Import base gmap strings list sorting.
#[local] Open Scope Z_scope.

Module RunControl.
Import Connections Settings.

(** ** Data *)

Definition RunControlInterrupt : string := "interrupt".
Definition RunControlStop : string := "stop".
Definition RunControlPending : string := "pending".
Definition RunControlCompleted : string := "completed".
Definition RunControlRejected : string := "rejected".
Definition RunControlTimeout : string := "timeout".
Definition RunControlUnsupported : string := "unsupported".
Definition RunControlOutcomeUnknown : string := "outcome_unknown".

Record RunControlCapability := mkCapability {
  cp_SessionID : string;
  cp_EventSeq : Z;
  cp_Version : Z;
  cp_InterruptSupported : bool;
  cp_StopSupported : bool;
  cp_Writer : SettingsWriter;
}.

Record RunControlCapabilityUpdate := mkCapabilityUpdate {
  cu_EventSeq : Z;
  cu_InterruptSupported : bool;
  cu_StopSupported : bool;
  cu_Writer : SettingsWriter;
}.

Record RunControlRequest := mkControlRequest {
  cq_CommandID : string;
  cq_Operation : string;
  cq_PreControlState : string;
  cq_PreControlStateSeq : Z;
  cq_Writer : SettingsWriter;
}.

Record RunControlReservation := mkReservation {
  rs_SessionID : string;
  rs_CommandID : string;
  rs_Operation : string;
  rs_CapabilityVersion : Z;
  rs_ReservationVersion : Z;
  rs_PreControlState : string;
  rs_PreControlStateSeq : Z;
  rs_Writer : SettingsWriter;
  rs_Deadline : time;
  rs_Outcome : string;
  rs_TerminalEventSeq : option Z;
}.

Record RunControlReserveResult := mkReserve { Reservation : RunControlReservation; rv_Duplicate : bool }.

Record RunControlFinalizeRequest := mkFinalize {
  fz_ReservationVersion : Z;
  fz_Writer : option SettingsWriter;
  fz_Outcome : string;
  fz_ReasonCode : option string;
  fz_EncryptedTerminalSeq : option Z;
}.

(** ** Validation *)

Definition validRunControlCapabilityUpdate (sessionID : string) (update : RunControlCapabilityUpdate) : bool :=
  validConnectionID sessionID && bool_decide (0 < cu_EventSeq update) && validSettingsWriter (cu_Writer update).

Definition validRunControlOperation (operation : string) : bool :=
  bool_decide (operation ∈ [RunControlInterrupt; RunControlStop]).

Definition validRunControlRequest (sessionID : string) (request : RunControlRequest) : bool :=
  validConnectionID sessionID && bool_decide (cq_CommandID request ≠ "") &&
  bool_decide (len (cq_CommandID request) ≤ 256) && validRunControlOperation (cq_Operation request) &&
  bool_decide (0 < cq_PreControlStateSeq request) && validSettingsWriter (cq_Writer request).

Definition validRunControlState (operation state : string) : bool :=
  if bool_decide (operation = RunControlInterrupt) then bool_decide (state = "busy")
  else bool_decide (state ∈ ["starting"; "ready"; "busy"; "waiting_permission"; "recovering"]).

Definition validRunControlTerminalOutcome (outcome : string) : bool :=
  bool_decide (outcome ∈ [RunControlCompleted; RunControlRejected; RunControlTimeout; RunControlUnsupported;
                          RunControlOutcomeUnknown]).

Definition validRunControlReservation (r : RunControlReservation) : bool :=
  validRunControlRequest (rs_SessionID r)
    (mkControlRequest (rs_CommandID r) (rs_Operation r) (rs_PreControlState r) (rs_PreControlStateSeq r) (rs_Writer r)) &&
  bool_decide (0 < rs_CapabilityVersion r) && bool_decide (0 < rs_ReservationVersion r) &&
  negb (IsZero (rs_Deadline r)) &&
  (bool_decide (rs_Outcome r = RunControlPending) || validRunControlTerminalOutcome (rs_Outcome r)) &&
  match rs_TerminalEventSeq r with
  | Some _ => bool_decide (rs_Outcome r ≠ RunControlPending)
  | None => bool_decide (rs_Outcome r = RunControlPending)
  end.

(** ** Reading *)

Definition scan_capability (sessionID : string) (r : run_capability_row) : RunControlCapability :=
  mkCapability sessionID (rp_event_seq r) (rp_version r) (rp_interrupt_supported r) (rp_stop_supported r) (rp_writer r).

Definition queryRunControlCapability (sessionID : string) : M RunControlCapability :=
  row ← query (λ d, run_capabilities d !! sessionID);
  match row with
  | Some r =>
      if validRunControlCapabilityUpdate sessionID
           (mkCapabilityUpdate (rp_event_seq r) (rp_interrupt_supported r) (rp_stop_supported r) (rp_writer r))
         && bool_decide (1 ≤ rp_version r)
      then mret (scan_capability sessionID r)
      else throw (Err "run-control capability row is invalid")
  | None => throw (Err "run-control capability row is invalid")
  end.

Definition scan_reservation (sessionID commandID : string) (r : run_control_row) : RunControlReservation :=
  mkReservation sessionID commandID (rc_operation r) (rc_capability_version r) (rc_reservation_version r)
    (rc_pre_control_state r) (rc_pre_control_state_seq r) (rc_writer r) (of_UnixMilli (rc_deadline_ms r))
    (rc_status r) (rc_terminal_event_seq r).

Definition queryRunControlReservation (sessionID commandID : string) : M RunControlReservation :=
  r ← query_row (λ d, run_controls d !! (sessionID, commandID));
  let reservation := scan_reservation sessionID commandID r in
  fail_if (negb (validRunControlReservation reservation)) (Err "run-control reservation row is invalid") ≫= λ _,
  mret reservation.

Definition verifyRunControlCapabilityEvent (sessionID : string) (eventSeq : Z) : M unit :=
  e ← query (event_at sessionID eventSeq);
  fail_if (bool_decide (eventSeq < 1)
           || negb (match e with Some e => bool_decide (er_type e = "session.run.capabilities") | None => false end))
    (Err "run-control capability event is not durable").

Definition sqliteRunControlState (payload : string) : option string :=
  let carrier := match EncryptedPacket.DecodeEncryptedPacketCarrier payload "event" "session.state" "" with
    | Some c => if bool_decide (EncryptedPacket.State (EncryptedPacket.Public c) = "") then None
                else Some (EncryptedPacket.State (EncryptedPacket.Public c))
    | None => None
    end in
  match Json.unmarshalStrings ["state"] payload with
  | Some [state] => if bool_decide (state = "") then carrier else Some state
  | _ => carrier
  end.

Definition latest_state_seq (sessionID : string) (d : DB) : Z :=
  max_seq (filter (λ r, er_type r = "session.state") (session_rows sessionID d)).

Definition validateRunControlPreState (sessionID operation preState : string) (preSeq : Z) : M unit :=
  latest ← query (latest_state_seq sessionID);
  fail_if (bool_decide (latest ≠ preSeq)) (Err "run-control pre-control state is stale") ≫= λ _,
  e ← query (event_at sessionID preSeq);
  match e with
  | Some e =>
      fail_if (bool_decide (er_type e ≠ "session.state")) (Err "run-control pre-control state is not durable") ≫= λ _,
      fail_if (negb (match sqliteRunControlState (er_payload e) with
                     | Some resolved => bool_decide (resolved = preState) && validRunControlState operation resolved
                     | None => false
                     end)) (Err "run-control pre-control state is invalid")
  | None => throw (Err "run-control pre-control state is not durable")
  end.

(** ** Publishing a capability *)

(** [INSERT ... ON CONFLICT(session_id) DO UPDATE ... WHERE capability_event_seq <
    excluded.capability_event_seq]: rows changed. *)
Definition upsert_run_capability (sessionID : string) (update : RunControlCapabilityUpdate) (nowMS : Z) : M Z :=
  d ← query id;
  let row created := mkRunCapabilityRow (cu_EventSeq update) (cu_EventSeq update) (cu_InterruptSupported update)
        (cu_StopSupported update) (cu_Writer update) created nowMS in
  check "session_run_control_capabilities"
    (text_between 1 sessionID 255 && bool_decide (0 < cu_EventSeq update) && writer_checks (cu_Writer update)) ≫= λ _,
  check "FOREIGN KEY" (bool_decide (is_Some (event_at sessionID (cu_EventSeq update) d))) ≫= λ _,
  match run_capabilities d !! sessionID with
  | None => exec (upd_run_capabilities (<[sessionID := row nowMS]>)) ≫= λ _, mret 1
  | Some old =>
      if bool_decide (rp_event_seq old < cu_EventSeq update)
      then exec (upd_run_capabilities (<[sessionID := row (rp_created_at_ms old)]>)) ≫= λ _, mret 1
      else mret 0
  end.

Definition PublishRunControlCapability (sessionID : string) (update : RunControlCapabilityUpdate)
    : M RunControlCapability :=
  fail_if (negb (validRunControlCapabilityUpdate sessionID update)) (Err "invalid run-control capability") ≫= λ _,
  with_tx (
    nowMS ← nowMillis;
    lockCommandAuthority sessionID (authority_of (cu_Writer update)) ≫= λ _,
    validateLiveSettingsWriter sessionID (cu_Writer update) ≫= λ _,
    verifyRunControlCapabilityEvent sessionID (cu_EventSeq update) ≫= λ _,
    changed ← on_error (Wrap "upsert run-control capability") (upsert_run_capability sessionID update nowMS);
    fail_if (bool_decide (changed ≠ 1)) (Err "run-control capability event is stale") ≫= λ _,
    queryRunControlCapability sessionID).

(** ** Reserving *)

(** The CHECKs of [session_run_controls] on a new row. *)
Definition control_checks (sessionID commandID : string) (r : run_control_row) : bool :=
  let states := ["starting"; "ready"; "busy"; "waiting_permission"; "recovering"] in
  text_between 1 sessionID 255 && text_between 1 commandID 256 &&
  bool_decide (rc_operation r ∈ ["interrupt"; "stop"]) && bool_decide (0 < rc_capability_version r) &&
  bool_decide (0 < rc_reservation_version r) && bool_decide (rc_pre_control_state r ∈ states) &&
  bool_decide (0 < rc_pre_control_state_seq r) && writer_checks (rc_writer r) &&
  bool_decide (rc_created_at_ms r < rc_deadline_ms r) && bool_decide (rc_deadline_ms r ≤ rc_created_at_ms r + 30000) &&
  bool_decide (rc_status r ∈ ["pending"; "completed"; "rejected"; "timeout"; "unsupported"; "outcome_unknown"]) &&
  ((bool_decide (rc_operation r = "interrupt") && bool_decide (rc_pre_control_state r = "busy"))
   || (bool_decide (rc_operation r = "stop") && bool_decide (rc_pre_control_state r ∈ states))) &&
  match rc_terminal_event_seq r with
  | None => bool_decide (rc_status r = "pending")
  | Some _ => bool_decide (rc_status r ≠ "pending")
  end.

Definition insert_control (sessionID commandID : string) (r : run_control_row) : M unit :=
  d ← query id;
  check "session_run_controls" (control_checks sessionID commandID r) ≫= λ _,
  check "session_run_controls.session_id, session_run_controls.cmd_id"
    (match run_controls d !! (sessionID, commandID) with Some _ => false | None => true end) ≫= λ _,
  check "session_run_controls_one_pending_idx" (bool_decide (pending_controls sessionID d = [])) ≫= λ _,
  exec (upd_run_controls (<[(sessionID, commandID) := r]>)).

Definition RunControlReserve (sessionID : string) (request : RunControlRequest) : M RunControlReserveResult :=
  fail_if (negb (validRunControlRequest sessionID request)) (Err "invalid run-control reservation") ≫= λ _,
  with_tx (
    nowMS ← nowMillis;
    lockCommandAuthority sessionID (authority_of (cq_Writer request)) ≫= λ _,
    validateLiveSettingsWriter sessionID (cq_Writer request) ≫= λ _,
    existing ← try_ (queryRunControlReservation sessionID (cq_CommandID request));
    match existing with
    | inr existing =>
        fail_if (bool_decide (rs_Operation existing ≠ cq_Operation request))
          (Err "run-control command ID is reused") ≫= λ _,
        mret (mkReserve existing true)
    | inl err =>
        fail_if (negb (is_no_rows err)) err ≫= λ _,
        capability ← on_error (λ _, Err "run-control capability is stale or writer is fenced")
          (queryRunControlCapability sessionID);
        fail_if (bool_decide (cp_Writer capability ≠ cq_Writer request))
          (Err "run-control capability is stale or writer is fenced") ≫= λ _,
        fail_if ((bool_decide (cq_Operation request = RunControlInterrupt) && negb (cp_InterruptSupported capability))
                 || (bool_decide (cq_Operation request = RunControlStop) && negb (cp_StopSupported capability)))
          (Err "run-control operation is unsupported") ≫= λ _,
        validateRunControlPreState sessionID (cq_Operation request) (cq_PreControlState request)
          (cq_PreControlStateSeq request) ≫= λ _,
        on_error (Wrap "insert run-control reservation")
          (insert_control sessionID (cq_CommandID request)
             (mkRunControlRow (cq_Operation request) (cp_Version capability) 1 (cq_PreControlState request)
                (cq_PreControlStateSeq request) (cq_Writer request) (i64 (nowMS + 30000)) "pending" None nowMS nowMS)) ≫= λ _,
        reservation ← queryRunControlReservation sessionID (cq_CommandID request);
        mret (mkReserve reservation false)
    end).

(** ** Finalizing *)

Definition state_payload (operation : string) : string :=
  if bool_decide (operation = RunControlStop)
  then Json.marshalStruct [("state", Json.marshalString "ended"); ("reason", Json.marshalString "user_stop")]
  else Json.marshalStruct [("state", Json.marshalString "ready")].

Definition bound_outcome (outcome : string) : bool :=
  bool_decide (outcome ∈ [RunControlCompleted; RunControlRejected]).

Definition finalize_valid (sessionID commandID : string) (finalize : RunControlFinalizeRequest) : bool :=
  negb (negb (validConnectionID sessionID) || bool_decide (commandID = "")
        || bool_decide (fz_ReservationVersion finalize < 1)
        || negb (validRunControlTerminalOutcome (fz_Outcome finalize))
        || bool_decide (fz_Outcome finalize = RunControlUnsupported)
        || (bool_decide (fz_Outcome finalize = RunControlCompleted) && bool_decide (fz_ReasonCode finalize ≠ None))
        || (bool_decide (fz_Outcome finalize ≠ RunControlCompleted) && negb (validSettingsReason (fz_ReasonCode finalize)))).

Definition RunControlFinalize (sessionID commandID : string) (finalize : RunControlFinalizeRequest)
    : M RunControlReservation :=
  fail_if (negb (finalize_valid sessionID commandID finalize)) (Err "invalid run-control finalization") ≫= λ _,
  with_tx (
    nowMS ← nowMillis;
    reservation ← queryRunControlReservation sessionID commandID;
    fail_if (bool_decide (rs_ReservationVersion reservation ≠ fz_ReservationVersion finalize)
             || bool_decide (rs_Outcome reservation ≠ RunControlPending))
      (Err "run-control finalization is fenced") ≫= λ _,
    (if bound_outcome (fz_Outcome finalize) then
       match fz_Writer finalize with
       | Some writer =>
           fail_if (bool_decide (writer ≠ rs_Writer reservation)
                    || bool_decide (UnixMilli (rs_Deadline reservation) ≤ nowMS))
             (Err "run-control writer finalization is fenced") ≫= λ _,
           lockCommandAuthority sessionID (authority_of writer) ≫= λ _,
           capability ← on_error (λ _, Err "run-control capability changed") (queryRunControlCapability sessionID);
           fail_if (bool_decide (cp_Version capability ≠ rs_CapabilityVersion reservation)
                    || bool_decide (cp_Writer capability ≠ writer)) (Err "run-control capability changed") ≫= λ _,
           validateLiveSettingsWriter sessionID writer
       | None => throw (Err "run-control writer finalization is fenced")
       end
     else
       fail_if (bool_decide (fz_Writer finalize ≠ None)
                || (bool_decide (fz_Outcome finalize = RunControlTimeout)
                    && bool_decide (nowMS < UnixMilli (rs_Deadline reservation))))
         (Err "run-control unbound finalization is fenced")) ≫= λ _,
    (if bool_decide (fz_Outcome finalize = RunControlCompleted) then
       validateRunControlPreState sessionID (rs_Operation reservation) (rs_PreControlState reservation)
         (rs_PreControlStateSeq reservation) ≫= λ _,
       if bool_decide (fz_EncryptedTerminalSeq finalize = None) then
         appendRunControlEvent sessionID "session.state" (state_payload (rs_Operation reservation)) nowMS ≫= λ _,
         mret tt
       else mret tt
     else mret tt) ≫= λ _,
    let completion := if bool_decide (fz_Outcome finalize = RunControlCompleted)
      then Some (if bool_decide (rs_Operation reservation = RunControlStop) then "ended" else "ready") else None in
    terminalSeq ← match fz_EncryptedTerminalSeq finalize with
      | Some seq => mret seq
      | None => appendRunControlEvent sessionID "session.run.outcome"
                  (outcome_payload (rs_CommandID reservation) (rs_Operation reservation) (fz_Outcome finalize)
                     completion (fz_ReasonCode finalize)) nowMS
      end;
    known ← query (λ d, bool_decide (is_Some (event_at sessionID terminalSeq d)));
    check "FOREIGN KEY" known ≫= λ _,
    changed ← update_pending_control sessionID commandID (fz_ReservationVersion finalize)
      (λ r, bool_decide (rc_terminal_event_seq r = None)) (finish_control (fz_Outcome finalize) terminalSeq nowMS);
    fail_if (bool_decide (changed ≠ 1)) (Err "run-control finalization lost race") ≫= λ _,
    queryRunControlReservation sessionID commandID).

Definition GetRunControl (sessionID commandID : string) : M RunControlReservation :=
  queryRunControlReservation sessionID commandID.

Definition RecoverRunControl (sessionID commandID reason : string) : M RunControlReservation :=
  fail_if (negb (validConnectionID sessionID) || bool_decide (commandID = "")
           || bool_decide (reason ∉ ["adapter_disconnected"; "recovery_unconfirmed"]))
    (Err "invalid run-control recovery") ≫= λ _,
  reservation ← GetRunControl sessionID commandID;
  RunControlFinalize sessionID commandID
    (mkFinalize (rs_ReservationVersion reservation) None RunControlOutcomeUnknown (Some reason) None).

Definition by_reservation_version (a b : string * run_control_row) : Prop :=
  rc_reservation_version a.2 ≤ rc_reservation_version b.2.
#[global] Instance by_reservation_version_dec a b : Decision (by_reservation_version a b).
Proof. unfold by_reservation_version. apply _. Defined.

Fixpoint load_reservations (sessionID : string) (ids : list string) : M (list RunControlReservation) :=
  match ids with
  | [] => mret []
  | commandID :: ids =>
      item ← queryRunControlReservation sessionID commandID;
      items ← load_reservations sessionID ids;
      mret (item :: items)
  end.

Definition PendingRunControls (sessionID : string) : M (list RunControlReservation) :=
  rows ← query (λ d, merge_sort by_reservation_version (pending_controls sessionID d));
  load_reservations sessionID (fst <$> rows).

(** ** Soundness *)

Import AttentionSpec Invariant StoreSound.

Lemma sound_queryRunControlCapability {E} `{!Outcome E} sid : sound_with E (queryRunControlCapability sid).
Proof. unfold queryRunControlCapability. sound_auto. Qed.
Lemma sound_queryRunControlReservation {E} `{!Outcome E} sid cmd : sound_with E (queryRunControlReservation sid cmd).
Proof. unfold queryRunControlReservation. sound_auto. Qed.
Lemma sound_verifyRunControlCapabilityEvent {E} `{!Outcome E} sid seq :
  sound_with E (verifyRunControlCapabilityEvent sid seq).
Proof. unfold verifyRunControlCapabilityEvent. sound_auto. Qed.
Lemma sound_upsert_run_capability {E} `{!Outcome E} sid update now : sound_with E (upsert_run_capability sid update now).
Proof. unfold upsert_run_capability. sound_auto. Qed.
Lemma sound_validatePreState {E} `{!Outcome E} sid operation state seq :
  sound_with E (validateRunControlPreState sid operation state seq).
Proof. unfold validateRunControlPreState. sound_auto. Qed.

#[local] Hint Resolve sound_queryRunControlCapability sound_queryRunControlReservation
  sound_verifyRunControlCapabilityEvent sound_upsert_run_capability sound_validatePreState : sound.

Lemma sound_PublishRunControlCapability sid update : sound (PublishRunControlCapability sid update).
Proof. unfold PublishRunControlCapability. sound_auto. Qed.

(** A Session with an event has a summary. *)
Lemma event_summarised w sid seq e :
  store_inv w → event_at sid seq (db w) = Some e → is_Some (attention (db w) !! sid).
Proof.
  intros Hw He. exact (range_summarised _ _ _ Hw (CommandLedger.event_at_range _ _ _ _ Hw He)).
Qed.

Lemma wp_validatePreState w sid operation state seq Q X :
  (∀ e, event_at sid seq (db w) = Some e → Q tt w) → (∀ e, X e w) →
  wp (validateRunControlPreState sid operation state seq) Q X w.
Proof. intros HQ HX. unfold validateRunControlPreState. db_steps; eauto. Qed.

Lemma summarised_insert_control sid cmd r : sound_if_summarised sid (insert_control sid cmd r).
Proof.
  intros w Hw Hs. unfold insert_control. db_steps; try by apply stepped_refl. unfold id in *.
  apply step_control; [done| | |done].
  - intros r' Hr'. by rewrite Hr' in *.
  - intros _. bool_hyps. eapply none_open_listed; [|eassumption].
    intros cmd' v Hv. simpl. unfold control_open in Hv. rewrite Hv, bool_decide_eq_true_2; eauto.
Qed.

Lemma sound_RunControlReserve sid request : sound (RunControlReserve sid request).
Proof.
  unfold RunControlReserve. apply sound_bind; [apply sound_fail_if|intros _].
  apply sound_tx, sound_weaken. apply sound_bind; [apply sound_now|intros now].
  apply sound_bind; [apply sound_lockCommandAuthority|intros _].
  apply sound_bind; [apply sound_validateLiveSettingsWriter|intros _].
  apply sound_bind; [apply sound_try, sound_queryRunControlReservation|intros [err|existing]]; [|sound_auto].
  apply sound_bind; [apply sound_fail_if|intros _].
  apply sound_bind; [sound_auto|intros capability].
  apply sound_bind; [apply sound_fail_if|intros _].
  apply sound_bind; [apply sound_fail_if|intros _].
  intros w Hw. rewrite wp_bind. apply wp_validatePreState; [|intros; by apply stepped_refl].
  intros e He. apply event_summarised in He; [|done]. revert w Hw He.
  apply (summarised_bind sid); [|intros; apply summarised_sound; sound_auto].
  intros w Hw Hs. rewrite wp_on_error. by apply summarised_insert_control.
Qed.

Lemma wp_queryReservation w sid cmd Q X :
  (∀ r, run_controls (db w) !! (sid, cmd) = Some r → Q (scan_reservation sid cmd r) w) → (∀ e, X e w) →
  wp (queryRunControlReservation sid cmd) Q X w.
Proof. intros HQ HX. unfold queryRunControlReservation. db_steps; auto. Qed.

Lemma sound_RunControlFinalize sid cmd finalize : sound (RunControlFinalize sid cmd finalize).
Proof.
  unfold RunControlFinalize. apply sound_bind; [apply sound_fail_if|intros _].
  apply sound_tx, sound_weaken. apply sound_bind; [apply sound_now|intros now].
  intros w Hw. rewrite wp_bind. apply wp_queryReservation; [|intros; by apply stepped_refl].
  intros r Hr. assert (is_Some (attention (db w) !! sid)) as Hs by exact (si_controls _ Hw (sid, cmd) r Hr).
  generalize (scan_reservation sid cmd r) as reservation. intros reservation. revert w Hw Hr Hs.
  assert (∀ m : M RunControlReservation, sound_if_summarised sid m →
    ∀ w, store_inv w → run_controls (db w) !! (sid, cmd) = Some r → is_Some (attention (db w) !! sid) →
    wp m (λ _ w', stepped w w') (λ _ w', stepped w w') w) as Hgo by auto.
  apply Hgo. clear Hgo.
  apply summarised_bind; [apply summarised_sound, sound_fail_if|intros _].
  apply summarised_bind; [apply summarised_sound; sound_auto|intros _].
  apply summarised_bind.
  { destruct (bool_decide _); [|apply summarised_sound, sound_ret].
    apply summarised_bind; [apply summarised_sound, sound_validatePreState|intros _].
    destruct (bool_decide _); [|apply summarised_sound, sound_ret].
    apply summarised_bind; [apply summarised_appendRunControlEvent|intros; apply summarised_sound, sound_ret]. }
  intros _. cbv zeta. apply summarised_bind.
  { destruct (fz_EncryptedTerminalSeq finalize); [apply summarised_sound, sound_ret|].
    apply summarised_appendRunControlEvent. }
  intros seq. apply summarised_sound. sound_auto. apply sound_update_pending_control.
  intros. by apply finish_control_evolves.
Qed.

Lemma sound_RecoverRunControl sid cmd reason : sound (RecoverRunControl sid cmd reason).
Proof.
  unfold RecoverRunControl, GetRunControl. sound_auto. apply sound_RunControlFinalize.
Qed.

Lemma sound_PendingRunControls sid : sound (PendingRunControls sid).
Proof.
  unfold PendingRunControls. apply sound_bind; [apply sound_query|]. intros rows.
  generalize (fst <$> rows) as ids. induction ids as [|c ids IH]; simpl; sound_auto.
Qed.

(** ** What finalizing does *)

Notation control_table := (λ w, run_controls (db w)).

(** Who may finalize a pending control with which outcome, at time [nowMS]:
    the writer it is reserved for, while the writer's connection is current and
    the deadline not reached, completes or rejects it; anyone else records that
    it timed out, after the deadline, or that its outcome is unknown. *)
Definition may_finalize (f : RunControlFinalizeRequest) (nowMS : Z) (r : run_control_row)
    (connection : option connection_row) : Prop :=
  if bound_outcome (fz_Outcome f) then
    fz_Writer f = Some (rc_writer r) ∧ nowMS < rc_deadline_ms r ∧
    ∃ c now, connection = Some c ∧ holds_authority (authority_of (rc_writer r)) now c = true
  else fz_Writer f = None ∧ (fz_Outcome f = RunControlTimeout → rc_deadline_ms r ≤ nowMS).

Lemma wp_lockCommandAuthority sid authority Q X w :
  (∀ c now w', connections (db w) !! sid = Some c → holds_authority authority now c = true →
     run_controls (db w') = run_controls (db w) → connections (db w') = connections (db w) → Q tt w') →
  (∀ e w', X e w') →
  wp (lockCommandAuthority sid authority) Q X w.
Proof.
  intros HQ HX. unfold lockCommandAuthority, update_connection_row. db_steps; try apply HX; try done.
  eapply HQ; [eassumption|eassumption|done|]. simpl. unfold id in *. by apply insert_id.
Qed.

Lemma keeps_append_control sid type payload now : keeps control_table (appendRunControlEvent sid type payload now).
Proof. unfold appendRunControlEvent, insert_event. keeps_auto. Qed.

Lemma keeps_validatePreState sid operation state seq :
  keeps control_table (validateRunControlPreState sid operation state seq).
Proof. unfold validateRunControlPreState. keeps_auto. Qed.

Lemma finalize_spec sid cmd f w :
  wp (RunControlFinalize sid cmd f)
    (λ reservation w', ∃ r seq now,
       run_controls (db w) !! (sid, cmd) = Some r ∧ rc_status r = "pending" ∧
       rc_reservation_version r = fz_ReservationVersion f ∧ may_finalize f now r (connections (db w) !! sid) ∧
       run_controls (db w') = <[(sid, cmd) := finish_control (fz_Outcome f) seq now r]> (run_controls (db w)) ∧
       reservation = scan_reservation sid cmd (finish_control (fz_Outcome f) seq now r))
    (λ _ w', db w' = db w) w.
Proof.
  unfold RunControlFinalize. db_step. db_step; [done|]. rewrite wp_tx.
  eapply (wp_mono _ _ _ (λ _ _, True)); [|intros a w' Ha; exact Ha|done].
  do 2 db_step. rewrite wp_bind. apply wp_queryReservation; [|done]. simpl. intros r Hr.
  set (w0 := mkWorld _ _ _ _). set (now := clock w (tick w)). db_step. db_step; [done|]. bool_hyps.
  rewrite wp_bind.
  match goal with |- wp ?m _ _ _ => assert (wp m (λ _ w', may_finalize f now r (connections (db w) !! sid) ∧
      run_controls (db w') = run_controls (db w)) (λ _ _, True) w0) as Hguard end.
  { destruct (bound_outcome (fz_Outcome f)) eqn:Hb.
    - destruct (fz_Writer f) as [writer|] eqn:Hw; [|done]. db_step. db_step; [done|]. rewrite wp_bind.
      apply wp_lockCommandAuthority; [|done]. intros c now' w1 Hc Hauth Hk Hcc. bool_hyps. rewrite wp_bind, wp_on_error.
      apply (keeps_wp control_table _ w); [unfold queryRunControlCapability; keeps_auto|done| |done].
      intros capability w2 Hw2. db_step. db_step; [done|].
      apply (keeps_wp control_table _ w); [unfold validateLiveSettingsWriter; keeps_auto|done| |done].
      intros _ w3 Hw3. split; [|done]. unfold may_finalize. rewrite Hb.
      rewrite UnixMilli_of in *. assert (writer = rc_writer r) as -> by (by apply dec_stable).
      split; [done|]. split; [lia|]. by exists c, now'.
    - db_step; [done|]. split; [|done]. bool_hyps. unfold may_finalize. rewrite Hb.
      rewrite UnixMilli_of in *. split; [by apply dec_stable|]. intros Ht.
      destruct (decide (now < rc_deadline_ms r)); [|lia].
      rewrite !bool_decide_eq_true_2 in * by done. done. }
  eapply wp_mono; [exact Hguard| |done]. intros [] w1 [Hmay Hw1]. clear Hguard.
  rewrite wp_bind.
  apply (keeps_wp control_table _ w); [|done| |done].
  { pose proof (keeps_append_control sid). pose proof (keeps_validatePreState sid). keeps_auto; auto. }
  intros _ w2 Hw2. cbv zeta. rewrite wp_bind.
  apply (keeps_wp control_table _ w); [|done| |done].
  { pose proof (keeps_append_control sid). keeps_auto; auto. }
  intros seq w3 Hw3. rewrite wp_bind, wp_query. db_step. db_step; [done|].
  unfold update_pending_control. rewrite wp_bind, wp_bind, wp_query, Hw3, Hr. 
  destruct (_ && _) eqn:Hp; [|rewrite wp_ret; db_step; by db_step]. rewrite wp_bind, wp_exec, wp_ret.
  db_step. db_step; [done|]. apply wp_queryReservation; [|done]. simpl. rewrite Hw3, lookup_insert_eq. intros r' [= <-].
  bool_hyps. by exists r, seq, now.
Qed.

(** An outcome that is recorded is never [pending]. *)
Lemma finalize_valid_outcome sid cmd f w w' reservation :
  RunControlFinalize sid cmd f w = (w', inr reservation) → fz_Outcome f ≠ "pending".
Proof.
  unfold RunControlFinalize, mbind, SE_bind, fail_if. destruct (finalize_valid sid cmd f) eqn:Hv; [|done].
  intros _ Heq. unfold finalize_valid in Hv. bool_hyps. rewrite Heq in *. done.
Qed.

Lemma recover_finalizes sid cmd reason w w' reservation :
  RecoverRunControl sid cmd reason w = (w', inr reservation) →
  ∃ f, RunControlFinalize sid cmd f w = (w', inr reservation).
Proof.
  intros Hrun. assert (wp (RecoverRunControl sid cmd reason)
    (λ a w', ∃ f, RunControlFinalize sid cmd f w = (w', inr a)) (λ _ _, True) w) as H.
  { unfold RecoverRunControl, GetRunControl. db_step. db_step; [done|]. rewrite wp_bind.
    apply wp_queryReservation; [|done]. intros r _. unfold wp.
    destruct (RunControlFinalize _ _ _ w) as [w1 [e|a]] eqn:Hf; eauto. }
  exact (wp_elim _ _ _ _ _ _ H Hrun).
Qed.


(** Finalizing a run control does not touch the attention summaries, not
    even when it stores the [session.state] event that ends the run or when the
    caller names the sealed event that does. *)
Theorem finalize_leaves_attention_alone sid cmd finalize w :
  attention (db (RunControlFinalize sid cmd finalize w).1) = attention (db w).
Proof.
  assert (keeps (λ w, attention (db w)) (RunControlFinalize sid cmd finalize)) as Hk.
  { unfold RunControlFinalize, queryRunControlReservation, queryRunControlCapability, validateRunControlPreState,
      validateLiveSettingsWriter, lockCommandAuthority, update_connection_row, appendRunControlEvent,
      update_pending_control, insert_event. keeps_auto. }
  specialize (Hk w). unfold wp in Hk. by destruct (RunControlFinalize sid cmd finalize w) as [w' []].
Qed.

End RunControl.
