(* ===== verification/SettingsProofs.v ===== *)
(** * Settings commands: soundness and behaviour

    Every operation of [Settings] keeps the Store invariant; what finalizing
    needs and does; and no request stays open for want of a way to end it. *)

From S2P Require Import Prelude StoreApi Json Sqlite Attention EventLog AttentionSpec Connections.
From S2P Require Import Settings FileReferences Invariant StoreSound CommandLedger RunControl.
From stdpp Require Import base gmap strings list sorting.
#[local] Open Scope Z_scope.

Module SettingsProofs.
Import AttentionSpec Connections Settings Invariant StoreSound.

(** ** Soundness *)

Lemma sound_querySettingsCapability {E} `{!Outcome E} sid : sound_with E (querySettingsCapability sid).
Proof. unfold querySettingsCapability. sound_auto. Qed.
Lemma sound_querySettingsCommand {E} `{!Outcome E} sid cmd : sound_with E (querySettingsCommand sid cmd).
Proof. unfold querySettingsCommand. sound_auto. Qed.
Lemma sound_verifyEvent {E} `{!Outcome E} sid seq : sound_with E (verifySettingsCapabilityEvent sid seq).
Proof. unfold verifySettingsCapabilityEvent. sound_auto. Qed.
Lemma sound_currentWriter {E} `{!Outcome E} sid writer : sound_with E (validateCurrentSettingsWriter sid writer).
Proof. unfold validateCurrentSettingsWriter. sound_auto. Qed.

#[local] Hint Resolve sound_querySettingsCapability sound_querySettingsCommand sound_verifyEvent
  sound_currentWriter : sound.

Lemma upsert_settings_sound sid update now :
  validSettingsCapabilityUpdate sid update = true → sound (upsert_settings_capability sid update now).
Proof.
  intros Hv w Hw. unfold upsert_settings_capability. db_steps; try by apply stepped_refl.
  apply step_capability; [done|]. unfold id, valid_capability, settings_capability_checks in *. bool_hyps.
  destruct (settings_capabilities (db w) !! sid); simpl in *; rewrite andb_true_iff;
    (split; [by destruct update|first [done|apply bool_decide_eq_true_2; lia]]).
Qed.

Lemma sound_PublishSettingsCapability sid update : sound (PublishSettingsCapability sid update).
Proof.
  apply sound_guard. intros Hv. bool_hyps. sound_auto. by apply sound_weaken, upsert_settings_sound.
Qed.

(** A row that progresses and passes the CHECKs is still one its readers accept. *)
Lemma progress_ok k st od ts now r :
  setting_ok k r → settings_checks k.1 k.2 (progress_row st od ts now r) = true →
  setting_ok k (progress_row st od ts now r).
Proof.
  intros [Hr _] Hc. split; [|done]. unfold validSettingsCommandRow in *. simpl in *.
  rewrite !andb_true_iff in Hr. destruct Hr as [[[[[? ?] ?] _] ?] _].
  unfold settings_checks in Hc. simpl in Hc. rewrite !andb_true_iff in Hc.
  destruct Hc as [[[[[[_ Hst] _] Hshape] _] _] _].
  rewrite !andb_true_iff. repeat split; try done.
  unfold validSettingsTerminalStatus, validSettingsNonterminalStatus in Hshape.
  unfold SettingsCommandDeliveryPending, SettingsCommandPending, SettingsCommandRecoveryPending in *.
  rewrite !orb_true_iff, !andb_true_iff, !negb_true_iff, !bool_decide_eq_true, !bool_decide_eq_false in *.
  set_unfold. destruct Hshape as [[Hs|Hs]|Hs]; naive_solver.
Qed.

Lemma sound_update_setting sid cmd wher st od ts now :
  (∀ r, wher r = true → settings_open r = true ∧ (setting_rank r ≤ setting_rank (progress_row st (od r) (ts r) now r))%nat) →
  sound (update_settings_command sid cmd wher (λ r, progress_row st (od r) (ts r) now r)).
Proof.
  intros Hset w Hw. unfold update_settings_command. db_steps; try by apply stepped_refl. unfold id in *.
  destruct (Hset _ E0) as [Ho Hrank]. apply step_setting; [done| |congruence| | |].
  - intros r' Hr'. simplify_eq. split; [done|done|congruence].
  - apply progress_ok; [|done]. exact (si_setting_rows _ Hw (sid, cmd) _ E).
  - exact (si_setting_events _ Hw (sid, cmd) _ E).
  - exact (si_setting_capability _ Hw (sid, cmd) _ E).
Qed.

(** What the WHERE of each UPDATE gives. *)
Lemma open_rank r status :
  sc_status r = status → validSettingsNonterminalStatus status = true →
  settings_open r = true ∧ (setting_rank r ≤ 2)%nat.
Proof.
  intros Hs Hv. unfold settings_open. rewrite Hs. split; [done|]. unfold setting_rank. rewrite Hs.
  unfold validSettingsNonterminalStatus in Hv. apply bool_decide_eq_true in Hv. clear Hs.
  repeat (apply elem_of_cons in Hv as [->|Hv]; [vm_compute; lia|]). by apply elem_of_nil in Hv.
Qed.

Ltac rank_by_status :=
  match goal with H : sc_status ?r = _ |- _ =>
    split; [by destruct (open_rank r _ H eq_refl)|unfold setting_rank; rewrite H; vm_compute; lia]
  end.

(** A Session with a settings request has events, hence a summary. *)
Lemma setting_summarised w sid cmd r :
  store_inv w → settings_commands (db w) !! (sid, cmd) = Some r → is_Some (attention (db w) !! sid).
Proof.
  intros Hw Hr. exact (range_summarised _ _ _ Hw (si_setting_events _ Hw (sid, cmd) r Hr)).
Qed.

Lemma wp_querySetting w sid cmd Q X :
  (∀ r, settings_commands (db w) !! (sid, cmd) = Some r →
     validSettingsCommandRow (scan_settings_command sid cmd r) = true → Q (scan_settings_command sid cmd r) w) →
  (∀ e, X e w) → wp (querySettingsCommand sid cmd) Q X w.
Proof. intros HQ HX. unfold querySettingsCommand. db_steps; bool_hyps; auto. Qed.

(** Code that follows reading a request may rely on the Session's summary. *)
Lemma sound_with_setting {A} sid cmd (k : SettingsCommand → M A) :
  (∀ command, sound_if_summarised sid (k command)) → sound (command ← querySettingsCommand sid cmd; k command).
Proof.
  intros Hk w Hw. rewrite wp_bind. apply wp_querySetting; [|intros; by apply stepped_refl].
  intros r Hr _. apply Hk; [done|]. by eapply setting_summarised.
Qed.

Lemma wp_queryCapability w sid Q X :
  (∀ r, settings_capabilities (db w) !! sid = Some r → Q (scan_settings_capability sid r) w) →
  (∀ e, X e w) → wp (querySettingsCapability sid) Q X w.
Proof. intros HQ HX. unfold querySettingsCapability. db_steps; auto. Qed.

Lemma insert_setting_then_read sid request capability now w :
  store_inv w → is_Some (settings_capabilities (db w) !! sid) →
  wp (on_error (Wrap "insert settings reservation")
        (insert_settings_command sid (sq_CommandID request) (reserved_setting request capability now)) ≫= λ _,
      command ← querySettingsCommand sid (sq_CommandID request);
      mret (mkSettingsReserve command false))
    (λ _ w', stepped w w') (λ _ w', aborted w w') w.
Proof.
  intros Hw Hcap. unfold insert_settings_command. db_steps; try by apply out_refl. unfold id in *.
  apply wp_querySetting; [|intros e; pose proof (si_fence _ Hw); split; simpl; [done|lia|lia]].
  simpl. rewrite lookup_insert_eq. intros r [= <-] Hv. rewrite wp_ret.
  unfold settings_references in *. bool_hyps. apply step_setting; [done| | |done| |done]; simpl.
  - intros r Hr. by rewrite Hr in *.
  - intros _. destruct (open_settings sid (db w)) eqn:Ho; [|done]. eapply none_open_listed; [|exact Ho].
    intros cmd v Hopen. simpl. rewrite Hopen, bool_decide_eq_true_2 by done. eauto.
  - match goal with H : is_Some (event_at _ _ _) |- _ => destruct H as [e He] end.
    by eapply CommandLedger.event_at_range.
Qed.

Lemma sound_SettingsCommandReserve sid request : sound (SettingsCommandReserve sid request).
Proof.
  apply sound_guard. intros _. apply sound_tx. apply sound_bind; [apply sound_now|intros now].
  apply sound_bind; [apply sound_lockCommandAuthority|intros _].
  apply sound_bind; [apply sound_currentWriter|intros _].
  intros w Hw. rewrite wp_bind, wp_on_error. apply wp_queryCapability; [|intros; by apply out_refl].
  intros c Hc. rewrite wp_bind, wp_try. apply wp_querySetting.
  - intros r _ _. db_steps; [by apply out_refl|by apply stepped_refl].
  - intros err. do 2 (db_step; db_step; [by apply out_refl|]). apply insert_setting_then_read; eauto.
Qed.

Lemma sound_AcknowledgeSettings sid cmd version writer :
  sound (AcknowledgeSettingsCommandDelivery sid cmd version writer).
Proof.
  apply sound_guard. intros _. sound_auto. apply sound_weaken, sound_update_setting.
  intros r Hr. bool_hyps. rank_by_status.
Qed.

Lemma sound_finish_setting sid cmd wher outcome seq now :
  validSettingsTerminalStatus outcome = true →
  (∀ r, wher r = true → validSettingsNonterminalStatus (sc_status r) = true) →
  sound (update_settings_command sid cmd wher (finish_setting outcome seq now)).
Proof.
  intros Ht Hw. apply sound_update_setting. intros r Hr. destruct (open_rank r _ eq_refl (Hw r Hr)) as [? Hle].
  split; [done|]. transitivity 2%nat; [done|]. unfold setting_rank. simpl.
  unfold validSettingsTerminalStatus, validSettingsNonterminalStatus in Ht. bool_hyps.
  rewrite !bool_decide_eq_false_2; [lia|set_solver..].
Qed.

Lemma sound_RecoverSettings sid cmd writer : sound (RecoverSettingsCommand sid cmd writer).
Proof.
  apply sound_guard. intros _. apply sound_tx, sound_weaken. apply sound_bind; [apply sound_now|intros now].
  apply sound_with_setting. intros command.
  apply summarised_bind; [apply summarised_sound, sound_fail_if|intros _].
  apply summarised_bind; [|intros; apply summarised_sound, sound_querySettingsCommand].
  destruct (bool_decide _).
  - apply summarised_bind; [apply summarised_sound, sound_fail_if|intros _].
    apply summarised_bind; [apply summarised_appendRunControlEvent|intros seq]. apply summarised_sound. sound_auto.
    apply sound_finish_setting; [done|]. intros r Hr. bool_hyps.
    by match goal with H : sc_status r = _ |- _ => rewrite H end.
  - apply summarised_sound. sound_auto. apply sound_update_setting. intros r Hr. bool_hyps.
    rank_by_status.
Qed.

Lemma sound_FinalizeSettings sid cmd finalize : sound (FinalizeSettingsCommand sid cmd finalize).
Proof.
  apply sound_guard. intros Hv. apply sound_tx, sound_weaken. apply sound_bind; [apply sound_now|intros now].
  apply sound_with_setting. intros command.
  apply summarised_bind; [apply summarised_sound, sound_fail_if|intros _].
  apply summarised_bind; [apply summarised_sound; sound_auto|intros _].
  apply summarised_bind; [apply summarised_sound; sound_auto|intros capability].
  apply summarised_bind; [apply summarised_sound, sound_fail_if|intros _].
  apply summarised_bind; [apply summarised_sound, sound_lift|intros _].
  apply summarised_bind; [intros w Hw Hs; rewrite wp_on_error; by apply summarised_appendRunControlEvent|intros seq].
  apply summarised_sound. sound_auto. unfold settings_finalize_valid in Hv. bool_hyps.
  apply sound_finish_setting; [done|]. intros r Hr. bool_hyps. congruence.
Qed.

Lemma sound_GetSettings sid cmd : sound (GetSettingsCommand sid cmd).
Proof. unfold GetSettingsCommand. sound_auto. Qed.

Lemma sound_PendingSettings sid : sound (PendingSettingsCommands sid).
Proof.
  apply sound_guard. intros _. apply sound_tx. apply sound_bind; [apply sound_query|]. intros rows.
  generalize (fst <$> rows) as ids. induction ids as [|c ids IH]; simpl; sound_auto.
Qed.

(** ** What finalizing needs and does *)

(** Who may end a request with which outcome at [now]: its writer, while it
    holds the connection, before the operation deadline; nobody's writer rejects
    an undelivered request after the delivery deadline, times a delivered one
    out after the operation deadline, and declares the outcome of a request
    whose writer was replaced unknown. *)
Definition may_settle (f : SettingsCommandFinalize) (now : Z) (r : settings_command_row) (cap : settings_capability_row)
    (connection : option connection_row) : Prop :=
  match sf_Writer f with
  | Some writer =>
      writer = sc_writer r ∧ sc_status r = "pending" ∧
      (∃ t, sc_operation_deadline_ms r = Some t ∧ now < t) ∧
      ∃ c now', connection = Some c ∧ holds_authority (authority_of writer) now' c = true
  | None =>
      (sc_status r = "delivery_pending" ∧ sf_Outcome f = "rejected" ∧ sc_delivery_deadline_ms r ≤ now) ∨
      (sc_status r = "pending" ∧ sf_Outcome f = "timeout" ∧ ∃ t, sc_operation_deadline_ms r = Some t ∧ t ≤ now) ∨
      (sc_status r = "recovery_pending" ∧ sf_Outcome f = "outcome_unknown" ∧ sp_writer cap ≠ sc_writer r ∧
       sc_reserved_capability_event_seq r < sp_event_seq cap)
  end.

(** What was asked for is in effect, and nothing else changed. *)
Definition in_effect (r : settings_command_row) (cap : settings_capability_row) : Prop :=
  sp_effective_model_id cap = default (sc_reserved_effective_model_id r) (sc_requested_model_id r) ∧
  sp_effective_reasoning_effort_id cap
    = match sc_requested_reasoning_effort_id r with
      | Some v => Some v
      | None => sc_reserved_effective_reasoning_effort_id r
      end ∧
  sp_effective_permission_mode_id cap
    = default (sc_reserved_effective_permission_mode_id r) (sc_requested_permission_mode_id r).

Lemma validated_applied sid cmd r cap f now :
  validateSettingsFinalization (scan_settings_command sid cmd r) (scan_settings_capability sid cap) f now = inr tt →
  sf_Outcome f = SettingsCommandApplied → in_effect r cap.
Proof.
  unfold validateSettingsFinalization. intros Hv Ho. cbv zeta in Hv. rewrite (bool_decide_eq_true_2 _ Ho) in Hv.
  simpl in Hv. destruct (_ || _) eqn:Hb in Hv; [done|]. clear Hv.
  unfold differs, sameSettingsOptionalID in Hb. simpl in Hb. bool_hyps. unfold in_effect.
  destruct (sc_requested_model_id r), (sc_requested_reasoning_effort_id r), (sc_requested_permission_mode_id r);
    simpl in *; bool_hyps; repeat match goal with H : ¬ (_ ≠ _) |- _ => apply dec_stable in H end;
    split_and!; try congruence.
Qed.

Lemma validated_settles sid cmd r cap f now connection :
  validateSettingsFinalization (scan_settings_command sid cmd r) (scan_settings_capability sid cap) f now = inr tt →
  sc_status r = sf_ExpectedStatus f →
  match sf_Writer f with
  | Some writer => writer = sc_writer r ∧
      ∃ c now', connection = Some c ∧ holds_authority (authority_of writer) now' c = true
  | None => True
  end → may_settle f now r cap connection.
Proof.
  intros Hv Hs Hw. unfold validateSettingsFinalization in Hv. cbv zeta in Hv. rewrite <-Hs in Hv.
  do 2 (destruct (_ && _) in Hv; [done|]). simpl in Hv. unfold may_settle, deadline_over in *.
  destruct (sf_Writer f) as [writer|]; simpl in Hv.
  - destruct Hw as [-> Hc]. destruct (bool_decide _) in Hv; [done|].
    destruct (bool_decide (sc_status r = SettingsCommandPending)) eqn:Hp; [|by destruct (bool_decide _) in Hv].
    destruct (sc_operation_deadline_ms r) as [t|]; [|done]. simpl in Hv. rewrite UnixMilli_of in Hv.
    destruct (bool_decide (t ≤ now)) eqn:Ht in Hv; [done|]. bool_hyps. split_and!; try done. exists t. split; [done|lia].
  - destruct (bool_decide (sc_status r = SettingsCommandDeliveryPending)) eqn:H1.
    { destruct (_ || _) eqn:Hb in Hv; [done|]. rewrite UnixMilli_of in Hb. bool_hyps. left.
      split_and!; [done|by apply dec_stable|lia]. }
    destruct (bool_decide (sc_status r = SettingsCommandPending)) eqn:H2.
    { destruct (_ || _) eqn:Hb in Hv; [done|]. right. left. bool_hyps. destruct (sc_operation_deadline_ms r) as [t|]; [|done].
      simpl in *. rewrite UnixMilli_of in *. bool_hyps. split_and!; [done|by apply dec_stable|eauto]. }
    destruct (bool_decide (sc_status r = SettingsCommandRecoveryPending)) eqn:H3; [|done].
    destruct (_ || _) eqn:Hb in Hv; [done|]. bool_hyps. right. right. split_and!; [done|by apply dec_stable|done|lia].
Qed.

Notation settings_table := (λ w, settings_commands (db w)).

Lemma keeps_append_settings sid type payload now : keeps settings_table (appendRunControlEvent sid type payload now).
Proof. unfold appendRunControlEvent, insert_event. keeps_auto. Qed.

Lemma keeps_currentWriter sid writer :
  keeps (λ w, (settings_commands (db w), settings_capabilities (db w))) (validateCurrentSettingsWriter sid writer).
Proof. unfold validateCurrentSettingsWriter, validateLiveSettingsWriter. keeps_auto. Qed.

Lemma wp_lock_writer sid writer Q X w :
  (∀ c now w', connections (db w) !! sid = Some c → holds_authority (authority_of writer) now c = true →
     settings_commands (db w') = settings_commands (db w) →
     settings_capabilities (db w') = settings_capabilities (db w) → Q tt w') →
  (∀ e w', X e w') →
  wp (lockCommandAuthority sid (authority_of writer) ≫= λ _, validateCurrentSettingsWriter sid writer) Q X w.
Proof.
  intros HQ HX. unfold lockCommandAuthority, update_connection_row. db_steps; try apply HX; try done.
  eapply (keeps_wp (λ w, (settings_commands (db w), settings_capabilities (db w)))).
  - apply keeps_currentWriter.
  - instantiate (1 := w). reflexivity.
  - intros [] w' [= Hset Hcap]. eapply HQ; eauto.
  - auto.
Qed.

Lemma finalize_setting_spec sid cmd f w :
  wp (FinalizeSettingsCommand sid cmd f)
    (λ command w', ∃ r cap seq now,
       settings_commands (db w) !! (sid, cmd) = Some r ∧ settings_capabilities (db w) !! sid = Some cap ∧
       sc_status r = sf_ExpectedStatus f ∧ sc_reservation_version r = sf_ReservationVersion f ∧
       may_settle f now r cap (connections (db w) !! sid) ∧ (sf_Outcome f = "applied" → in_effect r cap) ∧
       settings_commands (db w') = <[(sid, cmd) := finish_setting (sf_Outcome f) seq now r]> (settings_commands (db w)) ∧
       command = scan_settings_command sid cmd (finish_setting (sf_Outcome f) seq now r))
    (λ _ w', db w' = db w) w.
Proof.
  unfold FinalizeSettingsCommand. db_step. db_step; [done|]. rewrite wp_tx.
  eapply (wp_mono _ _ _ (λ _ _, True)); [|intros a w' Ha; exact Ha|done].
  do 2 db_step. rewrite wp_bind. apply wp_querySetting; [|done]. simpl. intros r Hr _.
  set (w0 := mkWorld _ _ _ _). set (now := clock w (tick w)). db_step. db_step; [done|]. bool_hyps.
  rewrite wp_bind.
  match goal with |- wp ?m _ _ _ => assert (wp m (λ _ w', settings_commands (db w') = settings_commands (db w) ∧
      settings_capabilities (db w') = settings_capabilities (db w) ∧
      match sf_Writer f with Some writer => writer = sc_writer r ∧
         ∃ c now', connections (db w) !! sid = Some c ∧ holds_authority (authority_of writer) now' c = true
      | None => True end) (λ _ _, True) w0) as Hguard end.
  { destruct (sf_Writer f) as [writer|]; [|by rewrite wp_ret].
    apply wp_lock_writer; [|done]. intros c now' w1 Hc Hauth Hset Hcap. split_and!; [done|done| |eauto].
    bool_hyps. symmetry. by apply dec_stable. }
  eapply wp_mono; [exact Hguard| |done]. clear Hguard. intros [] w1 (Hw1 & Hc1 & Hwriter).
  rewrite wp_bind, wp_on_error. apply wp_queryCapability; [|done]. intros cap. rewrite Hc1. intros Hcap.
  db_step. db_step; [done|]. db_step. rewrite wp_lift.
  destruct (validateSettingsFinalization _ _ f now) as [|[]] eqn:Hv; [done|].
  rewrite wp_bind, wp_on_error. apply (keeps_wp settings_table _ w); [apply keeps_append_settings|done| |done].
  intros seq w2 Hw2. unfold update_settings_command. rewrite wp_bind, wp_bind, wp_query. unfold id. rewrite Hw2, Hr.
  destruct (_ && _) eqn:Hp; [|rewrite wp_ret; db_step; by db_step]. db_steps; try done.
  apply wp_querySetting; [|done]. simpl. rewrite Hw2, lookup_insert_eq. intros r' [= <-] _. bool_hyps.
  exists r, cap, seq, now. split_and!; try done.
  - by eapply validated_settles.
  - intros Ho. by eapply validated_applied.
Qed.

(** Ending a settings request is authorised and truthful.  When
    [FinalizeSettingsCommand] succeeds the request was open in the status and
    version the caller names, the caller was allowed to report this outcome at
    this time, an outcome of [applied] means that the capability in force shows
    exactly what was asked for and nothing else changed, and only that request's
    row is changed; when it fails the database is as it was. *)
Theorem finalize_setting_is_authorised sid cmd f w :
  match FinalizeSettingsCommand sid cmd f w with
  | (w', inr command) => ∃ r cap seq now,
      settings_commands (db w) !! (sid, cmd) = Some r ∧ settings_capabilities (db w) !! sid = Some cap ∧
      sc_status r = sf_ExpectedStatus f ∧ sc_reservation_version r = sf_ReservationVersion f ∧
      may_settle f now r cap (connections (db w) !! sid) ∧ (sf_Outcome f = "applied" → in_effect r cap) ∧
      settings_commands (db w') = <[(sid, cmd) := finish_setting (sf_Outcome f) seq now r]> (settings_commands (db w)) ∧
      command = scan_settings_command sid cmd (finish_setting (sf_Outcome f) seq now r)
  | (w', inl _) => db w' = db w
  end.
Proof.
  pose proof (finalize_setting_spec sid cmd f w) as H. unfold wp in H.
  by destruct (FinalizeSettingsCommand sid cmd f w) as [w' [e|a]].
Qed.

(** ** No request stays open for want of a way to end it *)

Lemma finish_setting_checks k outcome seq now r :
  settings_checks k.1 k.2 r = true → validSettingsTerminalStatus outcome = true →
  settings_checks k.1 k.2 (finish_setting outcome seq now r) = true.
Proof.
  intros Hr Ho. pose proof Ho as Hs. unfold validSettingsTerminalStatus in Hs. apply andb_true_iff in Hs as [Hs _].
  unfold settings_checks in *. simpl in *. rewrite Ho, Hs, orb_true_r, !andb_true_r. rewrite !andb_true_iff in Hr.
  rewrite !andb_true_iff. destruct_and! Hr. split_and!; done.
Qed.

(** Recording the outcome of an open request: the event, then the row. *)
Lemma wp_append_setting w sid cmd r type payload now Q X :
  store_inv w → latest_seq sid (db w) < max_int64 → settings_commands (db w) !! (sid, cmd) = Some r →
  (∀ seq w', log_ok (db w') → 1 ≤ seq ≤ latest_seq sid (db w') →
     1 ≤ sc_reserved_capability_event_seq r ≤ latest_seq sid (db w') →
     settings_commands (db w') !! (sid, cmd) = Some r → Q seq w') →
  wp (appendRunControlEvent sid type payload now) Q X w.
Proof.
  intros Hw Hmax Hr HQ. pose proof (si_log _ Hw) as Hlog.
  pose proof (si_setting_events _ Hw _ _ Hr) as Hev. simpl in Hev.
  apply wp_append_ok; [done|done|]. intros row <- Hseq Hlog'.
  destruct (snoc_event w row Hlog Hseq Hlog') as [Hgrow Hlast]. specialize (Hgrow (er_session_id row)).
  apply HQ; simpl; [done|lia|lia|done].
Qed.

Lemma wp_finish_ok w sid cmd r wher outcome seq now Q X :
  log_ok (db w) → settings_commands (db w) !! (sid, cmd) = Some r → setting_ok (sid, cmd) r →
  1 ≤ sc_reserved_capability_event_seq r ≤ latest_seq sid (db w) → 1 ≤ seq ≤ latest_seq sid (db w) →
  wher r = true → validSettingsTerminalStatus outcome = true →
  (∀ w', settings_commands (db w') !! (sid, cmd) = Some (finish_setting outcome seq now r) →
     setting_ok (sid, cmd) (finish_setting outcome seq now r) → Q 1 w') →
  wp (update_settings_command sid cmd wher (finish_setting outcome seq now)) Q X w.
Proof.
  intros Hlog Hr Hok Hev Hseq Hwher Ho HQ. unfold update_settings_command. rewrite wp_bind, wp_query. unfold id.
  rewrite Hr, Hwher. pose proof (finish_setting_checks (sid, cmd) outcome seq now r (proj2 Hok) Ho) as Hchk.
  rewrite wp_bind, wp_check. simpl in Hchk. rewrite Hchk. split; [done|intros _]. rewrite wp_bind, wp_check.
  assert (settings_references sid (db w) (finish_setting outcome seq now r) = true) as ->.
  { unfold settings_references. simpl. by rewrite !bool_decide_eq_true_2 by (by apply event_in_range). }
  split; [done|intros _]. rewrite wp_bind, wp_exec, wp_ret.
  apply HQ; [simpl; by rewrite lookup_insert_eq|by apply progress_ok].
Qed.

(** The call that ends an open request. *)
Definition close_setting (sid cmd : string) (r : settings_command_row) (cap : settings_capability_row)
    : M SettingsCommand :=
  if bool_decide (sc_status r = "delivery_pending") then RecoverSettingsCommand sid cmd (sc_writer r)
  else FinalizeSettingsCommand sid cmd
         (mkSettingsFinalize (sc_reservation_version r) (sc_status r) None
            (if bool_decide (sc_status r = "pending") then "timeout" else "outcome_unknown")
            (Some "operation_timeout") (scan_settings_capability sid cap)).

(** When it is due: a deadline has passed, or another writer has taken over. *)
Definition setting_due (now : Z) (r : settings_command_row) (cap : settings_capability_row) : Prop :=
  if bool_decide (sc_status r = "delivery_pending") then sc_delivery_deadline_ms r ≤ now
  else if bool_decide (sc_status r = "pending") then ∀ t, sc_operation_deadline_ms r = Some t → t ≤ now
  else sp_writer cap ≠ sc_writer r ∧ sc_reserved_capability_event_seq r < sp_event_seq cap.

Lemma wp_read_setting w sid cmd r Q X :
  settings_commands (db w) !! (sid, cmd) = Some r → setting_ok (sid, cmd) r →
  Q (scan_settings_command sid cmd r) w → wp (querySettingsCommand sid cmd) Q X w.
Proof. intros Hr [Hv _] HQ. unfold querySettingsCommand. rewrite wp_bind, wp_query_row, Hr. simpl in Hv. by rewrite Hv. Qed.

Lemma wp_read_capability w sid cap Q X :
  settings_capabilities (db w) !! sid = Some cap → valid_capability (scan_settings_capability sid cap) = true →
  Q (scan_settings_capability sid cap) w → wp (querySettingsCapability sid) Q X w.
Proof. intros Hc Hv HQ. unfold querySettingsCapability. rewrite wp_bind, wp_query_row, Hc. by rewrite Hv. Qed.

Lemma setting_names sid cmd r :
  setting_ok (sid, cmd) r →
  validConnectionID sid = true ∧ cmd ≠ "" ∧ 1 ≤ sc_reservation_version r ∧ validSettingsWriter (sc_writer r) = true.
Proof.
  intros [Hv _]. unfold validSettingsCommandRow, validSettingsCommandRequest in Hv. simpl in Hv. rewrite !andb_true_iff in Hv.
  destruct_and! Hv. repeat match goal with H : bool_decide _ = true |- _ => apply bool_decide_eq_true in H end.
  split_and!; [done|done|lia|done].
Qed.

(** What the CHECKs say of an open request. *)
Lemma open_shape k r :
  setting_ok k r → settings_open r = true →
  sc_terminal_event_seq r = None ∧ (sc_status r ≠ "delivery_pending" → is_Some (sc_operation_deadline_ms r)).
Proof.
  intros [_ Hc] Ho. unfold settings_checks in Hc. rewrite !andb_true_iff in Hc.
  destruct Hc as [[[[_ Hshape] _] _] _]. unfold validSettingsTerminalStatus in Hshape.
  unfold settings_open in Ho. rewrite Ho in Hshape. simpl in Hshape. rewrite andb_false_r, orb_false_r in Hshape.
  rewrite !orb_true_iff, !andb_true_iff, !negb_true_iff, !bool_decide_eq_true in Hshape.
  destruct (sc_terminal_event_seq r), (sc_operation_deadline_ms r); simpl in *; naive_solver.
Qed.

Lemma close_by_recovery w sid cmd r :
  store_inv w → latest_seq sid (db w) < max_int64 → settings_commands (db w) !! (sid, cmd) = Some r →
  sc_status r = "delivery_pending" → sc_delivery_deadline_ms r ≤ clock w (tick w) →
  wp (RecoverSettingsCommand sid cmd (sc_writer r)) (λ command _, sc_Status command = "rejected") (λ _ _, False) w.
Proof.
  intros Hw Hmax Hr Hs Hdue. pose proof (si_setting_rows _ Hw _ _ Hr) as Hok.
  destruct (setting_names _ _ _ Hok) as (Hsid & Hcmd & _ & Hwriter).
  unfold RecoverSettingsCommand. rewrite Hsid, Hwriter, (bool_decide_eq_false_2 _ Hcmd). simpl. db_step.
  rewrite wp_ret, wp_tx. do 2 db_step. rewrite wp_bind. eapply wp_read_setting; [exact Hr|done|]. simpl.
  rewrite (bool_decide_eq_false_2 (sc_writer r ≠ sc_writer r)) by auto. rewrite (bool_decide_eq_true_2 _ Hs).
  rewrite UnixMilli_of, (bool_decide_eq_false_2 (_ < _)) by lia. simpl. do 2 db_step. rewrite wp_bind, wp_bind, wp_ret.
  rewrite wp_bind. eapply wp_append_setting; [by apply (step_tick w)|done|exact Hr|]. intros seq w1 Hlog Hseq Hev Hr1.
  rewrite wp_bind, wp_on_error. apply (wp_finish_ok _ _ _ r); try done.
  - destruct (open_shape _ _ Hok) as [Hnone _]; [unfold settings_open; by rewrite Hs|].
    by rewrite Hs, Hnone, !bool_decide_eq_true_2.
  - intros w2 Hr2 Hok2. simpl. rewrite wp_ret. by eapply wp_read_setting.
Qed.

Lemma due_validated sid cmd r cap now :
  setting_ok (sid, cmd) r → sc_status r ∈ ["pending"; "recovery_pending"] → setting_due now r cap →
  validateSettingsFinalization (scan_settings_command sid cmd r) (scan_settings_capability sid cap)
    (mkSettingsFinalize (sc_reservation_version r) (sc_status r) None
       (if bool_decide (sc_status r = "pending") then "timeout" else "outcome_unknown")
       (Some "operation_timeout") (scan_settings_capability sid cap)) now = inr tt.
Proof.
  intros Hok Hs Hdue. assert (settings_open r = true) as Ho.
  { unfold settings_open, validSettingsNonterminalStatus. apply bool_decide_eq_true. set_solver. }
  destruct (open_shape _ _ Hok Ho) as [_ Hop]. unfold setting_due in Hdue. unfold validateSettingsFinalization.
  repeat (apply elem_of_cons in Hs as [Hs|Hs]); [| |by apply elem_of_nil in Hs]; rewrite Hs in *; simpl in *.
  - destruct Hop as [t Ht]; [done|]. rewrite Ht. simpl. rewrite UnixMilli_of, bool_decide_eq_true_2; auto.
  - destruct Hdue as [Hne Hlt]. rewrite (bool_decide_eq_false_2 _ Hne), (bool_decide_eq_false_2 (_ ≤ _)) by lia. done.
Qed.

Lemma same_capability c : sameSettingsCapability c c = true.
Proof. unfold sameSettingsCapability, sameSettingsOptionalID. by rewrite !bool_decide_eq_true_2. Qed.

Lemma close_by_finalizing w sid cmd r cap :
  store_inv w → latest_seq sid (db w) < max_int64 → settings_commands (db w) !! (sid, cmd) = Some r →
  settings_capabilities (db w) !! sid = Some cap → sc_status r ∈ ["pending"; "recovery_pending"] →
  setting_due (clock w (tick w)) r cap →
  wp (close_setting sid cmd r cap) (λ command _, validSettingsTerminalStatus (sc_Status command) = true) (λ _ _, False) w.
Proof.
  intros Hw Hmax Hr Hcap Hs Hdue. pose proof (si_setting_rows _ Hw _ _ Hr) as Hok.
  pose proof (si_capabilities _ Hw _ _ Hcap) as Hvalid.
  destruct (setting_names _ _ _ Hok) as (Hsid & Hcmd & Hv1 & Hwriter).
  assert (settings_open r = true) as Ho.
  { unfold settings_open, validSettingsNonterminalStatus. apply bool_decide_eq_true. set_solver. }
  destruct (open_shape _ _ Hok Ho) as [Hnone _].
  pose proof (due_validated sid cmd r cap _ Hok Hs Hdue) as Hfinal.
  unfold close_setting. rewrite bool_decide_eq_false_2 by (intros Hd; rewrite Hd in Hs; revert Hs; set_solver).
  set (f := mkSettingsFinalize _ _ _ _ _ _) in *.
  assert (validSettingsTerminalStatus (sf_Outcome f) = true) as Hout by (simpl; by destruct (bool_decide _)).
  unfold FinalizeSettingsCommand. rewrite wp_bind, wp_fail_if.
  assert (settings_finalize_valid sid cmd f = true) as ->.
  { unfold settings_finalize_valid, valid_capability in *. apply andb_true_iff in Hvalid as [Hvalid _].
    rewrite Hsid, Hout. simpl in *. rewrite Hvalid. unfold settings_open in Ho. rewrite Ho.
    rewrite (bool_decide_eq_false_2 (sid ≠ sid)), andb_false_r by auto.
    by rewrite (bool_decide_eq_false_2 (cmd = _)), (bool_decide_eq_false_2 (_ < _)) by (auto || lia). }
  split; [done|intros _]. rewrite wp_tx. do 2 db_step. rewrite wp_bind. eapply wp_read_setting; [exact Hr|done|].
  simpl. rewrite !(bool_decide_eq_false_2 (_ ≠ _)) by auto. simpl. do 2 db_step. rewrite wp_bind, wp_ret, wp_bind, wp_on_error.
  apply (wp_read_capability _ _ cap); [done|done|]. rewrite same_capability. do 2 db_step; [done|].
  rewrite wp_bind, Hfinal, wp_lift. rewrite wp_bind, wp_on_error.
  eapply wp_append_setting; [by apply (step_tick w)|done|exact Hr|]. intros seq w1 Hlog Hseq Hev Hr1.
  rewrite wp_bind. apply (wp_finish_ok _ _ _ r); try done.
  - by rewrite Hnone, !bool_decide_eq_true_2.
  - intros w2 Hr2 Hok2. simpl. do 2 db_step. by eapply wp_read_setting.
Qed.

(** An open request that is due can be ended by one call, whoever was its
    writer and whether or not any connection is left. *)
Lemma open_setting_closes w sid cmd r :
  store_inv w → latest_seq sid (db w) < max_int64 → settings_commands (db w) !! (sid, cmd) = Some r →
  settings_open r = true → ∃ cap, settings_capabilities (db w) !! sid = Some cap ∧
    (setting_due (clock w (tick w)) r cap →
     wp (close_setting sid cmd r cap) (λ command _, validSettingsTerminalStatus (sc_Status command) = true) (λ _ _, False) w).
Proof.
  intros Hw Hmax Hr Ho. destruct (si_setting_capability _ Hw _ _ Hr) as [cap Hcap]. exists cap. split; [done|]. intros Hdue.
  destruct (decide (sc_status r = "delivery_pending")) as [Hs|Hs].
  - unfold close_setting, setting_due in *. rewrite bool_decide_eq_true_2 in Hdue |- * by done.
    eapply wp_mono; [by apply close_by_recovery|by intros ? ? ->|done].
  - apply close_by_finalizing; try done. unfold settings_open, validSettingsNonterminalStatus in Ho.
    apply bool_decide_eq_true in Ho. set_solver.
Qed.

End SettingsProofs.
