(* ===== verification/FileReferencesProofs.v ===== *)
(** * File-reference commands: soundness and behaviour

    Every operation of [FileReferences] keeps the Store invariant, and an open
    command can always be ended. *)

From S2P Require Import Prelude StoreApi Json Sqlite Attention EventLog AttentionSpec Connections.
From S2P Require Import Settings FileReferences Invariant StoreSound CommandLedger.
From stdpp Require Import base gmap strings list sorting.
#[local] Open Scope Z_scope.

Module FileReferencesProofs.
Import AttentionSpec Connections Settings FileReferences Invariant StoreSound.

(** ** Soundness *)

Lemma sound_queryFileCapability {E} `{!Outcome E} sid : sound_with E (queryFileReferenceCapability sid).
Proof. unfold queryFileReferenceCapability. sound_auto. Qed.
Lemma sound_queryFileCommand {E} `{!Outcome E} sid cmd : sound_with E (queryFileReferenceCommand sid cmd).
Proof. unfold queryFileReferenceCommand. sound_auto. Qed.

#[local] Hint Resolve sound_queryFileCapability sound_queryFileCommand : sound.

Lemma sound_upsert_file_capability {E} `{!Outcome E} sid update now : sound_with E (upsert_file_capability sid update now).
Proof.
  apply sound_weaken. intros w Hw. unfold upsert_file_capability. db_steps; try by apply stepped_refl.
  all: unfold id in *; bool_hyps; apply step_file_capability; [done|simpl].
  all: match goal with H : is_Some (event_at _ _ _) |- _ => destruct H as [e He] end.
  all: by eapply CommandLedger.event_at_range.
Qed.
#[local] Hint Resolve sound_upsert_file_capability : sound.

Lemma sound_PublishFileCapability sid update : sound (PublishFileReferenceCapability sid update).
Proof. unfold PublishFileReferenceCapability. sound_auto. Qed.

(** Code that follows reading a capability may rely on the Session's summary. *)
Lemma sound_with_capability {A} sid f (k : FileReferenceCapability → M A) :
  (∀ c, sound_if_summarised sid (k c)) → sound (c ← on_error f (queryFileReferenceCapability sid); k c).
Proof.
  intros Hk w Hw. rewrite wp_bind, wp_on_error. unfold queryFileReferenceCapability. db_steps; try by apply stepped_refl.
  apply Hk; [done|]. exact (range_summarised _ _ _ Hw (si_file_capabilities _ Hw _ _ E)).
Qed.

Lemma sound_with_file {A} sid cmd (k : FileReferenceCommand → M A) :
  (∀ c, sound_if_summarised sid (k c)) → sound (c ← queryFileReferenceCommand sid cmd; k c).
Proof.
  intros Hk w Hw. rewrite wp_bind. unfold queryFileReferenceCommand. db_steps; try by apply stepped_refl.
  apply Hk; [done|]. exact (si_files _ Hw (sid, cmd) _ E).
Qed.

Lemma summarised_insert_file sid cmd r :
  validConnectionID sid = true → sound_if_summarised sid (insert_file_command sid cmd r).
Proof.
  intros Hsid w Hw Hs. unfold insert_file_command. db_steps; try by apply stepped_refl. unfold id in *.
  apply step_file; [done| | |done|done]; simpl.
  - intros r' Hr'. by rewrite Hr' in *.
  - intros _. destruct (open_file_commands sid (db w)) eqn:Ho; [|done]. eapply none_open_listed; [|exact Ho].
    intros cmd' v Hopen. simpl. rewrite Hopen, bool_decide_eq_true_2 by done. eauto.
Qed.

Lemma sound_CommitFile sid message request : sound (CommitFileReferenceCommand sid message request).
Proof.
  apply sound_guard. intros Hv. apply sound_tx, sound_weaken. apply sound_bind; [apply sound_now|intros now].
  apply sound_bind; [apply sound_try, sound_queryFileCommand|intros [err|existing]]; [|sound_auto].
  apply sound_bind; [apply sound_fail_if|intros _].
  apply sound_with_capability. intros c.
  apply summarised_bind; [apply summarised_sound, sound_fail_if|intros _].
  apply summarised_bind; [apply summarised_sound; sound_auto|intros _].
  apply summarised_bind; [apply summarised_appendRunControlEvent|intros _].
  apply summarised_bind; [|intros _; apply summarised_sound; sound_auto]. apply summarised_insert_file.
  unfold validFileReferenceRequest in Hv. bool_hyps. done.
Qed.

Lemma sound_update_file sid cmd wher set :
  (∀ r, wher r = true → file_command_open r = true ∧ fc_message_id (set r) = fc_message_id r) →
  sound (update_file_command sid cmd wher set).
Proof.
  intros Hset w Hw. unfold update_file_command. db_steps; try by apply stepped_refl. unfold id in *.
  destruct (Hset _ E0) as [Ho Hm]. apply step_file; [done| |congruence| |exact (si_files _ Hw (sid, cmd) _ E)];
    [|split; [done|exact (proj2 (si_file_rows _ Hw (sid, cmd) _ E))]].
  intros r' Hr'. simplify_eq. split; [done|congruence].
Qed.

Ltac file_by_status :=
  intros r Hr; bool_hyps; split; [|done]; unfold file_command_open;
  match goal with H : fc_status r = _ |- _ => by rewrite H end.

Lemma sound_AcknowledgeFile sid cmd version writer : sound (AcknowledgeFileReferenceDelivery sid cmd version writer).
Proof. unfold AcknowledgeFileReferenceDelivery. sound_auto. apply sound_weaken, sound_update_file. file_by_status. Qed.

Lemma sound_FinalizeFile sid cmd finalize : sound (FinalizeFileReferenceCommand sid cmd finalize).
Proof.
  apply sound_guard. intros _. apply sound_tx, sound_weaken. apply sound_bind; [apply sound_now|intros now].
  apply sound_with_file. intros command.
  apply summarised_bind; [apply summarised_sound, sound_fail_if|intros _].
  apply summarised_bind; [apply summarised_sound; sound_auto|intros _].
  apply summarised_bind; [apply summarised_appendRunControlEvent|intros seq].
  apply summarised_sound. sound_auto. apply sound_update_file. file_by_status.
Qed.

Lemma sound_RecoverFile sid cmd reason : sound (RecoverFileReferenceCommand sid cmd reason).
Proof.
  unfold RecoverFileReferenceCommand, GetFileReferenceCommand.
  apply sound_bind; [apply sound_queryFileCommand|intros command0].
  destruct (bool_decide _); [apply sound_FinalizeFile|]. apply sound_guard. intros _. apply sound_tx, sound_weaken.
  apply sound_bind; [apply sound_now|intros now]. apply sound_with_file. intros command.
  apply summarised_bind; [apply summarised_sound, sound_fail_if|intros _].
  apply summarised_bind; [apply summarised_appendRunControlEvent|intros seq].
  apply summarised_sound. sound_auto. apply sound_update_file. file_by_status.
Qed.

Lemma sound_PendingFiles sid : sound (PendingFileReferenceCommands sid).
Proof.
  unfold PendingFileReferenceCommands. apply sound_bind; [apply sound_query|]. intros rows.
  generalize (fst <$> rows) as ids. unfold GetFileReferenceCommand.
  induction ids as [|c ids IH]; simpl; unfold GetFileReferenceCommand; sound_auto.
Qed.

(** ** An open command can always be ended *)

Lemma wp_append_file w sid cmd r type payload now Q X :
  store_inv w → latest_seq sid (db w) < max_int64 → file_commands (db w) !! (sid, cmd) = Some r →
  (∀ seq w', is_Some (event_at sid seq (db w')) → file_commands (db w') !! (sid, cmd) = Some r → Q seq w') →
  wp (appendRunControlEvent sid type payload now) Q X w.
Proof.
  intros Hw Hmax Hr HQ. pose proof (si_log _ Hw) as Hlog. apply wp_append_ok; [done|done|]. intros row <- Hseq Hlog'.
  destruct (snoc_event w row Hlog Hseq Hlog') as [Hgrow Hlast]. apply HQ; [|done]. apply event_in_range; [done|].
  simpl. pose proof (latest_seq_dense _ (er_session_id row) Hlog). lia.
Qed.

Lemma wp_finish_file w sid cmd r wher seq now Q X :
  file_commands (db w) !! (sid, cmd) = Some r → file_checks sid cmd r = true → is_Some (event_at sid seq (db w)) →
  wher r = true →
  (∀ w', file_commands (db w') !! (sid, cmd) = Some (finish_file_command "outcome_unknown" seq now r) → Q 1 w') →
  wp (update_file_command sid cmd wher (finish_file_command "outcome_unknown" seq now)) Q X w.
Proof.
  intros Hr Hc He Hwher HQ. unfold update_file_command. rewrite wp_bind, wp_query. unfold id. rewrite Hr, Hwher.
  rewrite wp_bind, wp_check, (finish_file_checks sid cmd) by (set_solver || done). split; [done|intros _].
  rewrite wp_bind, wp_check. unfold file_references. simpl. rewrite bool_decide_eq_true_2 by done. split; [done|intros _].
  rewrite wp_bind, wp_exec, wp_ret. apply HQ. simpl. by rewrite lookup_insert_eq.
Qed.

Lemma wp_read_file w sid cmd r Q X :
  file_commands (db w) !! (sid, cmd) = Some r → Q (scan_file_command sid cmd r) w →
  wp (queryFileReferenceCommand sid cmd) Q X w.
Proof. intros Hr HQ. unfold queryFileReferenceCommand. by rewrite wp_bind, wp_query_row, Hr. Qed.

Lemma open_file_shape sid cmd r :
  file_checks sid cmd r = true → file_command_open r = true →
  fc_terminal_event_seq r = None ∧ cmd ≠ "" ∧ 0 < fc_reservation_version r ∧ 1 ≤ fc_reference_count r ≤ 8.
Proof.
  unfold file_checks. rewrite !andb_true_iff. intros Hc Ho. destruct_and! Hc.
  assert (cmd ≠ "") as Hcmd by (intros ->; done). bool_hyps. split_and!; try done.
  unfold file_command_open in Ho. apply bool_decide_eq_true in Ho.
  match goal with H : _ || _ = true |- _ => rename H into Hshape end.
  rewrite !orb_true_iff, !andb_true_iff, !bool_decide_eq_true, !negb_true_iff in Hshape.
  destruct (fc_terminal_event_seq r); [|done]. exfalso. simpl in *.
  destruct Hshape as [[[? ?]|[? ?]]|[Hs _]]; [done..|]. rewrite !elem_of_cons, elem_of_nil in Ho.
  rewrite !elem_of_cons, elem_of_nil in Hs.
  destruct Ho as [Ho|[Ho|[]]]; rewrite Ho in Hs; naive_solver.
Qed.

(** After its delivery deadline, or once it was delivered, an open command ends
    by one recovery call. *)
Lemma open_file_closes w sid cmd r :
  store_inv w → latest_seq sid (db w) < max_int64 → file_commands (db w) !! (sid, cmd) = Some r →
  file_command_open r = true → (fc_status r = "delivery_pending" → fc_delivery_deadline_ms r ≤ clock w (tick w)) →
  wp (RecoverFileReferenceCommand sid cmd "adapter_deadline") (λ command _, fc_Status command = "outcome_unknown")
    (λ _ _, False) w.
Proof.
  intros Hw Hmax Hr Ho Hdue. destruct (si_file_rows _ Hw _ _ Hr) as [Hc Hsid]. simpl in Hc, Hsid.
  destruct (open_file_shape _ _ _ Hc Ho) as (Hnone & Hcmd & Hver & Hcount).
  unfold RecoverFileReferenceCommand, GetFileReferenceCommand. rewrite wp_bind. apply (wp_read_file _ _ _ r); [done|].
  simpl. destruct (decide (fc_status r = "delivery_pending")) as [Hs|Hs].
  - rewrite (bool_decide_eq_false_2 (_ ≠ _)) by (rewrite Hs; auto). rewrite wp_bind, wp_ret, wp_tx. do 2 db_step.
    rewrite wp_bind. apply (wp_read_file _ _ _ r); [done|]. simpl. unfold After, of_UnixMilli.
    rewrite (bool_decide_eq_false_2 (_ ≠ _)) by (rewrite Hs; auto).
    rewrite (bool_decide_eq_false_2 (_ < _)) by (specialize (Hdue Hs); lia). simpl. do 2 db_step. rewrite wp_bind.
    eapply (wp_append_file _ sid cmd r); [by apply (step_tick w)|done|done|]. intros seq w1 He Hr1. rewrite wp_bind.
    apply (wp_finish_file _ _ _ r); try done.
    { rewrite Hs, Hnone, !bool_decide_eq_true_2 by auto. done. }
    intros w2 Hr2. db_step. db_step; [done|]. by eapply wp_read_file.
  - rewrite bool_decide_eq_true_2 by done. unfold FinalizeFileReferenceCommand. simpl. rewrite Hsid.
    rewrite (bool_decide_eq_false_2 (cmd = _)), (bool_decide_eq_false_2 (_ < _)) by (auto || lia). simpl.
    rewrite wp_bind, wp_ret, wp_tx. do 2 db_step. rewrite wp_bind. apply (wp_read_file _ _ _ r); [done|]. simpl.
    assert (fc_status r = "pending") as Hp.
    { unfold file_command_open in Ho. apply bool_decide_eq_true in Ho.
      rewrite !elem_of_cons, elem_of_nil in Ho. naive_solver. }
    rewrite Hp. unfold ValidFileReferenceTerminal. rewrite (bool_decide_eq_false_2 (fc_reservation_version r ≠ _)) by auto.
    rewrite (bool_decide_eq_false_2 (_ < 1)), (bool_decide_eq_false_2 (8 < _)) by lia. simpl. do 2 db_step.
    rewrite wp_bind, wp_ret, wp_bind.
    eapply (wp_append_file _ sid cmd r); [by apply (step_tick w)|done|done|]. intros seq w1 He Hr1. rewrite wp_bind.
    apply (wp_finish_file _ _ _ r); try done.
    { rewrite Hp, Hnone, !bool_decide_eq_true_2 by auto. done. }
    intros w2 Hr2. db_step. db_step; [done|]. by eapply wp_read_file.
Qed.

End FileReferencesProofs.
