(* ===== verification/Attachments.v ===== *)
(** * Attachments of [store/sqlite/store.go]

    An attachment joins a target Session to the bootstrap Session that started
    it.  Its identity never changes, its delivery version grows with every
    update, and each status allows only certain delivery states, blockers and
    deadlines.  Every change also records the blocker in the target's attention
    summary. *)

From S2P Require Import Prelude StoreApi Sqlite Attention EventLog AttentionSpec Connections.
From S2P Require Import Invariant StoreSound CommandLedger.
From stdpp Require Import base gmap strings list.
#[local] Open Scope Z_scope.

Module Attachments.
Import Attention CommandLedger.

(** ** Data *)

Definition AttachmentJoinPending : string := "join_pending".
Definition AttachmentQueued : string := "queued".
Definition AttachmentStartReceived : string := "start_received".
Definition AttachmentReauthorizationRequired : string := "reauthorization_required".
Definition AttachmentCanceled : string := "canceled".

Definition AttachmentDeliveryPending : string := "pending".
Definition AttachmentDeliveryReceived : string := "received".
Definition AttachmentDeliveryCompleted : string := "completed".
Definition AttachmentDeliveryOutcomeUnknown : string := "outcome_unknown".

Definition AttachmentBlockerQueued : string := "queued".
Definition AttachmentBlockerReauthorizationRequired : string := "reauthorization_required".
Definition AttachmentBlockerNewRunRequired : string := "new_run_required".
Definition AttachmentBlockerOutcomeUnknown : string := "outcome_unknown".

Record AttachmentIdentity := mkIdentity {
  id_AttachID : string;
  id_BootstrapSessionID : string;
  id_TargetSessionID : string;
  id_TargetCredentialLineageRef : string;
}.

#[global] Instance AttachmentIdentity_eq_dec : EqDecision AttachmentIdentity.
Proof. solve_decision. Defined.

Record Attachment := mkAttachment {
  ta_Identity : AttachmentIdentity;
  ta_Status : string;
  ta_DeliveryState : string;
  ta_DeliveryVersion : Z;
  ta_QueueReason : option string;
  ta_ExpiresAt : option time;
  ta_CanceledAt : option time;
  ta_BlockingSessionID : option string;
}.

Record AttachmentBlocker := mkAttachmentBlocker {
  bl_Kind : string;
  bl_Reason : option string;
  bl_ExpiresAt : option time;
  bl_BlockingSessionID : option string;
  bl_Operation : option string;
}.

Record AttachmentSummary := mkAttachmentSummary {
  as_AttachID : string;
  as_TargetSessionID : string;
  as_DeliveryVersion : Z;
  as_ExpiresAt : option time;
  as_Blocker : option AttachmentBlocker;
}.

Record AttachmentCreate := mkCreate { ct_Identity : AttachmentIdentity; ct_ExpiresAt : time }.

Record AttachmentUpdate := mkUpdate {
  up_Status : string;
  up_DeliveryState : string;
  up_QueueReason : option string;
  up_ExpiresAt : option time;
  up_BlockingSessionID : option string;
  up_Blocker : option AttachmentBlocker;
}.

Record AttachmentCommit := mkAttachmentCommit {
  tc_Attachment : Attachment;
  tc_Summary : AttachmentSummary;
  Noop : bool;
}.

Record AttachmentMutation := mkMutation { tm_Attachment : Attachment; tm_Summary : AttachmentSummary }.

(** ** Validation *)

(** [validateAttachmentIdentity(identity) == nil] *)
Definition validateAttachmentIdentity (identity : AttachmentIdentity) : bool :=
  validAttachmentText (id_AttachID identity) 255 && validAttachmentText (id_BootstrapSessionID identity) 255 &&
  validAttachmentText (id_TargetSessionID identity) 255 &&
  validAttachmentText (id_TargetCredentialLineageRef identity) 255 &&
  bool_decide (id_BootstrapSessionID identity ≠ id_TargetSessionID identity).

Definition validAttachmentExpiry (expiresAt storeNow : time) : bool :=
  After expiresAt storeNow && negb (After expiresAt (storeNow + 30000000000)).

Definition validAttachmentOperation (value : option string) : bool :=
  match value with
  | Some operation => bool_decide (operation ∈ ["start"; "command"; "credential_handoff"])
  | None => false
  end.

Definition is_nil {A} (v : option A) : bool := match v with None => true | Some _ => false end.

Definition validAttachmentRowShape (a : Attachment) (createdAtMS nowMS : Z) : bool :=
  let delivery states := bool_decide (ta_DeliveryState a ∈ states) in
  let shape queue expires canceled blocking :=
    bool_decide (is_nil (ta_QueueReason a) = queue) && bool_decide (is_nil (ta_ExpiresAt a) = expires) &&
    bool_decide (is_nil (ta_CanceledAt a) = canceled) && bool_decide (is_nil (ta_BlockingSessionID a) = blocking) in
  if match ta_QueueReason a with Some q => negb (validAttachmentText q 128) | None => false end
     || match ta_BlockingSessionID a with Some s => negb (validAttachmentText s 255) | None => false end
     || match ta_ExpiresAt a with
        | Some e => bool_decide (UnixNano e ≤ nanos createdAtMS)
                    || bool_decide (nanos (createdAtMS + 30000) < UnixNano e)
        | None => false
        end
     || match ta_CanceledAt a with
        | Some c => bool_decide (UnixMilli c < createdAtMS) || bool_decide (nowMS < UnixMilli c)
        | None => false
        end
  then false
  else if bool_decide (ta_Status a = AttachmentJoinPending) then
    delivery [AttachmentDeliveryPending; AttachmentDeliveryReceived; AttachmentDeliveryCompleted]
    && shape true false true true
  else if bool_decide (ta_Status a = AttachmentQueued) then
    delivery [AttachmentDeliveryPending] && shape false false true false
  else if bool_decide (ta_Status a = AttachmentStartReceived) then
    delivery [AttachmentDeliveryReceived; AttachmentDeliveryCompleted; AttachmentDeliveryOutcomeUnknown]
    && shape true true true true
  else if bool_decide (ta_Status a = AttachmentReauthorizationRequired) then
    delivery [AttachmentDeliveryPending; AttachmentDeliveryOutcomeUnknown] && shape true true true true
  else if bool_decide (ta_Status a = AttachmentCanceled) then
    delivery [AttachmentDeliveryPending] && shape true true false true
  else false.

(** [a != nil && b != nil && *a == *b] *)
Definition both_equal {A} `{EqDecision A} (a b : option A) : bool :=
  match a, b with
  | Some a, Some b => bool_decide (a = b)
  | _, _ => false
  end.

(** The closure [matches]: the blocker is of this kind, carries exactly the
    fields asked for, and they agree with the update. *)
Definition matches (update : AttachmentUpdate) (kind : string) (reason expiry blocking operation : bool) : bool :=
  match up_Blocker update with
  | None => false
  | Some b =>
      bool_decide (bl_Kind b = kind) && (reason || is_nil (bl_Reason b)) && (expiry || is_nil (bl_ExpiresAt b)) &&
      (blocking || is_nil (bl_BlockingSessionID b)) && (operation || is_nil (bl_Operation b)) &&
      (negb reason || both_equal (bl_Reason b) (up_QueueReason update)) &&
      (negb expiry || both_equal (bl_ExpiresAt b) (up_ExpiresAt update)) &&
      (negb blocking || both_equal (bl_BlockingSessionID b) (up_BlockingSessionID update))
  end.

Definition blocker_operation (update : AttachmentUpdate) : option string :=
  match up_Blocker update with Some b => bl_Operation b | None => None end.

(** the [switch update.Status] of [validateAttachmentUpdate] *)
Definition update_allowed (current : Attachment) (update : AttachmentUpdate) : bool :=
  let delivery states := bool_decide (up_DeliveryState update ∈ states) in
  let unknown := delivery [AttachmentDeliveryOutcomeUnknown]
    && matches update AttachmentBlockerOutcomeUnknown false false false true
    && validAttachmentOperation (blocker_operation update) in
  let bare := is_nil (up_QueueReason update) && is_nil (up_ExpiresAt update) && is_nil (up_BlockingSessionID update) in
  if bool_decide (up_Status update = AttachmentJoinPending) then
    bool_decide (ta_Status current = AttachmentJoinPending) && is_nil (up_QueueReason update) &&
    both_equal (up_ExpiresAt update) (ta_ExpiresAt current) && is_nil (up_BlockingSessionID update) &&
    is_nil (up_Blocker update) &&
    delivery [AttachmentDeliveryPending; AttachmentDeliveryReceived; AttachmentDeliveryCompleted]
  else if bool_decide (up_Status update = AttachmentQueued) then
    delivery [AttachmentDeliveryPending] &&
    match up_QueueReason update with Some q => validAttachmentText q 128 | None => false end &&
    negb (is_nil (up_ExpiresAt update)) &&
    match up_BlockingSessionID update with
    | Some s => validAttachmentText s 255 && bool_decide (s ≠ id_TargetSessionID (ta_Identity current))
    | None => false
    end &&
    matches update AttachmentBlockerQueued true true true false
  else if bool_decide (up_Status update = AttachmentStartReceived) then
    bare && (unknown || (delivery [AttachmentDeliveryReceived; AttachmentDeliveryCompleted] && is_nil (up_Blocker update)))
  else if bool_decide (up_Status update = AttachmentReauthorizationRequired) then
    bare && (unknown || (delivery [AttachmentDeliveryPending]
                         && matches update AttachmentBlockerReauthorizationRequired false false false false))
  else if bool_decide (up_Status update = AttachmentCanceled) then
    delivery [AttachmentDeliveryPending] && bare && matches update AttachmentBlockerNewRunRequired false false false false
  else false.

Definition validateAttachmentUpdate (current : Attachment) (update : AttachmentUpdate) (storeNow : time) : error + unit :=
  if bool_decide (ta_Status current = AttachmentCanceled)
     || (bool_decide (ta_Status current = AttachmentStartReceived)
         && bool_decide (up_Status update ≠ AttachmentStartReceived))
  then inl (Err "terminal attachment status cannot be reopened")
  else if bool_decide (up_Status update = AttachmentStartReceived)
          && bool_decide (ta_Status current ≠ AttachmentStartReceived)
          && match ta_ExpiresAt current with Some e => negb (After e storeNow) | None => true end
  then inl (Err "expired attachment cannot record start receipt")
  else if match up_ExpiresAt update with
          | Some e => negb (validAttachmentExpiry e storeNow)
                      || match ta_ExpiresAt current with Some e0 => After e e0 | None => false end
          | None => false
          end
  then inl (Err "attachment expiry is invalid")
  else if update_allowed current update then inr tt
  else inl (Err "invalid attachment update").

(** ** Reading *)

Definition scan_attachment (attachID : string) (r : attachment_row) : Attachment :=
  mkAttachment
    (mkIdentity attachID (ta_bootstrap_session_id r) (ta_target_session_id r) (ta_target_credential_lineage_ref r))
    (ta_status r) (ta_delivery_state r) (ta_delivery_version r) (ta_queue_reason r) (ta_expires_at_ns r)
    (of_UnixMilli <$> ta_canceled_at_ms r) (ta_blocking_session_id r).

(** [queryAttachment] on the row a WHERE selects; the clock is a column of the
    SELECT. *)
Definition queryAttachment (row : DB → option (string * attachment_row)) : M Attachment :=
  nowMS ← nowMillis;
  kr ← query_row row;
  let attachment := scan_attachment kr.1 kr.2 in
  fail_if (negb (validateAttachmentIdentity (ta_Identity attachment))
           || bool_decide (ta_DeliveryVersion attachment < 0) || bool_decide (ta_created_at_ms kr.2 < 1)
           || bool_decide (nowMS < ta_created_at_ms kr.2) || bool_decide (ta_updated_at_ms kr.2 < ta_created_at_ms kr.2)
           || bool_decide (nowMS < ta_updated_at_ms kr.2)
           || negb (validAttachmentRowShape attachment (ta_created_at_ms kr.2) nowMS))
    (Err "attachment row is invalid") ≫= λ _,
  mret attachment.

Definition by_attach_id (attachID : string) (d : DB) : option (string * attachment_row) :=
  pair attachID <$> attachments d !! attachID.

Definition by_target (targetSessionID : string) (d : DB) : option (string * attachment_row) :=
  head (filter (λ kr, ta_target_session_id kr.2 = targetSessionID) (map_to_list (attachments d))).

Definition GetAttachment (attachID : string) : M Attachment :=
  on_error (Wrap "select attachment") (queryAttachment (by_attach_id attachID)).

Definition AttachmentForTarget (targetSessionID : string) : M Attachment :=
  on_error (Wrap "select target attachment") (queryAttachment (by_target targetSessionID)).

(** ** Writing *)

(** The CHECKs of [session_attachments]. *)
Definition attachment_checks (attachID : string) (r : attachment_row) : bool :=
  text_between 1 attachID 255 && text_between 1 (ta_bootstrap_session_id r) 255 &&
  text_between 1 (ta_target_session_id r) 255 &&
  bool_decide (ta_status r ∈ ["join_pending"; "queued"; "start_received"; "reauthorization_required"; "canceled"]) &&
  bool_decide (ta_delivery_state r ∈ ["pending"; "received"; "completed"; "outcome_unknown"]) &&
  bool_decide (0 ≤ ta_delivery_version r) &&
  match ta_queue_reason r with Some q => text_between 1 q 128 | None => true end &&
  match ta_blocking_session_id r with
  | Some s => text_between 1 s 255 && bool_decide (s ≠ ta_target_session_id r)
  | None => true
  end &&
  text_between 1 (ta_target_credential_lineage_ref r) 255 &&
  bool_decide (ta_bootstrap_session_id r ≠ ta_target_session_id r) &&
  match ta_expires_at_ns r with Some e => bool_decide (ta_created_at_ms r * 1000000 < e) | None => true end &&
  match ta_canceled_at_ms r with Some c => bool_decide (ta_created_at_ms r ≤ c) | None => true end.

Definition insert_attachment (attachID : string) (r : attachment_row) : M unit :=
  d ← query id;
  check "session_attachments" (attachment_checks attachID r) ≫= λ _,
  check "session_attachments.attach_id" (bool_decide (attachments d !! attachID = None)) ≫= λ _,
  check "session_attachments.target_session_id"
    (bool_decide (by_target (ta_target_session_id r) d = None)) ≫= λ _,
  exec (upd_attachments (<[attachID := r]>)).

(** [UPDATE session_attachments SET ... WHERE attach_id = ? AND ...], the
    statement [executeAttachmentUpdate] repeats while the database is busy. *)
Definition executeAttachmentUpdate (attachID : string) (wher : attachment_row → bool)
    (set : attachment_row → attachment_row) : M Z :=
  row ← query (λ d, attachments d !! attachID);
  match row with
  | Some r =>
      if wher r then
        check "session_attachments" (attachment_checks attachID (set r)) ≫= λ _,
        exec (upd_attachments (<[attachID := set r]>)) ≫= λ _,
        mret 1
      else mret 0
  | None => mret 0
  end.

Definition sqliteAttachmentSummary (a : Attachment) (blocker : option AttachmentBlocker) : AttachmentSummary :=
  mkAttachmentSummary (id_AttachID (ta_Identity a)) (id_TargetSessionID (ta_Identity a)) (ta_DeliveryVersion a)
    (ta_ExpiresAt a) blocker.

Definition sqliteAttentionBlockerForAttachment (a : Attachment) (explicit : option AttachmentBlocker)
    : option AttentionBlocker :=
  match explicit with
  | Some b => Some (mkBlocker (bl_Kind b) (bl_Reason b) (bl_ExpiresAt b) (bl_BlockingSessionID b) (bl_Operation b))
  | None =>
      if bool_decide (ta_Status a ≠ AttachmentJoinPending) then None
      else Some (mkBlocker "queued" (Some "join_pending") (ta_ExpiresAt a) None None)
  end.

(** ** Operations *)

Definition CreateAttachment (request : AttachmentCreate) : M AttachmentCommit :=
  let identity := ct_Identity request in
  fail_if (negb (validateAttachmentIdentity identity)) (Err "attachment identity is invalid") ≫= λ _,
  with_tx (
    existing ← try_ (queryAttachment (by_attach_id (id_AttachID identity)));
    match existing with
    | inr existing =>
        fail_if (bool_decide (ta_Identity existing ≠ identity)) (Err "attachment identity is immutable") ≫= λ _,
        mret (mkAttachmentCommit existing (sqliteAttachmentSummary existing None) true)
    | inl err =>
        fail_if (negb (is_no_rows err)) (Wrap "select attachment" err) ≫= λ _,
        nowMS ← nowMillis;
        fail_if (negb (validAttachmentExpiry (ct_ExpiresAt request) (of_UnixMilli nowMS)))
          (Err "attachment expiry is outside the Store-clock delivery window") ≫= λ _,
        on_error (Wrap "insert attachment")
          (insert_attachment (id_AttachID identity)
             (mkAttachmentRow (id_BootstrapSessionID identity) (id_TargetSessionID identity) "join_pending" "pending" 0
                None (Some (UnixNano (ct_ExpiresAt request))) None None (id_TargetCredentialLineageRef identity)
                nowMS nowMS)) ≫= λ _,
        created ← on_error (Wrap "read created attachment") (queryAttachment (by_attach_id (id_AttachID identity)));
        upsertSQLiteAttentionLedger (id_TargetSessionID (ta_Identity created))
          (sqliteAttentionBlockerForAttachment created None) None ≫= λ _,
        mret (mkAttachmentCommit created (sqliteAttachmentSummary created None) false)
    end).

(** The SET of [UpdateAttachment]. *)
Definition updated_row (update : AttachmentUpdate) (nowMS : Z) (r : attachment_row) : attachment_row :=
  mkAttachmentRow (ta_bootstrap_session_id r) (ta_target_session_id r) (up_Status update) (up_DeliveryState update)
    (ta_delivery_version r + 1) (up_QueueReason update) (UnixNano <$> up_ExpiresAt update)
    (if bool_decide (up_Status update = "canceled") then Some nowMS else None)
    (up_BlockingSessionID update) (ta_target_credential_lineage_ref r) (ta_created_at_ms r) nowMS.

Definition UpdateAttachment (attachID : string) (expectedVersion : Z) (update : AttachmentUpdate)
    : M AttachmentMutation :=
  with_tx (
    current ← on_error (Wrap "select attachment for update") (queryAttachment (by_attach_id attachID));
    nowMS ← nowMillis;
    fail_if (bool_decide (ta_DeliveryVersion current ≠ expectedVersion)) (Err "stale attachment version") ≫= λ _,
    lift (validateAttachmentUpdate current update (of_UnixMilli nowMS)) ≫= λ _,
    stmtNow ← nowMillis;
    changed ← on_error (Wrap "update attachment")
      (executeAttachmentUpdate attachID
         (λ r, bool_decide (ta_delivery_version r = expectedVersion) &&
               (bool_decide (up_Status update ≠ "start_received") || bool_decide (ta_status r = "start_received")
                || match ta_expires_at_ns r with Some e => bool_decide (stmtNow * 1000000 < e) | None => false end))
         (updated_row update nowMS));
    fail_if (bool_decide (changed ≠ 1)) (Err "attachment version conflict") ≫= λ _,
    updated ← on_error (Wrap "read updated attachment") (queryAttachment (by_attach_id attachID));
    upsertSQLiteAttentionLedger (id_TargetSessionID (ta_Identity updated))
      (sqliteAttentionBlockerForAttachment updated (up_Blocker update)) None ≫= λ _,
    mret (mkMutation updated (sqliteAttachmentSummary updated (up_Blocker update)))).

(** ** Soundness *)

Import Invariant StoreSound.

Lemma wp_queryAttachment row Q X w :
  (∀ k r, row (db w) = Some (k, r) →
     Q (scan_attachment k r) (mkWorld (db w) (side_fence w) (clock w) (S (tick w)))) →
  (∀ e, X e (mkWorld (db w) (side_fence w) (clock w) (S (tick w)))) →
  wp (queryAttachment row) Q X w.
Proof.
  intros HQ HX. unfold queryAttachment. do 2 db_step. db_step. db_step; [|apply HX]. destruct p as [k r]. simpl in *.
  db_step. db_step; [apply HX|]. rewrite wp_ret. by apply HQ.
Qed.

Lemma sound_queryAttachment {E} `{!Outcome E} row : sound_with E (queryAttachment row).
Proof. unfold queryAttachment. sound_auto. Qed.

Lemma by_target_None target d :
  by_target target d = None → ∀ k a, attachments d !! k = Some a → ta_target_session_id a ≠ target.
Proof.
  unfold by_target. intros Hh k a Ha Ht. apply elem_of_map_to_list in Ha.
  assert ((k, a) ∈ filter (λ kr : string * attachment_row, ta_target_session_id kr.2 = target)
    (map_to_list (attachments d))) as Hin by by apply list_elem_of_filter.
  destruct (filter _ _); [by apply elem_of_nil in Hin|done].
Qed.

Lemma sound_insert_attachment attachID r : sound (insert_attachment attachID r).
Proof.
  intros w Hw. unfold insert_attachment. db_steps; try (by apply stepped_refl). bool_hyps.
  unfold id in *. apply step_attachment; [done|].
  destruct (attachments (db w) !! attachID) eqn:Ha; [done|]. by apply by_target_None.
Qed.

Lemma wp_executeUpdate w0 w attachID wher set Q :
  stepped w0 w →
  (∀ r, attachments (db w) !! attachID = Some r → wher r = true → attachment_evolves r (set r)) →
  (∀ n w', stepped w0 w' → Q n w') →
  wp (executeAttachmentUpdate attachID wher set) Q (λ _ w', stepped w0 w') w.
Proof.
  intros Hw Hset HQ. unfold executeAttachmentUpdate. do 2 db_step.
  destruct (attachments (db w) !! attachID) as [r|] eqn:Hr; [|rewrite wp_ret; auto].
  destruct (wher r) eqn:Hwh; [|rewrite wp_ret; auto].
  db_steps; [done|]. apply HQ. eapply stepped_trans; [exact Hw|]. apply step_attachment; [apply Hw|].
  rewrite Hr. auto.
Qed.

(** An update the code validated is one the row may make. *)
Lemma validated_evolves attachID r update storeNow now :
  validateAttachmentUpdate (scan_attachment attachID r) update storeNow = inr tt →
  attachment_evolves r (updated_row update now r).
Proof.
  unfold validateAttachmentUpdate. simpl. intros Hv. destruct (_ || _) eqn:Hterm in Hv; [done|]. bool_hyps.
  split; simpl; try done; try lia. intros Hs.
  rewrite (bool_decide_eq_true_2 (ta_status r = AttachmentStartReceived)) in * by done. simpl in *. bool_hyps.
  by apply dec_stable.
Qed.

Lemma sound_CreateAttachment request : sound (CreateAttachment request).
Proof.
  pose proof (λ row, sound_queryAttachment (E := stepped) row).
  pose proof (λ row, sound_queryAttachment (E := aborted) row).
  unfold CreateAttachment. cbv zeta. sound_auto; auto.
  - apply sound_weaken, sound_insert_attachment.
  - apply sound_weaken, sound_ledger.
Qed.

Lemma sound_UpdateAttachment attachID expectedVersion update :
  sound (UpdateAttachment attachID expectedVersion update).
Proof.
  unfold UpdateAttachment. apply sound_tx, sound_weaken. intros w Hw. rewrite wp_bind, wp_on_error.
  apply wp_queryAttachment; [|intros; by apply step_tick]. intros k r Hr.
  unfold by_attach_id in Hr. apply fmap_Some in Hr as (r' & Hr & [= -> ->]).
  set (w1 := mkWorld _ _ _ _). assert (stepped w w1) as Hw1 by by apply step_tick.
  db_step. db_step. set (w2 := mkWorld _ _ _ _).
  assert (stepped w w2) as Hw2 by (eapply stepped_trans; [exact Hw1|apply step_tick, Hw1]).
  db_step. db_step; [done|]. rewrite wp_bind, wp_lift.
  destruct (validateAttachmentUpdate _ _ _) as [e|[]] eqn:Hv; [done|]. db_step. db_step.
  set (w3 := mkWorld _ _ _ _).
  assert (stepped w w3) as Hw3 by (eapply stepped_trans; [exact Hw2|apply step_tick, Hw2]).
  rewrite wp_bind, wp_on_error. apply (wp_executeUpdate w); [done| |].
  - intros r Hr2 _. replace r with r' by (simpl in Hr2; congruence). by eapply validated_evolves.
  - intros n w4 Hw4.
    assert (∀ m : M AttachmentMutation, sound m → wp m (λ _ w', stepped w w') (λ _ w', stepped w w') w4) as Hgo.
    { intros m Hm. eapply sound_wp; [done|done|done]. }
    apply Hgo. pose proof (λ row, sound_queryAttachment (E := stepped) row). sound_auto; auto.
Qed.

(** ** What an update does *)

Notation attachment_table := (λ w, attachments (db w)).

Lemma keeps_ledger {B} (f : World → B) sid blocker at_ms :
  (∀ w g, f (set_db (upd_attention g) w) = f w) →
  (∀ w, f (mkWorld (db w) (side_fence w) (clock w) (S (tick w))) = f w) →
  keeps f (upsertSQLiteAttentionLedger sid blocker at_ms).
Proof.
  intros Hf Hn. unfold upsertSQLiteAttentionLedger, loadAttentionSummary, upsertSQLiteAttentionSummary.
  repeat first [apply keeps_exec; intros; by apply Hf | by apply keeps_now | keeps_step].
Qed.

Lemma keeps_queryAttachment row : keeps attachment_table (queryAttachment row).
Proof. unfold queryAttachment. keeps_auto. Qed.

Lemma update_spec attachID expectedVersion update w :
  wp (UpdateAttachment attachID expectedVersion update)
    (λ m w', ∃ r now storeNow, attachments (db w) !! attachID = Some r ∧ ta_delivery_version r = expectedVersion ∧
       validateAttachmentUpdate (scan_attachment attachID r) update storeNow = inr tt ∧
       attachments (db w') = <[attachID := updated_row update now r]> (attachments (db w)) ∧
       tm_Attachment m = scan_attachment attachID (updated_row update now r))
    (λ _ w', db w' = db w) w.
Proof.
  unfold UpdateAttachment. rewrite wp_tx.
  eapply (wp_mono _ _ _ (λ _ _, True)); [|intros a w' Ha; exact Ha|done].
  rewrite wp_bind, wp_on_error. apply wp_queryAttachment; [|done]. intros k r Hr.
  unfold by_attach_id in Hr. apply fmap_Some in Hr as (r' & Hr & [= -> ->]).
  do 2 db_step. db_step. db_step; [done|]. rewrite wp_bind, wp_lift.
  destruct (validateAttachmentUpdate _ _ _) as [e|[]] eqn:Hv; [done|]. do 2 db_step.
  rewrite wp_bind, wp_on_error. unfold executeAttachmentUpdate. db_step. db_step. simpl. rewrite Hr.
  destruct (_ && _) eqn:Hwh; [|rewrite wp_ret; db_step; by db_step]. bool_hyps.
  db_step. db_step; [done|]. rewrite wp_bind, wp_exec, wp_ret. db_step. db_step; [done|].
  rewrite wp_bind, wp_on_error. apply wp_queryAttachment; [|done]. simpl. intros k r2 Hr2.
  unfold by_attach_id in Hr2. simpl in Hr2. rewrite lookup_insert_eq in Hr2. injection Hr2 as <- <-.
  rewrite wp_bind.
  match goal with |- wp _ _ _ ?w1 => apply (keeps_wp attachment_table _ w1); [|done| |done] end.
  { by apply keeps_ledger. }
  intros [] w2 Hw2. rewrite wp_ret. eexists r', _, _. split_and!; [done|done|exact Hv|exact Hw2|done].
Qed.

End Attachments.
