(* ===== verification/WorkspaceLease.v ===== *)
(** * Workspace leases of [store/sqlite/store.go]

    A workspace has at most one owner, the writer tuple it was reserved for.
    The owner with live authority records the start; anyone may quarantine a
    lease whose owner is uncertain; only the owner tuple releases it, and only
    a released lease can be reserved for somebody else.  Keys and digests are
    32-byte strings. *)

From S2P Require Import Prelude StoreApi Sqlite Attention EventLog AttentionSpec Connections.
From S2P Require Import Invariant StoreSound CommandLedger Attachments.
From Stdlib Require Import Strings.Ascii.
From stdpp Require Import base gmap strings list.
#[local] Open Scope Z_scope.

Module WorkspaceLease.
Import Connections CommandLedger.

(** ** Data *)

(** the zero [WorkspaceLeaseKey] *)
Definition zero_key : string := String.string_of_list_ascii (replicate 32 Ascii.zero).

Definition WorkspaceLeaseReserved : string := "reserved".
Definition WorkspaceLeaseStartReceived : string := "start_received".
Definition WorkspaceLeaseQuarantined : string := "quarantined".
Definition WorkspaceLeaseReleased : string := "released".

Record WorkspaceLeaseOwner := mkOwner {
  wo_WorkerID : string;
  wo_SessionID : string;
  wo_ConnectionEpoch : Z;
  wo_CredentialGeneration : Z;
  wo_LeaseID : string;
}.

#[global] Instance WorkspaceLeaseOwner_eq_dec : EqDecision WorkspaceLeaseOwner.
Proof. solve_decision. Defined.

Record WorkspaceLeaseChildScope := mkScope {
  ws_ParentKey : string;
  ws_CapabilityDigest : string;
  ws_ExpiresAt : time;
}.

#[global] Instance WorkspaceLeaseChildScope_eq_dec : EqDecision WorkspaceLeaseChildScope.
Proof. solve_decision. Defined.

Record WorkspaceLeaseReserve := mkLeaseReserve {
  wr_Key : string;
  wr_ChildScope : option WorkspaceLeaseChildScope;
  wr_Owner : WorkspaceLeaseOwner;
  wr_ExpiresAt : time;
}.

Record WorkspaceLease := mkLease {
  wl_Key : string;
  wl_ChildScope : option WorkspaceLeaseChildScope;
  wl_Owner : WorkspaceLeaseOwner;
  wl_Status : string;
  wl_Version : Z;
  wl_ExpiresAt : time;
}.

(** ** Validation *)

Definition validSQLiteWorkspaceLeaseOwner (owner : WorkspaceLeaseOwner) : bool :=
  validConnectionID (wo_WorkerID owner) && validConnectionID (wo_SessionID owner) &&
  validConnectionID (wo_LeaseID owner) && bool_decide (0 < wo_ConnectionEpoch owner) &&
  bool_decide (0 < wo_CredentialGeneration owner).

(** [validateSQLiteWorkspaceLeaseReserve(reserve)]: its error, if any *)
Definition validateSQLiteWorkspaceLeaseReserve (reserve : WorkspaceLeaseReserve) : error + unit :=
  if bool_decide (wr_Key reserve = zero_key) || negb (validSQLiteWorkspaceLeaseOwner (wr_Owner reserve))
     || IsZero (wr_ExpiresAt reserve)
  then inl (Err "invalid workspace lease reserve")
  else if match wr_ChildScope reserve with
          | Some scope => bool_decide (ws_ParentKey scope = zero_key) || bool_decide (ws_ParentKey scope = wr_Key reserve)
                          || bool_decide (ws_CapabilityDigest scope = zero_key) || IsZero (ws_ExpiresAt scope)
          | None => false
          end
  then inl (Err "invalid workspace child scope")
  else inr tt.

(** ** Reading *)

Definition row_owner (r : lease_row) : WorkspaceLeaseOwner :=
  mkOwner (ls_worker_id r) (ls_session_id r) (ConnectionEpoch (ls_writer r)) (CredentialGeneration (ls_writer r))
    (LeaseID (ls_writer r)).

Definition scan_lease (key : string) (r : lease_row) (scope : option WorkspaceLeaseChildScope) : WorkspaceLease :=
  mkLease key scope (row_owner r) (ls_status r) (ls_version r) (ls_expires_at_ns r).

Definition lease_statuses : list string :=
  [WorkspaceLeaseReserved; WorkspaceLeaseStartReceived; WorkspaceLeaseQuarantined; WorkspaceLeaseReleased].

Definition querySQLiteWorkspaceLease (key : string) : M WorkspaceLease :=
  r ← query_row (λ d, leases d !! key);
  fail_if (bool_decide (len key ≠ 32) || negb (validSQLiteWorkspaceLeaseOwner (row_owner r))
           || bool_decide (ls_version r < 1) || bool_decide (ls_expires_at_ns r ≤ nanos (ls_created_at_ms r))
           || bool_decide (ls_updated_at_ms r < ls_created_at_ms r))
    (Err "workspace lease row is invalid") ≫= λ _,
  fail_if (bool_decide (ls_status r ∉ lease_statuses)) (Err "workspace lease row is invalid") ≫= λ _,
  match ls_child_parent_workspace_key r, ls_child_capability_digest r, ls_child_scope_expires_at_ns r with
  | None, None, None => mret (scan_lease key r None)
  | Some parent, Some digest, Some expiry =>
      fail_if (bool_decide (len parent ≠ 32) || bool_decide (len digest ≠ 32))
        (Err "workspace lease row is invalid") ≫= λ _,
      fail_if (bool_decide (parent = zero_key) || bool_decide (parent = key) || bool_decide (digest = zero_key)
               || bool_decide (expiry ≤ nanos (ls_created_at_ms r)))
        (Err "workspace lease child scope is invalid") ≫= λ _,
      mret (scan_lease key r (Some (mkScope parent digest expiry)))
  | _, _, _ => throw (Err "workspace lease row is invalid")
  end.

Definition GetWorkspaceLease (key : string) : M WorkspaceLease :=
  fail_if (bool_decide (key = zero_key)) (Err "workspace lease key is required") ≫= λ _,
  on_error (Wrap "read workspace lease") (querySQLiteWorkspaceLease key).

Definition sameSQLiteWorkspaceLeaseReserve (lease : WorkspaceLease) (reserve : WorkspaceLeaseReserve) : bool :=
  bool_decide (wl_Key lease = wr_Key reserve) && bool_decide (wl_Owner lease = wr_Owner reserve) &&
  bool_decide (wl_ExpiresAt lease = wr_ExpiresAt reserve) &&
  bool_decide (wl_ChildScope lease = wr_ChildScope reserve).

(** ** Reserving *)

(** The CHECKs of [session_workspace_leases]. *)
Definition lease_checks (key : string) (r : lease_row) : bool :=
  bool_decide (len key = 32) && text_between 1 (ls_worker_id r) 255 && text_between 1 (ls_session_id r) 255 &&
  bool_decide (0 < ConnectionEpoch (ls_writer r)) && bool_decide (0 < CredentialGeneration (ls_writer r)) &&
  text_between 1 (LeaseID (ls_writer r)) 255 &&
  match ls_child_parent_workspace_key r with Some p => bool_decide (len p = 32) | None => true end &&
  match ls_child_capability_digest r with Some p => bool_decide (len p = 32) | None => true end &&
  bool_decide (ls_status r ∈ lease_statuses) && bool_decide (0 < ls_version r) &&
  bool_decide (0 < ls_created_at_ms r) && bool_decide (ls_created_at_ms r ≤ ls_updated_at_ms r) &&
  bool_decide (ls_created_at_ms r * 1000000 < ls_expires_at_ns r) &&
  match ls_child_parent_workspace_key r, ls_child_capability_digest r, ls_child_scope_expires_at_ns r with
  | None, None, None | Some _, Some _, Some _ => true
  | _, _, _ => false
  end.

(** The row [reserve] asks for, at a version and creation time. *)
Definition reserved_row (reserve : WorkspaceLeaseReserve) (version createdMS nowMS : Z) : lease_row :=
  let owner := wr_Owner reserve in
  mkLeaseRow (wo_WorkerID owner) (wo_SessionID owner)
    (mkWriter (wo_ConnectionEpoch owner) (wo_CredentialGeneration owner) (wo_LeaseID owner))
    (ws_ParentKey <$> wr_ChildScope reserve) (ws_CapabilityDigest <$> wr_ChildScope reserve)
    ((λ scope, UnixNano (ws_ExpiresAt scope)) <$> wr_ChildScope reserve)
    "reserved" version (UnixNano (wr_ExpiresAt reserve)) createdMS nowMS.

(** [INSERT OR IGNORE]: a row that is there, or that the CHECKs refuse, is left
    alone. *)
Definition insert_or_ignore (key : string) (r : lease_row) : M unit :=
  d ← query id;
  if bool_decide (leases d !! key = None) && lease_checks key r
  then exec (upd_leases (<[key := r]>)) else mret tt.

(** [UPDATE session_workspace_leases SET ... WHERE workspace_key = ? AND ...]: rows changed *)
Definition update_lease (key : string) (wher : DB → lease_row → bool) (set : lease_row → lease_row) : M Z :=
  d ← query id;
  match leases d !! key with
  | Some r =>
      if wher d r then
        check "session_workspace_leases" (lease_checks key (set r)) ≫= λ _,
        exec (upd_leases (<[key := set r]>)) ≫= λ _,
        mret 1
      else mret 0
  | None => mret 0
  end.

Definition ReserveWorkspaceLease (reserve : WorkspaceLeaseReserve) : M WorkspaceLease :=
  let key := wr_Key reserve in
  lift (validateSQLiteWorkspaceLeaseReserve reserve) ≫= λ _,
  with_tx (
    nowMS ← nowMillis;
    fail_if (bool_decide (UnixMilli (wr_ExpiresAt reserve) ≤ nowMS))
      (Err "workspace lease expiry is not in the future") ≫= λ _,
    fail_if (match wr_ChildScope reserve with
             | Some scope => bool_decide (UnixMilli (ws_ExpiresAt scope) ≤ nowMS)
             | None => false
             end) (Err "workspace lease child scope expiry is not in the future") ≫= λ _,
    insert_or_ignore key (reserved_row reserve 1 nowMS nowMS) ≫= λ _,
    lease ← querySQLiteWorkspaceLease key;
    if bool_decide (wl_Status lease = WorkspaceLeaseReserved) && sameSQLiteWorkspaceLeaseReserve lease reserve
    then mret lease
    else
      fail_if (bool_decide (wl_Status lease ≠ WorkspaceLeaseReleased))
        (Err "workspace lease already has a live owner") ≫= λ _,
      changed ← on_error (Wrap "reserve released workspace lease")
        (update_lease key (λ _ r, bool_decide (ls_status r = "released"))
           (λ r, reserved_row reserve (ls_version r + 1) (ls_created_at_ms r) nowMS));
      fail_if (bool_decide (changed ≠ 1)) (Err "workspace lease reserve conflict") ≫= λ _,
      querySQLiteWorkspaceLease key).

(** ** Transitions *)

(** Is there a live connection of the Session at this epoch and generation,
    joined with an attachment of it that waits or has started? *)
Definition attached_authority (sid : string) (epoch generation nowMS nowNS : Z) (d : DB) : bool :=
  match connections d !! sid with
  | Some c =>
      bool_decide (cr_connection_epoch c = epoch) && bool_decide (cr_active_credential_generation c = generation) &&
      bool_decide (nowMS < cr_active_credential_expires_at_ms c) && live c &&
      existsb (λ kr, bool_decide (ta_target_session_id kr.2 = sid)
                     && bool_decide (ta_status kr.2 ∈ ["queued"; "start_received"])
                     && match ta_expires_at_ns kr.2 with Some e => bool_decide (nowNS < e) | None => true end)
        (map_to_list (attachments d))
  | None => false
  end.

Definition validateSQLiteWorkspaceLeaseAuthority (owner : WorkspaceLeaseOwner) (nowMS : Z) : M unit :=
  current ← query (attached_authority (wo_SessionID owner) (wo_ConnectionEpoch owner)
                     (wo_CredentialGeneration owner) nowMS (nanos nowMS));
  fail_if (negb current) (Err "workspace lease authority is no longer current").

(** The [expiryClause] of a transition to [start_received], at the statement's
    time. *)
Definition start_clause (stmtNow : Z) (d : DB) (r : lease_row) : bool :=
  bool_decide (stmtNow * 1000000 < ls_expires_at_ns r) &&
  match ls_child_scope_expires_at_ns r with Some e => bool_decide (stmtNow * 1000000 < e) | None => true end &&
  attached_authority (ls_session_id r) (ConnectionEpoch (ls_writer r)) (CredentialGeneration (ls_writer r))
    stmtNow (stmtNow * 1000000) d.

Definition moved_row (to : string) (nowMS : Z) (r : lease_row) : lease_row :=
  mkLeaseRow (ls_worker_id r) (ls_session_id r) (ls_writer r) (ls_child_parent_workspace_key r)
    (ls_child_capability_digest r) (ls_child_scope_expires_at_ns r) to (ls_version r + 1) (ls_expires_at_ns r)
    (ls_created_at_ms r) nowMS.

Definition updateSQLiteWorkspaceLease (key : string) (expectedVersion : Z) (owner : WorkspaceLeaseOwner)
    (from : list string) (to : string) (requireOwner requireAuthority : bool) : M WorkspaceLease :=
  fail_if (bool_decide (key = zero_key) || bool_decide (expectedVersion < 1)
           || (requireOwner && negb (validSQLiteWorkspaceLeaseOwner owner)))
    (Err "invalid workspace lease transition") ≫= λ _,
  with_tx (
    nowMS ← nowMillis;
    (if requireAuthority then validateSQLiteWorkspaceLeaseAuthority owner nowMS else mret tt) ≫= λ _,
    stmtNow ← nowMillis;
    changed ← on_error (Wrap "update workspace lease")
      (update_lease key
         (λ d r, bool_decide (ls_version r = expectedVersion) &&
                 (negb requireOwner || bool_decide (row_owner r = owner)) &&
                 (bool_decide (to ≠ "start_received") || start_clause stmtNow d r) &&
                 bool_decide (ls_status r ∈ from))
         (moved_row to nowMS));
    fail_if (bool_decide (changed ≠ 1)) (Err "workspace lease transition conflict") ≫= λ _,
    querySQLiteWorkspaceLease key).

Definition RecordWorkspaceStartReceived (key : string) (expectedVersion : Z) (owner : WorkspaceLeaseOwner)
    : M WorkspaceLease :=
  updateSQLiteWorkspaceLease key expectedVersion owner ["reserved"] "start_received" true true.

Definition QuarantineWorkspaceLease (key : string) (expectedVersion : Z) : M WorkspaceLease :=
  updateSQLiteWorkspaceLease key expectedVersion (mkOwner "" "" 0 0 "") ["reserved"; "start_received"] "quarantined"
    false false.

Definition ReleaseWorkspaceLeaseAfterQuiescence (key : string) (expectedVersion : Z)
    (owner : WorkspaceLeaseOwner) : M WorkspaceLease :=
  updateSQLiteWorkspaceLease key expectedVersion owner ["reserved"; "start_received"; "quarantined"] "released"
    true false.

(** ** Soundness *)

Import Invariant StoreSound.

Lemma sound_queryLease {E} `{!Outcome E} key : sound_with E (querySQLiteWorkspaceLease key).
Proof. unfold querySQLiteWorkspaceLease. sound_auto. Qed.

Lemma moved_evolves to now r : lease_evolves r (moved_row to now r).
Proof. split; simpl; [done|lia|lia]. Qed.

Lemma sound_insert_or_ignore key r : sound (insert_or_ignore key r).
Proof.
  intros w Hw. unfold insert_or_ignore. do 2 db_step. unfold id.
  destruct (_ && _) eqn:Hc; [|rewrite wp_ret; by apply stepped_refl]. bool_hyps. rewrite wp_exec.
  apply step_lease; [done|]. intros r0 Hr0. congruence.
Qed.

Lemma sound_update_lease key wher set :
  (∀ r, lease_evolves r (set r)) → sound (update_lease key wher set).
Proof.
  intros Hset w Hw. unfold update_lease. do 2 db_step. unfold id.
  destruct (leases (db w) !! key) as [r|] eqn:Hr; [|rewrite wp_ret; by apply stepped_refl].
  destruct (wher (db w) r); [|rewrite wp_ret; by apply stepped_refl].
  db_steps; [by apply stepped_refl|]. apply step_lease; [done|]. intros r0 Hr0. rewrite Hr in Hr0. by injection Hr0 as <-.
Qed.

Lemma sound_ReserveWorkspaceLease reserve : sound (ReserveWorkspaceLease reserve).
Proof.
  pose proof (λ key, sound_queryLease (E := aborted) key).
  unfold ReserveWorkspaceLease. cbv zeta. sound_auto; auto.
  - apply sound_weaken, sound_insert_or_ignore.
  - apply sound_weaken, sound_update_lease. intros r. split; simpl; [done|lia|lia].
Qed.

Lemma sound_updateLease key v owner from to ro ra :
  sound (updateSQLiteWorkspaceLease key v owner from to ro ra).
Proof.
  pose proof (λ key, sound_queryLease (E := aborted) key).
  unfold updateSQLiteWorkspaceLease, validateSQLiteWorkspaceLeaseAuthority. sound_auto; auto.
  apply sound_weaken, sound_update_lease. intros r. apply moved_evolves.
Qed.

Lemma sound_GetWorkspaceLease key : sound (GetWorkspaceLease key).
Proof. unfold GetWorkspaceLease. sound_auto. apply sound_queryLease. Qed.

(** ** What the operations do *)

(** A lease some owner may still be using. *)
Definition held (r : lease_row) : Prop := ls_status r ≠ "released".

Lemma wp_queryLease key Q X w :
  (∀ r scope, leases (db w) !! key = Some r → Q (scan_lease key r scope) w) → (∀ e, X e w) →
  wp (querySQLiteWorkspaceLease key) Q X w.
Proof. intros HQ HX. unfold querySQLiteWorkspaceLease. db_steps; auto. Qed.

Lemma transition_spec key v owner from to ro ra w :
  wp (updateSQLiteWorkspaceLease key v owner from to ro ra)
    (λ lease w', ∃ r now scope, leases (db w) !! key = Some r ∧ ls_version r = v ∧
       (ro = true → row_owner r = owner) ∧ ls_status r ∈ from ∧
       (to = "start_received" → ∃ stmtNow, start_clause stmtNow (db w) r = true) ∧
       leases (db w') = <[key := moved_row to now r]> (leases (db w)) ∧
       lease = scan_lease key (moved_row to now r) scope)
    (λ _ w', db w' = db w) w.
Proof.
  unfold updateSQLiteWorkspaceLease. db_step. db_step; [done|]. rewrite wp_tx.
  eapply (wp_mono _ _ _ (λ _ _, True)); [|intros a w' Ha; exact Ha|done].
  do 2 db_step. rewrite wp_bind. set (w1 := mkWorld _ _ _ _).
  assert (∀ Q : unit → World → Prop, Q tt w1 →
    wp (if ra then validateSQLiteWorkspaceLeaseAuthority owner (clock w (tick w)) else mret tt) Q (λ _ _, True) w1) as Hauth.
  { intros Q HQ. destruct ra; [|done]. unfold validateSQLiteWorkspaceLeaseAuthority. db_steps; done. }
  apply Hauth. db_step. db_step. rewrite wp_bind, wp_on_error. unfold update_lease. do 2 db_step. unfold id. simpl.
  destruct (leases (db w) !! key) as [r|] eqn:Hr; [|rewrite wp_ret; db_step; by db_step].
  match goal with |- wp (if ?b then _ else _) _ _ _ => destruct b eqn:Hwh end;
    [|rewrite wp_ret; db_step; by db_step]. bool_hyps.
  db_step. db_step; [done|]. rewrite wp_bind, wp_exec, wp_ret. db_step. db_step; [done|].
  apply wp_queryLease; [|done]. simpl. intros r' scope. rewrite lookup_insert_eq. intros [= <-].
  eexists r, _, scope. split_and!; [done|done| |done| |done|done].
  - intros ->. simpl in *. by bool_hyps.
  - intros Hto. match goal with H : bool_decide (to ≠ _) || _ = true |- _ =>
      rewrite (bool_decide_eq_false_2 (to ≠ _)) in H by auto; eauto end.
Qed.

Lemma reserved_owner reserve v createdMS nowMS : row_owner (reserved_row reserve v createdMS nowMS) = wr_Owner reserve.
Proof. unfold row_owner, reserved_row. simpl. by destruct (wr_Owner reserve). Qed.

(** A reservation that succeeds found the workspace free, released, or already
    reserved by the same request. *)
Lemma reserve_spec reserve w :
  wp (ReserveWorkspaceLease reserve)
    (λ lease w', ∃ r', leases (db w') !! wr_Key reserve = Some r' ∧ row_owner r' = wr_Owner reserve ∧
       ls_status r' = "reserved" ∧
       (∀ r, leases (db w) !! wr_Key reserve = Some r → held r → row_owner r = wr_Owner reserve) ∧
       (∀ key, key ≠ wr_Key reserve → leases (db w') !! key = leases (db w) !! key))
    (λ _ w', db w' = db w) w.
Proof.
  unfold ReserveWorkspaceLease. cbv zeta. rewrite wp_bind, wp_lift.
  destruct (validateSQLiteWorkspaceLeaseReserve reserve) as [e|[]]; [done|]. rewrite wp_tx.
  eapply (wp_mono _ _ _ (λ _ _, True)); [|intros a w' Ha; exact Ha|done].
  do 2 db_step. db_step. db_step; [done|]. db_step. db_step; [done|]. rewrite wp_bind.
  unfold insert_or_ignore. do 2 db_step. unfold id. simpl.
  set (key := wr_Key reserve). set (new := reserved_row reserve 1 _ _).
  set (rest := mbind _ (querySQLiteWorkspaceLease key)).
  match goal with |- wp (if ?b then _ else _) _ _ _ => destruct b eqn:Hins end.
  - bool_hyps. rewrite wp_exec. unfold rest. rewrite wp_bind. apply wp_queryLease; [|done].
    simpl. intros r' scope. rewrite lookup_insert_eq. intros [= <-].
    match goal with |- wp (if ?b then _ else _) _ _ _ => destruct b eqn:Hsame end; [|db_step; db_step; [done|]; simpl in *; bool_hyps; done].
    rewrite wp_ret. exists new. simpl. rewrite lookup_insert_eq. split_and!; try done.
    + apply reserved_owner.
    + intros r Hr. congruence.
    + intros k Hk. by rewrite lookup_insert_ne.
  - rewrite wp_ret. unfold rest. rewrite wp_bind. apply wp_queryLease; [|done]. simpl. intros r scope Hr.
    match goal with |- wp (if ?b then _ else _) _ _ _ => destruct b eqn:Hsame end.
    + rewrite wp_ret. bool_hyps. exists r. simpl in *.
      match goal with H : sameSQLiteWorkspaceLeaseReserve _ _ = true |- _ =>
        unfold sameSQLiteWorkspaceLeaseReserve in H; bool_hyps end.
      split_and!; try done. intros r0 Hr0 _. rewrite Hr in Hr0. by injection Hr0 as <-.
    + clear Hsame. db_step. db_step; [done|]. rewrite wp_bind, wp_on_error. unfold update_lease.
      do 2 db_step. unfold id. simpl. rewrite Hr.
      destruct (bool_decide (ls_status r = "released")) eqn:Hrel; [|rewrite wp_ret; db_step; by db_step].
      db_step. db_step; [done|]. rewrite wp_bind, wp_exec, wp_ret. db_step. db_step; [done|].
      apply wp_queryLease; [|done]. simpl. intros r' scope'. rewrite lookup_insert_eq. intros [= <-].
      eexists. split_and!; [done|apply reserved_owner|done| |].
      * intros r0 [= <-] Hh. bool_hyps. done.
      * intros k Hk. by rewrite lookup_insert_ne.
Qed.

End WorkspaceLease.
