(* ===== verification/AttachAttempts.v ===== *)
(** * Attach attempts and warm attach of [store/sqlite/store.go]

    An attach request is identified by the hash of its token.  Its outcome is
    recorded once and answered identically until it expires, after which it is
    cleaned up.  [CommitWarmAttach] joins a target Session to a running Adapter
    in one transaction: the attempt, the attachment, the target's initial
    credential, and the first message with its entry in the command ledger;
    [ExpireWarmAttach] gives up on one that was not taken in time. *)

From S2P Require Import Prelude StoreApi Json EncryptedPacket Sqlite Attention EventLog.
From S2P Require Import AttentionSpec Connections Settings Invariant StoreSound CommandLedger Attachments WorkspaceLease.
From stdpp Require Import base gmap strings list sorting.
#[local] Open Scope Z_scope.

Module AttachAttempts.
Import Attention EventLog Connections Settings Attachments.

(** ** Data *)

Definition AttachAttemptAccepted : string := "accepted".
Definition AttachAttemptRejected : string := "rejected".

Record AttachAttemptIdentity := mkAttemptIdentity {
  ti_JTIHash : string; (* 32 bytes *)
  ti_AttachID : string;
  ti_BootstrapSessionID : string;
  ti_TargetSessionID : string;
  ti_Provider : string;
}.

Record AttachAttemptFingerprint := mkFingerprint {
  tf_Domain : string;
  tf_Version : Z;
  tf_Digest : string; (* 32 bytes *)
  tf_KeyVersion : Z;
}.

Record AttachAttemptRequest := mkAttemptRequest {
  tr_Identity : AttachAttemptIdentity;
  tr_Fingerprint : AttachAttemptFingerprint;
  tr_ExpiresAt : time;
  tr_Outcome : string;
  tr_IssuedCredentialGeneration : option Z;
}.

Record AttachAttempt := mkAttempt {
  tt_Identity : AttachAttemptIdentity;
  tt_Fingerprint : AttachAttemptFingerprint;
  tt_ExpiresAt : time;
  tt_Outcome : string;
  tt_IssuedCredentialGeneration : option Z;
}.

Record AttachAttemptCommit := mkAttemptCommit { tc_Attempt : AttachAttempt; tc_Duplicate : bool }.

#[global] Instance AttachAttemptIdentity_eq_dec : EqDecision AttachAttemptIdentity.
Proof. solve_decision. Defined.
#[global] Instance AttachAttemptFingerprint_eq_dec : EqDecision AttachAttemptFingerprint.
Proof. solve_decision. Defined.

Record WarmAttachFirstDelivery := mkFirstDelivery {
  fd_CommandID : string;
  fd_ReferenceID : string;
  fd_ReferenceDigest : string; (* 32 bytes *)
  fd_ExpiresAt : time;
}.

Record WarmAttachTargetActivation := mkTargetActivation { wa_Generation : Z; wa_ExpiresAt : time }.

Record WarmAttachRequest := mkWarmRequest {
  wr_Attempt : AttachAttemptRequest;
  wr_Attachment : AttachmentCreate;
  wr_TargetActivation : WarmAttachTargetActivation;
  wr_BootstrapAdmission : AdapterConnectionAdmission;
  wr_FirstDelivery : WarmAttachFirstDelivery;
}.

Record WarmAttachOutbox := mkOutbox {
  ob_TargetSessionID : string;
  ob_CommandID : string;
  ob_EventSeq : Z;
  ob_ReferenceID : string;
  ob_ReferenceDigest : string;
  ob_ExpiresAt : time;
}.

Record WarmAttachCommit := mkWarmCommit {
  wc_Attempt : AttachAttempt;
  wc_Attachment : Attachment;
  wc_TargetActivation : WarmAttachTargetActivation;
  wc_Outbox : WarmAttachOutbox;
  wc_Summary : SessionAttentionSummary;
  wc_Duplicate : bool;
}.

Record WarmAttachExpiry := mkWarmExpiry { we_Attachment : Attachment; we_Summary : SessionAttentionSummary }.

(** ** Validation *)

Definition maxAttachAttemptTTL : Z := 5 * 60 * 1000000000.
Definition maxAttachAttemptCleanupRows : nat := 128.
Definition max_int32 : Z := 2147483647.

(** The conditions [validateSQLiteAttachAttempt] and [validStoredSQLiteAttachAttempt] share. *)
Definition valid_attempt_fields (identity : AttachAttemptIdentity) (fingerprint : AttachAttemptFingerprint)
    (expiresAt : time) : bool :=
  bool_decide (ti_JTIHash identity ≠ WorkspaceLease.zero_key) && validConnectionID (ti_AttachID identity) &&
  validConnectionID (ti_BootstrapSessionID identity) && validConnectionID (ti_TargetSessionID identity) &&
  bool_decide (ti_BootstrapSessionID identity ≠ ti_TargetSessionID identity) &&
  bool_decide (0 < len (ti_Provider identity)) && bool_decide (len (ti_Provider identity) ≤ 128) &&
  bool_decide (tf_Domain fingerprint = "agentwharf.attach-request.v1") && bool_decide (tf_Version fingerprint = 1) &&
  bool_decide (tf_Digest fingerprint ≠ WorkspaceLease.zero_key) && bool_decide (1 ≤ tf_KeyVersion fingerprint) &&
  bool_decide (tf_KeyVersion fingerprint ≤ max_int32) && negb (IsZero expiresAt).

Definition valid_attempt_outcome (outcome : string) (issued : option Z) : bool :=
  (bool_decide (outcome = AttachAttemptAccepted) && match issued with Some g => bool_decide (0 < g) | None => false end)
  || (bool_decide (outcome = AttachAttemptRejected) && is_nil issued).

Definition validateSQLiteAttachAttempt (request : AttachAttemptRequest) (now : time) : error + unit :=
  if negb (valid_attempt_fields (tr_Identity request) (tr_Fingerprint request) (tr_ExpiresAt request)
           && After (tr_ExpiresAt request) now && negb (After (tr_ExpiresAt request) (now + maxAttachAttemptTTL)))
  then inl (Err "invalid attach attempt")
  else if valid_attempt_outcome (tr_Outcome request) (tr_IssuedCredentialGeneration request) then inr tt
  else inl (Err "invalid attach attempt outcome").

Definition validStoredSQLiteAttachAttempt (attempt : AttachAttempt) : bool :=
  valid_attempt_fields (tt_Identity attempt) (tt_Fingerprint attempt) (tt_ExpiresAt attempt) &&
  bool_decide (1 ≤ UnixNano (tt_ExpiresAt attempt)) &&
  valid_attempt_outcome (tt_Outcome attempt) (tt_IssuedCredentialGeneration attempt).

Definition sameSQLiteAttachAttempt (current : AttachAttempt) (request : AttachAttemptRequest) : bool :=
  bool_decide (tt_Identity current = tr_Identity request) && bool_decide (tt_Fingerprint current = tr_Fingerprint request) &&
  bool_decide (tt_ExpiresAt current = tr_ExpiresAt request) && bool_decide (tt_Outcome current = tr_Outcome request) &&
  bool_decide (tt_IssuedCredentialGeneration current = tr_IssuedCredentialGeneration request).

(** ** Attempts *)

Definition scan_attempt (jtiHash : string) (r : attach_attempt_row) : AttachAttempt :=
  mkAttempt
    (mkAttemptIdentity jtiHash (at_attach_id r) (at_bootstrap_session_id r) (at_target_session_id r) (at_provider r))
    (mkFingerprint (at_fingerprint_domain r) (at_fingerprint_version r) (at_fingerprint_digest r)
       (at_fingerprint_key_version r))
    (at_expires_at_ns r) (at_admission_outcome r) (at_issued_credential_generation r).

Definition querySQLiteAttachAttempt (jtiHash : string) : M AttachAttempt :=
  r ← query_row (λ d, attach_attempts d !! jtiHash);
  fail_if (bool_decide (len jtiHash ≠ 32) || bool_decide (len (at_fingerprint_digest r) ≠ 32)
           || bool_decide (at_created_at_ms r < 1)
           || bool_decide (at_expires_at_ns r ≤ i64 (at_created_at_ms r * 1000000)))
    (Err "attach attempt row is invalid") ≫= λ _,
  fail_if (negb (validStoredSQLiteAttachAttempt (scan_attempt jtiHash r))) (Err "attach attempt row is invalid") ≫= λ _,
  mret (scan_attempt jtiHash r).

(** [ORDER BY expires_at_ns, attempt_jti_hash] *)
Definition by_expiry (a b : string * attach_attempt_row) : Prop :=
  at_expires_at_ns a.2 < at_expires_at_ns b.2 ∨ (at_expires_at_ns a.2 = at_expires_at_ns b.2 ∧ String.le a.1 b.1).
#[global] Instance by_expiry_dec a b : Decision (by_expiry a b).
Proof. unfold by_expiry. apply _. Defined.

Definition expired_attempts (nowMS : Z) (m : gmap string attach_attempt_row) : list string :=
  take maxAttachAttemptCleanupRows
    (fst <$> merge_sort by_expiry (filter (λ kr, at_expires_at_ns kr.2 ≤ nowMS * 1000000) (map_to_list m))).

Definition cleanupExpiredSQLiteAttachAttempts : M unit :=
  nowMS ← nowMillis;
  exec (upd_attach_attempts (λ m, foldr delete m (expired_attempts nowMS m))).

(** The CHECKs of [session_attach_attempts]. *)
Definition attempt_checks (jtiHash : string) (r : attach_attempt_row) : bool :=
  bool_decide (len jtiHash = 32) && text_between 1 (at_attach_id r) 255 &&
  text_between 1 (at_bootstrap_session_id r) 255 && text_between 1 (at_target_session_id r) 255 &&
  text_between 1 (at_provider r) 128 && bool_decide (at_fingerprint_domain r = "agentwharf.attach-request.v1") &&
  bool_decide (at_fingerprint_version r = 1) && bool_decide (len (at_fingerprint_digest r) = 32) &&
  bool_decide (0 < at_fingerprint_key_version r) &&
  bool_decide (at_created_at_ms r * 1000000 < at_expires_at_ns r) && bool_decide (0 < at_created_at_ms r) &&
  bool_decide (at_bootstrap_session_id r ≠ at_target_session_id r) &&
  ((bool_decide (at_admission_outcome r = "accepted")
      && match at_issued_credential_generation r with Some g => bool_decide (0 < g) | None => true end)
   || (bool_decide (at_admission_outcome r = "rejected") && is_nil (at_issued_credential_generation r))).

Definition attempt_row (request : AttachAttemptRequest) (outcome : string) (issued : option Z) (nowMS : Z)
    : attach_attempt_row :=
  let identity := tr_Identity request in
  let fingerprint := tr_Fingerprint request in
  mkAttachAttemptRow (ti_AttachID identity) (ti_BootstrapSessionID identity) (ti_TargetSessionID identity)
    (ti_Provider identity) (tf_Domain fingerprint) (tf_Version fingerprint) (tf_Digest fingerprint)
    (tf_KeyVersion fingerprint) (UnixNano (tr_ExpiresAt request)) outcome issued nowMS.

(** [INSERT OR IGNORE]: rows changed. *)
Definition insert_or_ignore_attempt (jtiHash : string) (r : attach_attempt_row) : M Z :=
  row ← query (λ d, attach_attempts d !! jtiHash);
  if is_nil row && attempt_checks jtiHash r
  then exec (upd_attach_attempts (<[jtiHash := r]>)) ≫= λ _, mret 1
  else mret 0.

Definition insert_attempt (jtiHash : string) (r : attach_attempt_row) : M unit :=
  row ← query (λ d, attach_attempts d !! jtiHash);
  check "session_attach_attempts" (attempt_checks jtiHash r) ≫= λ _,
  check "session_attach_attempts.attempt_jti_hash" (is_nil row) ≫= λ _,
  exec (upd_attach_attempts (<[jtiHash := r]>)).

Definition CommitAttachAttempt (request : AttachAttemptRequest) : M AttachAttemptCommit :=
  let jtiHash := ti_JTIHash (tr_Identity request) in
  with_tx (
    nowMS ← on_error (Wrap "read attach attempt Store clock") nowMillis;
    lift (validateSQLiteAttachAttempt request (of_UnixMilli nowMS)) ≫= λ _,
    cleanupExpiredSQLiteAttachAttempts ≫= λ _,
    nowMS ← on_error (Wrap "refresh attach attempt Store clock") nowMillis;
    lift (validateSQLiteAttachAttempt request (of_UnixMilli nowMS)) ≫= λ _,
    changed ← on_error (Wrap "insert attach attempt")
      (insert_or_ignore_attempt jtiHash
         (attempt_row request (tr_Outcome request) (tr_IssuedCredentialGeneration request) nowMS));
    current ← on_error (Wrap "read attach attempt") (querySQLiteAttachAttempt jtiHash);
    if bool_decide (changed = 1) then mret (mkAttemptCommit current false)
    else
      fail_if (negb (sameSQLiteAttachAttempt current request)) (Err "attach attempt is immutable") ≫= λ _,
      mret (mkAttemptCommit current true)).

(** An attempt that is absent or has expired is reported after the cleanup is
    committed. *)
Definition GetAttachAttempt (jtiHash : string) : M AttachAttempt :=
  fail_if (bool_decide (jtiHash = WorkspaceLease.zero_key)) (Err "attach attempt JTI hash is required") ≫= λ _,
  result ← with_tx (
    cleanupExpiredSQLiteAttachAttempts ≫= λ _,
    r ← try_ (querySQLiteAttachAttempt jtiHash);
    match r with
    | inl err => if is_no_rows err then mret (inl err) else throw err
    | inr attempt =>
        nowMS ← on_error (Wrap "refresh attach attempt Store clock") nowMillis;
        if negb (After (tt_ExpiresAt attempt) (of_UnixMilli nowMS)) then mret (inl ErrNoRows) else mret (inr attempt)
    end);
  lift result.

(** ** Warm attach *)

Definition validateSQLiteWarmAttach (request : WarmAttachRequest) : bool :=
  let attempt := wr_Attempt request in
  let identity := ct_Identity (wr_Attachment request) in
  let activation := wr_TargetActivation request in
  let admission := wr_BootstrapAdmission request in
  let delivery := wr_FirstDelivery request in
  bool_decide (ti_JTIHash (tr_Identity attempt) ≠ WorkspaceLease.zero_key) &&
  bool_decide (ti_Provider (tr_Identity attempt) ≠ "") &&
  bool_decide (tf_Domain (tr_Fingerprint attempt) = "agentwharf.attach-request.v1") &&
  bool_decide (tf_Version (tr_Fingerprint attempt) = 1) &&
  bool_decide (tf_Digest (tr_Fingerprint attempt) ≠ WorkspaceLease.zero_key) &&
  bool_decide (1 ≤ tf_KeyVersion (tr_Fingerprint attempt)) && bool_decide (tr_Outcome attempt = AttachAttemptAccepted) &&
  bool_decide (tr_IssuedCredentialGeneration attempt = Some (wa_Generation activation)) &&
  bool_decide (id_AttachID identity = ti_AttachID (tr_Identity attempt)) &&
  bool_decide (id_BootstrapSessionID identity = ti_BootstrapSessionID (tr_Identity attempt)) &&
  bool_decide (id_TargetSessionID identity = ti_TargetSessionID (tr_Identity attempt)) &&
  validateAttachmentIdentity identity && bool_decide (1 ≤ wa_Generation activation) &&
  negb (IsZero (wa_ExpiresAt activation)) && bool_decide (wa_ExpiresAt activation = ct_ExpiresAt (wr_Attachment request)) &&
  bool_decide (1 ≤ ad_CredentialGeneration admission) && bool_decide (1 ≤ ad_ConnectionEpoch admission) &&
  bool_decide (1 ≤ ad_AcceptedFence admission) && bool_decide (ad_AcceptedFence admission < ad_GrantFence admission) &&
  validAttachmentText (fd_CommandID delivery) 256 && validAttachmentText (fd_ReferenceID delivery) 255 &&
  bool_decide (fd_ReferenceDigest delivery ≠ WorkspaceLease.zero_key) &&
  bool_decide (fd_ExpiresAt delivery = ct_ExpiresAt (wr_Attachment request)).

Definition validSQLiteWarmAttachExpiry (request : WarmAttachRequest) (now : time) : bool :=
  let attempt := tr_ExpiresAt (wr_Attempt request) in
  let attachment := ct_ExpiresAt (wr_Attachment request) in
  After attempt now && bool_decide (attempt < now + maxAttachAttemptTTL + 1) && validAttachmentExpiry attachment now &&
  negb (After attachment attempt).

(** [fmt.Sprintf("%x", digest)] *)
Definition hex_string (s : string) : string :=
  Json.string_of (Json.bytes_of s ≫= λ b, [Json.hex_digit (b / 16); Json.hex_digit (b mod 16)]).

Definition sqliteWarmAttachPayload (delivery : WarmAttachFirstDelivery) : string :=
  Json.marshalStruct [("role", Json.marshalString "user"); ("reference_id", Json.marshalString (fd_ReferenceID delivery));
    ("reference_digest", Json.marshalString (hex_string (fd_ReferenceDigest delivery)))].

(** The connection is the initial one the activation describes. *)
Definition initial_connection (activation : WarmAttachTargetActivation) (connection : AdapterConnection) : bool :=
  bool_decide (ac_ConnectionEpoch connection = 0) && bool_decide (ac_AcceptedFence connection = 0) &&
  bool_decide (ac_ActiveCredentialGeneration connection = wa_Generation activation) &&
  bool_decide (ac_CredentialGenerationHighWatermark connection = wa_Generation activation) &&
  bool_decide (ac_ActiveCredentialExpiresAt connection = of_UnixMilli (UnixMilli (wa_ExpiresAt activation))) &&
  is_nil (ac_PendingCredentialGeneration connection) && is_nil (ac_PriorRecoveryGeneration connection) &&
  is_nil (ac_RotationID connection) && is_nil (ac_RevokedAt connection) && is_nil (ac_TerminalAt connection).

Definition sqliteWarmAttachDuplicate (attempt : AttachAttempt) (request : WarmAttachRequest) (nowMS : Z)
    : M WarmAttachCommit :=
  let delivery := wr_FirstDelivery request in
  fail_if (negb (sameSQLiteAttachAttempt attempt (wr_Attempt request))) (Err "sqlite warm attach is immutable") ≫= λ _,
  attachment ← on_error (λ _, Err "sqlite warm attach attachment is immutable")
    (queryAttachment (by_attach_id (id_AttachID (ct_Identity (wr_Attachment request)))));
  fail_if (bool_decide (ta_Identity attachment ≠ ct_Identity (wr_Attachment request)))
    (Err "sqlite warm attach attachment is immutable") ≫= λ _,
  let target := id_TargetSessionID (ta_Identity attachment) in
  connection ← on_error (λ _, Err "sqlite warm attach target credential is immutable") (queryAdapterConnection target);
  fail_if (negb (initial_connection (wr_TargetActivation request) connection))
    (Err "sqlite warm attach target credential is immutable") ≫= λ _,
  command ← on_error (λ _, Err "sqlite warm attach outbox is immutable")
    (CommandLedger.queryPendingCommand target (fd_CommandID delivery) nowMS);
  fail_if (bool_decide (CommandLedger.cm_Type command ≠ "session.send")
           || bool_decide (CommandLedger.cm_ExpiresAt command ≠ fd_ExpiresAt delivery))
    (Err "sqlite warm attach outbox is immutable") ≫= λ _,
  event ← query (event_at target (CommandLedger.cm_EventSeq command));
  fail_if (negb (match event with
                 | Some e => bool_decide (er_payload e = sqliteWarmAttachPayload delivery)
                             && bool_decide (er_type e = "session.message")
                 | None => false
                 end)) (Err "sqlite warm attach reference is immutable") ≫= λ _,
  summary ← loadAttentionSummary target;
  mret (mkWarmCommit attempt attachment (wr_TargetActivation request)
          (mkOutbox target (CommandLedger.cm_CommandID command) (CommandLedger.cm_EventSeq command)
             (fd_ReferenceID delivery) (fd_ReferenceDigest delivery) (CommandLedger.cm_ExpiresAt command))
          summary true).

(** [INSERT OR IGNORE INTO session_adapter_connections] *)
Definition initialize_target (target : string) (activation : WarmAttachTargetActivation) (nowMS : Z) : M unit :=
  existing ← query (λ d, connections d !! target);
  let row := mkConnectionRow 0 0 (wa_Generation activation) (wa_Generation activation)
        (UnixMilli (wa_ExpiresAt activation)) None None None None None None nowMS nowMS in
  if is_nil existing && connection_checks target row then exec (upd_connections (<[target := row]>)) else mret tt.

(** The new attach, after the duplicate check. *)
Definition commitNewWarmAttach (request : WarmAttachRequest) (nowMS : Z) : M WarmAttachCommit :=
  let attempt := wr_Attempt request in
  let identity := ct_Identity (wr_Attachment request) in
  let target := id_TargetSessionID identity in
  let delivery := wr_FirstDelivery request in
  on_error (λ _, Err "warm attach bootstrap admission lost")
    (ValidateAdapterAdmission true (ti_BootstrapSessionID (tr_Identity attempt)) (wr_BootstrapAdmission request)) ≫= λ _,
  existing ← try_ (queryAttachment (by_target target));
  match existing with
  | inr _ => throw (Err "warm attach target already has an attachment")
  | inl err =>
      fail_if (negb (is_no_rows err)) (Wrap "load sqlite warm attach target" err)
  end ≫= λ _,
  summary ← on_error (λ err, if is_no_rows err then Err "warm attach target is missing" else err)
    (loadAttentionSummary target);
  fail_if (bool_decide (StateOfProjection summary ≠ AttentionProjectionComplete)
           || bool_decide (TerminalOutcome summary ≠ None) || bool_decide (State summary = "ended")
           || bool_decide (State summary = "error")) (Err "warm attach target is not attachable") ≫= λ _,
  initialize_target target (wr_TargetActivation request) nowMS ≫= λ _,
  connection ← on_error (λ _, Err "sqlite warm attach target credential conflicts with existing state")
    (queryAdapterConnection target);
  fail_if (negb (initial_connection (wr_TargetActivation request) connection))
    (Err "sqlite warm attach target credential conflicts with existing state") ≫= λ _,
  nowMS ← on_error (λ _, Err "warm attach expiry is outside the Store-clock window") nowMillis;
  fail_if (negb (validSQLiteWarmAttachExpiry request (of_UnixMilli nowMS))
           || match validateSQLiteAttachAttempt attempt (of_UnixMilli nowMS) with inl _ => true | inr _ => false end)
    (Err "warm attach expiry is outside the Store-clock window") ≫= λ _,
  on_error (Wrap "insert sqlite warm attach attempt")
    (insert_attempt (ti_JTIHash (tr_Identity attempt))
       (attempt_row attempt "accepted" (tr_IssuedCredentialGeneration attempt) nowMS)) ≫= λ _,
  on_error (Wrap "insert sqlite warm attach attachment")
    (insert_attachment (id_AttachID identity)
       (mkAttachmentRow (id_BootstrapSessionID identity) target "join_pending" "pending" 0 None
          (Some (UnixNano (ct_ExpiresAt (wr_Attachment request)))) None None (id_TargetCredentialLineageRef identity)
          nowMS nowMS)) ≫= λ _,
  latest ← query (latest_seq target);
  let seq := i64 (latest + 1) in
  let event := mkPendingEvent "session.message" (of_UnixMilli nowMS) (sqliteWarmAttachPayload delivery) in
  on_error (Wrap "append sqlite warm attach reference") (insert_event (event_row_of target seq nowMS event)) ≫= λ _,
  terminal ← on_error (λ _, Err "sqlite warm attach reference event is invalid")
    (projectSQLiteAttentionEvent target seq event nowMS);
  fail_if terminal (Err "sqlite warm attach reference event is invalid") ≫= λ _,
  on_error (Wrap "insert sqlite warm attach outbox")
    (CommandLedger.insert_command target (fd_CommandID delivery)
       (mkCommandRow "session.send" seq "pending" (UnixNano (fd_ExpiresAt delivery)) nowMS nowMS)) ≫= λ _,
  attachment ← queryAttachment (by_attach_id (id_AttachID identity));
  upsertSQLiteAttentionLedger (id_TargetSessionID (ta_Identity attachment))
    (sqliteAttentionBlockerForAttachment attachment None) (Some nowMS) ≫= λ _,
  summary ← loadAttentionSummary (id_TargetSessionID (ta_Identity attachment));
  attempt ← querySQLiteAttachAttempt (ti_JTIHash (tr_Identity attempt));
  mret (mkWarmCommit attempt attachment (wr_TargetActivation request)
          (mkOutbox (id_TargetSessionID (ta_Identity attachment)) (fd_CommandID delivery) seq
             (fd_ReferenceID delivery) (fd_ReferenceDigest delivery) (default zero_time (ta_ExpiresAt attachment)))
          summary false).

Definition CommitWarmAttach (request : WarmAttachRequest) : M WarmAttachCommit :=
  fail_if (negb (validateSQLiteWarmAttach request)) (Err "invalid sqlite warm attach request") ≫= λ _,
  with_tx (
    nowMS ← nowMillis;
    fail_if (negb (validSQLiteWarmAttachExpiry request (of_UnixMilli nowMS)))
      (Err "warm attach expiry is outside the Store-clock window") ≫= λ _,
    lift (validateSQLiteAttachAttempt (wr_Attempt request) (of_UnixMilli nowMS)) ≫= λ _,
    cleanupExpiredSQLiteAttachAttempts ≫= λ _,
    existing ← try_ (querySQLiteAttachAttempt (ti_JTIHash (tr_Identity (wr_Attempt request))));
    match existing with
    | inr existing =>
        nowMS ← nowMillis;
        sqliteWarmAttachDuplicate existing request nowMS
    | inl err =>
        fail_if (negb (is_no_rows err)) (Wrap "load sqlite warm attach" err) ≫= λ _,
        commitNewWarmAttach request nowMS
    end).

(** The SET of [ExpireWarmAttach]. *)
Definition expired_row (deliveryState : string) (nowMS : Z) (r : attachment_row) : attachment_row :=
  mkAttachmentRow (ta_bootstrap_session_id r) (ta_target_session_id r) "reauthorization_required" deliveryState
    (ta_delivery_version r + 1) (ta_queue_reason r) None (ta_canceled_at_ms r) (ta_blocking_session_id r)
    (ta_target_credential_lineage_ref r) (ta_created_at_ms r) nowMS.

Definition ExpireWarmAttach (attachID : string) (expectedDeliveryVersion : Z) : M WarmAttachExpiry :=
  fail_if (negb (validConnectionID attachID) || bool_decide (expectedDeliveryVersion < 0))
    (Err "invalid sqlite warm attach expiry") ≫= λ _,
  with_tx (
    current ← queryAttachment (by_attach_id attachID);
    nowMS ← on_error (λ _, Err "sqlite warm attach is not expirable") nowMillis;
    fail_if (bool_decide (ta_DeliveryVersion current ≠ expectedDeliveryVersion)
             || bool_decide (ta_Status current ≠ AttachmentJoinPending)
             || negb (match ta_ExpiresAt current with
                      | Some e => bool_decide (e < of_UnixMilli nowMS)
                      | None => false
                      end)) (Err "sqlite warm attach is not expirable") ≫= λ _,
    let pending := bool_decide (ta_DeliveryState current = AttachmentDeliveryPending) in
    let deliveryState := if pending then AttachmentDeliveryPending else AttachmentDeliveryOutcomeUnknown in
    let blocker := if pending then mkBlocker "reauthorization_required" None None None None
                   else mkBlocker "outcome_unknown" None None None (Some "credential_handoff") in
    changed ← executeAttachmentUpdate attachID
      (λ r, bool_decide (ta_delivery_version r = expectedDeliveryVersion)) (expired_row deliveryState nowMS);
    fail_if (bool_decide (changed ≠ 1)) (Err "sqlite warm attach expiry conflict") ≫= λ _,
    updated ← queryAttachment (by_attach_id attachID);
    upsertSQLiteAttentionLedger (id_TargetSessionID (ta_Identity updated)) (Some blocker) None ≫= λ _,
    summary ← loadAttentionSummary (id_TargetSessionID (ta_Identity updated));
    mret (mkWarmExpiry updated summary)).

(** ** Soundness *)

Import Invariant StoreSound.

Lemma foldr_delete_lookup {V} (ks : list string) (m : gmap string V) k :
  foldr delete m ks !! k = if bool_decide (k ∈ ks) then None else m !! k.
Proof.
  induction ks as [|k' ks IH]; simpl; [done|]. destruct (decide (k' = k)) as [->|Hne].
  - rewrite lookup_delete_eq, bool_decide_eq_true_2; [done|set_solver].
  - rewrite lookup_delete_ne by done. rewrite IH. by rewrite (bool_decide_ext (k ∈ ks) (k ∈ k' :: ks)) by set_solver.
Qed.

(** Cleaning up removes only attempts that have expired. *)
Lemma expired_attempts_expired now m k r :
  m !! k = Some r → k ∈ expired_attempts now m → at_expires_at_ns r ≤ now * 1000000.
Proof.
  intros Hr Hk. unfold expired_attempts in Hk.
  apply elem_of_take in Hk as (i & Hk & _). apply list_elem_of_lookup_2 in Hk.
  apply list_elem_of_fmap in Hk as ([k' r'] & -> & Hin). rewrite merge_sort_Permutation in Hin.
  apply list_elem_of_filter in Hin as [Hexp Hin]. apply elem_of_map_to_list in Hin. simpl in *. congruence.
Qed.

Lemma cleanup_keeps now m k r :
  m !! k = Some r → foldr delete m (expired_attempts now m) !! k = Some r ∨ at_expires_at_ns r ≤ now * 1000000.
Proof.
  intros Hr. rewrite foldr_delete_lookup. case_bool_decide as Hk; [right|by left]. by eapply expired_attempts_expired.
Qed.

Lemma sound_cleanup {E} `{!Outcome E} : sound_with E cleanupExpiredSQLiteAttachAttempts.
Proof.
  apply sound_weaken. intros w Hw. unfold cleanupExpiredSQLiteAttachAttempts. do 2 db_step. rewrite wp_exec.
  apply (step_expire w (foldr delete (attach_attempts (db w)) (expired_attempts (clock w (tick w)) (attach_attempts (db w)))));
    [done|]. intros k r. apply cleanup_keeps.
Qed.

Lemma sound_queryAttempt {E} `{!Outcome E} jti : sound_with E (querySQLiteAttachAttempt jti).
Proof. unfold querySQLiteAttachAttempt. sound_auto. Qed.

Lemma sound_ignore_attempt {E} `{!Outcome E} jti r : sound_with E (insert_or_ignore_attempt jti r).
Proof.
  apply sound_weaken. intros w Hw. unfold insert_or_ignore_attempt. db_steps; try by apply stepped_refl.
  bool_hyps. apply step_attempt; [done|]. by destruct (attach_attempts (db w) !! jti).
Qed.

Lemma sound_insert_attempt {E} `{!Outcome E} jti r : sound_with E (insert_attempt jti r).
Proof.
  apply sound_weaken. intros w Hw. unfold insert_attempt. db_steps; try by apply stepped_refl.
  apply step_attempt; [done|]. by destruct (attach_attempts (db w) !! jti).
Qed.

Lemma sound_initialize_target {E} `{!Outcome E} target activation now : sound_with E (initialize_target target activation now).
Proof.
  apply sound_weaken. intros w Hw. unfold initialize_target. db_steps; try by apply stepped_refl. bool_hyps.
  apply step_connection; [done| |].
  - intros c Hc. by rewrite Hc in *.
  - split; [done| |done]. pose proof (si_fence _ Hw). simpl. lia.
Qed.

Lemma sound_query_attachment_command {E} `{!Outcome E} sid cmd now :
  sound_with E (CommandLedger.queryPendingCommand sid cmd now).
Proof. apply CommandLedger.sound_queryPendingCommand. Qed.

#[local] Hint Resolve sound_cleanup sound_queryAttempt sound_ignore_attempt sound_insert_attempt
  sound_initialize_target sound_query_attachment_command : sound.
#[local] Hint Extern 1 (sound_with _ (queryAttachment _)) => apply sound_queryAttachment : sound.
#[local] Hint Extern 1 (sound_with _ (insert_attachment _ _)) => apply sound_weaken, sound_insert_attachment : sound.
#[local] Hint Extern 1 (sound_with _ (loadAttentionSummary _)) => apply sound_weaken, sound_load : sound.
#[local] Hint Extern 1 (sound_with _ (queryAdapterConnection _)) => apply sound_weaken, sound_queryAdapterConnection : sound.

Lemma sound_CommitAttachAttempt request : sound (CommitAttachAttempt request).
Proof. unfold CommitAttachAttempt. sound_auto. Qed.

Lemma sound_GetAttachAttempt jti : sound (GetAttachAttempt jti).
Proof. unfold GetAttachAttempt. sound_auto. Qed.

Lemma sound_duplicate {E} `{!Outcome E} attempt request now : sound_with E (sqliteWarmAttachDuplicate attempt request now).
Proof. unfold sqliteWarmAttachDuplicate. sound_auto. Qed.

#[local] Hint Resolve sound_duplicate : sound.

Lemma tsound_new request now : tsound (commitNewWarmAttach request now).
Proof.
  unfold commitNewWarmAttach. cbv zeta. do 12 (apply sound_bind; [solve [sound_auto]|intros ?]).
  apply CommandLedger.tsound_insert_project; [intros; apply AttentionSpec.reads_plain|].
  intros latest t. sound_auto; apply sound_weaken; [apply CommandLedger.sound_insert_command|apply sound_ledger].
Qed.
#[local] Hint Resolve tsound_new : sound.

Lemma sound_CommitWarmAttach request : sound (CommitWarmAttach request).
Proof. unfold CommitWarmAttach. sound_auto. Qed.

Lemma expired_evolves deliveryState now r :
  ta_status r = AttachmentJoinPending → attachment_evolves r (expired_row deliveryState now r).
Proof. intros Hs. split; simpl; try done; try lia; by rewrite Hs. Qed.

Lemma sound_ExpireWarmAttach attachID version : sound (ExpireWarmAttach attachID version).
Proof.
  unfold ExpireWarmAttach. apply sound_bind; [apply sound_fail_if|intros _]. apply sound_tx, sound_weaken.
  intros w Hw. rewrite wp_bind.
  apply wp_queryAttachment; [|intros; by apply step_tick]. intros k r Hr.
  unfold by_attach_id in Hr. apply fmap_Some in Hr as (r' & Hr & [= -> ->]).
  set (w1 := mkWorld _ _ _ _). assert (stepped w w1) as Hw1 by by apply step_tick.
  rewrite wp_bind, wp_on_error. db_step. set (w2 := mkWorld _ _ _ _).
  assert (stepped w w2) as Hw2 by (eapply stepped_trans; [exact Hw1|apply step_tick, Hw1]).
  db_step. db_step; [done|]. bool_hyps. cbv zeta. rewrite wp_bind. apply (wp_executeUpdate w); [done| |].
  - intros r Hr2 _. replace r with r' by (simpl in Hr2; congruence).
    apply expired_evolves. by apply dec_stable.
  - intros n w3 Hw3. eapply sound_wp; [|done|done]. sound_auto.
Qed.

(** ** What a warm attach writes *)

(** The four tables a warm attach adds a row to. *)
Definition warm_part (w : World)
    : gmap string attach_attempt_row * gmap string attachment_row * list event_row * gmap (string * string) command_row :=
  (attach_attempts (db w), attachments (db w), session_events (db w), pending_commands (db w)).

Notation keeps_warm := (keeps warm_part).

Lemma keeps_warm_admission tx sid adm : keeps_warm (ValidateAdapterAdmission tx sid adm).
Proof. keeps_deep. Qed.
Lemma keeps_warm_connection sid : keeps_warm (queryAdapterConnection sid).
Proof. keeps_deep. Qed.
Lemma keeps_warm_attachment row : keeps_warm (queryAttachment row).
Proof. keeps_deep. Qed.
Lemma keeps_warm_load sid : keeps_warm (loadAttentionSummary sid).
Proof. keeps_deep. Qed.
Lemma keeps_warm_target target activation now : keeps_warm (initialize_target target activation now).
Proof. keeps_deep. Qed.
Lemma keeps_warm_project sid seq ev now : keeps_warm (projectSQLiteAttentionEvent sid seq ev now).
Proof. keeps_deep. Qed.
Lemma keeps_warm_ledger sid blocker at_ms : keeps_warm (upsertSQLiteAttentionLedger sid blocker at_ms).
Proof. keeps_deep. Qed.
Lemma keeps_warm_attempt jti : keeps_warm (querySQLiteAttachAttempt jti).
Proof. keeps_deep. Qed.

#[local] Hint Resolve keeps_warm_admission keeps_warm_connection keeps_warm_attachment keeps_warm_load
  keeps_warm_target keeps_warm_project keeps_warm_ledger keeps_warm_attempt : keeps.

(** The next step only reads, or writes other tables. *)
Ltac skip_read w0 := rewrite wp_bind; apply (keeps_wp warm_part _ w0); [keeps_deep|done| |done].

(** A repeated attach reads and compares; it writes nothing. *)
Lemma duplicate_spec attempt request now w :
  wp (sqliteWarmAttachDuplicate attempt request now)
    (λ commit w', wc_Duplicate commit = true ∧ warm_part w' = warm_part w) (λ _ _, True) w.
Proof.
  unfold sqliteWarmAttachDuplicate. cbv zeta. do 10 (skip_read w; intros ? ? ?). by rewrite wp_ret.
Qed.

(** The rows of a new warm attach, at the time [now] and with the event number
    [seq]. *)
Definition warm_attempt (request : WarmAttachRequest) (now : Z) : attach_attempt_row :=
  attempt_row (wr_Attempt request) "accepted" (tr_IssuedCredentialGeneration (wr_Attempt request)) now.
Definition warm_attachment (request : WarmAttachRequest) (now : Z) : attachment_row :=
  let identity := ct_Identity (wr_Attachment request) in
  mkAttachmentRow (id_BootstrapSessionID identity) (id_TargetSessionID identity) "join_pending" "pending" 0 None
    (Some (UnixNano (ct_ExpiresAt (wr_Attachment request)))) None None (id_TargetCredentialLineageRef identity) now now.
Definition warm_event (request : WarmAttachRequest) (seq now : Z) : event_row :=
  event_row_of (id_TargetSessionID (ct_Identity (wr_Attachment request))) seq now
    (mkPendingEvent "session.message" (of_UnixMilli now) (sqliteWarmAttachPayload (wr_FirstDelivery request))).
Definition warm_command (request : WarmAttachRequest) (seq now : Z) : command_row :=
  mkCommandRow "session.send" seq "pending" (UnixNano (fd_ExpiresAt (wr_FirstDelivery request))) now now.

(** All four rows are new. *)
Definition warm_written (request : WarmAttachRequest) (w w' : World) : Prop :=
  let identity := ct_Identity (wr_Attachment request) in
  let target := id_TargetSessionID identity in
  let jti := ti_JTIHash (tr_Identity (wr_Attempt request)) in
  let cmd := fd_CommandID (wr_FirstDelivery request) in
  ∃ now seq, seq = i64 (latest_seq target (db w) + 1) ∧
    attach_attempts (db w) !! jti = None ∧ attachments (db w) !! id_AttachID identity = None ∧
    by_target target (db w) = None ∧ pending_commands (db w) !! (target, cmd) = None ∧
    warm_part w' =
      (<[jti := warm_attempt request now]> (attach_attempts (db w)),
       <[id_AttachID identity := warm_attachment request now]> (attachments (db w)),
       session_events (db w) ++ [warm_event request seq now],
       <[(target, cmd) := warm_command request seq now]> (pending_commands (db w))).

Lemma wp_insert_attempt jti r Q X w :
  (attach_attempts (db w) !! jti = None → Q tt (set_db (upd_attach_attempts (<[jti := r]>)) w)) → (∀ e, X e w) →
  wp (insert_attempt jti r) Q X w.
Proof.
  intros HQ HX. unfold insert_attempt. db_steps; try apply HX. apply HQ. bool_hyps. by destruct (attach_attempts (db w) !! jti).
Qed.

Lemma wp_insert_attachment id r Q X w :
  (attachments (db w) !! id = None → by_target (ta_target_session_id r) (db w) = None →
   Q tt (set_db (upd_attachments (<[id := r]>)) w)) → (∀ e, X e w) →
  wp (insert_attachment id r) Q X w.
Proof. intros HQ HX. unfold insert_attachment. db_steps; try apply HX. bool_hyps. by apply HQ. Qed.

Lemma wp_insert_event row Q X w :
  Q tt (set_db (upd_events (λ l, l ++ [row])) w) → (∀ e, X e w) → wp (insert_event row) Q X w.
Proof. intros HQ HX. unfold insert_event. db_steps; try apply HX. done. Qed.

Lemma wp_insert_command sid cmd r Q X w :
  (pending_commands (db w) !! (sid, cmd) = None → Q tt (set_db (upd_pending_commands (<[(sid, cmd) := r]>)) w)) →
  (∀ e, X e w) → wp (CommandLedger.insert_command sid cmd r) Q X w.
Proof.
  intros HQ HX. unfold CommandLedger.insert_command. db_steps; try apply HX. apply HQ. unfold id in *.
  by destruct (pending_commands (db w) !! (sid, cmd)).
Qed.

Lemma by_target_same target d d' : attachments d' = attachments d → by_target target d' = by_target target d.
Proof. unfold by_target. by intros ->. Qed.

Lemma latest_seq_same d' d : session_events d' = session_events d → ∀ sid, latest_seq sid d' = latest_seq sid d.
Proof. unfold latest_seq, session_rows. by intros ->. Qed.

Lemma new_warm_spec request now w :
  wp (commitNewWarmAttach request now)
    (λ commit w', wc_Duplicate commit = false ∧ warm_written request w w') (λ _ _, True) w.
Proof.
  unfold commitNewWarmAttach. cbv zeta. do 8 (skip_read w; intros ? ? ?). skip_read w; intros at_ ? ?.
  skip_read w; intros _ w1 Hw1. injection Hw1 as Ha Ht He Hp.
  rewrite wp_bind, wp_on_error. apply wp_insert_attempt; [|done]. intros Hjti.
  rewrite wp_bind, wp_on_error. apply wp_insert_attachment; [|done]. intros Hid Htgt.
  do 2 db_step. match goal with |- context [latest_seq ?t ?d] => rewrite (latest_seq_same d (db w) He t) end.
  rewrite wp_bind, wp_on_error. apply wp_insert_event; [|done].
  set (w2 := set_db _ (set_db _ (set_db _ w1))). skip_read w2. intros t w3 Hw3. skip_read w2. clear dependent w3. intros _ w3 Hw3.
  rewrite wp_bind, wp_on_error. apply wp_insert_command; [|done]. intros Hcmd. injection Hw3 as Ha3 Ht3 He3 Hp3.
  set (w4 := set_db _ w3). skip_read w4. intros att w5 Hw5. skip_read w4. intros _ w6 Hw6. skip_read w4. intros sum w7 Hw7.
  skip_read w4. intros attempt w8 Hw8. rewrite wp_ret. split; [done|].
  exists at_, (i64 (latest_seq (id_TargetSessionID (ct_Identity (wr_Attachment request))) (db w) + 1)).
  split_and!; [done|by rewrite <-Ha|by rewrite <-Ht|by rewrite <-(by_target_same _ _ _ Ht)|by rewrite Hp3, Hp in Hcmd|].
  rewrite Hw8. unfold w4, warm_part. simpl. rewrite Ha3, Ht3, He3, Hp3. by rewrite Ha, Ht, He, Hp.
Qed.

(** The database once the expired attempts are swept. *)
Definition swept (now : Z) (d : DB) : DB := upd_attach_attempts (λ m, foldr delete m (expired_attempts now m)) d.

Lemma warm_attach_spec request w :
  wp (CommitWarmAttach request)
    (λ commit w', ∃ now w1, db w1 = swept now (db w) ∧
       if wc_Duplicate commit then warm_part w' = warm_part w1 else warm_written request w1 w')
    (λ _ w', db w' = db w) w.
Proof.
  unfold CommitWarmAttach. db_step. db_step; [done|]. rewrite wp_tx.
  eapply (wp_mono _ _ _ (λ _ _, True)); [|intros a w' Ha; exact Ha|done].
  do 2 db_step. db_step. db_step; [done|]. rewrite wp_bind, wp_lift.
  destruct (validateSQLiteAttachAttempt _ _) as [e|[]]; [done|]. rewrite wp_bind.
  unfold cleanupExpiredSQLiteAttachAttempts. do 2 db_step. rewrite wp_exec. set (w1 := set_db _ _).
  assert (∃ now, db w1 = swept now (db w)) as [now Hw1] by by eexists. clearbody w1.
  rewrite wp_bind. apply (keeps_wp db _ w1); [keeps_deep|done| |done]. intros [err|existing] w2 Hw2.
  - db_step. db_step; [done|]. eapply wp_mono; [apply new_warm_spec| |done].
    intros commit w3 [-> Hw3]. exists now, w2. by rewrite Hw2.
  - do 2 db_step. eapply wp_mono; [apply duplicate_spec| |done]. intros commit w3 [-> Hw3].
    exists now, w2. by rewrite Hw2.
Qed.

End AttachAttempts.
