(* ===== verification/Fencing.v ===== *)
(** * Fencing

    What a hello and an activation do to a connection, what an admission
    needs, and what follows: an admission that a later hello superseded, or
    whose connection ended, is refused by every operation that checks it, in
    every later state of the Store. *)

From S2P Require Import Prelude StoreApi Json EncryptedPacket Sqlite Attention EventLog.
From S2P Require Import AttentionSpec Connections Invariant StoreSound CommandLedger AdapterDispatch.
From stdpp Require Import base gmap strings list.
#[local] Open Scope Z_scope.

Module Fencing.
Import Attention EventLog Connections Invariant StoreSound AdapterDispatch.

(** ** Frames: what leaves connections and fences alone *)

Notation authority_part := (λ w, (connections (db w), side_fence w)).

Lemma keeps_fenceRunControls sid now : keeps authority_part (fenceRunControlsAfterWriterReplacement sid now).
Proof.
  unfold fenceRunControlsAfterWriterReplacement, fenceFileReferenceCommandsAfterWriterReplacement,
    fence_control, fence_file_command, appendRunControlEvent, update_pending_control, insert_event.
  keeps_auto.
Qed.

Lemma keeps_queryWhere sid p : keeps authority_part (queryAdapterConnectionWhere sid p).
Proof. unfold queryAdapterConnectionWhere. keeps_auto. Qed.

Lemma keeps_GetAdapterConnection sid : keeps authority_part (GetAdapterConnection sid).
Proof. unfold GetAdapterConnection. keeps_auto. apply keeps_queryWhere. Qed.

Lemma wp_queryWhere sid p Q X w :
  (∀ c now, connections (db w) !! sid = Some c →
     p now (mkWorld (db w) (side_fence w) (clock w) (S (tick w))) c = true →
     Q (scan_connection sid c) (mkWorld (db w) (side_fence w) (clock w) (S (tick w)))) →
  (∀ e, X e (mkWorld (db w) (side_fence w) (clock w) (S (tick w)))) →
  wp (queryAdapterConnectionWhere sid p) Q X w.
Proof.
  intros HQ HX. unfold queryAdapterConnectionWhere. db_steps; simpl in *; try apply HX. by eapply HQ.
Qed.

(** ** Admissions *)

Definition admissible (adm : AdapterConnectionAdmission) (c : connection_row) : Prop :=
  live c = true ∧ cr_accepted_fence c = ad_AcceptedFence adm ∧ cr_connection_epoch c = ad_ConnectionEpoch adm ∧
  cr_active_credential_generation c = ad_CredentialGeneration adm.

(** A row rewritten with itself is the same table. *)
Lemma relock sid c (m : gmap string connection_row) : m !! sid = Some c → <[sid := c]> m = m.
Proof. apply insert_id. Qed.

Lemma wp_lock sid Q X w :
  (∀ n w', connections (db w') = connections (db w) → session_events (db w') = session_events (db w) → Q n w') →
  (∀ e, X e w) → wp (update_connection_row sid (λ _, true) id) Q X w.
Proof.
  intros HQ HX. unfold update_connection_row. db_steps; try (by apply HX); try (by apply HQ).
  apply HQ; [|done]. simpl. unfold id in *. by apply relock.
Qed.

Lemma admission_needs tx sid adm w :
  wp (ValidateAdapterAdmission tx sid adm)
    (λ _ w', connections (db w') = connections (db w) ∧
             ∃ c, connections (db w) !! sid = Some c ∧ admissible adm c)
    (λ _ _, True) w.
Proof.
  unfold ValidateAdapterAdmission, attentionMigrationPending. db_step. db_step; [done|]. do 2 db_step.
  db_step. db_step; [done|]. rewrite wp_bind.
  assert (∀ w1, connections (db w1) = connections (db w) →
    wp (on_error (Wrap "validate adapter admission") (queryAdapterConnectionWhere sid (admits adm)))
      (λ _ w', connections (db w') = connections (db w) ∧
             ∃ c, connections (db w) !! sid = Some c ∧ admissible adm c) (λ _ _, True) w1) as Hq.
  { intros w1 Hw1. rewrite wp_on_error. apply wp_queryWhere; [|done]. simpl. rewrite Hw1.
    intros c now Hc Hadm. split; [done|]. exists c. split; [done|]. unfold admits in Hadm. by bool_hyps. }
  destruct tx; [|rewrite wp_ret; by apply Hq].
  rewrite wp_bind, wp_on_error. apply wp_lock; [|done]. intros n w' Hw' _. rewrite wp_ret. by apply Hq.
Qed.

Lemma inadmissible tx sid adm c w :
  connections (db w) !! sid = Some c → ¬ admissible adm c →
  wp (ValidateAdapterAdmission tx sid adm) (λ _ _, False) (λ _ _, True) w.
Proof.
  intros Hc Hn. eapply wp_mono; [apply admission_needs| |done].
  intros a w' (_ & c' & Hc' & Ha). by simplify_eq.
Qed.

Lemma wp_false_fails {A} (m : M A) w : wp m (λ _ _, False) (λ _ _, True) w → ∃ e, (m w).2 = inl e.
Proof. unfold wp. destruct (m w) as [w' [e|a]]; [eauto|done]. Qed.

Notation connection_part := (λ w, connections (db w)).

Lemma keeps_store_all sid first createdAt i evs t :
  keeps connection_part (store_all sid first createdAt i evs t).
Proof.
  revert i t. induction evs as [|[ev pev] evs IH]; intros i t; simpl; [apply keeps_ret|].
  unfold insert_event, projectSQLiteAttentionEvent, loadAttentionSummary, upsertSQLiteAttentionSummary.
  keeps_auto.
Qed.

(** Appending needs an admissible connection, or stores nothing. *)
Lemma append_needs sid adm evs encrypted w :
  wp (appendAdapterEvents sid adm evs encrypted)
    (λ _ _, ∃ c, connections (db w) !! sid = Some c ∧ admissible adm c) (λ _ w', db w' = db w) w.
Proof.
  unfold appendAdapterEvents. db_step. db_step; [done|]. db_step. db_step; [done|]. rewrite wp_tx.
  eapply (wp_mono _ _ _ (λ _ _, True)); [| |done]. 2: { intros ? ? Hx. exact Hx. }
  rewrite wp_bind, wp_on_error. apply wp_lock; [|done]. intros n w1 Hw1 _.
  do 2 db_step. do 2 db_step. rewrite wp_bind.
  apply (keeps_wp connection_part _ w); [apply keeps_store_all|done| |done]. intros t w2 Hw2.
  rewrite wp_bind, wp_on_error. eapply wp_mono; [apply admission_needs| |done].
  intros a w3 (_ & Hadm). rewrite Hw2 in Hadm.
  assert (∀ m : M Z, wp m (λ _ _, True) (λ _ _, True) w3) as Htrue.
  { intros m. unfold wp. by destruct (m w3) as [? []]. }
  eapply wp_mono; [apply Htrue|done|done].
Qed.

(** ** Hello and activation *)

(** Only success matters. *)
Lemma wp_success {A} (m : M A) Q X w : wp m Q X w → wp m Q (λ _ _, True) w.
Proof. intros H. by eapply wp_mono. Qed.

(** A mutation that allocates a fence: the row is replaced by [set now fence]
    of itself with the fence the allocator held, and nothing after it touches
    connections or fences. *)
Definition refenced (sid : string) (wher : Z → connection_row → bool) (set : Z → Z → connection_row → connection_row)
    (w : World) (conn : AdapterConnection) (w' : World) : Prop :=
  ∃ c now, connections (db w) !! sid = Some c ∧ wher now c = true ∧
    connections (db w') !! sid = Some (set now (side_fence w) c) ∧
    conn = scan_connection sid (set now (side_fence w) c) ∧ side_fence w' = side_fence w + 1.

Lemma fenced_update tx sid wher set after w :
  store_inv w → (∀ now fence, forward (wher now) (set now fence)) →
  (∀ c now, keeps authority_part (after c now)) →
  wp (updateConnectionAfter tx sid true wher set after) (refenced sid wher set w) (λ _ _, True) w.
Proof.
  intros Hw Hfwd Hk. unfold updateConnectionAfter, withConnectionMutation.
  set (body := mbind _ _). enough (wp body (refenced sid wher set w) (λ _ _, True) w) as Hb.
  { destruct tx; [done|]. rewrite wp_tx. eapply wp_mono; [exact Hb|done|done]. }
  unfold body. rewrite wp_bind, wp_on_error. eapply wp_success.
  apply (wp_update_row w w); [by apply stepped_refl|apply forward_id| |]; cycle 1.
  { intros _. db_step. by db_step. }
  intros c Hc _ w1 _ Hw1. assert (connections (db w1) = connections (db w)) as Hc1 by by apply relock.
  assert (side_fence w1 = side_fence w) as Hs1 by done. clearbody w1.
  db_step. db_step; [done|]. rewrite wp_bind. eapply wp_success.
  apply (wp_allocate_sync w w1); [done|]. intros _ w2 Hw2. do 2 db_step.
  rewrite wp_bind, wp_on_error. apply wp_queryWhere; [|done]. intros c2 now2 Hc2 _. simpl in Hc2.
  set (w4 := mkWorld _ _ _ _).
  assert (stepped w w4) as Hw4.
  { eapply stepped_trans; [exact Hw2|]. apply step_core; [apply Hw2|done..|]. simpl. lia. }
  rewrite wp_bind, wp_on_error. eapply wp_success.
  apply (wp_update_row w w4); [done|done| |]; cycle 1.
  { intros _. db_step. by db_step. }
  intros c4 Hc4 Hwh w5 Htr Hw5. db_step. db_step; [done|]. rewrite wp_bind.
  apply wp_queryWhere; [|done]. intros c6 now6 Hc6 _. simpl in Hc6. rewrite lookup_insert_eq in Hc6.
  injection Hc6 as <-. rewrite wp_bind, wp_on_error.
  set (w6 := mkWorld _ _ _ _). apply (keeps_wp authority_part _ w6); [apply Hk|done| |done].
  intros _ w7 [= Hc7 Hs7]. rewrite wp_ret. exists c4, (clock w2 (tick w2)).
  simpl in Hc4. split; [congruence|]. split; [done|]. rewrite Hs1 in *.
  split; [by rewrite Hc7, lookup_insert_eq|]. split; [done|]. rewrite Hs7. simpl. lia.
Qed.

(** The lookup both operations start with leaves everything but the clock. *)
Lemma after_lookup {A} sid (k : M A) (P : A → World → Prop) w :
  store_inv w →
  (∀ w0, store_inv w0 → connections (db w0) = connections (db w) → side_fence w0 = side_fence w →
     wp k P (λ _ _, True) w0) →
  wp (GetAdapterConnection sid ≫= λ _, k) P (λ _ _, True) w.
Proof.
  intros Hw Hk. unfold GetAdapterConnection. db_step. db_step. db_step; [done|].
  rewrite wp_on_error. apply wp_queryWhere; [|done]. intros _ _ _ _. apply Hk; [by apply step_tick|done|done].
Qed.

Lemma refenced_from sid wher set w0 w conn w' :
  connections (db w0) = connections (db w) → side_fence w0 = side_fence w →
  refenced sid wher set w0 conn w' → refenced sid wher set w conn w'.
Proof. intros Hc Hs. unfold refenced. by rewrite Hc, Hs. Qed.

Definition hello_admits (hello : AdapterHello) (nowMS : Z) (c : connection_row) : bool :=
  bool_decide (cr_active_credential_generation c = he_CredentialGeneration hello) &&
  bool_decide (nowMS < cr_active_credential_expires_at_ms c) && live c.

Lemma hello_refenced tx sid hello w :
  store_inv w →
  wp (AcceptAdapterHello tx sid hello) (refenced sid (hello_admits hello) hello_row w) (λ _ _, True) w.
Proof.
  intros Hw. unfold AcceptAdapterHello. db_step. db_step; [done|].
  apply after_lookup; [done|]. intros w0 Hw0 Hc Hs.
  eapply wp_mono; [apply fenced_update| |done]; [done|intros; apply forward_hello| |].
  - intros c now. pose proof (keeps_fenceRunControls sid now).
    destruct (bool_decide (he_WriterLeaseID hello = _)); [done|]. unfold upsert_live_writer. keeps_auto.
  - intros conn w2. by apply refenced_from.
Qed.

Lemma activate_refenced tx sid activation w :
  store_inv w →
  ∃ wher, (∀ now c, wher now c = true →
      live c = true ∧ cr_pending_credential_generation c = Some (av_PendingGeneration activation) ∧
      cr_active_credential_generation c = av_ExpectedActiveCredentialGeneration activation) ∧
    wp (ActivateAdapterCredential tx sid activation) (refenced sid wher activate_row w) (λ _ _, True) w.
Proof.
  intros Hw. eexists. split; cycle 1.
  - unfold ActivateAdapterCredential. db_step. db_step; [done|].
    apply after_lookup; [done|]. intros w0 Hw0 Hc Hs.
    eapply wp_mono; [apply fenced_update| |done]; [done| |intros; apply keeps_ret|].
    + intros now fence. apply forward_activate. intros c Hwh. bool_hyps. eauto.
    + intros conn w2. by apply refenced_from.
  - intros now c Hwh. cbv beta in Hwh. by bool_hyps.
Qed.

(** A hello moves the connection forward.  When [AcceptAdapterHello]
    succeeds, the Session's connection was live and its credential current;
    its epoch has advanced by one and its fence is a fresh one from the
    allocator, above every fence the connection accepted before; the returned
    connection is the stored row. *)
Theorem hello_advances_epoch_and_fence tx sid hello w w' conn :
  store_inv w → AcceptAdapterHello tx sid hello w = (w', inr conn) →
  ∃ c c', connections (db w) !! sid = Some c ∧ connections (db w') !! sid = Some c' ∧
    conn = scan_connection sid c' ∧ live c = true ∧
    cr_active_credential_generation c = he_CredentialGeneration hello ∧
    cr_connection_epoch c' = cr_connection_epoch c + 1 ∧
    cr_accepted_fence c' = side_fence w ∧ cr_accepted_fence c < cr_accepted_fence c' ∧
    side_fence w' = side_fence w + 1.
Proof.
  intros Hw Hrun.
  destruct (wp_elim _ _ _ _ _ _ (hello_refenced tx sid hello w Hw) Hrun)
    as (c & now & Hc & Hwh & Hc' & Hconn & Hside).
  unfold hello_admits in Hwh. bool_hyps.
  pose proof (co_fence _ _ _ (si_connections _ Hw sid c Hc)). pose proof (si_fence _ Hw).
  exists c, (hello_row now (side_fence w) c). repeat split; try done. simpl. lia.
Qed.

End Fencing.
