(* ===== verification/ProviderStart.v ===== *)
(** * Provider start admission of [store/sqlite/store.go]

    [WithProviderStartAdmission] checks, in one transaction, that the Adapter
    connection and its writer are current, and for an attached target that
    exactly one lease of the writer is reserved (or already started, on
    re-admission); it then runs the callback that starts the Provider, checks
    everything again and records the start.  The callback is a computation of
    the caller: it runs while the transaction holds the database. *)

From S2P Require Import Prelude StoreApi Sqlite Attention EventLog AttentionSpec Connections.
From S2P Require Import Invariant StoreSound CommandLedger Attachments WorkspaceLease Fencing.
From stdpp Require Import base gmap strings list.
#[local] Open Scope Z_scope.

Module ProviderStart.
Import Connections CommandLedger WorkspaceLease.

(** ** Data *)

Definition ProviderStartStandalone : string := "standalone".
Definition ProviderStartAttached : string := "attached".

Record ProviderStartAdmission := mkStart {
  ps_SessionID : string;
  ps_Admission : AdapterConnectionAdmission;
  ps_Writer : SettingsWriter;
  ps_Kind : string;
  ps_ReAdmission : bool;
}.

(** the zero [WorkspaceLease] *)
Definition no_lease : WorkspaceLease := mkLease zero_key None (mkOwner "" "" 0 0 "") "" 0 zero_time.

(** ** The operation *)

(** Neither the lease nor its child scope has expired. *)
Definition unexpired (nowNS : Z) (r : lease_row) : bool :=
  bool_decide (nowNS < ls_expires_at_ns r) &&
  match ls_child_scope_expires_at_ns r with Some e => bool_decide (nowNS < e) | None => true end.

(** The rows of the Session's writer in one of [statuses]. *)
Definition writer_lease (request : ProviderStartAdmission) (statuses : list string) (nowNS : Z) (r : lease_row) : bool :=
  bool_decide (ls_session_id r = ps_SessionID request) && bool_decide (ls_writer r = ps_Writer request) &&
  bool_decide (ls_status r ∈ statuses) && unexpired nowNS r.

(** The SELECT that finds the lease. *)
Definition start_candidates (request : ProviderStartAdmission) (nowNS : Z) (d : DB) : list (string * lease_row) :=
  filter (λ kr, writer_lease request ["reserved"; "start_received"] nowNS kr.2 = true) (map_to_list (leases d)).

(** The two authority checks, made before and after the callback. *)
Definition start_authority (request : ProviderStartAdmission) : M unit :=
  on_error (λ _, Err "provider start authority lost")
    (ValidateAdapterAdmission true (ps_SessionID request) (ps_Admission request)) ≫= λ _,
  on_error (λ _, Err "provider start authority lost")
    (validateLiveSettingsWriter (ps_SessionID request) (ps_Writer request)).

Definition run_callback (callback : option (M unit)) : M unit :=
  match callback with
  | Some callback => on_error (Wrap "provider start callback") callback
  | None => mret tt
  end.

(** The lease is recorded as started, or on re-admission still is. *)
Definition record_start (request : ProviderStartAdmission) (key : string) (status : string) (commitNowMS : Z) : M unit :=
  if bool_decide (status = WorkspaceLeaseReserved) then
    changed ← on_error (Wrap "record provider start admission")
      (update_lease key (λ _ r, writer_lease request ["reserved"] (nanos commitNowMS) r)
         (moved_row "start_received" commitNowMS));
    fail_if (bool_decide (changed ≠ 1)) (Err "provider start admission is unavailable")
  else
    leaseCurrent ← query (λ d, match leases d !! key with
                               | Some r => writer_lease request ["start_received"] (nanos commitNowMS) r
                               | None => false
                               end);
    fail_if (negb leaseCurrent) (Err "provider start admission is unavailable").

Definition WithProviderStartAdmission (request : ProviderStartAdmission) (callback : option (M unit)) : M WorkspaceLease :=
  fail_if (negb (validConnectionID (ps_SessionID request)) || bool_decide (LeaseID (ps_Writer request) = "")
           || (bool_decide (ps_Kind request ≠ ProviderStartStandalone)
               && bool_decide (ps_Kind request ≠ ProviderStartAttached))
           || bool_decide (ConnectionEpoch (ps_Writer request) ≠ ad_ConnectionEpoch (ps_Admission request))
           || bool_decide (CredentialGeneration (ps_Writer request) ≠ ad_CredentialGeneration (ps_Admission request)))
    (Err "invalid provider start admission") ≫= λ _,
  with_tx (
    start_authority request ≫= λ _,
    if bool_decide (ps_Kind request = ProviderStartStandalone) then
      run_callback callback ≫= λ _,
      start_authority request ≫= λ _,
      mret no_lease
    else
      nowMS ← nowMillis;
      rows ← query (start_candidates request (nanos nowMS));
      match rows with
      | [(key, r)] =>
          fail_if (bool_decide (len key ≠ 32)) (Err "provider start admission is unavailable") ≫= λ _,
          fail_if (bool_decide (ls_status r = WorkspaceLeaseStartReceived) && negb (ps_ReAdmission request))
            (Err "provider start admission is unavailable") ≫= λ _,
          run_callback callback ≫= λ _,
          commitNowMS ← nowMillis;
          record_start request key (ls_status r) commitNowMS ≫= λ _,
          start_authority request ≫= λ _,
          querySQLiteWorkspaceLease key
      | _ => throw (Err "provider start admission is unavailable")
      end).

Definition RecordProviderStartAdmission (request : ProviderStartAdmission) : M WorkspaceLease :=
  WithProviderStartAdmission request None.

(** ** Soundness *)

Import Invariant StoreSound Fencing.

Lemma sound_start_authority {E} `{!Outcome E} request : sound_with E (start_authority request).
Proof. unfold start_authority. sound_auto. Qed.

Lemma sound_run_callback {E} `{!Outcome E} callback :
  (∀ m, callback = Some m → sound m) → sound_with E (run_callback callback).
Proof. intros Hc. destruct callback; simpl; sound_auto. apply sound_weaken. auto. Qed.

Lemma sound_record_start {E} `{!Outcome E} request key status now : sound_with E (record_start request key status now).
Proof.
  unfold record_start. sound_auto. apply sound_weaken, sound_update_lease. intros r. apply moved_evolves.
Qed.

#[local] Hint Resolve sound_start_authority sound_run_callback sound_record_start sound_queryLease : sound.

Lemma sound_WithProviderStartAdmission request callback :
  (∀ m, callback = Some m → sound m) → sound (WithProviderStartAdmission request callback).
Proof.
  intros Hc. unfold WithProviderStartAdmission. sound_auto; by apply sound_run_callback.
Qed.

(** ** What a start needs and does *)

(** The connection admits the request and the writer is the live one. *)
Definition authorised (request : ProviderStartAdmission) (d : DB) : Prop :=
  live_writers d !! ps_SessionID request = Some (ps_Writer request) ∧
  ∃ c, connections d !! ps_SessionID request = Some c ∧ admissible (ps_Admission request) c.

(** Exactly one lease of the writer is reserved or started, and a started one
    is admitted again only on request. *)
Definition startable (request : ProviderStartAdmission) (d : DB) (key : string) (r : lease_row) : Prop :=
  (∃ nowNS, start_candidates request nowNS d = [(key, r)]) ∧
  (ls_status r = "start_received" → ps_ReAdmission request = true).

(** What must hold when the Provider crosses its start boundary. *)
Definition may_start (request : ProviderStartAdmission) (d : DB) : Prop :=
  authorised request d ∧ (ps_Kind request ≠ ProviderStartStandalone → ∃ key r, startable request d key r).

Lemma upd_connections_id f d : f (connections d) = connections d → upd_connections f d = d.
Proof. intros H. unfold upd_connections. rewrite H. by destruct d. Qed.

Lemma wp_relock sid Q X w :
  (∀ n w', db w' = db w → Q n w') → (∀ e, X e w) → wp (update_connection_row sid (λ _, true) id) Q X w.
Proof.
  intros HQ HX. unfold update_connection_row. db_steps; try (by apply HX); try (by apply HQ).
  apply HQ. simpl. apply upd_connections_id. unfold id in *. by apply relock.
Qed.

Lemma admission_same_db sid adm w :
  wp (ValidateAdapterAdmission true sid adm) (λ _ w', db w' = db w) (λ _ _, True) w.
Proof.
  unfold ValidateAdapterAdmission, attentionMigrationPending. db_step. db_step; [done|]. do 2 db_step.
  db_step. db_step; [done|]. rewrite !wp_bind, wp_on_error. apply wp_relock; [|done]. intros n w' Hw'.
  rewrite wp_ret, wp_on_error. apply wp_queryWhere; [|done]. intros c now Hc _. done.
Qed.

Lemma wp_and {A} (m : M A) Q1 Q2 w :
  wp m Q1 (λ _ _, True) w → wp m Q2 (λ _ _, True) w → wp m (λ a w', Q1 a w' ∧ Q2 a w') (λ _ _, True) w.
Proof. unfold wp. by destruct (m w) as [w' [e|a]]. Qed.

Lemma start_authority_spec request w :
  wp (start_authority request) (λ _ w', db w' = db w ∧ authorised request (db w)) (λ _ _, True) w.
Proof.
  unfold start_authority. rewrite wp_bind, wp_on_error.
  eapply wp_mono; [apply (wp_and _ _ _ _ (admission_same_db _ _ w) (admission_needs _ _ _ w))| |done].
  intros conn w1 (Hdb & _ & Hadm). rewrite wp_on_error. unfold validateLiveSettingsWriter.
  do 4 db_step. rewrite wp_fail_if. split; [done|]. intros Hcur%negb_false_iff. simpl in *. unfold id in *.
  rewrite Hdb in *.
  destruct (live_writers (db w) !! ps_SessionID request) as [writer|] eqn:Hl; [|done].
  destruct (connections (db w) !! ps_SessionID request) eqn:Hc; [|done]. bool_hyps.
  split; [done|]. split; [congruence|]. by rewrite Hc.
Qed.

(** *** The callback runs only where the start is permitted *)

Lemma bind_agree {A B} (m : M A) (k1 k2 : A → M B) w :
  wp m (λ a w', k1 a w' = k2 a w') (λ _ _, True) w → (m ≫= k1) w = (m ≫= k2) w.
Proof. unfold wp, mbind, SE_bind. destruct (m w) as [w' [e|a]]; done. Qed.

Lemma bind_same {A B} (m1 m2 : M A) (k : A → M B) w : m1 w = m2 w → (m1 ≫= k) w = (m2 ≫= k) w.
Proof. unfold mbind, SE_bind. by intros ->. Qed.

Lemma start_agree request (cb1 cb2 : M unit) w :
  (∀ w', db w' = db w → may_start request (db w') → cb1 w' = cb2 w') →
  WithProviderStartAdmission request (Some cb1) w = WithProviderStartAdmission request (Some cb2) w.
Proof.
  intros Hcb. unfold WithProviderStartAdmission. apply bind_agree. db_step; [done|]. unfold with_tx.
  match goal with |- context [match ?m1 w with _ => _ end = match ?m2 w with _ => _ end] =>
    enough (m1 w = m2 w) as -> by done end.
  apply bind_agree. eapply wp_mono; [apply start_authority_spec| |done]. intros _ w1 [Hw1 Hauth].
  destruct (bool_decide_reflect (ps_Kind request = ProviderStartStandalone)) as [Hkind|Hkind].
  - apply bind_same. unfold run_callback, on_error. rewrite (Hcb w1); [done|done|]. rewrite Hw1. by split.
  - apply bind_agree. db_step. apply bind_agree. db_step.
    match goal with |- context [start_candidates ?rq ?now ?d] =>
      destruct (start_candidates rq now d) as [|[key r] [|? ?]] eqn:Hrows; try done end.
    apply bind_agree. db_step; [done|]. apply bind_agree. db_step; [done|]. apply bind_same.
    unfold run_callback, on_error. rewrite Hcb; [done|done|]. simpl in *. rewrite Hw1 in *.
    split; [done|]. intros _. exists key, r. split; [by eexists|]. intros Hs.
    rewrite (bool_decide_eq_true_2 (ls_status r = _)) in * by done. simpl in *. bool_hyps. done.
Qed.

(** *** What it records *)

(** A callback that leaves the Store alone. *)
Definition outcome_of (callback : option (error + unit)) : option (M unit) := lift <$> callback.

Lemma wp_callback callback Q X w :
  Q tt w → (∀ e, X e w) → wp (run_callback (outcome_of callback)) Q X w.
Proof. destruct callback as [[e|[]]|]; unfold wp; simpl; auto. Qed.

(** The lease a start records: the reserved one moves on, a started one is
    left as it is. *)
Definition started_row (now : Z) (r : lease_row) : lease_row :=
  if bool_decide (ls_status r = "reserved") then moved_row "start_received" now r else r.

Lemma record_start_spec request key r now w :
  leases (db w) !! key = Some r →
  wp (record_start request key (ls_status r) now)
    (λ _ w', leases (db w') = <[key := started_row now r]> (leases (db w)) ∧
             writer_lease request [ls_status r] (nanos now) r = true ∧
             connections (db w') = connections (db w) ∧ live_writers (db w') = live_writers (db w))
    (λ _ _, True) w.
Proof.
  intros Hr. unfold record_start, started_row.
  destruct (bool_decide (ls_status r = WorkspaceLeaseReserved)) eqn:Hs; bool_hyps.
  - rewrite (bool_decide_eq_true_2 (ls_status r = "reserved")) by done.
    rewrite wp_bind, wp_on_error. unfold update_lease. do 2 db_step. unfold id. rewrite Hr.
    destruct (writer_lease request ["reserved"] _ r) eqn:Hw; [|rewrite wp_ret, wp_fail_if; done].
    db_step. db_step; [done|]. rewrite wp_bind, wp_exec, wp_ret, wp_fail_if. split; [done|]. intros _. by rewrite Hs.
  - rewrite (bool_decide_eq_false_2 (ls_status r = "reserved")) by done.
    do 2 db_step. rewrite Hr, wp_fail_if. split; [done|]. intros Hw%negb_false_iff.
    rewrite insert_id by done. split; [done|]. split; [|done]. unfold writer_lease in *. bool_hyps.
    rewrite !elem_of_cons, elem_of_nil in *. rewrite !andb_true_iff, !bool_decide_eq_true.
    rewrite list_elem_of_singleton. done.
Qed.

Lemma candidate_row request now d key r :
  start_candidates request now d = [(key, r)] → leases d !! key = Some r.
Proof.
  intros H. assert ((key, r) ∈ start_candidates request now d) as Hin by (rewrite H; set_solver).
  unfold start_candidates in Hin. apply list_elem_of_filter in Hin as [_ Hin]. by apply elem_of_map_to_list.
Qed.

Lemma provider_start_spec request callback w :
  wp (WithProviderStartAdmission request (outcome_of callback))
    (λ lease w', authorised request (db w) ∧
       if bool_decide (ps_Kind request = ProviderStartStandalone)
       then lease = no_lease ∧ leases (db w') = leases (db w)
       else ∃ key r now scope, startable request (db w) key r ∧ writer_lease request [ls_status r] (nanos now) r = true ∧
              leases (db w') = <[key := started_row now r]> (leases (db w)) ∧
              lease = scan_lease key (started_row now r) scope)
    (λ _ w', db w' = db w) w.
Proof.
  unfold WithProviderStartAdmission. db_step. db_step; [done|]. rewrite wp_tx.
  eapply (wp_mono _ _ _ (λ _ _, True)); [|intros a w' Ha; exact Ha|done].
  rewrite wp_bind. eapply wp_mono; [apply start_authority_spec| |done]. intros _ w1 [Hw1 Hauth].
  destruct (bool_decide (ps_Kind request = ProviderStartStandalone)) eqn:Hkind.
  - rewrite wp_bind. apply wp_callback; [|done]. rewrite wp_bind.
    eapply wp_mono; [apply start_authority_spec| |done]. intros _ w2 [Hw2 _]. rewrite wp_ret.
    split; [done|]. split; [done|]. congruence.
  - do 4 db_step. simpl. rewrite Hw1.
    match goal with |- context [start_candidates ?rq ?now ?d] =>
      destruct (start_candidates rq now d) as [|[key r] [|? ?]] eqn:Hrows; try (by rewrite wp_throw) end.
    db_step. db_step; [done|]. db_step. db_step; [done|]. rewrite wp_bind. apply wp_callback; [|done].
    db_step. db_step. rewrite wp_bind. set (w3 := mkWorld _ _ _ _). assert (db w3 = db w) as Hw3 by done.
    clearbody w3. pose proof (candidate_row _ _ _ _ _ Hrows) as Hr.
    eapply wp_mono; [apply record_start_spec; by rewrite Hw3| |done]. intros _ w4 (Hl & Hwl & _).
    rewrite wp_bind. eapply wp_mono; [apply start_authority_spec| |done]. intros _ w5 [Hw5 _].
    apply wp_queryLease; [|done]. intros r' scope Hr'. rewrite Hw5, Hl, Hw3, lookup_insert_eq in Hr'. simplify_eq.
    split; [done|]. eexists key, r, _, scope. split_and!; [|exact Hwl|by rewrite Hw5, Hl, Hw3|done].
    split; [by eexists|]. intros Hs. rewrite (bool_decide_eq_true_2 (ls_status r = _)) in * by done.
    simpl in *. bool_hyps. done.
Qed.

End ProviderStart.
