(* ===== verification/AttentionPages.v ===== *)
(** * Attention snapshots, pages and backfill of [store/sqlite/store.go]

    Clients list attention summaries by Session ID: a snapshot of given
    Sessions, or pages of the Sessions whose Adapter connection is current, in
    the order of their IDs with the last ID of a page as the cursor of the
    next.  A database that predates the summaries is migrated by batches: each
    marks the next Sessions, in ID order, as incompletely projected and ends
    their connections. *)

From S2P Require Import Prelude StoreApi Sqlite Attention EventLog AttentionSpec Connections.
From S2P Require Import Invariant StoreSound.
From stdpp Require Import base gmap strings list sorting.
#[local] Open Scope Z_scope.

Module AttentionPages.
Import Attention EventLog Connections.

(** ** Keyset order: [ORDER BY session_id] and [session_id > ?] *)

Definition after (cursor sid : string) : bool := bool_decide (String.le cursor sid) && bool_decide (cursor ≠ sid).

Definition by_id {V} (x y : string * V) : Prop := String.le x.1 y.1.
#[global] Instance by_id_dec {V} : RelDecision (@by_id V).
Proof. intros x y. unfold by_id. apply _. Defined.

(** The rows of a table keyed by Session, in order. *)
Definition ordered {V} (m : gmap string V) : list (string * V) := merge_sort by_id (map_to_list m).

(** ** Snapshots *)

Definition incomplete_summary (sid : string) (latest : Z) : SessionAttentionSummary :=
  mkSummary sid latest "starting" None None None None 0 None None AttentionProjectionIncomplete.

(** The loop over the requested IDs, with those already [seen]. *)
Fixpoint check_ids (seen : list string) (ids : list string) : error + unit :=
  match ids with
  | [] => inr tt
  | sid :: ids =>
      if negb (validConnectionID sid) then inl (Err "attention snapshot session ID is invalid")
      else if bool_decide (sid ∈ seen) then inl (Err "attention snapshot session IDs must be unique")
      else check_ids (sid :: seen) ids
  end.

(** Scanning rows one by one: the first bad row fails the query. *)
Fixpoint scan_all (rows : list (string * attention_row)) : error + list SessionAttentionSummary :=
  match rows with
  | [] => inr []
  | (sid, r) :: rows =>
      match querySQLiteAttentionSummary sid r with
      | inl e => inl e
      | inr s => match scan_all rows with inl e => inl e | inr ss => inr (s :: ss) end
      end
  end.

Definition AttentionSnapshot (sessionIDs : list string) : M (list SessionAttentionSummary) :=
  fail_if (bool_decide (length sessionIDs = 0%nat) || bool_decide (100 < length sessionIDs)%nat)
    (Err "attention snapshot session IDs are out of range") ≫= λ _,
  lift (check_ids [] sessionIDs) ≫= λ _,
  pending ← attentionMigrationPending;
  if pending : bool then mret ((λ sid, incomplete_summary sid 0) <$> sessionIDs)
  else
    rows ← query (λ d, filter (λ sr : string * attention_row, sr.1 ∈ sessionIDs) (ordered (attention d)));
    lift (scan_all rows).

(** ** Pages *)

Definition MaxAttentionSummaryPageSize : Z := 100.

Record AttentionSummaryPageRequest := mkPageRequest { pr_AfterSessionID : string; pr_Limit : Z }.

Record AttentionSummaryPage_ := mkPage {
  pg_Summaries : list SessionAttentionSummary;
  pg_NextAfterSessionID : option string;
  pg_SnapshotAt : time;
}.

(** The EXISTS: the Session has a connection whose credential is current. *)
Definition has_authority (nowMS : Z) (d : DB) (sid : string) : bool :=
  match connections d !! sid with
  | Some c => bool_decide (nowMS < cr_active_credential_expires_at_ms c) && live c
  | None => false
  end.

(** The rows after a cursor that a page may show. *)
Definition visible (cursor : string) (nowMS : Z) (d : DB) : list (string * attention_row) :=
  filter (λ sr : string * attention_row, after cursor sr.1 && has_authority nowMS d sr.1 = true) (ordered (attention d)).

(** The loop over the rows: [limit] of them fill the page, and one more tells
    that it continues after the last one shown. *)
Fixpoint fill_page (limit : nat) (shown : list SessionAttentionSummary) (rows : list (string * attention_row))
    : error + (list SessionAttentionSummary * option string) :=
  match rows with
  | [] => inr (shown, None)
  | (sid, r) :: rows =>
      match querySQLiteAttentionSummary sid r with
      | inl e => inl e
      | inr summary =>
          if bool_decide (length shown = limit) then inr (shown, sm_SessionID <$> last shown)
          else fill_page limit (shown ++ [summary]) rows
      end
  end.

Definition AttentionSummaryPage (request : AttentionSummaryPageRequest) : M AttentionSummaryPage_ :=
  fail_if (bool_decide (pr_Limit request < 1) || bool_decide (MaxAttentionSummaryPageSize < pr_Limit request))
    (Err "attention summary page limit is out of range") ≫= λ _,
  fail_if (bool_decide (pr_AfterSessionID request ≠ "") && negb (validConnectionID (pr_AfterSessionID request)))
    (Err "attention summary page cursor is invalid") ≫= λ _,
  pending ← attentionMigrationPending;
  fail_if pending (Err "attention summary page is unavailable during migration") ≫= λ _,
  snapshotMS ← nowMillis;
  stmtNow ← nowMillis;
  rows ← query (λ d, take (Z.to_nat (pr_Limit request + 1)) (visible (pr_AfterSessionID request) stmtNow d));
  page ← lift (fill_page (Z.to_nat (pr_Limit request)) [] rows);
  mret (mkPage page.1 page.2 (of_UnixMilli snapshotMS)).

(** ** Backfill *)

Definition maxSQLiteAttentionBackfillBatch : Z := 256.

Record AttentionBackfillResult := mkBackfill { bf_Checkpoint : string; bf_Processed : Z; bf_Done : bool }.

(** The UNION of the Sessions of three tables. *)
Definition known_sessions (d : DB) : gset string :=
  list_to_set (er_session_id <$> session_events d) ∪
  list_to_set ((λ ka, ta_target_session_id ka.2) <$> map_to_list (attachments d)) ∪ dom (connections d).

Definition unmigrated (checkpoint : string) (d : DB) : list string :=
  filter (λ sid, after checkpoint sid = true) (merge_sort String.le (elements (known_sessions d))).

Definition backfilled_summary (sid : string) (latest : Z) (existing : option SessionAttentionSummary) : SessionAttentionSummary :=
  match existing with
  | None => incomplete_summary sid latest
  | Some s => mkSummary (sm_SessionID s) (Z.max (Attention.LatestSeq s) latest) (State s) (Permission s) (TerminalOutcome s)
                (LatestChangeSeq s) (Blocker s) (SummaryVersion s) (LastDurableEventAt s) (LastClientCommandAt s)
                AttentionProjectionIncomplete
  end.

(** [revoked_at_ms = COALESCE(revoked_at_ms, ?), terminal_at_ms = COALESCE(...)] *)
Definition retired_row (nowMS : Z) (c : connection_row) : connection_row :=
  mkConnectionRow (cr_connection_epoch c) (cr_accepted_fence c) (cr_active_credential_generation c)
    (cr_credential_generation_high_watermark c) (cr_active_credential_expires_at_ms c)
    (cr_pending_credential_generation c) (cr_pending_credential_expires_at_ms c)
    (cr_prior_recovery_credential_generation c) (cr_rotation_id c) (Some (default nowMS (cr_revoked_at_ms c))) (Some (default nowMS (cr_terminal_at_ms c)))
    (cr_created_at_ms c) nowMS.

(** One turn of the loop. *)
Definition backfill_session (nowMS : Z) (sid : string) : M unit :=
  latest ← query (latest_seq sid);
  r ← try_ (loadAttentionSummary sid);
  summary ← match r with
    | inr s => mret (backfilled_summary sid latest (Some s))
    | inl err => if is_no_rows err then mret (backfilled_summary sid latest None)
                 else throw (Wrap "load sqlite attention backfill summary" err)
    end;
  upsertSQLiteAttentionSummary summary nowMS ≫= λ _,
  update_connection_row sid (λ _, true) (retired_row nowMS) ≫= λ _,
  mret tt.

Definition BackfillAttentionBatch (limit : Z) : M AttentionBackfillResult :=
  fail_if (bool_decide (limit < 1) || bool_decide (maxSQLiteAttentionBackfillBatch < limit))
    (Err "sqlite attention backfill batch size is out of range") ≫= λ _,
  with_tx (
    d ← query id;
    fail_if (negb (migration_pending d)) (Err "sqlite attention migration is not pending") ≫= λ _,
    let checkpoint := migration_checkpoint d in
    let rows := take (Z.to_nat (limit + 1)) (unmigrated checkpoint d) in
    fail_if (existsb (λ sid, negb (validConnectionID sid)) rows)
      (Err "sqlite attention backfill session is invalid") ≫= λ _,
    let done := bool_decide (length rows ≤ Z.to_nat limit)%nat in
    let sessions := take (Z.to_nat limit) rows in
    nowMS ← nowMillis;
    for_each sessions (backfill_session nowMS) ≫= λ _,
    let checkpoint := default checkpoint (last sessions) in
    (if done then exec (λ d, upd_migration_checkpoint (λ _, checkpoint) (upd_migration_pending (λ _, false) d))
     else exec (upd_migration_checkpoint (λ _, checkpoint))) ≫= λ _,
    mret (mkBackfill checkpoint (Z.of_nat (length sessions)) done)).

(** ** Soundness *)

Import AttentionSpec Invariant StoreSound.

Lemma sound_AttentionSnapshot ids : sound (AttentionSnapshot ids).
Proof. unfold AttentionSnapshot, attentionMigrationPending. sound_auto. Qed.

Lemma sound_AttentionSummaryPage request : sound (AttentionSummaryPage request).
Proof. unfold AttentionSummaryPage, attentionMigrationPending. sound_auto. Qed.

Lemma forward_retired wher now : forward wher (retired_row now).
Proof.
  intros next sid c [] _ _ _. split; [|done]. split; simpl; try lia; try done; intros Ht; by rewrite Ht.
Qed.

Lemma sound_backfill_session {E} `{!Outcome E} now sid : sound_with E (backfill_session now sid).
Proof.
  apply sound_weaken. intros w Hw. unfold backfill_session. do 2 db_step. rewrite wp_bind, wp_try, wp_load.
  assert (∀ s, sm_SessionID s = sid → 0 ≤ Attention.LatestSeq s ≤ latest_seq sid (db w) →
    StateOfProjection s = AttentionProjectionIncomplete →
    wp (upsertSQLiteAttentionSummary s now ≫= λ _,
        update_connection_row sid (λ _, true) (retired_row now) ≫= λ _, mret tt)
      (λ _ w', stepped w w') (λ _ w', stepped w w') w) as Hwrite.
  { intros s Hsid Hl Hi. rewrite wp_bind. apply wp_upsert; [|intros; by apply stepped_refl]. intros _.
    rewrite Hsid. set (w1 := set_db _ w).
    assert (stepped w w1) as Hw1 by (apply step_summary; [done|]; by apply incomplete_ok).
    eapply sound_wp; [|exact Hw1|done]. apply sound_bind; [apply sound_update_row, forward_retired|sound_auto]. }
  pose proof (latest_seq_dense _ sid (si_log _ Hw)). pose proof (si_attention _ Hw sid) as Hok.
  destruct (attention (db w) !! sid) as [r|] eqn:Hr.
  - destruct (querySQLiteAttentionSummary sid r) as [e|s] eqn:Hs.
    + rewrite (query_summary_err _ _ _ Hs), wp_bind, wp_throw. by apply stepped_refl.
    + rewrite wp_bind, wp_ret. pose proof (query_summary_fields _ _ _ Hs) as (Hl & _).
      pose proof (so_latest _ _ _ Hok). apply Hwrite; simpl; [by eapply query_summary_sid|lia|done].
  - simpl. rewrite wp_bind, wp_ret. apply Hwrite; simpl; [done|lia|done].
Qed.

Lemma sound_BackfillAttentionBatch limit : sound (BackfillAttentionBatch limit).
Proof.
  unfold BackfillAttentionBatch. sound_auto. apply sound_backfill_session.
Qed.

(** ** Cursors *)

Lemma after_spec cursor sid : after cursor sid = true ↔ String.le cursor sid ∧ cursor ≠ sid.
Proof. unfold after. by rewrite andb_true_iff, !bool_decide_eq_true. Qed.

Lemma not_after cursor sid : String.le sid cursor → after cursor sid = false.
Proof.
  intros Hle. apply not_true_iff_false. rewrite after_spec. intros [Hge Hne]. destruct Hne.
  by apply (anti_symm String.le).
Qed.

Lemma after_trans c1 c2 sid : String.le c1 c2 → after c2 sid = true → after c1 sid = true.
Proof.
  rewrite !after_spec. intros H12 [H2 Hne]. split; [by etrans|]. intros ->. destruct Hne.
  by apply (anti_symm String.le).
Qed.

Section keyset.
Context {A : Type} (key : A → string).

(** What a keyset query returns: ascending keys, all different. *)
Definition ascending (l : list A) : Prop := StronglySorted (λ x y, after (key x) (key y) = true) l.

Lemma filter_all (P : A → Prop) `{∀ x, Decision (P x)} l : Forall P l → filter P l = l.
Proof. induction 1; [done|]. by rewrite filter_cons_True, IHForall. Qed.

Lemma filter_none (P : A → Prop) `{∀ x, Decision (P x)} l : Forall (λ x, ¬ P x) l → filter P l = [].
Proof. induction 1; [done|]. by rewrite filter_cons_False. Qed.

Lemma ascending_filter (P : A → Prop) `{∀ x, Decision (P x)} l : ascending l → ascending (filter P l).
Proof.
  induction 1 as [|x l Hl IH Hx]; [constructor|]. rewrite filter_cons. case_decide; [|done].
  constructor; [done|]. rewrite Forall_forall in *. intros y [_ Hy]%list_elem_of_filter. auto.
Qed.

(** Resuming after the last key of a page leaves exactly the rest. *)
Lemma resume l1 x l2 : ascending (l1 ++ x :: l2) → filter (λ y, after (key x) (key y) = true) (l1 ++ x :: l2) = l2.
Proof.
  unfold ascending. intros Hs. apply StronglySorted_app in Hs as (Hcross & _ & Hs2).
  apply StronglySorted_cons in Hs2 as [Hx _]. rewrite filter_app, filter_none; simpl.
  - rewrite filter_cons_False; [by apply filter_all|]. by rewrite not_after.
  - apply Forall_forall. intros y Hy. rewrite not_after; [done|].
    assert (after (key y) (key x) = true) as Ha by (apply Hcross; [done|apply list_elem_of_here]).
    by apply after_spec in Ha as [? _].
Qed.

(** The same query from the cursor of a page of [n] rows. *)
Lemma resume_take n l x : ascending l → last (take n l) = Some x →
  filter (λ y, after (key x) (key y) = true) l = drop n l.
Proof.
  intros Hl Hlast. apply last_Some in Hlast as [l' Hl'].
  rewrite <-(take_drop n l) in Hl |- * at 1. rewrite Hl', <-app_assoc in *. simpl in *.
  by apply resume.
Qed.

End keyset.

(** Sorting distinct keys gives ascending keys. *)
Lemma sorted_ascending {A} (key : A → string) l :
  StronglySorted (λ x y, String.le (key x) (key y)) l → NoDup (key <$> l) → ascending key l.
Proof.
  induction 1 as [|x l Hl IH Hx]; [constructor|]. rewrite fmap_cons, NoDup_cons. intros [Hn Hd].
  constructor; [by apply IH|]. apply Forall_forall. rewrite Forall_forall in Hx. intros y Hy. apply after_spec. split; [auto|].
  intros Heq. apply Hn. rewrite Heq. by apply list_elem_of_fmap_2.
Qed.

#[local] Instance by_id_trans {V} : Transitive (@by_id V).
Proof. unfold by_id. intros x y z. by etrans. Qed.
#[local] Instance by_id_total {V} : Total (@by_id V).
Proof. unfold by_id. intros x y. apply (total String.le). Qed.

Lemma ordered_ascending {V} (m : gmap string V) : ascending fst (ordered m).
Proof.
  apply sorted_ascending; [exact (StronglySorted_merge_sort by_id _)|].
  unfold ordered. rewrite merge_sort_Permutation. apply NoDup_fst_map_to_list.
Qed.

Lemma unmigrated_ascending checkpoint d : ascending id (unmigrated checkpoint d).
Proof.
  apply ascending_filter, sorted_ascending; [apply (StronglySorted_merge_sort String.le)|].
  rewrite list_fmap_id, merge_sort_Permutation. apply NoDup_elements.
Qed.

(** ** Pages are consecutive *)

Lemma scan_all_ids rows ss : scan_all rows = inr ss → sm_SessionID <$> ss = rows.*1.
Proof.
  revert ss. induction rows as [|[sid r] rows IH]; intros ss; simpl; [by intros [= <-]|].
  destruct (querySQLiteAttentionSummary sid r) as [e|s] eqn:Hs; [done|].
  destruct (scan_all rows) as [e|ss']; [done|]. intros [= <-]. rewrite fmap_cons, (IH ss') by done.
  by rewrite (query_summary_sid _ _ _ Hs).
Qed.

Lemma fill_page_spec limit shown rows page :
  fill_page limit shown rows = inr page → (length shown ≤ limit)%nat →
  ∃ ss, scan_all (take (limit - length shown) rows) = inr ss ∧ page.1 = shown ++ ss ∧
        page.2 = if bool_decide (limit < length shown + length rows)%nat then sm_SessionID <$> last page.1 else None.
Proof.
  revert shown. induction rows as [|[sid r] rows IH]; intros shown; simpl.
  - intros [= <-] Hle. exists []. rewrite take_nil. split; [done|]. rewrite app_nil_r. split; [done|].
    rewrite bool_decide_eq_false_2; [done|lia].
  - destruct (querySQLiteAttentionSummary sid r) as [e|s] eqn:Hs; [done|].
    case_bool_decide as Hlen; intros Hp Hle.
    + injection Hp as <-. exists []. rewrite Hlen, Nat.sub_diag, app_nil_r. simpl.
      by rewrite bool_decide_eq_true_2 by lia.
    + destruct (IH _ Hp) as (ss & Hss & Hp1 & Hp2); [rewrite length_app; simpl; lia|].
      rewrite length_app in *. simpl in *. replace (limit - length shown)%nat with (S (limit - (length shown + 1))) by lia.
      simpl. rewrite Hs, Hss. eexists. split; [done|]. rewrite <-app_assoc in Hp1. split; [done|].
      rewrite Hp2. by replace (length shown + S (length rows))%nat with (length shown + 1 + length rows)%nat by lia.
Qed.

Lemma visible_ascending cursor now d : ascending fst (visible cursor now d).
Proof. apply ascending_filter, ordered_ascending. Qed.

Lemma visible_after cursor now d sr : sr ∈ visible cursor now d → after cursor sr.1 = true.
Proof. unfold visible. intros [H _]%list_elem_of_filter. by apply andb_true_iff in H as [? _]. Qed.

(** The rows after a later cursor are those of the earlier one that follow it. *)
Lemma visible_resume c1 c2 now d :
  String.le c1 c2 → visible c2 now d = filter (λ sr : string * attention_row, after c2 sr.1 = true) (visible c1 now d).
Proof.
  intros Hle. unfold visible. rewrite list_filter_filter. apply list_filter_iff. intros sr.
  rewrite !andb_true_iff. pose proof (after_trans c1 c2 sr.1 Hle). tauto.
Qed.

Definition page_of (cursor : string) (limit : nat) (d : DB) (now : Z) (page : AttentionSummaryPage_) : Prop :=
  scan_all (take limit (visible cursor now d)) = inr (pg_Summaries page) ∧
  match pg_NextAfterSessionID page with
  | None => (length (visible cursor now d) ≤ limit)%nat
  | Some next => visible next now d = drop limit (visible cursor now d) ∧
                 (limit < length (visible cursor now d))%nat
  end.

Lemma take_scanned (l : list (string * attention_row)) n ss x :
  scan_all (take n l) = inr ss → last ss = Some x → ∃ r, last (take n l) = Some (sm_SessionID x, r).
Proof.
  intros Hss Hx. assert (last ((take n l).*1) = Some (sm_SessionID x)) as Hl.
  { by rewrite <-(scan_all_ids _ _ Hss), fmap_last, Hx. }
  rewrite fmap_last in Hl. destruct (last (take n l)) as [[sid r]|]; simplify_eq/=. eauto.
Qed.

Lemma fill_page_of cursor limit d now rows page at_ :
  (0 < limit)%nat → rows = take (limit + 1) (visible cursor now d) → fill_page limit [] rows = inr page →
  page_of cursor limit d now (mkPage page.1 page.2 at_).
Proof.
  intros Hpos -> Hp. set (vis := visible cursor now d) in *.
  destruct (fill_page_spec _ _ _ _ Hp) as (ss & Hss & Hp1 & Hp2); [simpl; lia|]. simpl in Hp2, Hp1.
  rewrite Nat.sub_0_r, take_take, Nat.min_l in Hss by lia. unfold page_of. simpl. rewrite Hp1. split; [done|].
  rewrite Hp2, length_take. clear Hp2. case_bool_decide as Hmore; [|unfold vis in *; lia].
  assert (limit < length vis)%nat as Hlen by lia.
  assert (length ss = limit) as Hls.
  { rewrite <-(length_fmap sm_SessionID), (scan_all_ids _ _ Hss), length_fmap, length_take. lia. }
  rewrite Hp1. destruct (last ss) as [x|] eqn:Hx; [|apply last_None in Hx; rewrite Hx in Hls; simpl in Hls; lia]. simpl.
  destruct (take_scanned _ _ _ _ Hss Hx) as [r Hr]. split; [|done].
  assert ((sm_SessionID x, r) ∈ vis) as Hin.
  { apply last_Some in Hr as [l' Hl']. rewrite <-(take_drop limit vis), Hl'. set_solver. }
  rewrite (visible_resume cursor); [|by apply visible_after, after_spec in Hin as [? _]].
  exact (resume_take fst limit vis (sm_SessionID x, r) (visible_ascending _ _ _) Hr).
Qed.

Lemma page_spec request w :
  wp (AttentionSummaryPage request)
    (λ page w', ∃ now, page_of (pr_AfterSessionID request) (Z.to_nat (pr_Limit request)) (db w) now page ∧ db w' = db w)
    (λ _ w', db w' = db w) w.
Proof.
  unfold AttentionSummaryPage, attentionMigrationPending. db_step. db_step; [done|]. db_step. db_step; [done|].
  do 2 db_step. db_step. db_step; [done|]. do 6 db_step. rewrite wp_bind, wp_lift. bool_hyps.
  match goal with |- context [fill_page ?n [] ?rows] => destruct (fill_page n [] rows) as [e|page] eqn:Hp; [done|] end.
  rewrite wp_ret. eexists. split; [|done]. eapply fill_page_of; [lia| |exact Hp].
  f_equal. lia.
Qed.

(** ** The migration ends *)

(** A Session the migration is done with: its summary is marked incomplete and
    reaches the end of its log, and no connection of it is live. *)
Definition migrated (d : DB) (sid : string) : Prop :=
  (∃ r, attention d !! sid = Some r ∧ ar_projection_state r = AttentionProjectionIncomplete ∧
        latest_seq sid d ≤ ar_latest_seq r) ∧
  ∀ c, connections d !! sid = Some c → live c = false.

(** What a turn of the loop leaves alone. *)
Definition same_sessions (d d' : DB) : Prop :=
  session_events d' = session_events d ∧ attachments d' = attachments d ∧
  dom (connections d') = dom (connections d) ∧ migration_pending d' = migration_pending d ∧
  migration_checkpoint d' = migration_checkpoint d.

Definition keeps_migrated (d d' : DB) : Prop := ∀ sid, migrated d sid → migrated d' sid.

Lemma same_sessions_trans d1 d2 d3 : same_sessions d1 d2 → same_sessions d2 d3 → same_sessions d1 d3.
Proof. intros (?&?&?&?&?) (?&?&?&?&?). repeat split; congruence. Qed.

Lemma wp_update_true sid set Q X w :
  (∀ c n, connections (db w) !! sid = Some c → Q n (set_db (upd_connections (<[sid := set c]>)) w)) →
  (connections (db w) !! sid = None → Q 0 w) → (∀ e, X e w) →
  wp (update_connection_row sid (λ _, true) set) Q X w.
Proof. intros H1 H0 HX. unfold update_connection_row. db_steps; try (by apply HX); unfold id in *; eauto. Qed.

Lemma retired_not_live now c : live (retired_row now c) = false.
Proof. done. Qed.

(** The two writes of a turn. *)
Lemma retire_spec s now w :
  StateOfProjection s = AttentionProjectionIncomplete →
  latest_seq (sm_SessionID s) (db w) ≤ Attention.LatestSeq s →
  wp (upsertSQLiteAttentionSummary s now ≫= λ _,
      update_connection_row (sm_SessionID s) (λ _, true) (retired_row now) ≫= λ _, mret tt)
    (λ _ w', same_sessions (db w) (db w') ∧ migrated (db w') (sm_SessionID s) ∧ keeps_migrated (db w) (db w'))
    (λ _ _, True) w.
Proof.
  intros Hi Hl. rewrite wp_bind. apply wp_upsert; [|done]. intros _. set (row := upserted s now (db w)).
  set (sid := sm_SessionID s) in *. rewrite wp_bind. apply wp_update_true; [| |done].
  - intros c n Hc. rewrite wp_ret. simpl in *. split_and!.
    + split_and!; simpl; try done. apply dom_insert_lookup_L. by eexists.
    + split; simpl; [exists row; by rewrite lookup_insert_eq|]. intros c'. rewrite lookup_insert_eq. intros [= <-].
      apply retired_not_live.
    + intros sid' [Hr' Hc']. destruct (decide (sid' = sid)) as [->|Hne].
      * split; simpl; [exists row; by rewrite lookup_insert_eq|]. intros c'. rewrite lookup_insert_eq. intros [= <-].
        apply retired_not_live.
      * split; simpl; by rewrite lookup_insert_ne.
  - intros Hc. rewrite wp_ret. simpl in *. split_and!; [done| |].
    + split; simpl; [exists row; by rewrite lookup_insert_eq|]. by rewrite Hc.
    + intros sid' [Hr' Hc']. split; simpl; [|done]. destruct (decide (sid' = sid)) as [->|Hne];
        [exists row; by rewrite lookup_insert_eq|by rewrite lookup_insert_ne].
Qed.

Lemma backfill_session_spec now sid w :
  wp (backfill_session now sid)
    (λ _ w', same_sessions (db w) (db w') ∧ migrated (db w') sid ∧ keeps_migrated (db w) (db w')) (λ _ _, True) w.
Proof.
  unfold backfill_session. do 2 db_step. rewrite wp_bind, wp_try, wp_load.
  destruct (attention (db w) !! sid) as [r|].
  - destruct (querySQLiteAttentionSummary sid r) as [e|s] eqn:Hs.
    + rewrite (query_summary_err _ _ _ Hs), wp_bind. by rewrite wp_throw.
    + rewrite wp_bind, wp_ret. apply query_summary_sid in Hs as <-.
      apply (retire_spec (backfilled_summary _ _ (Some s))); simpl; [done|lia].
  - simpl. rewrite wp_bind, wp_ret. apply (retire_spec (incomplete_summary _ _)); simpl; [done|lia].
Qed.

Lemma backfill_sessions_spec now sessions w :
  wp (for_each sessions (backfill_session now))
    (λ _ w', same_sessions (db w) (db w') ∧ (∀ sid, sid ∈ sessions → migrated (db w') sid) ∧
             keeps_migrated (db w) (db w')) (λ _ _, True) w.
Proof.
  revert w. induction sessions as [|sid sessions IH]; intros w; simpl.
  - rewrite wp_ret. split; [by repeat split|]. split; [|by intros ? ?]. intros sid Hin. by apply elem_of_nil in Hin.
  - rewrite wp_bind. eapply wp_mono; [apply backfill_session_spec| |done]. intros _ w1 (Hs1 & Hm1 & Hk1).
    eapply wp_mono; [apply IH| |done]. intros _ w2 (Hs2 & Hm2 & Hk2).
    split; [by eapply same_sessions_trans|]. split; [|by intros s Hs; apply Hk2, Hk1].
    intros s Hin. apply elem_of_cons in Hin as [->|Hin]; auto.
Qed.

Lemma unmigrated_same c d d' : same_sessions d d' → unmigrated c d' = unmigrated c d.
Proof. intros (He & Ha & Hc & _). unfold unmigrated, known_sessions. by rewrite He, Ha, Hc. Qed.

(** Resuming a batch of [n] Sessions from its checkpoint. *)
Lemma unmigrated_resume n checkpoint d :
  unmigrated (default checkpoint (last (take n (unmigrated checkpoint d)))) d = drop n (unmigrated checkpoint d).
Proof.
  set (todo := unmigrated checkpoint d). destruct (last (take n todo)) as [x|] eqn:Hx; simpl.
  - rewrite <-(resume_take id n todo x (unmigrated_ascending _ _) Hx). unfold todo, unmigrated.
    rewrite list_filter_filter. apply list_filter_iff. intros sid. unfold id.
    enough (String.le checkpoint x) as Hle by (pose proof (after_trans checkpoint x sid Hle); tauto).
    assert (x ∈ todo) as Hin. { apply last_Some in Hx as [l' Hl']. rewrite <-(take_drop n todo), Hl'. set_solver. }
    unfold todo, unmigrated in Hin. apply list_elem_of_filter in Hin as [Hin _]. by apply after_spec in Hin as [? _].
  - apply last_None in Hx. fold todo. destruct n as [|n]; [done|]. by destruct todo.
Qed.

(** One batch: the next [limit] Sessions are migrated, the rest is left for the
    next batch, and the last batch completes the migration. *)
Definition batch_done (limit : nat) (d d' : DB) (result : AttentionBackfillResult) : Prop :=
  let todo := unmigrated (migration_checkpoint d) d in
  migration_pending d = true ∧
  unmigrated (migration_checkpoint d') d' = drop limit todo ∧
  bf_Checkpoint result = migration_checkpoint d' ∧
  bf_Processed result = Z.of_nat (length (take limit todo)) ∧
  bf_Done result = bool_decide (length todo ≤ limit)%nat ∧
  migration_pending d' = negb (bf_Done result) ∧
  (∀ sid, sid ∈ take limit todo → migrated d' sid) ∧ keeps_migrated d d'.

Lemma batch_spec limit w :
  wp (BackfillAttentionBatch limit)
    (λ result w', batch_done (Z.to_nat limit) (db w) (db w') result) (λ _ w', db w' = db w) w.
Proof.
  unfold BackfillAttentionBatch. db_step. db_step; [done|]. rewrite wp_tx.
  eapply (wp_mono _ _ _ (λ _ _, True)); [|intros a w' Ha; exact Ha|done]. bool_hyps.
  do 2 db_step. unfold id. db_step. db_step; [done|]. db_step. db_step; [done|]. cbv zeta. do 2 db_step.
  set (todo := unmigrated _ _). rewrite take_take, Nat.min_l by lia.
  rewrite (bool_decide_ext (length (take (Z.to_nat (limit + 1)) todo) ≤ Z.to_nat limit)%nat
    (length todo ≤ Z.to_nat limit)%nat) by (rewrite length_take; lia).
  rewrite wp_bind.
  eapply wp_mono; [apply backfill_sessions_spec| |done]. simpl. intros _ w2 (Hs & Hm & Hk). bool_hyps.
  pose proof (λ c, unmigrated_same c _ _ Hs) as Hu. destruct Hs as (_ & _ & _ & Hpend & _). rewrite wp_bind.
  unfold batch_done. case_bool_decide as Hdone; rewrite wp_exec, wp_ret; cbv zeta; fold todo; split_and!; try done; simpl.
  all: try (by rewrite bool_decide_eq_true_2); try (by rewrite bool_decide_eq_false_2).
  1-2: etrans; [exact (Hu _)|apply unmigrated_resume].
  congruence.
Qed.

(** Batches until the migration reports that it is done; [false] when [fuel]
    batches were not enough. *)
Fixpoint backfill_all (fuel : nat) (limit : Z) : M bool :=
  match fuel with
  | O => mret false
  | S fuel =>
      result ← BackfillAttentionBatch limit;
      if bf_Done result then mret true else backfill_all fuel limit
  end.

Lemma backfill_all_spec (fuel : nat) limit w :
  let todo := unmigrated (migration_checkpoint (db w)) (db w) in
  (0 < fuel)%nat → Z.of_nat (length todo) ≤ Z.of_nat fuel * limit →
  wp (backfill_all fuel limit)
    (λ finished w', finished = true ∧ migration_pending (db w') = false ∧
       (∀ sid, sid ∈ todo → migrated (db w') sid) ∧ keeps_migrated (db w) (db w')) (λ _ _, True) w.
Proof.
  revert w. induction fuel as [|fuel IH]; intros w; cbv zeta; [lia|]. intros _ Hlen. cbn [backfill_all].
  set (todo := unmigrated _ _) in *. rewrite wp_bind. eapply wp_mono; [apply batch_spec| |done].
  intros result w1 (_ & Hrest & _ & _ & Hdone & Hpend & Hm & Hk). fold todo in Hrest, Hdone, Hm.
  destruct (bf_Done result); symmetry in Hdone; bool_hyps.
  - rewrite wp_ret. rewrite (take_ge todo) in Hm by done. done.
  - eapply wp_mono; [apply IH| |done].
    + destruct fuel; [|lia]. lia.
    + rewrite Hrest, length_drop. lia.
    + rewrite Hrest. intros f w2 (-> & Hp2 & Hm2 & Hk2). split_and!; [done|done| |by intros sid Hs; apply Hk2, Hk].
      intros sid Hin. rewrite <-(take_drop (Z.to_nat limit) todo), elem_of_app in Hin. destruct Hin; [|by apply Hm2].
      by apply Hk2, Hm.
Qed.

(** ** Opening the Store again

    The last statement of [init]: both fence allocators are there, belong
    together, and are ahead of every accepted fence. *)
Definition max_accepted (d : DB) : Z :=
  foldr Z.max 0 ((λ sc, cr_accepted_fence sc.2) <$> map_to_list (connections d)).

Definition fenceOK (main_id fence_id : string) (w : World) : bool :=
  bool_decide (main_id = fence_id) && bool_decide (max_accepted (db w) < next_fence (db w)) &&
  bool_decide (next_fence (db w) ≤ side_fence w).

(** [init] on a database whose fence tables exist. *)
Definition init_existing (main_id fence_id : string) : M unit :=
  w ← get;
  fail_if (negb (fenceOK main_id fence_id w)) (Err "sqlite fence store state is missing, mismatched or stale").

Lemma max_accepted_below n d :
  0 < n → map_Forall (λ _ c, cr_accepted_fence c < n) (connections d) → max_accepted d < n.
Proof.
  intros Hn Hall. unfold max_accepted. apply map_Forall_to_list in Hall. induction Hall as [|[sid c] l Hc _ IH]; [done|].
  rewrite fmap_cons. simpl in *. lia.
Qed.

Lemma reopen_ok id w : store_inv w → init_existing id id w = (w, inr tt).
Proof.
  intros Hw. pose proof (si_fence _ Hw) as [Hf _]. assert (fenceOK id id w = true) as Hok.
  { unfold fenceOK. rewrite !andb_true_iff, !bool_decide_eq_true. split_and!; [done| |lia].
    apply max_accepted_below; [lia|]. intros sid c Hc. apply (co_fence _ _ _ (si_connections _ Hw sid c Hc)). }
  unfold init_existing, mbind, SE_bind, get. by rewrite Hok.
Qed.

End AttentionPages.
