(* ===== verification/StoreOps.v ===== *)
(** * The Store as its callers drive it

    Every operation of the SQLite Store modelled here as a value, connection
    transactions with an arbitrary callback, and runs of any number of them
    from a new database.  What [Invariant] shows of each operation holds of
    every run. *)

From S2P Require Import Prelude StoreApi Json EncryptedPacket Sqlite Attention EventLog.
From S2P Require Import AttentionSpec Connections Invariant StoreSound CommandLedger AdapterDispatch RunControl.
From S2P Require Import Settings FileReferences SettingsProofs FileReferencesProofs.
From S2P Require Import Attachments WorkspaceLease AttachAttempts Fencing ProviderStart AttentionPages.
From stdpp Require Import base gmap strings list sorting.
#[local] Open Scope Z_scope.

Module StoreOps.
Import Connections.

(** ** Operations *)

(** the operations available inside a connection transaction *)
Inductive connection_op :=
  | OpInitialize (request : AdapterConnectionInitialize)
  | OpRefresh (sid : string) (refresh : AdapterCredentialPreHelloRefresh)
  | OpTerminate (sid : string) (generation : Z)
  | OpHello (sid : string) (hello : AdapterHello)
  | OpAdmission (sid : string) (admission : AdapterConnectionAdmission)
  | OpEffectAdmission (sid : string) (admission : AdapterConnectionAdmission)
  | OpReceipt (sid : string) (admission : AdapterConnectionAdmission) (writer : SettingsWriter)
  | OpPrepare (sid : string) (rotation : AdapterCredentialRotation)
  | OpActivate (sid : string) (activation : AdapterCredentialActivation)
  | OpConnection (sid : string)
  | OpWarmTarget (sid : string) (generation : Z) (expiresAt : time)
  | OpAllocate.

Inductive op :=
  | OpAppend (sid : string) (evs : list PendingEvent)
  | OpConn (o : connection_op)
  | OpAdapterAppend (sid : string) (admission : AdapterConnectionAdmission) (evs : list PendingEvent) (encrypted : bool)
  | OpCommit (sid : string) (authority : CommandAuthority) (ev : PendingEvent)
      (request : CommandLedger.PendingCommandRequest) (encrypted : bool)
  | OpList (sid : string) (authority : CommandAuthority) (encrypted : bool)
  | OpClaim (sid : string) (authority : CommandAuthority) (cmd : string) (encrypted : bool)
  | OpResolve (sid : string) (authority : CommandAuthority) (cmd status : string) (encrypted : bool)
  | OpUnknown (sid cmd : string) (encrypted : bool)
  | OpPropose (sid : string) (authority : CommandAuthority) (proposal : string) (ev : PendingEvent) (encrypted : bool)
  | OpPublish (sid : string) (update : RunControl.RunControlCapabilityUpdate)
  | OpReserve (sid : string) (request : RunControl.RunControlRequest)
  | OpFinalize (sid cmd : string) (finalize : RunControl.RunControlFinalizeRequest)
  | OpRecover (sid cmd reason : string)
  | OpControls (sid : string)
  | OpCreateAttachment (request : Attachments.AttachmentCreate)
  | OpUpdateAttachment (attachID : string) (version : Z) (update : Attachments.AttachmentUpdate)
  | OpAttachment (attachID : string)
  | OpAttachmentForTarget (sid : string)
  | OpReserveLease (reserve : WorkspaceLease.WorkspaceLeaseReserve)
  | OpStartLease (key : string) (version : Z) (owner : WorkspaceLease.WorkspaceLeaseOwner)
  | OpQuarantineLease (key : string) (version : Z)
  | OpReleaseLease (key : string) (version : Z) (owner : WorkspaceLease.WorkspaceLeaseOwner)
  | OpLease (key : string)
  | OpPublishSettings (sid : string) (update : Settings.SettingsCapabilityUpdate)
  | OpReserveSettings (sid : string) (request : Settings.SettingsCommandRequest)
  | OpAcknowledgeSettings (sid cmd : string) (version : Z) (writer : SettingsWriter)
  | OpFinalizeSettings (sid cmd : string) (finalize : Settings.SettingsCommandFinalize)
  | OpRecoverSettings (sid cmd : string) (writer : SettingsWriter)
  | OpGetSettings (sid cmd : string)
  | OpPendingSettings (sid : string)
  | OpPublishFiles (sid : string) (update : FileReferences.FileReferenceCapabilityUpdate)
  | OpCommitFile (sid : string) (message : PendingEvent) (request : FileReferences.FileReferenceCommandRequest)
  | OpAcknowledgeFile (sid cmd : string) (version : Z) (writer : SettingsWriter)
  | OpFinalizeFile (sid cmd : string) (finalize : FileReferences.FileReferenceCommandFinalize)
  | OpRecoverFile (sid cmd reason : string)
  | OpPendingFiles (sid : string)
  | OpCommitAttempt (request : AttachAttempts.AttachAttemptRequest)
  | OpAttempt (jti : string)
  | OpWarmAttach (request : AttachAttempts.WarmAttachRequest)
  | OpExpireWarmAttach (attachID : string) (version : Z)
  | OpProviderStart (request : ProviderStart.ProviderStartAdmission) (callback : option (error + unit))
  | OpSnapshot (ids : list string)
  | OpPage (request : AttentionPages.AttentionSummaryPageRequest)
  | OpBackfill (limit : Z).

Inductive reply :=
  | RDone
  | RSeq (seq : Z)
  | RFence (fence : Z)
  | RConnection (connection : AdapterConnection)
  | RReceipt (receipt : ConnectionAuthorityReceipt)
  | RCommit (commit : CommandLedger.PendingCommandCommit)
  | RCommands (commands : list CommandLedger.PendingCommand)
  | RClaim (claim : CommandLedger.PendingCommandClaim)
  | RCommand (command : CommandLedger.PendingCommand)
  | RProposed (receipt : CommandLedger.ProposedEventReceipt)
  | RCapability (capability : RunControl.RunControlCapability)
  | RReserve (reserve : RunControl.RunControlReserveResult)
  | RReservation (reservation : RunControl.RunControlReservation)
  | RReservations (reservations : list RunControl.RunControlReservation)
  | RAttachmentCommit (commit : Attachments.AttachmentCommit)
  | RMutation (mutation : Attachments.AttachmentMutation)
  | RAttachment (attachment : Attachments.Attachment)
  | RLease (lease : WorkspaceLease.WorkspaceLease)
  | RSettingsCapability (capability : Settings.SettingsCapability)
  | RSettingsReserve (result : Settings.SettingsCommandReserveResult)
  | RSettings (command : Settings.SettingsCommand)
  | RSettingsList (commands : list Settings.SettingsCommand)
  | RFileCapability (capability : FileReferences.FileReferenceCapability)
  | RFileCommit (commit : FileReferences.FileReferenceCommandReserve)
  | RFile (command : FileReferences.FileReferenceCommand)
  | RFiles (commands : list FileReferences.FileReferenceCommand)
  | RAttemptCommit (commit : AttachAttempts.AttachAttemptCommit)
  | RAttempt (attempt : AttachAttempts.AttachAttempt)
  | RWarm (commit : AttachAttempts.WarmAttachCommit)
  | RExpiry (expiry : AttachAttempts.WarmAttachExpiry)
  | RSummaries (summaries : list Attention.SessionAttentionSummary)
  | RPage (page : AttentionPages.AttentionSummaryPage_)
  | RBackfill (result : AttentionPages.AttentionBackfillResult).

Definition as_reply {A} (f : A → reply) (m : M A) : M reply := a ← m; mret (f a).

Definition exec_connection (tx : bool) (o : connection_op) : M reply :=
  match o with
  | OpInitialize request => as_reply RConnection (InitializeAdapterConnection tx request)
  | OpRefresh sid refresh => as_reply RConnection (RefreshAdapterCredentialBeforeHello tx sid refresh)
  | OpTerminate sid g => as_reply RConnection (TerminateAdapterConnectionBeforeHello tx sid g)
  | OpHello sid hello => as_reply RConnection (AcceptAdapterHello tx sid hello)
  | OpAdmission sid adm => as_reply RConnection (ValidateAdapterAdmission tx sid adm)
  | OpEffectAdmission sid adm => as_reply RConnection (AdapterDispatch.ValidateAdapterEffectAdmission tx sid adm)
  | OpReceipt sid adm writer => as_reply RReceipt (IssueAdapterConnectionAuthorityReceipt tx sid adm writer)
  | OpPrepare sid rotation => as_reply RConnection (PrepareAdapterCredentialRotation tx sid rotation)
  | OpActivate sid activation => as_reply RConnection (ActivateAdapterCredential tx sid activation)
  | OpConnection sid => as_reply RConnection (GetAdapterConnection sid)
  | OpWarmTarget sid g e => as_reply (λ _, RDone) (ValidateWarmAttachTargetActivation sid g e)
  | OpAllocate => as_reply RFence AllocateAdapterGrantFence
  end.

Definition exec_op (o : op) : M reply :=
  match o with
  | OpAppend sid evs => as_reply RSeq (EventLog.Append sid evs)
  | OpConn o => exec_connection false o
  | OpAdapterAppend sid adm evs enc => as_reply RSeq (AdapterDispatch.appendAdapterEvents sid adm evs enc)
  | OpCommit sid auth ev rq enc => as_reply RCommit (CommandLedger.commitPendingCommand sid auth ev rq enc)
  | OpList sid auth enc => as_reply RCommands (CommandLedger.listPendingCommands sid auth enc)
  | OpClaim sid auth cmd enc => as_reply RClaim (CommandLedger.claimPendingCommand sid auth cmd enc)
  | OpResolve sid auth cmd st enc => as_reply RCommand (CommandLedger.resolvePendingCommand sid auth cmd st enc)
  | OpUnknown sid cmd enc => as_reply RCommand (CommandLedger.resolvePendingCommandUnknown sid cmd enc)
  | OpPropose sid auth id ev enc => as_reply RProposed (CommandLedger.commitProposedEvent sid auth id ev enc)
  | OpPublish sid u => as_reply RCapability (RunControl.PublishRunControlCapability sid u)
  | OpReserve sid rq => as_reply RReserve (RunControl.RunControlReserve sid rq)
  | OpFinalize sid cmd f => as_reply RReservation (RunControl.RunControlFinalize sid cmd f)
  | OpRecover sid cmd reason => as_reply RReservation (RunControl.RecoverRunControl sid cmd reason)
  | OpControls sid => as_reply RReservations (RunControl.PendingRunControls sid)
  | OpCreateAttachment rq => as_reply RAttachmentCommit (Attachments.CreateAttachment rq)
  | OpUpdateAttachment id v u => as_reply RMutation (Attachments.UpdateAttachment id v u)
  | OpAttachment id => as_reply RAttachment (Attachments.GetAttachment id)
  | OpAttachmentForTarget sid => as_reply RAttachment (Attachments.AttachmentForTarget sid)
  | OpReserveLease rq => as_reply RLease (WorkspaceLease.ReserveWorkspaceLease rq)
  | OpStartLease key v owner => as_reply RLease (WorkspaceLease.RecordWorkspaceStartReceived key v owner)
  | OpQuarantineLease key v => as_reply RLease (WorkspaceLease.QuarantineWorkspaceLease key v)
  | OpReleaseLease key v owner => as_reply RLease (WorkspaceLease.ReleaseWorkspaceLeaseAfterQuiescence key v owner)
  | OpLease key => as_reply RLease (WorkspaceLease.GetWorkspaceLease key)
  | OpPublishSettings sid u => as_reply RSettingsCapability (Settings.PublishSettingsCapability sid u)
  | OpReserveSettings sid rq => as_reply RSettingsReserve (Settings.SettingsCommandReserve sid rq)
  | OpAcknowledgeSettings sid cmd v wr => as_reply RSettings (Settings.AcknowledgeSettingsCommandDelivery sid cmd v wr)
  | OpFinalizeSettings sid cmd f => as_reply RSettings (Settings.FinalizeSettingsCommand sid cmd f)
  | OpRecoverSettings sid cmd wr => as_reply RSettings (Settings.RecoverSettingsCommand sid cmd wr)
  | OpGetSettings sid cmd => as_reply RSettings (Settings.GetSettingsCommand sid cmd)
  | OpPendingSettings sid => as_reply RSettingsList (Settings.PendingSettingsCommands sid)
  | OpPublishFiles sid u => as_reply RFileCapability (FileReferences.PublishFileReferenceCapability sid u)
  | OpCommitFile sid msg rq => as_reply RFileCommit (FileReferences.CommitFileReferenceCommand sid msg rq)
  | OpAcknowledgeFile sid cmd v wr => as_reply RFile (FileReferences.AcknowledgeFileReferenceDelivery sid cmd v wr)
  | OpFinalizeFile sid cmd f => as_reply RFile (FileReferences.FinalizeFileReferenceCommand sid cmd f)
  | OpRecoverFile sid cmd reason => as_reply RFile (FileReferences.RecoverFileReferenceCommand sid cmd reason)
  | OpPendingFiles sid => as_reply RFiles (FileReferences.PendingFileReferenceCommands sid)
  | OpCommitAttempt rq => as_reply RAttemptCommit (AttachAttempts.CommitAttachAttempt rq)
  | OpAttempt jti => as_reply RAttempt (AttachAttempts.GetAttachAttempt jti)
  | OpWarmAttach rq => as_reply RWarm (AttachAttempts.CommitWarmAttach rq)
  | OpExpireWarmAttach id v => as_reply RExpiry (AttachAttempts.ExpireWarmAttach id v)
  | OpProviderStart rq cb =>
      as_reply RLease (ProviderStart.WithProviderStartAdmission rq (ProviderStart.outcome_of cb))
  | OpSnapshot ids => as_reply RSummaries (AttentionPages.AttentionSnapshot ids)
  | OpPage rq => as_reply RPage (AttentionPages.AttentionSummaryPage rq)
  | OpBackfill limit => as_reply RBackfill (AttentionPages.BackfillAttentionBatch limit)
  end.

(** ** Transactions with a callback

    [WithAdapterConnectionTransaction(ctx, fn)]: [fn] performs operations one
    by one, sees each result, and in the end returns nil or an error. *)
Inductive script :=
  | Return (ok : bool)
  | Do (o : connection_op) (k : error + reply → script).

Definition output : Type := op * (error + reply).

Fixpoint run_script (s : script) (w : World) : World * (bool * list output) :=
  match s with
  | Return ok => (w, (ok, []))
  | Do o k =>
      let '(w1, r) := exec_connection true o w in
      let '(w2, (ok, outs)) := run_script (k r) w1 in
      (w2, (ok, (OpConn o, r) :: outs))
  end.

Inductive call := Call (o : op) | Transaction (fn : script).

Definition run_call (c : call) (w : World) : World * list output :=
  match c with
  | Call o => let '(w', r) := exec_op o w in (w', [(o, r)])
  | Transaction fn =>
      let '(w', (ok, outs)) := run_script fn w in
      (if ok then w' else mkWorld (db w) (side_fence w') (clock w') (tick w'), outs)
  end.

Fixpoint run (calls : list call) (w : World) : World * list output :=
  match calls with
  | [] => (w, [])
  | c :: calls =>
      let '(w1, outs1) := run_call c w in
      let '(w2, outs2) := run calls w1 in
      (w2, outs1 ++ outs2)
  end.

(** ** Every run is a step *)

Import Invariant StoreSound.

Lemma sound_as_reply {A} (f : A → reply) (m : M A) : sound m → sound (as_reply f m).
Proof. intros Hm. apply sound_bind; [done|]. intros a. apply sound_ret. Qed.

Lemma sound_exec_connection tx o : sound (exec_connection tx o).
Proof.
  destruct o; apply sound_as_reply.
  all: first
    [ apply sound_Initialize | apply sound_Refresh | apply sound_Terminate | apply sound_AcceptAdapterHello
    | apply sound_ValidateAdmission | apply AdapterDispatch.sound_ValidateAdapterEffectAdmission
    | apply sound_IssueReceipt | apply sound_PrepareRotation | apply sound_Activate
    | apply sound_GetAdapterConnection | apply sound_ValidateWarmAttach | apply sound_AllocateAdapterGrantFence ].
Qed.

Lemma sound_exec_op o : sound (exec_op o).
Proof.
  destruct o; try apply sound_exec_connection; apply sound_as_reply.
  - apply sound_Append.
  - apply AdapterDispatch.sound_appendAdapterEvents.
  - apply CommandLedger.sound_commitPendingCommand.
  - apply CommandLedger.sound_listPendingCommands.
  - apply CommandLedger.sound_claimPendingCommand.
  - apply CommandLedger.sound_resolvePendingCommand.
  - apply CommandLedger.sound_resolvePendingCommandUnknown.
  - apply CommandLedger.sound_commitProposedEvent.
  - apply RunControl.sound_PublishRunControlCapability.
  - apply RunControl.sound_RunControlReserve.
  - apply RunControl.sound_RunControlFinalize.
  - apply RunControl.sound_RecoverRunControl.
  - apply RunControl.sound_PendingRunControls.
  - apply Attachments.sound_CreateAttachment.
  - apply Attachments.sound_UpdateAttachment.
  - apply sound_on_error, Attachments.sound_queryAttachment.
  - apply sound_on_error, Attachments.sound_queryAttachment.
  - apply WorkspaceLease.sound_ReserveWorkspaceLease.
  - apply WorkspaceLease.sound_updateLease.
  - apply WorkspaceLease.sound_updateLease.
  - apply WorkspaceLease.sound_updateLease.
  - apply WorkspaceLease.sound_GetWorkspaceLease.
  - apply SettingsProofs.sound_PublishSettingsCapability.
  - apply SettingsProofs.sound_SettingsCommandReserve.
  - apply SettingsProofs.sound_AcknowledgeSettings.
  - apply SettingsProofs.sound_FinalizeSettings.
  - apply SettingsProofs.sound_RecoverSettings.
  - apply SettingsProofs.sound_GetSettings.
  - apply SettingsProofs.sound_PendingSettings.
  - apply FileReferencesProofs.sound_PublishFileCapability.
  - apply FileReferencesProofs.sound_CommitFile.
  - apply FileReferencesProofs.sound_AcknowledgeFile.
  - apply FileReferencesProofs.sound_FinalizeFile.
  - apply FileReferencesProofs.sound_RecoverFile.
  - apply FileReferencesProofs.sound_PendingFiles.
  - apply AttachAttempts.sound_CommitAttachAttempt.
  - apply AttachAttempts.sound_GetAttachAttempt.
  - apply AttachAttempts.sound_CommitWarmAttach.
  - apply AttachAttempts.sound_ExpireWarmAttach.
  - apply ProviderStart.sound_WithProviderStartAdmission. intros m Hm.
    apply fmap_Some in Hm as (r & _ & ->). apply sound_lift.
  - apply AttentionPages.sound_AttentionSnapshot.
  - apply AttentionPages.sound_AttentionSummaryPage.
  - apply AttentionPages.sound_BackfillAttentionBatch.
Qed.

Lemma sound_run {A} (m : M A) w : sound m → store_inv w → stepped w (m w).1.
Proof.
  intros Hm Hw. specialize (Hm w Hw). unfold wp in Hm. by destruct (m w) as [w' [e|a]].
Qed.

Lemma script_stepped s w : store_inv w → stepped w (run_script s w).1.
Proof.
  revert w. induction s as [ok|o k IH]; intros w Hw; simpl; [by apply stepped_refl|].
  pose proof (sound_run _ w (sound_exec_connection true o) Hw) as Hstep.
  destruct (exec_connection true o w) as [w1 r]. specialize (IH r w1 (proj1 Hstep)).
  destruct (run_script (k r) w1) as [w2 [ok outs]]. by eapply stepped_trans.
Qed.

Lemma call_stepped c w : store_inv w → stepped w (run_call c w).1.
Proof.
  intros Hw. destruct c as [o|s]; simpl.
  - pose proof (sound_run _ w (sound_exec_op o) Hw) as Hstep. by destruct (exec_op o w).
  - pose proof (script_stepped s w Hw) as Hstep. destruct (run_script s w) as [w' [[] outs]]; [done|].
    apply step_rollback; [done|]. by apply out_stepped.
Qed.

Lemma run_stepped calls w : store_inv w → stepped w (run calls w).1.
Proof.
  revert w. induction calls as [|c calls IH]; intros w Hw; simpl; [by apply stepped_refl|].
  pose proof (call_stepped c w Hw) as Hstep. destruct (run_call c w) as [w1 outs1].
  specialize (IH w1 (proj1 Hstep)). destruct (run calls w1). by eapply stepped_trans.
Qed.

End StoreOps.
