(* ===== verification/StoreProperties.v ===== *)
(** * What every run of the SQLite Store keeps

    The properties here hold of every sequence of operations and connection
    transactions that starts from a new database, whatever the clock shows and
    whichever of the calls fail or are rolled back. *)

From S2P Require Import Prelude StoreApi Json EncryptedPacket Sqlite Attention EventLog.
From S2P Require Import AttentionSpec Connections Invariant StoreSound CommandLedger AdapterDispatch RunControl.
From S2P Require Import Settings FileReferences SettingsProofs FileReferencesProofs.
From S2P Require Import Attachments WorkspaceLease AttachAttempts Fencing ProviderStart AttentionPages StoreOps.
From stdpp Require Import base gmap strings list sorting.
#[local] Open Scope Z_scope.

Module StoreProperties.
Import Connections Invariant StoreOps.

Lemma run_app calls more w :
  run (calls ++ more) w = let '(w1, outs1) := run calls w in
                          let '(w2, outs2) := run more w1 in (w2, outs1 ++ outs2).
Proof.
  revert w. induction calls as [|c calls IH]; intros w; simpl; [by destruct (run more w)|].
  destruct (run_call c w) as [w1 outs1]. rewrite IH. destruct (run calls w1) as [w2 outs2].
  destruct (run more w2). by rewrite app_assoc.
Qed.

(** The state after [calls] on a new database. *)
Definition state_after (clk : nat → Z) (calls : list call) : World := (run calls (new_world clk)).1.

Lemma state_after_inv clk calls : store_inv (state_after clk calls).
Proof. apply run_stepped, new_world_inv. Qed.

Lemma state_after_more clk calls more : stepped (state_after clk calls) (state_after clk (calls ++ more)).
Proof.
  unfold state_after. rewrite run_app.
  pose proof (run_stepped more (run calls (new_world clk)).1 (state_after_inv clk calls)) as Hstep.
  destruct (run calls (new_world clk)) as [w1 outs1]. simpl in *. by destruct (run more w1).
Qed.

Lemma evolves_lookup {K V} `{Countable K} (R : V → V → Prop) (m m' : gmap K V) k v :
  table_evolves R m m' → m !! k = Some v → ∃ v', m' !! k = Some v' ∧ R v v'.
Proof. intros Hm. apply Hm. Qed.

(** ** The invariant *)

(** C1: Every reachable state of the Store is consistent.  Whatever operations
    and transactions run, on success and on failure, each Session's log is
    dense, complete attention summaries agree with it, connections satisfy the
    schema's checks and hold fences the allocator gave out, and every command
    and proposal refers to an event of its Session. *)
Theorem reachable_states_are_consistent clk calls : store_inv (state_after clk calls).
Proof. apply state_after_inv. Qed.

(** ** The log *)

(** C7: The event log is append-only and dense.  What a Session's log holds at
    one point of a run is a prefix of what it holds at any later point, and the
    sequence numbers are always 1, 2, 3, ... without a gap. *)
Theorem log_is_append_only_and_dense clk calls more sid :
  session_rows sid (db (state_after clk calls)) `prefix_of` session_rows sid (db (state_after clk (calls ++ more))) ∧
  er_seq <$> session_rows sid (db (state_after clk calls))
    = seqZ 1 (Z.of_nat (length (session_rows sid (db (state_after clk calls))))).
Proof.
  split; [apply (ev_log _ _ (proj2 (state_after_more clk calls more)))|].
  destruct (si_log _ (state_after_inv clk calls) sid) as [Hseq _].
  apply list_eq. intros i. rewrite list_lookup_fmap.
  destruct (session_rows sid _ !! i) as [r|] eqn:Hr; simpl.
  - rewrite (Hseq i r Hr). symmetry. apply lookup_seqZ. apply lookup_lt_Some in Hr. lia.
  - symmetry. apply lookup_seqZ_ge. apply lookup_ge_None in Hr. lia.
Qed.

(** ** Fences *)

(** The fence an operation that succeeded gave out. *)
Definition issued (out : output) : option Z :=
  match out with
  | (OpConn OpAllocate, inr (RFence fence)) => Some fence
  | (OpConn (OpHello _ _), inr (RConnection c)) => Some (ac_AcceptedFence c)
  | (OpConn (OpActivate _ _), inr (RConnection c)) => Some (ac_AcceptedFence c)
  | _ => None
  end.

(** The fences given out between two states: increasing, from the allocator. *)
Definition fences_between (lo : Z) (fences : list Z) (hi : Z) : Prop :=
  StronglySorted Z.lt fences ∧ Forall (λ f, lo ≤ f < hi) fences ∧ lo ≤ hi.

Lemma fences_between_app lo fs mid gs hi :
  fences_between lo fs mid → fences_between mid gs hi → fences_between lo (fs ++ gs) hi.
Proof.
  intros (Hs & Hf & Hle) (Hs' & Hg & Hle'). split; [|split; [|lia]].
  - induction fs as [|f fs IH]; [done|]. inversion Hs; subst. inversion Hf; subst. simpl.
    constructor; [auto|]. apply Forall_app. split; [done|].
    eapply Forall_impl; [exact Hg|]. simpl. lia.
  - apply Forall_app. split; (eapply Forall_impl; [eassumption|]); simpl; lia.
Qed.

Lemma fences_between_nil lo hi : lo ≤ hi → fences_between lo [] hi.
Proof. intros. split; [constructor|]. split; [constructor|done]. Qed.

Lemma fences_between_one lo f hi : lo ≤ f < hi → fences_between lo [f] hi.
Proof. intros. split; [repeat constructor|]. split; [by apply Forall_singleton|lia]. Qed.

Lemma as_reply_run {A} (f : A → reply) (m : M A) w w' res :
  as_reply f m w = (w', res) →
  ∃ r, m w = (w', r) ∧ res = match r with inl e => inl e | inr a => inr (f a) end.
Proof.
  unfold as_reply, mbind, SE_bind. destruct (m w) as [w1 [e|a]]; intros [= <- <-]; eauto.
Qed.

Lemma as_reply_inv {A} (f : A → reply) (m : M A) w w' r :
  as_reply f m w = (w', inr r) → ∃ a, m w = (w', inr a) ∧ r = f a.
Proof. intros ([e|a] & Hm & [= ->])%as_reply_run. eauto. Qed.

Lemma exec_connection_issues tx o w : store_inv w →
  fences_between (side_fence w) (omap issued [(OpConn o, (exec_connection tx o w).2)])
    (side_fence (exec_connection tx o w).1).
Proof.
  intros Hw. pose proof (sound_run _ w (sound_exec_connection tx o) Hw) as [_ Hev].
  apply ev_side in Hev. destruct (exec_connection tx o w) as [w' r] eqn:Hx. simpl in *.
  destruct r as [e|r]; [destruct o; by apply fences_between_nil|].
  destruct o; try (by apply fences_between_nil); apply as_reply_inv in Hx as (a & Hx & ->); simpl.
  - destruct (wp_elim _ _ _ _ _ _ (Fencing.hello_refenced tx sid hello w Hw) Hx)
      as (c & now & _ & _ & _ & -> & ->). apply fences_between_one. simpl. lia.
  - destruct (Fencing.activate_refenced tx sid activation w Hw) as (wher & _ & H).
    destruct (wp_elim _ _ _ _ _ _ H Hx) as (c & now & _ & _ & _ & -> & ->).
    apply fences_between_one. simpl. lia.
  - pose proof (StoreSound.wp_allocate_sync w w (λ f w', f = side_fence w ∧ side_fence w' = side_fence w + 1)
      (stepped_refl _ Hw)) as H.
    destruct (wp_elim _ _ _ _ _ _ (H (λ _ _, conj eq_refl eq_refl)) Hx) as [-> ->].
    apply fences_between_one. lia.
Qed.

Lemma script_issues s w : store_inv w →
  fences_between (side_fence w) (omap issued (run_script s w).2.2) (side_fence (run_script s w).1).
Proof.
  revert w. induction s as [ok|o k IH]; intros w Hw; simpl; [by apply fences_between_nil|].
  pose proof (exec_connection_issues true o w Hw) as Ho.
  pose proof (sound_run _ w (sound_exec_connection true o) Hw) as [Hw1 _].
  destruct (exec_connection true o w) as [w1 r]. specialize (IH r w1 Hw1).
  destruct (run_script (k r) w1) as [w2 [ok outs]].
  pose proof (fences_between_app _ _ _ _ _ Ho IH) as H. rewrite <-omap_app in H. exact H.
Qed.

Lemma call_issues c w : store_inv w →
  fences_between (side_fence w) (omap issued (run_call c w).2) (side_fence (run_call c w).1).
Proof.
  intros Hw. destruct c as [o|s]; simpl.
  - pose proof (ev_side _ _ (proj2 (sound_run _ w (sound_exec_op o) Hw))) as Hev.
    destruct o.
    2: { pose proof (exec_connection_issues false o w Hw) as Ho. simpl exec_op.
         by destruct (exec_connection false o w). }
    all: destruct (exec_op _ _); by apply fences_between_nil.
  - pose proof (script_issues s w Hw) as Ho. by destruct (run_script s w) as [w' [[] outs]].
Qed.

Lemma run_issues calls w : store_inv w →
  fences_between (side_fence w) (omap issued (run calls w).2) (side_fence (run calls w).1).
Proof.
  revert w. induction calls as [|c calls IH]; intros w Hw; simpl; [by apply fences_between_nil|].
  pose proof (call_issues c w Hw) as Hc. pose proof (call_stepped c w Hw) as [Hw1 _].
  destruct (run_call c w) as [w1 outs1]. specialize (IH w1 Hw1). destruct (run calls w1) as [w2 outs2].
  simpl. rewrite omap_app. by eapply fences_between_app.
Qed.

(** C6: A fence is issued once.  Over a whole run the fences handed out by
    grants, hellos and credential activations strictly increase, also when the
    transaction that allocated one was rolled back afterwards. *)
Theorem issued_fences_strictly_increase clk calls :
  StronglySorted Z.lt (omap issued (run calls (new_world clk)).2).
Proof. apply (run_issues calls (new_world clk) (new_world_inv clk)). Qed.

(** ** Authority *)

Lemma connection_later clk calls more sid c :
  connections (db (state_after clk calls)) !! sid = Some c →
  ∃ c', connections (db (state_after clk (calls ++ more))) !! sid = Some c' ∧ row_evolves c c'.
Proof. apply (ev_connections _ _ (proj2 (state_after_more clk calls more))). Qed.

(** Admission fails, and nothing is appended under it. *)
Definition powerless (sid : string) (adm : AdapterConnectionAdmission) (w : World) : Prop :=
  (∀ tx, ∃ e, (ValidateAdapterAdmission tx sid adm w).2 = inl e) ∧
  (∀ evs encrypted, ∃ e w', AdapterDispatch.appendAdapterEvents sid adm evs encrypted w = (w', inl e) ∧ db w' = db w).

Lemma inadmissible_powerless sid adm c w :
  connections (db w) !! sid = Some c → ¬ Fencing.admissible adm c → powerless sid adm w.
Proof.
  intros Hc Hn. split.
  - intros tx. apply Fencing.wp_false_fails. by eapply Fencing.inadmissible.
  - intros evs encrypted. pose proof (Fencing.append_needs sid adm evs encrypted w) as H. unfold wp in H.
    destruct (AdapterDispatch.appendAdapterEvents _ _ _ _ w) as [w' [e|a]]; [by eauto|].
    destruct H as (c' & Hc' & Ha). by simplify_eq.
Qed.

(** C2: A superseded adapter is powerless for good.  Once a Session's
    connection has accepted a fence, an admission carrying a smaller one, from
    before a later hello or credential activation, is refused in every state
    the Store can reach afterwards, and appending events under it stores
    nothing. *)
Theorem superseded_admission_is_powerless clk calls more sid c adm :
  connections (db (state_after clk calls)) !! sid = Some c →
  ad_AcceptedFence adm < cr_accepted_fence c →
  powerless sid adm (state_after clk (calls ++ more)).
Proof.
  intros Hc Hlt. destruct (connection_later clk calls more sid c Hc) as (c' & Hc' & Hev).
  apply (inadmissible_powerless _ _ c'); [done|]. intros (_ & Hf & _). pose proof (re_fence _ _ Hev). lia.
Qed.

(** A dead connection does not come back.  After a Session's connection
    was revoked or terminated, every later hello and every admission fails, in
    every state the Store can reach. *)
Theorem dead_connection_stays_dead clk calls more sid c :
  connections (db (state_after clk calls)) !! sid = Some c → live c = false →
  let w := state_after clk (calls ++ more) in
  (∀ adm, powerless sid adm w) ∧ (∀ tx hello, ∃ e, (AcceptAdapterHello tx sid hello w).2 = inl e).
Proof.
  intros Hc Hdead w; subst w. destruct (connection_later clk calls more sid c Hc) as (c' & Hc' & Hev).
  pose proof (re_live _ _ Hev Hdead) as Hdead'. split.
  - intros adm. apply (inadmissible_powerless _ _ c'); [done|]. intros [Hl _]. congruence.
  - intros tx hello. apply Fencing.wp_false_fails.
    eapply wp_mono; [apply Fencing.hello_refenced, state_after_inv| |done].
    intros conn w2 (c2 & now & Hc2 & Hwh & _). unfold Fencing.hello_admits in Hwh. bool_hyps.
    rewrite Hc' in Hc2. injection Hc2 as ->. congruence.
Qed.

(** ** Commands *)

(** The output of a claim of [(sid, cmd)] that was granted. *)
Definition grants_claim (sid cmd : string) (out : output) : bool :=
  match out with
  | (OpClaim sid' _ cmd' _, inr (RClaim claim)) =>
      bool_decide (sid' = sid) && bool_decide (cmd' = cmd) && CommandLedger.Claimed claim
  | _ => false
  end.

Definition taken (sid cmd : string) (w : World) : Prop :=
  ∃ r, pending_commands (db w) !! (sid, cmd) = Some r ∧ pc_status r ≠ "pending".

Lemma taken_later sid cmd w w' : evolves w w' → taken sid cmd w → taken sid cmd w'.
Proof.
  intros Hev (r & Hr & Hst). destruct (ev_commands _ _ Hev _ _ Hr) as (r' & Hr' & Hc).
  exists r'. split; [done|]. destruct (ce_status _ _ Hc) as [<-|[[? _]|[_ Hin]]]; [done|done|].
  intros Heq. rewrite Heq in Hin. set_solver.
Qed.

(** ** What happens at most once

    [happens] marks the outputs of interest and [finished] the states in which the
    thing has been done.  If being done lasts, and a call's output is marked
    only when it was not done before and is done afterwards, then a run has at
    most one marked output. *)
Section once.
Context (happens : output → bool) (finished : World → Prop).
Hypothesis finished_lasts : ∀ w w', evolves w w' → finished w → finished w'.
Hypothesis op_finishes : ∀ o w, store_inv w → happens (o, (exec_op o w).2) = true →
  ¬ finished w ∧ finished (exec_op o w).1.
Hypothesis not_connection : ∀ o r, happens (OpConn o, r) = false.

Lemma script_nothing s w out : out ∈ (run_script s w).2.2 → happens out = false.
Proof.
  revert w. induction s as [ok|o k IH]; intros w; simpl; [by intros ?%elem_of_nil|].
  destruct (exec_connection true o w) as [w1 r]. specialize (IH r w1).
  destruct (run_script (k r) w1) as [w2 [ok outs]]. intros [->|Hin]%elem_of_cons; auto.
Qed.

Lemma call_happens c w out : store_inv w →
  out ∈ (run_call c w).2 → happens out = true →
  (run_call c w).2 = [out] ∧ ¬ finished w ∧ finished (run_call c w).1.
Proof.
  intros Hw. destruct c as [o|s]; simpl.
  - pose proof (op_finishes o w Hw) as Ho. destruct (exec_op o w) as [w' r]. simpl in *.
    intros ->%list_elem_of_singleton Hh. by destruct (Ho Hh).
  - intros Hin Hh. exfalso. pose proof (script_nothing s w out) as Hs.
    destruct (run_script s w) as [w' [ok outs]]. by rewrite Hs in Hh.
Qed.

Lemma filter_nil_none l : (∀ x, x ∈ l → happens x = false) → List.filter happens l = [].
Proof.
  induction l as [|x l IH]; intros Hf; simpl; [done|]. rewrite Hf by constructor.
  apply IH. intros y Hy. apply Hf. by constructor.
Qed.

Lemma happens_once calls w : store_inv w →
  (length (List.filter happens (run calls w).2) ≤ 1)%nat ∧
  (finished w → List.filter happens (run calls w).2 = []).
Proof.
  revert w. induction calls as [|c calls IH]; intros w Hw; simpl; [split; [lia|done]|].
  pose proof (call_stepped c w Hw) as [Hw1 Hev]. pose proof (λ out, call_happens c w out Hw) as Hg.
  destruct (run_call c w) as [w1 outs1]. simpl in *. destruct (IH w1 Hw1) as [Hle Hnil].
  destruct (run calls w1) as [w2 outs2]. simpl in *. rewrite List.filter_app, length_app.
  destruct (decide (Exists (λ out, happens out = true) outs1)) as [Hex|Hno].
  - apply Exists_exists in Hex as (out & Hin & Hout). destruct (Hg out Hin Hout) as (-> & Hnt & Ht).
    rewrite Hnil by done. simpl. rewrite Hout. simpl. split; [lia|done].
  - rewrite (filter_nil_none outs1); [split; [done|]|].
    + intros Ht. apply Hnil. by eapply finished_lasts.
    + intros out Hin. destruct (happens out) eqn:Hout; [|done].
      destruct Hno. apply Exists_exists. eauto.
Qed.
End once.

(** A claim is granted only for a command nobody has, and then it is taken. *)
Lemma claim_takes sid cmd o w :
  grants_claim sid cmd (o, (exec_op o w).2) = true → ¬ taken sid cmd w ∧ taken sid cmd (exec_op o w).1.
Proof.
  intros Hg. destruct (exec_op o w) as [w' r] eqn:Hx. simpl in *.
  destruct o; try done. destruct r as [e|r]; [done|].
  apply as_reply_inv in Hx as (a & Hx & ->). simpl in Hg. bool_hyps. subst.
  destruct (wp_elim _ _ _ _ _ _ (CommandLedger.claim_spec _ _ _ _ _) Hx) as (r & Hr & Hc).
  destruct (CommandLedger.Claimed a); [|done]. destruct Hc as (Hst & now & Hr').
  split; [intros (r2 & ? & ?); congruence|]. by exists (CommandLedger.set_command_status "received" now r).
Qed.

(** A command is handed to at most one adapter.  Over a whole run, at most
    one claim of a given command of a Session is granted; every other claim is
    refused or told the command was already received. *)
Theorem command_is_claimed_at_most_once clk calls sid cmd :
  (length (List.filter (grants_claim sid cmd) (run calls (new_world clk)).2) ≤ 1)%nat.
Proof.
  apply (happens_once _ (taken sid cmd)); [apply taken_later|intros o w _; apply claim_takes|done|apply new_world_inv].
Qed.

(** ** Run controls *)

(** A run control's outcome is never revised.  Once an interrupt or stop
    has left the pending status, its row (status, reason, terminal event,
    timestamps) is the same in every state the Store can reach afterwards. *)
Theorem run_control_outcome_is_final clk calls more sid cmd r :
  run_controls (db (state_after clk calls)) !! (sid, cmd) = Some r → rc_status r ≠ "pending" →
  run_controls (db (state_after clk (calls ++ more))) !! (sid, cmd) = Some r.
Proof.
  intros Hr Hst. destruct (ev_controls _ _ (proj2 (state_after_more clk calls more)) _ _ Hr) as (r' & Hr' & Hc).
  by rewrite Hr', (cv_final _ _ Hc Hst).
Qed.

Definition finalizes (sid cmd : string) (out : output) : bool :=
  match out with
  | (OpFinalize sid' cmd' _, inr (RReservation _)) | (OpRecover sid' cmd' _, inr (RReservation _)) =>
      bool_decide (sid' = sid) && bool_decide (cmd' = cmd)
  | _ => false
  end.

Definition concluded (sid cmd : string) (w : World) : Prop :=
  ∃ r, run_controls (db w) !! (sid, cmd) = Some r ∧ rc_status r ≠ "pending".

Lemma concluded_later sid cmd w w' : evolves w w' → concluded sid cmd w → concluded sid cmd w'.
Proof.
  intros Hev (r & Hr & Hst). destruct (ev_controls _ _ Hev _ _ Hr) as (r' & Hr' & Hc).
  exists r'. by rewrite (cv_final _ _ Hc Hst) in *.
Qed.

Lemma finalize_concludes sid cmd f w w' reservation :
  RunControl.RunControlFinalize sid cmd f w = (w', inr reservation) →
  ¬ concluded sid cmd w ∧ concluded sid cmd w'.
Proof.
  intros Hrun. pose proof (RunControl.finalize_valid_outcome _ _ _ _ _ _ Hrun) as Hout.
  destruct (wp_elim _ _ _ _ _ _ (RunControl.finalize_spec _ _ _ _) Hrun) as (r & seq & now & Hr & Hst & _ & _ & Hr' & _).
  split; [intros (r2 & ? & ?); congruence|]. eexists. by rewrite Hr', lookup_insert_eq.
Qed.

Lemma op_concludes sid cmd o w :
  finalizes sid cmd (o, (exec_op o w).2) = true → ¬ concluded sid cmd w ∧ concluded sid cmd (exec_op o w).1.
Proof.
  intros Hg. destruct (exec_op o w) as [w' r] eqn:Hx. simpl in *.
  destruct o; try done; (destruct r as [e|r]; [done|]);
    apply as_reply_inv in Hx as (a & Hx & ->); simpl in Hg; bool_hyps; subst.
  - by eapply finalize_concludes.
  - apply RunControl.recover_finalizes in Hx as (f & Hx). by eapply finalize_concludes.
Qed.

(** A run control ends at most once.  Over a whole run at most one
    finalization or recovery of a given interrupt or stop succeeds. *)
Theorem run_control_ends_at_most_once clk calls sid cmd :
  (length (List.filter (finalizes sid cmd) (run calls (new_world clk)).2) ≤ 1)%nat.
Proof.
  apply (happens_once _ (concluded sid cmd)); [apply concluded_later|intros o w _; apply op_concludes|done|].
  apply new_world_inv.
Qed.

(** ** Attention *)

(** C5: A complete attention summary that is up to date is right.  In every
    reachable state, when a Session's summary says it is complete and has seen
    the latest event, then its state is the last state the log shows, its
    outcome is that state if it is terminal, and its permission is the newest
    request no decision in the log answers. *)
Theorem complete_summary_summarises_the_log clk calls sid r :
  let d := db (state_after clk calls) in
  attention d !! sid = Some r → ar_projection_state r = Attention.AttentionProjectionComplete →
  ar_latest_seq r = latest_seq sid d →
  ∃ shown, Forall2 AttentionSpec.reads (session_rows sid d) shown ∧ AttentionSpec.summarises r shown.
Proof.
  intros d Hr Hp Hl. pose proof (si_attention _ (state_after_inv clk calls) sid) as Hok.
  change (attention (db _) !! sid) with (attention d !! sid) in Hok. rewrite Hr in Hok.
  by apply (AttentionSpec.so_right _ _ _ Hok).
Qed.

(** ** Attachments *)

Definition updates_attachment (id : string) (version : Z) (out : output) : bool :=
  match out with
  | (OpUpdateAttachment id' version' _, inr _) => bool_decide (id' = id) && bool_decide (version' = version)
  | _ => false
  end.

Definition past_version (id : string) (version : Z) (w : World) : Prop :=
  ∃ a, attachments (db w) !! id = Some a ∧ version < ta_delivery_version a.

Lemma past_version_later id version w w' : evolves w w' → past_version id version w → past_version id version w'.
Proof.
  intros Hev (a & Ha & Hlt). destruct (ev_attachments _ _ Hev _ _ Ha) as (a' & Ha' & Hae).
  exists a'. pose proof (ae_version _ _ Hae). split; [done|lia].
Qed.

Lemma update_advances id version o w :
  updates_attachment id version (o, (exec_op o w).2) = true →
  ¬ past_version id version w ∧ past_version id version (exec_op o w).1.
Proof.
  intros Hg. destruct (exec_op o w) as [w' r] eqn:Hx. simpl in *.
  destruct o; try done. destruct r as [e|r]; [done|].
  apply as_reply_inv in Hx as (m & Hx & ->). bool_hyps. subst.
  destruct (wp_elim _ _ _ _ _ _ (Attachments.update_spec _ _ _ _) Hx) as (r & now & storeNow & Hr & Hv & _ & Hr' & _).
  split; [intros (a & Ha & Hlt); simplify_eq; lia|].
  exists (Attachments.updated_row update now r). rewrite Hr', lookup_insert_eq. split; [done|]. simpl. lia.
Qed.

(** An attachment version is consumed by one update.  Over a whole run, of
    the updates that name the same attachment and the same expected version at
    most one succeeds: concurrent updaters never overwrite each other. *)
Theorem attachment_version_is_used_once clk calls id version :
  (length (List.filter (updates_attachment id version) (run calls (new_world clk)).2) ≤ 1)%nat.
Proof.
  apply (happens_once _ (past_version id version));
    [apply past_version_later|intros o w _; apply update_advances|done|apply new_world_inv].
Qed.

(** Terminal attachments are not reopened.  In every state the Store can
    reach after it held an attachment, the attachment has the same identity, a
    cancelled one is unchanged, a started one is still started, and no other
    attachment has the same target Session. *)
Theorem attachment_is_not_reopened clk calls more id a :
  attachments (db (state_after clk calls)) !! id = Some a →
  ∃ a', attachments (db (state_after clk (calls ++ more))) !! id = Some a' ∧
    ta_target_session_id a' = ta_target_session_id a ∧
    ta_bootstrap_session_id a' = ta_bootstrap_session_id a ∧
    (ta_status a = "canceled" → a' = a) ∧ (ta_status a = "start_received" → ta_status a' = "start_received") ∧
    ∀ id2 a2, attachments (db (state_after clk (calls ++ more))) !! id2 = Some a2 →
      ta_target_session_id a2 = ta_target_session_id a' → id2 = id.
Proof.
  intros Ha. destruct (ev_attachments _ _ (proj2 (state_after_more clk calls more)) _ _ Ha) as (a' & Ha' & []).
  exists a'. split_and!; auto. intros id2 a2 H2 Ht.
  by apply (si_targets _ (state_after_inv clk (calls ++ more)) id2 id a2 a').
Qed.

(** ** Workspace leases *)

Notation lease_table := (λ w, leases (db w)).

Lemma keeps_allocate : keeps lease_table allocateAdapterFence.
Proof. intros w. unfold wp, allocateAdapterFence. by repeat case_bool_decide. Qed.

#[local] Hint Resolve keeps_allocate : keeps.

Lemma keeps_leases_connection tx o : keeps lease_table (exec_connection tx o).
Proof. destruct o; unfold exec_connection; keeps_deep. Qed.

Lemma keeps_leases_store_all sid first createdAt i evs t :
  keeps lease_table (AdapterDispatch.store_all sid first createdAt i evs t).
Proof. revert i t. induction evs as [|[ev pev] evs IH]; intros i t; simpl; keeps_deep. Qed.

Lemma keeps_leases_load sid ids : keeps lease_table (RunControl.load_reservations sid ids).
Proof. induction ids; simpl; keeps_deep. Qed.

Lemma keeps_leases_files sid ids : keeps lease_table (FileReferences.load_files sid ids).
Proof. induction ids; simpl; keeps_deep. Qed.

Lemma keeps_leases_settings sid ids : keeps lease_table (Settings.load_settings sid ids).
Proof. induction ids; simpl; keeps_deep. Qed.

Lemma keeps_leases_project sid seq ev now : keeps lease_table (Attention.projectSQLiteAttentionEvent sid seq ev now).
Proof. keeps_deep. Qed.

Lemma keeps_leases_ledger sid blocker at_ms : keeps lease_table (Attention.upsertSQLiteAttentionLedger sid blocker at_ms).
Proof. keeps_deep. Qed.

Lemma keeps_leases_admission tx sid adm : keeps lease_table (ValidateAdapterAdmission tx sid adm).
Proof. keeps_deep. Qed.

Lemma keeps_leases_event sid type payload now : keeps lease_table (appendRunControlEvent sid type payload now).
Proof. keeps_deep. Qed.

#[local] Hint Resolve keeps_leases_store_all keeps_leases_load keeps_leases_files keeps_leases_settings
  keeps_leases_project keeps_leases_ledger keeps_leases_admission keeps_leases_event : keeps.

(** The operations that work on leases. *)
Definition on_leases (o : op) : bool :=
  match o with
  | OpReserveLease _ | OpStartLease _ _ _ | OpQuarantineLease _ _ | OpReleaseLease _ _ _
  | OpProviderStart _ _ => true
  | _ => false
  end.

Lemma keeps_leases_op o : on_leases o = false → keeps lease_table (exec_op o).
Proof.
  destruct o; intros Ho; try discriminate Ho; clear Ho; unfold exec_op; try simple apply keeps_leases_connection;
    keeps_deep.
Qed.

Lemma keeps_run {A B} (f : World → B) (m : M A) w : keeps f m → f (m w).1 = f w.
Proof. intros Hk. specialize (Hk w). unfold wp in Hk. by destruct (m w) as [w' []]. Qed.

(** The output of a release of [key] that succeeded. *)
Definition releases (key : string) (out : output) : bool :=
  match out with
  | (OpReleaseLease key' _ _, inr _) => bool_decide (key' = key)
  | _ => false
  end.

Definition held_by (key : string) (owner : WorkspaceLease.WorkspaceLeaseOwner) (w : World) : Prop :=
  ∃ r, leases (db w) !! key = Some r ∧ WorkspaceLease.held r ∧ WorkspaceLease.row_owner r = owner.

Lemma held_same key owner w w' : leases (db w') = leases (db w) → held_by key owner w → held_by key owner w'.
Proof. unfold held_by. by intros ->. Qed.

(** A transition that does not release keeps the owner of every held lease. *)
Lemma transition_held key owner key' v o from to ro ra w w' res :
  WorkspaceLease.updateSQLiteWorkspaceLease key' v o from to ro ra w = (w', res) →
  (key' = key → is_Some (match res with inr l => Some l | inl _ => None end) → to ≠ "released") →
  held_by key owner w → held_by key owner w'.
Proof.
  intros Hx Hto Hheld.
  pose proof (wp_elim _ _ _ _ _ _ (WorkspaceLease.transition_spec key' v o from to ro ra w) Hx) as H.
  destruct res as [e|lease]; [by eapply held_same; [rewrite H|]|].
  destruct H as (r & now & scope & Hr & _ & _ & _ & _ & Hw' & _). destruct Hheld as (r0 & Hr0 & Hh & Ho).
  unfold held_by. rewrite Hw'. destruct (decide (key = key')) as [<-|Hne].
  - rewrite lookup_insert_eq. rewrite Hr in Hr0. injection Hr0 as <-. eexists. split; [done|].
    split; [|done]. unfold WorkspaceLease.held. simpl. apply Hto; [done|by eexists].
  - rewrite lookup_insert_ne by done. eauto.
Qed.

Lemma reserve_held key owner reserve w w' res :
  WorkspaceLease.ReserveWorkspaceLease reserve w = (w', res) → held_by key owner w → held_by key owner w'.
Proof.
  intros Hx Hheld. pose proof (wp_elim _ _ _ _ _ _ (WorkspaceLease.reserve_spec reserve w) Hx) as H.
  destruct res as [e|lease]; [by eapply held_same; [rewrite H|]|].
  destruct H as (r' & Hr' & Ho' & Hs' & Hsame & Hother). destruct Hheld as (r0 & Hr0 & Hh & Ho).
  destruct (decide (key = WorkspaceLease.wr_Key reserve)) as [->|Hne].
  - exists r'. split; [done|]. split; [unfold WorkspaceLease.held; congruence|]. rewrite <-Ho, Ho'. symmetry. by apply Hsame.
  - exists r0. by rewrite Hother.
Qed.

(** A Provider start records the start of the lease it found, for its owner. *)
Lemma start_held key owner request callback w w' res :
  ProviderStart.WithProviderStartAdmission request (ProviderStart.outcome_of callback) w = (w', res) →
  held_by key owner w → held_by key owner w'.
Proof.
  intros Hx Hheld. pose proof (wp_elim _ _ _ _ _ _ (ProviderStart.provider_start_spec request callback w) Hx) as H.
  destruct res as [e|lease]; [by eapply held_same; [rewrite H|]|].
  destruct H as [_ H]. destruct (bool_decide _); [by eapply held_same; [apply H|]|].
  destruct H as (key' & r & now & scope & [[nowNS Hc] _] & Hwl & Hl & _). apply ProviderStart.candidate_row in Hc.
  destruct Hheld as (r0 & Hr0 & Hh & Ho). unfold held_by. rewrite Hl. destruct (decide (key' = key)) as [->|Hne].
  - rewrite lookup_insert_eq. rewrite Hc in Hr0. injection Hr0 as <-. eexists. split; [done|].
    unfold ProviderStart.started_row. by destruct (bool_decide _).
  - rewrite lookup_insert_ne by done. eauto.
Qed.

Lemma op_held key owner o w :
  releases key (o, (exec_op o w).2) = false → held_by key owner w → held_by key owner (exec_op o w).1.
Proof.
  intros Hrel Hheld. destruct (on_leases o) eqn:Hon.
  2: { eapply held_same; [|exact Hheld]. apply (keeps_run lease_table), keeps_leases_op, Hon. }
  destruct (exec_op o w) as [w' res] eqn:Hx. simpl in *.
  destruct o; try done; apply as_reply_run in Hx as (r1 & Hm & ->).
  - by eapply reserve_held.
  - by eapply transition_held.
  - by eapply transition_held.
  - unfold WorkspaceLease.ReleaseWorkspaceLeaseAfterQuiescence in Hm.
    eapply transition_held; [exact Hm| |done]. intros -> [l Hl]. destruct r1 as [e|l1]; [done|].
    by rewrite bool_decide_eq_true_2 in Hrel.
  - by eapply start_held.
Qed.

Lemma script_leases s w : leases (db (run_script s w).1) = leases (db w).
Proof.
  revert w. induction s as [ok|o k IH]; intros w; simpl; [done|].
  pose proof (keeps_run lease_table _ w (keeps_leases_connection true o)) as Ho.
  destruct (exec_connection true o w) as [w1 r]. specialize (IH r w1).
  destruct (run_script (k r) w1) as [w2 [ok outs]]. simpl in *. congruence.
Qed.

Lemma run_held key owner calls w :
  Forall (λ out, releases key out = false) (run calls w).2 → held_by key owner w → held_by key owner (run calls w).1.
Proof.
  revert w. induction calls as [|c calls IH]; intros w; simpl; [done|].
  assert (Forall (λ out, releases key out = false) (run_call c w).2 → held_by key owner w →
    held_by key owner (run_call c w).1) as Hc.
  { destruct c as [o|s]; simpl.
    - pose proof (op_held key owner o w) as Ho. destruct (exec_op o w) as [w' r]. simpl in *.
      intros [Hr _]%Forall_cons. by apply Ho.
    - intros _ Hh. pose proof (script_leases s w) as Hs. destruct (run_script s w) as [w' [[] outs]]; simpl in *;
        (eapply held_same; [|exact Hh]); simpl; congruence. }
  destruct (run_call c w) as [w1 outs1]. specialize (IH w1). destruct (run calls w1) as [w2 outs2]. simpl in *.
  intros [H1 H2]%Forall_app Hh. auto.
Qed.

(** C9: A workspace lease has one owner until it is released.  From a state in
    which a lease is reserved, started or quarantined, as long as no release of
    it succeeds, it stays held by the same owner tuple, whatever else is
    reserved, quarantined or attempted. *)
Theorem held_lease_keeps_its_owner clk calls more key owner :
  held_by key owner (state_after clk calls) →
  Forall (λ out, releases key out = false) (run more (state_after clk calls)).2 →
  held_by key owner (state_after clk (calls ++ more)).
Proof.
  intros Hh Hrel. pose proof (run_held key owner more _ Hrel Hh) as H. unfold state_after in *. rewrite run_app.
  destruct (run calls (new_world clk)) as [w1 outs1]. simpl in *. by destruct (run more w1).
Qed.

End StoreProperties.
