(* ===== verification/LifecycleProperties.v ===== *)
(** * Requests, attempts, starts and pages over every run

    Properties of settings and file-reference requests, attach attempts,
    Provider starts, attention pages and the attention migration that hold in
    every state the Store reaches. *)

From S2P Require Import Prelude StoreApi Json EncryptedPacket Sqlite Attention EventLog.
From S2P Require Import AttentionSpec Connections Settings FileReferences Invariant StoreSound CommandLedger.
From S2P Require Import SettingsProofs FileReferencesProofs Attachments WorkspaceLease AttachAttempts Fencing.
From S2P Require Import ProviderStart AttentionPages StoreOps StoreProperties.
From stdpp Require Import base gmap strings list sorting.
#[local] Open Scope Z_scope.

Module LifecycleProperties.
Import Connections Settings FileReferences Invariant SettingsProofs FileReferencesProofs StoreOps StoreProperties.

(** ** Settings and file-reference requests *)

Lemma wp_runs {A} (m : M A) (a : A) w w' : wp m (λ a' w'', a' = a ∧ w'' = w') (λ _ _, False) w → m w = (w', inr a).
Proof. unfold wp. destruct (m w) as [w1 [e|a1]]; [done|]. by intros [-> ->]. Qed.

Lemma read_setting w sid cmd r :
  store_inv w → settings_commands (db w) !! (sid, cmd) = Some r →
  GetSettingsCommand sid cmd w = (w, inr (scan_settings_command sid cmd r)).
Proof.
  intros Hw Hr. pose proof (si_setting_rows _ Hw _ _ Hr) as Hok.
  apply wp_runs. unfold GetSettingsCommand. rewrite wp_tx. by eapply wp_read_setting.
Qed.

Lemma read_file w sid cmd r :
  file_commands (db w) !! (sid, cmd) = Some r →
  GetFileReferenceCommand sid cmd w = (w, inr (scan_file_command sid cmd r)).
Proof. intros Hr. apply wp_runs. unfold GetFileReferenceCommand. by eapply wp_read_file. Qed.

(** C11: Stored requests are well-formed.  In every reachable state a stored
    settings request passes the schema's checks and the validation of its
    readers, and a stored file-reference request the schema's checks, so that
    reading either back succeeds with the stored row; and per Session at most
    one request of each kind is open. *)
Theorem stored_requests_are_well_formed clk calls sid cmd :
  let w := state_after clk calls in
  match settings_commands (db w) !! (sid, cmd) with
  | Some r => settings_checks sid cmd r = true ∧ GetSettingsCommand sid cmd w = (w, inr (scan_settings_command sid cmd r))
  | None => True
  end ∧
  match file_commands (db w) !! (sid, cmd) with
  | Some r => file_checks sid cmd r = true ∧ GetFileReferenceCommand sid cmd w = (w, inr (scan_file_command sid cmd r))
  | None => True
  end ∧
  one_open settings_open (settings_commands (db w)) ∧ one_open file_command_open (file_commands (db w)).
Proof.
  intros w. pose proof (state_after_inv clk calls : store_inv w) as Hw. split_and!; [| |apply Hw|apply Hw].
  - destruct (settings_commands (db w) !! (sid, cmd)) as [r|] eqn:Hr; [|done]. split; [|by apply read_setting].
    by destruct (si_setting_rows _ Hw _ _ Hr).
  - destruct (file_commands (db w) !! (sid, cmd)) as [r|] eqn:Hr; [|done]. split; [|by apply read_file].
    by destruct (si_file_rows _ Hw _ _ Hr).
Qed.

(** A settings request only moves forward.  In every later state it asks
    for the same change for the same writer under the same version and
    deadline, its status has not gone back from recovery to pending or from
    pending to undelivered, and once it has ended its row never changes. *)
Theorem settings_request_moves_forward clk calls more sid cmd r :
  settings_commands (db (state_after clk calls)) !! (sid, cmd) = Some r →
  ∃ r', settings_commands (db (state_after clk (calls ++ more))) !! (sid, cmd) = Some r' ∧
    setting_identity r' = setting_identity r ∧ (setting_rank r ≤ setting_rank r')%nat ∧
    (settings_open r = false → r' = r).
Proof.
  intros Hr. destruct (ev_settings _ _ (proj2 (state_after_more clk calls more)) _ _ Hr) as (r' & Hr' & []). eauto.
Qed.


(** ** Attach attempts *)

(** A recorded attach attempt is immutable until it expires.  In every
    later state the attempt is stored unchanged, unless at one of the clock
    readings in between it was past its expiry: a consumed grant cannot be
    replayed, or its outcome rewritten, while it is valid. *)
Theorem attach_attempt_is_immutable clk calls more jti r :
  attach_attempts (db (state_after clk calls)) !! jti = Some r →
  attach_attempts (db (state_after clk (calls ++ more))) !! jti = Some r ∨
  expired_between (state_after clk calls) (state_after clk (calls ++ more)) r.
Proof. apply (ev_attempts _ _ (proj2 (state_after_more clk calls more))). Qed.


(** ** Provider starts *)

(** C14: The Provider is started only under live authority.  Whatever the start
    callback does, replacing it by one that behaves the same where the
    request's writer is the live writer, its connection admits it and, for an
    attached target, exactly one of its leases is reserved (or already started
    and re-admitted), changes nothing: in every other state the callback is
    not run. *)
Theorem provider_starts_only_under_authority request (start1 start2 : M unit) w :
  (∀ w', db w' = db w → ProviderStart.may_start request (db w') → start1 w' = start2 w') →
  ProviderStart.WithProviderStartAdmission request (Some start1) w
    = ProviderStart.WithProviderStartAdmission request (Some start2) w.
Proof. apply ProviderStart.start_agree. Qed.

(** ** Attention pages and migration *)

(** Summary pages are consecutive.  A page holds, in ascending order of
    Session ID, the first summaries after the cursor of Sessions with current
    authority, at most the limit; it has a next cursor exactly when more
    follow, and the rows after that cursor are those the page left out.  So
    following the cursors shows every such Session once. *)
Theorem summary_pages_are_consecutive request w :
  match AttentionPages.AttentionSummaryPage request w with
  | (w', inr page) => ∃ now, db w' = db w ∧
      AttentionPages.page_of (AttentionPages.pr_AfterSessionID request) (Z.to_nat (AttentionPages.pr_Limit request)) (db w) now page ∧
      AttentionPages.ascending fst (AttentionPages.visible (AttentionPages.pr_AfterSessionID request) now (db w))
  | (w', inl _) => db w' = db w
  end.
Proof.
  pose proof (AttentionPages.page_spec request w) as H. unfold wp in H.
  destruct (AttentionPages.AttentionSummaryPage request w) as [w' [e|page]]; [done|].
  destruct H as (now & Hp & Hw). exists now. split_and!; [done|done|]. apply AttentionPages.visible_ascending.
Qed.

(** The attention migration ends.  Repeating batches of any legal size
    never needs more than one batch per [limit] Sessions that are left: it
    either stops with the error of a batch, which changed nothing, or
    completes the migration with every one of these Sessions marked as
    incompletely projected up to the end of its log and without a live
    connection. *)
Theorem attention_migration_terminates (fuel : nat) limit w :
  let todo := AttentionPages.unmigrated (migration_checkpoint (db w)) (db w) in
  (0 < fuel)%nat ∧ Z.of_nat (length todo) ≤ Z.of_nat fuel * limit →
  match AttentionPages.backfill_all fuel limit w with
  | (w', inr finished) => finished = true ∧ migration_pending (db w') = false ∧
      ∀ sid, sid ∈ todo → AttentionPages.migrated (db w') sid
  | (w', inl _) => True
  end.
Proof.
  intros todo [Hf Hlen]. pose proof (AttentionPages.backfill_all_spec fuel limit w ltac:(lia) Hlen) as H.
  unfold wp in H. destruct (AttentionPages.backfill_all fuel limit w) as [w' [e|f]]; [done|]. naive_solver.
Qed.

(** A Store that was in use can be opened again.  In every reachable state
    the check that [init] makes of an existing database passes: the fence
    allocators belong together, the main one is ahead of every fence a
    connection accepted, and the side one has not fallen behind it. *)
Theorem reachable_store_reopens clk calls id :
  AttentionPages.init_existing id id (state_after clk calls) = (state_after clk calls, inr tt).
Proof. apply AttentionPages.reopen_ok, state_after_inv. Qed.

End LifecycleProperties.
