(* ===== verification/Scenarios.v ===== *)
(** * Concrete runs

    The Store driven through complete scenarios, evaluated by the kernel: a
    Session connects, appends, is superseded, runs and claims commands, and
    ends a run control.  They show that the hypotheses of the properties are
    met by real runs and that the operations succeed where they should. *)

From S2P Require Import Prelude StoreApi EventBatcher Json EncryptedPacket Sqlite Attention.
From S2P Require Import EventLog AttentionSpec Connections Invariant StoreSound CommandLedger AdapterDispatch.
From S2P Require Import RunControl Fencing Attachments WorkspaceLease StoreOps StoreProperties.
From stdpp Require Import base gmap strings list sorting.
#[local] Open Scope Z_scope.

Module Scenarios.
Import Connections Invariant StoreOps StoreProperties.

Definition clk (n : nat) : Z := 1700000000000 + Z.of_nat n.
Definition expires : time := of_UnixMilli 1700003600000.

Definition connect : list call :=
  [Call (OpConn (OpInitialize (mkInitialize "s1" 1 expires)));
   Call (OpConn (OpHello "s1" (mkHello 1 "lease-1")));
   Call (OpConn OpAllocate)].

Definition first_admission : AdapterConnectionAdmission := mkAdmission 1 1 1 2.

Definition busy : list call :=
  connect ++ [Call (OpAdapterAppend "s1" first_admission [EventLog.state_event "busy"] false)].

Definition superseded : list call := busy ++ [Call (OpConn (OpHello "s1" (mkHello 1 "lease-2")))].

Definition stale_append : list call :=
  [Call (OpAdapterAppend "s1" first_admission [EventLog.state_event "ready"] false)].

Definition user_event : PendingEvent :=
  mkPendingEvent "session.message" (of_UnixMilli 1700000000000)
    (Json.marshalStruct [("role", Json.marshalString "user"); ("text", Json.marshalString "hi")]).

Definition send_request : CommandLedger.PendingCommandRequest :=
  CommandLedger.mkRequest "c1" "session.send" (of_UnixMilli 1700000020000).

Definition send : call := Call (OpCommit "s1" (mkAuthority 1 1) user_event send_request false).
Definition claim : call := Call (OpClaim "s1" (mkAuthority 1 1) "c1" false).

Definition writer : SettingsWriter := mkWriter 1 1 "lease-1".
Definition capability_event : PendingEvent :=
  mkPendingEvent "session.run.capabilities" (of_UnixMilli 1700000000000) "{}".

Definition stop : list call :=
  busy ++
  [Call (OpAdapterAppend "s1" first_admission [capability_event] false);
   Call (OpPublish "s1" (RunControl.mkCapabilityUpdate 2 true true writer));
   Call (OpReserve "s1" (RunControl.mkControlRequest "c2" "stop" "busy" 1 writer));
   Call (OpFinalize "s1" "c2" (RunControl.mkFinalize 1 (Some writer) "completed" None None));
   Call (OpRecover "s1" "c2" "adapter_disconnected")].

(** ** A sealed command *)

Definition sealed_payload (kind cmd : string) : string :=
  Json.marshalStruct
    [("version", "1"); ("scope", Json.marshalString "command"); ("key_id", Json.marshalString "key");
     ("sender", Json.marshalString "client"); ("message_id", Json.marshalString cmd);
     ("type", Json.marshalString kind);
     ("packet", Json.marshalStruct
        [("version", "1"); ("public", "{}");
         ("encrypted", Json.marshalStruct
            [("nonce", Json.marshalString "AAAAAAAAAAAAAAAA");
             ("ciphertext", Json.marshalString "AAAAAAAAAAAAAAAAAAAAAA");
             ("signature", Json.marshalString
                "AAAAAAAAAAAAAAAAAAAAAAAAAAAAAAAAAAAAAAAAAAAAAAAAAAAAAAAAAAAAAAAAAAAAAAAAAAAAAAAAAAAAAA")])])].

Definition sealed_event : PendingEvent :=
  mkPendingEvent "session.command" (of_UnixMilli 1700000000000) (sealed_payload "session.stop" "c3").

Definition sealed_request : CommandLedger.PendingCommandRequest :=
  CommandLedger.mkRequest "c3" "session.stop" (of_UnixMilli 1700000020000).

Definition sealed : call := Call (OpCommit "s1" (mkAuthority 1 1) sealed_event sealed_request true).

(** ** What the runs return *)

Definition succeeded (out : output) : bool := match out.2 with inr _ => true | inl _ => false end.

Example stop_run : succeeded <$> (run stop (new_world clk)).2 = [true; true; true; true; true; true; true; true; false].
Proof. vm_compute. reflexivity. Qed.

Example superseded_run :
  succeeded <$> (run (superseded ++ stale_append) (new_world clk)).2 = [true; true; true; true; true; false].
Proof. vm_compute. reflexivity. Qed.

Example claims_run :
  (grants_claim "s1" "c1" <$> (run (busy ++ [send; send; claim; claim]) (new_world clk)).2)
    = [false; false; false; false; false; false; true; false].
Proof. vm_compute. reflexivity. Qed.

Example sealed_run : succeeded <$> (run (busy ++ [sealed; sealed]) (new_world clk)).2 = [true; true; true; true; true; false].
Proof. vm_compute. reflexivity. Qed.

Example fences_run : omap issued (run superseded (new_world clk)).2 = [1; 2; 3].
Proof. vm_compute. reflexivity. Qed.

(** ** Witnesses *)

Lemma superseded_admission_is_powerless_witness :
  ad_AcceptedFence first_admission = 1 ∧ powerless "s1" first_admission (state_after clk (superseded ++ [send])).
Proof.
  split; [reflexivity|].
  eapply (superseded_admission_is_powerless clk superseded [send] "s1" _ first_admission);
    [vm_compute; reflexivity|reflexivity].
Defined.

Definition terminated : list call :=
  [Call (OpConn (OpInitialize (mkInitialize "s1" 1 expires))); Call (OpConn (OpTerminate "s1" 1))].

Lemma dead_connection_stays_dead_witness :
  ∃ e, (AcceptAdapterHello false "s1" (mkHello 1 "lease-1") (state_after clk (terminated ++ connect))).2 = inl e.
Proof.
  eapply (dead_connection_stays_dead clk terminated connect "s1"); [vm_compute; reflexivity|vm_compute; reflexivity].
Defined.

Lemma run_control_outcome_is_final_witness :
  ∃ r, rc_status r = "completed" ∧
    run_controls (db (state_after clk (stop ++ [send]))) !! ("s1", "c2") = Some r.
Proof.
  eexists. split; [|eapply (run_control_outcome_is_final clk stop [send] "s1" "c2");
    [vm_compute; reflexivity|vm_compute; discriminate]]. reflexivity.
Defined.

Lemma complete_summary_summarises_the_log_witness :
  ∃ r shown, ar_state r = "busy" ∧
    Forall2 AttentionSpec.reads (session_rows "s1" (db (state_after clk busy))) shown ∧
    AttentionSpec.summarises r shown.
Proof.
  pose proof (λ r, complete_summary_summarises_the_log clk busy "s1" r) as H.
  eexists. edestruct H as (shown & Hshown & Hsum); [vm_compute; reflexivity..|].
  exists shown. split; [|split; [exact Hshown|exact Hsum]]. reflexivity.
Defined.

Lemma hello_advances_epoch_and_fence_witness :
  ∃ c c', connections (db (state_after clk busy)) !! "s1" = Some c ∧
    cr_connection_epoch c' = cr_connection_epoch c + 1 ∧ cr_accepted_fence c < cr_accepted_fence c'.
Proof.
  edestruct (Fencing.hello_advances_epoch_and_fence false "s1" (mkHello 1 "lease-2") (state_after clk busy))
    as (c & c' & Hc & _ & _ & _ & _ & He & _ & Hf & _).
  - apply state_after_inv.
  - apply (run_eq (AcceptAdapterHello false "s1" (mkHello 1 "lease-2"))). vm_compute. reflexivity.
  - exists c, c'. exact (conj Hc (conj He Hf)).
Defined.

Lemma committed_command_is_not_stored_again_witness :
  let w := state_after clk (busy ++ [send]) in
  match CommandLedger.commitPendingCommand "s1" (mkAuthority 1 1) user_event send_request false w with
  | (w', inr c) => db w' = db w ∧ CommandLedger.Duplicate c = true ∧ CommandLedger.cm_EventSeq (CommandLedger.Command c) = 2
  | (w', inl _) => db w' = db w
  end.
Proof.
  eapply (CommandLedger.committed_command_is_not_stored_again "s1" (mkAuthority 1 1) user_event send_request false
    (mkCommandRow _ 2 _ _ _ _)). vm_compute. reflexivity.
Defined.

Lemma encrypted_retry_always_fails_witness :
  ∃ e, (CommandLedger.commitPendingCommand "s1" (mkAuthority 1 1) sealed_event sealed_request true
          (state_after clk (busy ++ [sealed]))).2 = inl e.
Proof.
  eapply (CommandLedger.encrypted_retry_always_fails "s1" (mkAuthority 1 1) sealed_event sealed_request).
  vm_compute. reflexivity.
Defined.

(** ** An attachment and a workspace lease *)

Definition attach : list call :=
  [Call (OpCreateAttachment (Attachments.mkCreate (Attachments.mkIdentity "at1" "s0" "s1" "lineage")
     (of_UnixMilli 1700000020000)));
   Call (OpUpdateAttachment "at1" 0 (Attachments.mkUpdate "start_received" "received" None None None None))].

Definition cancel : call :=
  Call (OpUpdateAttachment "at1" 0 (Attachments.mkUpdate "canceled" "pending" None None None
    (Some (Attachments.mkAttachmentBlocker "new_run_required" None None None None)))).

Definition workspace : string := "kkkkkkkkkkkkkkkkkkkkkkkkkkkkkkkk".
Definition lease_owner (worker : string) : WorkspaceLease.WorkspaceLeaseOwner :=
  WorkspaceLease.mkOwner worker "s1" 1 1 "lease-1".
Definition reserve_lease (worker : string) : call :=
  Call (OpReserveLease (WorkspaceLease.mkLeaseReserve workspace None (lease_owner worker) (of_UnixMilli 1700000060000))).

Definition leased : list call :=
  attach ++ connect ++ [reserve_lease "w1"; Call (OpStartLease workspace 1 (lease_owner "w1"))].

Definition contested : list call :=
  [reserve_lease "w2"; Call (OpQuarantineLease workspace 2); reserve_lease "w2"].

Definition handed_over : list call :=
  [Call (OpReleaseLease workspace 3 (lease_owner "w1")); reserve_lease "w2"].

Example leases_run : succeeded <$> (run (leased ++ contested ++ handed_over) (new_world clk)).2
  = [true; true; true; true; true; true; true; false; true; false; true; true].
Proof. vm_compute. reflexivity. Qed.

Lemma none_true {A} (f : A → bool) (l : list A) :
  existsb f l = false → Forall (λ x, f x = false) l.
Proof. induction l as [|x l IH]; simpl; [constructor|]. intros [? ?]%orb_false_elim. constructor; auto. Qed.

Lemma held_lease_keeps_its_owner_witness :
  held_by workspace (lease_owner "w1") (state_after clk (leased ++ contested)).
Proof.
  apply (held_lease_keeps_its_owner clk leased contested workspace (lease_owner "w1")).
  - eexists. split; [vm_compute; reflexivity|]. split; [vm_compute; discriminate|reflexivity].
  - apply none_true. vm_compute. reflexivity.
Defined.

Example cancel_run : succeeded <$> (run (attach ++ [cancel]) (new_world clk)).2 = [true; true; false].
Proof. vm_compute. reflexivity. Qed.

Lemma attachment_is_not_reopened_witness :
  ∃ a, attachments (db (state_after clk (attach ++ [cancel]))) !! "at1" = Some a ∧ ta_status a = "start_received".
Proof.
  edestruct (attachment_is_not_reopened clk attach [cancel] "at1") as (a & Ha & _ & _ & _ & Hs & _);
    [vm_compute; reflexivity|].
  exists a. split; [exact Ha|]. apply Hs. reflexivity.
Defined.

(** ** The batcher in front of this Store *)

Definition batch_config (max : Z) : Batcher.config :=
  Batcher.mkConfig (st := World) "s1" max true true None.

Definition item (state : string) : Batcher.pendingAdapterEvent :=
  Batcher.mkItem (Batcher.mkHubEvent "session.state" "s1" None 1700000000000 (pe_Payload (EventLog.state_event state)))
    (EventLog.state_event state).

Definition batch_schedule : list Batcher.action :=
  [Batcher.Enqueue (item "ready"); Batcher.Receive; Batcher.Enqueue (item "busy"); Batcher.Receive;
   Batcher.Enqueue (item "ready"); Batcher.Enqueue (item "ended"); Batcher.Receive; Batcher.TimerFires;
   Batcher.CancelContext; Batcher.Stop].

Notation batch_run :=
  (Batcher.run batch_schedule (Batcher.newAdapterEventBatcher (batch_config 2) (state_after clk connect))).

Example batch_run_sizes :
  (λ bo, (Batcher.flush_sizes bo.2, Batcher.he_Seq <$> Batcher.broadcasts bo.2, Batcher.finished bo.1)) <$> batch_run
    = Some ([2; 1; 1]%nat, [Some 1; Some 2; Some 3; Some 4], true).
Proof. vm_compute. reflexivity. Qed.

Lemma batch_runs : is_Some batch_run.
Proof. apply (fmap_is_Some (λ _, tt)). vm_compute. by eexists. Qed.

Lemma batcher_keeps_order_witness :
  ∃ b out, batch_run = Some (b, out) ∧
    Batcher.flushed out ++ Batcher.batch b ++ Batcher.queue b = Batcher.accepted batch_schedule.
Proof.
  destruct batch_runs as [[b out] Hrun]. exists b, out. split; [exact Hrun|].
  apply (Batcher.batcher_keeps_order (batch_config 2) (state_after clk connect) batch_schedule b out Hrun).
Defined.


End Scenarios.
