(* ===== verification/LifecycleScenarios.v ===== *)
(** * Concrete runs of requests, attaches, starts and the migration

    Scenarios for the properties of [LifecycleProperties]: a Session publishes
    capabilities and takes a settings request and a file-reference request,
    another Session is attached to it, its Provider is started, and a database
    without summaries is migrated. *)

From S2P Require Import Prelude StoreApi Json EncryptedPacket Sqlite Attention EventLog.
From S2P Require Import AttentionSpec Connections Settings FileReferences Invariant StoreSound CommandLedger.
From S2P Require Import SettingsProofs FileReferencesProofs Attachments WorkspaceLease AttachAttempts Fencing.
From S2P Require Import ProviderStart AttentionPages StoreOps StoreProperties LifecycleProperties Scenarios.
From stdpp Require Import base gmap strings list sorting.
#[local] Open Scope Z_scope.

Module LifecycleScenarios.
Import Connections Invariant StoreOps StoreProperties LifecycleProperties Scenarios.

(** A clock that advances a second per reading. *)
Definition slow (n : nat) : Z := 1700000000000 + 1000 * Z.of_nat n.

Definition fingerprint : string := "sha256:0123456789abcdef0123456789abcdef0123456789abcdef0123456789abcdef".

Definition adapter_event (type : string) : PendingEvent := mkPendingEvent type (of_UnixMilli 1700000000000) "{}".

(** ** Settings *)

Definition settings_published : list call :=
  busy ++
  [Call (OpAdapterAppend "s1" first_admission [adapter_event "session.settings.capabilities"] false);
   Call (OpPublishSettings "s1" (Settings.mkSettingsUpdate 2 fingerprint "opus" None "ask" writer))].

Definition reserve_settings : call :=
  Call (OpReserveSettings "s1" (Settings.mkSettingsRequest "set1" fingerprint (Some "sonnet") None None writer)).
Definition acknowledge_settings : call := Call (OpAcknowledgeSettings "s1" "set1" 1 writer).

(** The Adapter announces the new model and reports that the request took effect. *)
Definition settings_applied : list call :=
  [Call (OpAdapterAppend "s1" first_admission [adapter_event "session.settings.capabilities"] false);
   Call (OpPublishSettings "s1" (Settings.mkSettingsUpdate 3 fingerprint "sonnet" None "ask" writer));
   Call (OpFinalizeSettings "s1" "set1" (Settings.mkSettingsFinalize 1 "pending" (Some writer) "applied" None
     (Settings.mkSettingsCapability "s1" 3 fingerprint "sonnet" None "ask" 2 writer)));
   Call (OpFinalizeSettings "s1" "set1" (Settings.mkSettingsFinalize 1 "pending" None "timeout" (Some "operation_timeout")
     (Settings.mkSettingsCapability "s1" 3 fingerprint "sonnet" None "ask" 2 writer)))].

Example settings_run :
  succeeded <$> (run (settings_published ++ [reserve_settings; reserve_settings; acknowledge_settings] ++ settings_applied)
    (new_world clk)).2 = [true; true; true; true; true; true; true; true; true; true; true; true; false].
Proof. vm_compute. reflexivity. Qed.

Definition settings_status (w : World) : option string := sc_status <$> settings_commands (db w) !! ("s1", "set1").

Example settings_end :
  settings_status (state_after clk (settings_published ++ [reserve_settings; acknowledge_settings] ++ settings_applied))
    = Some "applied".
Proof. vm_compute. reflexivity. Qed.

(** ** File references *)

Definition files_published : list call :=
  busy ++
  [Call (OpAdapterAppend "s1" first_admission [adapter_event "session.file_references.capabilities"] false);
   Call (OpPublishFiles "s1" (FileReferences.mkFileUpdate 2 fingerprint writer))].

Definition commit_file : call :=
  Call (OpCommitFile "s1" user_event (FileReferences.mkFileRequest "f1" "m1" fingerprint fingerprint 2)).

Definition deliver_file : list call :=
  [Call (OpAcknowledgeFile "s1" "f1" 1 writer);
   Call (OpFinalizeFile "s1" "f1" (FileReferences.mkFileFinalize 1 (Some writer) "delivered" None None));
   Call (OpRecoverFile "s1" "f1" "adapter_deadline")].

Example files_run :
  succeeded <$> (run (files_published ++ [commit_file; commit_file] ++ deliver_file) (new_world clk)).2
    = [true; true; true; true; true; true; true; true; true; true; false].
Proof. vm_compute. reflexivity. Qed.

(** ** A warm attach and a Provider start *)

Definition jti : string := "jjjjjjjjjjjjjjjjjjjjjjjjjjjjjjjj".
Definition attach_expires : time := of_UnixMilli 1700000020000.

Definition warm_request : AttachAttempts.WarmAttachRequest :=
  AttachAttempts.mkWarmRequest
    (AttachAttempts.mkAttemptRequest (AttachAttempts.mkAttemptIdentity jti "at2" "s1" "s2" "provider")
       (AttachAttempts.mkFingerprint "agentwharf.attach-request.v1" 1 workspace 1) (of_UnixMilli 1700000060000)
       "accepted" (Some 1))
    (Attachments.mkCreate (Attachments.mkIdentity "at2" "s1" "s2" "lineage") attach_expires)
    (AttachAttempts.mkTargetActivation 1 attach_expires) first_admission
    (AttachAttempts.mkFirstDelivery "c9" "ref1" workspace attach_expires).

Definition warm_attach : list call :=
  busy ++ [Call (OpAppend "s2" [EventLog.state_event "ready"]); Call (OpWarmAttach warm_request)].

Definition start_request : ProviderStart.ProviderStartAdmission :=
  ProviderStart.mkStart "s1" first_admission writer ProviderStart.ProviderStartAttached false.

Definition start_provider (callback : option (error + unit)) : call := Call (OpProviderStart start_request callback).

Definition reserve_workspace : call :=
  Call (OpReserveLease (WorkspaceLease.mkLeaseReserve workspace None (lease_owner "w1") (of_UnixMilli 1700000060000))).

Example attach_run :
  succeeded <$> (run (warm_attach ++ [Call (OpWarmAttach warm_request); start_provider None; reserve_workspace;
    start_provider (Some (inl (Err "exec"))); start_provider (Some (inr tt)); start_provider None;
    Call (OpPage (AttentionPages.mkPageRequest "" 1)); Call (OpSnapshot ["s1"; "s2"])]) (new_world clk)).2
    = [true; true; true; true; true; true; true; false; true; false; true; false; true; true].
Proof. vm_compute. reflexivity. Qed.

(** ** A database without summaries *)

Definition old_event (sid : string) (seq : Z) : event_row :=
  EventLog.event_row_of sid seq 1600000000000 (EventLog.state_event "ready").

Definition legacy : World :=
  mkWorld (upd_migration_pending (λ _, true)
             (upd_events (λ _, [old_event "s3" 1; old_event "s1" 1; old_event "s2" 1; old_event "s1" 2]) empty_db)) 1 clk 0.

Definition summary_seqs (d : DB) : list (option Z) := (λ sid, ar_latest_seq <$> attention d !! sid) <$> ["s1"; "s2"; "s3"].

Example legacy_batches :
  let '(w1, r1) := AttentionPages.BackfillAttentionBatch 2 legacy in
  let '(w2, r2) := AttentionPages.BackfillAttentionBatch 2 w1 in
  r1 = inr (AttentionPages.mkBackfill "s2" 2 false) ∧ r2 = inr (AttentionPages.mkBackfill "s3" 1 true) ∧
  summary_seqs (db w1) = [Some 2; Some 1; None] ∧ summary_seqs (db w2) = [Some 2; Some 1; Some 1].
Proof. vm_compute. repeat split. Qed.

(** ** Witnesses *)

Lemma settings_request_moves_forward_witness :
  ∃ r', settings_commands (db (state_after clk ((settings_published ++ [reserve_settings; acknowledge_settings])
                                                ++ settings_applied))) !! ("s1", "set1") = Some r' ∧
    setting_rank r' = 3%nat ∧ sc_requested_model_id r' = Some "sonnet".
Proof.
  edestruct (settings_request_moves_forward clk (settings_published ++ [reserve_settings; acknowledge_settings])
    settings_applied "s1" "set1") as (r' & Hr' & Hid & _); [vm_compute; reflexivity|].
  exists r'. split; [exact Hr'|]. split; [|exact (f_equal sc_requested_model_id Hid)].
  vm_compute in Hr'. injection Hr' as <-. reflexivity.
Defined.

Definition waiting : list call :=
  settings_published ++ [reserve_settings] ++ replicate 6 (Call (OpConn (OpConnection "s1"))).


Lemma attach_attempt_is_immutable_witness :
  ∃ r, at_admission_outcome r = "accepted" ∧
    (attach_attempts (db (state_after clk (warm_attach ++ [Call (OpWarmAttach warm_request)]))) !! jti = Some r ∨
     expired_between (state_after clk warm_attach) (state_after clk (warm_attach ++ [Call (OpWarmAttach warm_request)])) r).
Proof.
  eexists. split; [|eapply (attach_attempt_is_immutable clk warm_attach [Call (OpWarmAttach warm_request)] jti);
    vm_compute; reflexivity]. reflexivity.
Defined.

(** A callback that fails unless the writer is the live one. *)
Definition guarded : M unit := λ w,
  (w, if bool_decide (live_writers (db w) !! "s1" = Some writer) then inr tt else inl (Err "not live")).

Lemma provider_starts_only_under_authority_witness :
  ProviderStart.WithProviderStartAdmission start_request (Some guarded) (state_after clk (busy ++ [reserve_workspace]))
    = ProviderStart.WithProviderStartAdmission start_request (Some (mret tt)) (state_after clk (busy ++ [reserve_workspace])).
Proof.
  apply provider_starts_only_under_authority. intros w' _ [[Hlive _] _]. unfold guarded.
  rewrite bool_decide_eq_true_2; [reflexivity|exact Hlive].
Defined.

Lemma attention_migration_terminates_witness :
  length (AttentionPages.unmigrated "" (db legacy)) = 3%nat ∧
  match AttentionPages.backfill_all 2 2 legacy with
  | (w', inr finished) => finished = true ∧ migration_pending (db w') = false ∧ AttentionPages.migrated (db w') "s3"
  | (w', inl _) => True
  end.
Proof.
  split; [vm_compute; reflexivity|].
  pose proof (attention_migration_terminates 2 2 legacy) as H. cbv zeta in H.
  destruct (AttentionPages.backfill_all 2 2 legacy) as [w' [e|f]]; [exact I|].
  destruct H as (Hf & Hp & Hm); [split; [lia|vm_compute; discriminate]|].
  split; [exact Hf|]. split; [exact Hp|]. apply Hm. vm_compute. repeat constructor.
Defined.

End LifecycleScenarios.
