(* ===== verification/HubReplay.v ===== *)
(** * What the Hub replays

    [hub/encrypted_replay.go], the exported validator of
    [protocol/encrypted_packet.go] it calls, and the bootstrap query of
    [store/bootstrap.go] and [store/sqlite/bootstrap.go]. *)

From S2P Require Import Prelude StoreApi Json Wire GoText EncryptedPacket Sqlite EventLog CommandLedger.
From stdpp Require Import base strings list option sorting.
#[local] Open Scope Z_scope.

Module HubReplay.
Import Json EncryptedPacket.

(** ** History of Sessions with required encryption *)

(** A member that is null counts as absent. *)
Definition ValidateRunControlOutcomeProjection (data : string) : bool :=
  match Wire.strictObject data with
  | None => false
  | Some fs =>
      validateRunControlOutcomeProjection
        ((λ m : string * Wire.raw, (m.1, Wire.ast m.2)) <$>
           List.filter (λ m : string * Wire.raw, bool_decide (Wire.text m.2 ≠ "null")) fs)
  end.

Definition internalLifecycleEvent (eventType : string) : bool :=
  bool_decide (eventType ∈ ["session.run.outcome"; "session.state"]).

Definition validatePlaintextLifecycleProjection (eventType payload : string) : bool :=
  match Wire.unmarshalMap payload with
  | None => false
  | Some fs =>
      if bool_decide (eventType = "session.state") then
        Wire.only ["state"; "reason"] fs
        && match unmarshalStrings ["state"] payload with
           | Some [state] => bool_decide (state ≠ "")
           | _ => false
           end
      else bool_decide (eventType = "session.run.outcome") && ValidateRunControlOutcomeProjection payload
  end.

(** The header of a sealed command: its type and its message ID. *)
Definition commandHeader (payload : string) : option (string * string) :=
  match unmarshalStrings ["type"; "message_id"] payload with
  | Some [type; message_id] => Some (type, message_id)
  | _ => None
  end.

Definition sealedCommand (payload : string) : bool :=
  match commandHeader payload with
  | None => false
  | Some (type, message_id) =>
      bool_decide (is_Some (DecodeEncryptedPacketCarrier payload "command" type message_id))
      && CommandLedger.ValidEncryptedCommandType type
  end.

Definition sealedEvent (eventType payload : string) : bool :=
  bool_decide (is_Some (DecodeEncryptedPacketCarrier payload "event" eventType "")).

Definition validateRequiredReplayEvent (event : Event) (session : string) : bool :=
  bool_decide (SessionID event = session) && bool_decide (1 ≤ Seq event) &&
  if bool_decide (Type_ event = "session.command") then sealedCommand (Payload event)
  else if internalLifecycleEvent (Type_ event) then
    sealedEvent (Type_ event) (Payload event)
    || validatePlaintextLifecycleProjection (Type_ event) (Payload event)
  else sealedEvent (Type_ event) (Payload event).

(** ** Bootstrap state *)

Definition BootstrapEventTypes : list string :=
  ["session.state"; "session.settings.capabilities"; "session.settings.effective"; "session.run.capabilities";
   "session.run.outcome"; "session.file_references.capabilities"; "permission.request"; "permission.decision"].

(** [ORDER BY seq DESC LIMIT 1] over the rows of one type up to the watermark. *)
Definition latestOfType (events : list Event) (throughSeq : Z) (eventType : string) : option Event :=
  foldl (λ best ev,
           if bool_decide (Type_ ev = eventType) && bool_decide (Seq ev ≤ throughSeq)
              && match best with Some b => bool_decide (Seq b < Seq ev) | None => true end
           then Some ev else best) None events.

Definition bySeq (a b : Event) : Prop := Seq a ≤ Seq b.

#[global] Instance bySeq_dec a b : base.Decision (bySeq a b).
Proof. unfold bySeq. apply _. Defined.

Definition bootstrapOf (events : list Event) (throughSeq : Z) : list Event :=
  merge_sort bySeq (omap (latestOfType events throughSeq) BootstrapEventTypes).

Definition Bootstrap (sessionID : string) (throughSeq : Z) (d : Sqlite.DB) : list Event :=
  bootstrapOf (EventLog.scan_event <$> Sqlite.session_rows sessionID d) throughSeq.

End HubReplay.
