(* ===== verification/ClientDelivery.v ===== *)
(** * Delivery of events to a client connection

    [clientConnection] of [hub/websocket.go] with the parts of the Hub that
    write events to it: the replay of its subscriptions ([replayAccepted] and
    [hub/bootstrap.go]) and the fan-out of [broadcastEvent].  The segments that
    run under the connection's mutex are functions on its state; a step function
    interleaves them as the goroutines of the Hub do. *)

From S2P Require Import Prelude StoreApi Json Wire GoText EncryptedPacket CodecPayloads Frames Codec HubReplay.
From stdpp Require Import base gmap strings list option.
#[local] Open Scope Z_scope.

Module ClientDelivery.
Import Wire Frames Codec HubReplay.

(** [protocol.Event]; the events of a Store are [StoreApi.Event]. *)
Notation pevent := Frames.Event.
Notation sevent := StoreApi.Event.

(** ** Ephemeral events *)

Definition isEphemeralEvent (eventType : string) : bool :=
  bool_decide (eventType ∈ ["presence"; "agent.activity"; "log.tail"; "resource.sample"]).

Definition validOpaqueEventType (eventType : string) : bool :=
  bool_decide (0 < len eventType) && bool_decide (len eventType ≤ 255).

(** For a source type, the type a peer of each protocol version is sent. *)
Definition variants := gmap string (gmap Z string).

Definition copyEphemeralEventVariants (input : variants) : variants :=
  omap (λ byVersion,
          let copied := filter (λ vs : Z * string, bool_decide (ProtocolVersion ≤ vs.1) && validOpaqueEventType vs.2) byVersion in
          if bool_decide (copied = ∅) then None else Some copied)
       (filter (λ sv : string * gmap Z string, validOpaqueEventType sv.1 && bool_decide (sv.2 ≠ ∅)) input).

Definition publisherEphemeralTypes (v : variants) : gset string :=
  dom v ∪ ⋃ ((λ sv : string * gmap Z string, list_to_set (snd <$> map_to_list sv.2)) <$> map_to_list v).

Definition selectEphemeralVariant (v : variants) (version : Z) (eventType : string) : string :=
  match (v !! eventType : option (gmap Z string)) ≫= (λ byVersion, byVersion !! version) with
  | Some selected => if bool_decide (selected ≠ "") then selected else eventType
  | None => eventType
  end.

(** ** The connection *)

Definition maxReplayBufferedEvents : nat := Z.to_nat 1024.
Definition ContentModeRequired : string := "required".

Record subscriptionState := mkState {
  lastSeq : Z;
  replaying : bool;
  buffered : list pevent;
  bufferedEphemerals : gmap string nat;
}.

Record clientConnection := mkClient {
  protocolVersion : Z;
  contentMode : string;
  publisherTypes : gset string;
  subscriptions : gmap string subscriptionState;
}.

Definition newClientConnection (version : Z) (mode : string) (subs : list Subscription) (replaying : bool)
    (types : gset string) : clientConnection :=
  mkClient version mode types
    (foldl (λ m sub, <[sub_SessionID sub := mkState (sub_LastSeq sub) replaying [] ∅]> m) ∅ subs).

Definition setState (c : clientConnection) (sid : string) (st : subscriptionState) : clientConnection :=
  mkClient (protocolVersion c) (contentMode c) (publisherTypes c) (<[sid := st]> (subscriptions c)).

Definition clonePayload (payload : RawMessage) : RawMessage :=
  match payload with Raw "" => NilRaw | p => p end.

Definition cloneProtocolEvent (ev : pevent) : pevent :=
  Frames.mkEvent (ev_Type ev) (ev_SessionID ev) (ev_Seq ev) (ev_Time ev) (clonePayload (ev_Payload ev)) "".

Definition payloadBytes (payload : RawMessage) : string := match payload with Raw p => p | NilRaw => "" end.

Definition isPublisherEphemeralType (c : clientConnection) (eventType : string) : bool :=
  bool_decide (eventType ∈ publisherTypes c).

(** The types that are counted as sent without being written. *)
Definition filtered (c : clientConnection) (ev : pevent) : bool :=
  let durable := bool_decide (ev_Seq ev ≠ None) in
  negb (EventTypeAllowed (protocolVersion c) (ev_Type ev) durable)
  || (durable && isPublisherEphemeralType c (ev_Type ev)).

Definition markSent (c : clientConnection) (ev : pevent) : clientConnection :=
  match ev_Seq ev, subscriptions c !! ev_SessionID ev with
  | Some seq, Some st =>
      if bool_decide (lastSeq st < seq)
      then setState c (ev_SessionID ev) (mkState seq (replaying st) (buffered st) (bufferedEphemerals st))
      else c
  | _, _ => c
  end.

(** The checks of [sendLiveEvent] for a Session with required encryption. *)
Definition requiredEvent (c : clientConnection) (ev : pevent) : bool :=
  bool_decide (contentMode c ≠ ContentModeRequired) ||
  match ev_Seq ev with
  | None => isEphemeralEvent (ev_Type ev) && sealedEvent (ev_Type ev) (payloadBytes (ev_Payload ev))
  | Some seq =>
      validateRequiredReplayEvent
        (StoreApi.mkEvent (ev_SessionID ev) seq (ev_Type ev) (of_UnixMilli 0) (payloadBytes (ev_Payload ev)))
        (ev_SessionID ev)
  end.

(** Buffer an event during the replay: an ephemeral one replaces the earlier
    one of its type. *)
Definition bufferEvent (st : subscriptionState) (ev : pevent) : option subscriptionState :=
  let replaced := match ev_Seq ev with None => bufferedEphemerals st !! ev_Type ev | Some _ => None end in
  match replaced with
  | Some index => Some (mkState (lastSeq st) (replaying st) (<[index := cloneProtocolEvent ev]> (buffered st)) (bufferedEphemerals st))
  | None =>
      if bool_decide (maxReplayBufferedEvents ≤ length (buffered st))%nat then None
      else Some (mkState (lastSeq st) (replaying st) (buffered st ++ [cloneProtocolEvent ev])
                   (if bool_decide (ev_Seq ev = None) then <[ev_Type ev := length (buffered st)]> (bufferedEphemerals st)
                    else bufferedEphemerals st))
  end.

(** What [sendLiveEvent] goes on to do. *)
Inductive outcome := Delivered | Failed | Write.

(** [sendLiveEvent] up to the write of the frame. *)
Definition liveBegin (c : clientConnection) (ev : pevent) : clientConnection * outcome :=
  if negb (requiredEvent c ev) then (c, Failed)
  else if filtered c ev then (markSent c ev, Delivered)
  else
    match subscriptions c !! ev_SessionID ev with
    | None => (c, Delivered)
    | Some st =>
        if replaying st then
          match bufferEvent st ev with
          | Some st' => (setState c (ev_SessionID ev) st', Delivered)
          | None => (c, Failed)
          end
        else
          match ev_Seq ev with
          | Some seq => (c, if bool_decide (seq ≤ lastSeq st) then Delivered else Write)
          | None => (c, Write)
          end
    end.

(** The locked part of a round of [finishReplay]: the buffered events, or
    [None] when the subscription has gone live. *)
Definition takeBuffered (c : clientConnection) (sid : string) : clientConnection * option (list pevent) :=
  match subscriptions c !! sid with
  | None => (c, None)
  | Some st =>
      match buffered st with
      | [] => (setState c sid (mkState (lastSeq st) false [] ∅), None)
      | evs => (setState c sid (mkState (lastSeq st) (replaying st) [] ∅), Some evs)
      end
  end.

(** [writeBufferedEvent] up to the write: is the event still to be sent? *)
Definition unsent (c : clientConnection) (ev : pevent) : bool :=
  match subscriptions c !! ev_SessionID ev with
  | None => false
  | Some st => match ev_Seq ev with Some seq => bool_decide (lastSeq st < seq) | None => true end
  end.

(** ** The Hub around one connection *)

(** The frame of a durable event. *)
Definition frameOfEvent (e : sevent) : pevent :=
  Frames.mkEvent (Type_ e) (SessionID e) (Some (Seq e)) (UnixMilli (Time e)) (Raw (Payload e)) "".

(** The goroutine that holds the publication gate of a Session: it sends the
    queued events one after the other; [Writing] has passed the check of
    [sendLiveEvent], [Marking] has written the frame. *)
Inductive publisher :=
  | Sending (queue : list pevent)
  | Writing (ev : pevent) (queue : list pevent)
  | Marking (ev : pevent) (queue : list pevent).

(** The goroutine that serves the connection: [prepareTailBootstrap], then for
    each subscription the replay and [finishReplay], then the read loop. *)
Inductive replayer :=
  | Prepare (todo : list Subscription)
  | PrepareSet (latest : Z) (sid : string) (todo : list Subscription)
  | Next (todo : list Subscription)
  | Replaying (evs : list sevent) (sid : string) (todo : list Subscription)
  | ReplayMark (ev : pevent) (evs : list sevent) (sid : string) (todo : list Subscription)
  | Drain (evs : list pevent) (sid : string) (todo : list Subscription)
  | DrainWrite (ev : pevent) (evs : list pevent) (sid : string) (todo : list Subscription)
  | DrainMark (ev : pevent) (evs : list pevent) (sid : string) (todo : list Subscription)
  | Serving
  | Stopped.

Record hub := mkHub {
  log : gmap string (list sevent);
  types : variants;
  client : clientConnection;
  subscribed : list Subscription;
  written : list pevent;
  connected : bool;
  serving : replayer;
  publishers : gmap string publisher;
  inflight : list pevent;
}.

Definition logOf (h : hub) (sid : string) : list sevent := default [] (log h !! sid).
Definition publisherOf (h : hub) (sid : string) : publisher := default (Sending []) (publishers h !! sid).

(** [registerPeer]: the connection is a subscriber before the hello is
    acknowledged. *)
Definition registerPeer (l : gmap string (list sevent)) (v : variants) (version : Z) (mode : string)
    (subs : list Subscription) : hub :=
  mkHub l v (newClientConnection version mode subs true (publisherEphemeralTypes v)) subs [] true (Prepare subs) ∅ [].

Definition withClient (h : hub) (c : clientConnection) : hub :=
  mkHub (log h) (types h) c (subscribed h) (written h) (connected h) (serving h) (publishers h) (inflight h).
Definition withServing (h : hub) (r : replayer) : hub :=
  mkHub (log h) (types h) (client h) (subscribed h) (written h) (connected h) r (publishers h) (inflight h).
Definition withPublisher (h : hub) (sid : string) (p : publisher) : hub :=
  mkHub (log h) (types h) (client h) (subscribed h) (written h) (connected h) (serving h) (<[sid := p]> (publishers h)) (inflight h).
Definition withInflight (h : hub) (l : list pevent) : hub :=
  mkHub (log h) (types h) (client h) (subscribed h) (written h) (connected h) (serving h) (publishers h) l.
Definition writeFrame (h : hub) (ev : pevent) : hub :=
  mkHub (log h) (types h) (client h) (subscribed h) (written h ++ [ev]) (connected h) (serving h) (publishers h) (inflight h).
(** [unregisterClient] and the close of the socket. *)
Definition disconnect (h : hub) : hub :=
  mkHub (log h) (types h) (client h) (subscribed h) (written h) false (serving h) (publishers h) (inflight h).
Definition commit (h : hub) (sid : string) (evs : list sevent) : hub :=
  mkHub (<[sid := logOf h sid ++ evs]> (log h)) (types h) (client h) (subscribed h) (written h) (connected h) (serving h)
    (<[sid := Sending (frameOfEvent <$> evs)]> (publishers h)) (inflight h).

Inductive action :=
  | Commit (sid : string) (evs : list PendingEvent)  (** an append under the gate, whose events are then published *)
  | Rebroadcast (sid : string) (seqs : list Z)       (** a repeated proposal publishes stored events again *)
  | Abandon (sid : string)                           (** the writer leaves the gate without publishing the rest *)
  | Publish (sid : string) (ok : bool)               (** the next segment of the writer; [ok]: the write succeeds *)
  | Ephemeral (ev : pevent)                          (** an ephemeral event up to its write *)
  | EphemeralWrite (i : nat) (ok : bool)
  | Serve (ok : bool).                               (** the next segment of the serving goroutine *)

(** ** The writer of a Session *)

Definition isTarget (h : hub) (sid : string) : bool := connected h && bool_decide (is_Some (subscriptions (client h) !! sid)).

Definition publishStep (h : hub) (sid : string) (ok : bool) : option hub :=
  match publisherOf h sid with
  | Sending [] => None
  | Sending (ev :: queue) =>
      if negb (isTarget h sid) then Some (withPublisher h sid (Sending queue))
      else
        let '(c, o) := liveBegin (client h) ev in
        Some (match o with
              | Delivered => withPublisher (withClient h c) sid (Sending queue)
              | Failed => withPublisher (disconnect h) sid (Sending queue)
              | Write => withPublisher h sid (Writing ev queue)
              end)
  | Writing ev queue =>
      Some (if ok && connected h then withPublisher (writeFrame h ev) sid (Marking ev queue)
            else withPublisher (disconnect h) sid (Sending queue))
  | Marking ev queue => Some (withPublisher (withClient h (markSent (client h) ev)) sid (Sending queue))
  end.

(** ** Ephemeral events *)

Definition ephemeralStep (h : hub) (ev : pevent) : option hub :=
  if bool_decide (ev_Seq ev ≠ None) then None
  else if negb (isTarget h (ev_SessionID ev)) then Some h
  else
    let out := Frames.mkEvent (selectEphemeralVariant (types h) (protocolVersion (client h)) (ev_Type ev)) (ev_SessionID ev)
                 None (ev_Time ev) (ev_Payload ev) (ev_ProposalID ev) in
    let '(c, o) := liveBegin (client h) out in
    Some (match o with
          | Delivered => withClient h c
          | Failed => disconnect h
          | Write => withInflight h (inflight h ++ [out])
          end).

Definition ephemeralWriteStep (h : hub) (i : nat) (ok : bool) : option hub :=
  ev ← inflight h !! i;
  let h' := withInflight h (delete i (inflight h)) in
  Some (if ok && connected h then writeFrame h' ev else disconnect h').

(** ** The serving goroutine *)

Definition stop (h : hub) : hub := withServing (disconnect h) Stopped.

Definition setWatermark (h : hub) (sid : string) (latest : Z) : hub :=
  let c := match subscriptions (client h) !! sid with
           | Some st => setState (client h) sid (mkState latest (replaying st) (buffered st) (bufferedEphemerals st))
           | None => client h
           end in
  let subs := (λ sub, if bool_decide (sub_SessionID sub = sid)
                      then mkSubscription sid latest (sub_SkipReplay sub) else sub) <$> subscribed h in
  mkHub (log h) (types h) c subs (written h) (connected h) (serving h) (publishers h) (inflight h).

(** The checks of [replayBootstrap] on what the Store returns. *)
Fixpoint validBootstrap (sub : Subscription) (previous : Z) (allowed : list string) (events : list sevent) : bool :=
  match events with
  | [] => true
  | ev :: events =>
      bool_decide (SessionID ev = sub_SessionID sub) && bool_decide (previous < Seq ev)
      && bool_decide (Seq ev ≤ sub_LastSeq sub) && bool_decide (Type_ ev ∈ allowed)
      && validBootstrap sub (Seq ev) (filter (λ t, t ≠ Type_ ev) allowed) events
  end.

Definition requiredHistory (c : clientConnection) (ev : sevent) (sid : string) : bool :=
  bool_decide (contentMode c ≠ ContentModeRequired) || validateRequiredReplayEvent ev sid.

(** What is replayed for a subscription: the state at the watermark, or the
    events after the last one the client has. *)
Definition replayEvents (h : hub) (sub : Subscription) : option (list sevent) :=
  if sub_SkipReplay sub then
    let events := bootstrapOf (logOf h (sub_SessionID sub)) (sub_LastSeq sub) in
    if bool_decide (length events ≤ length BootstrapEventTypes)%nat && validBootstrap sub 0 BootstrapEventTypes events
       && forallb (λ ev, requiredHistory (client h) ev (sub_SessionID sub)) events
    then Some events else None
  else Some (filter (λ ev, sub_LastSeq sub < Seq ev) (logOf h (sub_SessionID sub))).

Definition serveStep (h : hub) (ok : bool) : option hub :=
  match serving h with
  | Prepare [] => Some (withServing h (Next (subscribed h)))
  | Prepare (sub :: todo) =>
      if negb (sub_SkipReplay sub) then Some (withServing h (Prepare todo))
      else
        let latest := Z.of_nat (length (logOf h (sub_SessionID sub))) in
        Some (if bool_decide (latest < sub_LastSeq sub) then stop h
              else withServing h (PrepareSet latest (sub_SessionID sub) todo))
  | PrepareSet latest sid todo => Some (withServing (setWatermark h sid latest) (Prepare todo))
  | Next [] => Some (withServing h Serving)
  | Next (sub :: todo) =>
      Some (match replayEvents h sub with
            | Some evs => withServing h (Replaying evs (sub_SessionID sub) todo)
            | None => stop h
            end)
  | Replaying [] sid todo => Some (withServing h (Drain [] sid todo))
  | Replaying (ev :: evs) sid todo =>
      let frame := frameOfEvent ev in
      Some (if negb (requiredHistory (client h) ev sid) then stop h
            else if filtered (client h) frame
            then withServing (withClient h (markSent (client h) frame)) (Replaying evs sid todo)
            else if ok && connected h then withServing (writeFrame h frame) (ReplayMark frame evs sid todo)
            else stop h)
  | ReplayMark ev evs sid todo => Some (withServing (withClient h (markSent (client h) ev)) (Replaying evs sid todo))
  | Drain [] sid todo =>
      let '(c, evs) := takeBuffered (client h) sid in
      Some (withServing (withClient h c) (match evs with Some evs => Drain evs sid todo | None => Next todo end))
  | Drain (ev :: evs) sid todo =>
      Some (withServing h (if unsent (client h) ev then DrainWrite ev evs sid todo else Drain evs sid todo))
  | DrainWrite ev evs sid todo =>
      Some (if ok && connected h then withServing (writeFrame h ev) (DrainMark ev evs sid todo) else stop h)
  | DrainMark ev evs sid todo => Some (withServing (withClient h (markSent (client h) ev)) (Drain evs sid todo))
  | Serving => if ok then None else Some (stop h)
  | Stopped => None
  end.

Definition idle (p : publisher) : bool := match p with Sending [] => true | _ => false end.

Definition step (a : action) (h : hub) : option hub :=
  match a with
  | Commit sid evs =>
      if idle (publisherOf h sid) && forallb (λ ev, bool_decide (pe_Payload ev ≠ "")) evs
      then Some (commit h sid (numbered sid (Z.of_nat (length (logOf h sid)) + 1) evs)) else None
  | Rebroadcast sid seqs =>
      if idle (publisherOf h sid)
      then Some (withPublisher h sid (Sending (frameOfEvent <$> omap (λ seq, logOf h sid !! Z.to_nat (seq - 1)) seqs))) else None
  | Abandon sid => match publisherOf h sid with Sending _ => Some (withPublisher h sid (Sending [])) | _ => None end
  | Publish sid ok => publishStep h sid ok
  | Ephemeral ev => ephemeralStep h ev
  | EphemeralWrite i ok => ephemeralWriteStep h i ok
  | Serve ok => serveStep h ok
  end.

Fixpoint run (actions : list action) (h : hub) : option hub :=
  match actions with
  | [] => Some h
  | a :: actions => h' ← step a h; run actions h'
  end.

End ClientDelivery.
