(* ===== verification/DeliveryProofs.v ===== *)
(** * One subscription of a client connection

    What the Hub does to a single subscription, as a relation on its view: the
    log of the Session, the state of the subscription, the writer of the
    Session, how far the serving goroutine is with it, and the durable events
    written.  The relation keeps the order of what is written and, when no
    writer leaves events unpublished, its completeness. *)

From S2P Require Import Prelude StoreApi Json Wire GoText EncryptedPacket Frames Codec HubReplay ClientDelivery.
From Stdlib Require Import Sorting.Sorted.
From stdpp Require Import base gmap strings list option.
#[local] Open Scope Z_scope.

Module DeliveryProofs.
Import Wire Frames Codec HubReplay ClientDelivery.

(** How far the serving goroutine is with the subscription. *)
Inductive phase :=
  | Unsampled
  | Sampled (latest : Z)
  | Waiting
  | InReplay (evs : list sevent)
  | InReplayMark (ev : pevent) (evs : list sevent)
  | InDrain (evs : list pevent)
  | InDrainWrite (ev : pevent) (evs : list pevent)
  | InDrainMark (ev : pevent) (evs : list pevent)
  | Live
  | Dead.

Record view := View {
  v_log : list sevent;
  v_state : subscriptionState;
  v_pub : publisher;
  v_phase : phase;
  v_out : list pevent;
  v_base : Z;
  v_skip : bool;
  v_open : bool;
}.

Definition marked (st : subscriptionState) (ev : pevent) : subscriptionState :=
  match ev_Seq ev with
  | Some seq => if bool_decide (lastSeq st < seq)
                then mkState seq (replaying st) (buffered st) (bufferedEphemerals st) else st
  | None => st
  end.

#[local] Arguments marked : simpl never.

Definition durables (ev : pevent) : list pevent := match ev_Seq ev with Some _ => [ev] | None => [] end.

(** The writer of the Session and ephemeral events; [F] says which types the
    connection filters, [lost] that a writer may leave events unpublished. *)
Inductive publishing (F : pevent → bool) (sid : string) (lost : bool) : view → view → Prop :=
  | l_commit L st ph out b k o evs :
      Forall (λ ev, pe_Payload ev ≠ "") evs →
      publishing F sid lost (View L st (Sending []) ph out b k o)
        (View (L ++ numbered sid (Z.of_nat (length L) + 1) evs) st
           (Sending (frameOfEvent <$> numbered sid (Z.of_nat (length L) + 1) evs)) ph out b k o)
  | l_again L st ph out b k o q :
      Forall (λ ev, ev ∈ frameOfEvent <$> L) q →
      publishing F sid lost (View L st (Sending []) ph out b k o) (View L st (Sending q) ph out b k o)
  | l_abandon L st q ph out b k o :
      lost = true → publishing F sid lost (View L st (Sending q) ph out b k o) (View L st (Sending []) ph out b k o)
  | l_skip L st ev q ph out b k :
      publishing F sid lost (View L st (Sending (ev :: q)) ph out b k false) (View L st (Sending q) ph out b k false)
  | l_filtered L st ev q ph out b k :
      F ev = true →
      publishing F sid lost (View L st (Sending (ev :: q)) ph out b k true) (View L (marked st ev) (Sending q) ph out b k true)
  | l_buffer L st st' ev q ph out b k :
      F ev = false → replaying st = true → bufferEvent st ev = Some st' →
      publishing F sid lost (View L st (Sending (ev :: q)) ph out b k true) (View L st' (Sending q) ph out b k true)
  | l_stale L st ev q seq ph out b k :
      replaying st = false → ev_Seq ev = Some seq → seq ≤ lastSeq st →
      publishing F sid lost (View L st (Sending (ev :: q)) ph out b k true) (View L st (Sending q) ph out b k true)
  | l_begin L st ev q seq ph out b k :
      replaying st = false → ev_Seq ev = Some seq → lastSeq st < seq →
      publishing F sid lost (View L st (Sending (ev :: q)) ph out b k true) (View L st (Writing ev q) ph out b k true)
  | l_fail L st ev q ph out b k o :
      publishing F sid lost (View L st (Sending (ev :: q)) ph out b k o) (View L st (Sending q) ph out b k false)
  | l_unwritten L st ev q ph out b k o :
      publishing F sid lost (View L st (Writing ev q) ph out b k o) (View L st (Sending q) ph out b k false)
  | l_write L st ev q ph out b k :
      publishing F sid lost (View L st (Writing ev q) ph out b k true) (View L st (Marking ev q) ph (out ++ durables ev) b k true)
  | l_mark L st ev q ph out b k o :
      publishing F sid lost (View L st (Marking ev q) ph out b k o) (View L (marked st ev) (Sending q) ph out b k o)
  | l_close L st p ph out b k o : publishing F sid lost (View L st p ph out b k o) (View L st p ph out b k false)
  | l_ephemeral L st st' p ev ph out b k o :
      ev_Seq ev = None → ev_SessionID ev = sid → replaying st = true → bufferEvent st ev = Some st' →
      publishing F sid lost (View L st p ph out b k o) (View L st' p ph out b k o).

(** The serving goroutine. *)
Inductive serves (F : pevent → bool) (sid : string) : view → view → Prop :=
  | l_wait L st p out b o : serves F sid (View L st p Unsampled out b false o) (View L st p Waiting out b false o)
  | l_sample L st p out b o :
      b ≤ Z.of_nat (length L) →
      serves F sid (View L st p Unsampled out b true o) (View L st p (Sampled (Z.of_nat (length L))) out b true o)
  | l_watermark L st p n out b k o :
      serves F sid (View L st p (Sampled n) out b k o)
        (View L (mkState n (replaying st) (buffered st) (bufferedEphemerals st)) p Waiting out n k o)
  | l_replay L st p out b o :
      serves F sid (View L st p Waiting out b false o) (View L st p (InReplay (filter (λ ev, b < Seq ev) L)) out b false o)
  | l_bootstrap L st p out b o evs :
      Forall (λ ev, ev ∈ L ∧ Seq ev ≤ b) evs → StronglySorted (λ e e', Seq e < Seq e') evs →
      serves F sid (View L st p Waiting out b true o) (View L st p (InReplay evs) out b true o)
  | l_replayed L st p out b k o : serves F sid (View L st p (InReplay []) out b k o) (View L st p (InDrain []) out b k o)
  | l_unsent L st p ev evs out b k o :
      F (frameOfEvent ev) = true →
      serves F sid (View L st p (InReplay (ev :: evs)) out b k o) (View L (marked st (frameOfEvent ev)) p (InReplay evs) out b k o)
  | l_rwrite L st p ev evs out b k :
      serves F sid (View L st p (InReplay (ev :: evs)) out b k true)
        (View L st p (InReplayMark (frameOfEvent ev) evs) (out ++ [frameOfEvent ev]) b k true)
  | l_rmark L st p ev evs out b k o :
      serves F sid (View L st p (InReplayMark ev evs) out b k o) (View L (marked st ev) p (InReplay evs) out b k o)
  | l_take L st p out b k o :
      buffered st ≠ [] →
      serves F sid (View L st p (InDrain []) out b k o)
        (View L (mkState (lastSeq st) (replaying st) [] ∅) p (InDrain (buffered st)) out b k o)
  | l_live L st p out b k o :
      buffered st = [] →
      serves F sid (View L st p (InDrain []) out b k o) (View L (mkState (lastSeq st) false [] ∅) p Live out b k o)
  | l_dstale L st p ev evs seq out b k o :
      ev_Seq ev = Some seq → seq ≤ lastSeq st →
      serves F sid (View L st p (InDrain (ev :: evs)) out b k o) (View L st p (InDrain evs) out b k o)
  | l_dbegin L st p ev evs out b k o :
      (∀ seq, ev_Seq ev = Some seq → lastSeq st < seq) →
      serves F sid (View L st p (InDrain (ev :: evs)) out b k o) (View L st p (InDrainWrite ev evs) out b k o)
  | l_dwrite L st p ev evs out b k :
      serves F sid (View L st p (InDrainWrite ev evs) out b k true)
        (View L st p (InDrainMark ev evs) (out ++ durables ev) b k true)
  | l_dmark L st p ev evs out b k o :
      serves F sid (View L st p (InDrainMark ev evs) out b k o) (View L (marked st ev) p (InDrain evs) out b k o)
  | l_stop L st p ph out b k o : serves F sid (View L st p ph out b k o) (View L st p Dead out b k false).

Inductive local (F : pevent → bool) (sid : string) (lost : bool) (v v' : view) : Prop :=
  | local_publishing : publishing F sid lost v v' → local F sid lost v v'
  | local_serves : serves F sid v v' → local F sid lost v v'.

(** ** Order *)

Definition seqOf (ev : pevent) : Z := default 0 (ev_Seq ev).
Definition top (out : list pevent) : Z := match list.last out with Some ev => seqOf ev | None => 0 end.
Definition increasing (out : list pevent) : Prop := StronglySorted (λ a b, seqOf a < seqOf b) out.

Definition okLog (sid : string) (L : list sevent) : Prop :=
  ∀ i e, L !! i = Some e → Seq e = Z.of_nat i + 1 ∧ SessionID e = sid ∧ Payload e ≠ "".

(** The frame of an event of the log. *)
Definition stored (L : list sevent) (ev : pevent) : Prop := ev ∈ frameOfEvent <$> L.
Definition genuine (sid : string) (L : list sevent) (ev : pevent) : Prop :=
  match ev_Seq ev with None => ev_SessionID ev = sid | Some _ => stored L ev end.

Definition finished (ph : phase) : Prop := ph = Live ∨ ph = Dead.

Definition okPublisher (L : list sevent) (ph : phase) (out : list pevent) (p : publisher) : Prop :=
  match p with
  | Sending q => Forall (stored L) q
  | Writing ev q => stored L ev ∧ Forall (stored L) q ∧ finished ph ∧ top out < seqOf ev
  | Marking ev q => stored L ev ∧ Forall (stored L) q ∧ finished ph ∧ top out = seqOf ev
  end.

Definition okPhase (sid : string) (L : list sevent) (st : subscriptionState) (out : list pevent) (b : Z) (k o : bool) (ph : phase) : Prop :=
  match ph with
  | Unsampled | Waiting => out = [] ∧ replaying st = true
  | Sampled n => out = [] ∧ replaying st = true ∧ 0 ≤ n
  | InReplay evs =>
      Forall (λ e, e ∈ L ∧ top out < Seq e) evs ∧ StronglySorted (λ e e', Seq e < Seq e') evs ∧ replaying st = true
  | InReplayMark ev evs =>
      Forall (λ e, e ∈ L ∧ top out < Seq e) evs ∧ StronglySorted (λ e e', Seq e < Seq e') evs ∧ replaying st = true
      ∧ stored L ev ∧ top out = seqOf ev
  | InDrain evs => Forall (genuine sid L) evs ∧ replaying st = true
  | InDrainWrite ev evs =>
      Forall (genuine sid L) (ev :: evs) ∧ replaying st = true ∧ (o = true → ev_Seq ev ≠ None → top out < seqOf ev)
  | InDrainMark ev evs =>
      Forall (genuine sid L) (ev :: evs) ∧ replaying st = true ∧ (ev_Seq ev ≠ None → top out = seqOf ev)
  | Live => replaying st = false
  | Dead => o = false
  end.

(** The event that was written but not yet counted as sent. *)
Definition unmarked (p : publisher) (ph : phase) : Z :=
  match p, ph with
  | Marking ev _, _ => seqOf ev
  | _, InReplayMark ev _ | _, InDrainMark ev _ => seqOf ev
  | _, _ => 0
  end.

Definition okBuffer (sid : string) (L : list sevent) (st : subscriptionState) : Prop :=
  Forall (genuine sid L) (buffered st) ∧
  (∀ ty i, bufferedEphemerals st !! ty = Some i →
     ∃ ev, buffered st !! i = Some ev ∧ ev_Seq ev = None ∧ ev_Type ev = ty) ∧
  (length (buffered st) ≤ maxReplayBufferedEvents)%nat.

Record ordered (sid : string) (v : view) : Prop := {
  o_log : okLog sid (v_log v);
  o_out : Forall (stored (v_log v)) (v_out v);
  o_increasing : increasing (v_out v);
  o_buffer : okBuffer sid (v_log v) (v_state v);
  o_publisher : okPublisher (v_log v) (v_phase v) (v_out v) (v_pub v);
  o_phase : okPhase sid (v_log v) (v_state v) (v_out v) (v_base v) (v_skip v) (v_open v) (v_phase v);
  o_top : v_open v = true → top (v_out v) ≤ Z.max (lastSeq (v_state v)) (unmarked (v_pub v) (v_phase v));
}.

(** *** Lists *)

Lemma top_snoc out ev : top (out ++ [ev]) = seqOf ev.
Proof. unfold top. by rewrite last_snoc. Qed.

Lemma sorted_snoc {A} (R : A → A → Prop) (l : list A) x :
  StronglySorted R l → Forall (λ y, R y x) l → StronglySorted R (l ++ [x]).
Proof.
  induction 1 as [|y l Hs IH Hy]; intros Hx; cbn; [repeat constructor|].
  apply list.Forall_cons in Hx as [Hyx Hx]. constructor; [by apply IH|].
  apply list.Forall_app. split; [done|by constructor].
Qed.

Lemma increasing_top out : increasing out → Forall (λ ev, seqOf ev ≤ top out) out.
Proof.
  intros Hs. apply list.Forall_forall. intros ev Hev.
  destruct out as [|x out _] using rev_ind; [by apply elem_of_nil in Hev|]. rewrite top_snoc.
  apply elem_of_app in Hev as [Hev|Hev%list_elem_of_singleton]; [|by subst].
  enough (seqOf ev < seqOf x) by lia. clear -Hs Hev.
  induction out as [|y out IH]; [by apply elem_of_nil in Hev|]. inversion Hs as [|? ? Hs' Hy]; subst.
  apply elem_of_cons in Hev as [->|Hev]; [|by apply IH].
  rewrite list.Forall_forall in Hy. apply Hy, elem_of_app. right. by apply list_elem_of_singleton.
Qed.

Lemma increasing_snoc out ev : increasing out → top out < seqOf ev → increasing (out ++ [ev]).
Proof.
  intros Hs Ht. apply sorted_snoc; [done|]. eapply list.Forall_impl; [by apply increasing_top|]. cbn. lia.
Qed.

Lemma increasing_durables out ev :
  increasing out → (ev_Seq ev ≠ None → top out < seqOf ev) → increasing (out ++ durables ev).
Proof.
  intros Hs Ht. unfold durables. destruct (ev_Seq ev) eqn:E; [|by rewrite app_nil_r]. by apply increasing_snoc, Ht.
Qed.

(** *** Stored events *)

Lemma stored_seq sid L ev :
  okLog sid L → stored L ev →
  ∃ i e, L !! i = Some e ∧ ev = frameOfEvent e ∧ ev_Seq ev = Some (Z.of_nat i + 1) ∧ seqOf ev = Z.of_nat i + 1
         ∧ ev_SessionID ev = sid ∧ cloneProtocolEvent ev = ev.
Proof.
  intros HL (e & -> & Hin)%list_elem_of_fmap. apply list_elem_of_lookup in Hin as [i Hi].
  destruct (HL i e Hi) as (Hs & Hsid & Hp). exists i, e. unfold seqOf, cloneProtocolEvent, frameOfEvent. cbn. rewrite Hs.
  split_and!; try done. f_equal. destruct (Payload e); [done|reflexivity].
Qed.

Lemma stored_app L L' ev : stored L ev → stored (L ++ L') ev.
Proof. unfold stored. rewrite fmap_app, elem_of_app. by left. Qed.

Lemma genuine_app sid L L' ev : genuine sid L ev → genuine sid (L ++ L') ev.
Proof. unfold genuine. destruct (ev_Seq ev); [apply stored_app|done]. Qed.

Lemma stored_genuine sid L ev : stored L ev → genuine sid L ev.
Proof. intros (e & -> & Hin)%list_elem_of_fmap. unfold genuine. cbn. apply list_elem_of_fmap. by exists e. Qed.

Lemma genuine_clone sid L ev : okLog sid L → genuine sid L ev → genuine sid L (cloneProtocolEvent ev).
Proof.
  intros HL Hg. unfold genuine in *. cbn. destruct (ev_Seq ev) eqn:E; [|done].
  destruct (stored_seq _ _ _ HL Hg) as (_ & _ & _ & _ & _ & _ & _ & ->). done.
Qed.

Lemma okLog_numbered sid L evs :
  okLog sid L → Forall (λ ev, pe_Payload ev ≠ "") evs → okLog sid (L ++ numbered sid (Z.of_nat (length L) + 1) evs).
Proof.
  intros HL Hp i e. rewrite lookup_app. destruct (L !! i) as [e'|] eqn:E; [intros [= ->]; by apply HL|].
  intros Hi. apply lookup_ge_None in E. rewrite numbered_lookup in Hi.
  destruct (evs !! (i - length L)%nat) as [ev|] eqn:Ev; [|done]. injection Hi as <-. cbn.
  split_and!; [lia|done|]. by apply (list.Forall_lookup_1 _ _ _ _ Hp Ev).
Qed.

(** *** The state of the subscription *)

Lemma marked_same st ev :
  replaying (marked st ev) = replaying st ∧ buffered (marked st ev) = buffered st
  ∧ bufferedEphemerals (marked st ev) = bufferedEphemerals st.
Proof. unfold marked. destruct (ev_Seq ev); [|done]. by case_bool_decide. Qed.

Lemma marked_lastSeq st ev : 0 ≤ lastSeq st → lastSeq (marked st ev) = Z.max (lastSeq st) (seqOf ev).
Proof.
  unfold marked, seqOf. destruct (ev_Seq ev); cbn; [|lia]. case_bool_decide; cbn; lia.
Qed.

Lemma marked_ge st ev : lastSeq st ≤ lastSeq (marked st ev) ∧ (ev_Seq ev ≠ None → seqOf ev ≤ lastSeq (marked st ev)).
Proof.
  unfold marked, seqOf. destruct (ev_Seq ev) as [seq|]; [|done]. cbn. case_bool_decide; cbn; lia.
Qed.

Lemma bufferEvent_ok sid L st ev st' :
  okLog sid L → okBuffer sid L st → genuine sid L ev → bufferEvent st ev = Some st' →
  okBuffer sid L st' ∧ lastSeq st' = lastSeq st ∧ replaying st' = replaying st
  ∧ (buffered st' ≫= durables) = (buffered st ≫= durables) ++ durables (cloneProtocolEvent ev).
Proof.
  intros HL (Hg & He & Hlen) Hev. unfold bufferEvent. pose proof (genuine_clone _ _ _ HL Hev) as Hc.
  destruct (match ev_Seq ev with None => _ | Some _ => None end) as [i|] eqn:Hi.
  - destruct (ev_Seq ev) eqn:Es; [done|]. intros [= <-]. destruct (He _ _ Hi) as (old & Hold & Hos & Hot).
    split; [|split_and!; try done].
    + split_and!; cbn.
      * by apply Forall_insert.
      * intros ty j Hj. destruct (decide (j = i)) as [->|Hne].
        -- exists (cloneProtocolEvent ev). rewrite list_lookup_insert_eq by by eapply lookup_lt_Some. cbn.
           destruct (He _ _ Hj) as (x & Hx & _ & <-). rewrite Hold in Hx. injection Hx as <-. by rewrite Es, Hot.
        -- destruct (He _ _ Hj) as (x & Hx & ? & ?). exists x. by rewrite list_lookup_insert_ne.
      * by rewrite length_insert.
    + cbn. unfold durables at 3. cbn. rewrite Es, app_nil_r. rewrite insert_take_drop by by eapply lookup_lt_Some.
      rewrite <- (take_drop_middle _ _ _ Hold) at 3. rewrite !bind_app. cbn. unfold durables at 2 5. cbn. by rewrite Es, Hos.
  - case_bool_decide as Hfull; [done|]. intros [= <-]. split; [|split_and!; try done].
    + split_and!; cbn.
      * apply list.Forall_app. split; [done|]. by constructor.
      * assert (∀ ty j, bufferedEphemerals st !! ty = Some j →
           ∃ e, (buffered st ++ [cloneProtocolEvent ev]) !! j = Some e ∧ ev_Seq e = None ∧ ev_Type e = ty) as Hold.
        { intros ty j Hj. destruct (He _ _ Hj) as (x & Hx & ? & ?). exists x. by rewrite lookup_app, Hx. }
        case_bool_decide as Hs; [|done]. intros ty j. rewrite lookup_insert_Some. intros [[<- <-]|[_ Hj]]; [|by apply Hold].
        exists (cloneProtocolEvent ev). by rewrite lookup_app_r, Nat.sub_diag by lia.
      * rewrite length_app. cbn. lia.
    + cbn. rewrite bind_app. cbn. by rewrite app_nil_r.
Qed.

Lemma okBuffer_app sid L L' st : okBuffer sid L st → okBuffer sid (L ++ L') st.
Proof. intros (Hg & He & Hl). split_and!; try done. eapply list.Forall_impl; [done|]. intros ev. apply genuine_app. Qed.

(** *** Every step keeps the order *)

Lemma okPublisher_app L L' ph out p : okPublisher L ph out p → okPublisher (L ++ L') ph out p.
Proof.
  destruct p; cbn; intros H; split_and?; destruct_and?; eauto using stored_app;
    eapply list.Forall_impl; eauto using stored_app.
Qed.

Lemma okPhase_app sid L L' st out b k o ph : okPhase sid L st out b k o ph → okPhase sid (L ++ L') st out b k o ph.
Proof.
  destruct ph; cbn; intros H; destruct_and?; split_and?; try done; try by apply stored_app.
  all: eapply list.Forall_impl; [done|]; cbn; intros x.
  all: first [apply genuine_app | intros []; split; [apply elem_of_app; by left|done]].
Qed.

Lemma okPhase_state sid L st st' out b k o ph :
  replaying st' = replaying st → okPhase sid L st out b k o ph → okPhase sid L st' out b k o ph.
Proof. intros Hr. destruct ph; cbn; by rewrite ?Hr. Qed.

Lemma okPhase_closed sid L st out b k o ph : okPhase sid L st out b k o ph → okPhase sid L st out b k false ph.
Proof. destruct ph; cbn; naive_solver. Qed.

Lemma okPublisher_phase L ph ph' out p :
  (finished ph → finished ph') → okPublisher L ph out p → okPublisher L ph' out p.
Proof. destruct p; cbn; naive_solver. Qed.

Lemma numbered_stored L evs : Forall (stored (L ++ evs)) (frameOfEvent <$> evs).
Proof.
  apply list.Forall_forall. intros ev Hev. unfold stored. rewrite fmap_app, elem_of_app. by right.
Qed.

Lemma not_writing L ph out p :
  okPublisher L ph out p → ¬ finished ph → ∃ q, p = Sending q ∧ Forall (stored L) q.
Proof. destruct p as [q|ev q|ev q]; cbn; [by eauto|naive_solver..]. Qed.

Lemma okLog_sorted sid L b :
  okLog sid L → StronglySorted (λ e e' : sevent, Seq e < Seq e') (filter (λ e, b < Seq e) L).
Proof.
  intros HL. assert (StronglySorted (λ e e' : sevent, Seq e < Seq e') L) as Hs.
  { induction L as [|e L IH] using rev_ind; [constructor|]. apply sorted_snoc.
    - apply IH. intros i e' Hi. apply HL. by apply lookup_app_l_Some.
    - apply list.Forall_forall. intros e' [i Hi]%list_elem_of_lookup.
      destruct (HL (length L) e) as [-> _]; [by rewrite lookup_app_r, Nat.sub_diag by lia|].
      destruct (HL i e') as [-> _]; [by apply lookup_app_l_Some|]. apply lookup_lt_Some in Hi. lia. }
  clear HL. induction Hs as [|e L Hs IH He]; [constructor|]. rewrite filter_cons. case_decide; [|done].
  constructor; [done|]. apply list.Forall_forall. intros e' He'. apply list_elem_of_filter in He' as [_ He'].
  rewrite list.Forall_forall in He. by apply He.
Qed.

Lemma okBuffer_marked sid L st ev : okBuffer sid L st → okBuffer sid L (marked st ev).
Proof. destruct (marked_same st ev) as (_ & Hb & He). unfold okBuffer. by rewrite Hb, He. Qed.

Lemma okPhase_marked sid L st ev out b k o ph : okPhase sid L st out b k o ph → okPhase sid L (marked st ev) out b k o ph.
Proof. apply okPhase_state, marked_same. Qed.

Lemma okBuffer_taken sid L n r : okBuffer sid L (mkState n r [] ∅).
Proof. split_and!; cbn; [constructor|intros ty i; by rewrite lookup_empty|lia]. Qed.

Lemma genuine_durable sid L ev : genuine sid L ev → ev_Seq ev ≠ None → stored L ev.
Proof. unfold genuine. by destruct (ev_Seq ev). Qed.

Lemma durables_stored sid L ev : genuine sid L ev → Forall (stored L) (durables ev).
Proof. unfold genuine, durables. destruct (ev_Seq ev); intros; repeat constructor; done. Qed.

Lemma top_durables out ev : top (out ++ durables ev) = if decide (ev_Seq ev = None) then top out else seqOf ev.
Proof. unfold durables. destruct (ev_Seq ev); cbn; [apply top_snoc|by rewrite app_nil_r]. Qed.

#[local] Hint Resolve okBuffer_marked okPhase_marked okBuffer_taken okPhase_closed stored_genuine : core.

Ltac solve_ordered := constructor; cbn; eauto using okPhase_state; try done.

Lemma publish_ordered F sid lost v v' : publishing F sid lost v v' → ordered sid v → ordered sid v'.
Proof.
  intros Hl [HL Ho Hi Hb Hp Hph Ht]. destruct Hl; cbn in *;
    lazymatch type of Hp with
    | Forall _ (_ :: _) => apply list.Forall_cons in Hp as [He Hp]
    | _ ∧ _ => destruct Hp as (He & Hp & Hfin & Htop)
    | _ => idtac
    end; try solve [solve_ordered].
  - solve_ordered; eauto using okLog_numbered, okBuffer_app, okPhase_app, numbered_stored.
    eapply list.Forall_impl; [done|]. intros; by apply stored_app.
  - solve_ordered. intros _. specialize (Ht eq_refl). pose proof (marked_ge st ev) as [? _]. lia.
  - destruct (bufferEvent_ok sid L st ev st') as (Hb' & Hls & Hr & _); eauto. solve_ordered. by rewrite Hls.
  - specialize (Ht eq_refl).
    assert (ph = Live) as -> by (destruct ph; cbn in Hph; destruct_and?; congruence).
    solve_ordered. split_and!; try done; [by left|]. unfold seqOf. rewrite H0. cbn in *.
    destruct (stored_seq _ _ _ HL He) as (? & ? & _ & _ & Hs & _). rewrite H0 in Hs. injection Hs. lia.
  - destruct (stored_seq _ _ _ HL He) as (? & ? & _ & _ & Hs & _).
    assert (ev_Seq ev ≠ None) as Hd by by rewrite Hs.
    solve_ordered.
    + apply list.Forall_app. split; [done|]. eapply (durables_stored sid); eauto.
    + by apply increasing_durables.
    + rewrite top_durables, decide_False by done. done.
    + by destruct Hfin as [-> | ->].
    + intros _. rewrite top_durables, decide_False by done. lia.
  - solve_ordered. intros Hopen. destruct (stored_seq _ _ _ HL He) as (? & ? & _ & _ & Hs & _).
    pose proof (marked_ge st ev) as [_ Hge]. rewrite Hs in Hge. specialize (Hge ltac:(done)). lia.
  - destruct (bufferEvent_ok sid L st ev st') as (Hb' & Hls & Hr & _); eauto; [by unfold genuine; rewrite H|].
    solve_ordered. by rewrite Hls.
Qed.

Lemma log_seq sid L e : okLog sid L → e ∈ L → 1 ≤ Seq e.
Proof. intros HL [i Hi]%list_elem_of_lookup. destruct (HL i e Hi) as [-> _]. lia. Qed.

Lemma stored_frame L e : e ∈ L → stored L (frameOfEvent e).
Proof. intros H. apply list_elem_of_fmap. by exists e. Qed.

Lemma serves_ordered F sid v v' : serves F sid v v' → ordered sid v → ordered sid v'.
Proof.
  intros Hl [HL Ho Hi Hb Hp Hph Ht]. destruct Hl; cbn in *;
    try (destruct (not_writing _ _ _ _ Hp) as (q & -> & Hq); [by intros [? | ?]|]; clear Hp; cbn in * );
    destruct_and?; try solve [solve_ordered];
    try match goal with H : Forall _ (_ :: _) |- _ => apply list.Forall_cons in H as [? ?] end.
  - solve_ordered. split_and!; [done..|lia].
  - subst out0. solve_ordered. cbn. lia.
  - subst out0. solve_ordered. split_and!; eauto using okLog_sorted. apply list.Forall_forall.
    intros e [_ He]%list_elem_of_filter. split; [done|]. pose proof (log_seq _ _ _ HL He). cbn. lia.
  - subst out0. solve_ordered. split_and!; eauto. eapply list.Forall_impl; [done|]. cbn.
    intros e [He _]. split; [done|]. pose proof (log_seq _ _ _ HL He). lia.
  - match goal with H : StronglySorted _ (_ :: _) |- _ => inversion H; subst end. solve_ordered.
    + split_and!; eauto. by destruct (marked_same st (frameOfEvent ev)) as [-> _].
    + intros Hopen. pose proof (marked_ge st (frameOfEvent ev)) as [? _]. specialize (Ht Hopen). lia.
  - match goal with H : StronglySorted _ (_ :: _) |- _ => inversion H as [|? ? Hs He]; subst end.
    match goal with H : _ ∈ _ ∧ _ |- _ => destruct H as [Hin Htop] end.
    match goal with H : Forall (λ _, _ ∈ _ ∧ _) _ |- _ => rename H into Hevs end. solve_ordered.
    + apply list.Forall_app. split; [done|]. by repeat constructor; apply stored_frame.
    + by apply increasing_snoc.
    + rewrite top_snoc. split_and!; eauto using stored_frame. apply list.Forall_forall. intros e Hin'.
      rewrite list.Forall_forall in He, Hevs. split; [by apply Hevs|]. by apply He.
    + intros _. rewrite top_snoc. unfold seqOf. cbn. lia.
  - solve_ordered; [by destruct (marked_same st ev) as [-> _]; split_and!|]. intros Hopen.
    match goal with H : stored _ ev |- _ => destruct (stored_seq _ _ _ HL H) as (? & ? & _ & _ & Hs & _) end.
    pose proof (marked_ge st ev) as [_ Hge]. rewrite Hs in Hge. specialize (Hge ltac:(done)). lia.
  - destruct Hb as (Hg & _). solve_ordered.
  - solve_ordered.
  - solve_ordered. split_and!; try done; [by constructor|]. intros Hopen Hd. specialize (Ht Hopen).
    unfold seqOf. destruct (ev_Seq ev) as [seq|] eqn:Es; [|done]. cbn. specialize (H seq eq_refl).
    match goal with H : genuine _ _ ev |- _ => rename H into Hg end.
    destruct (stored_seq _ _ _ HL (genuine_durable _ _ _ Hg ltac:(by rewrite Es))) as (? & ? & _ & _ & Hs & _).
    rewrite Es in Hs. injection Hs. lia.
  - assert (top (out0 ++ durables ev) = if decide (ev_Seq ev = None) then top out0 else seqOf ev) as Htop
      by apply top_durables.
    solve_ordered.
    + apply list.Forall_app. split; [done|]. by eapply (durables_stored sid).
    + apply increasing_durables; eauto.
    + split_and!; try done; [by constructor|]. intros Hd. by rewrite Htop, decide_False.
    + intros _. rewrite Htop. case_decide as Hn; [specialize (Ht eq_refl); unfold seqOf; rewrite Hn; cbn|]; lia.
  - solve_ordered; [by destruct (marked_same st ev) as [-> _]|]. intros Hopen. specialize (Ht Hopen).
    pose proof (marked_ge st ev) as [Hm Hge]. unfold seqOf in *. destruct (ev_Seq ev) eqn:Es; cbn in *; [|lia].
    specialize (Hge ltac:(done)). lia.
  - solve_ordered. destruct p; cbn in *; try done; destruct_and?; split_and!; try done; by right.
Qed.

Lemma local_ordered F sid lost v v' : local F sid lost v v' → ordered sid v → ordered sid v'.
Proof. intros [H|H]; [by eapply publish_ordered|by eapply serves_ordered]. Qed.

(** ** Completeness *)

(** Sending the events [P] to a client that has everything up to [k], dropping
    those it has, brings it to [n] without a gap. *)
Fixpoint feeds (k : Z) (P : list pevent) (n : Z) : Prop :=
  match P with
  | [] => k = n
  | ev :: P =>
      match ev_Seq ev with
      | None => feeds k P n
      | Some s => if bool_decide (s ≤ k) then feeds k P n else s = k + 1 ∧ feeds s P n
      end
  end.

Lemma feeds_app k P m Q n : feeds k P m → feeds m Q n → feeds k (P ++ Q) n.
Proof.
  revert k. induction P as [|ev P IH]; intros k; cbn; [by intros ->|].
  destruct (ev_Seq ev); [|by apply IH]. case_bool_decide; [by apply IH|]. intros [? ?] ?. split; [done|by apply IH].
Qed.

Lemma feeds_split k P Q n : feeds k (P ++ Q) n → ∃ m, feeds k P m ∧ feeds m Q n.
Proof.
  revert k. induction P as [|ev P IH]; intros k; cbn; [by exists k|].
  destruct (ev_Seq ev); [|by apply IH]. case_bool_decide; [by apply IH|].
  intros [? (m & ? & ?)%IH]. by exists m.
Qed.

Lemma feeds_durables k P n : feeds k (P ≫= durables) n ↔ feeds k P n.
Proof.
  revert k. induction P as [|ev P IH]; intros k; cbn; [done|]. unfold durables at 1.
  destruct (ev_Seq ev) eqn:E; cbn; rewrite ?E; [|apply IH]. case_bool_decide; by rewrite IH.
Qed.

Lemma feeds_same P P' k n : P ≫= durables = P' ≫= durables → feeds k P n → feeds k P' n.
Proof. intros E. by rewrite <- (feeds_durables k P), E, feeds_durables. Qed.

Lemma feeds_le k P n : feeds k P n → k ≤ n.
Proof.
  revert k. induction P as [|ev P IH]; intros k; cbn; [lia|]. destruct (ev_Seq ev); [|apply IH].
  case_bool_decide; [apply IH|]. intros [-> ?%IH]. lia.
Qed.

Lemma feeds_old P k : Forall (λ ev, ∀ s, ev_Seq ev = Some s → s ≤ k) P → feeds k P k.
Proof.
  induction P as [|ev P IH]; [done|]. intros [Hev HP]%list.Forall_cons. cbn. destruct (ev_Seq ev) as [s|]; [|by apply IH].
  rewrite bool_decide_true by by apply Hev. by apply IH.
Qed.

Lemma feeds_stored sid L k : okLog sid L → 0 ≤ k →
  feeds k (frameOfEvent <$> drop (Z.to_nat k) L) (Z.max k (Z.of_nat (length L))).
Proof.
  intros HL. remember (length L - Z.to_nat k)%nat as d eqn:Hd. revert k Hd.
  induction d as [|d IH]; intros k Hd Hk.
  - rewrite drop_ge by lia. cbn. lia.
  - destruct (lookup_lt_is_Some_2 L (Z.to_nat k)) as [e He]; [lia|].
    rewrite (drop_S _ _ _ He). cbn. destruct (HL _ _ He) as [-> _]. rewrite Z2Nat.id by done.
    rewrite bool_decide_false by lia. split; [done|].
    replace (Z.max k (Z.of_nat (length L))) with (Z.max (k + 1) (Z.of_nat (length L))) by lia.
    replace (S (Z.to_nat k)) with (Z.to_nat (k + 1)) by lia. apply IH; lia.
Qed.

Lemma dense_filter sid L b :
  okLog sid L → 0 ≤ b → filter (λ e : sevent, b < Seq e) L = drop (Z.to_nat b) L.
Proof.
  intros HL Hb. revert b Hb. induction L as [|e L IH] using rev_ind; intros b Hb; [by rewrite drop_nil|].
  rewrite list.filter_app, IH, drop_app; [|intros i e' Hi; by apply HL, lookup_app_l_Some|done].
  f_equal. destruct (HL (length L) e) as [Hs _]; [by rewrite lookup_app_r, Nat.sub_diag by lia|].
  rewrite filter_cons, filter_nil, Hs. case_decide.
  - replace (Z.to_nat b - length L)%nat with 0%nat by lia. done.
  - rewrite drop_ge; [done|]. cbn. lia.
Qed.

(** The frames of the events after [b] up to [k]. *)
Definition segment (L : list sevent) (b k : Z) : list pevent :=
  frameOfEvent <$> take (Z.to_nat (k - b)) (drop (Z.to_nat b) L).

Lemma segment_nil L b : segment L b b = [].
Proof. unfold segment. by rewrite Z.sub_diag. Qed.

Lemma segment_app L X b k : 0 ≤ b ≤ k → k ≤ Z.max b (Z.of_nat (length L)) → segment (L ++ X) b k = segment L b k.
Proof.
  intros Hb Hk. unfold segment. destruct (decide (k = b)) as [->|Hne]; [by rewrite Z.sub_diag|].
  rewrite drop_app, take_app_le; [done|]. rewrite length_drop. lia.
Qed.

Lemma segment_snoc sid L b ev :
  okLog sid L → stored L ev → 0 ≤ b < seqOf ev → segment L b (seqOf ev - 1) ++ [ev] = segment L b (seqOf ev).
Proof.
  intros HL Hev Hb. destruct (stored_seq _ _ _ HL Hev) as (i & e & Hi & -> & _ & Hs & _). rewrite Hs in *.
  unfold segment. replace (Z.to_nat (Z.of_nat i + 1 - b)) with (S (Z.to_nat (Z.of_nat i + 1 - 1 - b))) by lia.
  erewrite take_S_r; [by rewrite fmap_app|]. rewrite lookup_drop.
  by replace (Z.to_nat b + Z.to_nat (Z.of_nat i + 1 - 1 - b))%nat with i by lia.
Qed.

Definition liveOut (b : Z) (out : list pevent) : list pevent := filter (λ ev, b < seqOf ev) out.

#[local] Arguments liveOut : simpl never.
#[local] Arguments segment : simpl never.

Lemma segment_top sid L b K out :
  okLog sid L → increasing out → liveOut b out = segment L b K → 0 ≤ b < K → K ≤ Z.of_nat (length L) → K ≤ top out.
Proof.
  intros HL Hi Hout Hb HK. destruct (lookup_lt_is_Some_2 L (Z.to_nat (K - 1))) as [e He]; [lia|].
  assert (frameOfEvent e ∈ liveOut b out) as Hin.
  { rewrite Hout. apply list_elem_of_fmap. exists e. split; [done|]. apply list_elem_of_lookup.
    exists (Z.to_nat (K - 1 - b)). rewrite lookup_take_lt by lia. rewrite lookup_drop.
    by replace (Z.to_nat b + Z.to_nat (K - 1 - b))%nat with (Z.to_nat (K - 1)) by lia. }
  apply list_elem_of_filter in Hin as [_ Hin]. pose proof (increasing_top _ Hi) as Ht.
  rewrite list.Forall_forall in Ht. specialize (Ht _ Hin). unfold seqOf in Ht. cbn in Ht. destruct (HL _ _ He) as [Hs _]. lia.
Qed.

(** Writing the next event of the stream. *)
Lemma feeds_write sid L b K ev S N out :
  okLog sid L → stored L ev → 0 ≤ b ≤ K → liveOut b out = segment L b K → feeds K (ev :: S) N →
  K < seqOf ev ∨ seqOf ev ≤ b →
  b ≤ Z.max K (seqOf ev) ∧ liveOut b (out ++ [ev]) = segment L b (Z.max K (seqOf ev)) ∧ feeds (Z.max K (seqOf ev)) S N.
Proof.
  intros HL Hev Hb Hout Hf Hs. destruct (stored_seq _ _ _ HL Hev) as (i & e & _ & _ & Hseq & Hs' & _).
  cbn in Hf. rewrite Hseq in Hf. rewrite <- Hs' in Hf. unfold liveOut in *. rewrite list.filter_app, Hout.
  rewrite filter_cons, filter_nil. destruct Hs as [Hs|Hs].
  - rewrite bool_decide_false in Hf by lia. destruct Hf as [E Hf]. rewrite decide_True by lia.
    rewrite Z.max_r by lia. split_and!; [lia| |done].
    rewrite <- (segment_snoc sid) by (done || lia). by rewrite E, Z.add_simpl_r.
  - rewrite bool_decide_true in Hf by lia. rewrite decide_False by lia. rewrite app_nil_r, Z.max_l by lia.
    split_and!; [lia|done..].
Qed.

Definition queueOf (p : publisher) : list pevent :=
  match p with Sending q => q | Writing ev q => ev :: q | Marking _ q => q end.

Definition before (ph : phase) : list pevent :=
  match ph with
  | InReplay evs | InReplayMark _ evs => frameOfEvent <$> evs
  | InDrain evs | InDrainMark _ evs => evs
  | InDrainWrite ev evs => ev :: evs
  | _ => []
  end.

Definition stream (v : view) : list pevent := before (v_phase v) ++ buffered (v_state v) ++ queueOf (v_pub v).
Definition reached (v : view) : Z := Z.max (lastSeq (v_state v)) (unmarked (v_pub v) (v_phase v)).
Definition target (v : view) : Z := Z.max (v_base v) (Z.of_nat (length (v_log v))).

(** The last sequence number sent, while an event is about to be written. *)
Definition behind (st : subscriptionState) (ev : pevent) : Prop := ev_Seq ev ≠ None → lastSeq st < seqOf ev.

Definition okStream (v : view) : Prop :=
  match v_phase v with
  | Unsampled => lastSeq (v_state v) = v_base v
  | Sampled n => lastSeq (v_state v) = v_base v ∧ v_base v ≤ n ≤ Z.of_nat (length (v_log v)) ∧ feeds n (stream v) (Z.of_nat (length (v_log v)))
  | Waiting => lastSeq (v_state v) = v_base v ∧ (v_skip v = true → feeds (v_base v) (stream v) (target v))
  | Dead => True
  | ph =>
      v_base v ≤ lastSeq (v_state v) ∧ liveOut (v_base v) (v_out v) = segment (v_log v) (v_base v) (reached v)
      ∧ feeds (reached v) (stream v) (target v)
      ∧ match ph with InDrainWrite ev _ => behind (v_state v) ev | Live => buffered (v_state v) = [] | _ => True end
      ∧ match v_pub v with Writing ev _ => behind (v_state v) ev | _ => True end
  end.

Record complete (v : view) : Prop := {
  c_base : 0 ≤ v_base v;
  c_prefix : ∃ k, v_base v ≤ k ≤ target v ∧ liveOut (v_base v) (v_out v) = segment (v_log v) (v_base v) k;
  c_stream : v_open v = true → okStream v;
}.

Definition deliverable (F : pevent → bool) (L : list sevent) : Prop := Forall (λ e, F (frameOfEvent e) = false) L.

(** *** The writer keeps the stream *)

Lemma feeds_commit sid L X b :
  okLog sid (L ++ X) → 0 ≤ b →
  feeds (Z.max b (Z.of_nat (length L))) (frameOfEvent <$> X) (Z.max b (Z.of_nat (length (L ++ X)))).
Proof.
  revert L. induction X as [|x X IH]; intros L HL Hb; [by rewrite app_nil_r|].
  assert (L ++ x :: X = (L ++ [x]) ++ X) as E by by rewrite <- (assoc_L (++)).
  cbn. destruct (HL (length L) x) as [-> _]; [by rewrite lookup_app_r, Nat.sub_diag by lia|].
  rewrite E in HL |- *. specialize (IH _ HL Hb). rewrite (length_app L) in IH. cbn in IH.
  replace (Z.of_nat (length L + 1)) with (Z.of_nat (length L) + 1) in IH by lia. case_bool_decide.
  - replace (Z.max b (Z.of_nat (length L))) with (Z.max b (Z.of_nat (length L) + 1)) by lia. done.
  - split; [lia|]. replace (Z.of_nat (length L) + 1) with (Z.max b (Z.of_nat (length L) + 1)) at 1 by lia. done.
Qed.

Lemma feeds_again sid L q n :
  okLog sid L → Forall (stored L) q → Z.of_nat (length L) ≤ n → feeds n q n.
Proof.
  intros HL Hq Hn. apply feeds_old. eapply list.Forall_impl; [exact Hq|]. intros ev Hev s Hs.
  destruct (stored_seq _ _ _ HL Hev) as (i & e & Hi & _ & Hs' & _). apply lookup_lt_Some in Hi.
  rewrite Hs' in Hs. injection Hs as <-. lia.
Qed.

(** The same events are still to come, to the same client. *)
Lemma okStream_ext v v' :
  v_phase v' = v_phase v → v_log v' = v_log v → v_out v' = v_out v → v_base v' = v_base v → v_skip v' = v_skip v →
  lastSeq (v_state v') = lastSeq (v_state v) → reached v' = reached v →
  stream v ≫= durables = stream v' ≫= durables → (v_phase v = Live → buffered (v_state v') = []) →
  match v_pub v' with Writing ev _ => behind (v_state v') ev | _ => True end →
  okStream v → okStream v'.
Proof.
  intros Hph Hl Ho Hb Hk Hs Hr Hst Hlive Hw. unfold okStream, target. rewrite Hph, Hl, Ho, Hb, Hk, Hs, Hr.
  assert (∀ k n, feeds k (stream v) n → feeds k (stream v') n) as Hf by (intros; by eapply feeds_same).
  destruct (v_phase v); intros H; destruct_and?; split_and?; eauto; unfold behind in *; rewrite ?Hs; eauto.
Qed.

Lemma okStream_grow v v' :
  v_phase v' = v_phase v → v_state v' = v_state v → v_out v' = v_out v → v_base v' = v_base v → v_skip v' = v_skip v →
  v_pub v = Sending [] → (∃ q, v_pub v' = Sending q ∧
    (∀ b, 0 ≤ b → feeds (Z.max b (Z.of_nat (length (v_log v)))) q (Z.max b (Z.of_nat (length (v_log v')))))) →
  (∃ X, v_log v' = v_log v ++ X) → 0 ≤ v_base v → okStream v → okStream v'.
Proof.
  destruct v as [L st p ph out b k o], v' as [L' st' p' ph' out' b' k' o']. cbn.
  intros -> -> -> -> -> -> (q & -> & Hq) (X & ->) Hb. unfold okStream, reached, target, stream. cbn.
  assert (∀ P m n, 0 ≤ m → feeds n (P ++ buffered st ++ []) (Z.max m (Z.of_nat (length L))) →
            feeds n (P ++ buffered st ++ q) (Z.max m (Z.of_nat (length (L ++ X))))) as Hf.
  { intros P m n Hm. rewrite app_nil_r, (assoc_L (++)). intros H. by eapply feeds_app, Hq. }
  assert (∀ K n P, 0 ≤ b ≤ K → feeds K P n → n = Z.max b (Z.of_nat (length L)) → segment (L ++ X) b K = segment L b K) as Hseg.
  { intros K n P HK Hn%feeds_le ->. by apply segment_app. }
  destruct ph; try done;
    try (intros (HK & Hout & Hn & Hrest & _); split_and!; [done| |by apply Hf|done|done];
         rewrite Hout; symmetry; eapply Hseg; [|exact Hn|done]; lia).
  - intros (? & [? ?] & Hn). split_and!; try done; [rewrite length_app; lia|]. specialize (Hf [] 0 latest). cbn in Hf.
    rewrite !Z.max_r in Hf by lia. by apply Hf.
  - intros [? Hn]. split; [done|]. intros Hs. by apply (Hf []), Hn.
Qed.

Lemma prefix_kept v v' :
  v_out v' = v_out v → v_base v' = v_base v → (∃ X, v_log v' = v_log v ++ X) → 0 ≤ v_base v →
  (∃ k, v_base v ≤ k ≤ target v ∧ liveOut (v_base v) (v_out v) = segment (v_log v) (v_base v) k) →
  ∃ k, v_base v' ≤ k ≤ target v' ∧ liveOut (v_base v') (v_out v') = segment (v_log v') (v_base v') k.
Proof.
  intros Ho Hb (X & HX) H0 (k & Hk & Hout). exists k. rewrite Ho, Hb, HX, Hout. unfold target in *. rewrite HX, Hb, length_app.
  split; [lia|]. symmetry. apply segment_app; lia.
Qed.

Lemma same_log {A} (L : list A) : ∃ X, L = L ++ X.
Proof. exists []. by rewrite app_nil_r. Qed.

Lemma stored_deliverable F L ev : deliverable F L → stored L ev → F ev = false.
Proof. intros HF (e & -> & He)%list_elem_of_fmap. unfold deliverable in HF. rewrite list.Forall_forall in HF. by apply HF. Qed.

Lemma live_phase sid L st out b k o ph : okPhase sid L st out b k o ph → replaying st = false → o = true → ph = Live.
Proof. destruct ph; cbn; intros; destruct_and?; congruence. Qed.

#[local] Arguments okStream : simpl never.

(** Nothing is written: what was written stays a prefix. *)
Lemma complete_kept v v' :
  complete v → v_out v' = v_out v → v_base v' = v_base v → (∃ X, v_log v' = v_log v ++ X) →
  (v_open v' = true → okStream v') → complete v'.
Proof. intros [Hc Hpre Hs] Ho Hb HX Hs'. split; [by rewrite Hb|by eapply prefix_kept|done]. Qed.

(** Something is written: the invariant of the stream says what. *)
Lemma complete_written v :
  0 ≤ v_base v → v_phase v ≠ Unsampled → (∀ n, v_phase v ≠ Sampled n) → v_phase v ≠ Waiting → v_phase v ≠ Dead →
  okStream v → complete v.
Proof.
  intros Hb Hu Hn Hw Hd Hs. split; [done| |done]. exists (reached v). unfold okStream in Hs. unfold reached, target in *.
  destruct (v_phase v); try done; try (by edestruct Hn); destruct Hs as (? & ? & ?%feeds_le & _); split; try done; lia.
Qed.

Lemma publish_complete F sid v v' :
  publishing F sid false v v' → deliverable F (v_log v') → ordered sid v → complete v → complete v'.
Proof.
  intros Hl HF [HL Ho Hi Hb Hp Hph Ht] Hcomp. pose proof (c_base _ Hcomp) as Hc. pose proof (c_stream _ Hcomp) as Hs.
  destruct Hl; cbn in *;
    lazymatch type of Hp with
    | Forall _ (_ :: _) => apply list.Forall_cons in Hp as [He Hp]
    | _ ∧ _ => destruct Hp as (He & Hp & Hfin & Htop)
    | _ => idtac
    end;
    try (rewrite (stored_deliverable _ _ _ HF He) in *; done);
    try (eapply (complete_kept _ _ Hcomp); cbn; eauto using same_log; intros Hopen; try done; specialize (Hs Hopen)).
  - eapply okStream_grow; [..|exact Hs]; cbn; eauto. eexists. split; [done|]. intros. eapply (feeds_commit sid); [by apply okLog_numbered|done].
  - eapply okStream_grow; [..|exact Hs]; cbn; eauto using same_log. eexists. split; [done|]. intros. eapply feeds_again; [done..|lia].
  - destruct (bufferEvent_ok sid L st ev st') as (_ & Hls & Hr & Hd); eauto.
    destruct (stored_seq _ _ _ HL He) as (_ & _ & _ & _ & _ & _ & _ & Hclone). rewrite Hclone in Hd.
    eapply okStream_ext; [..|exact Hs]; cbn; eauto.
    + unfold reached. cbn. by rewrite Hls.
    + unfold stream. cbn. rewrite !bind_app, Hd. cbn. by rewrite <- !(assoc_L (++)).
    + intros ->. cbn in Hph. congruence.
  - rewrite (live_phase _ _ _ _ _ _ _ _ Hph) in * by done. unfold okStream, reached, stream in *. cbn in *.
    destruct Hs as (HK & Hout & Hf & Hbuf & _). rewrite Hbuf in *. cbn in *. rewrite H0, bool_decide_true in Hf by lia. done.
  - rewrite (live_phase _ _ _ _ _ _ _ _ Hph) in * by done. eapply okStream_ext; [..|exact Hs]; cbn; eauto.
    + intros _. by destruct Hs as (_ & _ & _ & Hbuf & _).
    + intros _. unfold seqOf. by rewrite H0.
  - assert (ph = Live) as -> by by destruct Hfin as [-> | ->].
    destruct (Hs eq_refl) as (HK & Hout & Hf & Hbuf & Hbe). unfold reached, stream in Hout, Hf. cbn in *. rewrite Hbuf in Hf. cbn in Hf.
    destruct (stored_seq _ _ _ HL He) as (? & ? & _ & _ & Hseq & _). specialize (Hbe ltac:(by rewrite Hseq)).
    rewrite Z.max_l in Hout, Hf by lia. unfold durables. rewrite Hseq.
    destruct (feeds_write sid L b (lastSeq st) ev q _ out0 HL He ltac:(lia) Hout Hf) as (? & ? & ?); [by left|].
    apply complete_written; try done. unfold okStream, reached, stream. cbn. by rewrite Hbuf.
  - assert (ph = Live) as -> by (destruct Hfin as [-> | ->]; [done|cbn in Hph; congruence]).
    unfold okStream, reached, stream in *. cbn in *. destruct (marked_same st ev) as (_ & -> & _).
    destruct Hs as (HK & Hout & Hf & Hbuf & _). rewrite marked_lastSeq by lia.
    rewrite (Z.max_l _ 0) by lia. split_and!; try done. lia.
  - destruct (bufferEvent_ok sid L st ev st') as (_ & Hls & Hr & Hd); eauto; [by unfold genuine; rewrite H|].
    assert (durables (cloneProtocolEvent ev) = []) as Hn by (unfold durables; cbn; by rewrite H). rewrite Hn, app_nil_r in Hd.
    eapply okStream_ext; [..|exact Hs]; cbn; eauto.
    + unfold reached. cbn. by rewrite Hls.
    + unfold stream. cbn. by rewrite !bind_app, Hd.
    + intros ->. cbn in Hph. congruence.
    + destruct p as [| |]; try done. destruct Hp as (_ & _ & [-> | ->] & _); cbn in Hph; congruence.
Qed.

(** *** The serving goroutine keeps the stream *)

Lemma genuine_old sid L P n : okLog sid L → Forall (genuine sid L) P → Z.of_nat (length L) ≤ n → feeds n P n.
Proof.
  intros HL HP Hn. apply feeds_old. eapply list.Forall_impl; [exact HP|]. intros ev Hev s Hs.
  destruct (stored_seq _ _ _ HL (genuine_durable _ _ _ Hev ltac:(by rewrite Hs))) as (i & e & Hi & _ & Hs' & _).
  apply lookup_lt_Some in Hi. rewrite Hs' in Hs. injection Hs as <-. lia.
Qed.

Lemma waiting_old sid L st q n :
  okLog sid L → okBuffer sid L st → Forall (stored L) q → Z.of_nat (length L) ≤ n → feeds n (buffered st ++ q) n.
Proof.
  intros HL (Hg & _) Hq Hn. eapply genuine_old; [done| |done]. apply list.Forall_app. split; [done|].
  eapply list.Forall_impl; [done|]. eauto.
Qed.

(** An event of the replay is one the client has, or the next one. *)
Lemma replayed_next sid L b K out e S N :
  okLog sid L → increasing out → e ∈ L → top out < Seq e → 0 ≤ b ≤ K → K ≤ Z.max b (Z.of_nat (length L)) →
  liveOut b out = segment L b K → feeds K (frameOfEvent e :: S) N → K < Seq e ∨ Seq e ≤ b.
Proof.
  intros HL Hi He Ht Hb HK Hout Hf. destruct (decide (Seq e ≤ b)) as [?|Hlt]; [by right|left].
  destruct (decide (K < Seq e)) as [?|Hge]; [done|exfalso].
  assert (K ≤ top out) by (eapply segment_top; [done|done|done|lia|lia]). lia.
Qed.

Lemma feeds_stale k ev s P n : ev_Seq ev = Some s → s ≤ k → feeds k (ev :: P) n → feeds k P n.
Proof. intros Hs Hk. cbn. by rewrite Hs, bool_decide_true. Qed.

Lemma feeds_ephemeral k ev P n : ev_Seq ev = None → feeds k (ev :: P) n → feeds k P n.
Proof. intros Hs. cbn. by rewrite Hs. Qed.

#[local] Arguments feeds : simpl never.

Lemma serves_complete F sid v v' :
  serves F sid v v' → deliverable F (v_log v') → ordered sid v → complete v → complete v'.
Proof.
  intros Hl HF [HL Ho Hi Hb Hp Hph Ht] Hcomp. pose proof (c_base _ Hcomp) as Hc. pose proof (c_stream _ Hcomp) as Hs.
  destruct Hl; cbn in *;
    try (destruct (not_writing _ _ _ _ Hp) as (q & -> & Hq); [by intros [? | ?]|]; clear Hp; cbn in * );
    destruct_and?;
    try match goal with H : Forall _ (_ :: _) |- _ => apply list.Forall_cons in H as [He ?] end;
    try (eapply (complete_kept _ _ Hcomp); cbn; eauto using same_log; intros Hopen; try done; specialize (Hs Hopen);
         unfold okStream, reached, stream, target in *; cbn in * ).
  - done.
  - split_and!; try done. by eapply waiting_old.
  - subst out0. split; cbn; [done| |].
    + exists n. unfold target. cbn. rewrite segment_nil. split; [lia|done].
    + intros Hopen. destruct (Hs Hopen) as (_ & Hn & Hf). unfold okStream, stream, target in *. cbn in *.
      split; [done|]. intros _. by rewrite Z.max_r by lia.
  - subst out0. destruct Hs as [Hlast _]. rewrite Hlast, Z.max_l, segment_nil by lia. split_and!; try done.
    rewrite (dense_filter sid) by done. eapply feeds_app; [by eapply feeds_stored|]. eapply waiting_old; [done..|lia].
  - subst out0. destruct Hs as [Hlast Hf]. rewrite Hlast, Z.max_l, segment_nil by lia. split_and!; try done.
    eapply feeds_app; [|by apply Hf]. apply feeds_old. apply list.Forall_fmap. eapply list.Forall_impl; [done|].
    cbn. intros e [_ He] s [= <-]. done.
  - destruct He as [He _]. by rewrite (stored_deliverable _ _ _ HF (stored_frame _ _ He)) in *.
  - destruct He as [He Htop]. destruct (Hs eq_refl) as (HK & Hout & Hf & _). unfold reached, stream in Hout, Hf. cbn in *.
    rewrite Z.max_l in Hout, Hf by lia. pose proof (feeds_le _ _ _ Hf) as Hle. unfold target in Hle. cbn in Hle.
    destruct (feeds_write sid L b (lastSeq st) (frameOfEvent ev) _ _ out0 HL (stored_frame _ _ He) ltac:(lia) Hout Hf)
      as (? & ? & ?); [by eapply (replayed_next sid)|].
    by apply complete_written.
  - destruct Hs as (HK & Hout & Hf & _). destruct (marked_same st ev) as (_ & -> & _).
    rewrite marked_lastSeq, (Z.max_l _ 0) by lia. split_and!; try done. lia.
  - destruct Hs as (HK & Hout & Hf & _). by rewrite H in Hf.
  - destruct Hs as (HK & Hout & Hf & _). split_and!; try done. eapply feeds_stale; [done| |done]. lia.
  - destruct Hs as (HK & Hout & Hf & _). split_and!; try done. intros Hd. unfold seqOf.
    destruct (ev_Seq ev) eqn:Es; [|done]. by apply H.
  - destruct (Hs eq_refl) as (HK & Hout & Hf & Hbe & _). unfold reached, stream in Hout, Hf. cbn in *.
    apply complete_written; try done. unfold okStream, reached, stream, durables in *. cbn in *.
    rewrite Z.max_l in Hout, Hf by lia.
    destruct (ev_Seq ev) as [s|] eqn:Es; cbn.
    2: { assert (seqOf ev = 0) as -> by (unfold seqOf; by rewrite Es).
         rewrite app_nil_r, Z.max_l by lia. split_and!; try done. by eapply feeds_ephemeral. }
    destruct (feeds_write sid L b (lastSeq st) ev _ _ out0 HL (genuine_durable _ _ _ He ltac:(by rewrite Es)) ltac:(lia) Hout Hf)
      as (? & ? & ?); [left; apply Hbe; by rewrite Es|]. done.
  - destruct Hs as (HK & Hout & Hf & _). destruct (marked_same st ev) as (_ & -> & _).
    rewrite marked_lastSeq, (Z.max_l _ 0) by lia. split_and!; try done. lia.
Qed.

Lemma local_complete F sid v v' :
  local F sid false v v' → deliverable F (v_log v') → ordered sid v → complete v → complete v'.
Proof. intros [H|H]; [by eapply publish_complete|by eapply serves_complete]. Qed.

End DeliveryProofs.
