(* ===== verification/DeliveryProperties.v ===== *)
(** * Properties of the delivery to client connections

    Every step of the Hub is a step of each subscription's view, so the order
    and the completeness of what one subscription is sent hold in every run. *)

From S2P Require Import Prelude StoreApi Json Wire GoText EncryptedPacket CodecPayloads Frames Codec HubReplay ClientDelivery DeliveryProofs.
From Stdlib Require Import Sorting.Sorted.
From stdpp Require Import base gmap strings list option.
#[local] Open Scope Z_scope.

Module DeliveryProperties.
Import Wire Frames Codec HubReplay ClientDelivery DeliveryProofs.

(** ** The view of a subscription *)

Definition sessions (subs : list Subscription) : list string := sub_SessionID <$> subs.

Definition waiting (sid : string) (todo : list Subscription) (now later : phase) : phase :=
  if decide (sid ∈ sessions todo) then now else later.

Definition phaseOf (sid : string) (r : replayer) : phase :=
  let at_ s todo ph := if decide (s = sid) then ph else waiting sid todo Waiting Live in
  match r with
  | Prepare todo => waiting sid todo Unsampled Waiting
  | PrepareSet n s todo => if decide (s = sid) then Sampled n else waiting sid todo Unsampled Waiting
  | Next todo => waiting sid todo Waiting Live
  | Replaying evs s todo => at_ s todo (InReplay evs)
  | ReplayMark ev evs s todo => at_ s todo (InReplayMark ev evs)
  | Drain evs s todo => at_ s todo (InDrain evs)
  | DrainWrite ev evs s todo => at_ s todo (InDrainWrite ev evs)
  | DrainMark ev evs s todo => at_ s todo (InDrainMark ev evs)
  | Serving => Live
  | Stopped => Dead
  end.

Fixpoint subOf (subs : list Subscription) (sid : string) : Subscription :=
  match subs with
  | [] => mkSubscription sid 0 false
  | sub :: subs => if decide (sub_SessionID sub = sid) then sub else subOf subs sid
  end.

Definition stateOf (c : clientConnection) (sid : string) : subscriptionState :=
  default (mkState 0 true [] ∅) (subscriptions c !! sid).

(** The durable events of a Session among the frames written. *)
Definition deliveredTo (sid : string) (l : list pevent) : list pevent :=
  filter (λ ev, ev_SessionID ev = sid ∧ ev_Seq ev ≠ None) l.

#[local] Arguments deliveredTo : simpl never.
#[local] Arguments stateOf : simpl never.
#[local] Arguments markSent : simpl never.

Definition viewOf (h : hub) (sid : string) : view :=
  View (logOf h sid) (stateOf (client h) sid) (publisherOf h sid) (phaseOf sid (serving h)) (deliveredTo sid (written h))
    (sub_LastSeq (subOf (subscribed h) sid)) (sub_SkipReplay (subOf (subscribed h) sid)) (connected h).

(** ** The goroutines of the connection *)

Definition okTodo (h : hub) (todo : list Subscription) : Prop :=
  Forall (λ sub, sub ∈ subscribed h) todo ∧ NoDup (sessions todo).

Definition okServing (h : hub) : Prop :=
  let at_ s todo := s ∈ sessions (subscribed h) ∧ s ∉ sessions todo ∧ okTodo h todo in
  match serving h with
  | Prepare todo | Next todo => okTodo h todo
  | PrepareSet _ s todo => at_ s todo ∧ sub_SkipReplay (subOf (subscribed h) s) = true
  | Replaying _ s todo | ReplayMark _ _ s todo | Drain _ s todo | DrainWrite _ _ s todo | DrainMark _ _ s todo => at_ s todo
  | Serving | Stopped => True
  end.

Record okHub (version : Z) (mode : string) (tys : gset string) (h : hub) : Prop := {
  k_version : protocolVersion (client h) = version;
  k_mode : contentMode (client h) = mode;
  k_types : publisherTypes (client h) = tys;
  k_nodup : NoDup (sessions (subscribed h));
  k_dom : ∀ sid, is_Some (subscriptions (client h) !! sid) ↔ sid ∈ sessions (subscribed h);
  k_serving : okServing h;
  k_inflight : Forall (λ ev, ev_Seq ev = None) (inflight h);
  k_writing : ∀ sid, (∃ q, publisherOf h sid = Sending q) ∨ sid ∈ sessions (subscribed h);
  k_views : ∀ sid, sid ∈ sessions (subscribed h) → ordered sid (viewOf h sid);
}.

Definition filteredBy (version : Z) (tys : gset string) : pevent → bool :=
  filtered (mkClient version "" tys ∅).

Lemma filteredBy_eq version mode tys h ev :
  okHub version mode tys h → filtered (client h) ev = filteredBy version tys ev.
Proof. intros [<- _ <- _ _ _ _ _ _]. done. Qed.

(** *** Subscriptions *)

Lemma subOf_in subs sub : NoDup (sessions subs) → sub ∈ subs → subOf subs (sub_SessionID sub) = sub.
Proof.
  induction subs as [|x subs IH]; intros Hn Hin; [by apply elem_of_nil in Hin|].
  unfold sessions in *. cbn in *. apply list.NoDup_cons in Hn as [Hx Hn].
  apply elem_of_cons in Hin as [->|Hin]; [by rewrite decide_True|]. rewrite decide_False; [by apply IH|].
  intros E. apply Hx. rewrite E. by apply list_elem_of_fmap_2.
Qed.

Lemma subOf_exists subs sid : sid ∈ sessions subs → subOf subs sid ∈ subs ∧ sub_SessionID (subOf subs sid) = sid.
Proof.
  induction subs as [|x subs IH]; unfold sessions in *; cbn; [by intros ?%elem_of_nil|].
  rewrite !elem_of_cons. case_decide; [by eauto|]. intros [?|[]%IH]; [congruence|by eauto].
Qed.

Definition rewatermark (s : string) (latest : Z) (sub : Subscription) : Subscription :=
  if bool_decide (sub_SessionID sub = s) then mkSubscription s latest (sub_SkipReplay sub) else sub.

Lemma sessions_rewatermark s n subs : sessions (rewatermark s n <$> subs) = sessions subs.
Proof.
  unfold sessions. rewrite <- list_fmap_compose. apply list_fmap_ext. intros i sub _. cbn. unfold rewatermark.
  by case_bool_decide.
Qed.

Lemma subOf_rewatermark_ne s n subs sid : sid ≠ s → subOf (rewatermark s n <$> subs) sid = subOf subs sid.
Proof.
  intros Hne. induction subs as [|sub subs IH]; [done|]. rewrite fmap_cons. cbn [subOf].
  rewrite IH. unfold rewatermark. case_bool_decide; cbn; repeat case_decide; congruence.
Qed.

Lemma subOf_rewatermark s n subs :
  s ∈ sessions subs → subOf (rewatermark s n <$> subs) s = mkSubscription s n (sub_SkipReplay (subOf subs s)).
Proof.
  induction subs as [|sub subs IH]; unfold sessions in *; [by intros ?%elem_of_nil|].
  rewrite !fmap_cons, elem_of_cons. cbn [subOf]. intros Hs. destruct (decide (sub_SessionID sub = s)) as [E|E].
  - unfold rewatermark. rewrite bool_decide_true by done. cbn. by case_decide.
  - rewrite IH by by destruct Hs. unfold rewatermark. rewrite bool_decide_false by done. by case_decide.
Qed.

(** *** Parts of the view *)

Lemma publisherOf_with h s p sid : publisherOf (withPublisher h s p) sid = if decide (s = sid) then p else publisherOf h sid.
Proof. unfold publisherOf. cbn. case_decide; [subst; by rewrite lookup_insert_eq|by rewrite lookup_insert_ne]. Qed.

Lemma logOf_commit h s X sid : logOf (commit h s X) sid = if decide (s = sid) then logOf h s ++ X else logOf h sid.
Proof. unfold logOf at 1. cbn. case_decide; [subst; by rewrite lookup_insert_eq|by rewrite lookup_insert_ne]. Qed.

Lemma stateOf_set c s st sid : stateOf (setState c s st) sid = if decide (s = sid) then st else stateOf c sid.
Proof. unfold stateOf. cbn. case_decide; [subst; by rewrite lookup_insert_eq|by rewrite lookup_insert_ne]. Qed.

Lemma deliveredTo_snoc sid l ev :
  deliveredTo sid (l ++ [ev]) = deliveredTo sid l ++ (if decide (ev_SessionID ev = sid) then durables ev else []).
Proof.
  unfold deliveredTo. rewrite list.filter_app, filter_cons, filter_nil. unfold durables.
  destruct (ev_Seq ev); repeat case_decide; naive_solver.
Qed.

(** The connection has the same configuration and the same subscriptions. *)
Record sameClient (c c' : clientConnection) : Prop := {
  sc_version : protocolVersion c' = protocolVersion c;
  sc_mode : contentMode c' = contentMode c;
  sc_types : publisherTypes c' = publisherTypes c;
  sc_dom : ∀ sid, is_Some (subscriptions c' !! sid) ↔ is_Some (subscriptions c !! sid);
}.

Lemma sameClient_refl c : sameClient c c.
Proof. done. Qed.

Lemma sameClient_set c s st : is_Some (subscriptions c !! s) → sameClient c (setState c s st).
Proof.
  intros H. split; try done. intros sid. cbn. destruct (decide (s = sid)) as [->|?].
  - rewrite lookup_insert_eq. naive_solver.
  - by rewrite lookup_insert_ne.
Qed.

Lemma sameClient_mark c ev : sameClient c (markSent c ev).
Proof.
  unfold markSent. destruct (ev_Seq ev); [|done]. destruct (subscriptions c !! _) eqn:E; [|done].
  case_bool_decide; [|done]. apply sameClient_set. by rewrite E.
Qed.

#[local] Hint Resolve sameClient_refl sameClient_set sameClient_mark : core.

Lemma stateOf_mark c ev sid :
  is_Some (subscriptions c !! sid) →
  stateOf (markSent c ev) sid = if decide (ev_SessionID ev = sid) then marked (stateOf c sid) ev else stateOf c sid.
Proof.
  intros [st Hst]. unfold markSent, marked. destruct (ev_Seq ev) as [seq|]; [|by case_decide].
  destruct (subscriptions c !! ev_SessionID ev) as [st'|] eqn:E.
  - case_decide as Hs.
    + subst sid. rewrite Hst in E. injection E as <-.
      assert (stateOf c (ev_SessionID ev) = st) as Est by (unfold stateOf; by rewrite Hst). rewrite Est.
      case_bool_decide; [by rewrite stateOf_set, decide_True|done].
    + case_bool_decide; [|done]. by rewrite stateOf_set, decide_False.
  - rewrite decide_False; [done|]. intros E'. rewrite E' in E. congruence.
Qed.

Lemma stateOf_mark_ne c ev sid : ev_SessionID ev ≠ sid → stateOf (markSent c ev) sid = stateOf c sid.
Proof.
  intros Hne. unfold markSent. destruct (ev_Seq ev); [|done]. destruct (subscriptions c !! _); [|done].
  case_bool_decide; [|done]. by rewrite stateOf_set, decide_False.
Qed.

Lemma deliveredTo_ne sid l ev : ev_SessionID ev ≠ sid → deliveredTo sid (l ++ [ev]) = deliveredTo sid l.
Proof. intros. by rewrite deliveredTo_snoc, decide_False, app_nil_r. Qed.

(** What [sendLiveEvent] does before a write. *)
Inductive begun (c : clientConnection) (ev : pevent) (st : subscriptionState) : clientConnection → outcome → Prop :=
  | begun_failed : begun c ev st c Failed
  | begun_filtered : filtered c ev = true → begun c ev st (markSent c ev) Delivered
  | begun_buffered st' : filtered c ev = false → replaying st = true → bufferEvent st ev = Some st' →
      begun c ev st (setState c (ev_SessionID ev) st') Delivered
  | begun_stale seq : replaying st = false → ev_Seq ev = Some seq → seq ≤ lastSeq st → begun c ev st c Delivered
  | begun_write : replaying st = false → (∀ seq, ev_Seq ev = Some seq → lastSeq st < seq) → begun c ev st c Write.

Lemma liveBegin_begun c ev st :
  subscriptions c !! ev_SessionID ev = Some st → begun c ev st (liveBegin c ev).1 (liveBegin c ev).2.
Proof.
  intros Hst. unfold liveBegin. destruct (negb (requiredEvent c ev)); [constructor|].
  destruct (filtered c ev) eqn:Hf; [by constructor|]. rewrite Hst. destruct (replaying st) eqn:Hr.
  - destruct (bufferEvent st ev) eqn:Hb; cbn; by econstructor.
  - destruct (ev_Seq ev) as [seq|] eqn:Hs; cbn; [case_bool_decide|].
    + by econstructor.
    + constructor; [done|]. intros s Hs'. rewrite Hs in Hs'. injection Hs' as <-. lia.
    + constructor; [done|]. intros s Hs'. by rewrite Hs in Hs'.
Qed.

(** ** Every step of the Hub is a step of the views *)

Definition abandons (a : action) (sid : string) : bool := match a with Abandon s => bool_decide (s = sid) | _ => false end.

Definition moves (F : pevent → bool) (lost : string → bool) (h h' : hub) : Prop :=
  ∀ sid, sid ∈ sessions (subscribed h) →
    viewOf h' sid = viewOf h sid ∨ local F sid (lost sid) (viewOf h sid) (viewOf h' sid).

(** Steps that leave the subscriptions and the serving goroutine alone. *)
Definition keepsServing (h h' : hub) : Prop :=
  sameClient (client h) (client h') ∧ subscribed h' = subscribed h ∧ serving h' = serving h
  ∧ Forall (λ ev, ev_Seq ev = None) (inflight h')
  ∧ ∀ sid, (∃ q, publisherOf h' sid = Sending q) ∨ sid ∈ sessions (subscribed h).

Lemma view_state h sid : is_Some (subscriptions (client h) !! sid) → subscriptions (client h) !! sid = Some (stateOf (client h) sid).
Proof. intros [st H]. unfold stateOf. by rewrite H. Qed.

Lemma stored_session sid L ev : okLog sid L → stored L ev → ev_SessionID ev = sid.
Proof. intros HL Hev. by destruct (stored_seq _ _ _ HL Hev) as (? & ? & _ & _ & _ & _ & ? & _). Qed.

Section steps.
Context (version : Z) (mode : string) (tys : gset string).
Notation F := (filteredBy version tys).
Notation ok := (okHub version mode tys).

Lemma keeps_publisher h h' s p :
  ok h → sameClient (client h) (client h') → subscribed h' = subscribed h → serving h' = serving h → inflight h' = inflight h →
  publishers h' = publishers h → (∃ q, p = Sending q) ∨ s ∈ sessions (subscribed h) → keepsServing h (withPublisher h' s p).
Proof.
  intros Hok Hc Hs Hr Hi Hpub Hp. unfold keepsServing. cbn. rewrite Hi. pose proof (k_inflight _ _ _ _ Hok). split_and!; try done.
  intros sid. rewrite publisherOf_with. case_decide; [by subst|]. unfold publisherOf. rewrite Hpub.
  apply (k_writing _ _ _ _ Hok).
Qed.

Lemma publish_sending h s ev queue :
  ok h → publisherOf h s = Sending (ev :: queue) → isTarget h s = true →
  ∃ h', publishStep h s true = Some h' ∧ publishStep h s false = Some h' ∧ moves F (λ _, false) h h' ∧ keepsServing h h'.
Proof.
  intros Hok Hp Ht. unfold publishStep. rewrite Hp, Ht. cbn [negb].
  apply andb_true_iff in Ht as [Hc Hd%bool_decide_eq_true]. pose proof (proj1 (k_dom _ _ _ _ Hok s) Hd) as Hs.
  pose proof (k_views _ _ _ _ Hok s Hs) as Ho. pose proof (o_log _ _ Ho) as HL. pose proof (o_publisher _ _ Ho) as Hq.
  cbn in HL, Hq. rewrite Hp in Hq. apply list.Forall_cons in Hq as [Hev _].
  pose proof (stored_session _ _ _ HL Hev) as Hsid.
  assert (subscriptions (client h) !! ev_SessionID ev = Some (stateOf (client h) s)) as Hst by (rewrite Hsid; by apply view_state).
  pose proof (liveBegin_begun _ _ _ Hst) as Hb. destruct (liveBegin (client h) ev) as [c o]. cbn in Hb.
  eexists. split; [done|]. split; [done|]. split.
  - intros sid Hsub. unfold viewOf. inversion Hb; subst c o; cbn; rewrite publisherOf_with; cbn.
    + case_decide as E; [subst sid|]; right; left; [rewrite Hp|]; rewrite Hc; apply l_fail || apply l_close.
    + rewrite stateOf_mark by by apply (k_dom _ _ _ _ Hok). rewrite Hsid. case_decide as E; [subst sid|by left].
      right; left. rewrite Hp, Hc. apply l_filtered. by rewrite <- (filteredBy_eq _ _ _ _ _ Hok).
    + rewrite stateOf_set, Hsid. case_decide as E; [subst sid|by left].
      right; left. rewrite Hp, Hc. apply l_buffer; [by rewrite <- (filteredBy_eq _ _ _ _ _ Hok)|done..].
    + case_decide as E; [subst sid|by left]. right; left. rewrite Hp, Hc. by eapply l_stale.
    + case_decide as E; [subst sid|by left]. right; left. rewrite Hp, Hc.
      destruct (stored_seq _ _ _ HL Hev) as (i & e & _ & _ & Hseq & _). eapply l_begin; eauto.
  - inversion Hb; subst c o; apply keeps_publisher; cbn; eauto; apply sameClient_set; by rewrite Hst.
Qed.

Lemma publish_written h s ev queue :
  ok h → publisherOf h s = Writing ev queue ∨ publisherOf h s = Marking ev queue →
  s ∈ sessions (subscribed h) ∧ ev_SessionID ev = s.
Proof.
  intros Hok Hp. destruct (k_writing _ _ _ _ Hok s) as [[q Hq]|Hs]; [destruct Hp; congruence|]. split; [done|].
  pose proof (k_views _ _ _ _ Hok s Hs) as Ho. pose proof (o_publisher _ _ Ho) as Hq. cbn in Hq.
  destruct Hp as [Hp|Hp]; rewrite Hp in Hq; destruct Hq as [Hev _]; by apply (stored_session _ _ _ (o_log _ _ Ho)).
Qed.

Lemma publish_moves h s ok_ h' :
  ok h → publishStep h s ok_ = Some h' → moves F (λ _, false) h h' ∧ keepsServing h h'.
Proof.
  intros Hok H. pose proof H as Hstep. unfold publishStep in H.
  destruct (publisherOf h s) as [[|ev queue]|ev queue|ev queue] eqn:Hp; [done| | |].
  - destruct (isTarget h s) eqn:Ht.
    + destruct (publish_sending h s ev queue Hok Hp Ht) as (h2 & H1 & H2 & ? & ?).
      destruct ok_; rewrite Hstep in *; simplify_eq; done.
    + injection H as <-. split; [|apply keeps_publisher; cbn; eauto]. intros sid Hsub. unfold viewOf. cbn.
      rewrite publisherOf_with. case_decide as E; [subst sid|by left]. rewrite Hp. right; left.
      unfold isTarget in Ht. rewrite (bool_decide_true (is_Some _)), andb_true_r in Ht by by apply (k_dom _ _ _ _ Hok).
      rewrite Ht. apply l_skip.
  - destruct (publish_written h s ev queue Hok) as [Hs Hsid]; [by left|].
    injection H as <-. destruct (ok_ && connected h) eqn:Hc; (split; [|apply keeps_publisher; cbn; eauto]);
      intros sid Hsub; unfold viewOf; cbn; rewrite publisherOf_with.
    + apply andb_true_iff in Hc as [_ Hc]. rewrite deliveredTo_snoc, Hc, Hsid. cbn. case_decide as E.
      * subst sid. rewrite Hp. right; left. apply l_write.
      * left. by rewrite app_nil_r.
    + right; left. case_decide as E; [subst sid; rewrite Hp; apply l_unwritten|apply l_close].
  - destruct (publish_written h s ev queue Hok) as [Hs Hsid]; [by right|].
    injection H as <-. split; [|apply keeps_publisher; cbn; eauto]. intros sid Hsub. unfold viewOf. cbn.
    rewrite publisherOf_with, stateOf_mark, Hsid by by apply (k_dom _ _ _ _ Hok). cbn.
    case_decide as E; [subst sid|by left]. right; left. rewrite Hp. apply l_mark.
Qed.

Lemma commit_moves h s evs h' :
  ok h → step (Commit s evs) h = Some h' → moves F (λ _, false) h h' ∧ keepsServing h h'.
Proof.
  intros Hok. cbn. destruct (idle (publisherOf h s)) eqn:Hi; [|done]. destruct (forallb _ evs) eqn:Hf; [|done]. cbn.
  intros [= <-]. set (X := numbered _ _ _).
  assert (publisherOf h s = Sending []) as Hp by by destruct (publisherOf h s) as [[]| |].
  assert (∀ sid, publisherOf (commit h s X) sid = if decide (s = sid) then Sending (frameOfEvent <$> X) else publisherOf h sid) as Hpub
    by apply (publisherOf_with h s).
  split.
  - intros sid Hsub. unfold viewOf. rewrite Hpub, logOf_commit. cbn. case_decide as E; [subst sid|by left].
    right; left. rewrite Hp. apply l_commit. apply list.Forall_forall. intros ev Hev.
    rewrite forallb_forall in Hf. specialize (Hf ev). rewrite <- list_elem_of_In in Hf. by apply Hf, bool_decide_eq_true in Hev.
  - unfold keepsServing. cbn. pose proof (k_inflight _ _ _ _ Hok). split_and!; try done. intros sid. rewrite Hpub.
    case_decide; [by eauto|]. apply (k_writing _ _ _ _ Hok).
Qed.

Lemma rebroadcast_moves h s seqs h' :
  ok h → step (Rebroadcast s seqs) h = Some h' → moves F (λ _, false) h h' ∧ keepsServing h h'.
Proof.
  intros Hok. cbn. destruct (idle (publisherOf h s)) eqn:Hi; [|done]. intros [= <-].
  assert (publisherOf h s = Sending []) as Hp by by destruct (publisherOf h s) as [[]| |].
  split; [|apply keeps_publisher; cbn; eauto]. intros sid Hsub. unfold viewOf. cbn. rewrite publisherOf_with.
  case_decide as E; [subst sid|by left]. right; left. rewrite Hp. apply l_again.
  apply list.Forall_forall. intros ev (e & -> & He)%list_elem_of_fmap. apply list_elem_of_omap in He as (seq & _ & He).
  apply list_elem_of_fmap. exists e. split; [done|]. by eapply list_elem_of_lookup_2.
Qed.

Lemma abandon_moves h s h' :
  ok h → step (Abandon s) h = Some h' → moves F (abandons (Abandon s)) h h' ∧ keepsServing h h'.
Proof.
  intros Hok. cbn. destruct (publisherOf h s) as [q| |] eqn:Hp; try done. intros [= <-].
  split; [|apply keeps_publisher; cbn; eauto]. intros sid Hsub. unfold viewOf. cbn. rewrite publisherOf_with.
  case_decide as E; [subst sid|by left]. right; left. rewrite Hp, bool_decide_true by done. by apply l_abandon.
Qed.

Lemma keeps_client h c : ok h → sameClient (client h) c → keepsServing h (withClient h c).
Proof. intros Hok Hc. unfold keepsServing. cbn. split_and!; [done..| |]; apply Hok. Qed.

Lemma keeps_disconnect h : ok h → keepsServing h (disconnect h).
Proof. intros Hok. unfold keepsServing. cbn. split_and!; [done..| |]; apply Hok. Qed.

Lemma disconnect_moves h : moves F (λ _, false) h (disconnect h).
Proof. intros sid _. right; left. apply l_close. Qed.

Lemma ephemeral_moves h ev h' :
  ok h → step (Ephemeral ev) h = Some h' → moves F (λ _, false) h h' ∧ keepsServing h h'.
Proof.
  intros Hok. cbn. unfold ephemeralStep. case_bool_decide as Hs; [done|]. destruct (isTarget h (ev_SessionID ev)) eqn:Ht; cbn.
  2: { intros [= <-]. split; [by left|]. split_and!; [done..| |]; apply Hok. }
  apply andb_true_iff in Ht as [Hc Hd%bool_decide_eq_true].
  set (out := Frames.mkEvent _ _ _ _ _ _). pose proof (view_state _ _ Hd) as Hst.
  pose proof (liveBegin_begun (client h) out _ Hst) as Hb. destruct (liveBegin (client h) out) as [c o]. cbn in Hb.
  intros [= <-]. inversion Hb; subst c o.
  - split; [apply disconnect_moves|by apply keeps_disconnect].
  - split; [by left|apply keeps_client; [done|apply sameClient_mark]].
  - split; [|apply keeps_client; [done|by apply sameClient_set]]. intros sid Hsub. unfold viewOf. cbn. rewrite stateOf_set.
    case_decide as E; [subst sid|by left]. right; left. by apply l_ephemeral with (ev := out).
  - done.
  - split; [by left|]. unfold keepsServing. cbn. split_and!; [done..| |apply Hok]. apply list.Forall_app. split; [apply Hok|].
    by constructor.
Qed.

Lemma ephemeral_write_moves h i ok_ h' :
  ok h → step (EphemeralWrite i ok_) h = Some h' → moves F (λ _, false) h h' ∧ keepsServing h h'.
Proof.
  intros Hok. cbn. unfold ephemeralWriteStep. destruct (inflight h !! i) as [ev|] eqn:Hi; [|done]. cbn. intros [= <-].
  pose proof (k_inflight _ _ _ _ Hok) as Hin. pose proof (list.Forall_lookup_1 _ _ _ _ Hin Hi) as Hev. cbn in Hev.
  assert (Forall (λ ev, ev_Seq ev = None) (delete i (inflight h))) as Hdel by by apply Forall_delete.
  destruct (ok_ && connected h) eqn:Hc; (split; [|unfold keepsServing; cbn; split_and!; [done..|apply Hok]]).
  - intros sid _. left. unfold viewOf. cbn. rewrite deliveredTo_snoc. unfold durables. rewrite Hev.
    by case_decide; rewrite app_nil_r.
  - intros sid _. right; left. apply l_close.
Qed.

(** *** The serving goroutine *)

Definition servedAs (h h' : hub) : Prop :=
  sameClient (client h) (client h') ∧ sessions (subscribed h') = sessions (subscribed h) ∧ okServing h'
  ∧ inflight h' = inflight h ∧ publishers h' = publishers h.

Lemma waiting_cons sid sub todo now later :
  waiting sid (sub :: todo) now later = if decide (sub_SessionID sub = sid) then now else waiting sid todo now later.
Proof.
  unfold waiting, sessions. rewrite fmap_cons. repeat case_decide; try done; rewrite elem_of_cons in *; naive_solver.
Qed.

Lemma waiting_in sid todo now later : sid ∈ sessions todo → waiting sid todo now later = now.
Proof. intros. unfold waiting. by rewrite decide_True. Qed.

Lemma waiting_out sid todo now later : sid ∉ sessions todo → waiting sid todo now later = later.
Proof. intros. unfold waiting. by rewrite decide_False. Qed.

Lemma okTodo_cons h sub todo :
  okTodo h (sub :: todo) →
  sub ∈ subscribed h ∧ sub_SessionID sub ∈ sessions (subscribed h) ∧ sub_SessionID sub ∉ sessions todo ∧ okTodo h todo.
Proof.
  intros [[Hin Hf]%list.Forall_cons [Hn Hnd]%list.NoDup_cons]. split_and!; try done. by apply list_elem_of_fmap_2.
Qed.

Lemma stop_moves h : moves F (λ _, false) h (stop h) ∧ servedAs h (stop h).
Proof. split; [|done]. intros sid _. right; right. apply l_stop. Qed.

(** A step that only moves the goroutine on. *)
Lemma serving_moves h r :
  (∀ sid, sid ∈ sessions (subscribed h) →
     phaseOf sid r = phaseOf sid (serving h)
     ∨ serves F sid (viewOf h sid) (viewOf (withServing h r) sid)) →
  okServing (withServing h r) → moves F (λ _, false) h (withServing h r) ∧ servedAs h (withServing h r).
Proof.
  intros Hm Hs. split; [|done]. intros sid Hsub. destruct (Hm sid Hsub) as [E|H]; [left|right; by right].
  unfold viewOf. cbn. by rewrite E.
Qed.

Lemma prepare_moves h todo ok_ h' :
  ok h → serving h = Prepare todo → serveStep h ok_ = Some h' → moves F (λ _, false) h h' ∧ servedAs h h'.
Proof.
  intros Hok Hr. unfold serveStep. rewrite Hr. pose proof (k_serving _ _ _ _ Hok) as Hs. unfold okServing in Hs. rewrite Hr in Hs.
  destruct todo as [|sub todo].
  - intros [= <-]. apply serving_moves.
    + intros sid Hsub. left. rewrite Hr. cbn. by rewrite waiting_in, waiting_out by (done || apply not_elem_of_nil).
    + unfold okServing. cbn. split; [|apply Hok]. apply list.Forall_forall. done.
  - apply okTodo_cons in Hs as (Hsub & Hin & Hout & Hs). destruct (sub_SkipReplay sub) eqn:Hk; cbn.
    + case_bool_decide as Hl; intros [= <-]; [apply stop_moves|]. apply serving_moves.
      * intros sid Hsid. rewrite Hr. cbn. rewrite waiting_cons. case_decide as E; [right|by left]. subst sid.
        unfold viewOf. rewrite Hr. cbn. rewrite waiting_cons, !decide_True by done.
        rewrite (subOf_in _ _ (k_nodup _ _ _ _ Hok) Hsub), Hk. apply l_sample. lia.
      * unfold okServing. cbn. split; [done|]. by rewrite (subOf_in _ _ (k_nodup _ _ _ _ Hok) Hsub).
    + intros [= <-]. apply serving_moves; [|done]. intros sid Hsid. rewrite Hr. cbn. rewrite waiting_cons.
      case_decide as E; [right|by left]. subst sid. unfold viewOf. rewrite Hr. cbn. rewrite waiting_cons, decide_True by done.
      rewrite waiting_out by done. rewrite (subOf_in _ _ (k_nodup _ _ _ _ Hok) Hsub), Hk. apply l_wait.
Qed.

Lemma subscribed_rewatermark h s n : subscribed (setWatermark h s n) = rewatermark s n <$> subscribed h.
Proof. done. Qed.

Lemma watermark_moves h n s todo ok_ h' :
  ok h → serving h = PrepareSet n s todo → serveStep h ok_ = Some h' → moves F (λ _, false) h h' ∧ servedAs h h'.
Proof.
  intros Hok Hr. unfold serveStep. rewrite Hr. pose proof (k_serving _ _ _ _ Hok) as Hs. unfold okServing in Hs. rewrite Hr in Hs.
  destruct Hs as ((Hin & Hout & Htodo) & Hk). intros [= <-].
  pose proof (view_state h s (proj2 (k_dom _ _ _ _ Hok s) Hin)) as Hst. split.
  - intros sid Hsub. unfold viewOf. cbn -[subOf]. rewrite Hr, Hst. cbn -[subOf].
    change ((λ sub, _) <$> subscribed h) with (rewatermark s n <$> subscribed h). rewrite stateOf_set.
    case_decide as E; [subst sid|left; by rewrite subOf_rewatermark_ne].
    right; right. rewrite subOf_rewatermark, waiting_out by done. apply l_watermark.
  - split_and!; try done.
    + cbn. rewrite Hst. apply sameClient_set. by rewrite Hst.
    + cbn. apply sessions_rewatermark.
    + unfold okServing. cbn. destruct Htodo as [Hf Hn]. split; [|done]. rewrite list.Forall_forall in Hf |- *.
      intros sub Hsub. apply list_elem_of_fmap. exists sub. split; [|by apply Hf].
      rewrite bool_decide_false; [done|]. intros E. apply Hout. rewrite <- E. by apply list_elem_of_fmap_2.
Qed.

Lemma validBootstrap_spec sub previous allowed evs :
  validBootstrap sub previous allowed evs = true →
  Forall (λ e, previous < Seq e ∧ Seq e ≤ sub_LastSeq sub) evs ∧ StronglySorted (λ e e' : sevent, Seq e < Seq e') evs.
Proof.
  revert previous allowed. induction evs as [|e evs IH]; intros previous allowed H; [by split; constructor|].
  cbn in H. rewrite !andb_true_iff in H. destruct H as ((((_ & Hp) & Hl) & _) & H).
  apply bool_decide_eq_true in Hp, Hl. apply IH in H as [Hf Hs]. split; constructor; try done.
  - eapply list.Forall_impl; [done|]. cbn. intros; lia.
  - eapply list.Forall_impl; [done|]. cbn. intros; lia.
Qed.

Lemma latestOfType_in events n t e : latestOfType events n t = Some e → e ∈ events.
Proof.
  unfold latestOfType. assert (∀ l best, foldl (λ best ev,
           if bool_decide (Type_ ev = t) && bool_decide (Seq ev ≤ n)
              && match best with Some b => bool_decide (Seq b < Seq ev) | None => true end
           then Some ev else best) best l = Some e → best = Some e ∨ e ∈ l) as H.
  { induction l as [|x l IH]; cbn; intros best Hb; [by left|]. rewrite elem_of_cons.
    apply IH in Hb as [Hb|?]; [|by right; right]. destruct (_ && _ && _); [|by left]. injection Hb as ->. by right; left. }
  intros [?|?]%H; done.
Qed.

Lemma bootstrapOf_in events n e : e ∈ bootstrapOf events n → e ∈ events.
Proof.
  unfold bootstrapOf. rewrite sorting.merge_sort_Permutation. intros (t & _ & H)%list_elem_of_omap.
  by eapply latestOfType_in.
Qed.

Lemma next_moves h todo ok_ h' :
  ok h → serving h = Next todo → serveStep h ok_ = Some h' → moves F (λ _, false) h h' ∧ servedAs h h'.
Proof.
  intros Hok Hr. unfold serveStep. rewrite Hr. pose proof (k_serving _ _ _ _ Hok) as Hs. unfold okServing in Hs. rewrite Hr in Hs.
  destruct todo as [|sub todo]; intros [= <-].
  - apply serving_moves; [|done]. intros sid Hsub. left. rewrite Hr. cbn. by rewrite waiting_out by apply not_elem_of_nil.
  - apply okTodo_cons in Hs as (Hsub & Hin & Hout & Hs). destruct (replayEvents h sub) as [evs|] eqn:He; [|apply stop_moves].
    apply serving_moves; [|done]. intros sid Hsid. rewrite Hr. cbn. rewrite waiting_cons.
    case_decide as E; [right|by left]. subst sid. unfold viewOf. rewrite Hr. cbn. rewrite waiting_cons, !decide_True by done.
    rewrite (subOf_in _ _ (k_nodup _ _ _ _ Hok) Hsub). unfold replayEvents in He. destruct (sub_SkipReplay sub).
    + destruct (_ && _) eqn:Hv; [|done]. injection He as <-. rewrite !andb_true_iff in Hv. destruct Hv as ((_ & Hv) & _).
      apply validBootstrap_spec in Hv as [Hf Hsort]. apply l_bootstrap; [|done]. rewrite list.Forall_forall in Hf |- *.
      intros e He. split; [by eapply bootstrapOf_in|by apply Hf].
    + injection He as <-. apply l_replay.
Qed.

(** The goroutine is in the middle of the subscription [s]. *)
Definition serves_at (h : hub) (s : string) (todo : list Subscription) : Prop :=
  s ∈ sessions (subscribed h) ∧ s ∉ sessions todo ∧ okTodo h todo
  ∧ (∀ sid, sid ≠ s → phaseOf sid (serving h) = waiting sid todo Waiting Live) ∧ ordered s (viewOf h s).

(** It changes the state of [s], and writes a frame of [s]. *)
Lemma at_moves h h' s todo :
  ok h → serves_at h s todo → log h' = log h → sameClient (client h) (client h') → subscribed h' = subscribed h →
  inflight h' = inflight h → publishers h' = publishers h → connected h' = connected h →
  (∀ sid, sid ≠ s → phaseOf sid (serving h') = waiting sid todo Waiting Live ∧ stateOf (client h') sid = stateOf (client h) sid
                  ∧ deliveredTo sid (written h') = deliveredTo sid (written h)) →
  okServing h' → serves F s (viewOf h s) (viewOf h' s) → moves F (λ _, false) h h' ∧ servedAs h h'.
Proof.
  intros Hok (Hin & Hout & Htodo & Hph & _) Hl Hc Hsub Hi Hp Hconn Hother Hs Hv. split.
  - intros sid _. destruct (decide (sid = s)) as [->|Hne]; [right; by right|left].
    destruct (Hother sid Hne) as (E1 & E2 & E3). unfold viewOf. rewrite E1, E2, E3, Hsub, Hconn, (Hph sid Hne).
    unfold logOf, publisherOf. by rewrite Hl, Hp.
  - split_and!; try done. by rewrite Hsub.
Qed.

Ltac at_start Hok Hr :=
  unfold serveStep; rewrite Hr; pose proof (k_serving _ _ _ _ Hok) as Hs; unfold okServing in Hs; rewrite Hr in Hs;
  destruct Hs as (Hin & Hout & Htodo); pose proof (k_views _ _ _ _ Hok _ Hin) as Ho;
  assert (serves_at _ _ _) as Hat
    by (split_and!; [exact Hin|exact Hout|exact Htodo|intros ? ?; rewrite Hr; cbn; by rewrite decide_False|exact Ho]);
  pose proof (o_phase _ _ Ho) as Hphase; cbn in Hphase; rewrite Hr in Hphase; cbn in Hphase; rewrite decide_True in Hphase by done;
  pose proof (proj2 (k_dom _ _ _ _ Hok _) Hin) as Hdom.

Ltac at_view Hr := unfold viewOf; cbn; rewrite Hr; cbn; rewrite !decide_True by done.

Lemma replaying_moves h evs s todo ok_ h' :
  ok h → serving h = Replaying evs s todo → serveStep h ok_ = Some h' → moves F (λ _, false) h h' ∧ servedAs h h'.
Proof.
  intros Hok Hr. at_start Hok Hr. destruct evs as [|e evs]; intros [= <-].
  - eapply at_moves; eauto; [|done|].
    + intros sid Hne. cbn. by rewrite decide_False.
    + at_view Hr. apply l_replayed.
  - destruct Hphase as ([[He _] _]%list.Forall_cons & _).
    assert (SessionID e = s) as Hsid by exact (stored_session _ _ _ (o_log _ _ Ho) (stored_frame _ _ He)).
    destruct (negb (requiredHistory _ _ _)); [apply stop_moves|]. destruct (filtered _ _) eqn:Hf.
    + eapply at_moves; eauto; [by apply sameClient_mark| |done|].
      * intros sid Hne. cbn. rewrite decide_False by done. split_and!; try done. apply stateOf_mark_ne. cbn. congruence.
      * at_view Hr. rewrite stateOf_mark by done. cbn. rewrite decide_True by done. apply l_unsent.
        by rewrite <- (filteredBy_eq _ _ _ _ _ Hok).
    + destruct (ok_ && connected h) eqn:Hc; [|apply stop_moves]. apply andb_true_iff in Hc as [_ Hc].
      eapply at_moves; eauto; [|done|].
      * intros sid Hne. cbn. rewrite decide_False by done. split_and!; try done. apply deliveredTo_ne. cbn. congruence.
      * at_view Hr. rewrite deliveredTo_snoc. cbn. rewrite decide_True, Hc by done. apply l_rwrite.
Qed.

(** An event that was written is counted as sent. *)
Lemma mark_moves h ev s todo r ph :
  ok h → serves_at h s todo → ev_SessionID ev = s → phaseOf s r = ph →
  (∀ sid, sid ≠ s → phaseOf sid r = waiting sid todo Waiting Live) →
  okServing (withServing (withClient h (markSent (client h) ev)) r) →
  (∀ L st p out b k o, serves F s (View L st p (phaseOf s (serving h)) out b k o) (View L (marked st ev) p ph out b k o)) →
  moves F (λ _, false) h (withServing (withClient h (markSent (client h) ev)) r)
  ∧ servedAs h (withServing (withClient h (markSent (client h) ev)) r).
Proof.
  intros Hok Hat Hsid Hph Hne Hs Hv. eapply at_moves; eauto.
  - by apply sameClient_mark.
  - intros sid Hd. cbn. split_and!; [by apply Hne| |done]. apply stateOf_mark_ne. congruence.
  - unfold viewOf. cbn. rewrite Hph, stateOf_mark, decide_True by (done || by apply (k_dom _ _ _ _ Hok), Hat). apply Hv.
Qed.

Lemma replay_mark_moves h ev evs s todo ok_ h' :
  ok h → serving h = ReplayMark ev evs s todo → serveStep h ok_ = Some h' → moves F (λ _, false) h h' ∧ servedAs h h'.
Proof.
  intros Hok Hr. at_start Hok Hr. destruct Hphase as (_ & _ & _ & Hst & _). intros [= <-].
  eapply mark_moves; eauto.
  - by apply (stored_session _ _ _ (o_log _ _ Ho)).
  - intros sid Hne. cbn. by rewrite decide_False.
  - done.
  - intros. rewrite Hr. cbn. rewrite !decide_True by done. apply l_rmark.
Qed.

Lemma genuine_session sid L ev : okLog sid L → genuine sid L ev → ev_SessionID ev = sid.
Proof. intros HL. unfold genuine. destruct (ev_Seq ev); [by apply stored_session|done]. Qed.

Lemma drain_moves h evs s todo ok_ h' :
  ok h → serving h = Drain evs s todo → serveStep h ok_ = Some h' → moves F (λ _, false) h h' ∧ servedAs h h'.
Proof.
  intros Hok Hr. at_start Hok Hr. pose proof (view_state _ _ Hdom) as Hst. destruct evs as [|ev evs].
  - unfold takeBuffered. rewrite Hst. destruct (buffered (stateOf (client h) s)) as [|x l] eqn:Hb; intros [= <-];
      (eapply (at_moves h _ s todo Hok Hat); try done;
         [by apply sameClient_set
         |intros sid Hne; cbn; rewrite ?stateOf_set, ?decide_False by congruence; done
         |]); at_view Hr; rewrite stateOf_set, decide_True by done.
    + rewrite waiting_out by done. by apply l_live.
    + rewrite <- Hb. apply l_take. by rewrite Hb.
  - destruct Hphase as [[Hg _]%list.Forall_cons _]. pose proof (genuine_session _ _ _ (o_log _ _ Ho) Hg) as Hsid.
    intros [= <-]. unfold unsent. rewrite Hsid, Hst.
    assert (∀ r, (∀ sid, sid ≠ s → phaseOf sid r = waiting sid todo Waiting Live) → okServing (withServing h r) →
      serves F s (viewOf h s) (viewOf (withServing h r) s) → moves F (λ _, false) h (withServing h r) ∧ servedAs h (withServing h r)) as Hgo.
    { intros r Hne Hs Hv. eapply at_moves; eauto. }
    destruct (match ev_Seq ev with Some seq => _ | None => true end) eqn:Hu; apply Hgo; try done;
      try (intros sid Hne; cbn; by rewrite decide_False); at_view Hr.
    + apply l_dbegin. intros seq E. rewrite E in Hu. by apply bool_decide_eq_true in Hu.
    + destruct (ev_Seq ev) as [seq|] eqn:E; [|done]. eapply l_dstale; [done|]. apply bool_decide_eq_false in Hu. cbn. lia.
Qed.

Lemma drain_write_moves h ev evs s todo ok_ h' :
  ok h → serving h = DrainWrite ev evs s todo → serveStep h ok_ = Some h' → moves F (λ _, false) h h' ∧ servedAs h h'.
Proof.
  intros Hok Hr. at_start Hok Hr. destruct Hphase as ([Hg _]%list.Forall_cons & _).
  pose proof (genuine_session _ _ _ (o_log _ _ Ho) Hg) as Hsid. intros [= <-].
  destruct (ok_ && connected h) eqn:Hc; [|apply stop_moves]. apply andb_true_iff in Hc as [_ Hc].
  eapply at_moves; eauto; [|done|].
  - intros sid Hne. cbn. rewrite decide_False by done. split_and!; try done. apply deliveredTo_ne. congruence.
  - at_view Hr. rewrite deliveredTo_snoc, decide_True, Hc by done. apply l_dwrite.
Qed.

Lemma drain_mark_moves h ev evs s todo ok_ h' :
  ok h → serving h = DrainMark ev evs s todo → serveStep h ok_ = Some h' → moves F (λ _, false) h h' ∧ servedAs h h'.
Proof.
  intros Hok Hr. at_start Hok Hr. destruct Hphase as ([Hg _]%list.Forall_cons & _). intros [= <-].
  eapply mark_moves; eauto.
  - by apply (genuine_session _ _ _ (o_log _ _ Ho)).
  - intros sid Hne. cbn. by rewrite decide_False.
  - done.
  - intros. rewrite Hr. cbn. rewrite !decide_True by done. apply l_dmark.
Qed.

Lemma serve_moves h ok_ h' : ok h → serveStep h ok_ = Some h' → moves F (λ _, false) h h' ∧ servedAs h h'.
Proof.
  intros Hok H. destruct (serving h) eqn:Hr;
    eauto using prepare_moves, watermark_moves, next_moves, replaying_moves, replay_mark_moves, drain_moves,
      drain_write_moves, drain_mark_moves; unfold serveStep in H; rewrite Hr in H; [|done].
  destruct ok_; [done|]. injection H as <-. apply stop_moves.
Qed.
(** *** Runs *)

(** The invariant follows from the steps of the views. *)
Lemma moved_ok h h' lost :
  ok h → moves F lost h h' → sameClient (client h) (client h') → sessions (subscribed h') = sessions (subscribed h) →
  okServing h' → Forall (λ ev, ev_Seq ev = None) (inflight h') →
  (∀ sid, (∃ q, publisherOf h' sid = Sending q) ∨ sid ∈ sessions (subscribed h)) → ok h'.
Proof.
  intros Hok Hm Hc Hs Hserv Hi Hw. destruct Hc as [Hv Hmode Ht Hd]. destruct Hok as [Kv Km Kt Kn Kd _ _ _ Kviews].
  split; try congruence; try done.
  - intros sid. by rewrite Hd, Kd, Hs.
  - intros sid. rewrite Hs. apply Hw.
  - intros sid. rewrite Hs. intros Hin. destruct (Hm sid Hin) as [->|Hl]; [by apply Kviews|]. by eapply local_ordered, Kviews.
Qed.

Lemma kept_ok h h' lost : ok h → moves F lost h h' ∧ keepsServing h h' → ok h' ∧ moves F lost h h' ∧ sessions (subscribed h') = sessions (subscribed h).
Proof.
  intros Hok (Hm & Hc & Hs & Hr & Hi & Hw). split_and!; [|done|by rewrite Hs]. eapply moved_ok; eauto; [by rewrite Hs|].
  pose proof (k_serving _ _ _ _ Hok) as H. unfold okServing, okTodo in *. by rewrite Hr, Hs.
Qed.

Lemma served_ok h h' : ok h → moves F (λ _, false) h h' ∧ servedAs h h' → ok h' ∧ moves F (λ _, false) h h' ∧ sessions (subscribed h') = sessions (subscribed h).
Proof.
  intros Hok (Hm & Hc & Hs & Hr & Hi & Hp). split_and!; [|done|done]. eapply moved_ok; eauto; [rewrite Hi; apply Hok|].
  intros sid. unfold publisherOf. rewrite Hp. apply (k_writing _ _ _ _ Hok).
Qed.

Lemma hub_step_ok a h h' :
  ok h → step a h = Some h' → ok h' ∧ moves F (abandons a) h h' ∧ sessions (subscribed h') = sessions (subscribed h).
Proof.
  intros Hok H. destruct a.
  - eapply kept_ok, commit_moves; eauto.
  - eapply kept_ok, rebroadcast_moves; eauto.
  - eapply kept_ok, abandon_moves; eauto.
  - eapply kept_ok, publish_moves; eauto.
  - eapply kept_ok, ephemeral_moves; eauto.
  - eapply kept_ok, ephemeral_write_moves; eauto.
  - eapply served_ok, serve_moves; eauto.
Qed.

Lemma hub_run_ok actions h h' : ok h → run actions h = Some h' → ok h' ∧ sessions (subscribed h') = sessions (subscribed h).
Proof.
  revert h. induction actions as [|a actions IH]; intros h Hok H; cbn in H; [by injection H as <-|].
  apply bind_Some in H as (h1 & Hstep & H). destruct (hub_step_ok _ _ _ Hok Hstep) as (Hok1 & _ & <-). by apply IH.
Qed.

Lemma local_log sid lost v v' : local F sid lost v v' → ∃ X, v_log v' = v_log v ++ X.
Proof. intros [H|H]; destruct H; cbn; eauto using same_log. Qed.

Lemma step_log a h h' sid : ok h → step a h = Some h' → sid ∈ sessions (subscribed h) → ∃ X, logOf h' sid = logOf h sid ++ X.
Proof.
  intros Hok H Hin. destruct (hub_step_ok _ _ _ Hok H) as (_ & Hm & _). change (∃ X, v_log (viewOf h' sid) = v_log (viewOf h sid) ++ X).
  destruct (Hm sid Hin) as [->|Hl]; [apply same_log|by eapply local_log].
Qed.

Lemma run_log actions h h' sid : ok h → run actions h = Some h' → sid ∈ sessions (subscribed h) → ∃ X, logOf h' sid = logOf h sid ++ X.
Proof.
  revert h. induction actions as [|a actions IH]; intros h Hok H Hin; cbn in H; [injection H as <-; apply same_log|].
  apply bind_Some in H as (h1 & Hstep & H). destruct (step_log _ _ _ _ Hok Hstep Hin) as [X HX].
  destruct (hub_step_ok _ _ _ Hok Hstep) as (Hok1 & _ & Hs). destruct (IH _ Hok1 H) as [Y HY]; [by rewrite Hs|].
  exists (X ++ Y). by rewrite HY, HX, <- (assoc_L (++)).
Qed.

Lemma run_complete actions h h' sid :
  ok h → run actions h = Some h' → sid ∈ sessions (subscribed h) → forallb (λ a, negb (abandons a sid)) actions = true →
  deliverable F (logOf h' sid) → complete (viewOf h sid) → complete (viewOf h' sid).
Proof.
  revert h. induction actions as [|a actions IH]; intros h Hok H Hin Ha HF Hc; cbn in H; [by injection H as <-|].
  apply bind_Some in H as (h1 & Hstep & H). cbn in Ha. apply andb_true_iff in Ha as [Ha Hrest].
  destruct (hub_step_ok _ _ _ Hok Hstep) as (Hok1 & Hm & Hs). apply (IH h1); try done; [by rewrite Hs|].
  destruct (Hm sid Hin) as [->|Hl]; [done|]. apply negb_true_iff in Ha. rewrite Ha in Hl.
  eapply local_complete; [done| |by apply (k_views _ _ _ _ Hok)|done].
  destruct (run_log _ _ _ sid Hok1 H) as [X HX]; [by rewrite Hs|]. rewrite HX in HF. by apply list.Forall_app in HF as [? _].
Qed.
End steps.

(** ** The connection at the start *)

Definition historyOf (l : gmap string (list sevent)) (sid : string) : list sevent := default [] (l !! sid).

Lemma subscriptions_start version mode subs tys sid :
  NoDup (sessions subs) →
  subscriptions (newClientConnection version mode subs true tys) !! sid =
    if decide (sid ∈ sessions subs) then Some (mkState (sub_LastSeq (subOf subs sid)) true [] ∅) else None.
Proof.
  intros Hn. unfold newClientConnection. cbn. enough (∀ m, foldl (λ m sub, <[sub_SessionID sub := mkState (sub_LastSeq sub) true [] ∅]> m) m subs !! sid
    = if decide (sid ∈ sessions subs) then Some (mkState (sub_LastSeq (subOf subs sid)) true [] ∅) else m !! sid) as E
    by (rewrite E, lookup_empty; done).
  unfold sessions in *. induction subs as [|sub subs IH]; intros m; [done|].
  rewrite fmap_cons in *. apply list.NoDup_cons in Hn as [Hx Hn]. cbn [foldl subOf]. rewrite IH by done.
  destruct (decide (sub_SessionID sub = sid)) as [<-|Hne].
  - rewrite decide_False, decide_True, lookup_insert_eq by (done || by apply elem_of_cons; left). done.
  - rewrite lookup_insert_ne by done. repeat case_decide; rewrite elem_of_cons in *; naive_solver.
Qed.

Section start.
Context (l : gmap string (list sevent)) (v : variants) (version : Z) (mode : string) (subs : list Subscription).
Hypothesis distinct : NoDup (sessions subs).
Hypothesis histories : ∀ sid, sid ∈ sessions subs → okLog sid (historyOf l sid).

Lemma view_start sid :
  sid ∈ sessions subs →
  viewOf (registerPeer l v version mode subs) sid =
    View (historyOf l sid) (mkState (sub_LastSeq (subOf subs sid)) true [] ∅) (Sending []) Unsampled []
      (sub_LastSeq (subOf subs sid)) (sub_SkipReplay (subOf subs sid)) true.
Proof.
  intros Hin. unfold viewOf, stateOf. cbn -[newClientConnection]. rewrite subscriptions_start, decide_True by done.
  by rewrite waiting_in.
Qed.

Lemma start_ok : okHub version mode (publisherEphemeralTypes v) (registerPeer l v version mode subs).
Proof.
  split; try done.
  - intros sid. cbn -[newClientConnection]. rewrite subscriptions_start by done. case_decide; [by eauto|].
    split; [by intros []|done].
  - split; [by apply list.Forall_forall|done].
  - intros sid. left. by exists [].
  - intros sid Hin. rewrite view_start by done. split; cbn; try done.
    + by apply histories.
    + constructor.
    + split_and!; [constructor|done|cbn; lia].
    + intros _. unfold top. cbn. lia.
Qed.

Lemma start_complete sid : sid ∈ sessions subs → 0 ≤ sub_LastSeq (subOf subs sid) → complete (viewOf (registerPeer l v version mode subs) sid).
Proof.
  intros Hin Hl. rewrite view_start by done. split; cbn; [done| |by intros _].
  exists (sub_LastSeq (subOf subs sid)). unfold target. cbn. rewrite segment_nil. split; [lia|done].
Qed.
End start.
End DeliveryProperties.
