(* ===== verification/DeliveryProgress.v ===== *)
(** * The replay comes to its end

    Whatever happened before, the serving goroutine alone brings every
    subscription of an open connection live, when its writes succeed: the Store's
    bootstrap passes the Hub's checks and the drain of the buffer ends. *)

From S2P Require Import Prelude StoreApi Json Wire GoText EncryptedPacket CodecPayloads Frames Codec HubReplay ClientDelivery DeliveryProofs DeliveryProperties.
From Stdlib Require Import Sorting.Sorted.
From stdpp Require Import base gmap strings list option sorting.
#[local] Open Scope Z_scope.

Module DeliveryProgress.
Import Wire Frames Codec HubReplay ClientDelivery DeliveryProofs DeliveryProperties.

(** ** The bootstrap of a log *)

Lemma latestOfType_spec events n t e :
  latestOfType events n t = Some e → Type_ e = t ∧ Seq e ≤ n ∧ e ∈ events.
Proof.
  unfold latestOfType. assert (∀ l best, foldl (λ best ev,
           if bool_decide (Type_ ev = t) && bool_decide (Seq ev ≤ n)
              && match best with Some b => bool_decide (Seq b < Seq ev) | None => true end
           then Some ev else best) best l = Some e → best = Some e ∨ (Type_ e = t ∧ Seq e ≤ n ∧ e ∈ l)) as H.
  { induction l as [|x l IH]; cbn; intros best Hb; [by left|].
    apply IH in Hb as [Hb|(? & ? & ?)]; [|right; split_and!; [done..|by apply elem_of_cons; right]].
    destruct (bool_decide (Type_ x = t)) eqn:Ht, (bool_decide (Seq x ≤ n)) eqn:Hn; cbn in Hb; try (by left).
    destruct (match best with Some _ => _ | None => true end); [|by left]. injection Hb as <-.
    apply bool_decide_eq_true in Ht, Hn. right. split_and!; [done..|by apply elem_of_cons; left]. }
  intros [?|?]%H; done.
Qed.

(** One event per type, oldest first. *)
Lemma bootstrap_types events n :
  NoDup (Type_ <$> omap (latestOfType events n) BootstrapEventTypes)
  ∧ Forall (λ e, Type_ e ∈ BootstrapEventTypes ∧ Seq e ≤ n ∧ e ∈ events) (omap (latestOfType events n) BootstrapEventTypes).
Proof.
  assert (NoDup BootstrapEventTypes) as Hn by (apply (bool_decide_unpack _); vm_compute; exact I).
  generalize dependent BootstrapEventTypes. intros types Hn. split.
  - induction types as [|t types IH]; [constructor|]. apply list.NoDup_cons in Hn as [Ht Hn]. cbn.
    destruct (latestOfType events n t) as [e|] eqn:E; [|by apply IH]. rewrite fmap_cons. constructor; [|by apply IH].
    intros (e' & He & (t' & Hin & Hl)%list_elem_of_omap)%list_elem_of_fmap. apply Ht.
    apply latestOfType_spec in E as (<- & _). apply latestOfType_spec in Hl as (<- & _). by rewrite He.
  - apply list.Forall_forall. intros e (t & Ht & (<- & ? & ?)%latestOfType_spec)%list_elem_of_omap. done.
Qed.

Lemma okLog_seq_inj sid L e e' : okLog sid L → e ∈ L → e' ∈ L → Seq e = Seq e' → e = e'.
Proof.
  intros HL [i Hi]%list_elem_of_lookup [j Hj]%list_elem_of_lookup Hs. destruct (HL _ _ Hi) as [E _], (HL _ _ Hj) as [E' _].
  assert (i = j) as -> by lia. congruence.
Qed.

#[local] Instance bySeq_trans : Transitive bySeq.
Proof. intros a b c. unfold bySeq. lia. Qed.

#[local] Instance bySeq_total : Total bySeq.
Proof. intros a b. unfold bySeq. lia. Qed.

Lemma sorted_strict sid L (evs : list sevent) :
  okLog sid L → Forall (λ e, e ∈ L) evs → NoDup evs → StronglySorted bySeq evs → StronglySorted (λ a b, Seq a < Seq b) evs.
Proof.
  intros HL. induction evs as [|e evs IH]; intros Hin Hn Hs; [constructor|].
  apply list.Forall_cons in Hin as [He Hin]. apply list.NoDup_cons in Hn as [Hne Hn]. inversion Hs as [|? ? Hs' Hle]; subst.
  constructor; [by apply IH|]. rewrite list.Forall_forall in Hin, Hle |- *. intros x Hx. specialize (Hle x Hx). unfold bySeq in Hle.
  destruct (decide (Seq e = Seq x)) as [E|]; [|lia]. by rewrite (okLog_seq_inj sid L e x HL He (Hin x Hx) E) in Hne.
Qed.

Lemma validBootstrap_intro sub previous allowed evs :
  Forall (λ e, SessionID e = sub_SessionID sub ∧ previous < Seq e ∧ Seq e ≤ sub_LastSeq sub ∧ Type_ e ∈ allowed) evs →
  StronglySorted (λ a b, Seq a < Seq b) evs → NoDup (Type_ <$> evs) → validBootstrap sub previous allowed evs = true.
Proof.
  revert previous allowed. induction evs as [|e evs IH]; intros previous allowed Hf Hs Hn; [done|].
  apply list.Forall_cons in Hf as [(H1 & H2 & H3 & H4) Hf]. inversion Hs as [|? ? Hs' Hlt]; subst.
  rewrite fmap_cons in Hn. apply list.NoDup_cons in Hn as [Hty Hn]. cbn. rewrite !bool_decide_true by done. cbn.
  apply IH; [|done|done]. rewrite list.Forall_forall in Hf, Hlt |- *. intros x Hx.
  destruct (Hf x Hx) as (? & _ & ? & ?). split_and!; try done; [by apply Hlt|]. apply list_elem_of_filter. split; [|done].
  intros E. apply Hty. rewrite <- E. by apply list_elem_of_fmap_2.
Qed.

Lemma length_omap_le {A B} (f : A → option B) (l : list A) : (length (omap f l) ≤ length l)%nat.
Proof. induction l as [|x l IH]; cbn; [done|]. destruct (f x); cbn; lia. Qed.

(** What the Store returns at a watermark passes the checks of the Hub. *)
Lemma bootstrapOf_valid sid L sub :
  okLog sid L → sub_SessionID sub = sid →
  (length (bootstrapOf L (sub_LastSeq sub)) ≤ length BootstrapEventTypes)%nat
  ∧ validBootstrap sub 0 BootstrapEventTypes (bootstrapOf L (sub_LastSeq sub)) = true
  ∧ Forall (λ e, e ∈ L) (bootstrapOf L (sub_LastSeq sub)).
Proof.
  intros HL Hsid. destruct (bootstrap_types L (sub_LastSeq sub)) as [Hn Hf]. unfold bootstrapOf.
  pose proof (merge_sort_Permutation bySeq (omap (latestOfType L (sub_LastSeq sub)) BootstrapEventTypes)) as Hp.
  pose proof (StronglySorted_merge_sort bySeq (omap (latestOfType L (sub_LastSeq sub)) BootstrapEventTypes)) as Hsort.
  set (evs := merge_sort _ _) in *. rewrite <- Hp in Hf. rewrite <- Hp in Hn.
  assert (Forall (λ e, e ∈ L) evs) as HinL by (eapply list.Forall_impl; [exact Hf|]; by intros e (_ & _ & ?)).
  split_and!; [| |done].
  - rewrite Hp. apply length_omap_le.
  - apply validBootstrap_intro; [|by eapply sorted_strict, Hsort; [..|by eapply NoDup_fmap_1]|done].
    eapply list.Forall_impl; [exact Hf|]. intros e (Ht & Hle & [i Hi]%list_elem_of_lookup).
    destruct (HL _ _ Hi) as (? & ? & _). split_and!; try done; [congruence|lia].
Qed.

(** ** Runs keep the connection viable *)

(** A stopped goroutine has closed the connection, and a tail bootstrap starts
    at a sequence number the Session has. *)
Definition viable (h : hub) : Prop :=
  (serving h = Stopped → connected h = false)
  ∧ (∀ sub, sub ∈ subscribed h → sub_SkipReplay sub = true → sub_LastSeq sub ≤ Z.of_nat (length (logOf h (sub_SessionID sub))))
  ∧ match serving h with PrepareSet n s _ => n ≤ Z.of_nat (length (logOf h s)) | _ => True end.

Section progress.
Context (version : Z) (mode : string) (tys : gset string).
Notation ok := (okHub version mode tys).

Lemma others_keep a h h' :
  (∀ o, a ≠ Serve o) → step a h = Some h' →
  serving h' = serving h ∧ subscribed h' = subscribed h ∧ (connected h = false → connected h' = false).
Proof.
  intros Hne H. destruct a; cbn in H; try (by edestruct Hne);
    unfold publishStep, ephemeralStep, ephemeralWriteStep, mbind, option_bind in H;
    repeat case_match; simplify_eq; cbn; split_and!; try done; intros; destruct_and?; congruence.
Qed.

Lemma serve_log h o h' : serveStep h o = Some h' → log h' = log h.
Proof.
  intros H. unfold serveStep in H.
  destruct (serving h) as [[|? ?]| |[|? ?]|[|? ?]| |[|? ?]| | | |]; repeat case_match; simplify_eq; done.
Qed.

Lemma grown_viable h h' :
  ok h → (∀ sid, sid ∈ sessions (subscribed h) → (length (logOf h sid) ≤ length (logOf h' sid))%nat) →
  serving h' = serving h → subscribed h' = subscribed h → (connected h = false → connected h' = false) → viable h → viable h'.
Proof.
  intros Hok Hg Hr Hs Hc (V1 & V2 & V3). unfold viable. rewrite Hr, Hs. split_and!.
  - intros E. by apply Hc, V1.
  - intros sub Hsub Hk. specialize (V2 sub Hsub Hk). specialize (Hg (sub_SessionID sub) ltac:(by apply list_elem_of_fmap_2)). lia.
  - pose proof (k_serving _ _ _ _ Hok) as Hk. unfold okServing in Hk. destruct (serving h); try done.
    destruct Hk as ((Hin & _) & _). specialize (Hg _ Hin). lia.
Qed.

Lemma watermark_viable h n s todo o h' :
  serving h = PrepareSet n s todo → viable h → serveStep h o = Some h' → viable h'.
Proof.
  intros Hr (V1 & V2 & V3). rewrite Hr in V3. unfold serveStep. rewrite Hr. intros [= <-]. unfold viable.
  split_and!; [done| |done]. cbn -[logOf]. intros sub (sub' & -> & Hin)%list_elem_of_fmap. case_bool_decide as E; cbn -[logOf]; [done|].
  by apply V2.
Qed.

Lemma served_viable h h' :
  viable h → log h' = log h → subscribed h' = subscribed h → (serving h' = Stopped → connected h' = false) →
  match serving h' with PrepareSet n s _ => n ≤ Z.of_nat (length (logOf h s)) | _ => True end → viable h'.
Proof. intros (_ & V2 & _) Hl Hs Hstop Hset. unfold viable, logOf in *. by rewrite Hl, Hs. Qed.

Lemma serve_viable h o h' : viable h → serveStep h o = Some h' → viable h'.
Proof.
  intros V H. destruct (serving h) eqn:Hr; try (by eapply watermark_viable); pose proof V as (V1 & _);
    unfold serveStep in H; rewrite Hr in H; repeat case_match; simplify_eq; apply (served_viable h); cbn; try done.
Qed.

Lemma step_viable a h h' : ok h → viable h → step a h = Some h' → viable h'.
Proof.
  intros Hok V H. assert ((∃ o, a = Serve o) ∨ ∀ o, a ≠ Serve o) as [[o ->]|Hne] by (destruct a; naive_solver).
  - by eapply serve_viable.
  - destruct (others_keep a h h') as (Hr & Hs & Hc); [done|done|]. eapply (grown_viable h); try done.
    intros sid Hin. destruct (step_log _ _ _ _ _ _ sid Hok H Hin) as [X ->]. rewrite length_app. lia.
Qed.

Lemma run_viable actions h h' : ok h → viable h → run actions h = Some h' → viable h'.
Proof.
  revert h. induction actions as [|a actions IH]; intros h Hok V H; cbn in H; [by injection H as <-|].
  apply bind_Some in H as (h1 & Hstep & H). destruct (hub_step_ok _ _ _ _ _ _ Hok Hstep) as (Hok1 & _ & _).
  apply (IH h1); try done. by eapply (step_viable a h).
Qed.
(** ** The goroutine alone *)

(** An open connection whose history may be replayed. *)
Record going (h : hub) : Prop := {
  n_ok : ok h;
  n_viable : viable h;
  n_open : connected h = true;
  n_history : ∀ sid e, sid ∈ sessions (subscribed h) → e ∈ logOf h sid → requiredHistory (client h) e sid = true;
}.

(** Some segments of the serving goroutine whose writes succeed. *)
Definition reaches (h h' : hub) : Prop := ∃ n, run (repeat (Serve true) n) h = Some h'.

Lemma reaches_refl h : reaches h h.
Proof. by exists 0%nat. Qed.

Lemma reaches_step h h1 h' : serveStep h true = Some h1 → reaches h1 h' → reaches h h'.
Proof. intros H [n Hn]. exists (S n). cbn. by rewrite H. Qed.

Lemma reaches_trans h h1 h' : reaches h h1 → reaches h1 h' → reaches h h'.
Proof.
  intros [n Hn]. revert h Hn. induction n as [|n IH]; intros h Hn; cbn in Hn; [by injection Hn as <-|].
  apply bind_Some in Hn as (h2 & Hs & Hn). intros H. eapply reaches_step; [exact Hs|]. by eapply IH.
Qed.

Lemma going_step h h' : going h → serveStep h true = Some h' → connected h' = true → going h'.
Proof.
  intros [Hok V Ho Hh] H Ho'. destruct (hub_step_ok _ _ _ (Serve true) h h' Hok H) as (Hok' & _ & Hs).
  split; try done; [by eapply serve_viable|]. intros sid e. rewrite Hs. unfold logOf. rewrite (serve_log _ _ _ H). intros Hin He.
  specialize (Hh sid e Hin He). unfold requiredHistory in *.
  by rewrite (k_mode _ _ _ _ Hok'), <- (k_mode _ _ _ _ Hok).
Qed.

(** To reach a later point it is enough to take the next segment. *)
Lemma going_next h h1 (Q : hub → Prop) :
  going h → serveStep h true = Some h1 → connected h1 = true →
  (going h1 → ∃ h', reaches h1 h' ∧ going h' ∧ Q h') → ∃ h', reaches h h' ∧ going h' ∧ Q h'.
Proof.
  intros Hg Hs Ho H. destruct (H (going_step _ _ Hg Hs Ho)) as (h' & Hr & Hg' & HQ). exists h'. split_and!; try done.
  by eapply reaches_step.
Qed.

Lemma going_here h (Q : hub → Prop) : going h → Q h → ∃ h', reaches h h' ∧ going h' ∧ Q h'.
Proof. intros Hg HQ. exists h. split_and!; try done. apply reaches_refl. Qed.

Lemma going_after h h1 (Q : hub → Prop) :
  reaches h h1 → (∃ h', reaches h1 h' ∧ going h' ∧ Q h') → ∃ h', reaches h h' ∧ going h' ∧ Q h'.
Proof. intros Hr (h' & Hr' & ?). exists h'. split; [by eapply reaches_trans|done]. Qed.

Lemma prepared h todo : going h → serving h = Prepare todo → ∃ h', reaches h h' ∧ going h' ∧ ∃ t, serving h' = Next t.
Proof.
  revert h. induction todo as [|sub todo IH]; intros h Hg Hr.
  - eapply going_next; [done|unfold serveStep; by rewrite Hr|apply Hg|]. intros Hg'. apply going_here; [done|]. by eexists.
  - pose proof (n_ok _ Hg) as Hok. pose proof (k_serving _ _ _ _ Hok) as Hs. unfold okServing in Hs. rewrite Hr in Hs.
    apply okTodo_cons in Hs as (Hsub & _). destruct (n_viable _ Hg) as (_ & V & _). specialize (V sub Hsub).
    destruct (sub_SkipReplay sub) eqn:Hk.
    + specialize (V eq_refl). eapply going_next; [done|unfold serveStep; by rewrite Hr, Hk, bool_decide_false by lia|apply Hg|].
      intros Hg1. eapply going_next; [done|done|apply Hg|]. intros Hg2. by apply IH.
    + eapply going_next; [done|unfold serveStep; by rewrite Hr, Hk|apply Hg|]. intros Hg1. by apply IH.
Qed.

Lemma replayed h evs s todo :
  going h → serving h = Replaying evs s todo → ∃ h', reaches h h' ∧ going h' ∧ serving h' = Drain [] s todo.
Proof.
  revert h. induction evs as [|e evs IH]; intros h Hg Hr.
  - eapply going_next; [done|unfold serveStep; by rewrite Hr|apply Hg|]. intros Hg'. by apply going_here.
  - pose proof (n_ok _ Hg) as Hok. pose proof (k_serving _ _ _ _ Hok) as Hs. unfold okServing in Hs. rewrite Hr in Hs.
    destruct Hs as (Hin & _). pose proof (o_phase _ _ (k_views _ _ _ _ Hok _ Hin)) as Hph. cbn in Hph. rewrite Hr in Hph.
    cbn in Hph. rewrite decide_True in Hph by done. destruct Hph as ([[He _] _]%list.Forall_cons & _).
    pose proof (n_history _ Hg s e Hin He) as Hreq. destruct (filtered (client h) (frameOfEvent e)) eqn:Hf.
    + eapply going_next; [done|unfold serveStep; by rewrite Hr, Hreq, Hf|apply Hg|]. intros Hg1. by apply IH.
    + eapply going_next; [done|unfold serveStep; by rewrite Hr, Hreq, Hf, (n_open _ Hg)|apply Hg|]. intros Hg1.
      eapply going_next; [done|done|apply Hg|]. intros Hg2. by apply IH.
Qed.

Lemma stateOf_mark_buffered c ev s :
  is_Some (subscriptions c !! s) → buffered (stateOf (markSent c ev) s) = buffered (stateOf c s).
Proof. intros H. rewrite stateOf_mark by done. case_decide; [by destruct (marked_same (stateOf c s) ev) as (_ & -> & _)|done]. Qed.

Lemma drained h evs s todo :
  going h → serving h = Drain evs s todo →
  ∃ h', reaches h h' ∧ going h' ∧ (serving h' = Drain [] s todo ∧ buffered (stateOf (client h') s) = buffered (stateOf (client h) s)).
Proof.
  revert h. induction evs as [|ev evs IH]; intros h Hg Hr; [by apply going_here|].
  pose proof (n_ok _ Hg) as Hok. pose proof (k_serving _ _ _ _ Hok) as Hs. unfold okServing in Hs. rewrite Hr in Hs.
  destruct Hs as (Hin & _). pose proof (proj2 (k_dom _ _ _ _ Hok s) Hin) as Hdom.
  destruct (unsent (client h) ev) eqn:Hu.
  - eapply going_next; [done|unfold serveStep; by rewrite Hr, Hu|apply Hg|]. intros Hg1.
    eapply going_next; [done|cbn; by rewrite (n_open _ Hg)|apply Hg|]. intros Hg2.
    eapply going_next; [done|done|apply Hg|]. intros Hg3.
    destruct (IH _ Hg3 eq_refl) as (h' & Hreach & Hg' & Hd & Hb). exists h'. split_and!; try done. rewrite Hb. cbn -[markSent].
    by apply stateOf_mark_buffered.
  - eapply going_next; [done|unfold serveStep; by rewrite Hr, Hu|apply Hg|]. intros Hg1. by apply (IH _ Hg1).
Qed.

(** The drain ends: without other events the second round finds no more. *)
Lemma finished_drain h s todo :
  going h → serving h = Drain [] s todo → ∃ h', reaches h h' ∧ going h' ∧ serving h' = Next todo.
Proof.
  intros Hg Hr. assert (∀ h, going h → serving h = Drain [] s todo → subscriptions (client h) !! s = Some (stateOf (client h) s)) as Hst.
  { clear h Hg Hr. intros h Hg Hr. pose proof (k_serving _ _ _ _ (n_ok _ Hg)) as Hs. unfold okServing in Hs. rewrite Hr in Hs.
    apply view_state, (k_dom _ _ _ _ (n_ok _ Hg)), Hs. }
  assert (∀ h, going h → serving h = Drain [] s todo → buffered (stateOf (client h) s) = [] →
            ∃ h', reaches h h' ∧ going h' ∧ serving h' = Next todo) as Hend.
  { clear h Hg Hr. intros h Hg Hr Hb. eapply going_next; [done|unfold serveStep, takeBuffered; by rewrite Hr, (Hst h Hg Hr), Hb|apply Hg|].
    intros Hg1. by apply going_here. }
  destruct (buffered (stateOf (client h) s)) as [|ev evs] eqn:Hb; [by apply Hend|].
  eapply going_next; [done|unfold serveStep, takeBuffered; by rewrite Hr, (Hst h Hg Hr), Hb|apply Hg|]. intros Hg1.
  destruct (drained _ _ _ _ Hg1 eq_refl) as (h2 & Hr2 & Hg2 & Hd & Hb2). eapply going_after; [exact Hr2|]. apply Hend; try done.
  rewrite Hb2. cbn. by rewrite stateOf_set, decide_True.
Qed.

Lemma replayEvents_some h sub :
  going h → sub ∈ subscribed h → ∃ evs, replayEvents h sub = Some evs.
Proof.
  intros Hg Hsub. pose proof (n_ok _ Hg) as Hok. unfold replayEvents. destruct (sub_SkipReplay sub); [|by eauto].
  assert (sub_SessionID sub ∈ sessions (subscribed h)) as Hin by by apply list_elem_of_fmap_2.
  destruct (bootstrapOf_valid (sub_SessionID sub) (logOf h (sub_SessionID sub)) sub) as (Hlen & Hv & HL); [|done|].
  { apply (o_log _ _ (k_views _ _ _ _ Hok _ Hin)). }
  rewrite bool_decide_true, Hv by done. cbn. rewrite (proj2 (forallb_forall _ _)); [by eauto|].
  intros e He. apply (n_history _ Hg); [done|]. rewrite list.Forall_forall in HL. apply HL. by apply list_elem_of_In.
Qed.

Lemma served h todo : going h → serving h = Next todo → ∃ h', reaches h h' ∧ going h' ∧ serving h' = Serving.
Proof.
  revert h. induction todo as [|sub todo IH]; intros h Hg Hr.
  - eapply going_next; [done|unfold serveStep; by rewrite Hr|apply Hg|]. intros Hg'. by apply going_here.
  - pose proof (k_serving _ _ _ _ (n_ok _ Hg)) as Hs. unfold okServing in Hs. rewrite Hr in Hs.
    apply okTodo_cons in Hs as (Hsub & _). destruct (replayEvents_some _ _ Hg Hsub) as [evs He].
    eapply going_next; [done|unfold serveStep; by rewrite Hr, He|apply Hg|]. intros Hg1.
    destruct (replayed _ _ _ _ Hg1 eq_refl) as (h2 & Hr2 & Hg2 & Hd). eapply going_after; [exact Hr2|].
    destruct (finished_drain _ _ _ Hg2 Hd) as (h3 & Hr3 & Hg3 & Hn). eapply going_after; [exact Hr3|]. by apply IH.
Qed.

(** From wherever the goroutine is. *)
Lemma reaches_serving h : going h → ∃ h', reaches h h' ∧ going h' ∧ serving h' = Serving.
Proof.
  intros Hg. assert (∀ h evs s todo, going h → serving h = Drain evs s todo → ∃ h', reaches h h' ∧ going h' ∧ serving h' = Serving) as Hdrain.
  { clear h Hg. intros h evs s todo Hg Hr. destruct (drained _ _ _ _ Hg Hr) as (h1 & Hr1 & Hg1 & Hd & _). eapply going_after; [exact Hr1|].
    destruct (finished_drain _ _ _ Hg1 Hd) as (h2 & Hr2 & Hg2 & Hn). eapply going_after; [exact Hr2|]. by eapply served. }
  assert (∀ h evs s todo, going h → serving h = Replaying evs s todo → ∃ h', reaches h h' ∧ going h' ∧ serving h' = Serving) as Hrep.
  { clear h Hg. intros h evs s todo Hg Hr. destruct (replayed _ _ _ _ Hg Hr) as (h1 & Hr1 & Hg1 & Hd). eapply going_after; [exact Hr1|].
    by eapply Hdrain. }
  assert (∀ h todo, going h → serving h = Prepare todo → ∃ h', reaches h h' ∧ going h' ∧ serving h' = Serving) as Hprep.
  { clear h Hg. intros h todo Hg Hr. destruct (prepared _ _ Hg Hr) as (h1 & Hr1 & Hg1 & t & Hn). eapply going_after; [exact Hr1|].
    by eapply served. }
  destruct (serving h) eqn:Hr; eauto using served, going_here.
  - eapply going_next; [done|unfold serveStep; by rewrite Hr|apply Hg|]. intros Hg1. by eapply Hprep.
  - eapply going_next; [done|unfold serveStep; by rewrite Hr|apply Hg|]. intros Hg1. by eapply Hrep.
  - eapply going_next; [done|unfold serveStep; by rewrite Hr, (n_open _ Hg)|apply Hg|]. intros Hg1.
    eapply going_next; [done|done|apply Hg|]. intros Hg2. by eapply Hdrain.
  - eapply going_next; [done|unfold serveStep; by rewrite Hr|apply Hg|]. intros Hg1. by eapply Hdrain.
  - destruct (n_viable _ Hg) as (V & _). rewrite (n_open _ Hg) in V. by specialize (V Hr).
Qed.

Lemma reaches_keeps h h' : reaches h h' → log h' = log h ∧ publishers h' = publishers h.
Proof.
  intros [n Hn]. revert h Hn. induction n as [|n IH]; intros h Hn; cbn in Hn; [by injection Hn as <-|].
  apply bind_Some in Hn as (h1 & Hs & Hn). destruct (IH _ Hn) as [-> ->]. split; [by eapply serve_log|].
  unfold serveStep in Hs.
  destruct (serving h) as [[|? ?]| |[|? ?]|[|? ?]| |[|? ?]| | | |]; repeat case_match; simplify_eq; done.
Qed.
End progress.

End DeliveryProgress.
