(* ===== verification/DeliveryTheorems.v ===== *)
(** * What a client connection is sent

    The order, the completeness and the safety of the frames written to a
    client connection, in every interleaving of the Hub's goroutines, and the
    end of the replay. *)

From S2P Require Import Prelude StoreApi Json Wire GoText EncryptedPacket CodecPayloads Frames Codec HubReplay ClientDelivery DeliveryProofs DeliveryProperties DeliveryProgress.
From Stdlib Require Import Sorting.Sorted.
From stdpp Require Import base gmap strings list option.
#[local] Open Scope Z_scope.

Module DeliveryTheorems.
Import Wire Frames Codec HubReplay ClientDelivery DeliveryProofs DeliveryProperties DeliveryProgress.

(** ** The watermark of a subscription *)

Definition sameSubscription (h h' : hub) (sid : string) : Prop :=
  sub_SkipReplay (subOf (subscribed h') sid) = sub_SkipReplay (subOf (subscribed h) sid)
  ∧ (sub_SkipReplay (subOf (subscribed h) sid) = false → subOf (subscribed h') sid = subOf (subscribed h) sid).

Lemma same_subscribed h h' sid : subscribed h' = subscribed h → sameSubscription h h' sid.
Proof. intros E. unfold sameSubscription. by rewrite E. Qed.

Lemma serve_subscription version mode tys h ok_ h' sid :
  okHub version mode tys h → serveStep h ok_ = Some h' → sameSubscription h h' sid.
Proof.
  intros Hok H. unfold serveStep in H. pose proof (k_serving _ _ _ _ Hok) as Hs. unfold okServing in Hs.
  destruct (serving h) as [[|sub todo]|n s todo|[|sub todo]|[|ev evs] s todo| |[|ev evs] s todo| | | |];
    repeat case_match; simplify_eq; try (by apply same_subscribed).
  destruct Hs as ((Hin & _) & Hk). unfold sameSubscription. cbn -[subOf].
  change ((λ sub, _) <$> subscribed h) with (rewatermark s n <$> subscribed h).
  destruct (decide (sid = s)) as [->|Hne]; [|by rewrite subOf_rewatermark_ne].
  rewrite subOf_rewatermark by done. cbn. rewrite Hk. done.
Qed.

Lemma step_subscription version mode tys a h h' sid :
  okHub version mode tys h → step a h = Some h' → sameSubscription h h' sid.
Proof.
  intros Hok H. destruct a; cbn in H; try (by eapply serve_subscription);
    unfold publishStep, ephemeralStep, ephemeralWriteStep, mbind, option_bind in H;
    repeat case_match; simplify_eq; by apply same_subscribed.
Qed.

Lemma run_subscription version mode tys actions h h' sid :
  okHub version mode tys h → run actions h = Some h' → sameSubscription h h' sid.
Proof.
  revert h. induction actions as [|a actions IH]; intros h Hok H; cbn in H; [injection H as <-; by apply same_subscribed|].
  apply bind_Some in H as (h1 & Hstep & H). destruct (step_subscription _ _ _ _ _ _ sid Hok Hstep) as [E1 E2].
  destruct (hub_step_ok _ _ _ _ _ _ Hok Hstep) as (Hok1 & _ & _). destruct (IH _ Hok1 H) as [E3 E4].
  split; [by rewrite E3|]. intros Hk. rewrite E4 by by rewrite E1. by apply E2.
Qed.

(** ** Order and completeness *)


Lemma segment_all L b : 0 ≤ b → segment L b (Z.max b (Z.of_nat (length L))) = frameOfEvent <$> drop (Z.to_nat b) L.
Proof. intros Hb. unfold segment. rewrite take_ge; [done|]. rewrite length_drop. lia. Qed.

Lemma live_complete v :
  complete v → v_open v = true → v_phase v = Live → v_pub v = Sending [] →
  liveOut (v_base v) (v_out v) = frameOfEvent <$> drop (Z.to_nat (v_base v)) (v_log v).
Proof.
  intros [Hb _ Hs] Ho Hph Hp. specialize (Hs Ho). unfold okStream in Hs. rewrite Hph in Hs.
  destruct Hs as (_ & Hout & Hf & Hbuf & _). unfold stream in Hf. rewrite Hph, Hp, Hbuf in Hf. cbn in Hf.
  rewrite Hout, Hf. by apply segment_all.
Qed.


(** ** Progress *)

Lemma actions_app a b h h1 h2 : run a h = Some h1 → run b h1 = Some h2 → run (a ++ b) h = Some h2.
Proof.
  revert h. induction a as [|x a IH]; intros h H1 H2; cbn in *; [by injection H1 as <-|].
  apply bind_Some in H1 as (h' & -> & H1). by apply IH.
Qed.


(** ** Nothing else is sent *)

(** A frame the connection may be sent: an event of one of its subscriptions,
    of a type its protocol version has, and sealed when its content must be. *)
Definition permitted (version : Z) (mode : string) (tys : gset string) (subs : list string) (ev : pevent) : Prop :=
  ev_SessionID ev ∈ subs ∧ requiredEvent (mkClient version mode tys ∅) ev = true
  ∧ filtered (mkClient version mode tys ∅) ev = false.

#[local] Arguments markSent : simpl never.

Section permitted.
Context (version : Z) (mode : string) (tys : gset string) (subs : list string).
Notation P := (permitted version mode tys subs).
Notation ok := (okHub version mode tys).

Definition okBuffers (c : clientConnection) : Prop :=
  ∀ sid st, subscriptions c !! sid = Some st → Forall P (buffered st).

Definition okDrain (r : replayer) : Prop :=
  match r with
  | Drain evs _ _ | DrainMark _ evs _ _ => Forall P evs
  | DrainWrite ev evs _ _ => Forall P (ev :: evs)
  | _ => True
  end.

Definition okWrite (p : publisher) : Prop := match p with Writing ev _ => P ev | _ => True end.

Record guarded (h : hub) : Prop := {
  g_written : Forall P (written h);
  g_inflight : Forall P (inflight h);
  g_buffers : okBuffers (client h);
  g_drain : okDrain (serving h);
  g_publishers : ∀ sid, okWrite (publisherOf h sid);
}.

Lemma permitted_here h ev :
  ok h → ev_SessionID ev ∈ subs → requiredEvent (client h) ev = true → filtered (client h) ev = false → P ev.
Proof.
  intros [Kv Km Kt _ _ _ _ _ _] Hin Hr Hf. split; [done|]. unfold requiredEvent, filtered, isPublisherEphemeralType in *.
  cbn. by rewrite <- Kv, <- Km, <- Kt.
Qed.

Lemma clone_permitted ev : P ev → P (cloneProtocolEvent ev).
Proof.
  intros (Hin & Hr & Hf). split; [done|]. split; [|done]. unfold requiredEvent in *. cbn in *.
  by destruct (ev_Payload ev) as [|[|a p]].
Qed.

Lemma set_buffers c sid st : okBuffers c → Forall P (buffered st) → okBuffers (setState c sid st).
Proof.
  intros Hc Hst s st'. cbn. rewrite lookup_insert_Some. intros [[_ <-]|[_ H]]; [done|by eapply Hc].
Qed.

Lemma mark_buffers c ev : okBuffers c → okBuffers (markSent c ev).
Proof.
  intros Hc. unfold markSent. destruct (ev_Seq ev); [|done]. destruct (subscriptions c !! _) eqn:E; [|done].
  case_bool_decide; [|done]. apply set_buffers; [done|]. cbn. by eapply Hc.
Qed.

Lemma buffer_permitted st ev st' : Forall P (buffered st) → P ev → bufferEvent st ev = Some st' → Forall P (buffered st').
Proof.
  intros Hb Hev H. pose proof (clone_permitted _ Hev). unfold bufferEvent in H. repeat case_match; simplify_eq; cbn;
    first [by apply Forall_insert | apply list.Forall_app; split; [done|by constructor]].
Qed.

Lemma live_permitted h ev :
  ok h → okBuffers (client h) → ev_SessionID ev ∈ subs →
  okBuffers (liveBegin (client h) ev).1 ∧ ((liveBegin (client h) ev).2 = Write → P ev).
Proof.
  intros Hok Hb Hin. pose proof (permitted_here h ev Hok Hin) as Hp. unfold liveBegin.
  destruct (requiredEvent _ _); cbn; [|done]. destruct (filtered _ _); [split; [by apply mark_buffers|done]|].
  specialize (Hp eq_refl eq_refl). destruct (subscriptions (client h) !! _) as [st|] eqn:E; [|done].
  destruct (replaying st); [|by repeat case_match].
  destruct (bufferEvent st ev) as [st'|] eqn:Hbuf; [|done]. split; [|done].
  apply set_buffers; [done|]. eapply buffer_permitted; eauto.
Qed.

Lemma publisher_guarded h h' s p :
  guarded h → Forall P (written h') → inflight h' = inflight h → okBuffers (client h') → serving h' = serving h →
  publishers h' = publishers h → okWrite p → guarded (withPublisher h' s p).
Proof.
  intros [_ Hi _ Hd Hpub] Hw' Hi' Hc Hs Hp' Hp. split; [done|cbn; congruence|done|cbn; congruence|].
  intros sid. rewrite publisherOf_with. case_decide; [done|]. unfold publisherOf. rewrite Hp'. apply Hpub.
Qed.

Lemma publish_guarded h s ok_ h' :
  ok h → sessions (subscribed h) = subs → guarded h → publishStep h s ok_ = Some h' → guarded h'.
Proof.
  intros Hok Hsub Hg H. pose proof Hg as [Hw Hi Hb Hd Hp]. unfold publishStep in H.
  destruct (publisherOf h s) as [[|ev queue]|ev queue|ev queue] eqn:E; [done| | |].
  - destruct (isTarget h s) eqn:Ht; cbn in H; [|injection H as <-; by apply (publisher_guarded h)].
    assert (ev_SessionID ev ∈ subs) as Hin.
    { apply andb_true_iff in Ht as [_ Hdom%bool_decide_eq_true]. pose proof (proj1 (k_dom _ _ _ _ Hok s) Hdom) as Hs.
      pose proof (k_views _ _ _ _ Hok s Hs) as Ho. pose proof (o_publisher _ _ Ho) as Hq. cbn in Hq. rewrite E in Hq.
      apply list.Forall_cons in Hq as [Hev _]. rewrite (stored_session _ _ _ (o_log _ _ Ho) Hev). congruence. }
    destruct (live_permitted h ev Hok Hb Hin) as [Hb' Hev]. destruct (liveBegin (client h) ev) as [c o]. cbn in *.
    injection H as <-. destruct o; apply (publisher_guarded h); cbn; eauto.
  - specialize (Hp s). rewrite E in Hp. injection H as <-. destruct (_ && _); apply (publisher_guarded h); cbn; eauto.
    apply list.Forall_app. split; [done|by constructor].
  - injection H as <-. apply (publisher_guarded h); cbn; eauto. by apply mark_buffers.
Qed.

Lemma ephemeral_guarded h ev h' :
  ok h → sessions (subscribed h) = subs → guarded h → ephemeralStep h ev = Some h' → guarded h'.
Proof.
  intros Hok Hsub Hg H. pose proof Hg as [Hw Hi Hb Hd Hp]. unfold ephemeralStep in H. case_bool_decide; [done|].
  destruct (isTarget h (ev_SessionID ev)) eqn:Ht; cbn in H; [|by injection H as <-].
  apply andb_true_iff in Ht as [_ Hdom%bool_decide_eq_true]. apply (k_dom _ _ _ _ Hok) in Hdom. rewrite Hsub in Hdom.
  match type of H with context [liveBegin _ ?out] => destruct (live_permitted h out Hok Hb) as [Hb' Hev]; [done|];
    destruct (liveBegin (client h) out) as [c o] end. cbn in *.
  injection H as <-. destruct o; split; cbn; eauto. apply list.Forall_app. split; [done|]. constructor; [by apply Hev|done].
Qed.

Lemma served_guarded h h' :
  guarded h → Forall P (written h') → inflight h' = inflight h → publishers h' = publishers h → okBuffers (client h') →
  okDrain (serving h') → guarded h'.
Proof.
  intros [_ Hi _ _ Hpub] Hw Hi' Hp Hb Hd. split; try done; [by rewrite Hi'|]. unfold publisherOf. by rewrite Hp.
Qed.

Lemma frame_required c e sid : SessionID e = sid → requiredHistory c e sid = true → requiredEvent c (frameOfEvent e) = true.
Proof.
  intros <-. unfold requiredHistory, requiredEvent. destruct (bool_decide _); [done|]. by destruct e.
Qed.

Lemma take_guarded h s : okBuffers (client h) →
  okBuffers (takeBuffered (client h) s).1 ∧ ∀ evs, (takeBuffered (client h) s).2 = Some evs → Forall P evs.
Proof.
  intros Hb. unfold takeBuffered. destruct (subscriptions (client h) !! s) as [st|] eqn:E; [|done]. specialize (Hb s st E) as Hst.
  destruct (buffered st); cbn; (split; [by apply set_buffers|]); [done|]. by intros evs [= <-].
Qed.

Lemma serve_guarded h ok_ h' :
  ok h → sessions (subscribed h) = subs → guarded h → serveStep h ok_ = Some h' → guarded h'.
Proof.
  intros Hok Hsub Hg H. pose proof Hg as [Hw Hi Hb Hd Hp]. unfold serveStep in H.
  assert (∀ b ev, Forall P (ev :: b) → Forall P (written h ++ [ev])) as Happ
    by (intros b ev [? _]%list.Forall_cons; apply list.Forall_app; split; [done|by constructor]).
  destruct (serving h) as [[|sub todo]|n s todo|[|sub todo]|[|e evs] s todo| ev evs s todo|[|ev evs] s todo|ev evs s todo|ev evs s todo| |] eqn:Hr;
    cbn in Hd; try discriminate H; try (repeat case_match; simplify_eq; apply (served_guarded h _ Hg); cbn; done).
  - injection H as <-. apply (served_guarded h _ Hg); cbn; try done. destruct (subscriptions (client h) !! s) eqn:E; [|done].
    apply set_buffers; [done|]. cbn. by eapply Hb.
  - assert (SessionID e = s ∧ s ∈ subs) as [Hsid Hin].
    { pose proof (k_serving _ _ _ _ Hok) as Hs. unfold okServing in Hs. rewrite Hr in Hs. destruct Hs as (Hin & _).
      pose proof (k_views _ _ _ _ Hok _ Hin) as Ho. pose proof (o_phase _ _ Ho) as Hph. cbn in Hph. rewrite Hr in Hph. cbn in Hph.
      rewrite decide_True in Hph by done. destruct Hph as ([[He _] _]%list.Forall_cons & _). split; [|congruence].
      exact (stored_session _ _ _ (o_log _ _ Ho) (stored_frame _ _ He)). }
    destruct (requiredHistory _ _ _) eqn:Hreq; cbn in H; [|injection H as <-; by apply (served_guarded h _ Hg)].
    destruct (filtered _ _) eqn:Hf; [injection H as <-; apply (served_guarded h _ Hg); cbn; try done; by apply mark_buffers|].
    assert (P (frameOfEvent e)) as He by (apply (permitted_here h); [done|cbn; congruence|by eapply frame_required|done]).
    destruct (_ && _); injection H as <-; apply (served_guarded h _ Hg); cbn; try done. apply (Happ []). by constructor.
  - injection H as <-. apply (served_guarded h _ Hg); cbn; try done. by apply mark_buffers.
  - destruct (take_guarded h s Hb) as [Hb' Hevs]. destruct (takeBuffered (client h) s) as [c [l|]]; injection H as <-;
      apply (served_guarded h _ Hg); cbn; eauto.
  - injection H as <-. destruct (unsent _ _); apply (served_guarded h _ Hg); cbn; try done. by apply list.Forall_cons in Hd as [].
  - destruct (_ && _); injection H as <-; apply (served_guarded h _ Hg); cbn; eauto. by apply list.Forall_cons in Hd as [].
  - injection H as <-. apply (served_guarded h _ Hg); cbn; try done. by apply mark_buffers.
Qed.

Lemma step_guarded a h h' :
  ok h → sessions (subscribed h) = subs → guarded h → step a h = Some h' → guarded h'.
Proof.
  intros Hok Hsub Hg H. pose proof Hg as [Hw Hi Hb Hd Hp]. destruct a; cbn in H.
  - destruct (_ && _); [|done]. injection H as <-. change (guarded (withPublisher
      (mkHub (<[sid:=logOf h sid ++ numbered sid (Z.of_nat (length (logOf h sid)) + 1) evs]> (log h)) (types h) (client h) (subscribed h)
         (written h) (connected h) (serving h) (publishers h) (inflight h)) sid
      (Sending (frameOfEvent <$> numbered sid (Z.of_nat (length (logOf h sid)) + 1) evs)))).
    by apply (publisher_guarded h).
  - destruct (idle _); [|done]. injection H as <-. by apply (publisher_guarded h).
  - destruct (publisherOf h sid); [|done..]. injection H as <-. by apply (publisher_guarded h).
  - by eapply publish_guarded.
  - by eapply ephemeral_guarded.
  - unfold ephemeralWriteStep in H. apply bind_Some in H as (ev & Hev & H). injection H as <-.
    pose proof (list.Forall_lookup_1 _ _ _ _ Hi Hev) as HP. assert (Forall P (delete i (inflight h))) as Hdel by by apply Forall_delete.
    destruct (_ && _); split; cbn; try done. apply list.Forall_app. split; [done|by constructor].
  - by eapply serve_guarded.
Qed.

Lemma run_guarded actions h h' :
  ok h → sessions (subscribed h) = subs → guarded h → run actions h = Some h' → guarded h'.
Proof.
  revert h. induction actions as [|a actions IH]; intros h Hok Hsub Hg H; cbn in H; [by injection H as <-|].
  apply bind_Some in H as (h1 & Hstep & H). destruct (hub_step_ok _ _ _ _ _ _ Hok Hstep) as (Hok1 & _ & Hs).
  apply (IH h1); try done; [by rewrite Hs|by eapply (step_guarded a h)].
Qed.
End permitted.

(** C22: A client connection is only ever sent events of the Sessions it
    subscribed to, of types its protocol version has and that are not reserved
    for the publisher's ephemeral types; on a connection whose content must be
    encrypted every durable event written passed the replay validation and
    every ephemeral one carries a sealed packet, on the replay, buffered and
    live paths alike. *)
Theorem client_is_sent_only_permitted_events l v version mode subs actions h ev :
  NoDup (sessions subs) → (∀ s, s ∈ sessions subs → okLog s (historyOf l s)) →
  run actions (registerPeer l v version mode subs) = Some h → ev ∈ written h →
  ev_SessionID ev ∈ sessions subs
  ∧ EventTypeAllowed version (ev_Type ev) (bool_decide (ev_Seq ev ≠ None)) = true
  ∧ (ev_Seq ev ≠ None → ev_Type ev ∉ publisherEphemeralTypes v)
  ∧ (mode = ContentModeRequired →
       match ev_Seq ev with
       | Some seq => ∀ time, validateRequiredReplayEvent
                       (StoreApi.mkEvent (ev_SessionID ev) seq (ev_Type ev) time (payloadBytes (ev_Payload ev))) (ev_SessionID ev) = true
       | None => isEphemeralEvent (ev_Type ev) = true ∧ sealedEvent (ev_Type ev) (payloadBytes (ev_Payload ev)) = true
       end).
Proof.
  intros Hn Hl Hrun Hev. pose proof (start_ok l v version mode subs Hn Hl) as Hok.
  destruct (run_guarded version mode (publisherEphemeralTypes v) (sessions subs) actions _ h Hok eq_refl) as [Hw _ _ _ _]; [|done|].
  { split; cbn -[newClientConnection]; try constructor. intros sid st. rewrite subscriptions_start by done.
    case_decide; [|done]. intros [= <-]. constructor. }
  rewrite list.Forall_forall in Hw. destruct (Hw ev Hev) as (Hin & Hr & Hf). split; [done|].
  unfold filtered in Hf. cbn in Hf. apply orb_false_iff in Hf as [Hf1 Hf2]. split; [by apply negb_false_iff in Hf1|].
  split.
  - intros Hs Ht. rewrite (bool_decide_true (ev_Seq ev ≠ None)) in Hf2 by done.
    unfold isPublisherEphemeralType in Hf2. cbn in Hf2. by apply bool_decide_eq_false in Hf2.
  - intros ->. unfold requiredEvent in Hr. cbn in Hr. destruct (ev_Seq ev); [by intros time|]. by apply andb_true_iff in Hr.
Qed.

End DeliveryTheorems.
