(* ===== verification/DeliveryScenarios.v ===== *)
(** * Runs of the delivery to client connections

    A hand-over from replay to live delivery, a tail bootstrap, and the two
    places where the code is looser than it looks. *)

From S2P Require Import Prelude StoreApi Json Wire GoText EncryptedPacket CodecPayloads Frames Codec CodecScenarios HubReplay ClientDelivery DeliveryProofs DeliveryProperties DeliveryProgress DeliveryTheorems.
From Stdlib Require Import Sorting.Sorted.
From stdpp Require Import base gmap strings list option.
#[local] Open Scope Z_scope.

Module DeliveryScenarios.
Import Wire Frames Codec HubReplay ClientDelivery DeliveryProofs DeliveryProperties DeliveryProgress DeliveryTheorems.

Definition stored_event (seq : Z) (ty : string) : sevent := StoreApi.mkEvent "s" seq ty (of_UnixMilli 7) "{}".
Definition pending (ty : string) : PendingEvent := mkPendingEvent ty (of_UnixMilli 7) "{}".

Definition history : gmap string (list sevent) := {[ "s" := [stored_event 1 "session.state"; stored_event 2 "message"] ]}.

(** A client that has the first event and asks for the rest. *)
Definition resuming : list Subscription := [mkSubscription "s" 1 false].
(** A client that asks for the state only. *)
Definition tail : list Subscription := [mkSubscription "s" 0 true].

(** Two events are published during the replay and one after it. *)
Definition handover : list action :=
  [Serve true; Serve true; Serve true; Commit "s" [pending "message"; pending "tool"]; Publish "s" true;
   Serve true; Ephemeral (Frames.mkEvent "presence" "s" None 9 (Raw "{}") ""); Serve true; Publish "s" true; Serve true;
   Serve true; Serve true; Serve true; Serve true; Serve true; Serve true; Serve true; Serve true; Serve true; Serve true;
   Serve true; Serve true;
   Commit "s" [pending "message"]; Publish "s" true; Publish "s" true; Publish "s" true].

Definition after (actions : list action) (h : hub) : hub := default h (run actions h).

Definition resumed : hub := registerPeer history ∅ ProtocolVersion "plaintext" resuming.
Definition tailing : hub := registerPeer history ∅ ProtocolVersion "plaintext" tail.

Lemma history_ok subs : sessions subs = ["s"] → ∀ s, s ∈ sessions subs → okLog s (historyOf history s).
Proof.
  intros -> s ->%list_elem_of_singleton i e. change (historyOf history "s") with [stored_event 1 "session.state"; stored_event 2 "message"].
  destruct i as [|[|i]]; cbn; [intros [= <-]..|done]; done.
Defined.

Lemma one_session : NoDup ["s"].
Proof. repeat constructor. by intros ?%elem_of_nil. Defined.

Example handover_runs :
  (λ ev, (ev_Type ev, ev_Seq ev)) <$> written (after handover resumed)
  = [("message", Some 2); ("message", Some 3); ("presence", None); ("tool", Some 4); ("message", Some 5)].
Proof. vm_compute. reflexivity. Qed.



(** An event is published while the replay is running. *)
Definition interrupted : hub :=
  after [Serve true; Serve true; Serve true; Commit "s" [pending "message"]; Publish "s" true] resumed.


Lemma client_is_sent_only_permitted_events_witness :
  run handover resumed = Some (after handover resumed)
  ∧ ∃ ev, ev ∈ written (after handover resumed) ∧ ev_SessionID ev ∈ ["s"].
Proof.
  assert (run handover resumed = Some (after handover resumed)) as Hrun by (vm_compute; reflexivity).
  split; [exact Hrun|]. exists (frameOfEvent (stored_event 2 "message")).
  assert (frameOfEvent (stored_event 2 "message") ∈ written (after handover resumed)) as Hev
    by (apply list_elem_of_lookup; exists 0%nat; vm_compute; reflexivity).
  split; [exact Hev|].
  apply (client_is_sent_only_permitted_events history ∅ ProtocolVersion "plaintext" resuming handover _ _ one_session
           (history_ok resuming eq_refl) Hrun Hev).
Defined.

(** A tail bootstrap sends the latest event of each kind of state, then what
    follows the watermark. *)
Example tail_runs :
  (λ ev, ev_Seq ev) <$> written (after (repeat (Serve true) 9 ++ [Commit "s" [pending "message"]; Publish "s" true; Publish "s" true]) tailing)
  = [Some 1; Some 3].
Proof. vm_compute. reflexivity. Qed.

(** ** A filtered event during the replay *)

(** An event whose type the connection filters is counted as sent at once, also
    while the replay is running: the events before it that are still in the
    buffer are then taken for sent and the client never gets them. *)
Example filtered_live_event_hides_buffered_ones :
  let h := after [Serve true; Serve true; Serve true; Commit "s" [pending "message"; pending "presence"]; Publish "s" true;
                  Publish "s" true; Serve true; Serve true; Serve true; Serve true; Serve true; Serve true; Serve true] resumed in
  (ev_Seq <$> written h, Seq <$> logOf h "s", lastSeq (stateOf (client h) "s"), phaseOf "s" (serving h))
  = ([Some 2], [1; 2; 3; 4], 4, Live).
Proof. vm_compute. reflexivity. Qed.

(** ** A Session named twice *)

(** The handshake accepts a hello that names a Session twice; its history is
    then replayed twice.  The order above is for distinct Sessions. *)
Example repeated_subscription_is_replayed_twice :
  ev_Seq <$> written (after (repeat (Serve true) 18) (registerPeer history ∅ ProtocolVersion "plaintext" [mkSubscription "s" 0 false; mkSubscription "s" 0 false]))
  = [Some 1; Some 2; Some 1; Some 2].
Proof. vm_compute. reflexivity. Qed.

(** ** Plaintext lifecycle projections *)

(** Neither the state nor its reason is compared with a vocabulary: any text passes for a
    connection whose content must be encrypted. *)
Theorem plaintext_reason_is_unchecked :
  validateRequiredReplayEvent
    (StoreApi.mkEvent "s" 1 "session.state" (of_UnixMilli 0)
       (CodecScenarios.js "{'state':'anything','reason':{'message':'the user asked about ...','n':[1,2]}}")) "s" = true.
Proof. vm_compute. reflexivity. Qed.

End DeliveryScenarios.
