(* ===== verification/Auth.v ===== *)
(** * Scopes, admission and attach grants

    [auth/auth.go] and [auth/static/static.go]: the scopes a bearer carries and
    what they allow, the decision on a Session admission, attention grants, and
    the grants that attach a Session with the material derived from them. *)

From S2P Require Import Prelude Json Wire GoText Sha256.
From stdpp Require Import base gmap strings list option.
#[local] Open Scope Z_scope.

Module Auth.
Import Json Wire GoText Sha256.

(** [errors.Is] distinguishes these. *)
Inductive error := ErrInvalidScope | ErrInvalidToken | ErrUnauthorized.

(** ** Scopes *)

Definition KindSession : string := "session".
Definition KindGroup : string := "group".
Definition KindAPI : string := "api".
Definition KindAttention : string := "attention".

Definition AccessControl : string := "control".
Definition AccessView : string := "view".
Definition AccessAdapter : string := "adapter".
Definition AccessAll : string := "*".
Definition AccessAttention : string := "attention".

Record Scope := mkScope { Kind : string; ID : string; Access : string }.

#[global] Instance Scope_eq_dec : EqDecision Scope.
Proof. solve_decision. Defined.

Definition SessionControl (sessionID : string) : Scope := mkScope KindSession sessionID AccessControl.
Definition SessionView (sessionID : string) : Scope := mkScope KindSession sessionID AccessView.
Definition SessionAdapter (sessionID : string) : Scope := mkScope KindSession sessionID AccessAdapter.
Definition GroupControl (groupID : string) : Scope := mkScope KindGroup groupID AccessControl.
Definition API : Scope := mkScope KindAPI "" AccessAll.
Definition Attention (grantID : string) : Scope := mkScope KindAttention grantID AccessAttention.

Definition ParseScope (raw : string) : error + Scope :=
  match Split raw 58 with
  | [kind; rest] =>
      if bool_decide (kind = KindAPI) && bool_decide (rest = AccessAll) then inr API
      else if bool_decide (kind = KindAttention) && bool_decide (rest ≠ "") then inr (Attention rest)
      else inl ErrInvalidScope
  | [kind; id; access] =>
      if bool_decide (kind = KindSession) && bool_decide (id ≠ "") then
        if bool_decide (access = AccessControl) then inr (SessionControl id)
        else if bool_decide (access = AccessView) then inr (SessionView id)
        else if bool_decide (access = AccessAdapter) then inr (SessionAdapter id)
        else inl ErrInvalidScope
      else if bool_decide (kind = KindGroup) && bool_decide (id ≠ "") && bool_decide (access = AccessControl)
      then inr (GroupControl id)
      else inl ErrInvalidScope
  | _ => inl ErrInvalidScope
  end.

Definition String_ (s : Scope) : string :=
  if bool_decide (Kind s = KindAPI) && bool_decide (Access s = AccessAll) then "api:*"
  else if bool_decide (Kind s = KindAttention) && bool_decide (Access s = AccessAttention)
  then Kind s +:+ ":" +:+ ID s
  else Kind s +:+ ":" +:+ ID s +:+ ":" +:+ Access s.

Definition Validate (s : Scope) : bool :=
  if bool_decide (Kind s = KindAPI) then bool_decide (ID s = "") && bool_decide (Access s = AccessAll)
  else if bool_decide (Kind s = KindSession) then
    bool_decide (ID s ≠ "")
    && (bool_decide (Access s = AccessControl) || bool_decide (Access s = AccessView) || bool_decide (Access s = AccessAdapter))
  else if bool_decide (Kind s = KindGroup) then bool_decide (ID s ≠ "") && bool_decide (Access s = AccessControl)
  else if bool_decide (Kind s = KindAttention) then
    bool_decide (ID s ≠ "") && bool_decide (len (ID s) ≤ 255) && bool_decide (Access s = AccessAttention)
  else false.

Definition allows (granted requested : Scope) : bool :=
  if bool_decide (Kind granted = KindAPI) && bool_decide (Access granted = AccessAll)
  then bool_decide (Access requested ≠ AccessAdapter) && bool_decide (Access requested ≠ AccessAttention)
  else if bool_decide (Kind granted ≠ Kind requested) || bool_decide (ID granted ≠ ID requested) then false
  else if bool_decide (Access granted = Access requested) then true
  else bool_decide (Kind granted = KindSession) && bool_decide (Access granted = AccessControl)
       && bool_decide (Access requested = AccessView).

(** ** Principals *)

Record AttentionGrant := mkAttentionGrant {
  ag_Subject : string;
  ag_SessionIDs : list string;
  ag_MaxSessions : Z;
  ag_ExpiresAt : time;
}.

Record SessionAdmissionClaim := mkClaim {
  cl_SessionID : string;
  cl_Provider : string;
  cl_ExpiresAt : time;
}.

Record Principal := mkPrincipal {
  Subject : string;
  Scopes : list Scope;
  AdmissionClaim : option SessionAdmissionClaim;
  attentionGrant : option AttentionGrant;
  attentionScope : Scope;
}.

Definition Authorize (principal : Principal) (requested : Scope) : option error :=
  if negb (Validate requested) then Some ErrInvalidScope
  else if existsb (λ granted, Validate granted && allows granted requested) (Scopes principal) then None
  else Some ErrUnauthorized.

Definition hasExactSessionAccess (principal : Principal) (sessionID access : string) : bool :=
  existsb (λ scope, bool_decide (Kind scope = KindSession) && bool_decide (ID scope = sessionID)
                    && bool_decide (Access scope = access)) (Scopes principal).

Definition hasExactSessionControl (principal : Principal) (sessionID : string) : bool :=
  hasExactSessionAccess principal sessionID AccessControl.

Definition hasOnlyExactSessionControl (principal : Principal) (sessionID : string) : bool :=
  match Scopes principal with
  | [scope] =>
      bool_decide (Subject principal ≠ "") && bool_decide (Kind scope = KindSession)
      && bool_decide (ID scope = sessionID) && bool_decide (Access scope = AccessControl)
  | _ => false
  end.

(** ** Attention grants *)

Definition BindAttentionGrant (principal : Principal) (grant : AttentionGrant) : Principal :=
  mkPrincipal (Subject principal) (Scopes principal) (AdmissionClaim principal) (Some grant)
    (match Scopes principal with [scope] => scope | _ => attentionScope principal end).

Definition AttentionGrantFromPrincipal (principal : Principal) : option AttentionGrant :=
  match attentionGrant principal, Scopes principal with
  | Some grant, [scope] => if bool_decide (scope = attentionScope principal) then Some grant else None
  | _, _ => None
  end.

Definition maxAttentionSessions : Z := 64.

Fixpoint validMembers (seen members : list string) : bool :=
  match members with
  | [] => true
  | sessionID :: members =>
      bool_decide (sessionID ≠ "") && bool_decide (len sessionID ≤ 255) && bool_decide (sessionID ∉ seen)
      && validMembers (sessionID :: seen) members
  end.

Definition EvaluateAttentionAuthorization (principal : Principal) (grant : AttentionGrant) (now : time) : error + AttentionGrant :=
  match Scopes principal with
  | [scope] =>
      if bool_decide (Subject principal ≠ "") && bool_decide (Subject principal = ag_Subject grant)
         && bool_decide (Kind scope = KindAttention) && bool_decide (Access scope = AccessAttention)
         && bool_decide (ID scope ≠ "") && bool_decide (1 ≤ ag_MaxSessions grant)
         && bool_decide (ag_MaxSessions grant ≤ maxAttentionSessions) && bool_decide (ag_SessionIDs grant ≠ [])
         && bool_decide (Z.of_nat (length (ag_SessionIDs grant)) ≤ maxAttentionSessions) && After (ag_ExpiresAt grant) now
         && validMembers [] (ag_SessionIDs grant)
      then inr (mkAttentionGrant (ag_Subject grant) (take (Z.to_nat (ag_MaxSessions grant)) (ag_SessionIDs grant))
                  (ag_MaxSessions grant) (ag_ExpiresAt grant))
      else inl ErrUnauthorized
  | _ => inl ErrUnauthorized
  end.

(** ** Session admission *)

Inductive SessionAdmissionMode := SessionAdmissionAttachOnly | SessionAdmissionCurrent.

#[global] Instance SessionAdmissionMode_eq_dec : EqDecision SessionAdmissionMode.
Proof. solve_decision. Defined.

Inductive SessionAdmissionAction :=
  | SessionAdmissionAttach
  | SessionAdmissionStatus
  | SessionAdmissionHistory
  | SessionAdmissionSend
  | SessionAdmissionSettings
  | SessionAdmissionRunControl
  | SessionAdmissionPermission
  | SessionAdmissionRotation.

(** What the Store knows of a Session. *)
Record SessionAdmissionTruth := mkTruth {
  tr_SessionID : string;
  tr_Provider : string;
  tr_Exists : bool;
  tr_Complete : bool;
  tr_Terminal : bool;
  tr_Conflicting : bool;
  tr_Live : bool;
}.

Record SessionAdmissionDecision := mkDecision { Mode : SessionAdmissionMode; MayMutate : bool }.

#[global] Instance SessionAdmissionDecision_eq_dec : EqDecision SessionAdmissionDecision.
Proof. solve_decision. Defined.

Definition second : Z := 1000000000.
Definition minute : Z := 60 * second.

(** The clock is read twice. *)
Definition EvaluateSessionAdmission (principal : Principal) (claim : SessionAdmissionClaim) (truth : SessionAdmissionTruth)
    (now now' : time) : error + SessionAdmissionDecision :=
  if bool_decide (cl_SessionID claim = "") || bool_decide (cl_Provider claim = "")
     || negb (After (cl_ExpiresAt claim) now) || After (cl_ExpiresAt claim) (now' + 5 * minute)
     || bool_decide (tr_SessionID truth ≠ cl_SessionID claim) || negb (hasExactSessionControl principal (cl_SessionID claim))
  then inl ErrUnauthorized
  else if negb (tr_Exists truth) then
    if tr_Complete truth || tr_Terminal truth || tr_Conflicting truth || tr_Live truth then inl ErrUnauthorized
    else inr (mkDecision SessionAdmissionAttachOnly false)
  else if negb (tr_Complete truth) || tr_Terminal truth || tr_Conflicting truth || negb (tr_Live truth) then inl ErrUnauthorized
  else inr (mkDecision SessionAdmissionCurrent true).

Definition Allows (decision : SessionAdmissionDecision) (action : SessionAdmissionAction) : bool :=
  match Mode decision with
  | SessionAdmissionAttachOnly => match action with SessionAdmissionAttach | SessionAdmissionStatus => true | _ => false end
  | SessionAdmissionCurrent => MayMutate decision
  end.

(** ** Attach grants *)

Definition attachGrantMaxTTL : Z := 5 * minute.
Definition attachGrantClockSkew : Z := 30 * second.
Definition maxAttachGrantStringBytes : Z := 256.

Definition digest := list Z.
Definition zeroDigest : digest := replicate 32 0.

Record AttachCommitFingerprint := mkFingerprint {
  fp_Domain : string;
  fp_Version : Z;
  fp_Digest : digest;
  fp_KeyVersion : Z;
}.

#[global] Instance AttachCommitFingerprint_eq_dec : EqDecision AttachCommitFingerprint.
Proof. solve_decision. Defined.

Record attachGrantSnapshot := mkSnapshot {
  sn_Audience : string;
  sn_JTI : string;
  sn_AttachID : string;
  sn_BootstrapSessionID : string;
  sn_TargetSessionID : string;
  sn_Provider : string;
  sn_IssuedAt : time;
  sn_ExpiresAt : time;
  sn_DeliveryDeadline : time;
  sn_GrantFence : Z;
}.

#[global] Instance attachGrantSnapshot_eq_dec : EqDecision attachGrantSnapshot.
Proof. solve_decision. Defined.

Record attachCommitProof := mkProof {
  pf_grant : attachGrantSnapshot;
  pf_JTIHash : digest;
  pf_Fingerprint : AttachCommitFingerprint;
  pf_TargetCredentialLineageRef : string;
  pf_FirstDeliveryReferenceID : string;
  pf_FirstDeliveryReferenceDigest : digest;
}.

Record AttachCommitMaterial := mkMaterial {
  JTIHash : digest;
  Fingerprint : AttachCommitFingerprint;
  TargetCredentialLineageRef : string;
  FirstDeliveryReferenceID : string;
  FirstDeliveryReferenceDigest : digest;
  proof : option attachCommitProof;
}.

Record AttachGrant := mkGrant {
  Audience : string;
  JTI : string;
  AttachID : string;
  BootstrapSessionID : string;
  TargetSessionID : string;
  Provider : string;
  IssuedAt : time;
  ExpiresAt : time;
  DeliveryDeadline : time;
  GrantFence : Z;
  Commit : AttachCommitMaterial;
}.

Record BootstrapAuthority := mkBootstrap {
  ba_SessionID : string;
  ba_Provider : string;
  ba_CredentialGeneration : Z;
  ba_ConnectionEpoch : Z;
  ba_AcceptedFence : Z;
  ba_Live : bool;
}.

Definition boundedAttachGrantStrings (values : list string) : bool :=
  forallb (λ value, bool_decide (len value ≤ maxAttachGrantStringBytes)) values.

Definition attachGrantSnapshotFrom (grant : AttachGrant) : attachGrantSnapshot :=
  mkSnapshot (Audience grant) (JTI grant) (AttachID grant) (BootstrapSessionID grant) (TargetSessionID grant) (Provider grant)
    (IssuedAt grant) (ExpiresAt grant) (DeliveryDeadline grant) (GrantFence grant).

(** [t.Before(u)] and [t.Sub(u)], which saturates. *)
Definition Before (t u : time) : bool := bool_decide (t < u).
Definition Sub (t u : time) : Z := Z.max (- two63) (Z.min max_int64 (t - u)).

Definition EvaluateAttachAuthorization (principal : Principal) (grant : AttachGrant) (bootstrap : BootstrapAuthority)
    (expectedAudience : string) (now : time) : option error :=
  if bool_decide (expectedAudience = "") || bool_decide (Audience grant ≠ expectedAudience)
     || negb (boundedAttachGrantStrings [expectedAudience; Audience grant; JTI grant; AttachID grant; BootstrapSessionID grant;
                                         TargetSessionID grant; Provider grant])
     || bool_decide (JTI grant = "") || bool_decide (AttachID grant = "") || bool_decide (BootstrapSessionID grant = "")
     || bool_decide (TargetSessionID grant = "") || bool_decide (Provider grant = "")
     || bool_decide (BootstrapSessionID grant = TargetSessionID grant)
     || negb (hasOnlyExactSessionControl principal (TargetSessionID grant))
  then Some ErrUnauthorized
  else if IsZero (IssuedAt grant) || IsZero (ExpiresAt grant) || IsZero (DeliveryDeadline grant)
     || negb (After (ExpiresAt grant) (IssuedAt grant)) || bool_decide (attachGrantMaxTTL < Sub (ExpiresAt grant) (IssuedAt grant))
     || After (IssuedAt grant) (now + attachGrantClockSkew) || Before (ExpiresAt grant) (now - attachGrantClockSkew)
     || Before (DeliveryDeadline grant) (IssuedAt grant) || After (DeliveryDeadline grant) (ExpiresAt grant + attachGrantClockSkew)
     || After now (DeliveryDeadline grant)
  then Some ErrUnauthorized
  else if negb (ba_Live bootstrap) || bool_decide (ba_SessionID bootstrap ≠ BootstrapSessionID grant)
     || bool_decide (ba_Provider bootstrap ≠ Provider grant) || bool_decide (ba_CredentialGeneration bootstrap ≤ 0)
     || bool_decide (ba_ConnectionEpoch bootstrap ≤ 0) || bool_decide (ba_AcceptedFence bootstrap ≤ 0)
     || bool_decide (GrantFence grant ≤ ba_AcceptedFence bootstrap)
  then Some ErrUnauthorized
  else None.

(** ** Material derived from a grant *)

(** [hmac.New(sha256.New, key)] over the bytes written to it. *)
Definition hmacKey (key : list Z) : list Z :=
  let key := if bool_decide (64 < length key)%nat then Sum256 key else key in
  key ++ replicate (64 - length key) 0.

Definition hmac (key message : list Z) : digest :=
  let key := hmacKey key in
  Sum256 ((Z.lxor 0x5C <$> key) ++ Sum256 ((Z.lxor 0x36 <$> key) ++ message)).

Record HMACAttachCommitDeriver := mkDeriver { key : list Z; keyVersion : Z }.

Definition NewHMACAttachCommitDeriver (key : list Z) (keyVersion : Z) : error + HMACAttachCommitDeriver :=
  if bool_decide (key = []) || bool_decide (keyVersion ≤ 0) then inl ErrUnauthorized else inr (mkDeriver key keyVersion).

Definition writeAttachCommitField (field : string) : list Z := bigEndian 4 (len field) ++ bytes_of field.

Definition digestInput (domain : string) (fields : list string) : list Z :=
  writeAttachCommitField domain ++ (fields ≫= writeAttachCommitField).

Definition digestOf (d : HMACAttachCommitDeriver) (domain : string) (fields : list string) : digest :=
  hmac (key d) (digestInput domain fields).

Definition attachCommitFingerprintDomain : string := "agentwharf.attach-request.v1".

Definition grantFields (grant : AttachGrant) : list string :=
  [Audience grant; JTI grant; AttachID grant; BootstrapSessionID grant; TargetSessionID grant; Provider grant;
   formatInt (UnixNano (IssuedAt grant)); formatInt (UnixNano (ExpiresAt grant));
   formatInt (UnixNano (DeliveryDeadline grant)); formatInt (GrantFence grant)].

Definition DeriveAttachCommit (d : HMACAttachCommitDeriver) (grant : AttachGrant) : error + AttachCommitMaterial :=
  if bool_decide (key d = []) || bool_decide (keyVersion d ≤ 0) || bool_decide (JTI grant = "") || bool_decide (AttachID grant = "")
     || bool_decide (BootstrapSessionID grant = "") || bool_decide (TargetSessionID grant = "") || bool_decide (Provider grant = "")
     || negb (boundedAttachGrantStrings [JTI grant; AttachID grant; BootstrapSessionID grant; TargetSessionID grant; Provider grant])
  then inl ErrUnauthorized
  else
    let lineage := digestOf d "target-lineage/v1" [BootstrapSessionID grant; TargetSessionID grant; AttachID grant; JTI grant] in
    let jti := digestOf d "jti/v1" [JTI grant] in
    let fingerprint := mkFingerprint attachCommitFingerprintDomain 1 (digestOf d "fingerprint/v1" (grantFields grant)) (keyVersion d) in
    let ref := "hmac-v1:" +:+ hexBytes lineage in
    let first := digestOf d "first-delivery/v1" (grantFields grant) in
    inr (mkMaterial jti fingerprint ref (AttachID grant) first
           (Some (mkProof (attachGrantSnapshotFrom grant) jti fingerprint ref (AttachID grant) first))).

Definition ValidateAttachCommitMaterial (grant : AttachGrant) : option error :=
  let material := Commit grant in
  match proof material with
  | None => Some ErrUnauthorized
  | Some proof =>
      if bool_decide (pf_grant proof ≠ attachGrantSnapshotFrom grant) || bool_decide (pf_JTIHash proof ≠ JTIHash material)
         || bool_decide (pf_Fingerprint proof ≠ Fingerprint material)
         || bool_decide (pf_TargetCredentialLineageRef proof ≠ TargetCredentialLineageRef material)
         || bool_decide (pf_FirstDeliveryReferenceID proof ≠ FirstDeliveryReferenceID material)
         || bool_decide (pf_FirstDeliveryReferenceDigest proof ≠ FirstDeliveryReferenceDigest material)
         || bool_decide (fp_Domain (Fingerprint material) ≠ attachCommitFingerprintDomain)
         || bool_decide (fp_Version (Fingerprint material) ≠ 1) || bool_decide (fp_KeyVersion (Fingerprint material) < 1)
         || bool_decide (JTIHash material = zeroDigest) || bool_decide (fp_Digest (Fingerprint material) = zeroDigest)
         || bool_decide (TargetCredentialLineageRef material = "")
         || bool_decide (maxAttachGrantStringBytes < len (TargetCredentialLineageRef material))
         || bool_decide (FirstDeliveryReferenceID material ≠ AttachID grant)
         || bool_decide (FirstDeliveryReferenceDigest material = zeroDigest)
      then Some ErrUnauthorized else None
  end.

(** ** The static authenticator *)

Record Token := mkToken { tk_Token : string; tk_Subject : string; tk_Scopes : list Scope }.

Definition New (tokens : list Token) : list Token := filter (λ t, tk_Token t ≠ "") tokens.

Definition Authenticate (tokens : list Token) (token : string) : error + Principal :=
  if bool_decide (token = "") then inl ErrInvalidToken
  else match list_find (λ candidate, tk_Token candidate = token) tokens with
       | Some (_, candidate) => inr (mkPrincipal (tk_Subject candidate) (tk_Scopes candidate) None None (mkScope "" "" ""))
       | None => inl ErrInvalidToken
       end.

End Auth.
