(* ===== verification/AuthProofs.v ===== *)
(** * Properties of scopes and attach grants

    The textual form of scopes, what a principal is authorised for, the members
    of an attention grant, and the binding of derived material to its grant. *)

From S2P Require Import Prelude Json Wire JsonProofs WireProofs GoText Sha256 CodecFingerprints Auth.
From stdpp Require Import base gmap strings list option.
#[local] Open Scope Z_scope.

Module AuthProofs.
Import Json Wire JsonProofs WireProofs GoText Sha256 CodecFingerprints Auth.

(** ** The textual form *)

Lemma split_none sep l : sep ∉ l → split sep l = [l].
Proof.
  induction l as [|c l IH]; [done|]. rewrite not_elem_of_cons. intros [Hc Hl]. cbn.
  rewrite bool_decide_false by done. by rewrite IH.
Qed.

Lemma split_cons sep a l : sep ∉ a → split sep (a ++ sep :: l) = a :: split sep l.
Proof.
  induction a as [|c a IH]; cbn; [by rewrite bool_decide_true|]. rewrite not_elem_of_cons. intros [Hc Ha].
  rewrite bool_decide_false by done. by rewrite IH.
Qed.

(** The parts, joined again. *)
Fixpoint joinBytes (sep : Z) (parts : list (list Z)) : list Z :=
  match parts with
  | [] => []
  | [part] => part
  | part :: parts => part ++ sep :: joinBytes sep parts
  end.

Lemma split_join sep l : joinBytes sep (split sep l) = l.
Proof.
  induction l as [|c l IH]; [done|]. cbn. pose proof (split_nonempty sep l) as Hn. case_bool_decide as Hc.
  - cbn. destruct (split sep l) as [|p ps] eqn:E; [done|]. subst c. by rewrite <- IH.
  - destruct (split sep l) as [|p ps] eqn:E; [done|]. rewrite <- IH. by destruct ps.
Qed.

Lemma Split_join raw parts :
  Split raw 58 = parts → joinBytes 58 (bytes_of <$> parts) = bytes_of raw.
Proof.
  intros <-. unfold Split. rewrite <- list_fmap_compose.
  assert (Forall (Forall is_byte) (split 58 (bytes_of raw))) as Hb.
  { pose proof (bytes_of_bytes raw) as H. revert H. generalize (bytes_of raw) as l. induction l as [|c l IH]; intros H; [by repeat constructor|].
    apply list.Forall_cons in H as [Hc H]. cbn. specialize (IH H). case_bool_decide; [by constructor|].
    destruct (split 58 l) as [|p ps]; [constructor; [by constructor|constructor]|]. apply list.Forall_cons in IH as [? ?].
    constructor; [by constructor|done]. }
  replace ((bytes_of ∘ string_of) <$> split 58 (bytes_of raw)) with (split 58 (bytes_of raw)); [apply split_join|].
  induction Hb as [|p ps Hp _ IH]; [done|]. cbn. by rewrite bytes_of_string_of, <- IH.
Qed.

Lemma Split_parts (parts : list string) :
  parts ≠ [] → Forall (λ p, 58 ∉ bytes_of p) parts → split 58 (joinBytes 58 (bytes_of <$> parts)) = bytes_of <$> parts.
Proof.
  intros Hne Hf. induction Hf as [|p ps Hp Hf IH]; [done|]. destruct ps as [|q ps]; [cbn; by apply split_none|].
  cbn [fmap list_fmap joinBytes] in *. rewrite split_cons by done. by rewrite IH.
Qed.

(** A text whose bytes are the joined parts splits into them. *)
Lemma Split_of raw parts :
  parts ≠ [] → Forall (λ p, 58 ∉ bytes_of p) parts → bytes_of raw = joinBytes 58 (bytes_of <$> parts) → Split raw 58 = parts.
Proof.
  intros Hne Hf E. unfold Split. rewrite E, Split_parts by done. rewrite <- list_fmap_compose.
  clear. induction parts as [|p ps IH]; [done|]. cbn. by rewrite string_of_bytes_of, IH.
Qed.

Lemma bytes_colon : bytes_of ":" = [58].
Proof. reflexivity. Qed.

Lemma no_colon s : forallb (λ c, negb (bool_decide (c = 58))) (bytes_of s) = true → 58 ∉ bytes_of s.
Proof.
  intros H Hin. rewrite forallb_forall in H. apply list_elem_of_In in Hin. specialize (H _ Hin). cbn in H. discriminate H.
Qed.

(** The valid scopes. *)
Inductive valid : Scope → Prop :=
  | valid_api : valid API
  | valid_attention i : i ≠ "" → len i ≤ 255 → valid (Attention i)
  | valid_control i : i ≠ "" → valid (SessionControl i)
  | valid_view i : i ≠ "" → valid (SessionView i)
  | valid_adapter i : i ≠ "" → valid (SessionAdapter i)
  | valid_group i : i ≠ "" → valid (GroupControl i).

Lemma Validate_valid s : Validate s = true ↔ valid s.
Proof.
  split.
  - destruct s as [k i a]. unfold Validate. cbn.
    repeat (case_bool_decide; subst; cbn; try discriminate); intros _; constructor; done.
  - destruct 1; unfold Validate; cbn; repeat (case_bool_decide; try done).
Qed.

(** The textual form of a scope and its parser agree: a text that parses is
    exactly what its scope prints, so no two texts name one scope, and every
    valid scope whose identifier has no colon is read back from its text. *)
Theorem scope_text_roundtrip :
  (∀ raw s, ParseScope raw = inr s → String_ s = raw)
  ∧ (∀ s, Validate s = true → 58 ∉ bytes_of (ID s) → ParseScope (String_ s) = inr s).
Proof.
  split.
  - intros raw s H. unfold ParseScope in H. destruct (Split raw 58) as [|a [|b [|c [|]]]] eqn:E; try done;
      apply Split_join in E; apply bytes_of_inj; rewrite <- E; clear E; repeat case_bool_decide; simplify_eq; cbn -[bytes_of];
      try done.
    all: cbn in H; simplify_eq; unfold String_, Attention; cbn -[bytes_of]; repeat (case_bool_decide; try done); cbn -[bytes_of]; rewrite ?bytes_of_app; reflexivity.
  - intros s Hv%Validate_valid Hi. assert (∀ k i a, forallb (λ c, negb (bool_decide (c = 58))) (bytes_of k) = true →
      forallb (λ c, negb (bool_decide (c = 58))) (bytes_of a) = true → 58 ∉ bytes_of i →
      Split (k +:+ ":" +:+ i +:+ ":" +:+ a) 58 = [k; i; a]) as Hsplit.
    { intros k i a Hk Ha Hn. apply Split_of; [done| |by rewrite !bytes_of_app]. repeat constructor; try done; by apply no_colon. }
    destruct Hv as [|i Hne Hl|i Hne|i Hne|i Hne|i Hne]; cbn in Hi; [reflexivity|..]; unfold ParseScope.
    + replace (Split _ 58) with ["attention"; i]; [by rewrite (bool_decide_true (i ≠ ""))|]. symmetry.
      change (String_ (Attention i)) with ("attention" +:+ ":" +:+ i). apply Split_of; [done| |by rewrite !bytes_of_app]. repeat constructor; try done; by apply no_colon.
    + replace (Split _ 58) with ["session"; i; "control"]; [by rewrite (bool_decide_true (i ≠ ""))|]. symmetry. by apply Hsplit.
    + replace (Split _ 58) with ["session"; i; "view"]; [by rewrite (bool_decide_true (i ≠ ""))|]. symmetry. by apply Hsplit.
    + replace (Split _ 58) with ["session"; i; "adapter"]; [by rewrite (bool_decide_true (i ≠ ""))|]. symmetry. by apply Hsplit.
    + replace (Split _ 58) with ["group"; i; "control"]; [by rewrite (bool_decide_true (i ≠ ""))|]. symmetry. by apply Hsplit.
Qed.

(** ** Authority *)

(** What a valid scope gives beyond itself. *)
Definition gives (granted requested : Scope) : Prop :=
  granted = requested
  ∨ (granted = API ∧ Access requested ≠ AccessAdapter ∧ Access requested ≠ AccessAttention)
  ∨ (∃ i, granted = SessionControl i ∧ requested = SessionView i).

Lemma allows_gives granted requested :
  valid granted → valid requested → allows granted requested = true ↔ gives granted requested.
Proof.
  intros Hg Hr. unfold gives. split.
  - destruct Hg, Hr; unfold allows; cbn; repeat (case_bool_decide; subst; cbn; try discriminate); intros _; eauto 6;
      try (right; left; done); try (left; congruence); exfalso; naive_solver.
  - intros [->|[(-> & H1 & H2)|(i & -> & ->)]].
    + destruct Hr; unfold allows; cbn; repeat (case_bool_decide; subst; cbn; try done); naive_solver.
    + unfold allows. cbn. repeat (case_bool_decide; cbn; try done).
    + unfold allows. cbn. repeat (case_bool_decide; cbn; try done).
Qed.

(** Authorisation is exactly this: the requested scope is valid and among
    the principal's scopes, or the principal has the API scope and no adapter or
    attention access is asked for, or viewing a Session is asked for and the
    principal controls it.  Adapter and attention authority are only ever had by
    their own scope. *)
Theorem authorize_spec principal requested :
  Authorize principal requested = None ↔
  Validate requested = true ∧
  (requested ∈ Scopes principal
   ∨ (API ∈ Scopes principal ∧ Access requested ≠ AccessAdapter ∧ Access requested ≠ AccessAttention)
   ∨ (∃ i, requested = SessionView i ∧ SessionControl i ∈ Scopes principal)).
Proof.
  unfold Authorize. destruct (Validate requested) eqn:Hv; cbn; [|naive_solver]. apply Validate_valid in Hv.
  destruct (existsb _ _) eqn:E.
  - split; [intros _; split; [done|]|done]. apply existsb_exists in E as (g & Hin & [Hg Ha]%andb_true_iff).
    apply list_elem_of_In in Hin. apply Validate_valid in Hg. apply allows_gives in Ha as [->|[(-> & ?)|(i & -> & ->)]]; eauto.
  - split; [done|]. intros (_ & H). exfalso. apply not_true_iff_false in E. apply E. apply existsb_exists.
    assert (∀ g, g ∈ Scopes principal → valid g → gives g requested →
              ∃ x, In x (Scopes principal) ∧ Validate x && allows x requested = true) as Hex.
    { intros g Hin Hg Hgive. exists g. split; [by apply list_elem_of_In|]. apply andb_true_iff.
      split; [by apply Validate_valid|by apply allows_gives]. }
    destruct H as [H|[[H ?]|(i & -> & H)]].
    + apply (Hex requested); [done..|by left].
    + apply (Hex API); [done|constructor|right; by left].
    + apply (Hex (SessionControl i)); [done| |right; right; by eauto]. inversion Hv; by constructor.
Qed.

(** ** Attention grants *)

Lemma validMembers_spec seen members :
  validMembers seen members = true →
  NoDup members ∧ Forall (λ m, m ≠ "" ∧ len m ≤ 255 ∧ m ∉ seen) members.
Proof.
  revert seen. induction members as [|m members IH]; intros seen H; [by split; constructor|].
  cbn in H. rewrite !andb_true_iff in H. destruct H as (((H1 & H2) & H3) & H).
  apply bool_decide_eq_true in H1, H2, H3. apply IH in H as [Hn Hf]. split; constructor; try done.
  - intros Hin. rewrite list.Forall_forall in Hf. destruct (Hf m Hin) as (_ & _ & Hs). apply Hs. by left.
  - eapply list.Forall_impl; [exact Hf|]. intros x (? & ? & Hs). split_and!; try done. intros Hx. apply Hs. by right.
Qed.

(** An attention authorisation is given only to a principal whose single
    scope is an attention scope and who is the subject of a grant that has not
    expired; it names at most 64 distinct Sessions of the grant, never more than
    the grant allows. *)
Theorem attention_authorization_is_bounded principal grant now authorized :
  EvaluateAttentionAuthorization principal grant now = inr authorized →
  (∃ i, i ≠ "" ∧ Scopes principal = [Attention i]) ∧ Subject principal = ag_Subject grant ∧ Subject principal ≠ ""
  ∧ now < ag_ExpiresAt authorized ∧ ag_SessionIDs authorized `prefix_of` ag_SessionIDs grant
  ∧ NoDup (ag_SessionIDs authorized) ∧ ag_SessionIDs authorized ≠ []
  ∧ Z.of_nat (length (ag_SessionIDs authorized)) ≤ Z.min (ag_MaxSessions grant) 64
  ∧ Forall (λ m, m ≠ "" ∧ len m ≤ 255) (ag_SessionIDs authorized).
Proof.
  unfold EvaluateAttentionAuthorization. destruct (Scopes principal) as [|scope [|]] eqn:E; try done.
  destruct (_ && _) eqn:H; [|done]. intros [= <-]. cbn. rewrite !andb_true_iff, !bool_decide_eq_true in H. unfold After in H.
  destruct H as ((((((((((H1 & H2) & H3) & H4) & H5) & H6) & H7) & H8) & H9) & H10) & H11).
  apply bool_decide_eq_true in H10. apply validMembers_spec in H11 as [Hn Hf]. destruct scope as [k i a]. cbn in *. subst k a.
  unfold maxAttentionSessions in *. split_and!; try done.
  - by exists i.
  - exists (drop (Z.to_nat (ag_MaxSessions grant)) (ag_SessionIDs grant)). by rewrite take_drop.
  - eapply sublist_NoDup; [exact Hn|apply sublist_take].
  - destruct (ag_SessionIDs grant) as [|m ms]; [done|]. destruct (Z.to_nat (ag_MaxSessions grant)) eqn:En; [lia|done].
  - rewrite length_take. lia.
  - apply Forall_take. eapply list.Forall_impl; [exact Hf|]. naive_solver.
Qed.

(** ** Attach material *)

Lemma length_round st kw : length (round st kw) = length st.
Proof. unfold round. by repeat case_match. Qed.

Lemma length_block st chunk : length (block st chunk) = length st.
Proof.
  unfold block. set (w := reverse _). rewrite length_zip_with.
  assert (∀ kws s, length (foldl round s kws) = length s) as ->; [|lia].
  induction kws as [|kw kws IH]; intros s; [done|]. cbn. by rewrite IH, length_round.
Qed.

Lemma length_blocks fuel st l : length (blocks fuel st l) = length st.
Proof. revert st l. induction fuel as [|fuel IH]; intros st [|b l]; try done. cbn [blocks]. by rewrite IH, length_block. Qed.

Lemma length_Sum256 m : length (Sum256 m) = 32%nat.
Proof.
  unfold Sum256. assert (∀ l : list Z, length (l ≫= bigEndian 4) = (4 * length l)%nat) as ->.
  { induction l as [|w l IH]; [done|]. cbn [mbind list_bind]. rewrite length_app, IH, length_bigEndian. cbn. lia. }
  by rewrite length_blocks.
Qed.

Lemma len_hexBytes l : Forall is_byte l → len (hexBytes l) = 2 * Z.of_nat (length l).
Proof.
  intros Hl. unfold hexBytes, len. rewrite <- length_bytes_of, bytes_of_string_of.
  - clear Hl. induction l as [|b l IH]; [done|]. cbn [mbind list_bind length]. rewrite length_app. cbn [length]. lia.
  - induction Hl as [|b l Hb _ IH]; [constructor|]. cbn -[Z.div Z.modulo]. unfold is_byte in Hb.
    repeat constructor; try done;
      match goal with |- context [hex_digit ?d] => pose proof (hex_digit_range d ltac:(Z.div_mod_to_equations; lia)); lia end.
Qed.

(** Material derived for a grant validates with exactly the grants that
    make the same claims: changing the audience, an identifier, the provider, a
    time or the fence of the grant makes the Store-side check refuse it.  (The
    digests are assumed not to be all zero, which the check rules out.) *)
Theorem material_fits_only_its_claims d grant m g :
  DeriveAttachCommit d grant = inr m → Commit g = m →
  JTIHash m ≠ zeroDigest → fp_Digest (Fingerprint m) ≠ zeroDigest → FirstDeliveryReferenceDigest m ≠ zeroDigest →
  ValidateAttachCommitMaterial g = None ↔ attachGrantSnapshotFrom g = attachGrantSnapshotFrom grant.
Proof.
  unfold DeriveAttachCommit. destruct (_ || _) eqn:H; [done|]. intros [= <-] Hc Hz1 Hz2 Hz3. cbn in Hz1, Hz2, Hz3.
  rewrite !orb_false_iff, !bool_decide_eq_false in H. destruct H as (((((((_ & Hk) & _) & Ha) & _) & _) & _) & _).
  unfold ValidateAttachCommitMaterial. rewrite Hc. cbn -[Sum256 hexBytes String.append].
  set (ref := "hmac-v1:" +:+ hexBytes (digestOf d "target-lineage/v1" _)).
  assert (len ref = 72) as Hlen.
  { unfold ref, len. rewrite <- length_bytes_of, bytes_of_app, length_app, !length_bytes_of.
    pose proof (len_hexBytes (digestOf d "target-lineage/v1" [BootstrapSessionID grant; TargetSessionID grant; AttachID grant; JTI grant])) as Hx.
    unfold len in Hx. unfold digestOf, hmac in *. rewrite length_Sum256 in Hx. specialize (Hx (Sum256_bytes _)).
    change (String.length "hmac-v1:") with 8%nat. lia. }
  match goal with |- (if ?c then _ else _) = _ ↔ _ => assert (c = false ↔ attachGrantSnapshotFrom g = attachGrantSnapshotFrom grant) as Hcond end.
  { rewrite !orb_false_iff, !bool_decide_eq_false. split.
    - intros Hs. destruct_and!. by destruct (decide (attachGrantSnapshotFrom grant = attachGrantSnapshotFrom g)).
    - intros E. unfold maxAttachGrantStringBytes. rewrite Hlen. assert (AttachID grant = AttachID g) by (by injection E).
      split_and!; try done; try lia; intros ?; congruence. }
  revert Hcond. match goal with |- context [if ?c then _ else _] => generalize c end. intros [] <-; done.
Qed.

(** *** Fingerprints *)

Definition short32 (s : string) : Prop := len s < 2 ^ 32.

Lemma field_piece : piece writeAttachCommitField short32.
Proof.
  intros a b x y Ha Hb H. unfold writeAttachCommitField in H. rewrite <- !(assoc_L (++)) in H.
  apply app_inj_1 in H as [Hl H]; [|by rewrite !length_bigEndian].
  pose proof (len_nonneg a). pose proof (len_nonneg b). unfold short32 in *.
  apply bigEndian_inj in Hl; [|cbn in *; lia..]. unfold len in Hl.
  apply app_inj_1 in H as [Hs H]; [|rewrite !length_bytes_of; lia]. split; [by apply bytes_of_inj|done].
Qed.

Lemma fields_inj (fs gs : list string) :
  Forall short32 fs → Forall short32 gs → fs ≫= writeAttachCommitField = gs ≫= writeAttachCommitField → fs = gs.
Proof.
  intros Hf. revert gs. induction Hf as [|f fs Hf _ IH]; intros gs [|g gs' Hg Hgs] H; try done.
  cbn in H. apply field_piece in H as [-> H]; [|done..]. f_equal. by apply IH.
Qed.

(** The input of a digest determines its domain and its fields. *)
Lemma digestInput_inj d1 d2 fs gs :
  short32 d1 → short32 d2 → Forall short32 fs → Forall short32 gs →
  digestInput d1 fs = digestInput d2 gs → d1 = d2 ∧ fs = gs.
Proof.
  intros H1 H2 Hf Hg H. apply field_piece in H as [-> H]; [|done..]. split; [done|by apply fields_inj].
Qed.

Lemma formatInt_inj a b : in_i64 a = true → in_i64 b = true → formatInt a = formatInt b → a = b.
Proof. intros Ha Hb E. apply parseInt_formatInt in Ha, Hb. congruence. Qed.

Lemma short_formatInt z : short32 (formatInt z).
Proof.
  unfold short32, formatInt, len. rewrite length_string_of. pose proof (length_digits 20 (- z) []). pose proof (length_digits 20 z []).
  case_bool_decide; cbn [length] in *; lia.
Qed.

Definition inRange (grant : AttachGrant) : bool :=
  bool_decide (len (Audience grant) < 2 ^ 32) && in_i64 (IssuedAt grant) && in_i64 (ExpiresAt grant)
  && in_i64 (DeliveryDeadline grant) && in_i64 (GrantFence grant).

Lemma bounded_short s : len s ≤ maxAttachGrantStringBytes → short32 s.
Proof. unfold maxAttachGrantStringBytes, short32. lia. Qed.

Lemma derived_short d grant m : DeriveAttachCommit d grant = inr m → inRange grant = true → Forall short32 (grantFields grant).
Proof.
  unfold DeriveAttachCommit. destruct (_ || _) eqn:H; [done|]. intros _ Hr. rewrite !orb_false_iff in H. destruct H as [_ H].
  unfold boundedAttachGrantStrings in H. apply negb_false_iff in H. cbn in H. rewrite !andb_true_iff, !bool_decide_eq_true in H.
  unfold inRange in Hr. rewrite !andb_true_iff, bool_decide_eq_true in Hr. destruct_and!.
  repeat constructor; try apply short_formatInt; try (by apply bounded_short). done.
Qed.

Lemma i64_in z : in_i64 z = true → i64 z = z.
Proof. unfold in_i64. rewrite bool_decide_eq_true. apply i64_small. Qed.

(** Two verified grants with the same fingerprint digest make the same
    claims, unless HMAC-SHA-256 maps two different texts to one digest: the
    fields are framed by their lengths and the times and the fence are printed
    in decimal, so no two grants share a text. *)
Theorem attach_fingerprint_identifies d g1 g2 m1 m2 :
  DeriveAttachCommit d g1 = inr m1 → DeriveAttachCommit d g2 = inr m2 → inRange g1 = true → inRange g2 = true →
  fp_Digest (Fingerprint m1) = fp_Digest (Fingerprint m2) →
  attachGrantSnapshotFrom g1 = attachGrantSnapshotFrom g2 ∨ ∃ a b, a ≠ b ∧ hmac (key d) a = hmac (key d) b.
Proof.
  intros H1 H2 R1 R2 Hd. pose proof (derived_short _ _ _ H1 R1) as S1. pose proof (derived_short _ _ _ H2 R2) as S2.
  unfold DeriveAttachCommit in H1, H2. destruct (_ || _) in H1; [done|]. destruct (_ || _) in H2; [done|].
  injection H1 as <-. injection H2 as <-. cbn -[grantFields] in Hd.
  destruct (decide (digestInput "fingerprint/v1" (grantFields g1) = digestInput "fingerprint/v1" (grantFields g2))) as [E|Hne];
    [left|right; by eauto].
  apply digestInput_inj in E as [_ E]; [|done..]. unfold inRange in R1, R2. rewrite !andb_true_iff in R1, R2. destruct_and!.
  unfold grantFields in E. injection E as E1 E2 E3 E4 E5 E6 E7 E8 E9 E10. unfold UnixNano in *.
  rewrite !i64_in in E7, E8, E9 by done. apply formatInt_inj in E7, E8, E9, E10; try done. unfold attachGrantSnapshotFrom. congruence.
Qed.

End AuthProofs.
