(* ===== verification/Handshake.v ===== *)
(** * The Hub handshake

    [hub/handshake.go]: what a hello is checked for, which Sessions a client or
    an Adapter is admitted to, and the ingress of attach grants.  Authentication,
    the content policy, the clock and the Store are an environment whose answers
    may change from call to call. *)

From S2P Require Import Prelude Json Wire GoText Sha256 EncryptedPacket CodecPayloads Frames Codec Auth.
From stdpp Require Import base gmap strings list option.
#[local] Open Scope Z_scope.

Module Handshake.
Import Wire Frames Codec.

Inductive error :=
  | ErrAuth (e : Auth.error)
  | ErrInvalidHello
  | ErrVersionUnsupported
  | ErrInternal.

Definition ErrUnauthorized : error := ErrAuth Auth.ErrUnauthorized.

Definition RoleClient : string := "client".
Definition RoleAdapter : string := "adapter".
Definition ContentModeRequired : string := "required".
Definition ContentModeLegacy : string := "legacy".
Definition HubProtocolVersion : Z := ProtocolVersionV2.
Definition maxRawAttachGrantBytes : Z := 64 * 1024.

(** What the Hub calls.  An interface the value may not implement is an
    option. *)
Record Environment (W : Type) := mkEnvironment {
  Now : W → time * W;
  Authenticate : option (string → W → option Auth.Principal * W);
  AuthorizeScope : Auth.Principal → Auth.Scope → W → bool * W;
  SessionContentMode : option (Auth.Principal → string → W → option string * W);
  AuthorizeAttentionGrant : option (Auth.Principal → W → option Auth.AttentionGrant * W);
  AdmissionClaimOf : option (Auth.Principal → string → W → option Auth.SessionAdmissionClaim * W);
  LatestSeq : string → W → option Z * W;
  AdmissionTruthOf : option (string → W → option Auth.SessionAdmissionTruth * W);
  AdapterAdmissionTruthOf : option (string → W → option Auth.SessionAdmissionTruth * W);
  VerifyAttachGrant : option (string → string → W → option Auth.AttachGrant * W);
  CurrentBootstrapAuthority : option (Auth.AttachGrant → W → option Auth.BootstrapAuthority * W);
  attachGrantAudience : string;
}.

Arguments Now {W}.
Arguments Authenticate {W}.
Arguments AuthorizeScope {W}.
Arguments SessionContentMode {W}.
Arguments AuthorizeAttentionGrant {W}.
Arguments AdmissionClaimOf {W}.
Arguments LatestSeq {W}.
Arguments AdmissionTruthOf {W}.
Arguments AdapterAdmissionTruthOf {W}.
Arguments VerifyAttachGrant {W}.
Arguments CurrentBootstrapAuthority {W}.
Arguments attachGrantAudience {W}.

Record AcceptedPeer := mkPeer {
  Role : string;
  PeerVersion : Z;
  PeerPrincipal : Auth.Principal;
  PeerSessionID : string;
  PeerProvider : string;
  PeerResume : bool;
  PeerContentMode : string;
  Subscribed : list Subscription;
  Admissions : gmap string Auth.SessionAdmissionDecision;
  AdmissionClaims : gmap string Auth.SessionAdmissionClaim;
  AttentionOnly : bool;
}.

(** ** Scopes of a principal *)

Definition exactSessionAccess (principal : Auth.Principal) (sessionID : string) : string :=
  if Auth.hasExactSessionAccess principal sessionID Auth.AccessControl then Auth.AccessControl
  else if Auth.hasExactSessionAccess principal sessionID Auth.AccessView then Auth.AccessView
  else "".

Definition isExclusiveAttachOnlyPrincipal (principal : Auth.Principal) (sessionID : string) : bool :=
  bool_decide (length (Auth.Scopes principal) = 1%nat) && Auth.hasExactSessionAccess principal sessionID Auth.AccessControl.

Definition attentionPrincipal (principal : Auth.Principal) : bool :=
  match Auth.Scopes principal with
  | [scope] => bool_decide (Auth.Kind scope = Auth.KindAttention) && bool_decide (Auth.Access scope = Auth.AccessAttention)
  | _ => false
  end.

(** ** The accepted peer *)

Definition currentSubscriptions (p : AcceptedPeer) : list Subscription :=
  filter (λ sub, Auth.Mode <$> Admissions p !! sub_SessionID sub = Some Auth.SessionAdmissionCurrent) (Subscribed p).

Definition allows (p : AcceptedPeer) (sessionID : string) (action : Auth.SessionAdmissionAction) : bool :=
  match Admissions p !! sessionID with
  | None => false
  | Some decision =>
      match action with
      | Auth.SessionAdmissionHistory => bool_decide (Auth.Mode decision = Auth.SessionAdmissionCurrent)
      | _ => Auth.Allows decision action
      end
  end.

Definition subscribesTo (subscriptions : list Subscription) (sessionID : string) : bool :=
  existsb (λ sub, bool_decide (sub_SessionID sub = sessionID)) subscriptions.

(** ** Calls that may fail *)

Section Handshake.
Context {W : Type} (env : Environment W).

Definition M (A : Type) : Type := W → (error + A) * W.

Definition ret {A} (a : A) : M A := λ w, (inr a, w).
Definition fail {A} (e : error) : M A := λ w, (inl e, w).
Definition bind {A B} (m : M A) (f : A → M B) : M B :=
  λ w, match m w with
       | (inl e, w) => (inl e, w)
       | (inr a, w) => f a w
       end.
Definition require (b : bool) (e : error) : M () := if b then ret () else fail e.
(** A call that answers, and one that may fail with [e]. *)
Definition ask {A} (f : W → A * W) : M A := λ w, let '(a, w) := f w in (inr a, w).
Definition try_ {A} (f : W → option A * W) (e : error) : M A :=
  λ w, let '(o, w) := f w in (match o with Some a => inr a | None => inl e end, w).
(** An optional interface. *)
Definition implemented {A} (o : option A) (e : error) : M A := match o with Some a => ret a | None => fail e end.

#[local] Notation "x ← y ; z" := (bind y (λ x : _, z)) (at level 20, y at level 100, z at level 200, only parsing).
#[local] Notation "y ;; z" := (bind y (λ _, z)) (at level 100, z at level 200, right associativity).

(** ** Versions and content modes *)

Definition negotiateHelloVersion (hello : Hello) : error + Z :=
  if bool_decide (h_Role hello = RoleClient) || bool_decide (h_Role hello = RoleAdapter) then
    match NegotiateHighestVersion (h_ProtocolVersion hello) HubProtocolVersion with
    | Some selected => inr selected
    | None => inl ErrVersionUnsupported
    end
  else inl ErrInvalidHello.

Fixpoint checkContentModes (authorizer : string → W → option string * W) (mode : string) (version : Z) (sessionIDs : list string) : M () :=
  match sessionIDs with
  | [] => ret ()
  | sessionID :: sessionIDs =>
      policy ← try_ (authorizer sessionID) ErrUnauthorized;
      require (if bool_decide (policy = ContentModeRequired) then bool_decide (mode = policy) && bool_decide (version = ProtocolVersionV2)
               else bool_decide (policy = ContentModeLegacy) && bool_decide (mode ≠ ContentModeRequired)) ErrUnauthorized;;
      checkContentModes authorizer mode version sessionIDs
  end.

Definition helloSessions (hello : Hello) : list string :=
  if bool_decide (h_Role hello = RoleAdapter) then [h_SessionID hello]
  else sub_SessionID <$> elems (h_Subscriptions hello).

Definition authorizeContentMode (hello : Hello) (principal : Auth.Principal) (version : Z) : M () :=
  match SessionContentMode env with
  | None => require (bool_decide (h_ContentMode hello ≠ ContentModeRequired)) ErrUnauthorized
  | Some authorizer =>
      require (bool_decide (helloSessions hello ≠ []) || bool_decide (h_ContentMode hello = "")) ErrUnauthorized;;
      checkContentModes (authorizer principal) (h_ContentMode hello) version (helloSessions hello)
  end.

(** ** Admission *)

Definition sessionAdmissionClaim (principal : Auth.Principal) (sessionID : string) : M Auth.SessionAdmissionClaim :=
  claimOf ← implemented (AdmissionClaimOf env) ErrUnauthorized;
  claim ← ask (claimOf principal sessionID);
  now ← ask (Now env);
  match claim with
  | Some claim =>
      require (bool_decide (Auth.cl_SessionID claim = sessionID) && bool_decide (Auth.cl_Provider claim ≠ "")
               && After (Auth.cl_ExpiresAt claim) now
               && negb (After (Auth.cl_ExpiresAt claim) (now + 5 * Auth.minute))) ErrUnauthorized;;
      ret claim
  | None => fail ErrUnauthorized
  end.

Definition truthFrom (truthOf : string → W → option Auth.SessionAdmissionTruth * W) (sessionID : string) : M Auth.SessionAdmissionTruth :=
  truth ← try_ (truthOf sessionID) ErrUnauthorized;
  require (bool_decide (Auth.tr_SessionID truth = sessionID)) ErrUnauthorized;;
  ret truth.

Definition sessionAdmissionTruth (sessionID : string) : M Auth.SessionAdmissionTruth :=
  truthOf ← implemented (AdmissionTruthOf env) ErrUnauthorized;
  truthFrom truthOf sessionID.

Definition adapterSessionAdmissionTruth (sessionID : string) : M Auth.SessionAdmissionTruth :=
  match AdapterAdmissionTruthOf env with
  | None => sessionAdmissionTruth sessionID
  | Some truthOf => truthFrom truthOf sessionID
  end.

Definition clientAdmission (principal : Auth.Principal) (sessionID access : string)
    : M (Auth.SessionAdmissionClaim * Auth.SessionAdmissionDecision) :=
  claim ← sessionAdmissionClaim principal sessionID;
  truth ← sessionAdmissionTruth sessionID;
  if bool_decide (access = Auth.AccessControl) then
    now ← ask (Now env);
    now' ← ask (Now env);
    match Auth.EvaluateSessionAdmission principal claim truth now now' with
    | inr decision => ret (claim, decision)
    | inl e => fail (ErrAuth e)
    end
  else
    require (bool_decide (access = Auth.AccessView) && Auth.tr_Exists truth && Auth.tr_Complete truth
             && negb (Auth.tr_Conflicting truth)) ErrUnauthorized;;
    ret (claim, Auth.mkDecision Auth.SessionAdmissionCurrent false).

Definition summary (sessionID : string) (lastSeq : Z) (state provider : string) : M SessionSummary :=
  latest ← try_ (LatestSeq env sessionID) ErrInternal;
  ret (mkSessionSummary sessionID state provider latest (i64 (lastSeq + 1))).

Definition replayAfterLatest (s : SessionSummary) : SessionSummary :=
  mkSessionSummary (ss_SessionID s) (ss_State s) (ss_Provider s) (ss_LatestSeq s) (i64 (ss_LatestSeq s + 1)).

Definition adapterSummary (sessionID provider : string) : M SessionSummary :=
  s ← summary sessionID 0 "ready" provider;
  ret (replayAfterLatest s).

(** ** Clients *)

(** What a subscription is accepted with. *)
Record admitted := mkAdmitted {
  a_Sub : Subscription;
  a_Summary : SessionSummary;
  a_Decision : Auth.SessionAdmissionDecision;
  a_Claim : Auth.SessionAdmissionClaim;
}.

Definition attachOnly (decision : Auth.SessionAdmissionDecision) : bool :=
  bool_decide (Auth.Mode decision = Auth.SessionAdmissionAttachOnly).

Definition admitSubscription (principal : Auth.Principal) (version : Z) (count : nat) (sub : Subscription) : M admitted :=
  let sessionID := sub_SessionID sub in
  require (bool_decide (sessionID ≠ "") && bool_decide (0 ≤ sub_LastSeq sub)
           && (negb (sub_SkipReplay sub) || bool_decide (version = ProtocolVersionV2))) ErrInvalidHello;;
  let access := exactSessionAccess principal sessionID in
  require (bool_decide (access ≠ "")) ErrUnauthorized;;
  authorized ← ask (AuthorizeScope env principal (Auth.mkScope Auth.KindSession sessionID access));
  require authorized ErrUnauthorized;;
  admission ← clientAdmission principal sessionID access;
  let '(claim, decision) := admission in
  require (negb (attachOnly decision)
           || (bool_decide (version = ProtocolVersionV2) && bool_decide (count = 1%nat)
               && isExclusiveAttachOnlyPrincipal principal sessionID)) ErrUnauthorized;;
  s ← summary sessionID (sub_LastSeq sub) (if attachOnly decision then "attach_only" else "ready") (Auth.cl_Provider claim);
  require (negb (attachOnly decision) || bool_decide (ss_LatestSeq s = 0)) ErrUnauthorized;;
  ret (if sub_SkipReplay sub
       then mkAdmitted (mkSubscription sessionID (ss_LatestSeq s) true) (replayAfterLatest s) decision claim
       else mkAdmitted sub s decision claim).

Fixpoint admitAll (principal : Auth.Principal) (version : Z) (count : nat) (subs : list Subscription) : M (list admitted) :=
  match subs with
  | [] => ret []
  | sub :: subs =>
      a ← admitSubscription principal version count sub;
      rest ← admitAll principal version count subs;
      ret (a :: rest)
  end.

(** Later entries of a map replace earlier ones. *)
Definition recorded {A} (f : admitted → A) (l : list admitted) : gmap string A :=
  foldl (λ m a, <[sub_SessionID (a_Sub a) := f a]> m) ∅ l.

Definition attentionGrant (authorizer : Auth.Principal → W → option Auth.AttentionGrant * W) (principal : Auth.Principal) : M Auth.AttentionGrant :=
  grant ← try_ (authorizer principal) ErrUnauthorized;
  now ← ask (Now env);
  match Auth.EvaluateAttentionAuthorization principal grant now with
  | inr grant => ret grant
  | inl _ => fail ErrUnauthorized
  end.

Definition AuthorizeAttention (principal : Auth.Principal) : M Auth.AttentionGrant :=
  require (bool_decide (is_Some (Authenticate env)) && attentionPrincipal principal) ErrUnauthorized;;
  authorizer ← implemented (AuthorizeAttentionGrant env) ErrUnauthorized;
  attentionGrant authorizer principal.

Definition handleClient (hello : Hello) (principal : Auth.Principal) (version : Z) : M (HelloAck * AcceptedPeer) :=
  let subs := elems (h_Subscriptions hello) in
  if attentionPrincipal principal then
    require (bool_decide (version = ProtocolVersionV2)) ErrVersionUnsupported;;
    require (bool_decide (subs = [])) ErrUnauthorized;;
    authorizer ← implemented (AuthorizeAttentionGrant env) ErrUnauthorized;
    attentionGrant authorizer principal;;
    ret (mkHelloAck "" version (Slice [] []) (Some (mkHelloCapabilities None (Some (mkAttentionSummaryCapability 64)) None None None)) None,
         mkPeer RoleClient version principal "" "" false "" [] ∅ ∅ true)
  else
    require (bool_decide (subs ≠ [])) ErrInvalidHello;;
    l ← admitAll principal version (length subs) subs;
    ret (mkHelloAck (h_ContentMode hello) version (Slice (a_Summary <$> l) []) None None,
         mkPeer RoleClient version principal "" "" false (h_ContentMode hello) (a_Sub <$> l)
           (recorded a_Decision l) (recorded a_Claim l) false).

(** ** Adapters *)

Definition handleAdapter (hello : Hello) (principal : Auth.Principal) (version : Z) : M (HelloAck * AcceptedPeer) :=
  let sessionID := h_SessionID hello in
  require (bool_decide (sessionID ≠ "") && bool_decide (h_Provider hello ≠ "")) ErrInvalidHello;;
  require (Auth.hasExactSessionAccess principal sessionID Auth.AccessAdapter) ErrUnauthorized;;
  authorized ← ask (AuthorizeScope env principal (Auth.SessionAdapter sessionID));
  require authorized ErrUnauthorized;;
  claim ← sessionAdmissionClaim principal sessionID;
  require (bool_decide (Auth.cl_Provider claim = h_Provider hello)) ErrUnauthorized;;
  truth ← adapterSessionAdmissionTruth sessionID;
  require (Auth.tr_Exists truth && Auth.tr_Complete truth && negb (Auth.tr_Terminal truth)
           && negb (Auth.tr_Conflicting truth)) ErrUnauthorized;;
  s ← adapterSummary sessionID (Auth.cl_Provider claim);
  ret (mkHelloAck (h_ContentMode hello) version (Slice [s] []) None None,
       mkPeer RoleAdapter version principal sessionID (h_Provider hello) (h_Resume hello) (h_ContentMode hello) [] ∅ ∅ false).

(** ** Hello *)

Definition HandleHello (hello : Hello) : M (HelloAck * AcceptedPeer) :=
  require (bool_decide (h_Token hello ≠ "")
           && bool_decide (h_ContentMode hello ∈ [""; ContentModeRequired; ContentModeLegacy])) ErrInvalidHello;;
  match negotiateHelloVersion hello with
  | inl e => fail e
  | inr version =>
      authenticate ← implemented (Authenticate env) ErrInternal;
      principal ← try_ (authenticate (h_Token hello)) (ErrAuth Auth.ErrInvalidToken);
      authorizeContentMode hello principal version;;
      if bool_decide (h_Role hello = RoleClient) then handleClient hello principal version
      else if bool_decide (h_Role hello = RoleAdapter) then handleAdapter hello principal version
      else fail ErrInvalidHello
  end.

(** ** Attach *)

Definition AuthorizeAttach (peer : AcceptedPeer) (rawGrant : string) : M (Auth.AttachGrant * Auth.BootstrapAuthority) :=
  verifier ← implemented (VerifyAttachGrant env) ErrUnauthorized;
  require (bool_decide (attachGrantAudience env ≠ "") && bool_decide (rawGrant ≠ "")
           && bool_decide (len rawGrant ≤ maxRawAttachGrantBytes) && bool_decide (Role peer = RoleClient)
           && bool_decide (PeerVersion peer = ProtocolVersionV2)) ErrUnauthorized;;
  verified ← ask (verifier rawGrant (attachGrantAudience env));
  match verified with
  | None => fail ErrUnauthorized
  | Some grant =>
      match Admissions peer !! Auth.TargetSessionID grant, AdmissionClaims peer !! Auth.TargetSessionID grant with
      | Some decision, Some claim =>
          require (subscribesTo (Subscribed peer) (Auth.TargetSessionID grant)
                   && bool_decide (Auth.cl_Provider claim = Auth.Provider grant)) ErrUnauthorized;;
          now ← ask (Now env);
          require (After (Auth.cl_ExpiresAt claim) now && attachOnly decision && negb (Auth.MayMutate decision)) ErrUnauthorized;;
          resolver ← implemented (CurrentBootstrapAuthority env) ErrUnauthorized;
          bootstrap ← try_ (resolver grant) ErrUnauthorized;
          now' ← ask (Now env);
          match Auth.EvaluateAttachAuthorization (PeerPrincipal peer) grant bootstrap (attachGrantAudience env) now' with
          | None => ret (grant, bootstrap)
          | Some _ => fail ErrUnauthorized
          end
      | _, _ => fail ErrUnauthorized
      end
  end.
End Handshake.

(** [protocolErrorCode] *)
Definition protocolErrorCode (e : error) : string :=
  match e with
  | ErrInvalidHello | ErrVersionUnsupported => "invalid_hello"
  | ErrAuth Auth.ErrInvalidToken | ErrAuth Auth.ErrUnauthorized => "unauthorized"
  | _ => "internal_error"
  end.

End Handshake.
