(* ===== verification/HandshakeProofs.v ===== *)
(** * Properties of the handshake

    Whoever is accepted was authenticated, holds the scopes for what it was
    admitted to, cannot lower the content mode, and satisfies what the delivery
    of events relies on. *)

From S2P Require Import Prelude Json Wire GoText Sha256 EncryptedPacket CodecPayloads Frames Codec Auth Handshake.
From stdpp Require Import base gmap strings list option.
#[local] Open Scope Z_scope.

Module HandshakeProofs.
Import Wire Frames Codec Handshake.

Section proofs.
Context {W : Type} (env : Environment W).

(** ** Successful calls *)

Lemma bind_inv {A B} (m : @M W A) (f : A → @M W B) w b w' :
  bind m f w = (inr b, w') → ∃ a w1, m w = (inr a, w1) ∧ f a w1 = (inr b, w').
Proof. unfold bind. destruct (m w) as [[e|a] w1] eqn:E; [done|]. eauto. Qed.

Lemma require_inv b e (w w' : W) u : require b e w = (inr u, w') → b = true ∧ w' = w.
Proof. unfold require. destruct b; [|done]. unfold ret. naive_solver. Qed.

Lemma ask_inv {A} (f : W → A * W) w a w' : ask f w = (inr a, w') → f w = (a, w').
Proof. unfold ask. destruct (f w). naive_solver. Qed.

Lemma try_inv {A} (f : W → option A * W) e w a w' : try_ f e w = (inr a, w') → f w = (Some a, w').
Proof. unfold try_. destruct (f w) as [[x|] w1]; naive_solver. Qed.

Lemma implemented_inv {A} (o : option A) e (w w' : W) a : implemented o e w = (inr a, w') → o = Some a ∧ w' = w.
Proof. unfold implemented. destruct o; [|done]. unfold ret. naive_solver. Qed.

Lemma ret_inv {A} (a b : A) (w w' : W) : ret a w = (inr b, w') → b = a ∧ w' = w.
Proof. unfold ret. naive_solver. Qed.

Ltac inv1 :=
  match goal with
  | H : bind _ _ _ = (inr _, _) |- _ =>
      let a := fresh "a" in let w := fresh "w" in let H1 := fresh "H" in
      apply bind_inv in H as (a & w & H1 & H)
  | H : require _ _ _ = (inr _, _) |- _ => apply require_inv in H as [H ->]
  | H : ask _ _ = (inr _, _) |- _ => apply ask_inv in H
  | H : try_ _ _ _ = (inr _, _) |- _ => apply try_inv in H
  | H : implemented _ _ _ = (inr _, _) |- _ => apply implemented_inv in H as [H ->]
  | H : ret _ _ = (inr _, _) |- _ => apply ret_inv in H as [H ->]
  | H : fail _ _ = (inr _, _) |- _ => discriminate H
  end.
Ltac unwind := repeat inv1; rewrite ?andb_true_iff, ?bool_decide_eq_true in *; destruct_and?.

(** ** Scopes *)

Lemma hasExact_spec principal sid access :
  Auth.hasExactSessionAccess principal sid access = true ↔ Auth.mkScope Auth.KindSession sid access ∈ Auth.Scopes principal.
Proof.
  unfold Auth.hasExactSessionAccess. rewrite existsb_exists. split.
  - intros ([k i a] & Hin & H). cbn in H. rewrite !andb_true_iff, !bool_decide_eq_true in H. destruct H as [[-> ->] ->].
    by apply list_elem_of_In.
  - intros Hin. eexists. split; [by apply list_elem_of_In|]. cbn. by rewrite !bool_decide_true.
Qed.

Lemma exactAccess_spec principal sid access :
  exactSessionAccess principal sid = access → access ≠ "" →
  (access = Auth.AccessControl ∨ access = Auth.AccessView) ∧ Auth.mkScope Auth.KindSession sid access ∈ Auth.Scopes principal.
Proof.
  unfold exactSessionAccess. intros <-. destruct (Auth.hasExactSessionAccess _ _ Auth.AccessControl) eqn:E.
  - intros _. split; [by left|by apply hasExact_spec].
  - destruct (Auth.hasExactSessionAccess _ _ Auth.AccessView) eqn:E'; [|done]. intros _. split; [by right|by apply hasExact_spec].
Qed.

Lemma exclusive_spec principal sid :
  isExclusiveAttachOnlyPrincipal principal sid = true → Auth.Scopes principal = [Auth.SessionControl sid].
Proof.
  unfold isExclusiveAttachOnlyPrincipal. rewrite andb_true_iff, bool_decide_eq_true, hasExact_spec. intros [Hl Hin].
  destruct (Auth.Scopes principal) as [|s [|]]; try done. by apply list_elem_of_singleton in Hin as <-.
Qed.

(** ** One subscription *)

(** What the decision on a Session rests on. *)
Definition justified (principal : Auth.Principal) (version : Z) (count : nat) (sid : string) (d : Auth.SessionAdmissionDecision) : Prop :=
  match Auth.Mode d with
  | Auth.SessionAdmissionAttachOnly =>
      Auth.MayMutate d = false ∧ Auth.Scopes principal = [Auth.SessionControl sid] ∧ version = ProtocolVersionV2 ∧ count = 1%nat
  | Auth.SessionAdmissionCurrent =>
      if Auth.MayMutate d then Auth.SessionControl sid ∈ Auth.Scopes principal
      else Auth.SessionView sid ∈ Auth.Scopes principal
  end.

(** The Store said so. *)
Definition vouched (sid : string) (d : Auth.SessionAdmissionDecision) : Prop :=
  ∃ truthOf truth w1 w2, AdmissionTruthOf env = Some truthOf ∧ truthOf sid w1 = (Some truth, w2) ∧ Auth.tr_SessionID truth = sid
    ∧ match Auth.Mode d with
      | Auth.SessionAdmissionAttachOnly => Auth.tr_Exists truth = false
      | Auth.SessionAdmissionCurrent =>
          Auth.tr_Exists truth = true ∧ Auth.tr_Complete truth = true ∧ Auth.tr_Conflicting truth = false
          ∧ (Auth.MayMutate d = true → Auth.tr_Live truth = true ∧ Auth.tr_Terminal truth = false)
      end.

Record admits (principal : Auth.Principal) (version : Z) (count : nat) (sub : Subscription) (a : admitted) : Prop := {
  ad_session : sub_SessionID sub ≠ "";
  ad_last : 0 ≤ sub_LastSeq sub;
  ad_decision : justified principal version count (sub_SessionID sub) (a_Decision a);
  ad_truth : vouched (sub_SessionID sub) (a_Decision a);
  ad_sub : sub_SessionID (a_Sub a) = sub_SessionID sub ∧ sub_SkipReplay (a_Sub a) = sub_SkipReplay sub;
  ad_watermark : if sub_SkipReplay sub
                 then ∃ w1 w2, LatestSeq env (sub_SessionID sub) w1 = (Some (sub_LastSeq (a_Sub a)), w2)
                 else sub_LastSeq (a_Sub a) = sub_LastSeq sub;
  ad_summary : ss_SessionID (a_Summary a) = sub_SessionID sub ∧ ss_ReplayFrom (a_Summary a) = i64 (sub_LastSeq (a_Sub a) + 1);
}.

Lemma evaluate_spec principal claim truth now now' d :
  Auth.EvaluateSessionAdmission principal claim truth now now' = inr d →
  Auth.SessionControl (Auth.cl_SessionID claim) ∈ Auth.Scopes principal ∧
  ((Auth.tr_Exists truth = false ∧ d = Auth.mkDecision Auth.SessionAdmissionAttachOnly false)
   ∨ (Auth.tr_Exists truth = true ∧ Auth.tr_Complete truth = true ∧ Auth.tr_Terminal truth = false ∧ Auth.tr_Conflicting truth = false
      ∧ Auth.tr_Live truth = true ∧ d = Auth.mkDecision Auth.SessionAdmissionCurrent true)).
Proof.
  unfold Auth.EvaluateSessionAdmission. destruct (_ || _) eqn:E; [done|]. apply orb_false_iff in E as [_ E].
  apply negb_false_iff, hasExact_spec in E. intros H. split; [done|].
  destruct (Auth.tr_Exists truth), (Auth.tr_Complete truth), (Auth.tr_Terminal truth), (Auth.tr_Conflicting truth), (Auth.tr_Live truth);
    cbn in H; naive_solver.
Qed.

Lemma claim_session principal sid w claim w' : sessionAdmissionClaim env principal sid w = (inr claim, w') → Auth.cl_SessionID claim = sid.
Proof. unfold sessionAdmissionClaim. intros H. unwind. destruct a0 as [c|]; unwind. by subst. Qed.

Lemma truth_session sid w truth w' :
  sessionAdmissionTruth env sid w = (inr truth, w') →
  ∃ truthOf w1 w2, AdmissionTruthOf env = Some truthOf ∧ truthOf sid w1 = (Some truth, w2) ∧ Auth.tr_SessionID truth = sid.
Proof. unfold sessionAdmissionTruth, truthFrom. intros H. unwind. subst. eauto 8. Qed.

Lemma admission_spec principal sid access w claim d w' :
  clientAdmission env principal sid access w = (inr (claim, d), w') →
  Auth.mkScope Auth.KindSession sid access ∈ Auth.Scopes principal →
  vouched sid d ∧ match Auth.Mode d with
                  | Auth.SessionAdmissionAttachOnly => Auth.MayMutate d = false
                  | Auth.SessionAdmissionCurrent =>
                      if Auth.MayMutate d then Auth.SessionControl sid ∈ Auth.Scopes principal
                      else Auth.SessionView sid ∈ Auth.Scopes principal
                  end.
Proof.
  unfold clientAdmission. intros H Hin. do 2 inv1. pose proof (claim_session _ _ _ _ _ H0) as Hc.
  destruct (truth_session _ _ _ _ H1) as (truthOf & u1 & u2 & Ht & Hans & Hsid). case_bool_decide as Ha.
  - do 4 inv1. destruct (Auth.EvaluateSessionAdmission _ _ _ _ _) as [|d'] eqn:E; [inv1|]. inv1. injection H as <- <-.
    apply evaluate_spec in E as [Hctl [[Hex ->]|(H4 & H5 & H6 & H7 & H8 & ->)]]; cbn; rewrite Hc in Hctl;
      (split; [|done]); do 4 eexists; split_and!; done.
  - unwind. injection H as -> ->. subst access. cbn. split; [|done]. do 4 eexists. cbn. split_and!; try done.
    by apply negb_true_iff.
Qed.

Lemma summary_spec sid last state provider w s w' :
  summary env sid last state provider w = (inr s, w') →
  ss_SessionID s = sid ∧ ss_ReplayFrom s = i64 (last + 1) ∧ LatestSeq env sid w = (Some (ss_LatestSeq s), w').
Proof. unfold summary. intros H. unwind. by subst. Qed.

Lemma admitSubscription_spec principal version count sub w a w' :
  admitSubscription env principal version count sub w = (inr a, w') → admits principal version count sub a.
Proof.
  unfold admitSubscription. intros H. repeat inv1.
  match goal with H : clientAdmission _ _ _ _ _ = (inr ?ad, _) |- _ => destruct ad as [claim d]; rename H into Hadm end. unwind.
  match goal with H : exactSessionAccess _ _ ≠ "" |- _ => destruct (exactAccess_spec _ _ _ eq_refl H) as [_ Hin] end.
  destruct (admission_spec _ _ _ _ _ _ _ Hadm Hin) as [Hv Hd].
  match goal with H : summary _ _ _ _ _ _ = _ |- _ => apply summary_spec in H as (Hss & Hrf & Hlatest) end.
  assert (justified principal version count (sub_SessionID sub) d) as Hj.
  { unfold justified. destruct (Auth.Mode d) eqn:Hm; [|done]. unfold attachOnly in *. rewrite Hm, bool_decide_true in * by done.
    cbn in *. rewrite ?andb_true_iff, ?bool_decide_eq_true in *. destruct_and?. split_and!; try done. by apply exclusive_spec. }
  subst a. destruct (sub_SkipReplay sub) eqn:Hk; split; cbn; rewrite ?Hk; try done; eauto.
Qed.

Lemma admitAll_spec principal version count subs w l w' :
  admitAll env principal version count subs w = (inr l, w') → Forall2 (admits principal version count) subs l.
Proof.
  revert w l. induction subs as [|sub subs IH]; intros w l H; cbn in H; [unwind; subst; constructor|].
  do 3 inv1. subst l. constructor; [by eapply admitSubscription_spec|by eapply IH].
Qed.

(** ** The maps of an accepted peer *)

Lemma recorded_some {A} (f : admitted → A) l sid x :
  recorded f l !! sid = Some x → ∃ a, a ∈ l ∧ sub_SessionID (a_Sub a) = sid ∧ f a = x.
Proof.
  unfold recorded. enough (∀ m, foldl (λ m a, <[sub_SessionID (a_Sub a) := f a]> m) m l !! sid = Some x →
    m !! sid = Some x ∨ ∃ a, a ∈ l ∧ sub_SessionID (a_Sub a) = sid ∧ f a = x) as H by (intros Hx; destruct (H _ Hx) as [He|?]; [by rewrite lookup_empty in He|done]).
  induction l as [|a l IH]; intros m Hx; [by left|]. cbn in Hx. apply IH in Hx as [Hx|(b & ? & ?)]; [|right; exists b; split; [by right|done]].
  apply lookup_insert_Some in Hx as [[? ?]|[_ ?]]; [right; exists a; split; [by left|done]|by left].
Qed.

Lemma recorded_in {A} (f : admitted → A) l a : a ∈ l → is_Some (recorded f l !! sub_SessionID (a_Sub a)).
Proof.
  unfold recorded. enough (∀ m sid, is_Some (m !! sid) ∨ (∃ b, b ∈ l ∧ sub_SessionID (a_Sub b) = sid) →
    is_Some (foldl (λ m a, <[sub_SessionID (a_Sub a) := f a]> m) m l !! sid)) as H by (intros Hin; apply H; right; by eauto).
  clear a. induction l as [|a l IH]; intros m sid H; cbn; [destruct H as [?|(b & Hb & _)]; [done|by apply elem_of_nil in Hb]|].
  apply IH. destruct H as [H|(b & [->|Hb]%elem_of_cons & <-)].
  - left. destruct (decide (sub_SessionID (a_Sub a) = sid)) as [->|?]; [rewrite lookup_insert_eq; by eauto|by rewrite lookup_insert_ne].
  - left. rewrite lookup_insert_eq. by eauto.
  - right. by eauto.
Qed.

(** ** Hello *)

Lemma hello_spec hello w ack peer w' :
  HandleHello env hello w = (inr (ack, peer), w') →
  ∃ version authenticate principal w1 w2 w3 w4,
    negotiateHelloVersion hello = inr version ∧ Authenticate env = Some authenticate
    ∧ authenticate (h_Token hello) w1 = (Some principal, w2) ∧ authorizeContentMode env hello principal version w2 = (inr w3, w4)
    ∧ ((h_Role hello = RoleClient ∧ handleClient env hello principal version w4 = (inr (ack, peer), w'))
       ∨ (h_Role hello = RoleAdapter ∧ handleAdapter env hello principal version w4 = (inr (ack, peer), w'))).
Proof.
  unfold HandleHello. intros H. do 2 inv1. destruct (negotiateHelloVersion hello) as [|version] eqn:E; [inv1|].
  do 5 inv1. exists version. do 6 eexists. split_and!; try done.
  case_bool_decide; [by left|]. case_bool_decide; [by right|inv1].
Qed.

Lemma client_spec hello principal version w ack peer w' :
  handleClient env hello principal version w = (inr (ack, peer), w') →
  PeerPrincipal peer = principal ∧ PeerVersion peer = version ∧ Role peer = RoleClient
  ∧ ((AttentionOnly peer = true ∧ Subscribed peer = [] ∧ elems (h_Subscriptions hello) = [] ∧ PeerContentMode peer = "" ∧ ha_Sessions ack = Slice [] [])
     ∨ (AttentionOnly peer = false ∧ elems (h_Subscriptions hello) ≠ [] ∧ PeerContentMode peer = h_ContentMode hello
        ∧ ∃ l, Forall2 (admits principal version (length (elems (h_Subscriptions hello)))) (elems (h_Subscriptions hello)) l
            ∧ Subscribed peer = a_Sub <$> l ∧ Admissions peer = recorded a_Decision l ∧ AdmissionClaims peer = recorded a_Claim l
            ∧ ha_Sessions ack = Slice (a_Summary <$> l) [])).
Proof.
  unfold handleClient. intros H. destruct (attentionPrincipal principal).
  - unwind. match goal with H : (_, _) = (_, _) |- _ => injection H as -> -> end. cbn. split_and!; try done. left. done.
  - do 4 inv1. match goal with H : (_, _) = (_, _) |- _ => injection H as -> -> end. cbn. split_and!; try done. right.
    apply bool_decide_eq_true in H0. split_and!; try done. eexists. split; [by eapply admitAll_spec|done].
Qed.

Lemma modes_spec (authorizer : string → W → option string * W) (policy : string → string) mode version sids w u w' :
  (∀ s w, (authorizer s w).1 = Some (policy s)) →
  checkContentModes authorizer mode version sids w = (inr u, w') →
  Forall (λ s, (policy s = ContentModeRequired → mode = ContentModeRequired ∧ version = ProtocolVersionV2)
               ∧ (mode = ContentModeRequired → policy s = ContentModeRequired)) sids.
Proof.
  intros Hp. revert w. induction sids as [|s sids IH]; intros w H; cbn in H; [constructor|].
  repeat inv1. match goal with Ha : authorizer s w = _, Hr : (if _ then _ else _) = true |- _ =>
    specialize (Hp s w); rewrite Ha in Hp; cbn in Hp; injection Hp as ->; rename Hr into Hreq end.
  constructor; [|by eapply IH].
  case_bool_decide as E; rewrite andb_true_iff, !bool_decide_eq_true in Hreq; naive_solver congruence.
Qed.

Lemma admission_claim_spec principal sid w claim w' :
  sessionAdmissionClaim env principal sid w = (inr claim, w') →
  ∃ claimOf w1 w2, AdmissionClaimOf env = Some claimOf ∧ claimOf principal sid w1 = (Some claim, w2) ∧ Auth.cl_SessionID claim = sid.
Proof.
  unfold sessionAdmissionClaim. intros H. repeat inv1. match goal with c : option Auth.SessionAdmissionClaim |- _ => destruct c; [|inv1] end.
  unwind. subst claim. eauto 8.
Qed.

Lemma adapter_truth sid w truth w' :
  adapterSessionAdmissionTruth env sid w = (inr truth, w') →
  ∃ truthOf w1 w2, (AdapterAdmissionTruthOf env = Some truthOf ∨ AdmissionTruthOf env = Some truthOf)
    ∧ truthOf sid w1 = (Some truth, w2).
Proof.
  unfold adapterSessionAdmissionTruth. destruct (AdapterAdmissionTruthOf env) as [truthOf|] eqn:E.
  - unfold truthFrom. intros H. unwind. subst. eauto 8.
  - intros (truthOf & w1 & w2 & ? & ? & _)%truth_session. eauto 8.
Qed.

Lemma adapter_spec hello principal version w ack peer w' :
  handleAdapter env hello principal version w = (inr (ack, peer), w') →
  PeerPrincipal peer = principal ∧ PeerContentMode peer = h_ContentMode hello ∧ PeerVersion peer = version
  ∧ PeerSessionID peer = h_SessionID hello ∧ PeerProvider peer = h_Provider hello ∧ h_SessionID hello ≠ ""
  ∧ Auth.SessionAdapter (h_SessionID hello) ∈ Auth.Scopes principal
  ∧ (∃ claimOf claim w1 w2, AdmissionClaimOf env = Some claimOf ∧ claimOf principal (h_SessionID hello) w1 = (Some claim, w2)
       ∧ Auth.cl_SessionID claim = h_SessionID hello ∧ Auth.cl_Provider claim = h_Provider hello)
  ∧ (∃ truthOf truth w1 w2, (AdapterAdmissionTruthOf env = Some truthOf ∨ AdmissionTruthOf env = Some truthOf)
       ∧ truthOf (h_SessionID hello) w1 = (Some truth, w2)
       ∧ Auth.tr_Exists truth = true ∧ Auth.tr_Complete truth = true ∧ Auth.tr_Terminal truth = false ∧ Auth.tr_Conflicting truth = false).
Proof.
  unfold handleAdapter. intros H. repeat inv1.
  match goal with H : sessionAdmissionClaim _ _ _ _ = _ |- _ => apply admission_claim_spec in H as (claimOf & u1 & u2 & Hc & Hans & Hsid) end.
  match goal with H : adapterSessionAdmissionTruth _ _ _ = _ |- _ => apply adapter_truth in H as (truthOf & u3 & u4 & Ht & Htans) end.
  match goal with H : (_, _) = (_, _) |- _ => injection H as -> -> end.
  rewrite ?andb_true_iff, ?bool_decide_eq_true, ?negb_true_iff, ?hasExact_spec in *. destruct_and!.
  cbn. split_and!; try done; [by exists claimOf; eauto 8|]. exists truthOf. do 3 eexists. split_and!; done.
Qed.
End proofs.
End HandshakeProofs.
