(* ===== verification/HandshakeTheorems.v ===== *)
(** * What an accepted hello guarantees

    Authority of clients and Adapters, the content mode, the ingress of attach
    grants, and the preconditions of event delivery. *)

From S2P Require Import Prelude StoreApi Json Wire GoText Sha256 EncryptedPacket CodecPayloads Frames Codec HubReplay ClientDelivery DeliveryProofs DeliveryProperties Auth Handshake HandshakeProofs.
From stdpp Require Import base gmap strings list option.
#[local] Open Scope Z_scope.

Module HandshakeTheorems.
Import Wire Frames Codec Handshake HandshakeProofs.

(** The conditions a disjunction that is false refutes. *)
Ltac conditions :=
  repeat match goal with
  | H : _ || _ = false |- _ => apply orb_false_iff in H as [? ?]
  | H : bool_decide _ = false |- _ => apply bool_decide_eq_false in H
  | H : negb _ = false |- _ => apply negb_false_iff in H
  | H : bool_decide _ = true |- _ => apply bool_decide_eq_true in H
  end.

(** C23: A client is accepted only after its token was authenticated, and every
    Session it subscribes to is one it holds a literal control or view scope
    for.  The recorded admission lets it mutate only under control of a live,
    complete, non-terminal Session; a client that may only attach is alone with
    one subscription and that single scope, on a Session the Store does not
    know, with protocol version 2. *)
Theorem accepted_client_is_authorised {W} (env : Environment W) hello w ack peer w' sub :
  HandleHello env hello w = (inr (ack, peer), w') → h_Role hello = RoleClient → sub ∈ elems (h_Subscriptions hello) →
  (∃ authenticate w1 w2, Authenticate env = Some authenticate ∧ authenticate (h_Token hello) w1 = (Some (PeerPrincipal peer), w2))
  ∧ sub_SessionID sub ≠ "" ∧ 0 ≤ sub_LastSeq sub
  ∧ ∃ d, Admissions peer !! sub_SessionID sub = Some d
      ∧ justified (PeerPrincipal peer) (PeerVersion peer) (length (elems (h_Subscriptions hello))) (sub_SessionID sub) d
      ∧ vouched env (sub_SessionID sub) d.
Proof.
  intros H Hr Hin. apply hello_spec in H as (v & auth & p & w1 & w2 & w3 & w4 & _ & Ha & Hp & _ & [[_ H]|[Hr' _]]); [|by rewrite Hr in Hr'].
  apply client_spec in H as (-> & -> & _ & [(_ & _ & E & _)|(_ & _ & _ & l & Hl & _ & Hadm & _)]); [rewrite E in Hin; by apply elem_of_nil in Hin|].
  split; [by eauto|]. destruct (list_elem_of_lookup_1 _ _ Hin) as [i Hi].
  destruct (Forall2_lookup_l _ _ _ _ _ Hl Hi) as (a & Hai & Hok). destruct Hok as [Hs Hl0 _ _ [Hsub _] _ _]. split_and!; try done.
  destruct (recorded_in a_Decision l a) as [d Hd]; [by eapply list_elem_of_lookup_2|]. rewrite Hsub in Hd.
  exists d. rewrite Hadm. split; [done|]. apply recorded_some in Hd as (b & Hb & Hbs & <-).
  apply list_elem_of_lookup in Hb as [j Hj]. destruct (Forall2_lookup_r _ _ _ _ _ Hl Hj) as (sub' & _ & Hok').
  destruct Hok' as [_ _ Hd Ht [Hsub' _] _ _]. rewrite <- Hbs, Hsub'. done.
Qed.

(** An Adapter is accepted only with a literal adapter scope for its
    Session, under a claim for that Session and the provider it names, and when
    the Store knows the Session as complete, not terminal and not conflicting. *)
Theorem accepted_adapter_is_authorised {W} (env : Environment W) hello w ack peer w' :
  HandleHello env hello w = (inr (ack, peer), w') → h_Role hello = RoleAdapter →
  PeerSessionID peer = h_SessionID hello ∧ h_SessionID hello ≠ ""
  ∧ Auth.SessionAdapter (h_SessionID hello) ∈ Auth.Scopes (PeerPrincipal peer)
  ∧ (∃ claimOf claim w1 w2, AdmissionClaimOf env = Some claimOf ∧ claimOf (PeerPrincipal peer) (h_SessionID hello) w1 = (Some claim, w2)
       ∧ Auth.cl_SessionID claim = h_SessionID hello ∧ Auth.cl_Provider claim = PeerProvider peer)
  ∧ (∃ truthOf truth w1 w2, (AdapterAdmissionTruthOf env = Some truthOf ∨ AdmissionTruthOf env = Some truthOf)
       ∧ truthOf (h_SessionID hello) w1 = (Some truth, w2)
       ∧ Auth.tr_Exists truth = true ∧ Auth.tr_Complete truth = true ∧ Auth.tr_Terminal truth = false ∧ Auth.tr_Conflicting truth = false).
Proof.
  intros H Hr. apply hello_spec in H as (v & auth & p & w1 & w2 & w3 & w4 & _ & Ha & Hp & _ & [[Hr' _]|[_ H]]); [by rewrite Hr in Hr'|].
  apply adapter_spec in H as (-> & _ & _ & -> & -> & ? & ? & ? & ?). done.
Qed.

(** C24: The content mode is never lowered.  Under a policy that requires
    encrypted content for a Session, a peer of that Session is accepted only in
    the required mode and with protocol version 2; and a peer accepted in the
    required mode has only Sessions whose policy requires it. *)
Theorem content_mode_is_not_lowered {W} (env : Environment W) authorizer policy hello w ack peer w' sid :
  SessionContentMode env = Some authorizer → (∀ p s u, (authorizer p s u).1 = Some (policy s)) →
  HandleHello env hello w = (inr (ack, peer), w') → sid ∈ helloSessions hello →
  (policy sid = ContentModeRequired ↔ PeerContentMode peer = ContentModeRequired)
  ∧ (policy sid = ContentModeRequired → PeerVersion peer = ProtocolVersionV2).
Proof.
  intros Henv Hpol H Hin. apply hello_spec in H as (v & auth & p & w1 & w2 & w3 & w4 & _ & _ & _ & Hmode & H).
  assert (PeerContentMode peer = h_ContentMode hello ∧ PeerVersion peer = v) as [-> ->].
  { destruct H as [[Hr H]|[_ H]]; [|by apply adapter_spec in H as (_ & ? & ? & _)].
    apply client_spec in H as (_ & ? & _ & [(_ & _ & E & _)|(_ & _ & ? & _)]); [|done].
    unfold helloSessions in Hin. rewrite Hr, bool_decide_false, E in Hin by done. by apply elem_of_nil in Hin. }
  unfold authorizeContentMode in Hmode. rewrite Henv in Hmode. apply bind_inv in Hmode as (? & ? & _ & Hmode).
  apply (modes_spec _ policy) in Hmode; [|by intros; apply Hpol]. rewrite list.Forall_forall in Hmode. specialize (Hmode sid Hin). naive_solver.
Qed.

(** C25: An attach is authorised only for a client of protocol version 2 that
    was admitted to the target for attaching alone and whose single scope
    controls the target; the grant names another Session as its bootstrap, which
    is live with the same provider, carries a fence above the accepted one, was
    issued at most five minutes before it expires, and its delivery deadline has
    not passed. *)
Theorem attach_is_exclusive {W} (env : Environment W) peer raw w grant bootstrap w' :
  AuthorizeAttach env peer raw w = (inr (grant, bootstrap), w') →
  Role peer = RoleClient ∧ PeerVersion peer = ProtocolVersionV2
  ∧ Auth.Scopes (PeerPrincipal peer) = [Auth.SessionControl (Auth.TargetSessionID grant)]
  ∧ Admissions peer !! Auth.TargetSessionID grant = Some (Auth.mkDecision Auth.SessionAdmissionAttachOnly false)
  ∧ Auth.Audience grant = attachGrantAudience env
  ∧ Auth.BootstrapSessionID grant ≠ Auth.TargetSessionID grant
  ∧ Auth.ba_SessionID bootstrap = Auth.BootstrapSessionID grant ∧ Auth.ba_Live bootstrap = true
  ∧ Auth.ba_Provider bootstrap = Auth.Provider grant ∧ Auth.ba_AcceptedFence bootstrap < Auth.GrantFence grant
  ∧ Auth.IssuedAt grant < Auth.ExpiresAt grant ≤ Auth.IssuedAt grant + Auth.attachGrantMaxTTL
  ∧ ∃ now w1 w2, Now env w1 = (now, w2) ∧ now ≤ Auth.DeliveryDeadline grant.
Proof.
  intros H. unfold AuthorizeAttach in H.
  apply bind_inv in H as (verifier & w1 & _ & H). apply bind_inv in H as ([] & w2 & Hreq & H). apply require_inv in Hreq as [Hreq ->].
  apply bind_inv in H as (verified & w3 & _ & H). destruct verified as [g|]; [|done].
  destruct (Admissions peer !! Auth.TargetSessionID g) as [d|] eqn:Hd; [|done].
  destruct (AdmissionClaims peer !! Auth.TargetSessionID g) as [c|]; [|done].
  apply bind_inv in H as ([] & w4 & _ & H). apply bind_inv in H as (now & w5 & _ & H).
  apply bind_inv in H as ([] & w6 & Hreq2 & H). apply require_inv in Hreq2 as [Hreq2 ->].
  apply bind_inv in H as (resolver & w7 & _ & H). apply bind_inv in H as (b & w8 & _ & H).
  apply bind_inv in H as (now' & w9 & Hnow & H). apply ask_inv in Hnow.
  destruct (Auth.EvaluateAttachAuthorization _ _ _ _ _) eqn:E; [done|]. apply ret_inv in H as [[= -> ->] ->].
  unfold attachOnly in Hreq2. rewrite !andb_true_iff, !bool_decide_eq_true in Hreq. rewrite !andb_true_iff in Hreq2. destruct Hreq2 as [[_ Hm] Hmm].
  apply negb_true_iff in Hmm. destruct d as [m mm]. cbn in Hm, Hmm. apply bool_decide_eq_true in Hm. subst m mm. destruct Hreq as [[_ Hrole] Hver].
  unfold Auth.EvaluateAttachAuthorization in E. destruct (_ || _) eqn:E1 in E; [done|]. destruct (_ || _) eqn:E2 in E; [done|].
  destruct (_ || _) eqn:E3 in E; [done|]. clear E. unfold Auth.Before, After in E2. conditions.
  unfold Auth.Sub, Auth.attachGrantMaxTTL, Auth.minute, Auth.second, two63, max_int64 in *. split_and!; try done; try lia.
  - match goal with H : Auth.hasOnlyExactSessionControl _ _ = true |- _ => unfold Auth.hasOnlyExactSessionControl in H end.
    destruct (Auth.Scopes (PeerPrincipal peer)) as [|[k i a] [|]]; try done. rewrite !andb_true_iff, !bool_decide_eq_true in *. cbn in *.
    destruct_and!. by subst.
  - by destruct (decide (Auth.Audience g = attachGrantAudience env)).
  - by destruct (decide (Auth.ba_SessionID b = Auth.BootstrapSessionID g)).
  - by destruct (decide (Auth.ba_Provider b = Auth.Provider g)).
  - exists now', w8, w9. split; [done|lia].
Qed.

(** ** The delivery of events *)

(** C26: A hello that names no Session twice gives the delivery of events what
    it relies on.  If the Store's answers are the lengths of the logs, the
    subscriptions that are served are to distinct Sessions, from sequence
    numbers that are not negative, and a tail bootstrap starts within the log;
    the acknowledgement tells the client the sequence number its replay starts
    from. *)
Theorem handshake_establishes_delivery {W} (env : Environment W) (logs : string → list StoreApi.Event) hello w ack peer w' :
  (∀ s u, (LatestSeq env s u).1 = Some (Z.of_nat (length (logs s)))) →
  HandleHello env hello w = (inr (ack, peer), w') → h_Role hello = RoleClient →
  NoDup (sub_SessionID <$> elems (h_Subscriptions hello)) →
  NoDup (DeliveryProperties.sessions (currentSubscriptions peer))
  ∧ Forall (λ sub, 0 ≤ sub_LastSeq sub
                   ∧ (sub_SkipReplay sub = true → sub_LastSeq sub = Z.of_nat (length (logs (sub_SessionID sub)))))
      (currentSubscriptions peer)
  ∧ (λ s, (ss_SessionID s, ss_ReplayFrom s)) <$> elems (ha_Sessions ack)
    = (λ sub, (sub_SessionID sub, i64 (sub_LastSeq sub + 1))) <$> Subscribed peer.
Proof.
  intros Hlog H Hr Hn. apply hello_spec in H as (v & auth & p & w1 & w2 & w3 & w4 & _ & _ & _ & _ & [[_ H]|[Hr' _]]); [|by rewrite Hr in Hr'].
  apply client_spec in H as (_ & _ & _ & [(_ & Hs & _ & _ & Hack)|(_ & _ & _ & l & Hl & Hs & _ & _ & Hack)]).
  { unfold currentSubscriptions. rewrite Hs, Hack. cbn. split_and!; [constructor|constructor|done]. }
  assert (sub_SessionID <$> elems (h_Subscriptions hello) = DeliveryProperties.sessions (a_Sub <$> l)) as Esess.
  { clear -Hl. unfold DeliveryProperties.sessions. induction Hl as [|sub a subs l Hok _ IH]; [done|]. cbn in *. rewrite IH. f_equal.
    by destruct (ad_sub _ _ _ _ _ _ Hok). }
  split_and!.
  - eapply sublist_NoDup; [rewrite Esess in Hn; exact Hn|]. rewrite <- Hs. unfold currentSubscriptions, DeliveryProperties.sessions.
    apply fmap_sublist, sublist_filter.
  - unfold currentSubscriptions. apply list.Forall_forall. intros sub' (_ & Hin)%list_elem_of_filter. rewrite Hs in Hin.
    apply list_elem_of_fmap in Hin as (a & -> & Ha). apply list_elem_of_lookup in Ha as [i Hi].
    destruct (Forall2_lookup_r _ _ _ _ _ Hl Hi) as (sub & _ & [_ H0 _ _ [Hsid Hskip] Hw _]). rewrite Hskip, Hsid.
    destruct (sub_SkipReplay sub); [|by rewrite Hw].
    destruct Hw as (u1 & u2 & Hw). specialize (Hlog (sub_SessionID sub) u1). rewrite Hw in Hlog. cbn in Hlog. injection Hlog as ->. split; [lia|done].
  - rewrite Hack, Hs. cbn. clear -Hl. induction Hl as [|sub a subs l Hok _ IH]; [done|]. cbn. rewrite IH. f_equal.
    destruct (ad_summary _ _ _ _ _ _ Hok) as [-> ->]. by destruct (ad_sub _ _ _ _ _ _ Hok) as [-> _].
Qed.
End HandshakeTheorems.
