(* ===== verification/HandshakeScenarios.v ===== *)
(** * Handshakes and grants on concrete inputs *)

From S2P Require Import Prelude StoreApi Json Wire GoText Sha256 EncryptedPacket CodecPayloads Frames Codec HubReplay ClientDelivery DeliveryProofs DeliveryProperties Auth AuthProofs Handshake HandshakeProofs HandshakeTheorems.
From stdpp Require Import base gmap strings list option.
#[local] Open Scope Z_scope.

Module HandshakeScenarios.
Import Wire Frames Codec Handshake HandshakeProofs HandshakeTheorems.

(** ** A Hub with static tokens *)

Definition tokens : list Auth.Token :=
  Auth.New [Auth.mkToken "t-control" "alice" [Auth.SessionControl "s"; Auth.SessionView "old"];
            Auth.mkToken "" "nobody" [Auth.API];
            Auth.mkToken "t-adapter" "worker" [Auth.SessionAdapter "s"];
            Auth.mkToken "t-attach" "alice" [Auth.SessionControl "fresh"]].

Definition policy (sid : string) : string := if bool_decide (sid = "s") then ContentModeRequired else ContentModeLegacy.

Definition truthOf (sid : string) : Auth.SessionAdmissionTruth :=
  if bool_decide (sid = "s") then Auth.mkTruth sid "p" true true false false true
  else if bool_decide (sid = "old") then Auth.mkTruth sid "p" true true true false false
  else Auth.mkTruth sid "" false false false false false.

Definition logs (sid : string) : list StoreApi.Event :=
  if bool_decide (sid = "fresh") then [] else [StoreApi.mkEvent sid 1 "session.state" 0 "{}"].

Definition grant0 : Auth.AttachGrant :=
  Auth.mkGrant "hub" "jti" "attach" "s" "fresh" "p" 100 200 190 8
    (Auth.mkMaterial [] (Auth.mkFingerprint "" 0 [] 0) "" "" [] None).

(** The state is the clock. *)
Definition env : Environment Z :=
  mkEnvironment Z (λ w, (w, w + 1))
    (Some (λ token w, (match Auth.Authenticate tokens token with inr p => Some p | inl _ => None end, w)))
    (λ p s w, (match Auth.Authorize p s with None => true | Some _ => false end, w))
    (Some (λ p s w, (Some (policy s), w)))
    None
    (Some (λ p s w, (Some (Auth.mkClaim s "p" 250), w)))
    (λ s w, (Some (Z.of_nat (length (logs s))), w))
    (Some (λ s w, (Some (truthOf s), w)))
    None
    (Some (λ raw audience w, (Some grant0, w)))
    (Some (λ g w, (Some (Auth.mkBootstrap "s" "p" 1 1 7 true), w)))
    "hub".

Definition client_hello : Hello :=
  mkHello 2 "client" "t-control" (Slice [mkSubscription "s" 0 true] []) "" "" false "required".
Definition adapter_hello : Hello := mkHello 2 "adapter" "t-adapter" NilSlice "s" "p" false "required".
Definition attach_hello : Hello :=
  mkHello 2 "client" "t-attach" (Slice [mkSubscription "fresh" 0 false] []) "" "" false "".

Definition accepted (hello : Hello) : HelloAck * AcceptedPeer :=
  match HandleHello env hello 120 with
  | (inr r, _) => r
  | _ => (mkHelloAck "" 0 NilSlice None None, mkPeer "" 0 (Auth.mkPrincipal "" [] None None Auth.API) "" "" false "" [] ∅ ∅ false)
  end.

(** Lowering the mode, a wrong token, a viewer of a Session it has no scope for,
    and an attach-only client that asks for more are refused. *)
Example refused :
  (HandleHello env (mkHello 2 "client" "t-control" (Slice [mkSubscription "s" 0 true] []) "" "" false "legacy") 120).1 = inl ErrUnauthorized
  ∧ (HandleHello env (mkHello 2 "client" "" (Slice [mkSubscription "s" 0 true] []) "" "" false "required") 120).1 = inl ErrInvalidHello
  ∧ (HandleHello env (mkHello 2 "client" "t-adapter" (Slice [mkSubscription "s" 0 true] []) "" "" false "required") 120).1 = inl ErrUnauthorized
  ∧ (HandleHello env (mkHello 2 "client" "t-attach" (Slice [mkSubscription "fresh" 0 false; mkSubscription "fresh" 0 false] []) "" "" false "") 120).1
    = inl ErrUnauthorized
  ∧ (HandleHello env (mkHello 2 "client" "t-control" (Slice [mkSubscription "old" 0 false] []) "" "" false "") 120).1 ≠ inl ErrUnauthorized.
Proof. vm_compute. split_and!; try reflexivity. discriminate. Qed.

Lemma accepted_client_is_authorised_witness :
  ∃ d, Admissions (accepted client_hello).2 !! "s" = Some d ∧ Auth.MayMutate d = true
       ∧ justified (PeerPrincipal (accepted client_hello).2) 2 1 "s" d.
Proof.
  destruct (accepted_client_is_authorised env client_hello 120 (accepted client_hello).1 (accepted client_hello).2 123
              (mkSubscription "s" 0 true)) as (_ & _ & _ & d & Hd & Hj & _).
  - vm_compute. reflexivity.
  - reflexivity.
  - apply list_elem_of_singleton. reflexivity.
  - exists d. split; [exact Hd|]. split; [|exact Hj]. vm_compute in Hd. injection Hd as <-. reflexivity.
Defined.

Lemma accepted_adapter_is_authorised_witness :
  Auth.SessionAdapter "s" ∈ Auth.Scopes (PeerPrincipal (accepted adapter_hello).2).
Proof.
  apply (accepted_adapter_is_authorised env adapter_hello 120 (accepted adapter_hello).1 (accepted adapter_hello).2 121);
    vm_compute; reflexivity.
Defined.

Lemma content_mode_is_not_lowered_witness :
  policy "s" = ContentModeRequired ∧ PeerContentMode (accepted client_hello).2 = ContentModeRequired.
Proof.
  assert (policy "s" = ContentModeRequired) as Hp by (vm_compute; reflexivity). split; [exact Hp|].
  apply (content_mode_is_not_lowered env (λ p s w, (Some (policy s), w)) policy client_hello 120 (accepted client_hello).1
           (accepted client_hello).2 123 "s"); [reflexivity|reflexivity|vm_compute; reflexivity| |exact Hp].
  apply list_elem_of_singleton. reflexivity.
Defined.

Lemma attach_is_exclusive_witness :
  Admissions (accepted attach_hello).2 !! "fresh" = Some (Auth.mkDecision Auth.SessionAdmissionAttachOnly false)
  ∧ Auth.Scopes (PeerPrincipal (accepted attach_hello).2) = [Auth.SessionControl "fresh"].
Proof.
  split; [vm_compute; reflexivity|].
  apply (attach_is_exclusive env (accepted attach_hello).2 "raw" 130 grant0 (Auth.mkBootstrap "s" "p" 1 1 7 true) 132).
  vm_compute. reflexivity.
Defined.

Lemma handshake_establishes_delivery_witness :
  Forall (λ sub, sub_LastSeq sub = 1) (currentSubscriptions (accepted client_hello).2)
  ∧ NoDup (DeliveryProperties.sessions (currentSubscriptions (accepted client_hello).2)).
Proof.
  split; [vm_compute; repeat constructor|].
  apply (handshake_establishes_delivery env logs client_hello 120 (accepted client_hello).1 (accepted client_hello).2 123).
  - reflexivity.
  - vm_compute. reflexivity.
  - reflexivity.
  - repeat constructor. by intros ?%elem_of_nil.
Defined.

(** ** Grants *)

Definition attention_principal : Auth.Principal := Auth.mkPrincipal "bob" [Auth.Attention "g"] None None Auth.API.

Lemma attention_authorization_is_bounded_witness :
  Auth.EvaluateAttentionAuthorization attention_principal (Auth.mkAttentionGrant "bob" ["a"; "b"; "c"] 2 10) 5
    = inr (Auth.mkAttentionGrant "bob" ["a"; "b"] 2 10)
  ∧ NoDup ["a"; "b"].
Proof.
  assert (Auth.EvaluateAttentionAuthorization attention_principal (Auth.mkAttentionGrant "bob" ["a"; "b"; "c"] 2 10) 5
    = inr (Auth.mkAttentionGrant "bob" ["a"; "b"] 2 10)) as E by (vm_compute; reflexivity).
  split; [exact E|]. exact (proj1 (proj2 (proj2 (proj2 (proj2 (proj2 (AuthProofs.attention_authorization_is_bounded _ _ _ _ E))))))).
Defined.

Definition deriver : Auth.HMACAttachCommitDeriver := Auth.mkDeriver [1; 2; 3] 1.

(** RFC 4231, the second test. *)
Example hmac_known : GoText.hexBytes (Auth.hmac (Json.bytes_of "Jefe") (Json.bytes_of "what do ya want for nothing?"))
  = "5bdcc146bf60754e6a042426089575c75a003f089d2739839dec58b964ec3843".
Proof. vm_compute. reflexivity. Qed.

Definition material : Auth.AttachCommitMaterial :=
  match Auth.DeriveAttachCommit deriver grant0 with inr m => m | inl _ => Auth.Commit grant0 end.

Definition withFence (fence : Z) : Auth.AttachGrant :=
  Auth.mkGrant "hub" "jti" "attach" "s" "fresh" "p" 100 200 190 fence material.

Lemma material_fits_only_its_claims_witness :
  Auth.ValidateAttachCommitMaterial (withFence 8) = None
  ∧ (Auth.ValidateAttachCommitMaterial (withFence 9) = None ↔ Auth.attachGrantSnapshotFrom (withFence 9) = Auth.attachGrantSnapshotFrom grant0).
Proof.
  split.
  - vm_compute. reflexivity.
  - apply (AuthProofs.material_fits_only_its_claims deriver grant0 material); [vm_compute; reflexivity|reflexivity|vm_compute; discriminate..].
Defined.

Lemma attach_fingerprint_identifies_witness :
  Auth.attachGrantSnapshotFrom (withFence 8) = Auth.attachGrantSnapshotFrom grant0
  ∨ ∃ a b, a ≠ b ∧ Auth.hmac (Auth.key deriver) a = Auth.hmac (Auth.key deriver) b.
Proof.
  apply (AuthProofs.attach_fingerprint_identifies deriver (withFence 8) grant0 material material); vm_compute; reflexivity.
Defined.

End HandshakeScenarios.
