(* ===== verification/AesGcm.v ===== *)
(** * AES-256 in Galois/counter mode and unpadded URL base64

    What [crypto/aes], [crypto/cipher] and [encoding/base64] compute for sealed
    credentials: [aes.NewCipher] of a 32-byte key with [cipher.NewGCM], and
    [base64.RawURLEncoding].  Opening what was sealed gives the plaintext back,
    and decoding what was encoded gives the bytes back. *)

From S2P Require Import Prelude Json Wire JsonProofs GoText EncryptedPacket.
From stdpp Require Import base strings list option numbers.
#[local] Open Scope Z_scope.

Module AesGcm.
Import Json JsonProofs GoText EncryptedPacket(base64_value).

(** ** The field of bytes *)

Definition xtime (a : Z) : Z :=
  let b := Z.shiftl a 1 in if bool_decide (b < 256) then b else Z.lxor b 0x11B.

Fixpoint gmulBits (n : nat) (a b : Z) : Z :=
  match n with
  | O => 0
  | S n => Z.lxor (if Z.odd b then a else 0) (gmulBits n (xtime a) (Z.div2 b))
  end.

Definition gmul (a b : Z) : Z := gmulBits 8 a b.

(** The inverse is the 254th power. *)
Definition inverse (a : Z) : Z :=
  let a2 := gmul a a in let a4 := gmul a2 a2 in let a8 := gmul a4 a4 in let a16 := gmul a8 a8 in
  let a32 := gmul a16 a16 in let a64 := gmul a32 a32 in let a128 := gmul a64 a64 in
  gmul a2 (gmul a4 (gmul a8 (gmul a16 (gmul a32 (gmul a64 a128))))).

Definition rotl8 (n a : Z) : Z := Z.land (Z.lor (Z.shiftl a n) (Z.shiftr a (8 - n))) 255.

Definition substitute (a : Z) : Z :=
  let b := inverse a in
  Z.lxor b (Z.lxor (rotl8 1 b) (Z.lxor (rotl8 2 b) (Z.lxor (rotl8 3 b) (Z.lxor (rotl8 4 b) 0x63)))).

Definition sbox : list Z := Eval vm_compute in substitute <$> seqZ 0 256.

Definition subByte (a : Z) : Z := nth (Z.to_nat a) sbox 0.

(** ** The block cipher *)

Definition xorBytes (a b : list Z) : list Z := zip_with Z.lxor a b.

(** Eight words of the key schedule from the eight before them. *)
Fixpoint chainWords (i : nat) (previous : list Z) (words : list (list Z)) : list (list Z) :=
  match words with
  | [] => []
  | w :: words =>
      let previous := if bool_decide (i = 4%nat) then subByte <$> previous else previous in
      let w := xorBytes w previous in w :: chainWords (S i) w words
  end.

Definition nextWords (rcon : Z) (words : list (list Z)) : list (list Z) :=
  match default [] (list.last words) with
  | [a; b; c; d] =>
      chainWords 0 [Z.lxor (subByte b) rcon; subByte c; subByte d; subByte a] words
  | _ => []
  end.

Fixpoint schedule (n : nat) (rcon : Z) (words : list (list Z)) : list (list Z) :=
  match n with
  | O => words
  | S n => words ++ schedule n (xtime rcon) (nextWords rcon words)
  end.

Fixpoint chunks (n fuel : nat) (l : list Z) : list (list Z) :=
  match fuel, l with
  | S fuel, _ :: _ => take n l :: chunks n fuel (drop n l)
  | _, _ => []
  end.

(** The fifteen round keys. *)
Definition roundKeys (key : list Z) : list (list Z) :=
  take 15 (chunks 16 16 (concat (schedule 7 1 (chunks 4 8 key)))).

Definition shiftRows (s : list Z) : list Z :=
  (λ i, nth ((i + 4 * (i mod 4)) mod 16)%nat s 0) <$> seq 0 16.

Definition mixColumn (c : list Z) : list Z :=
  match c with
  | [a; b; c; d] =>
      let f x y z w := Z.lxor (xtime x) (Z.lxor (Z.lxor (xtime y) y) (Z.lxor z w)) in
      [f a b c d; f b c d a; f c d a b; f d a b c]
  | _ => c
  end.

Definition mixColumns (s : list Z) : list Z := chunks 4 4 s ≫= mixColumn.

Fixpoint rounds (s : list Z) (keys : list (list Z)) : list Z :=
  match keys with
  | [] => s
  | [k] => xorBytes (shiftRows (subByte <$> s)) k
  | k :: keys => rounds (xorBytes (mixColumns (shiftRows (subByte <$> s))) k) keys
  end.

Definition encryptBlock (keys : list (list Z)) (block : list Z) : list Z :=
  match keys with
  | [] => block
  | k :: keys => rounds (xorBytes block k) keys
  end.

(** ** Galois/counter mode *)

Definition reduction : Z := Z.shiftl 0xE1 120.

Fixpoint mulBits (n : nat) (x v : Z) : Z :=
  match n with
  | O => 0
  | S n =>
      Z.lxor (if Z.testbit x (Z.of_nat n) then v else 0)
        (mulBits n x (if Z.odd v then Z.lxor (Z.shiftr v 1) reduction else Z.shiftr v 1))
  end.

Definition ghash (h : Z) (blocks : list (list Z)) : Z :=
  foldl (λ y block, mulBits 128 (Z.lxor y (bigEndianValue block)) h) 0 blocks.

Definition padded (l : list Z) : list (list Z) :=
  (λ b, b ++ replicate (16 - length b) 0) <$> chunks 16 (length l) l.

Definition tagSize : nat := 16.
Definition NonceSize : nat := 12.

Definition tag (keys : list (list Z)) (nonce ciphertext additional : list Z) : list Z :=
  let h := bigEndianValue (encryptBlock keys (replicate 16 0)) in
  let lengths := bigEndian 8 (8 * Z.of_nat (length additional)) ++ bigEndian 8 (8 * Z.of_nat (length ciphertext)) in
  let s := ghash h (padded additional ++ padded ciphertext ++ [lengths]) in
  xorBytes (bigEndian 16 s) (encryptBlock keys (nonce ++ bigEndian 4 1)).

Definition keystream (keys : list (list Z)) (nonce : list Z) (n : nat) : list Z :=
  seqZ 2 (Z.of_nat (n / 16 + 1)) ≫= λ i, encryptBlock keys (nonce ++ bigEndian 4 i).

Definition Seal (key nonce plaintext additional : list Z) : list Z :=
  let keys := roundKeys key in
  let ciphertext := xorBytes plaintext (keystream keys nonce (length plaintext)) in
  ciphertext ++ tag keys nonce ciphertext additional.

Definition Open (key nonce sealed additional : list Z) : option (list Z) :=
  if bool_decide (length sealed < tagSize)%nat then None
  else
    let keys := roundKeys key in
    let ciphertext := take (length sealed - tagSize) sealed in
    if bool_decide (drop (length sealed - tagSize) sealed = tag keys nonce ciphertext additional)
    then Some (xorBytes ciphertext (keystream keys nonce (length ciphertext))) else None.

Example sealed_zeros :
  GoText.hexBytes (Seal (replicate 32 0) (replicate 12 0) (replicate 16 0) [])
  = "cea7403d4d606b6e074ec5d3baf39d18d0d1c8a799996bf0265b98b5d48ab919".
Proof. vm_compute. reflexivity. Qed.

(** ** Sizes *)

Definition sized (n : nat) (l : list Z) : Prop := length l = n.

Lemma length_xorBytes a b : length (xorBytes a b) = Nat.min (length a) (length b).
Proof. apply length_zip_with. Qed.

Lemma chunks_sized n k fuel l : (0 < n)%nat → length l = (n * k)%nat → (k ≤ fuel)%nat →
  length (chunks n fuel l) = k ∧ Forall (sized n) (chunks n fuel l).
Proof.
  intros Hn. revert fuel l. induction k as [|k IH]; intros fuel l Hl Hf.
  - assert (l = []) as -> by (apply nil_length_inv; lia). destruct fuel; by repeat constructor.
  - destruct fuel as [|fuel]; [lia|]. destruct l as [|x l]; [cbn in Hl; lia|]. cbn [chunks].
    destruct (IH fuel (drop n (x :: l))) as [H1 H2]; [rewrite length_drop; lia|lia|]. split; [cbn; by rewrite H1|].
    constructor; [|done]. unfold sized. rewrite length_take. lia.
Qed.

Lemma chain_sized i previous words :
  sized 4 previous → Forall (sized 4) words → length (chainWords i previous words) = length words ∧ Forall (sized 4) (chainWords i previous words).
Proof.
  revert i previous. induction words as [|w words IH]; intros i previous Hp Hw; [done|]. apply list.Forall_cons in Hw as [H1 Hw].
  cbn [chainWords]. set (p := if bool_decide (i = 4%nat) then subByte <$> previous else previous). assert (sized 4 (xorBytes w p)) as Hx.
  { unfold sized in *. rewrite length_xorBytes, H1. unfold p. case_bool_decide; rewrite ?length_fmap, Hp; done. }
  destruct (IH (S i) _ Hx Hw) as [Hl Hf]. split; [cbn; by rewrite Hl|by constructor].
Qed.

Lemma next_sized rcon words :
  words ≠ [] → Forall (sized 4) words → length (nextWords rcon words) = length words ∧ Forall (sized 4) (nextWords rcon words).
Proof.
  intros Hne Hw. unfold nextWords. destruct words as [|w ws _] using rev_ind; [done|]. rewrite last_snoc. cbn [default from_option].
  pose proof Hw as [_ [H4 _]%list.Forall_cons]%list.Forall_app. unfold sized in H4.
  destruct w as [|a [|b [|c [|d [|]]]]]; try done. by apply chain_sized.
Qed.

Lemma schedule_sized n rcon words :
  words ≠ [] → Forall (sized 4) words →
  length (schedule n rcon words) = (S n * length words)%nat ∧ Forall (sized 4) (schedule n rcon words).
Proof.
  revert rcon words. induction n as [|n IH]; intros rcon words Hne Hw; cbn [schedule]; [split; [lia|done]|].
  destruct (next_sized rcon words Hne Hw) as [Hl Hf].
  destruct (IH (xtime rcon) (nextWords rcon words)) as [H1 H2]; [intros E; rewrite E in Hl; by destruct words|done|].
  split; [rewrite length_app, H1, Hl; lia|by apply list.Forall_app].
Qed.

Lemma concat_sized n (ls : list (list Z)) : Forall (sized n) ls → length (concat ls) = (length ls * n)%nat.
Proof. induction 1 as [|l ls Hl _ IH]; [done|]. cbn. rewrite length_app, IH, Hl. done. Qed.

Lemma roundKeys_sized key : length key = 32%nat → ∃ k ks, roundKeys key = k :: ks ∧ ks ≠ [] ∧ Forall (sized 16) ks.
Proof.
  intros Hk. unfold roundKeys. destruct (chunks_sized 4 8 8 key) as [H1 H2]; [lia..|].
  destruct (schedule_sized 7 1 (chunks 4 8 key)) as [H3 H4]; [intros E; by rewrite E in H1|done|].
  destruct (chunks_sized 16 16 16 (concat (schedule 7 1 (chunks 4 8 key)))) as [H5 H6]; [lia| |lia|].
  { rewrite (concat_sized 4), H3, H1 by done. done. }
  destruct (chunks 16 16 _) as [|k [|k' ks]]; [done|done|]. apply list.Forall_cons in H6 as [_ H6].
  exists k, (take 14 (k' :: ks)). split_and!; try done. by apply Forall_take.
Qed.

Lemma length_shiftRows s : length (shiftRows s) = 16%nat.
Proof. unfold shiftRows. by rewrite length_fmap, length_seq. Qed.

Lemma length_mixColumns s : length s = 16%nat → length (mixColumns s) = 16%nat.
Proof.
  intros Hs. unfold mixColumns. destruct (chunks_sized 4 4 4 s) as [H1 H2]; [lia..|].
  assert (∀ cs, Forall (sized 4) cs → length (cs ≫= mixColumn) = (length cs * 4)%nat) as E; [|by rewrite E, H1].
  induction 1 as [|c cs Hc _ IH]; [done|]. cbn [mbind list_bind]. rewrite length_app, IH. unfold sized in Hc.
  destruct c as [|? [|? [|? [|? [|]]]]]; done.
Qed.

Lemma length_rounds s keys : keys ≠ [] → Forall (sized 16) keys → length (rounds s keys) = 16%nat.
Proof.
  intros Hne Hk. revert s. induction Hk as [|k keys Hk Hks IH]; intros s; [done|]. destruct keys as [|k' keys].
  - cbn [rounds]. rewrite length_xorBytes, length_shiftRows. unfold sized in Hk. by rewrite Hk.
  - cbn [rounds]. by apply IH.
Qed.

Lemma length_encryptBlock key block : length key = 32%nat → length (encryptBlock (roundKeys key) block) = 16%nat.
Proof. intros (k & ks & -> & Hne & Hks)%roundKeys_sized. by apply length_rounds. Qed.

Lemma length_keystream key nonce n : length key = 32%nat → (n ≤ length (keystream (roundKeys key) nonce n))%nat.
Proof.
  intros Hk. unfold keystream.
  assert (∀ l : list Z, length (l ≫= λ i, encryptBlock (roundKeys key) (nonce ++ bigEndian 4 i)) = (length l * 16)%nat) as ->.
  { induction l as [|i l IH]; [done|]. cbn [mbind list_bind]. rewrite length_app, IH, length_encryptBlock by done. done. }
  rewrite length_seqZ. pose proof (Nat.div_mod n 16). pose proof (Nat.mod_upper_bound n 16). lia.
Qed.

Lemma length_tag key nonce ciphertext additional : length key = 32%nat → length (tag (roundKeys key) nonce ciphertext additional) = tagSize.
Proof. intros Hk. unfold tag. rewrite length_xorBytes, length_bigEndian, length_encryptBlock by done. done. Qed.

Lemma xorBytes_involutive a k : (length a ≤ length k)%nat → xorBytes (xorBytes a k) k = a.
Proof.
  revert k. induction a as [|x a IH]; intros [|y k] H; cbn in H; try done; [lia|]. unfold xorBytes in *. cbn [zip_with].
  rewrite IH by lia. by rewrite Z.lxor_assoc, Z.lxor_nilpotent, Z.lxor_0_r.
Qed.

(** Opening what was sealed under the same key, nonce and additional data. *)
Lemma open_seal key nonce plaintext additional :
  length key = 32%nat → Open key nonce (Seal key nonce plaintext additional) additional = Some plaintext.
Proof.
  intros Hk. unfold Open, Seal. set (c := xorBytes plaintext _). set (t := tag _ _ c _).
  assert (length t = tagSize) as Ht by by apply length_tag.
  rewrite bool_decide_false by (rewrite length_app; lia).
  assert (length (c ++ t) - tagSize = length c)%nat as -> by (rewrite length_app; lia).
  rewrite take_app_length, drop_app_length, bool_decide_true by done. f_equal.
  assert (length c = length plaintext) as Hc.
  { unfold c. rewrite length_xorBytes. pose proof (length_keystream key nonce (length plaintext) Hk). lia. }
  rewrite Hc. apply xorBytes_involutive, length_keystream, Hk.
Qed.

Lemma length_Seal key nonce plaintext additional :
  length key = 32%nat → length (Seal key nonce plaintext additional) = (length plaintext + tagSize)%nat.
Proof.
  intros Hk. unfold Seal. rewrite length_app, length_tag, length_xorBytes by done.
  pose proof (length_keystream key nonce (length plaintext) Hk). lia.
Qed.

(** ** Unpadded URL base64 *)

Fixpoint sextets (l : list Z) : list Z :=
  match l with
  | a :: b :: c :: l => [a / 4; a mod 4 * 16 + b / 16; b mod 16 * 4 + c / 64; c mod 64] ++ sextets l
  | [a; b] => [a / 4; a mod 4 * 16 + b / 16; b mod 16 * 4]
  | [a] => [a / 4; a mod 4 * 16]
  | [] => []
  end.

Definition base64_char (v : Z) : Z :=
  if bool_decide (v < 26) then 65 + v
  else if bool_decide (v < 52) then 97 + (v - 26)
  else if bool_decide (v < 62) then 48 + (v - 52)
  else if bool_decide (v = 62) then 45 else 95.

Definition EncodeToString (l : list Z) : string := string_of (base64_char <$> sextets l).

Fixpoint octets (l : list Z) : option (list Z) :=
  match l with
  | a :: b :: c :: d :: l => cons (a * 4 + b / 16) <$> (cons (b mod 16 * 16 + c / 4) <$> (cons (c mod 4 * 64 + d) <$> octets l))
  | [a; b; c] => Some [a * 4 + b / 16; b mod 16 * 16 + c / 4]
  | [a; b] => Some [a * 4 + b / 16]
  | [_] => None
  | [] => Some []
  end.

(** The decoder skips line breaks and does not look at unused low bits. *)
Definition DecodeString (s : string) : option (list Z) :=
  mapM base64_value (filter (λ c, c ≠ 10 ∧ c ≠ 13) (bytes_of s)) ≫= octets.

Lemma octets_sextets l : Forall is_byte l → octets (sextets l) = Some l.
Proof.
  remember (length l) as n eqn:En. assert (length l ≤ n)%nat as Hn by lia. clear En. revert l Hn.
  induction n as [|n IH]; intros l Hn Hl; [destruct l; [done|cbn in Hn; lia]|].
  destruct l as [|a [|b [|c l]]]; [done|..]; repeat (apply list.Forall_cons in Hl as [? Hl]); unfold is_byte in *.
  - cbn -[Z.div Z.modulo Z.mul Z.add]. do 2 f_equal. Z.div_mod_to_equations; lia.
  - cbn -[Z.div Z.modulo Z.mul Z.add]. do 2 f_equal; [Z.div_mod_to_equations; lia|]. f_equal. Z.div_mod_to_equations; lia.
  - cbn [sextets app octets]. rewrite IH by (cbn in Hn; lia || done). cbn -[Z.div Z.modulo Z.mul Z.add].
    do 2 f_equal; [Z.div_mod_to_equations; lia|]. f_equal; [Z.div_mod_to_equations; lia|]. f_equal. Z.div_mod_to_equations; lia.
Qed.

Lemma sextets_range l : Forall is_byte l → Forall (λ v, 0 ≤ v < 64) (sextets l).
Proof.
  remember (length l) as n eqn:En. assert (length l ≤ n)%nat as Hn by lia. clear En. revert l Hn.
  induction n as [|n IH]; intros l Hn Hl; [destruct l; [constructor|cbn in Hn; lia]|].
  destruct l as [|a [|b [|c l]]]; [constructor|..]; repeat (apply list.Forall_cons in Hl as [? Hl]); unfold is_byte in *;
    cbn -[Z.div Z.modulo Z.mul Z.add]; repeat (constructor; [Z.div_mod_to_equations; lia|]); try constructor.
  apply IH; [cbn in Hn; lia|done].
Qed.

Lemma base64_value_char v : 0 ≤ v < 64 → base64_value (base64_char v) = Some v ∧ is_byte (base64_char v) ∧ base64_char v ≠ 10 ∧ base64_char v ≠ 13.
Proof.
  intros Hv. assert (bool_decide (Forall (λ v, base64_value (base64_char v) = Some v ∧ 0 ≤ base64_char v < 256 ∧ base64_char v ≠ 10 ∧ base64_char v ≠ 13)
    (seqZ 0 64)) = true) as H by (vm_compute; reflexivity).
  apply bool_decide_eq_true in H. rewrite list.Forall_forall in H. destruct (H v) as (? & ? & ? & ?); [by apply elem_of_seqZ|]. done.
Qed.

(** Decoding what was encoded. *)
Lemma decode_encode l : Forall is_byte l → DecodeString (EncodeToString l) = Some l.
Proof.
  intros Hl. pose proof (sextets_range _ Hl) as Hr. unfold DecodeString, EncodeToString. rewrite bytes_of_string_of.
  - assert (mapM base64_value (filter (λ c, c ≠ 10 ∧ c ≠ 13) (base64_char <$> sextets l)) = Some (sextets l)) as ->;
      [|cbn; by apply octets_sextets].
    induction Hr as [|v vs Hv _ IH]; [done|]. destruct (base64_value_char v Hv) as (E & _ & ? & ?).
    rewrite fmap_cons, filter_cons_True by done. cbn [mapM]. rewrite E. cbn. by rewrite IH.
  - induction Hr as [|v vs Hv _ IH]; [constructor|]. destruct (base64_value_char v Hv) as (_ & ? & _). by constructor.
Qed.

End AesGcm.
