(* ===== verification/CredentialIssuer.v ===== *)
(** * The local issuer of session credentials

    [auth/session_credential_issuer.go]: bearers sealed under the issuer's key,
    the bounded tables of prepared, pending, active and retired bearers, and
    what the issuer accepts.  The time is an argument of every call; the entry
    that a full table of retired bearers loses is an argument too, as Go's map
    iteration may start anywhere. *)

From S2P Require Import Prelude Json Wire GoText Sha256 EncryptedPacket Auth AesGcm.
From stdpp Require Import base gmap strings list option.
#[local] Open Scope Z_scope.

Module CredentialIssuer.
Import Json Wire GoText Sha256 AesGcm.

Definition sealedSessionCredentialDomain : string := "agentwharf.session-credential.v2".
Definition maxLocalSessionCredentials : nat := 128.

(** ** Credentials *)

Definition SessionCredentialBootstrapInitial : string := "bootstrap_initial".
Definition SessionCredentialTargetAttach : string := "target_attach".
Definition SessionCredentialTargetRotation : string := "target_rotation".

Record SessionCredentialLineage := mkLineage { ln_Kind : string; ln_AttachID : string; ln_JTI : string }.

#[global] Instance SessionCredentialLineage_eq_dec : EqDecision SessionCredentialLineage.
Proof. solve_decision. Defined.

Record SessionCredentialRequest := mkRequest {
  rq_SessionID : string;
  rq_Lineage : SessionCredentialLineage;
  rq_Generation : Z;
  rq_RotationID : string;
  rq_RevocationID : string;
  rq_ExpiresAt : time;
}.

Record PreparedSessionCredential := mkPrepared {
  Bearer : string;
  pr_SessionID : string;
  pr_Lineage : SessionCredentialLineage;
  pr_Generation : Z;
  pr_RotationID : string;
  pr_RevocationID : string;
  pr_ExpiresAt : time;
  pr_Scope : Auth.Scope;
}.

#[global] Instance PreparedSessionCredential_eq_dec : EqDecision PreparedSessionCredential.
Proof. solve_decision. Defined.

Record SessionCredentialEvidence := mkEvidence {
  ev_SessionID : string;
  ev_Lineage : SessionCredentialLineage;
  ev_Generation : Z;
  ev_RotationID : string;
  ev_RevocationID : string;
  ev_ExpiresAt : time;
}.

Definition preparedFrom (bearer : string) (request : SessionCredentialRequest) : PreparedSessionCredential :=
  mkPrepared bearer (rq_SessionID request) (rq_Lineage request) (rq_Generation request) (rq_RotationID request)
    (rq_RevocationID request) (rq_ExpiresAt request) (Auth.SessionAdapter (rq_SessionID request)).

Definition validSessionCredentialRequest (request : SessionCredentialRequest) (now : time) : bool :=
  let lineage := rq_Lineage request in
  bool_decide (rq_SessionID request ≠ "") && bool_decide (1 ≤ rq_Generation request) && bool_decide (rq_RotationID request ≠ "")
  && bool_decide (rq_RevocationID request ≠ "") && negb (IsZero (rq_ExpiresAt request)) && After (rq_ExpiresAt request) now
  && Auth.boundedAttachGrantStrings [rq_SessionID request; ln_AttachID lineage; ln_JTI lineage; rq_RotationID request; rq_RevocationID request]
  && if bool_decide (ln_Kind lineage = SessionCredentialBootstrapInitial) then bool_decide (ln_AttachID lineage = "") && bool_decide (ln_JTI lineage = "")
     else if bool_decide (ln_Kind lineage = SessionCredentialTargetAttach) then bool_decide (ln_AttachID lineage ≠ "") && bool_decide (ln_JTI lineage ≠ "")
     else if bool_decide (ln_Kind lineage = SessionCredentialTargetRotation) then bool_decide (ln_AttachID lineage ≠ "") && bool_decide (ln_JTI lineage = "")
     else false.

(** A zero byte separates the parts. *)
Definition localSessionCredentialLineage (sessionID : string) (lineage : SessionCredentialLineage) : string :=
  sessionID +:+ string_of [0] +:+ ln_Kind lineage.

(** ** Sealed bearers *)

Record sealedSessionCredential := mkSealed {
  sl_KeyVersion : Z;
  sl_SessionID : string;
  sl_LineageKind : string;
  sl_AttachID : string;
  sl_JTI : string;
  sl_Generation : Z;
  sl_RotationID : string;
  sl_RevocationID : string;
  sl_ExpiresAtNS : Z;
}.

Definition sl_fields (v : sealedSessionCredential) : list (option (list (string * string))) :=
  [out "key_version" (sl_KeyVersion v); out "session_id" (sl_SessionID v); out "lineage_kind" (sl_LineageKind v);
   out "attach_id" (sl_AttachID v); out "jti" (sl_JTI v); out "generation" (sl_Generation v);
   out "rotation_id" (sl_RotationID v); out "revocation_id" (sl_RevocationID v); out "expires_at_ns" (sl_ExpiresAtNS v)].

Definition sl_names : list string :=
  ["key_version"; "session_id"; "lineage_kind"; "attach_id"; "jti"; "generation"; "rotation_id"; "revocation_id"; "expires_at_ns"].

Definition sl_decode (ms : fields) (old : sealedSessionCredential) : option sealedSessionCredential :=
  v0 ← member sl_names "key_version" ms (sl_KeyVersion old);
  v1 ← member sl_names "session_id" ms (sl_SessionID old);
  v2 ← member sl_names "lineage_kind" ms (sl_LineageKind old);
  v3 ← member sl_names "attach_id" ms (sl_AttachID old);
  v4 ← member sl_names "jti" ms (sl_JTI old);
  v5 ← member sl_names "generation" ms (sl_Generation old);
  v6 ← member sl_names "rotation_id" ms (sl_RotationID old);
  v7 ← member sl_names "revocation_id" ms (sl_RevocationID old);
  v8 ← member sl_names "expires_at_ns" ms (sl_ExpiresAtNS old);
  Some (mkSealed v0 v1 v2 v3 v4 v5 v6 v7 v8).

#[global] Instance sl_json : GoJson sealedSessionCredential := {
  zero := mkSealed zero zero zero zero zero zero zero zero zero;
  isEmpty _ := false;
  unmarshal := unmarshalStruct sl_decode;
  marshal v := struct (sl_fields v);
}.

Definition sealedFrom (keyVersion : Z) (request : SessionCredentialRequest) : sealedSessionCredential :=
  mkSealed keyVersion (rq_SessionID request) (ln_Kind (rq_Lineage request)) (ln_AttachID (rq_Lineage request))
    (ln_JTI (rq_Lineage request)) (rq_Generation request) (rq_RotationID request) (rq_RevocationID request)
    (UnixNano (rq_ExpiresAt request)).

Definition requestFrom (v : sealedSessionCredential) : SessionCredentialRequest :=
  mkRequest (sl_SessionID v) (mkLineage (sl_LineageKind v) (sl_AttachID v) (sl_JTI v)) (sl_Generation v) (sl_RotationID v)
    (sl_RevocationID v) (sl_ExpiresAtNS v).

Definition sessionCredentialSealKey (key : list Z) : list Z :=
  Sum256 (bytes_of sealedSessionCredentialDomain ++ 0 :: key).

Definition bearerPrefix : string := "awsc_v2_".

(** The nonce is derived from the payload. *)
Definition nonceOf (key payload : list Z) : list Z :=
  take NonceSize (Auth.hmac key (Auth.writeAttachCommitField sealedSessionCredentialDomain ++ payload)).

Definition sealSessionCredential (key : list Z) (keyVersion : Z) (request : SessionCredentialRequest) : option string :=
  payload ← marshal (sealedFrom keyVersion request);
  let payload := bytes_of payload in
  let nonce := nonceOf key payload in
  Some (bearerPrefix +:+ EncodeToString
          (nonce ++ Seal (sessionCredentialSealKey key) nonce payload (bytes_of sealedSessionCredentialDomain))).

Definition openSessionCredential (key : list Z) (keyVersion : Z) (bearer : string) (now : time) : option PreparedSessionCredential :=
  if bool_decide (len bearer ≤ len bearerPrefix) || negb (HasPrefix bearer bearerPrefix) then None
  else
    encoded ← DecodeString (TrimPrefix bearer bearerPrefix);
    if bool_decide (length encoded ≤ NonceSize)%nat then None
    else
      payload ← Open (sessionCredentialSealKey key) (take NonceSize encoded) (drop NonceSize encoded) (bytes_of sealedSessionCredentialDomain);
      sealed ← Unmarshal (string_of payload) (zero : sealedSessionCredential);
      let request := requestFrom sealed in
      if bool_decide (sl_KeyVersion sealed = keyVersion) && validSessionCredentialRequest request now
      then Some (preparedFrom bearer request) else None.

(** ** The issuer *)

Record issuer := mkIssuer {
  key : list Z;
  keyVersion : Z;
  prepared : gmap string PreparedSessionCredential;
  pending : gset string;
  active : gmap string string;
  retired : gset string;
}.

Definition NewLocalSessionCredentialIssuer (key : list Z) (keyVersion : Z) : option issuer :=
  if bool_decide (key = []) || bool_decide (keyVersion < 1) then None else Some (mkIssuer key keyVersion ∅ ∅ ∅ ∅).

Definition lineageOf (p : PreparedSessionCredential) : string := localSessionCredentialLineage (pr_SessionID p) (pr_Lineage p).

(** [issuer.active\[lineage\]]: the empty bearer when there is none. *)
Definition activeOf (s : issuer) (lineage : string) : string := default "" (active s !! lineage).

Definition withTables (s : issuer) (p : gmap string PreparedSessionCredential) (pend : gset string) (act : gmap string string) (r : gset string) : issuer :=
  mkIssuer (key s) (keyVersion s) p pend act r.

(** Expired bearers leave the tables. *)
Definition expired (now : time) (p : PreparedSessionCredential) : bool := negb (After (pr_ExpiresAt p) now).

Definition discardExpired (s : issuer) (now : time) : issuer :=
  let gone b := match prepared s !! b with Some p => expired now p | None => false end in
  withTables s
    (filter (λ bp : string * PreparedSessionCredential, expired now bp.2 = false) (prepared s))
    (filter (λ b, gone b = false) (pending s))
    (filter (λ lb : string * string, ¬ (gone lb.2 = true ∧ lineageOf <$> prepared s !! lb.2 = Some lb.1)) (active s))
    (retired s).

Definition retire (s : issuer) (victim bearer : string) : issuer :=
  if bool_decide (bearer = "") then s
  else
    let kept := if bool_decide (maxLocalSessionCredentials ≤ size (retired s))%nat then retired s ∖ {[victim]} else retired s in
    withTables s (prepared s) (pending s) (active s) (kept ∪ {[bearer]}).

Definition PrepareSessionCredential (s : issuer) (request : SessionCredentialRequest) (now now' : time)
    : issuer * option PreparedSessionCredential :=
  if bool_decide (key s = []) || bool_decide (keyVersion s < 1) || negb (validSessionCredentialRequest request now) then (s, None)
  else match sealSessionCredential (key s) (keyVersion s) request with
       | None => (s, None)
       | Some bearer =>
           let p := preparedFrom bearer request in
           let s := discardExpired s now' in
           match prepared s !! bearer with
           | Some known => (s, Some known)
           | None =>
               if bool_decide (maxLocalSessionCredentials ≤ size (prepared s))%nat then (s, None)
               else (withTables s (<[bearer := p]> (prepared s)) (pending s ∪ {[bearer]}) (active s) (retired s), Some p)
           end
       end.

Definition ActivateSessionCredential (s : issuer) (p : PreparedSessionCredential) (victim : string) (now : time) : issuer * bool :=
  if bool_decide (Bearer p = "") then (s, false)
  else
    let s := discardExpired s now in
    if bool_decide (prepared s !! Bearer p = Some p) then
      let lineage := lineageOf p in
      let current := activeOf s lineage in
      let s := if bool_decide (current ≠ "") && bool_decide (current ≠ Bearer p)
               then let r := retire s victim current in withTables r (delete current (prepared r)) (pending r) (active r) (retired r)
               else s in
      (withTables s (prepared s) (pending s ∖ {[Bearer p]}) (<[lineage := Bearer p]> (active s)) (retired s), true)
    else (s, false).

Definition ValidateSessionCredentialActivation (s : issuer) (p : PreparedSessionCredential) (now now' : time) : issuer * bool :=
  if bool_decide (Bearer p = "") || negb (After (pr_ExpiresAt p) now) then (s, false)
  else let s := discardExpired s now' in (s, bool_decide (prepared s !! Bearer p = Some p)).

Definition DiscardSessionCredential (s : issuer) (p : PreparedSessionCredential) (victim : string) : issuer :=
  if bool_decide (Bearer p = "") || bool_decide (prepared s !! Bearer p ≠ Some p) then s
  else
    let s := withTables s (delete (Bearer p) (prepared s)) (pending s ∖ {[Bearer p]}) (active s) (retired s) in
    let s := retire s victim (Bearer p) in
    if bool_decide (activeOf s (lineageOf p) = Bearer p)
    then withTables s (prepared s) (pending s) (delete (lineageOf p) (active s)) (retired s) else s.

Definition ActiveSessionCredential (s : issuer) (bearer : string) (now now' : time) : issuer * option PreparedSessionCredential :=
  if bool_decide (bearer = "") then (s, None)
  else
    let s := discardExpired s now in
    (s, match prepared s !! bearer with
        | Some p => if bool_decide (activeOf s (lineageOf p) = bearer) then Some p else None
        | None => if bool_decide (bearer ∈ retired s) then None else openSessionCredential (key s) (keyVersion s) bearer now'
        end).

Definition AuthenticateSessionCredential (s : issuer) (bearer : string) (now now' : time) : issuer * option Auth.Principal :=
  let '(s, r) := ActiveSessionCredential s bearer now now' in
  (s, (λ p, Auth.mkPrincipal "local-session-credential" [pr_Scope p] None None (Auth.mkScope "" "" "")) <$> r).

Definition SessionCredentialEvidenceOf (s : issuer) (bearer : string) (now now' : time) : issuer * option SessionCredentialEvidence :=
  let '(s, r) := ActiveSessionCredential s bearer now now' in
  (s, (λ p, mkEvidence (pr_SessionID p) (pr_Lineage p) (pr_Generation p) (pr_RotationID p) (pr_RevocationID p) (pr_ExpiresAt p)) <$> r).

(** ** Calls *)

Inductive call :=
  | Prepare (request : SessionCredentialRequest) (now now' : time)
  | Activate (p : PreparedSessionCredential) (victim : string) (now : time)
  | CheckActivation (p : PreparedSessionCredential) (now now' : time)
  | Discard (p : PreparedSessionCredential) (victim : string)
  | Resolve (bearer : string) (now now' : time).

Definition step (s : issuer) (c : call) : issuer :=
  match c with
  | Prepare request now now' => (PrepareSessionCredential s request now now').1
  | Activate p victim now => (ActivateSessionCredential s p victim now).1
  | CheckActivation p now now' => (ValidateSessionCredentialActivation s p now now').1
  | Discard p victim => DiscardSessionCredential s p victim
  | Resolve bearer now now' => (ActiveSessionCredential s bearer now now').1
  end.

End CredentialIssuer.
