(* ===== verification/CredentialIssuerProofs.v ===== *)
(** * Properties of the credential issuer

    A sealed bearer opens to the credential it was made from under every issuer
    with the same key; the tables stay consistent and bounded; and what is
    accepted is the active bearer of its lineage or a sealed one the issuer
    neither holds nor has retired. *)

From S2P Require Import Prelude Json Wire JsonProofs WireProofs Printable GoText Sha256 EncryptedPacket FrameFields CodecFingerprints Auth AuthProofs AesGcm CredentialIssuer.
From stdpp Require Import base gmap strings list option.
#[local] Open Scope Z_scope.

Module CredentialIssuerProofs.
Import Json Wire JsonProofs WireProofs Printable GoText Sha256 FrameFields CodecFingerprints AesGcm CredentialIssuer.

(** ** The payload *)

Definition sl_desc (v : sealedSessionCredential) : list fieldv :=
  [fv "key_version" false (sl_KeyVersion v); fv "session_id" false (sl_SessionID v); fv "lineage_kind" false (sl_LineageKind v);
   fv "attach_id" false (sl_AttachID v); fv "jti" false (sl_JTI v); fv "generation" false (sl_Generation v);
   fv "rotation_id" false (sl_RotationID v); fv "revocation_id" false (sl_RevocationID v); fv "expires_at_ns" false (sl_ExpiresAtNS v)].

#[global] Program Instance sl_printable : Printable sealedSessionCredential := {
  ok v := Forall fv_ok (sl_desc v); depth_of := S 0; nullable := false }.
Next Obligation.
  intros v. apply (struct_printed 0 (sl_desc v) v sl_decode); solve_struct.
Qed.

(** A printed value is read back at the top. *)
Lemma Unmarshal_printed {A} `{Printable A} (a : A) t :
  ok a → (depth_of (A := A) ≤ maxNestingDepth)%nat → marshal a = Some t → Unmarshal t zero = Some a.
Proof.
  intros Ha Hd Ht. destruct (printed a Ha) as (r & Hm & Hc & Hn & Hu & _). rewrite Hm in Ht. injection Ht as <-.
  unfold Unmarshal. pose proof (canonical_rawValue (text r) (ast r) (fuel_of (bytes_of (text r))) maxNestingDepth [] Hc delimited_nil) as Hraw.
  rewrite app_nil_r in Hraw. rewrite Hraw by lia. cbn [mbind option_bind]. rewrite (parse_canonical _ _ Hc) by lia. cbn. by destruct r.
Qed.

(** What JSON can carry. *)
Definition printableRequest (keyVersion : Z) (r : SessionCredentialRequest) : bool :=
  in_i64 keyVersion && in_i64 (rq_Generation r) && in_i64 (rq_ExpiresAt r) && ValidString (rq_SessionID r)
  && ValidString (ln_AttachID (rq_Lineage r)) && ValidString (ln_JTI (rq_Lineage r)) && ValidString (rq_RotationID r)
  && ValidString (rq_RevocationID r).

Lemma valid_kind r now : validSessionCredentialRequest r now = true → ValidString (ln_Kind (rq_Lineage r)) = true.
Proof.
  unfold validSessionCredentialRequest. rewrite andb_true_iff. intros [_ H]. repeat case_bool_decide; try done;
    match goal with E : ln_Kind _ = _ |- _ => rewrite E; vm_compute; reflexivity end.
Qed.

Lemma i64_unix t : in_i64 t = true → UnixNano t = t.
Proof. unfold in_i64, UnixNano. rewrite bool_decide_eq_true. apply i64_small. Qed.

Lemma sealed_ok kv r now :
  printableRequest kv r = true → validSessionCredentialRequest r now = true → ok (sealedFrom kv r).
Proof.
  intros Hp Hv%valid_kind. unfold printableRequest in Hp. rewrite !andb_true_iff in Hp. destruct_and!.
  change (Forall fv_ok (sl_desc (sealedFrom kv r))). unfold sl_desc, sealedFrom. rewrite i64_unix by done.
  repeat (apply list.Forall_cons; split; [done|]). by apply list.Forall_nil.
Qed.

Lemma requestFrom_sealedFrom kv r : in_i64 (rq_ExpiresAt r) = true → requestFrom (sealedFrom kv r) = r.
Proof. intros Ht. unfold requestFrom, sealedFrom. cbn. rewrite i64_unix by done. by destruct r as [? [] ? ? ? ?]. Qed.

(** ** Sealed bearers *)

Lemma prefixed t : HasPrefix (bearerPrefix +:+ t) bearerPrefix = true ∧ TrimPrefix (bearerPrefix +:+ t) bearerPrefix = t.
Proof.
  assert (strip (bytes_of bearerPrefix) (bytes_of (bearerPrefix +:+ t)) = Some (bytes_of t)) as E by (apply strip_Some, bytes_of_app).
  unfold HasPrefix, TrimPrefix. rewrite E, string_of_bytes_of. by rewrite bool_decide_true.
Qed.

Lemma length_seal_key k : length (sessionCredentialSealKey k) = 32%nat.
Proof. apply AuthProofs.length_Sum256. Qed.

Lemma length_nonce k payload : length (nonceOf k payload) = NonceSize.
Proof. unfold nonceOf, Auth.hmac. rewrite length_take, AuthProofs.length_Sum256. done. Qed.

(** *** Everything is bytes *)

Lemma lxor_byte a b : is_byte a → is_byte b → is_byte (Z.lxor a b).
Proof.
  unfold is_byte. intros Ha Hb. assert (0 ≤ Z.lxor a b) as H0 by (apply Z.lxor_nonneg; lia). split; [done|].
  destruct (decide (Z.lxor a b = 0)) as [->|Hne]; [lia|]. apply (Z.log2_lt_pow2 _ 8); [lia|].
  pose proof (Z.log2_lxor a b ltac:(lia) ltac:(lia)) as Hl.
  assert (∀ x, 0 ≤ x < 256 → Z.log2 x < 8) as Hx; [|pose proof (Hx a Ha); pose proof (Hx b Hb); lia].
  intros x Hx. destruct (decide (x = 0)) as [->|]; [cbn; lia|]. apply Z.log2_lt_pow2; lia.
Qed.

Lemma xorBytes_bytes l m : Forall is_byte l → Forall is_byte m → Forall is_byte (xorBytes l m).
Proof.
  intros Hl. revert m. induction Hl as [|x l Hx _ IH]; intros m Hm; [constructor|]. destruct Hm as [|y m Hy Hm]; [constructor|].
  constructor; [by apply lxor_byte|by apply IH].
Qed.

Lemma subByte_byte x : is_byte (subByte x).
Proof.
  assert (Forall is_byte sbox) as H by (repeat (apply list.Forall_cons; split; [by split|]); by apply list.Forall_nil).
  unfold subByte. generalize (Z.to_nat x) as n. induction H as [|y l Hy _ IH]; intros [|n]; try done. by apply IH.
Qed.

Lemma subBytes_bytes l : Forall is_byte (subByte <$> l).
Proof. induction l; constructor; [apply subByte_byte|done]. Qed.

Lemma chunks_bytes n fuel l : Forall is_byte l → Forall (Forall is_byte) (chunks n fuel l).
Proof.
  revert l. induction fuel as [|fuel IH]; intros [|x l] Hl; try constructor; cbn [chunks]; [by apply Forall_take|by apply IH, Forall_drop].
Qed.

Lemma xtime_byte x : is_byte x → is_byte (xtime x).
Proof.
  intros Hx. assert (bool_decide (Forall (λ x, 0 ≤ xtime x < 256) (seqZ 0 256)) = true) as H by (vm_compute; reflexivity).
  apply bool_decide_eq_true in H. rewrite list.Forall_forall in H. apply H. apply elem_of_seqZ. unfold is_byte in Hx. lia.
Qed.

Lemma chain_bytes i previous words :
  Forall is_byte previous → Forall (Forall is_byte) words → Forall (Forall is_byte) (chainWords i previous words).
Proof.
  intros Hp Hw. revert i previous Hp. induction Hw as [|w words Hw _ IH]; intros i previous Hp; [constructor|].
  assert (Forall is_byte (xorBytes w (if bool_decide (i = 4%nat) then subByte <$> previous else previous))) as Hx
    by (apply xorBytes_bytes; [done|]; case_bool_decide; [apply subBytes_bytes|done]).
  constructor; [exact Hx|by apply IH].
Qed.

Lemma next_bytes rcon words : is_byte rcon → Forall (Forall is_byte) words → Forall (Forall is_byte) (nextWords rcon words).
Proof.
  intros Hr Hw. unfold nextWords. repeat case_match; try constructor. apply chain_bytes; [|done].
  repeat (apply list.Forall_cons; split; [try apply subByte_byte; try (apply lxor_byte; [apply subByte_byte|done])|]). constructor.
Qed.

Lemma schedule_bytes n rcon words : is_byte rcon → Forall (Forall is_byte) words → Forall (Forall is_byte) (schedule n rcon words).
Proof.
  revert rcon words. induction n as [|n IH]; intros rcon words Hr Hw; [done|]. cbn [schedule]. apply list.Forall_app.
  split; [done|]. apply IH; [by apply xtime_byte|by apply next_bytes].
Qed.

Lemma roundKeys_bytes k : Forall is_byte k → Forall (Forall is_byte) (roundKeys k).
Proof.
  intros Hk. unfold roundKeys. apply Forall_take, chunks_bytes.
  pose proof (schedule_bytes 7 1 (chunks 4 8 k) ltac:(by split) (chunks_bytes _ _ _ Hk)) as H.
  induction H; cbn; [constructor|]. by apply list.Forall_app.
Qed.

Lemma rounds_bytes s keys : keys ≠ [] → Forall (Forall is_byte) keys → Forall is_byte (rounds s keys).
Proof.
  intros Hne Hk. revert s. induction Hk as [|k keys Hk Hks IH]; intros s; [done|]. destruct keys as [|k' keys]; [|by apply IH].
  cbn [rounds]. apply xorBytes_bytes; [|done]. unfold shiftRows. apply list.Forall_forall. intros x (i & -> & _)%list_elem_of_fmap.
  generalize ((i + 4 * (i mod 4)) mod 16)%nat as n. clear. induction s as [|c s IH]; intros [|n]; try (by split); [apply subByte_byte|apply IH].
Qed.

Lemma encrypt_bytes k block : length k = 32%nat → Forall is_byte k → Forall is_byte (encryptBlock (roundKeys k) block).
Proof.
  intros Hl Hk. pose proof (roundKeys_bytes k Hk) as Hb. destruct (roundKeys_sized k Hl) as (k0 & ks & E & Hne & _).
  rewrite E in Hb |- *. cbn. apply rounds_bytes; [done|]. by apply list.Forall_cons in Hb as [_ ?].
Qed.

Lemma Seal_bytes k nonce p a : length k = 32%nat → Forall is_byte k → Forall is_byte p → Forall is_byte (Seal k nonce p a).
Proof.
  intros Hl Hk Hp. unfold Seal. apply list.Forall_app. split.
  - apply xorBytes_bytes; [done|]. unfold keystream. apply list.Forall_forall. intros x (i & Hx & _)%list_elem_of_bind.
    pose proof (encrypt_bytes k (nonce ++ bigEndian 4 i) Hl Hk) as Hb. rewrite list.Forall_forall in Hb. by apply Hb.
  - unfold tag. apply xorBytes_bytes; [apply bigEndian_bytes|by apply encrypt_bytes].
Qed.

(** C29: A credential sealed by the issuer is read back from its bearer: every
    issuer with the same key and key version, also one started later that has
    never seen it, opens the bearer to exactly the session, lineage, generation,
    identifiers and expiry it was prepared with, as long as it has not expired. *)
Theorem sealed_bearer_roundtrip k kv request now :
  validSessionCredentialRequest request now = true → printableRequest kv request = true →
  ∃ bearer, sealSessionCredential k kv request = Some bearer
    ∧ openSessionCredential k kv bearer now = Some (preparedFrom bearer request).
Proof.
  intros Hv Hp. pose proof (sealed_ok kv request now Hp Hv) as Hok. destruct (printed _ Hok) as (r & Hm & _ & _ & _ & _).
  unfold sealSessionCredential. rewrite Hm. cbn [mbind option_bind]. set (payload := bytes_of (text r)). set (nonce := nonceOf k payload).
  set (sealed := Seal _ _ _ _). eexists. split; [done|]. unfold openSessionCredential.
  set (encoded := nonce ++ sealed). assert (length nonce = NonceSize) as Hn by apply length_nonce.
  assert (Forall is_byte encoded) as Hb.
  { apply list.Forall_app. split; [apply Forall_take, Sum256_bytes|]. apply Seal_bytes; [apply length_seal_key|apply Sum256_bytes|apply bytes_of_bytes]. }
  destruct (prefixed (EncodeToString encoded)) as [-> ->]. rewrite decode_encode by done.
  assert (length encoded = NonceSize + (length payload + tagSize))%nat as Hlen
    by (unfold encoded, sealed; rewrite length_app, Hn, length_Seal by apply length_seal_key; done).
  rewrite bool_decide_false.
  2: { intros Hle. unfold len in Hle. change (String.length bearerPrefix) with 8%nat in Hle.
       rewrite <- length_bytes_of, bytes_of_app, length_app, !length_bytes_of in Hle.
       change (String.length bearerPrefix) with 8%nat in Hle. unfold EncodeToString in Hle. rewrite JsonProofs.length_string_of, length_fmap in Hle.
       destruct encoded as [|x [|y [|z l]]]; cbn in Hlen, Hle; lia. }
  cbn [orb negb mbind option_bind]. rewrite bool_decide_false by (unfold tagSize in *; lia).
  unfold encoded. rewrite <- Hn at 1 2. rewrite take_app_length, drop_app_length. unfold sealed. rewrite open_seal by apply length_seal_key.
  cbn [mbind option_bind]. unfold payload. rewrite string_of_bytes_of.
  rewrite (Unmarshal_printed (sealedFrom kv request)); [|done|vm_compute; lia|done]. cbn [mbind option_bind].
  unfold printableRequest in Hp. rewrite !andb_true_iff in Hp. destruct_and!.
  rewrite requestFrom_sealedFrom by done. by rewrite Hv, bool_decide_true.
Qed.

(** ** The tables *)

Record tidy (s : issuer) : Prop := {
  t_bearer : ∀ b p, prepared s !! b = Some p → Bearer p = b ∧ b ≠ "" ∧ pr_Scope p = Auth.SessionAdapter (pr_SessionID p);
  t_active : ∀ l b, active s !! l = Some b → ∃ p, prepared s !! b = Some p ∧ lineageOf p = l;
  t_pending : ∀ b, b ∈ pending s ↔ ∃ p, prepared s !! b = Some p ∧ active s !! lineageOf p ≠ Some b;
  t_prepared : (size (prepared s) ≤ maxLocalSessionCredentials)%nat;
  t_retired : (size (retired s) ≤ maxLocalSessionCredentials)%nat;
}.

(** A full table of retired bearers loses one of its entries. *)
Definition evicts (s : issuer) (c : call) : Prop :=
  match c with
  | Activate _ victim _ | Discard _ victim => (maxLocalSessionCredentials ≤ size (retired s))%nat → victim ∈ retired s
  | _ => True
  end.

Lemma activeOf_spec s l b : tidy s → b ≠ "" → activeOf s l = b ↔ active s !! l = Some b.
Proof.
  intros Ht Hb. unfold activeOf. destruct (active s !! l) as [b'|] eqn:E; cbn; [|naive_solver]. split; congruence.
Qed.

Lemma active_nonempty s l b : tidy s → active s !! l = Some b → b ≠ "".
Proof. intros Ht (p & Hp & _)%(t_active _ Ht). by destruct (t_bearer _ Ht _ _ Hp) as (_ & ? & _). Qed.

Lemma discard_prepared s now b p :
  prepared (discardExpired s now) !! b = Some p ↔ prepared s !! b = Some p ∧ expired now p = false.
Proof. cbn. by rewrite map_lookup_filter_Some. Qed.

Lemma discard_active s now l b :
  tidy s → active (discardExpired s now) !! l = Some b ↔
  active s !! l = Some b ∧ ∃ p, prepared s !! b = Some p ∧ lineageOf p = l ∧ expired now p = false.
Proof.
  intros Ht. cbn. rewrite map_lookup_filter_Some. split.
  - intros [Ha Hn]. split; [done|]. destruct (t_active _ Ht _ _ Ha) as (p & Hp & Hl). exists p. split_and!; try done.
    cbn in Hn. rewrite Hp in Hn. cbn in Hn. destruct (expired now p); [|done]. exfalso. apply Hn. by rewrite Hl.
  - intros (Ha & p & Hp & Hl & He). split; [done|]. cbn. rewrite Hp. cbn. rewrite He. naive_solver.
Qed.

Lemma discard_tidy s now : tidy s → tidy (discardExpired s now).
Proof.
  intros Ht. split.
  - intros b p [Hp _]%discard_prepared. by apply Ht.
  - intros l b (Ha & p & Hp & Hl & He)%discard_active; [|done]. exists p. by rewrite discard_prepared.
  - intros b. assert (b ∈ pending (discardExpired s now) ↔ b ∈ pending s ∧ match prepared s !! b with Some p => expired now p | None => false end = false) as ->
      by (cbn; rewrite elem_of_filter; naive_solver).
    rewrite (t_pending _ Ht). split.
    + intros ((p & Hp & Hna) & He). rewrite Hp in He. exists p. rewrite discard_prepared, discard_active by done. naive_solver.
    + intros (p & [Hp He]%discard_prepared & Hna). rewrite Hp. split; [|done]. exists p. split; [done|].
      intros Ha. apply Hna. rewrite discard_active by done. naive_solver.
  - cbn. etrans; [|apply (t_prepared _ Ht)]. apply map_subseteq_size, map_filter_subseteq.
  - apply (t_retired _ Ht).
Qed.

Lemma retire_size (s : issuer) victim bearer :
  (size (retired s) ≤ maxLocalSessionCredentials)%nat → ((maxLocalSessionCredentials ≤ size (retired s))%nat → victim ∈ retired s) →
  (size (retired (retire s victim bearer)) ≤ maxLocalSessionCredentials)%nat.
Proof.
  intros Hs Hv. unfold retire. case_bool_decide; [done|]. cbn.
  assert (∀ X : gset string, size (X ∪ {[bearer]}) ≤ S (size X))%nat as Hadd.
  { intros X. rewrite size_union_alt. pose proof (subseteq_size ({[bearer]} ∖ X) {[bearer]} ltac:(set_solver)) as H'.
    rewrite size_singleton in H'. lia. }
  etrans; [apply Hadd|]. case_bool_decide as Hfull; [|lia].
  specialize (Hv Hfull). pose proof (size_difference (retired s) {[victim]} ltac:(set_solver)) as Hd. rewrite size_singleton in Hd.
  assert (size (retired s) ≠ 0)%nat by (intros E; apply size_empty_inv in E; set_solver). lia.
Qed.

Lemma seal_nonempty k kv request bearer : sealSessionCredential k kv request = Some bearer → bearer ≠ "".
Proof. unfold sealSessionCredential. intros (t & _ & E)%bind_Some. by injection E as <-. Qed.

Lemma prepare_tidy s request now now' : tidy s → tidy (PrepareSessionCredential s request now now').1.
Proof.
  intros Ht. unfold PrepareSessionCredential. destruct (_ || _); [done|].
  destruct (sealSessionCredential _ _ _) as [bearer|] eqn:Hseal; [|done]. apply seal_nonempty in Hseal.
  pose proof (discard_tidy s now' Ht) as Hd. set (d := discardExpired s now') in *. clearbody d. clear s Ht.
  destruct (prepared d !! bearer) as [known|] eqn:Hb; [done|]. case_bool_decide as Hsize; [done|]. destruct Hd as [H1 H2 H3 H4 H5]. split; cbn.
  - intros b p. rewrite lookup_insert_Some. intros [[<- <-]|[_ Hp]]; [done|by apply H1].
  - intros l b Ha. destruct (H2 l b Ha) as (p & Hp & Hl). exists p. split; [|done]. rewrite lookup_insert_ne; [done|]. congruence.
  - intros b. rewrite elem_of_union, elem_of_singleton, H3. split.
    + intros [(p & Hp & Ha)| ->]; [exists p; rewrite lookup_insert_ne by congruence; done|].
      exists (preparedFrom bearer request). rewrite lookup_insert_eq. split; [done|]. intros (p & Hp & _)%H2. congruence.
    + intros (p & Hp & Ha). destruct (decide (b = bearer)) as [->|Hne]; [by right|left]. rewrite lookup_insert_ne in Hp by done. eauto.
  - rewrite map_size_insert_None by done. lia.
  - done.
Qed.

(** The bearer that becomes active replaces the one before it. *)
Lemma activate_tidy s p victim now :
  tidy s → evicts s (Activate p victim now) → tidy (ActivateSessionCredential s p victim now).1.
Proof.
  intros Ht Hv. unfold ActivateSessionCredential. case_bool_decide as Hne; [done|].
  pose proof (discard_tidy s now Ht) as Hd. change (retired s) with (retired (discardExpired s now)) in Hv.
  cbn [evicts] in Hv. change (retired s) with (retired (discardExpired s now)) in Hv.
  set (d := discardExpired s now) in *. clearbody d. clear s Ht. case_bool_decide as Hp; [|done].
  pose proof (activeOf_spec d (lineageOf p)) as Hact. set (current := activeOf d (lineageOf p)) in *.
  destruct (bool_decide (current ≠ "") && bool_decide (current ≠ Bearer p)) eqn:Hc.
  - rewrite andb_true_iff, !bool_decide_eq_true in Hc. destruct Hc as [Hc1 Hc2].
    assert (active d !! lineageOf p = Some current) as Ha by by apply Hact.
    assert (∀ b p', prepared d !! b = Some p' → active d !! lineageOf p' = Some b → lineageOf p' ≠ lineageOf p → b ≠ current) as Hdiff.
    { intros b p' Hp' Ha' Hl ->. destruct (t_active _ Hd _ _ Ha) as (pc & Hpc & Hlc). congruence. }
    pose proof (retire_size d victim current (t_retired _ Hd) Hv) as Hr. destruct Hd as [H1 H2 H3 H4 H5].
    unfold retire in *. rewrite bool_decide_false in * by done. split; cbn.
    + intros b p'. rewrite lookup_delete_Some. intros [_ Hp']. by apply H1.
    + intros l b. rewrite lookup_insert_Some. intros [[<- <-]|[Hl Ha']]; [exists p; by rewrite lookup_delete_ne|].
      destruct (H2 l b Ha') as (p' & Hp' & <-). exists p'. rewrite lookup_delete_ne; [done|]. intros <-. by apply (Hdiff current p').
    + intros b. rewrite elem_of_difference, elem_of_singleton, H3. split.
      * intros ((p' & Hp' & Ha') & Hb). exists p'. destruct (decide (b = current)) as [->|Hbc].
        { exfalso. destruct (H2 _ _ Ha) as (pc & Hpc & Hlc). congruence. }
        rewrite lookup_delete_ne by done. split; [done|]. rewrite lookup_insert_Some. naive_solver.
      * intros (p' & [Hbc Hp']%lookup_delete_Some & Ha'). rewrite lookup_insert_Some in Ha'.
        destruct (decide (b = Bearer p)) as [->|Hb]; [exfalso; apply Ha'; left; split; [congruence|done]|]. split; [|done]. exists p'. split; [done|].
        intros Ha2. destruct (decide (lineageOf p = lineageOf p')) as [E|Hl]; [congruence|]. apply Ha'. by right.
    + etrans; [|exact H4]. apply map_subseteq_size, delete_subseteq.
    + exact Hr.
  - assert (∀ c, active d !! lineageOf p = Some c → c = Bearer p) as Ha.
    { intros c Hac. pose proof (active_nonempty _ _ _ Hd Hac) as Hcne. assert (current = c) as Ec by by apply (Hact c Hd Hcne).
      rewrite andb_false_iff, !bool_decide_eq_false in Hc. subst c. destruct (decide (current = Bearer p)); [done|]. naive_solver. }
    destruct Hd as [H1 H2 H3 H4 H5]. split; cbn; try done.
    + intros l b. rewrite lookup_insert_Some. intros [[<- <-]|[Hl Ha']]; [by exists p|by apply H2].
    + intros b. rewrite elem_of_difference, elem_of_singleton, H3. split.
      * intros ((p' & Hp' & Ha') & Hb). exists p'. split; [done|]. rewrite lookup_insert_Some. naive_solver.
      * intros (p' & Hp' & Ha'). rewrite lookup_insert_Some in Ha'.
        destruct (decide (b = Bearer p)) as [->|Hb]; [exfalso; apply Ha'; left; split; [congruence|done]|]. split; [|done]. exists p'. split; [done|].
        intros Ha2. apply Ha'. right. split; [|done]. intros E. rewrite <- E in Ha2. by apply Ha in Ha2.
Qed.

Lemma discard_bearer_tidy s p victim :
  tidy s → evicts s (Discard p victim) → tidy (DiscardSessionCredential s p victim).
Proof.
  intros Ht Hv. unfold DiscardSessionCredential. destruct (_ || _) eqn:E; [done|]. rewrite orb_false_iff, !bool_decide_eq_false in E.
  destruct E as [Hne Hp]. assert (prepared s !! Bearer p = Some p) as Hp' by by destruct (decide (prepared s !! Bearer p = Some p)).
  assert (∀ l, activeOf s l = Bearer p ↔ active s !! l = Some (Bearer p)) as Hact by (intros l; by apply activeOf_spec).
  pose proof (retire_size s victim (Bearer p) (t_retired _ Ht) Hv) as Hr. destruct Ht as [H1 H2 H3 H4 H5].
  unfold retire in *. rewrite (bool_decide_false (Bearer p = "")) in Hr by done. rewrite (bool_decide_false (Bearer p = "")) by done. cbn in Hr.
  assert (∀ l b, active s !! l = Some b → b = Bearer p → l = lineageOf p) as Hlin.
  { intros l b Ha ->. destruct (H2 l _ Ha) as (p' & Hpp & Hl). congruence. }
  assert (∀ b, b ∈ pending s ∖ {[Bearer p]} ↔ ∃ p', delete (Bearer p) (prepared s) !! b = Some p' ∧ active s !! lineageOf p' ≠ Some b) as Hpend.
  { intros b. rewrite elem_of_difference, elem_of_singleton, H3. setoid_rewrite lookup_delete_Some. naive_solver. }
  assert (size (delete (Bearer p) (prepared s)) ≤ maxLocalSessionCredentials)%nat as Hsz
    by (etrans; [|exact H4]; apply map_subseteq_size, delete_subseteq).
  assert (∀ b p', delete (Bearer p) (prepared s) !! b = Some p' → Bearer p' = b ∧ b ≠ "" ∧ pr_Scope p' = Auth.SessionAdapter (pr_SessionID p')) as Hb
    by (intros b p' [_ Hpp]%lookup_delete_Some; by apply H1).
  change (activeOf (withTables _ _ _ _ _) (lineageOf p)) with (activeOf s (lineageOf p)).
  destruct (bool_decide (activeOf s (lineageOf p) = Bearer p)) eqn:Ha;
    [apply bool_decide_eq_true in Ha|apply bool_decide_eq_false in Ha]; split; cbn; try done.
  - intros l b [Hl Ha']%lookup_delete_Some. destruct (H2 l b Ha') as (p' & Hpp & Hl'). exists p'. rewrite lookup_delete_ne; [done|].
    intros Eb. by apply Hl, eq_sym, (Hlin l b).
  - intros b. rewrite Hpend. split; intros (p' & Hpp & Hna); exists p'; (split; [done|]); rewrite lookup_delete_Some in *; [naive_solver|].
    intros Ha'. apply Hna. split; [|done]. intros E. apply lookup_delete_Some in Hpp as [Hbb _]. rewrite <- E in Ha'.
    apply Hact in Ha. congruence.
  - intros l b Ha'. destruct (H2 l b Ha') as (p' & Hpp & Hl'). exists p'. rewrite lookup_delete_ne; [done|].
    intros Eb. apply Ha, Hact. rewrite <- (Hlin l b) by done. congruence.
Qed.

Lemma step_tidy s c : tidy s → evicts s c → tidy (step s c).
Proof.
  intros Ht Hv. destruct c; cbn [step].
  - by apply prepare_tidy.
  - by apply activate_tidy.
  - unfold ValidateSessionCredentialActivation. destruct (_ || _); [done|]. by apply discard_tidy.
  - by apply discard_bearer_tidy.
  - unfold ActiveSessionCredential. case_bool_decide; [done|]. by apply discard_tidy.
Qed.

(** The states a new issuer reaches. *)
Inductive reached (k : list Z) (kv : Z) : issuer → Prop :=
  | reached_new s : NewLocalSessionCredentialIssuer k kv = Some s → reached k kv s
  | reached_step s c : reached k kv s → evicts s c → reached k kv (step s c).

Lemma reached_tidy k kv s : reached k kv s → tidy s.
Proof.
  induction 1 as [s H|s c _ IH Hv]; [|by apply step_tidy]. unfold NewLocalSessionCredentialIssuer in H. destruct (_ || _); [done|].
  injection H as <-. split; cbn; try (intros; by rewrite lookup_empty in * ).
  - intros b. split; [set_solver|]. intros (p & Hp & _). by rewrite lookup_empty in Hp.
  - rewrite map_size_empty. lia.
  - rewrite size_empty. lia.
Qed.

(** ** What is accepted *)


(** Activating a prepared credential makes it the one that is accepted for
    its Session and lineage kind; the bearer it replaces is refused from then
    on, while it is remembered as retired. *)
Theorem activation_replaces_bearer k kv s p victim now s' :
  reached k kv s → ActivateSessionCredential s p victim now = (s', true) →
  (∀ now2 now3, now2 < pr_ExpiresAt p → (ActiveSessionCredential s' (Bearer p) now2 now3).2 = Some p)
  ∧ (∀ old now2 now3, active (discardExpired s now) !! lineageOf p = Some old → old ≠ Bearer p →
       (ActiveSessionCredential s' old now2 now3).2 = None).
Proof.
  intros Ht%reached_tidy. unfold ActivateSessionCredential. case_bool_decide as Hne; [done|]. pose proof (discard_tidy s now Ht) as Hd.
  set (d := discardExpired s now) in *. clearbody d. case_bool_decide as Hp; [|done]. intros [= <-].
  pose proof (activeOf_spec d (lineageOf p)) as Hact. set (current := activeOf d (lineageOf p)) in *.
  set (c := if _ && _ then _ else d).
  assert (prepared c !! Bearer p = Some p) as Hcp.
  { unfold c. destruct (_ && _) eqn:E; [|done]. rewrite andb_true_iff, !bool_decide_eq_true in E. cbn.
    unfold retire. case_bool_decide; cbn; rewrite lookup_delete_ne by naive_solver; done. }
  split.
  - intros now2 now3 Hlt. unfold ActiveSessionCredential. rewrite bool_decide_false by done. cbn [snd].
    match goal with |- context [discardExpired ?x now2] => set (e := x) end.
    assert (prepared (discardExpired e now2) !! Bearer p = Some p) as Hpe.
    { apply discard_prepared. split; [done|]. unfold expired, After. by rewrite bool_decide_true. }
    rewrite Hpe. rewrite bool_decide_true; [done|]. unfold activeOf. cbn. rewrite map_lookup_filter_Some_2 with (x := Bearer p); [done| |].
    + by rewrite lookup_insert_eq.
    + cbn. rewrite Hcp. unfold expired, After. rewrite bool_decide_true by done. naive_solver.
  - intros old now2 now3 Ho Hold. pose proof (active_nonempty _ _ _ Hd Ho) as Hone.
    assert (current = old) as Ec by by apply (Hact old Hd Hone). unfold ActiveSessionCredential. rewrite bool_decide_false by done. cbn.
    assert (c = let r := retire d victim current in withTables r (delete current (prepared r)) (pending r) (active r) (retired r)) as ->.
    { unfold c. by rewrite !bool_decide_true by (by rewrite Ec). }
    cbn. unfold retire. rewrite bool_decide_false by congruence. cbn.
    assert (filter (λ bp, expired now2 bp.2 = false) (delete current (prepared d)) !! old = None) as ->.
    { apply map_lookup_filter_None_2. left. rewrite Ec. apply lookup_delete_eq. }
    rewrite bool_decide_true; [done|]. rewrite Ec. set_solver.
Qed.

(** The table of retired bearers forgets.  A bearer that was discarded but
    has not expired is accepted again as soon as one more bearer is retired and
    the full table drops it: nothing else remembers that it was withdrawn. *)
Theorem forgotten_bearer_is_accepted s b p q now now' :
  b ∈ retired s → (maxLocalSessionCredentials ≤ size (retired s))%nat → prepared s !! b = None → b ≠ "" →
  openSessionCredential (key s) (keyVersion s) b now' = Some p →
  prepared s !! Bearer q = Some q → Bearer q ≠ "" →
  evicts s (Discard q b) ∧ (ActiveSessionCredential s b now now').2 = None
  ∧ (ActiveSessionCredential (step s (Discard q b)) b now now').2 = Some p.
Proof.
  intros Hb Hfull Hnone Hne Hopen Hq Hqne. split; [by intros _|].
  assert (∀ e, prepared e !! b = None → prepared (discardExpired e now) !! b = None) as Hgone
    by (intros e He; cbn; apply map_lookup_filter_None_2; by left).
  split.
  - unfold ActiveSessionCredential. rewrite bool_decide_false by done. cbn [snd]. rewrite Hgone by done. by rewrite bool_decide_true.
  - cbn [step]. unfold DiscardSessionCredential. rewrite (bool_decide_false (Bearer q = "")), (bool_decide_false (_ ≠ Some q)) by naive_solver. cbn [orb].
    unfold retire. rewrite (bool_decide_false (Bearer q = "")) by done. cbn. rewrite (bool_decide_true (maxLocalSessionCredentials ≤ size (retired s))%nat) by done.
    assert (b ≠ Bearer q) as Hbq by congruence. set (r := (retired s ∖ {[b]}) ∪ {[Bearer q]}).
    assert (b ∉ r) as Hbr by (unfold r; set_solver).
    unfold ActiveSessionCredential. rewrite bool_decide_false by done. cbn [snd].
    match goal with |- context [discardExpired ?x now] => set (e := x) end.
    assert (prepared e !! b = None ∧ retired e = r ∧ key e = key s ∧ keyVersion e = keyVersion s) as (He & Hre & Hke & Hve).
    { unfold e. case_bool_decide; cbn; by rewrite lookup_delete_ne by done. }
    rewrite (Hgone e He). change (retired (discardExpired e now)) with (retired e). rewrite Hre, bool_decide_false by done.
    change (key (discardExpired e now)) with (key e). change (keyVersion (discardExpired e now)) with (keyVersion e). by rewrite Hke, Hve.
Qed.

End CredentialIssuerProofs.
