(* ===== verification/IssuerScenarios.v ===== *)
(** * The credential issuer on concrete inputs *)

From S2P Require Import Prelude Json Wire GoText Auth AesGcm CredentialIssuer CredentialIssuerProofs.
From stdpp Require Import base gmap strings list option pretty.
#[local] Open Scope Z_scope.

Module IssuerScenarios.
Import CredentialIssuer CredentialIssuerProofs.

Definition secret : list Z := [7; 7; 7].

Definition request (generation : Z) : SessionCredentialRequest :=
  mkRequest "s" (mkLineage "target_attach" "a" "j") generation "rot" "rev" 1000.

Definition fresh : issuer := default (mkIssuer [] 0 ∅ ∅ ∅ ∅) (NewLocalSessionCredentialIssuer secret 1).

Definition bearer1 : string := Eval vm_compute in default "" (sealSessionCredential secret 1 (request 1)).
Definition bearer2 : string := Eval vm_compute in default "" (sealSessionCredential secret 1 (request 2)).
Definition bearer3 : string := Eval vm_compute in default "" (sealSessionCredential secret 1 (request 3)).

Definition first : PreparedSessionCredential := preparedFrom bearer1 (request 1).
Definition second : PreparedSessionCredential := preparedFrom bearer2 (request 2).
Definition third : PreparedSessionCredential := preparedFrom bearer3 (request 3).

Definition started : issuer := step fresh (Prepare (request 1) 10 10).
Definition serving : issuer := step started (Activate first "" 10).
Definition running : issuer := step serving (Prepare (request 2) 20 20).

Lemma fresh_reached : reached secret 1 fresh.
Proof. apply reached_new. vm_compute. reflexivity. Qed.

Lemma started_empty : bool_decide (maxLocalSessionCredentials ≤ size (retired started))%nat = false.
Proof. vm_compute. reflexivity. Qed.

Lemma running_reached : reached secret 1 running.
Proof.
  apply reached_step; [|exact I]. apply reached_step; [apply reached_step; [apply fresh_reached|exact I]|].
  intros H. exfalso. pose proof started_empty as E. apply bool_decide_eq_false in E. by apply E.
Qed.

Lemma sealed_bearer_roundtrip_witness :
  ∃ b, sealSessionCredential secret 1 (request 1) = Some b ∧ openSessionCredential secret 1 b 10 = Some (preparedFrom b (request 1)).
Proof. apply sealed_bearer_roundtrip; vm_compute; reflexivity. Defined.


Lemma activation_replaces_bearer_witness :
  (ActivateSessionCredential running second "" 30).2 = true
  ∧ (ActiveSessionCredential (ActivateSessionCredential running second "" 30).1 bearer1 40 40).2 = None.
Proof.
  assert ((ActivateSessionCredential running second "" 30).2 = true) as E by (vm_compute; reflexivity). split; [exact E|].
  apply (activation_replaces_bearer secret 1 running second "" 30 (ActivateSessionCredential running second "" 30).1 running_reached).
  - rewrite <- E. apply surjective_pairing.
  - vm_compute. reflexivity.
  - vm_compute. discriminate.
Defined.

(** A table full of other retired bearers. *)
Definition crowded : issuer :=
  mkIssuer secret 1 (prepared running) (pending running) (active running)
    (list_to_set (bearer3 :: ((λ n : nat, "x" +:+ pretty n) <$> seq 0 127))).

Lemma forgotten_bearer_is_accepted_witness :
  (ActiveSessionCredential crowded bearer3 40 40).2 = None
  ∧ (ActiveSessionCredential (step crowded (Discard second bearer3)) bearer3 40 40).2 = Some third.
Proof.
  apply (forgotten_bearer_is_accepted crowded bearer3 third second 40 40).
  - apply (bool_decide_unpack _). vm_compute. exact I.
  - vm_compute. lia.
  - vm_compute. reflexivity.
  - vm_compute. discriminate.
  - vm_compute. reflexivity.
  - vm_compute. reflexivity.
  - vm_compute. discriminate.
Defined.

(** An issuer that has just started accepts a bearer that it never prepared. *)
Example unseen_bearer_is_accepted : (ActiveSessionCredential fresh bearer1 40 40).2 = Some first.
Proof. vm_compute. reflexivity. Qed.

(** A pending bearer is refused, an altered one too. *)
Example refused_bearers :
  (ActiveSessionCredential running (Bearer second) 30 30).2 = None
  ∧ (ActiveSessionCredential running (Bearer second +:+ "A") 30 30).2 = None
  ∧ (ActiveSessionCredential fresh bearer1 1000 1000).2 = None.
Proof. vm_compute. split_and!; reflexivity. Qed.

End IssuerScenarios.
