(* ===== verification/HubProgram.v ===== *)
(** * The Hub's handlers as programs

    [hub/websocket.go] and [hub/connection_dispatch.go]: the part of the
    handler's state that commands need, the effects its goroutines have on it,
    on the Store and on the connections, and how the goroutines interleave.

    A handler is a [prog]: a tree of effects, each continued with its answer.
    The Store is the SQLite Store of [StoreOps], so the type assertions on it
    succeed; a call is one atomic step of it.  Locks are explicit where other
    effects happen under them ([lock]); a section of [h.mu] or of [commandMu]
    without other effects is one step.  What the network, the clock and the
    random source do is the [answer] of a step, chosen by the environment: a
    write may fail, and may fail although the bytes went out. *)

From S2P Require Import Prelude StoreApi Json Wire Frames CodecPayloads Sqlite Connections CommandLedger Settings StoreOps Auth Handshake.
From stdpp Require Import base gmap strings list option.
#[local] Open Scope Z_scope.

Module HubProgram.
Import Wire Frames Connections StoreOps.

(** ** State *)

(** A connected Adapter; [conn] identifies the connection, two Go pointers are
    equal when it is. *)
Record adapterConnection := mkAdapter {
  conn : nat;
  sessionID : string;
  provider : string;
  protocolVersion : Z;
  contentMode : string;
  admission : AdapterConnectionAdmission;
  settingsWriter : SettingsWriter;
}.

Definition same (a b : adapterConnection) : bool := bool_decide (conn a = conn b).

Record queuedCommand := mkQueued { command : Command; expiresAt : time }.

(** A client connection is a number; [None] is the nil peer. *)
Record pendingCommandClient := mkPendingClient {
  pc_adapter : adapterConnection;
  pc_peer : option nat;
  pc_commandID : string;
  pc_commandType : string;
}.

Record fileReferenceCapability := mkFileCapability {
  fcap_payload : CodecPayloads.FileReferenceCapabilityPayload;
  fcap_writer : SettingsWriter;
  fcap_eventSeq : Z;
}.

Record memory := mkMemory {
  adapters : gmap string adapterConnection;
  pendingCommands : gmap string (list queuedCommand);
  acceptedCommands : gset string;
  acceptedCommandOrder : list string;
  decisions : gset string;
  decisionOrder : list string;
  settingsClients : gmap string nat;
  pendingCommandClients : gmap string pendingCommandClient;
  settingsCapabilities : gmap string Settings.SettingsCapability;
  fileReferenceCapabilities : gmap string fileReferenceCapability;
  runControlClients : gmap string nat;
}.

Definition newMemory : memory := mkMemory ∅ ∅ ∅ [] ∅ [] ∅ ∅ ∅ ∅ ∅.

Definition setAdapters (f : gmap string adapterConnection → gmap string adapterConnection) (m : memory) : memory :=
  mkMemory (f (adapters m)) (pendingCommands m) (acceptedCommands m) (acceptedCommandOrder m) (decisions m) (decisionOrder m)
    (settingsClients m) (pendingCommandClients m) (settingsCapabilities m) (fileReferenceCapabilities m) (runControlClients m).
Definition setPending (f : gmap string (list queuedCommand) → gmap string (list queuedCommand)) (m : memory) : memory :=
  mkMemory (adapters m) (f (pendingCommands m)) (acceptedCommands m) (acceptedCommandOrder m) (decisions m) (decisionOrder m)
    (settingsClients m) (pendingCommandClients m) (settingsCapabilities m) (fileReferenceCapabilities m) (runControlClients m).
Definition setAccepted (s : gset string) (order : list string) (m : memory) : memory :=
  mkMemory (adapters m) (pendingCommands m) s order (decisions m) (decisionOrder m)
    (settingsClients m) (pendingCommandClients m) (settingsCapabilities m) (fileReferenceCapabilities m) (runControlClients m).
Definition setDecisions (s : gset string) (order : list string) (m : memory) : memory :=
  mkMemory (adapters m) (pendingCommands m) (acceptedCommands m) (acceptedCommandOrder m) s order
    (settingsClients m) (pendingCommandClients m) (settingsCapabilities m) (fileReferenceCapabilities m) (runControlClients m).
Definition setSettingsClients (f : gmap string nat → gmap string nat) (m : memory) : memory :=
  mkMemory (adapters m) (pendingCommands m) (acceptedCommands m) (acceptedCommandOrder m) (decisions m) (decisionOrder m)
    (f (settingsClients m)) (pendingCommandClients m) (settingsCapabilities m) (fileReferenceCapabilities m) (runControlClients m).
Definition setPendingClients (f : gmap string pendingCommandClient → gmap string pendingCommandClient) (m : memory) : memory :=
  mkMemory (adapters m) (pendingCommands m) (acceptedCommands m) (acceptedCommandOrder m) (decisions m) (decisionOrder m)
    (settingsClients m) (f (pendingCommandClients m)) (settingsCapabilities m) (fileReferenceCapabilities m) (runControlClients m).
Definition setFileCapabilities (f : gmap string fileReferenceCapability → gmap string fileReferenceCapability) (m : memory) : memory :=
  mkMemory (adapters m) (pendingCommands m) (acceptedCommands m) (acceptedCommandOrder m) (decisions m) (decisionOrder m)
    (settingsClients m) (pendingCommandClients m) (settingsCapabilities m) (f (fileReferenceCapabilities m)) (runControlClients m).
Definition setSettingsCapabilities (f : gmap string Settings.SettingsCapability → gmap string Settings.SettingsCapability) (m : memory) : memory :=
  mkMemory (adapters m) (pendingCommands m) (acceptedCommands m) (acceptedCommandOrder m) (decisions m) (decisionOrder m)
    (settingsClients m) (pendingCommandClients m) (f (settingsCapabilities m)) (fileReferenceCapabilities m) (runControlClients m).
Definition setRunClients (f : gmap string nat → gmap string nat) (m : memory) : memory :=
  mkMemory (adapters m) (pendingCommands m) (acceptedCommands m) (acceptedCommandOrder m) (decisions m) (decisionOrder m)
    (settingsClients m) (pendingCommandClients m) (settingsCapabilities m) (fileReferenceCapabilities m) (f (runControlClients m)).

(** ** Effects *)

(** [publication] of a Session, [commandMu], [effectMu] of a connection, and
    the admission lock of a Session. *)
Inductive lock := Publication (sid : string) | CommandMu | EffectMu (conn : nat) | Admission (sid : string).

#[global] Instance lock_eq_dec : EqDecision lock.
Proof. solve_decision. Defined.

#[global] Instance lock_countable : Countable lock.
Proof.
  refine (inj_countable'
    (λ l, match l with Publication s => inl (inl s) | CommandMu => inl (inr ()) | EffectMu n => inr (inl n) | Admission s => inr (inr s) end)
    (λ x, match x with inl (inl s) => Publication s | inl (inr _) => CommandMu | inr (inl n) => EffectMu n | inr (inr s) => Admission s end) _).
  by intros [].
Defined.

Record CommandActivity := mkActivity {
  act_SessionID : string;
  act_CommandID : string;
  act_Type : string;
  act_At : time;
  act_DurableSeq : option Z;
}.

(** What starts a goroutine: a frame of a peer, an event of a connection, a
    timer, or a [go] statement. *)
Inductive task :=
  | ClientCommand (peer : nat) (accepted : Handshake.AcceptedPeer) (cmd : Command)
  | AdapterAck (adapter : adapterConnection) (ack : CommandAck)
  | AdapterEvent (adapter : adapterConnection) (accepted : Handshake.AcceptedPeer) (ev : Event)
  | AdapterConnected (conn : nat) (accepted : Handshake.AcceptedPeer) (generation : Z) (expires : time) (initialize : bool) (ack : HelloAck)
  | AdapterGone (adapter : adapterConnection)
  | AdapterCheck (adapter : adapterConnection)
  | DeliveryTimeout (key : string)
  | RejectDeliveries (adapter : adapterConnection) (reason : string)
  | Flush (adapter : adapterConnection) (batch : list (Event * PendingEvent)).

(** The reservation in the Store that a durable frame is sent under. *)
Inductive delivery := LedgerDelivery | RunControlDelivery | SettingsDelivery | ExecuteDelivery | FileReferenceDelivery.

#[global] Instance delivery_eq_dec : EqDecision delivery.
Proof. solve_decision. Defined.

Inductive effect : Type :=
  | StoreCall (o : op)
  | StoreQuery (A : Type) (f : World → A)
  | Memory (A : Type) (f : memory → memory * A)
  | Clock
  | Random
  | Acquire (l : lock)
  | Release (l : lock)
  | WriteAdapter (a : adapterConnection) (f : Frame)
  | WriteDurable (d : delivery) (a : adapterConnection) (f : Frame)
  | WritePeer (peer : nat) (f : Frame)
  | Publish (ev : Event)
  | PublishAdmitted (a : adapterConnection) (ev : Event)
  | Enqueue (a : adapterConnection) (ev : Event) (pending : PendingEvent)
  | Observe (activity : CommandActivity)
  | CloseAdapter (a : adapterConnection)
  | Spawn (t : task).

(** A write answers whether it succeeded, [Acquire] whether the lock was
    obtained before the context ended. *)
Definition answer (e : effect) : Type :=
  match e with
  | StoreCall _ => error + reply
  | StoreQuery A _ | Memory A _ => A
  | Clock => time
  | Random => string
  | Acquire _ | WriteAdapter _ _ | WriteDurable _ _ _ | WritePeer _ _ | PublishAdmitted _ _ | Enqueue _ _ _ => bool
  | Release _ | Publish _ | Observe _ | CloseAdapter _ | Spawn _ => unit
  end.

Inductive prog (R : Type) : Type :=
  | Ret (r : R)
  | Do (e : effect) (k : answer e → prog R).
Arguments Ret {R} r.
Arguments Do {R} e k.

#[global] Instance prog_ret : MRet prog := @Ret.

#[global] Instance prog_bind : MBind prog := λ A B f, fix bind p :=
  match p with
  | Ret r => f r
  | Do e k => Do e (λ x, bind (k x))
  end.

Definition perform (e : effect) : prog (answer e) := Do e Ret.

(** ** Goroutines and their environment *)

(** What can be seen from outside, in order. *)
Inductive action :=
  | Stored (outs : list output)
  | ToAdapter (a : adapterConnection) (f : Frame)
  | DurableToAdapter (d : delivery) (a : adapterConnection) (f : Frame)
  | ToPeer (peer : nat) (f : Frame)
  | Published (ev : Event)
  | Observed (activity : CommandActivity)
  | Restarted.

Record config := mkConfig {
  world : World;
  mem : memory;
  held : gmap lock nat;
  threads : list (prog unit);
  trace : list action;
}.

Definition newConfig (clk : nat → Z) : config := mkConfig (new_world clk) newMemory ∅ [] [].

(** What the environment decides about one step. *)
Record choices := mkChoices { ok : bool; written : bool; now : time; random : string }.

Definition fine : choices := mkChoices true true 0 "".

Inductive choice :=
  | Run (thread : nat) (c : choices)
  | Start (t : task)
  | External (c : call)
  | Crash.

(** [withAdmission]: a connection transaction around an effect that can fail. *)
Definition admittedEffect (a : adapterConnection) (success : bool) : call :=
  Transaction (StoreOps.Do (OpEffectAdmission (sessionID a) (admission a))
                 (λ r, match r with inl _ => Return false | inr _ => Return success end)).

Definition admits (outs : list output) : bool :=
  match outs with [(_, inr _)] => true | _ => false end.

(** The gates of a Session can be left when the context ends; mutexes cannot. *)
Definition cancellable (l : lock) : bool := match l with Publication _ => true | _ => false end.

Section run.
Context (body : task → prog unit).

(** One effect of thread [i]: the next configuration without the thread, and
    the answer it continues with; [None] when it has to wait. *)
Definition execute (i : nat) (c : choices) (g : config) (e : effect) : option (config * answer e) :=
  let '(mkConfig w m h ts tr) := g in
  match e return option (config * answer e) with
  | StoreCall o => let '(w', outs) := run_call (Call o) w in
      match outs with
      | [(_, r)] => Some (mkConfig w' m h ts (tr ++ [Stored outs]), r)
      | _ => None
      end
  | StoreQuery A f => Some (g, f w)
  | Memory A f => let '(m', a) := f m in Some (mkConfig w m' h ts tr, a)
  | Clock => Some (g, now c)
  | Random => Some (g, random c)
  | Acquire l =>
      if cancellable l && negb (ok c) then Some (g, false)
      else match h !! l with
           | Some _ => None
           | None => Some (mkConfig w m (<[l := i]> h) ts tr, true)
           end
  | Release l => Some (mkConfig w m (delete l h) ts tr, tt)
  | WriteAdapter a f => Some (mkConfig w m h ts (tr ++ (if written c then [ToAdapter a f] else [])), written c && ok c)
  | WriteDurable d a f =>
      let '(w', outs) := run_call (admittedEffect a (written c && ok c)) w in
      let sent := admits outs && written c in
      Some (mkConfig w' m h ts (tr ++ Stored outs :: (if sent then [DurableToAdapter d a f] else [])), sent && ok c)
  | WritePeer p f => Some (mkConfig w m h ts (tr ++ (if written c then [ToPeer p f] else [])), written c && ok c)
  | Publish ev => Some (mkConfig w m h ts (tr ++ [Published ev]), tt)
  | PublishAdmitted a ev =>
      let '(w', outs) := run_call (admittedEffect a true) w in
      Some (mkConfig w' m h ts (tr ++ Stored outs :: (if admits outs then [Published ev] else [])), admits outs)
  | Enqueue _ _ _ => Some (g, ok c)
  | Observe a => Some (mkConfig w m h ts (tr ++ [Observed a]), tt)
  | CloseAdapter a => Some (g, tt)
  | Spawn t => Some (mkConfig w m h (ts ++ [body t]) tr, tt)
  end.

Definition setThread (i : nat) (p : prog unit) (g : config) : config :=
  mkConfig (world g) (mem g) (held g) (<[i := p]> (threads g)) (trace g).

Definition step (g : config) (ch : choice) : option config :=
  match ch with
  | Run i c =>
      match threads g !! i with
      | Some (Do e k) => '(g', x) ← execute i c g e; Some (setThread i (k x) g')
      | _ => None
      end
  | Start t => Some (mkConfig (world g) (mem g) (held g) (threads g ++ [body t]) (trace g))
  | External c => let '(w, outs) := run_call c (world g) in
      Some (mkConfig w (mem g) (held g) (threads g) (trace g ++ [Stored outs]))
  | Crash => Some (mkConfig (world g) newMemory ∅ [] (trace g ++ [Restarted]))
  end.

Fixpoint steps (g : config) (chs : list choice) : option config :=
  match chs with
  | [] => Some g
  | ch :: chs => g' ← step g ch; steps g' chs
  end.
End run.

(** A thread that runs alone until it ends or waits. *)
Fixpoint alone (body : task → prog unit) (fuel : nat) (i : nat) (c : choices) (g : config) : config :=
  match fuel with
  | O => g
  | S fuel => match step body g (Run i c) with Some g' => alone body fuel i c g' | None => g end
  end.

End HubProgram.
