(* ===== verification/HubCommands.v ===== *)
(** * Commands through the Hub

    [hub/websocket.go]: how a command of a client reaches the Adapter of its
    Session and how the answer comes back, as programs over the effects of
    [HubProgram].  The Store is the SQLite Store, so a session.send goes
    through the durable command ledger, and no activity observer is configured
    for Adapters.  The handler of session.attach is not part of this file. *)

From S2P Require Import Prelude StoreApi Json Wire GoText Frames EncryptedPacket CodecPayloads Sqlite EventLog Connections.
From S2P Require Import CommandLedger RunControl Settings FileReferences StoreOps Auth Handshake HubProgram.
From stdpp Require Import base gmap strings list option.
#[local] Open Scope Z_scope.

Module HubCommands.
Import Json Wire GoText Frames Connections StoreOps HubProgram.

(** ** Constants *)

Definition maxPendingCommandsPerSession : nat := 64.
Definition pendingCommandTTL : Z := 10 * Auth.minute.
Definition pendingCommandAckTimeout : Z := 30 * Auth.second.
Definition maxAcceptedCommandIDs : nat := 4096.
Definition maxDecisionRequestIDs : nat := 4096.

Definition CommandSessionSend : string := "session.send".
Definition CommandSessionAttach : string := "session.attach".
Definition CommandPermissionRespond : string := "permission.respond".
Definition CommandSessionInterrupt : string := "session.interrupt".
Definition CommandSessionStop : string := "session.stop".
Definition CommandSettingsChange : string := "session.settings.change".
Definition CommandMembershipChange : string := "session.membership.change".
Definition CommandFileRead : string := "session.file.read".
Definition CommandFileList : string := "session.file.list".

Definition AckAccepted : string := "accepted".
Definition AckDuplicate : string := "duplicate".
Definition AckRejected : string := "rejected".

(** ** Pure parts *)

(** The bytes of a raw payload. *)
Definition payloadText (p : RawMessage) : string := match p with NilRaw => "" | Raw t => t end.

Definition clonePayload (p : RawMessage) : RawMessage := if bool_decide (payloadText p = "") then NilRaw else p.

Definition cloneCommand (cmd : Command) : Command :=
  mkCommand (cmd_CommandID cmd) (cmd_Type cmd) (cmd_SessionID cmd) (clonePayload (cmd_Payload cmd)).

Definition isRunControlCommand (commandType : string) : bool :=
  bool_decide (commandType = CommandSessionInterrupt) || bool_decide (commandType = CommandSessionStop).

Definition runControlOperation (commandType : string) : string :=
  if bool_decide (commandType = CommandSessionStop) then RunControl.RunControlStop else RunControl.RunControlInterrupt.

Definition validateClientCommand (cmd : Command) : bool :=
  bool_decide (cmd_CommandID cmd ≠ "") && bool_decide (cmd_Type cmd ≠ "") && bool_decide (cmd_SessionID cmd ≠ "")
  && if bool_decide (cmd_Type cmd = CommandSettingsChange)
     then bool_decide (is_Some (CodecPayloads.DecodeSettingsChangePayload (payloadText (cmd_Payload cmd))))
     else bool_decide (cmd_Type cmd ∈ [CommandSessionSend; CommandPermissionRespond; CommandSessionInterrupt; CommandSessionStop;
                                       CommandMembershipChange; CommandFileRead; CommandSessionAttach]).

Definition validateClientCommandMode (cmd : Command) (mode : string) : bool :=
  if bool_decide (mode ≠ Handshake.ContentModeRequired) || bool_decide (cmd_Type cmd = CommandSessionAttach) then validateClientCommand cmd
  else bool_decide (cmd_SessionID cmd ≠ "") && CommandLedger.ValidEncryptedCommandType (cmd_Type cmd)
       && bool_decide (is_Some (EncryptedPacket.DecodeEncryptedPacketCarrier (payloadText (cmd_Payload cmd)) "command" (cmd_Type cmd) (cmd_CommandID cmd))).

Definition hasLiteralSessionControl (principal : Auth.Principal) (sessionID : string) : bool :=
  existsb (λ scope, bool_decide (Auth.Kind scope = Auth.KindSession) && bool_decide (Auth.ID scope = sessionID)
                    && bool_decide (Auth.Access scope = Auth.AccessControl)) (Auth.Scopes principal).

(** [None] is the empty action, which no admission allows. *)
Definition commandAdmissionAction (commandType : string) : option Auth.SessionAdmissionAction :=
  if bool_decide (commandType = CommandSessionSend) then Some Auth.SessionAdmissionSend
  else if bool_decide (commandType = CommandPermissionRespond) then Some Auth.SessionAdmissionPermission
  else if isRunControlCommand commandType then Some Auth.SessionAdmissionRunControl
  else if bool_decide (commandType = CommandSettingsChange) then Some Auth.SessionAdmissionSettings
  else if bool_decide (commandType = CommandMembershipChange) then Some Auth.SessionAdmissionRotation
  else if bool_decide (commandType ∈ [CommandFileRead; CommandFileList]) then Some Auth.SessionAdmissionSend
  else None.

Definition admitted (accepted : Handshake.AcceptedPeer) (cmd : Command) : bool :=
  match commandAdmissionAction (cmd_Type cmd) with
  | Some action => Handshake.allows accepted (cmd_SessionID cmd) action
  | None => false
  end.

Definition commandNeedsPersistence (commandType : string) : bool :=
  bool_decide (commandType = CommandSessionSend) || bool_decide (commandType = CommandPermissionRespond).

Definition commandCanBuffer (commandType : string) : bool :=
  bool_decide (commandType = CommandSessionSend) || bool_decide (commandType = CommandPermissionRespond).

(** A null payload, which leaves the map nil, makes the assignment panic; a
    session.send with such a payload is refused before. *)
Definition userMessagePayload (cmd : Command) : option string :=
  fields ← (if bool_decide (payloadText (cmd_Payload cmd) = "") then Some [] else unmarshalMap (payloadText (cmd_Payload cmd)));
  let id := marshalString (cmd_CommandID cmd) in
  let fields := if bool_decide (get "message_id" fields = None) then put "message_id" (mkRaw id (JString (cmd_CommandID cmd))) fields else fields in
  Some (marshalMap (put "role" (mkRaw (marshalString "user") (JString "user")) fields)).

Definition commandEventPayload (cmd : Command) : option (string * string) :=
  if bool_decide (cmd_Type cmd = CommandSessionSend) then (λ p, ("session.message", p)) <$> userMessagePayload cmd
  else if bool_decide (cmd_Type cmd = CommandPermissionRespond) then
    if bool_decide (is_Some (parse (payloadText (cmd_Payload cmd)))) then Some ("permission.decision", payloadText (cmd_Payload cmd)) else None
  else None.

(** The empty string is no key. *)
Definition permissionDecisionKey (cmd : Command) : string :=
  if bool_decide (cmd_Type cmd ≠ CommandPermissionRespond) then ""
  else match unmarshalStrings ["request_id"] (payloadText (cmd_Payload cmd)) with
       | Some [requestID] => if bool_decide (requestID = "") then "" else cmd_SessionID cmd +:+ ":" +:+ requestID
       | _ => ""
       end.

Definition settingsCommandKey (sessionID commandID : string) : string := sessionID +:+ string_of [0] +:+ commandID.

(** [err.Error()] *)
Fixpoint errorText (e : error) : string :=
  match e with
  | ErrNoRows => "sql: no rows in result set"
  | ErrConstraint what => "constraint failed: " +:+ what
  | Err msg => msg
  | Wrap msg e => msg +:+ ": " +:+ errorText e
  end.

Definition Contains (s sub : string) : bool := bool_decide (is_Some (String.index 0 sub s)).

Definition eventOf (sid type payload : string) (seq : Z) (at_ : time) : Event :=
  Frames.mkEvent type sid (Some seq) (UnixMilli at_) (clonePayload (Raw payload)) "".

Definition commandActivity (cmd : Command) (persisted : option Event) (now : time) : CommandActivity :=
  mkActivity (cmd_SessionID cmd) (cmd_CommandID cmd) (cmd_Type cmd)
    (match persisted with Some ev => if bool_decide (0 < ev_Time ev) then of_UnixMilli (ev_Time ev) else now | None => now end)
    (persisted ≫= ev_Seq).

Definition fileReferenceRequestAllowed (request : CodecPayloads.FileReferenceSendPayload)
    (capability : CodecPayloads.FileReferenceCapabilityPayload) : bool :=
  let within (limit : option Z) (bytes : Z) := match limit with Some l => bool_decide (bytes ≤ l) | None => false end in
  let one (r : CodecPayloads.FileReferencePart) :=
    if bool_decide (CodecPayloads.fp_Disposition r = "file") then
      bool_decide (CodecPayloads.fd_Mode (CodecPayloads.fc_File capability) = "allowed")
      && within (CodecPayloads.fd_MaxBytes (CodecPayloads.fc_File capability)) (CodecPayloads.fp_Bytes r)
    else
      bool_decide (CodecPayloads.fi_Mode (CodecPayloads.fc_Image capability) = "allowed")
      && within (CodecPayloads.fi_MaxBytes (CodecPayloads.fc_Image capability)) (CodecPayloads.fp_Bytes r)
      && match CodecPayloads.fp_MediaType r with
         | Some t => bool_decide (t ∈ elems (CodecPayloads.fi_MediaTypes (CodecPayloads.fc_Image capability)))
         | None => false
         end in
  let go := fix go (total : Z) (l : list CodecPayloads.FileReferencePart) : bool :=
    match l with
    | [] => true
    | r :: l =>
        let total := i64 (total + CodecPayloads.fp_Bytes r) in
        bool_decide (total ≤ CodecPayloads.fc_MaxTotalBytes capability) && one r && go total l
    end in
  bool_decide (1 ≤ CodecPayloads.fs_ReferenceCount request)
  && bool_decide (CodecPayloads.fs_ReferenceCount request ≤ CodecPayloads.fc_MaxReferences capability)
  && bool_decide (Z.of_nat (length (CodecPayloads.fs_References request)) = CodecPayloads.fs_ReferenceCount request)
  && go 0 (CodecPayloads.fs_References request).

Definition fileReferenceForwardPayload (cmd : Command) : option string :=
  fields ← unmarshalMap (payloadText (cmd_Payload cmd));
  if bool_decide (get "message_id" fields = None)
  then Some (marshalMap (put "message_id" (mkRaw (marshalString (cmd_CommandID cmd)) (JString (cmd_CommandID cmd))) fields))
  else None.

Definition durableSessionState (payload : string) : option string :=
  let sealed :=
    match EncryptedPacket.DecodeEncryptedPacketCarrier payload "event" "session.state" "" with
    | Some carrier => if bool_decide (EncryptedPacket.State (EncryptedPacket.Public carrier) = "") then None
                      else Some (EncryptedPacket.State (EncryptedPacket.Public carrier))
    | None => None
    end in
  match unmarshalStrings ["state"] payload with
  | Some [state] => if bool_decide (state = "") then sealed else Some state
  | _ => sealed
  end.

(** ** Store calls with typed results *)

Definition typed {A} (pick : reply → option A) (o : op) : prog (error + A) :=
  r ← perform (StoreCall o);
  mret (match r with
        | inl e => inl e
        | inr r => match pick r with Some a => inr a | None => inl (Err "unexpected reply") end
        end).

Definition asCommit (r : reply) := match r with RCommit c => Some c | _ => None end.
Definition asClaim (r : reply) := match r with RClaim c => Some c | _ => None end.
Definition asCommand (r : reply) := match r with RCommand c => Some c | _ => None end.
Definition asCommands (r : reply) := match r with RCommands l => Some l | _ => None end.
Definition asSeq (r : reply) := match r with RSeq s => Some s | _ => None end.
Definition asFence (r : reply) := match r with RFence f => Some f | _ => None end.
Definition asConnection (r : reply) := match r with RConnection c => Some c | _ => None end.
Definition asReceipt (r : reply) := match r with RReceipt c => Some c | _ => None end.
Definition asReserve (r : reply) := match r with RReserve c => Some c | _ => None end.
Definition asReservation (r : reply) := match r with RReservation c => Some c | _ => None end.
Definition asReservations (r : reply) := match r with RReservations l => Some l | _ => None end.
Definition asSettings (r : reply) := match r with RSettings c => Some c | _ => None end.
Definition asSettingsReserve (r : reply) := match r with RSettingsReserve c => Some c | _ => None end.
Definition asSettingsList (r : reply) := match r with RSettingsList l => Some l | _ => None end.
Definition asFile (r : reply) := match r with RFile c => Some c | _ => None end.
Definition asFileCommit (r : reply) := match r with RFileCommit c => Some c | _ => None end.

(** The event of a Session with a given number, as [Replay] finds it. *)
Definition eventWithSeq (sid : string) (seq : Z) (w : World) : option StoreApi.Event :=
  snd <$> list_find (λ ev : StoreApi.Event, StoreApi.Seq ev = seq) (EventLog.replayed (db w) sid (seq - 1)).

Definition frameOf (ev : StoreApi.Event) : Event :=
  eventOf (StoreApi.SessionID ev) (StoreApi.Type_ ev) (StoreApi.Payload ev) (StoreApi.Seq ev) (StoreApi.Time ev).

Definition eventAt (sid : string) (seq : Z) : prog (option Event) :=
  if bool_decide (seq < 1) then mret None
  else ev ← perform (StoreQuery (option StoreApi.Event) (eventWithSeq sid seq)); mret (frameOf <$> (ev : option StoreApi.Event)).

(** ** Locks and tables *)

Definition locked {A} (l : lock) (p : prog A) : prog A :=
  perform (Acquire l) ≫= λ _, p ≫= λ x, perform (Release l) ≫= λ _, mret x.

Definition memoryOf {A} (f : memory → memory * A) : prog A := perform (Memory A f).

(** A section of [commandMu]. *)
Definition commands {A} (f : memory → memory * A) : prog A := locked CommandMu (memoryOf f).

Definition withSessionPublication {A} (sid : string) (publish : prog (error + A)) : prog (error + A) :=
  got ← perform (Acquire (Publication sid));
  if got : bool then publish ≫= λ r, perform (Release (Publication sid)) ≫= λ _, mret r
  else mret (inl (Err "context canceled")).

Definition settingsCurrentAdapter (sid : string) : prog (option adapterConnection) := memoryOf (λ m, (m, adapters m !! sid)).

(** [settingsCurrentAdapter(sid) != adapter], negated. *)
Definition isCurrent (a : adapterConnection) : prog bool :=
  memoryOf (λ m, (m, match adapters m !! sessionID a with Some b => same a b | None => false end)).

Definition settingsClient (key : string) : prog (option nat) := commands (λ m, (m, settingsClients m !! key)).
Definition removeSettingsClient (key : string) : prog unit := commands (λ m, (setSettingsClients (delete key) m, ())).
Definition runControlClient (key : string) : prog (option nat) := commands (λ m, (m, runControlClients m !! key)).
Definition removeRunControlClient (key : string) : prog unit := commands (λ m, (setRunClients (delete key) m, ())).
Definition pendingCommandClientOf (key : string) : prog (option pendingCommandClient) := commands (λ m, (m, pendingCommandClients m !! key)).

(** Its timer is the environment's [DeliveryTimeout]. *)
Definition takePendingCommandClient (key : string) : prog (option pendingCommandClient) :=
  commands (λ m, (setPendingClients (delete key) m, pendingCommandClients m !! key)).

Definition addPendingCommandClient (key : string) (adapter : adapterConnection) (peer : option nat) (commandID commandType : string) : prog unit :=
  commands (λ m, (setPendingClients (insert key (mkPendingClient adapter peer commandID commandType)) m, ())).

(** The oldest entries leave when there are too many. *)
Fixpoint trim (limit : nat) (known : gset string) (order : list string) : gset string * list string :=
  if bool_decide (length order ≤ limit)%nat then (known, order)
  else match order with
       | [] => (known, order)
       | oldest :: order => trim limit (known ∖ {[oldest]}) order
       end.

Definition remember (limit : nat) (id : string) (known : gset string) (order : list string) : gset string * list string :=
  if bool_decide (id ∈ known) then (known, order) else trim limit (known ∪ {[id]}) (order ++ [id]).

Definition markCommandAcceptedLocked (id : string) (m : memory) : memory :=
  let '(known, order) := remember maxAcceptedCommandIDs id (acceptedCommands m) (acceptedCommandOrder m) in setAccepted known order m.

Definition markDecisionAcceptedLocked (id : string) (m : memory) : memory :=
  let '(known, order) := remember maxDecisionRequestIDs id (decisions m) (decisionOrder m) in setDecisions known order m.

Definition prunePendingCommandsLocked (sid : string) (now : time) (m : memory) : memory * list queuedCommand :=
  let filtered := filter (λ q, now < expiresAt q) (default [] (pendingCommands m !! sid)) in
  (setPending (λ p, if bool_decide (filtered = []) then delete sid p else <[sid := filtered]> p) m, filtered).

Definition bufferCommandLocked (cmd : Command) (now : time) (m : memory) : memory * bool :=
  let '(m, filtered) := prunePendingCommandsLocked (cmd_SessionID cmd) now m in
  if bool_decide (maxPendingCommandsPerSession ≤ length filtered)%nat then (m, false)
  else (setPending (insert (cmd_SessionID cmd) (filtered ++ [mkQueued (cloneCommand cmd) (now + pendingCommandTTL)])) m, true).

(** ** Writing to peers and Adapters *)

Definition writeCommandAck (peer : nat) (commandID status reason : string) : prog unit :=
  perform (WritePeer peer (FCommandAck (mkCommandAck commandID status reason))) ≫= λ _, mret ().

Definition writePendingCommandAck (peer : option nat) (commandID status reason : string) : prog unit :=
  match peer with Some peer => writeCommandAck peer commandID status reason | None => mret () end.

Definition removeAdapter (a : adapterConnection) : prog unit :=
  memoryOf (λ m, (setAdapters (λ ads, match ads !! sessionID a with Some b => if same a b then delete (sessionID a) ads else ads | None => ads end) m, ())).

Definition rejectAdapter (a : adapterConnection) : prog unit := removeAdapter a ≫= λ _, perform (CloseAdapter a).

Definition validateAdapter (a : adapterConnection) : prog bool :=
  r ← perform (StoreCall (OpConn (OpAdmission (sessionID a) (admission a))));
  current ← isCurrent a;
  match (r : error + reply) with
  | inr _ => if current : bool then mret true else rejectAdapter a ≫= λ _, mret false
  | inl _ => rejectAdapter a ≫= λ _, mret false
  end.

Definition writeAdapterFrame (a : adapterConnection) (f : Frame) : prog bool :=
  locked (EffectMu (conn a)) (valid ← validateAdapter a; if valid : bool then perform (WriteAdapter a f) else mret false).

Definition writeDurableAdapterFrame (d : delivery) (a : adapterConnection) (f : Frame) : prog bool :=
  locked (EffectMu (conn a)) (perform (WriteDurable d a f)).

(** One section between [lockAdapterAdmission] and its unlock. *)
Definition withAdapterAdmission {A} (sid : string) (p : option adapterConnection → prog A) : prog A :=
  perform (Acquire (Admission sid)) ≫= λ _,
  settingsCurrentAdapter sid ≫= λ current,
  (match current with Some c => perform (Acquire (EffectMu (conn c))) | None => mret true end) ≫= λ _,
  p current ≫= λ x,
  (match current with Some c => perform (Release (EffectMu (conn c))) | None => mret () end) ≫= λ _,
  perform (Release (Admission sid)) ≫= λ _,
  mret x.

Definition unregisterAdapter (a : adapterConnection) : prog unit :=
  perform (Spawn (RejectDeliveries a "adapter_delivery_failed")) ≫= λ _,
  withAdapterAdmission (sessionID a) (λ _, removeAdapter a).

(** ** Durable commands *)

Definition isRequired (mode : string) : bool := bool_decide (mode = Handshake.ContentModeRequired).

Definition authorityOf (a : adapterConnection) : CommandAuthority :=
  mkAuthority (ad_ConnectionEpoch (admission a)) (ad_CredentialGeneration (admission a)).

Definition resolvePendingCommandUnknown (sid cmd mode : string) : prog unit :=
  if bool_decide (sid = "") || bool_decide (cmd = "") then mret ()
  else perform (StoreCall (OpUnknown sid cmd (isRequired mode))) ≫= λ _, mret ().

Definition expirePendingCommandClient (key : string) : prog unit :=
  client ← takePendingCommandClient key;
  match client with
  | None => mret ()
  | Some c =>
      let a := pc_adapter c in
      resolvePendingCommandUnknown (sessionID a) (pc_commandID c) (contentMode a) ≫= λ _,
      unregisterAdapter a ≫= λ _,
      perform (CloseAdapter a) ≫= λ _,
      writePendingCommandAck (pc_peer c) (pc_commandID c) AckRejected "adapter_delivery_timeout"
  end.

Fixpoint forEach {A} (l : list A) (p : A → prog unit) : prog unit :=
  match l with [] => mret () | x :: l => p x ≫= λ _, forEach l p end.

(** The order of the clients is that of the map. *)
Definition rejectPendingCommandDeliveries (a : adapterConnection) (reason : string) : prog unit :=
  clients ← commands (λ m,
    (setPendingClients (filter (λ kc : string * pendingCommandClient, same (pc_adapter kc.2) a = false)) m,
     (map_to_list (filter (λ kc : string * pendingCommandClient, same (pc_adapter kc.2) a = true) (pendingCommandClients m))).*2));
  forEach clients (λ c,
    resolvePendingCommandUnknown (sessionID a) (pc_commandID c) (contentMode a) ≫= λ _,
    writePendingCommandAck (pc_peer c) (pc_commandID c) AckRejected reason).

Definition handleDurableSessionSendMode (peer : nat) (cmd : Command) (encrypted : bool) : prog unit :=
  let sid := cmd_SessionID cmd in
  let id := cmd_CommandID cmd in
  let ack := writeCommandAck peer id in
  settingsCurrentAdapter sid ≫= λ current,
  match current with
  | None => ack AckRejected "adapter_offline"
  | Some adapter =>
      (if encrypted then mret false else commands (λ m, (m, bool_decide (id ∈ acceptedCommands m)))) ≫= λ duplicate : bool,
      if duplicate then ack AckDuplicate ""
      else if negb (Bool.eqb encrypted (isRequired (contentMode adapter))) then ack AckRejected "content_mode_mismatch"
      else
        let event :=
          if encrypted
          then (λ _, ("session.command", payloadText (cmd_Payload cmd)))
               <$> EncryptedPacket.DecodeEncryptedPacketCarrier (payloadText (cmd_Payload cmd)) "command" (cmd_Type cmd) id
          else commandEventPayload cmd in
        match event with
        | None => ack AckRejected "invalid_command"
        | Some (eventType, payload) =>
            perform Clock ≫= λ eventTime : time,
            let authority := authorityOf adapter in
            withSessionPublication sid (
              typed asCommit (OpCommit sid authority (mkPendingEvent eventType eventTime payload)
                (CommandLedger.mkRequest id (cmd_Type cmd) (eventTime + (pendingCommandAckTimeout - Auth.second))) encrypted) ≫= λ commit,
              match commit with
              | inl e => mret (inl e)
              | inr commit =>
                  if CommandLedger.Duplicate commit then mret (inr (commit, None))
                  else
                    let event := eventOf sid eventType payload (CommandLedger.cm_EventSeq (CommandLedger.Command commit)) eventTime in
                    perform (Publish event) ≫= λ _, mret (inr (commit, Some event))
              end) ≫= λ committed,
            match committed with
            | inl _ => ack AckRejected "persist_failed"
            | inr (commit, persisted) =>
                if CommandLedger.Duplicate commit then ack AckDuplicate ""
                else
                  typed asClaim (OpClaim sid authority id encrypted) ≫= λ claim,
                  match claim with
                  | inr claim =>
                      if CommandLedger.Claimed claim && bool_decide (CommandLedger.cm_Status (CommandLedger.cl_Command claim) = "received")
                      then
                        let key := settingsCommandKey sid id in
                        addPendingCommandClient key adapter (Some peer) id (cmd_Type cmd) ≫= λ _,
                        writeDurableAdapterFrame LedgerDelivery adapter (FCommand (cloneCommand cmd)) ≫= λ sent : bool,
                        if sent then
                          perform Clock ≫= λ now : time, perform (Observe (commandActivity cmd persisted now))
                        else
                          takePendingCommandClient key ≫= λ _,
                          resolvePendingCommandUnknown sid id (contentMode adapter) ≫= λ _,
                          unregisterAdapter adapter ≫= λ _,
                          perform (CloseAdapter adapter) ≫= λ _,
                          ack AckRejected "adapter_delivery_failed"
                      else
                        resolvePendingCommandUnknown sid id (contentMode adapter) ≫= λ _,
                        ack AckRejected "adapter_delivery_failed"
                  | inl _ =>
                      resolvePendingCommandUnknown sid id (contentMode adapter) ≫= λ _,
                      ack AckRejected "adapter_delivery_failed"
                  end
            end
        end
  end.

(** [None] where the code returns an error. *)
Definition commandFromPendingEvent (pending : CommandLedger.PendingCommand) (encrypted : bool) (w : World) : option Command :=
  let id := CommandLedger.cm_CommandID pending in
  event ← eventWithSeq (CommandLedger.cm_SessionID pending) (CommandLedger.cm_EventSeq pending) w;
  type ← (if bool_decide (StoreApi.Type_ event = "session.message") then if encrypted then None else Some CommandSessionSend
          else if bool_decide (StoreApi.Type_ event = "session.command") then
            if encrypted && CommandLedger.ValidEncryptedCommandType (CommandLedger.cm_Type pending)
               && bool_decide (is_Some (EncryptedPacket.DecodeEncryptedPacketCarrier (StoreApi.Payload event) "command" (CommandLedger.cm_Type pending) id))
            then Some (CommandLedger.cm_Type pending) else None
          else None);
  Some (mkCommand id type (CommandLedger.cm_SessionID pending) (clonePayload (Raw (StoreApi.Payload event)))).

(** The loop over the durable commands of a Session; [false] is an error. *)
Fixpoint deliverDurable (adapter : adapterConnection) (pending : list CommandLedger.PendingCommand) : prog bool :=
  match pending with
  | [] => mret true
  | command :: pending =>
      let sid := sessionID adapter in
      let id := CommandLedger.cm_CommandID command in
      let enc := isRequired (contentMode adapter) in
      let rest := deliverDurable adapter pending in
      typed asClaim (OpClaim sid (authorityOf adapter) id enc) ≫= λ claim,
      match claim with
      | inl _ => mret false
      | inr claim =>
          if bool_decide (CommandLedger.cm_Status (CommandLedger.cl_Command claim) ≠ "received") then rest
          else if negb (CommandLedger.Claimed claim) then
            typed asCommand (OpUnknown sid id enc) ≫= λ r, match r with inl _ => mret false | inr _ => rest end
          else
            perform (StoreQuery (option Command) (commandFromPendingEvent (CommandLedger.cl_Command claim) enc)) ≫= λ routed : option Command,
            match routed with
            | None => typed asCommand (OpUnknown sid id enc) ≫= λ r, match r with inl _ => mret false | inr _ => rest end
            | Some routed =>
                let key := settingsCommandKey sid id in
                addPendingCommandClient key adapter None id (CommandLedger.cm_Type command) ≫= λ _,
                writeDurableAdapterFrame LedgerDelivery adapter (FCommand routed) ≫= λ sent : bool,
                if sent then rest
                else
                  takePendingCommandClient key ≫= λ _,
                  typed asCommand (OpUnknown sid id enc) ≫= λ _,
                  unregisterAdapter adapter ≫= λ _,
                  mret false
            end
      end
  end.

(** The buffered commands, in order; those after a failed write stay. *)
Fixpoint deliverBuffered (adapter : adapterConnection) (now : time) (pending : list queuedCommand) : prog bool :=
  match pending with
  | [] => memoryOf (λ m, (setPending (delete (sessionID adapter)) m, true))
  | queued :: rest =>
      if bool_decide (expiresAt queued ≤ now) then deliverBuffered adapter now rest
      else
        writeAdapterFrame adapter (FCommand (cloneCommand (command queued))) ≫= λ sent : bool,
        if sent then deliverBuffered adapter now rest
        else
          memoryOf (λ m, (setPending (insert (sessionID adapter) (queued :: rest)) m, ())) ≫= λ _,
          unregisterAdapter adapter ≫= λ _,
          mret false
  end.

Definition deliverPendingCommands (adapter : adapterConnection) : prog bool :=
  typed asCommands (OpList (sessionID adapter) (authorityOf adapter) (isRequired (contentMode adapter))) ≫= λ pending,
  match pending with
  | inl _ => mret false
  | inr pending =>
      deliverDurable adapter pending ≫= λ go : bool,
      if go then
        locked CommandMu (
          perform Clock ≫= λ now : time,
          memoryOf (λ m, (m, default [] (pendingCommands m !! sessionID adapter))) ≫= λ queue,
          deliverBuffered adapter now queue)
      else mret false
  end.

(** ** Run controls *)

(** The last durable state of a Session and its number; [None] is an error. *)
Definition currentRunControlState (sid : string) (w : World) : option (string * Z) :=
  let states := filter (λ ev : StoreApi.Event, StoreApi.Type_ ev = "session.state") (EventLog.replayed (db w) sid 0) in
  resolved ← mapM (λ ev : StoreApi.Event, (λ s, (s, StoreApi.Seq ev)) <$> durableSessionState (StoreApi.Payload ev)) states;
  '(state, seq) ← list.last resolved;
  if bool_decide (seq < 1) then None else Some (state, seq).

Definition runControlTerminalEvents (sid : string) (reservation : RunControl.RunControlReservation) : prog (option (list Event)) :=
  match RunControl.rs_TerminalEventSeq reservation with
  | None => mret None
  | Some seq =>
      if bool_decide (RunControl.rs_Outcome reservation = RunControl.RunControlPending) then mret None
      else
        eventAt sid seq ≫= λ outcome,
        match outcome with
        | None => mret None
        | Some outcome =>
            if bool_decide (ev_Type outcome ≠ "session.run.outcome")
               || bool_decide (CodecPayloads.DecodeRunControlOutcomePayload (payloadText (ev_Payload outcome)) = None) then mret None
            else if bool_decide (RunControl.rs_Outcome reservation = RunControl.RunControlCompleted) then
              eventAt sid (i64 (seq - 1)) ≫= λ state,
              mret (match state with
                    | Some state => if bool_decide (ev_Type state = "session.state") then Some [state; outcome] else None
                    | None => None
                    end)
            else mret (Some [outcome])
        end
  end.

Definition runControlReserveFailureReason (sid commandType : string) (err : error) : prog string :=
  let text := errorText err in
  if Contains text "ID is reused" then mret "cmd_id_reused"
  else if Contains text "unsupported" then
    mret (if bool_decide (commandType = CommandSessionStop) then "stop_unsupported" else "interrupt_unsupported")
  else if Contains text "stale" || Contains text "writer is fenced" || Contains text "capability" then mret "run_control_unavailable"
  else if Contains text "state" then mret "run_control_invalid_state"
  else
    typed asReservations (OpControls sid) ≫= λ pending,
    mret (match pending with inr (_ :: _) => "run_control_pending" | _ => "internal_error" end).

Definition handleRunControl (peer : nat) (accepted : Handshake.AcceptedPeer) (cmd : Command) : prog unit :=
  let sid := cmd_SessionID cmd in
  let id := cmd_CommandID cmd in
  let ack := writeCommandAck peer id in
  if bool_decide (Handshake.PeerVersion accepted ≠ ProtocolVersionV2) then ack AckRejected "run_control_unavailable"
  else
    settingsCurrentAdapter sid ≫= λ current,
    match current with
    | None => ack AckRejected "run_control_unavailable"
    | Some adapter =>
        if bool_decide (protocolVersion adapter ≠ ProtocolVersionV2) then ack AckRejected "run_control_unavailable"
        else
          perform (StoreQuery (option (string * Z)) (currentRunControlState sid)) ≫= λ state : option (string * Z),
          match state with
          | None => ack AckRejected "run_control_invalid_state"
          | Some (state, stateSeq) =>
              typed asReserve (OpReserve sid (RunControl.mkControlRequest id (runControlOperation (cmd_Type cmd)) state stateSeq (settingsWriter adapter))) ≫= λ reserve,
              match reserve with
              | inl err => runControlReserveFailureReason sid (cmd_Type cmd) err ≫= λ reason, ack AckRejected reason
              | inr reserve =>
                  if RunControl.rv_Duplicate reserve then ack AckDuplicate ""
                  else
                    let key := settingsCommandKey sid id in
                    commands (λ m, (setRunClients (insert key peer) m, ())) ≫= λ _,
                    writeDurableAdapterFrame RunControlDelivery adapter (FCommand (cloneCommand cmd)) ≫= λ sent : bool,
                    if sent then mret ()
                    else
                      removeRunControlClient key ≫= λ _,
                      unregisterAdapter adapter ≫= λ _,
                      typed asReservation (OpRecover sid id "adapter_disconnected") ≫= λ finalized,
                      (match finalized with
                       | inl _ => mret ()
                       | inr finalized =>
                           runControlTerminalEvents sid finalized ≫= λ events,
                           forEach (default [] events) (λ ev, perform (Publish ev))
                       end) ≫= λ _,
                      ack AckRejected "adapter_delivery_failed"
              end
          end
    end.

(** ** Settings changes *)

Definition settingsReserveFailureReason (sid : string) (err : error) : prog string :=
  let text := errorText err in
  if Contains text "ID is reused" then mret "cmd_id_reused"
  else if Contains text "capability is stale" || Contains text "settings writer" then mret "stale_capability"
  else
    typed asSettingsList (OpPendingSettings sid) ≫= λ pending,
    mret (match pending with inr (_ :: _) => "settings_change_pending" | _ => "internal_error" end).

Definition handleSettingsChange (peer : nat) (accepted : Handshake.AcceptedPeer) (cmd : Command) : prog unit :=
  let sid := cmd_SessionID cmd in
  let id := cmd_CommandID cmd in
  let ack := writeCommandAck peer id in
  if bool_decide (Handshake.PeerVersion accepted ≠ ProtocolVersionV2) then ack AckRejected "settings_unsupported"
  else
    match CodecPayloads.DecodeSettingsChangePayload (payloadText (cmd_Payload cmd)) with
    | None => ack AckRejected "invalid_command"
    | Some change =>
        settingsCurrentAdapter sid ≫= λ current,
        match current with
        | None => ack AckRejected "adapter_offline"
        | Some adapter =>
            if bool_decide (protocolVersion adapter ≠ ProtocolVersionV2) then ack AckRejected "adapter_offline"
            else
              typed asSettingsReserve (OpReserveSettings sid
                (Settings.mkSettingsRequest id (CodecPayloads.CapabilityFingerprint change) (CodecPayloads.RequestedModelID change)
                   (CodecPayloads.RequestedReasoningEffortID change) (CodecPayloads.RequestedPermissionModeID change) (settingsWriter adapter))) ≫= λ reserve,
              match reserve with
              | inl err => settingsReserveFailureReason sid err ≫= λ reason, ack AckRejected reason
              | inr reserve =>
                  if Settings.sr_Duplicate reserve then ack AckDuplicate ""
                  else
                    let key := settingsCommandKey sid id in
                    commands (λ m, (setSettingsClients (insert key peer) m, ())) ≫= λ _,
                    writeDurableAdapterFrame SettingsDelivery adapter (FCommand (cloneCommand cmd)) ≫= λ sent : bool,
                    if sent then mret ()
                    else
                      removeSettingsClient key ≫= λ _,
                      unregisterAdapter adapter ≫= λ _,
                      ack AckRejected "adapter_offline"
              end
        end
    end.

(** ** Messages with file references *)

(** The callback under the publication gate: the reservation, and the event
    that was published for it. *)
Definition commitFileReference (adapter : adapterConnection) (cmd : Command) (request : CodecPayloads.FileReferenceSendPayload)
    (durablePayload : string) : prog (error + (FileReferences.FileReferenceCommand * option Event)) :=
  let sid := cmd_SessionID cmd in
  let id := cmd_CommandID cmd in
  perform Clock ≫= λ now : time,
  typed asFileCommit (OpCommitFile sid (mkPendingEvent "session.message" now durablePayload)
    (FileReferences.mkFileRequest id id (CodecPayloads.fs_CapabilityFingerprint request) (CodecPayloads.fs_RequestFingerprint request)
       (CodecPayloads.fs_ReferenceCount request))) ≫= λ reserved,
  match reserved with
  | inl e => mret (inl e)
  | inr reserved =>
      if FileReferences.fr_Duplicate reserved then mret (inr (FileReferences.fr_Command reserved, None))
      else
        let writer := settingsWriter adapter in
        typed asFile (OpAcknowledgeFile sid id (FileReferences.fc_ReservationVersion (FileReferences.fr_Command reserved)) writer) ≫= λ reservation,
        match reservation with
        | inl e => mret (inl e)
        | inr reservation =>
            if bool_decide (FileReferences.fc_Status reservation = FileReferences.FileReferencePending)
               && bool_decide (FileReferences.fc_Writer reservation = Some writer) then
              perform (StoreQuery Z (λ w, latest_seq sid (db w))) ≫= λ seq : Z,
              if bool_decide (seq < 1) then mret (inl (Err "file-reference message sequence is unavailable"))
              else
                perform Clock ≫= λ at_ : time,
                let event := eventOf sid "session.message" durablePayload seq at_ in
                perform (Publish event) ≫= λ _,
                mret (inr (reservation, Some event))
            else mret (inl (Err "file-reference delivery acknowledgement is invalid"))
        end
  end.

(** The recovery of a reservation whose delivery failed. *)
Definition recoverFileReference (cmd : Command) : prog (error + unit) :=
  let sid := cmd_SessionID cmd in
  withSessionPublication sid (
    typed asFile (OpRecoverFile sid (cmd_CommandID cmd) "delivery_unconfirmed") ≫= λ finalized,
    match finalized with
    | inl e => mret (inl e)
    | inr finalized =>
        match FileReferences.fc_TerminalEventSeq finalized with
        | None => mret (inl (Err "file-reference delivery recovery returned no terminal event"))
        | Some seq =>
            eventAt sid seq ≫= λ terminal,
            match terminal with
            | None => mret (inl (Err "durable event is unavailable"))
            | Some terminal =>
                if bool_decide (ev_Type terminal = "session.file_references.outcome")
                then perform (Publish terminal) ≫= λ _, mret (inr ())
                else mret (inl (Err "file-reference delivery recovery returned an invalid event"))
            end
        end
    end).

(** The capability in force, when it admits the request for this Adapter. *)
Definition fileCapabilityAdmits (request : CodecPayloads.FileReferenceSendPayload) (capability : option fileReferenceCapability)
    (adapter : adapterConnection) : bool :=
  match capability with
  | None => false
  | Some capability =>
      bool_decide (CodecPayloads.fc_Fingerprint (fcap_payload capability) = CodecPayloads.fs_CapabilityFingerprint request)
      && bool_decide (protocolVersion adapter = ProtocolVersionV2) && bool_decide (fcap_writer capability = settingsWriter adapter)
      && fileReferenceRequestAllowed request (fcap_payload capability)
  end.

Definition handleFileReferenceSend (peer : nat) (accepted : Handshake.AcceptedPeer) (cmd : Command)
    (request : CodecPayloads.FileReferenceSendPayload) : prog unit :=
  let sid := cmd_SessionID cmd in
  let id := cmd_CommandID cmd in
  let ack := writeCommandAck peer id in
  if bool_decide (Handshake.PeerVersion accepted ≠ ProtocolVersionV2) then ack AckRejected "file_references_unsupported"
  else
    commands (λ m, (m, (bool_decide (id ∈ acceptedCommands m), fileReferenceCapabilities m !! sid))) ≫= λ '(duplicate, capability),
    if duplicate : bool then ack AckDuplicate ""
    else
      settingsCurrentAdapter sid ≫= λ current,
      match current with
      | None => ack AckRejected "file_references_unsupported"
      | Some adapter =>
          if negb (fileCapabilityAdmits request capability adapter) then ack AckRejected "file_references_unsupported"
          else
            match userMessagePayload cmd, fileReferenceForwardPayload cmd with
            | Some durablePayload, Some forwardPayload =>
                withSessionPublication sid (commitFileReference adapter cmd request durablePayload) ≫= λ committed,
                match committed with
                | inl _ => ack AckRejected "persist_failed"
                | inr (reservation, persisted) =>
                    if bool_decide (FileReferences.fc_Status reservation ≠ FileReferences.FileReferencePending) then ack AckDuplicate ""
                    else
                      writeDurableAdapterFrame FileReferenceDelivery adapter (FCommand (mkCommand id (cmd_Type cmd) sid (Raw forwardPayload))) ≫= λ sent : bool,
                      if sent then
                        commands (λ m, (markCommandAcceptedLocked id m, ())) ≫= λ _,
                        perform Clock ≫= λ now : time,
                        perform (Observe (commandActivity cmd persisted now)) ≫= λ _,
                        ack AckAccepted ""
                      else recoverFileReference cmd ≫= λ _, ack AckAccepted ""
                end
            | _, _ => ack AckRejected "invalid_command"
            end
      end.

(** ** Buffered commands *)

Definition persistCommandEvent (cmd : Command) : prog (error + Event) :=
  match commandEventPayload cmd with
  | None => mret (inl (Err "command has no durable event"))
  | Some (eventType, payload) =>
      perform Clock ≫= λ eventTime : time,
      typed asSeq (OpAppend (cmd_SessionID cmd) [mkPendingEvent eventType eventTime payload]) ≫= λ r,
      mret (match r with
            | inl e => inl (Wrap "persist command event" e)
            | inr firstSeq => inr (eventOf (cmd_SessionID cmd) eventType payload firstSeq eventTime)
            end)
  end.

(** The reason of a refusal, if any. *)
Definition preflightCommandRouteLocked (cmd : Command) : prog (option string) :=
  if commandCanBuffer (cmd_Type cmd) then
    perform Clock ≫= λ now : time,
    memoryOf (prunePendingCommandsLocked (cmd_SessionID cmd) now) ≫= λ pending,
    mret (if bool_decide (maxPendingCommandsPerSession ≤ length pending)%nat then Some "command_buffer_full" else None)
  else
    settingsCurrentAdapter (cmd_SessionID cmd) ≫= λ current,
    mret (match current with None => Some "adapter_offline" | Some _ => None end).

Definition routeCommand (cmd : Command) : prog bool :=
  settingsCurrentAdapter (cmd_SessionID cmd) ≫= λ current,
  match current with
  | None => mret false
  | Some adapter =>
      writeAdapterFrame adapter (FCommand (cloneCommand cmd)) ≫= λ sent : bool,
      if sent then mret true else unregisterAdapter adapter ≫= λ _, mret false
  end.

Definition routeOrBufferCommand (cmd : Command) : prog (option string) :=
  routeCommand cmd ≫= λ routed : bool,
  if routed then mret None
  else if negb (commandCanBuffer (cmd_Type cmd)) then mret (Some "adapter_offline")
  else
    perform Clock ≫= λ now : time,
    memoryOf (bufferCommandLocked cmd now) ≫= λ buffered : bool,
    mret (if buffered then None else Some "command_buffer_full").

(** The section of [commandMu] in [handleClientCommand]: the activity to
    report, when the command was accepted. *)
Definition acceptCommandLocked (peer : nat) (cmd : Command) : prog (option CommandActivity) :=
  let id := cmd_CommandID cmd in
  let refuse status reason := writeCommandAck peer id status reason ≫= λ _, mret None in
  let decision := permissionDecisionKey cmd in
  memoryOf (λ m, (m, bool_decide (id ∈ acceptedCommands m) || (bool_decide (decision ≠ "") && bool_decide (decision ∈ decisions m)))) ≫= λ duplicate : bool,
  if duplicate then refuse AckDuplicate ""
  else
    preflightCommandRouteLocked cmd ≫= λ refusal,
    match refusal with
    | Some reason => refuse AckRejected reason
    | None =>
        (if commandNeedsPersistence (cmd_Type cmd) then
           withSessionPublication (cmd_SessionID cmd) (
             persistCommandEvent cmd ≫= λ r,
             match r with
             | inl e => mret (inl e)
             | inr ev => perform (Publish ev) ≫= λ _, mret (inr (Some ev))
             end)
         else mret (inr None)) ≫= λ persisted,
        match persisted with
        | inl _ => refuse AckRejected "persist_failed"
        | inr persisted =>
            routeOrBufferCommand cmd ≫= λ failure,
            match failure with
            | Some reason => refuse AckRejected reason
            | None =>
                memoryOf (λ m, (let m := markCommandAcceptedLocked id m in
                                if bool_decide (decision = "") then m else markDecisionAcceptedLocked decision m, ())) ≫= λ _,
                perform Clock ≫= λ now : time,
                mret (Some (commandActivity cmd persisted now))
            end
        end
    end.

(** ** Commands of clients *)

Section client.
(** The configured authenticator. *)
Context (authorize : Auth.Principal → Auth.Scope → bool).

(** For a command other than session.attach, which has a handler of its own
    after the same validation. *)
Definition handleClientCommand (peer : nat) (accepted : Handshake.AcceptedPeer) (cmd : Command) : prog unit :=
  let sid := cmd_SessionID cmd in
  let type := cmd_Type cmd in
  let mode := Handshake.PeerContentMode accepted in
  let principal := Handshake.PeerPrincipal accepted in
  let ack := writeCommandAck peer (cmd_CommandID cmd) in
  let v2 := bool_decide (Handshake.PeerVersion accepted = ProtocolVersionV2) in
  if negb (validateClientCommandMode cmd mode) then ack AckRejected "invalid_command"
  else if negb (Handshake.subscribesTo (Handshake.Subscribed accepted) sid) then ack AckRejected "unauthorized"
  else if (bool_decide (type ∈ [CommandSettingsChange; CommandMembershipChange]) || isRunControlCommand type)
          && negb (hasLiteralSessionControl principal sid) then ack AckRejected "unauthorized"
  else if negb (admitted accepted cmd) then ack AckRejected "unauthorized"
  else if negb (authorize principal (Auth.SessionControl sid)) then ack AckRejected "unauthorized"
  else if isRequired mode then
    if isRunControlCommand type && v2 then handleRunControl peer accepted cmd
    else handleDurableSessionSendMode peer cmd true
  else if bool_decide (type = CommandSettingsChange) then handleSettingsChange peer accepted cmd
  else if isRunControlCommand type && v2 then handleRunControl peer accepted cmd
  else if bool_decide (type = CommandSessionSend) then
    match CodecPayloads.DecodeFileReferenceSendPayload (payloadText (cmd_Payload cmd)) with
    | None => ack AckRejected "invalid_command"
    | Some references =>
        if CodecPayloads.fs_HasReferences references then handleFileReferenceSend peer accepted cmd references
        else handleDurableSessionSendMode peer cmd false
    end
  else
    locked CommandMu (acceptCommandLocked peer cmd) ≫= λ accepted,
    match accepted with
    | None => mret ()
    | Some activity => perform (Observe activity) ≫= λ _, ack AckAccepted ""
    end.
End client.

(** ** Acknowledgements of Adapters *)

Definition pendingCommandAckCompleted (mode : string) (ack : CommandAck) : bool :=
  bool_decide (ca_Reason ack = "")
  && (bool_decide (ca_Status ack = AckAccepted) || (isRequired mode && bool_decide (ca_Status ack = AckDuplicate))).

Definition pendingCommandAckTerminalRejection (mode commandType : string) (ack : CommandAck) : option string :=
  if negb (isRequired mode) || bool_decide (ca_Status ack ≠ AckRejected) then None
  else if bool_decide (ca_Reason ack = "epoch_stale") then Some (ca_Reason ack)
  else if negb (bool_decide (commandType ∈ [CommandFileRead; CommandFileList])) then None
  else if bool_decide (ca_Reason ack ∈ ["invalid_file_request"; "file_unavailable"]) then Some (ca_Reason ack) else None.

Definition handlePendingCommandAck (adapter : adapterConnection) (ack : CommandAck) (key : string) (client : pendingCommandClient) : prog unit :=
  let id := ca_CommandID ack in
  let mode := contentMode adapter in
  let answer := writePendingCommandAck (pc_peer client) id in
  let completed := pendingCommandAckCompleted mode ack in
  let rejection := pendingCommandAckTerminalRejection mode (pc_commandType client) ack in
  let unknown :=
    takePendingCommandClient key ≫= λ _,
    resolvePendingCommandUnknown (sessionID adapter) id mode ≫= λ _,
    answer AckRejected "adapter_delivery_failed" in
  if negb (same (pc_adapter client) adapter) || (negb completed && bool_decide (rejection = None)) then unknown
  else
    isCurrent adapter ≫= λ current : bool,
    if negb current then unknown
    else
      typed asCommand (OpResolve (sessionID adapter) (authorityOf adapter) id "completed" (isRequired mode)) ≫= λ resolved,
      match resolved with
      | inl _ => unknown
      | inr _ =>
          takePendingCommandClient key ≫= λ _,
          match rejection with
          | Some reason => answer AckRejected reason
          | None => commands (λ m, (markCommandAcceptedLocked id m, ())) ≫= λ _, answer AckAccepted ""
          end
      end.

Definition handleRunControlCommandAck (adapter : adapterConnection) (ack : CommandAck) (key : string) (client : nat) : prog unit :=
  let id := ca_CommandID ack in
  let refuse := removeRunControlClient key ≫= λ _, writeCommandAck client id AckRejected "adapter_delivery_failed" in
  if bool_decide (ca_Status ack ≠ AckAccepted) || bool_decide (ca_Reason ack ≠ "") || bool_decide (protocolVersion adapter ≠ ProtocolVersionV2) then refuse
  else
    isCurrent adapter ≫= λ current : bool,
    if negb current then refuse
    else
      perform (StoreQuery (error + RunControl.RunControlReservation) (λ w, (RunControl.GetRunControl (sessionID adapter) id w).2))
        ≫= λ reservation : error + RunControl.RunControlReservation,
      match reservation with
      | inl _ => refuse
      | inr r =>
          if bool_decide (RunControl.rs_Outcome r = RunControl.RunControlPending) && bool_decide (RunControl.rs_Writer r = settingsWriter adapter)
          then removeRunControlClient key ≫= λ _, writeCommandAck client id AckAccepted ""
          else refuse
      end.

Definition handleSettingsCommandAck (adapter : adapterConnection) (ack : CommandAck) (key : string) (client : nat) : prog unit :=
  let id := ca_CommandID ack in
  let sid := sessionID adapter in
  let refuse := removeSettingsClient key ≫= λ _, writeCommandAck client id AckRejected "adapter_delivery_failed" in
  if bool_decide (ca_Status ack ≠ AckAccepted) || bool_decide (ca_Reason ack ≠ "") || bool_decide (protocolVersion adapter ≠ ProtocolVersionV2) then refuse
  else
    isCurrent adapter ≫= λ current : bool,
    if negb current then refuse
    else
      typed asSettings (OpGetSettings sid id) ≫= λ command,
      match command with
      | inl _ => refuse
      | inr command =>
          if negb (bool_decide (Settings.sc_Writer command = settingsWriter adapter)
                   && bool_decide (Settings.sc_Status command = Settings.SettingsCommandDeliveryPending)) then refuse
          else
            typed asSettings (OpAcknowledgeSettings sid id (Settings.sc_ReservationVersion command) (settingsWriter adapter)) ≫= λ command,
            match command with
            | inl _ => refuse
            | inr command =>
                if negb (bool_decide (Settings.sc_Status command = Settings.SettingsCommandPending)
                         && bool_decide (Settings.sc_Writer command = settingsWriter adapter)) then refuse
                else
                  writeDurableAdapterFrame ExecuteDelivery adapter
                    (FSettingsDeliveryExecute (mkSettingsDeliveryExecute sid id (Settings.sc_ReservationVersion command) 30000)) ≫= λ sent : bool,
                  if sent then removeSettingsClient key ≫= λ _, writeCommandAck client id AckAccepted ""
                  else removeSettingsClient key ≫= λ _, unregisterAdapter adapter ≫= λ _, writeCommandAck client id AckRejected "adapter_delivery_failed"
            end
      end.

Definition handleAdapterCommandAck (adapter : adapterConnection) (ack : CommandAck) : prog unit :=
  if bool_decide (ca_CommandID ack = "") then mret ()
  else
    let key := settingsCommandKey (sessionID adapter) (ca_CommandID ack) in
    runControlClient key ≫= λ client,
    match client with
    | Some client => handleRunControlCommandAck adapter ack key client
    | None =>
        pendingCommandClientOf key ≫= λ client,
        match client with
        | Some client => handlePendingCommandAck adapter ack key client
        | None =>
            settingsClient key ≫= λ client,
            match client with
            | Some client => handleSettingsCommandAck adapter ack key client
            | None => mret ()
            end
        end
    end.

(** ** Connections of Adapters *)

(** [adapterDispatchAuthority.admit] *)
Definition admitHello (sid : string) (generation : Z) (expires : time) (initialize : bool) : prog (option (AdapterConnectionAdmission * SettingsWriter)) :=
  perform Clock ≫= λ now : time,
  if bool_decide (generation < 1) || negb (After expires now) then mret None
  else
    (if initialize then
       perform (StoreCall (OpConn (OpConnection sid))) ≫= λ existing : error + reply,
       match existing with
       | inr _ => mret true
       | inl _ =>
           perform (StoreCall (OpConn (OpInitialize (mkInitialize sid generation expires)))) ≫= λ r : error + reply,
           mret (if r is inr _ then true else false)
       end
     else mret true) ≫= λ initialized : bool,
    if negb initialized then mret None
    else
      perform Random ≫= λ leaseID : string,
      typed asConnection (OpConn (OpHello sid (mkHello generation leaseID))) ≫= λ connection,
      match connection with
      | inl _ => mret None
      | inr connection =>
          typed asFence (OpConn OpAllocate) ≫= λ fence,
          match fence with
          | inl _ => mret None
          | inr grantFence =>
              mret (Some (mkAdmission generation (ac_ConnectionEpoch connection) (ac_AcceptedFence connection) grantFence,
                          mkWriter (ac_ConnectionEpoch connection) generation leaseID))
          end
      end.

(** The generation, its expiry and whether it may initialise the connection
    are what the authenticator and the evidence resolver answered. *)
Definition registerAdapter (conn : nat) (accepted : Handshake.AcceptedPeer) (generation : Z) (expires : time) (initialize : bool)
    : prog (option adapterConnection) :=
  let sid := Handshake.PeerSessionID accepted in
  withAdapterAdmission sid (λ _,
    admitHello sid generation expires initialize ≫= λ admitted : option (AdapterConnectionAdmission * SettingsWriter),
    mret ((λ '(admission, writer),
             mkAdapter conn sid (Handshake.PeerProvider accepted) (Handshake.PeerVersion accepted) (Handshake.PeerContentMode accepted) admission writer)
          <$> admitted)).

Definition issueConnectionAuthorityReceipt (a : adapterConnection) : prog (option Frames.ConnectionAuthorityReceipt) :=
  typed asReceipt (OpConn (OpReceipt (sessionID a) (admission a) (settingsWriter a))) ≫= λ proof,
  match proof with
  | inl _ => mret None
  | inr p =>
      perform Clock ≫= λ now : time,
      mret (if bool_decide (re_SessionID p = sessionID a) && bool_decide (re_ConnectionEpoch p = ad_ConnectionEpoch (admission a))
               && bool_decide (re_CredentialGeneration p = ad_CredentialGeneration (admission a))
               && bool_decide (re_AcceptedFence p = ad_AcceptedFence (admission a))
               && bool_decide (re_WriterLeaseID p = LeaseID (settingsWriter a)) && After (re_ExpiresAt p) now
            then Some (mkConnectionAuthorityReceipt (re_SessionID p) (re_ConnectionEpoch p) (re_CredentialGeneration p)
                         (re_AcceptedFence p) (re_WriterLeaseID p) (UnixMilli (re_ExpiresAt p)))
            else None)
  end.

Definition withAuthority (ack : HelloAck) (receipt : Frames.ConnectionAuthorityReceipt) : HelloAck :=
  mkHelloAck (ha_ContentMode ack) (ha_ProtocolVersion ack) (ha_Sessions ack) (ha_Capabilities ack) (Some receipt).

Definition publishAdapterHello (a : adapterConnection) (ack : HelloAck) : prog bool :=
  withAdapterAdmission (sessionID a) (λ previous,
    perform (StoreCall (OpConn (OpAdmission (sessionID a) (admission a)))) ≫= λ valid : error + reply,
    match valid with
    | inl _ => mret false
    | inr _ =>
        (if bool_decide (protocolVersion a = ProtocolVersionV2)
         then issueConnectionAuthorityReceipt a ≫= λ receipt, mret (withAuthority ack <$> receipt)
         else mret (Some ack)) ≫= λ ack,
        match ack with
        | None => mret false
        | Some ack =>
            perform (WriteAdapter a (FHelloAck ack)) ≫= λ sent : bool,
            if negb sent then mret false
            else
              memoryOf (λ m, (setAdapters (insert (sessionID a) a) m, ())) ≫= λ _,
              (match previous with Some p => perform (CloseAdapter p) | None => mret () end) ≫= λ _,
              mret true
        end
    end).

(** The part of [ServeHTTP] from the accepted hello of an Adapter to its read
    loop, whose frames are tasks of their own. *)
Definition serveAdapter (conn : nat) (accepted : Handshake.AcceptedPeer) (generation : Z) (expires : time) (initialize : bool) (ack : HelloAck) : prog unit :=
  registerAdapter conn accepted generation expires initialize ≫= λ registered,
  match registered with
  | None => mret ()
  | Some adapter =>
      publishAdapterHello adapter ack ≫= λ published : bool,
      if negb published then rejectAdapter adapter ≫= λ _, perform (CloseAdapter adapter)
      else
        deliverPendingCommands adapter ≫= λ delivered : bool,
        if delivered then mret () else perform (CloseAdapter adapter) ≫= λ _, unregisterAdapter adapter
  end.

(** The end of the read loop of an Adapter. *)
Definition adapterGone (a : adapterConnection) : prog unit := perform (CloseAdapter a) ≫= λ _, unregisterAdapter a.

(** One tick of [watchAdapter]. *)
Definition watchAdapter (a : adapterConnection) : prog unit := locked (EffectMu (conn a)) (validateAdapter a) ≫= λ _, mret ().

End HubCommands.
