(* ===== verification/HubEvents.v ===== *)
(** * Events of Adapters through the Hub

    [hub/websocket.go], [handleAdapterEvent] and what it calls, and the
    publication of batches in [hub/connection_dispatch.go]: how an event of an
    Adapter becomes durable, is acknowledged and published, and how the results
    of run controls, settings changes and file references end their
    reservations.  [nfc] and [Quote] are [norm.NFC.String] and the verb [%q];
    [publisherType] tells the event types reserved for the trusted publisher.
    Contexts do not end inside a Store call, so a proposal is committed once. *)

From S2P Require Import Prelude StoreApi Json Wire GoText Frames EncryptedPacket CodecPayloads Sqlite EventLog Connections.
From S2P Require Import CommandLedger RunControl Settings FileReferences StoreOps Auth Handshake ClientDelivery HubProgram HubCommands.
From stdpp Require Import base gmap strings list option.
#[local] Open Scope Z_scope.

Module HubEvents.
Import Wire Frames Connections StoreOps HubProgram HubCommands.

Definition errAdapterAuthorityLost : error := Err "adapter authority lost".

(** The transport chooses its text. *)
Definition errWrite : error := Err "write failed".

Definition asProposed (r : reply) := match r with RProposed c => Some c | _ => None end.
Definition asSettingsCapability (r : reply) := match r with RSettingsCapability c => Some c | _ => None end.
Definition asFileCapability (r : reply) := match r with RFileCapability c => Some c | _ => None end.
Definition asCapability (r : reply) := match r with RCapability c => Some c | _ => None end.

Definition EventReceiptAccepted : string := "accepted".

Definition receiptFrame (proposalID : string) (seq : Z) : Frame := FEventReceipt (mkEventReceipt proposalID seq EventReceiptAccepted).

(** [withAdapterEffect] *)
Definition withAdapterEffect {A} (a : adapterConnection) (p : prog (error + A)) : prog (error + A) :=
  locked (EffectMu (conn a)) (
    validateAdapter a ≫= λ valid : bool,
    if valid then p else mret (inl errAdapterAuthorityLost)).

(** ** Proposals *)

Definition pendingOf (event : Event) : PendingEvent :=
  mkPendingEvent (ev_Type event) (of_UnixMilli (ev_Time event)) (payloadText (ev_Payload event)).

Definition withSeq (event : Event) (seq : Z) : Event :=
  Frames.mkEvent (ev_Type event) (ev_SessionID event) (Some seq) (ev_Time event) (ev_Payload event) (ev_ProposalID event).

(** The section of [commitAdapterProposal] under the gate and [effectMu]; the
    answer tells whether the receipt was written. *)
Definition commitProposalLocked (adapter : adapterConnection) (event : Event) (proposalID : string)
    (afterCommit : Z → prog (error + list Event)) : prog (error + bool) :=
  validateAdapter adapter ≫= λ valid : bool,
  if negb valid then mret (inl errAdapterAuthorityLost)
  else
    typed asProposed (OpPropose (ev_SessionID event) (authorityOf adapter) proposalID (pendingOf event) (isRequired (contentMode adapter))) ≫= λ receipt,
    match receipt with
    | inl e => mret (inl (Wrap "commit adapter proposal" e))
    | inr receipt =>
        let seq := CommandLedger.pr_Seq receipt in
        if negb (bool_decide (CommandLedger.pr_SessionID receipt = ev_SessionID event)
                 && bool_decide (CommandLedger.pr_ProposalID receipt = proposalID) && bool_decide (1 ≤ seq))
        then mret (inl (Err "proposed event store returned an invalid receipt"))
        else
          afterCommit seq ≫= λ after,
          match after with
          | inl e => mret (inl e)
          | inr afterEvents =>
              perform (WriteAdapter adapter (receiptFrame proposalID seq)) ≫= λ sent : bool,
              perform (Publish (withSeq event seq)) ≫= λ _,
              forEach afterEvents (λ ev, perform (Publish ev)) ≫= λ _,
              mret (inr sent)
          end
    end.

Definition commitAdapterProposal (adapter : adapterConnection) (event : Event) (proposalID : string)
    (afterCommit : Z → prog (error + list Event)) : prog (error + unit) :=
  withSessionPublication (ev_SessionID event) (locked (EffectMu (conn adapter)) (commitProposalLocked adapter event proposalID afterCommit)) ≫= λ r,
  match r with
  | inl e => mret (inl e)
  | inr sent => (if sent : bool then mret () else rejectAdapter adapter) ≫= λ _, mret (inr ())
  end.

Definition noEvents (seq : Z) : prog (error + list Event) := mret (inr []).

(** ** Run controls *)

(** The reservations of other writers end as unconfirmed. *)
Fixpoint recoverRunControls (adapter : adapterConnection) (sid : string) (pending : list RunControl.RunControlReservation) (recovered : list Event)
    : prog (error + list Event) :=
  match pending with
  | [] => mret (inr recovered)
  | reservation :: pending =>
      if bool_decide (RunControl.rs_Writer reservation = settingsWriter adapter) then recoverRunControls adapter sid pending recovered
      else
        typed asReservation (OpRecover sid (RunControl.rs_CommandID reservation) "recovery_unconfirmed") ≫= λ finalized,
        match finalized with
        | inl e => mret (inl (Wrap "recover run control" e))
        | inr finalized =>
            runControlTerminalEvents sid finalized ≫= λ events,
            match events with
            | None => mret (inl (Err "run-control terminal event is unavailable"))
            | Some events => recoverRunControls adapter sid pending (recovered ++ events)
            end
        end
  end.

Definition publishRunCapability (adapter : adapterConnection) (sid : string) (interruptSupported stopSupported : bool) (seq : Z)
    : prog (error + list Event) :=
  typed asCapability (OpPublish sid (RunControl.mkCapabilityUpdate seq interruptSupported stopSupported (settingsWriter adapter))) ≫= λ published,
  match published with
  | inl e => mret (inl (Wrap "publish run-control capability" e))
  | inr _ =>
      typed asReservations (OpControls sid) ≫= λ pending,
      match pending with
      | inl e => mret (inl (Wrap "list pending run controls" e))
      | inr pending => recoverRunControls adapter sid pending []
      end
  end.

Definition commitRunControlCapabilityProposal (adapter : adapterConnection) (event : Event) (proposalID : string) : prog (error + unit) :=
  match CodecPayloads.DecodeRunControlCapabilityPayload (payloadText (ev_Payload event)) with
  | Some c =>
      if bool_decide (protocolVersion adapter = ProtocolVersionV2)
      then commitAdapterProposal adapter event proposalID
             (publishRunCapability adapter (ev_SessionID event) (CodecPayloads.rc_InterruptSupported c) (CodecPayloads.rc_StopSupported c))
      else mret (inl (Err "run-control store is not configured"))
  | None => mret (inl (Err "invalid run-control capability"))
  end.

Definition errorFrame (code message : string) : Frame := FErrorFrame (mkErrorFrame code message false).

Definition refuseEvent {A} (adapter : adapterConnection) (code message : string) (e : error) : prog (error + A) :=
  writeAdapterFrame adapter (errorFrame code message) ≫= λ _, mret (inl e).

Definition commitEncryptedRunControlCapabilityProposal (adapter : adapterConnection) (event : Event) (proposalID : string) : prog (error + unit) :=
  match EncryptedPacket.DecodeEncryptedPacketCarrier (payloadText (ev_Payload event)) "event" "session.run.capabilities" "" with
  | None => refuseEvent adapter "invalid_event" "invalid run-control capability projection" (Err "invalid encrypted run-control capability projection")
  | Some carrier =>
      commitAdapterProposal adapter event proposalID
        (publishRunCapability adapter (ev_SessionID event) (EncryptedPacket.InterruptSupported (EncryptedPacket.Public carrier))
           (EncryptedPacket.StopSupported (EncryptedPacket.Public carrier)))
  end.

Definition encryptedRunControlOutcome (value : string) : option string :=
  if bool_decide (value ∈ [RunControl.RunControlCompleted; RunControl.RunControlRejected; RunControl.RunControlTimeout; RunControl.RunControlOutcomeUnknown])
  then Some value else None.

Definition resolveEncryptedRunControlCommandID (sid operation : string) (writer : SettingsWriter) (projected : string) : prog (error + string) :=
  if bool_decide (projected ≠ "") then mret (inr projected)
  else
    typed asReservations (OpControls sid) ≫= λ pending,
    mret (match pending with
          | inl e => inl (Wrap "list pending run controls" e)
          | inr pending =>
              match filter (λ r, RunControl.rs_Writer r = writer ∧ RunControl.rs_Operation r = operation) pending with
              | [r] => inr (RunControl.rs_CommandID r)
              | [] => inl (Err "run-control reservation is unavailable")
              | _ => inl (Err "run-control outcome is ambiguous")
              end
          end).

Definition getRunControl (sid id : string) : prog (error + RunControl.RunControlReservation) :=
  perform (StoreQuery (error + RunControl.RunControlReservation) (λ w, (RunControl.GetRunControl sid id w).2)).

Definition finalizeEncryptedRunControl (adapter : adapterConnection) (sid : string) (carrier : EncryptedPacket.EncryptedPacketCarrier) (terminalSeq : Z)
    : prog (error + list Event) :=
  let public := EncryptedPacket.Public carrier in
  if bool_decide (terminalSeq < 1) then mret (inl (Err "run-control store is not configured"))
  else
    match encryptedRunControlOutcome (EncryptedPacket.Outcome public) with
    | None => mret (inl (Err "invalid encrypted run-control outcome"))
    | Some outcome =>
        resolveEncryptedRunControlCommandID sid (EncryptedPacket.Operation public) (settingsWriter adapter) (EncryptedPacket.CommandID public) ≫= λ id,
        match id with
        | inl e => mret (inl e)
        | inr id =>
            getRunControl sid id ≫= λ reservation,
            match reservation with
            | inl e => mret (inl (Wrap "run-control reservation unavailable" e))
            | inr reservation =>
                let reason := EncryptedPacket.ReasonCode public in
                typed asReservation (OpFinalize sid id
                  (RunControl.mkFinalize (RunControl.rs_ReservationVersion reservation) (Some (settingsWriter adapter)) outcome
                     (if bool_decide (reason = "") then None else Some reason) (Some terminalSeq))) ≫= λ r,
                mret (match r with inl e => inl e | inr _ => inr [] end)
            end
        end
    end.

Definition commitEncryptedRunControlOutcome (adapter : adapterConnection) (event : Event) (proposalID : string) : prog (error + unit) :=
  let invalid := refuseEvent adapter "invalid_event" "invalid run-control outcome projection" (Err "invalid encrypted run-control outcome projection") in
  match EncryptedPacket.DecodeEncryptedPacketCarrier (payloadText (ev_Payload event)) "event" "session.run.outcome" "" with
  | None => invalid
  | Some carrier =>
      if bool_decide (EncryptedPacket.Operation (EncryptedPacket.Public carrier) = "") || bool_decide (EncryptedPacket.Outcome (EncryptedPacket.Public carrier) = "")
      then invalid
      else
        commitAdapterProposal adapter event proposalID (finalizeEncryptedRunControl adapter (ev_SessionID event) carrier) ≫= λ r,
        match r with
        | inl e => refuseEvent adapter "persist_failed" "encrypted event persistence failed" e
        | inr _ => mret (inr ())
        end
  end.

Definition sameRunControlOutcome (left right : CodecPayloads.RunControlOutcomePayload) : bool :=
  bool_decide (CodecPayloads.ro_CommandID left = CodecPayloads.ro_CommandID right)
  && bool_decide (CodecPayloads.ro_Operation left = CodecPayloads.ro_Operation right)
  && bool_decide (CodecPayloads.ro_Outcome left = CodecPayloads.ro_Outcome right)
  && bool_decide (CodecPayloads.ro_CompletionState left = CodecPayloads.ro_CompletionState right)
  && bool_decide (CodecPayloads.ro_ReasonCode left = CodecPayloads.ro_ReasonCode right).

Definition finalizeRunControlOutcome (adapter : adapterConnection) (event : Event) (proposalID : string) : prog (error + unit) :=
  let sid := ev_SessionID event in
  let mismatch := Err "run-control Store outcome does not match proposal" in
  if bool_decide (protocolVersion adapter ≠ ProtocolVersionV2) then mret (inl (Err "run-control store is not configured"))
  else
    match CodecPayloads.DecodeRunControlOutcomePayload (payloadText (ev_Payload event)) with
    | None => mret (inl (Err "invalid run-control outcome payload"))
    | Some proposal =>
        let id := CodecPayloads.ro_CommandID proposal in
        withSessionPublication sid (withAdapterEffect adapter (
          getRunControl sid id ≫= λ reservation,
          match reservation with
          | inl e => mret (inl e)
          | inr r =>
              if negb (bool_decide (RunControl.rs_Outcome r = RunControl.RunControlPending) && bool_decide (RunControl.rs_Writer r = settingsWriter adapter)
                       && bool_decide (RunControl.rs_Operation r = CodecPayloads.ro_Operation proposal))
              then mret (inl (Err "run-control outcome is fenced"))
              else
                typed asReservation (OpFinalize sid id
                  (RunControl.mkFinalize (RunControl.rs_ReservationVersion r) (Some (settingsWriter adapter)) (CodecPayloads.ro_Outcome proposal)
                     (CodecPayloads.ro_ReasonCode proposal) None)) ≫= λ finalized,
                match finalized with
                | inl e => mret (inl e)
                | inr finalized =>
                    runControlTerminalEvents sid finalized ≫= λ events,
                    match events, RunControl.rs_TerminalEventSeq finalized with
                    | Some events, Some seq =>
                        match list.last events with
                        | None => mret (inl mismatch)
                        | Some last =>
                            if bool_decide (ev_Type last ≠ "session.run.outcome")
                               || negb (match CodecPayloads.DecodeRunControlOutcomePayload (payloadText (ev_Payload last)) with
                                        | Some stored => sameRunControlOutcome stored proposal
                                        | None => false
                                        end)
                            then mret (inl mismatch)
                            else
                              perform (WriteAdapter adapter (receiptFrame proposalID seq)) ≫= λ sent : bool,
                              if negb sent then mret (inl errWrite)
                              else forEach events (λ ev, perform (Publish ev)) ≫= λ _, mret (inr ())
                        end
                    | _, _ => mret (inl (Err "run-control terminal event is unavailable"))
                    end
                end
          end))
    end.

(** ** Settings *)

Section settings.
Context (nfc : string → string).

Definition settingsEvent (sid payload : string) (seq : Z) (now : time) : Event :=
  Frames.mkEvent "session.settings.effective" sid (Some seq) (UnixMilli now) (Raw payload) "".

(** The requests of other writers: an expired delivery is rejected, a pending
    one is taken over and ends as unconfirmed. *)
Fixpoint recoverSettings (adapter : adapterConnection) (sid : string) (published : Settings.SettingsCapability)
    (pending : list Settings.SettingsCommand) (recovered : list Event) : prog (error + list Event) :=
  match pending with
  | [] => mret (inr recovered)
  | command :: pending =>
      let next := recoverSettings adapter sid published pending in
      let id := Settings.sc_CommandID command in
      let writer := Settings.sc_Writer command in
      if bool_decide (writer = settingsWriter adapter) then next recovered
      else if bool_decide (Settings.sc_Status command = Settings.SettingsCommandDeliveryPending) then
        perform Clock ≫= λ now : time,
        if After (Settings.sc_DeliveryDeadline command) now then next recovered
        else
          typed asSettings (OpRecoverSettings sid id writer) ≫= λ rejected,
          match rejected with
          | inl e => mret (inl (Wrap "recover expired settings delivery" e))
          | inr rejected =>
              match Settings.sc_TerminalEventSeq rejected with
              | Some seq =>
                  if bool_decide (Settings.sc_Status rejected = Settings.SettingsCommandRejected) then
                    perform Clock ≫= λ now : time,
                    next (recovered ++ [settingsEvent sid (Settings.SettingsTerminalEventPayload rejected (Settings.sc_ReservedCapability rejected)
                                          (Settings.sc_Status rejected) (Some "adapter_delivery_failed")) seq now])
                  else mret (inl (Err "settings delivery recovery returned an invalid command"))
              | None => mret (inl (Err "settings delivery recovery returned an invalid command"))
              end
          end
      else if negb (bool_decide (Settings.sc_Status command ∈ [Settings.SettingsCommandPending; Settings.SettingsCommandRecoveryPending])) then next recovered
      else
        (if bool_decide (Settings.sc_Status command = Settings.SettingsCommandPending) then
           typed asSettings (OpRecoverSettings sid id writer) ≫= λ r,
           mret (match r with
                 | inl e => inl (Wrap "recover settings command" e)
                 | inr c => if bool_decide (Settings.sc_Status c = Settings.SettingsCommandRecoveryPending) then inr c
                            else inl (Err "settings recovery returned an invalid command")
                 end)
         else mret (inr command)) ≫= λ command,
        match command with
        | inl e => mret (inl e)
        | inr command =>
            typed asSettings (OpFinalizeSettings sid (Settings.sc_CommandID command)
              (Settings.mkSettingsFinalize (Settings.sc_ReservationVersion command) Settings.SettingsCommandRecoveryPending None
                 Settings.SettingsCommandOutcomeUnknown (Some "recovery_unconfirmed") published)) ≫= λ finalized,
            match finalized with
            | inl e => mret (inl e)
            | inr finalized =>
                match Settings.sc_TerminalEventSeq finalized with
                | None => mret (inl (Err "settings recovery returned no terminal event"))
                | Some seq =>
                    perform Clock ≫= λ now : time,
                    next (recovered ++ [settingsEvent sid (Settings.SettingsTerminalEventPayload finalized published
                                          (Settings.sc_Status finalized) (Some "recovery_unconfirmed")) seq now])
                end
            end
        end
  end.

Definition sameCapability (cached : Settings.SettingsCapability) (capability : CodecPayloads.SettingsCapabilityPayload) : bool :=
  bool_decide (Settings.sp_Fingerprint cached = CodecPayloads.sc_Fingerprint capability)
  && bool_decide (Settings.sp_EffectiveModelID cached = CodecPayloads.sc_EffectiveModelID capability)
  && bool_decide (Settings.sp_EffectiveReasoningEffortID cached = CodecPayloads.sc_EffectiveReasoningEffortID capability)
  && bool_decide (Settings.sp_EffectivePermissionModeID cached = CodecPayloads.sc_EffectivePermissionModeID capability).

Definition publishSettingsCapability (adapter : adapterConnection) (sid : string) (capability : CodecPayloads.SettingsCapabilityPayload) (seq : Z)
    : prog (error + list Event) :=
  commands (λ m, (m, settingsCapabilities m !! sid)) ≫= λ cached,
  let alreadyPublished :=
    match cached with
    | Some cached => bool_decide (Settings.sp_EventSeq cached = seq) && sameCapability cached capability
                     && bool_decide (Settings.sp_Writer cached = settingsWriter adapter)
    | None => false
    end in
  if alreadyPublished then mret (inr [])
  else
    typed asSettingsCapability (OpPublishSettings sid
      (Settings.mkSettingsUpdate seq (CodecPayloads.sc_Fingerprint capability) (CodecPayloads.sc_EffectiveModelID capability)
         (CodecPayloads.sc_EffectiveReasoningEffortID capability) (CodecPayloads.sc_EffectivePermissionModeID capability) (settingsWriter adapter))) ≫= λ published,
    match published with
    | inl e => mret (inl (Wrap "publish settings capability" e))
    | inr published =>
        commands (λ m, (setSettingsCapabilities (insert sid published) m, ())) ≫= λ _,
        typed asSettingsList (OpPendingSettings sid) ≫= λ pending,
        match pending with
        | inl e => mret (inl (Wrap "list pending settings commands" e))
        | inr pending => recoverSettings adapter sid published pending []
        end
    end.

Definition commitSettingsCapabilityProposal (adapter : adapterConnection) (event : Event) (proposalID : string) : prog (error + unit) :=
  if bool_decide (protocolVersion adapter ≠ ProtocolVersionV2) then mret (inl (Err "settings command store is not configured"))
  else
    match CodecPayloads.DecodeSettingsCapabilityPayload nfc (payloadText (ev_Payload event)) with
    | None => mret (inl (Err "invalid settings capability"))
    | Some capability => commitAdapterProposal adapter event proposalID (publishSettingsCapability adapter (ev_SessionID event) capability)
    end.

(** An outcome that the capability in force contradicts is reported as such. *)
Definition settingsFinalizationOutcome (command : Settings.SettingsCommand) (capability : Settings.SettingsCapability)
    (effective : CodecPayloads.SettingsEffectivePayload) : string * option string :=
  let outcome := CodecPayloads.se_Outcome effective in
  let reserved := Settings.sc_ReservedCapability command in
  let given := (outcome, CodecPayloads.se_ReasonCode effective) in
  let mismatched := (Settings.SettingsCommandMismatched, Some "provider_mismatched_effective") in
  let agrees (requested : option string) (effective reserved : option string) :=
    match requested with Some id => bool_decide (effective = Some id) | None => bool_decide (effective = reserved) end in
  if bool_decide (outcome = Settings.SettingsCommandApplied) then
    if agrees (Settings.sc_RequestedModelID command) (Some (Settings.sp_EffectiveModelID capability)) (Some (Settings.sp_EffectiveModelID reserved))
       && agrees (Settings.sc_RequestedReasoningEffortID command) (Settings.sp_EffectiveReasoningEffortID capability) (Settings.sp_EffectiveReasoningEffortID reserved)
       && agrees (Settings.sc_RequestedPermissionModeID command) (Some (Settings.sp_EffectivePermissionModeID capability)) (Some (Settings.sp_EffectivePermissionModeID reserved))
    then given else mismatched
  else if bool_decide (outcome ∈ [Settings.SettingsCommandOutcomeUnknown; Settings.SettingsCommandMismatched]) then given
  else if bool_decide (Settings.sp_EffectiveModelID capability = Settings.sp_EffectiveModelID reserved)
          && bool_decide (Settings.sp_EffectiveReasoningEffortID capability = Settings.sp_EffectiveReasoningEffortID reserved)
          && bool_decide (Settings.sp_EffectivePermissionModeID capability = Settings.sp_EffectivePermissionModeID reserved)
  then given else mismatched.

(** The capability in force is the one the result names. *)
Definition currentCapability (adapter : adapterConnection) (effective : CodecPayloads.SettingsEffectivePayload) (capability : Settings.SettingsCapability) : bool :=
  bool_decide (Settings.sp_Fingerprint capability = CodecPayloads.se_EffectiveFingerprint effective)
  && bool_decide (Settings.sp_EffectiveModelID capability = CodecPayloads.se_EffectiveModelID effective)
  && bool_decide (Settings.sp_EffectiveReasoningEffortID capability = CodecPayloads.se_EffectiveReasoningEffortID effective)
  && bool_decide (Settings.sp_EffectivePermissionModeID capability = CodecPayloads.se_EffectivePermissionModeID effective)
  && bool_decide (Settings.sp_Writer capability = settingsWriter adapter).

(** The answer tells whether the receipt was written. *)
Definition finalizeSettingsEffectiveLocked (adapter : adapterConnection) (event : Event) (proposalID : string) : prog (error + bool) :=
  let sid := ev_SessionID event in
  if bool_decide (protocolVersion adapter ≠ ProtocolVersionV2) then mret (inl (Err "settings command store is not configured"))
  else
    match CodecPayloads.DecodeSettingsEffectivePayload (payloadText (ev_Payload event)) with
    | None => mret (inl (Err "invalid settings effective payload"))
    | Some effective =>
        let id := CodecPayloads.se_CommandID effective in
        typed asSettings (OpGetSettings sid id) ≫= λ command,
        match command with
        | inl e => mret (inl e)
        | inr command =>
            if negb (bool_decide (Settings.sc_RequestFingerprint command = CodecPayloads.se_RequestFingerprint effective)
                     && bool_decide (Settings.sc_Writer command = settingsWriter adapter)
                     && bool_decide (Settings.sc_Status command = Settings.SettingsCommandPending))
            then mret (inl (Err "settings effective result is fenced"))
            else
              commands (λ m, (m, settingsCapabilities m !! sid)) ≫= λ capability,
              match capability with
              | None => mret (inl (Err "settings effective capability is not current"))
              | Some capability =>
                  if negb (currentCapability adapter effective capability) then mret (inl (Err "settings effective capability is not current"))
                  else
                    let '(outcome, reason) := settingsFinalizationOutcome command capability effective in
                    typed asSettings (OpFinalizeSettings sid id
                      (Settings.mkSettingsFinalize (Settings.sc_ReservationVersion command) Settings.SettingsCommandPending (Some (settingsWriter adapter))
                         outcome reason capability)) ≫= λ finalized,
                    match finalized with
                    | inl e => mret (inl e)
                    | inr finalized =>
                        match Settings.sc_TerminalEventSeq finalized with
                        | None => mret (inl (Err "settings finalization returned no terminal event"))
                        | Some seq =>
                            let payload := Settings.SettingsTerminalEventPayload finalized capability (Settings.sc_Status finalized) reason in
                            perform (WriteAdapter adapter (receiptFrame proposalID seq)) ≫= λ sent : bool,
                            perform Clock ≫= λ now : time,
                            perform (Publish (settingsEvent sid payload seq now)) ≫= λ _,
                            mret (inr sent)
                        end
                    end
              end
        end
    end.

Definition finalizeSettingsEffective (adapter : adapterConnection) (event : Event) (proposalID : string) : prog (error + unit) :=
  withSessionPublication (ev_SessionID event) (finalizeSettingsEffectiveLocked adapter event proposalID) ≫= λ r,
  match r with
  | inl e => mret (inl e)
  | inr sent =>
      if sent : bool then mret (inr ())
      else rejectAdapter adapter ≫= λ _, mret (inl (Wrap "settings terminal receipt delivery failed" errWrite))
  end.
End settings.

(** ** File references *)

Definition publishFileCapability (adapter : adapterConnection) (sid : string) (capability : CodecPayloads.FileReferenceCapabilityPayload) (seq : Z)
    : prog (error + list Event) :=
  typed asFileCapability (OpPublishFiles sid (FileReferences.mkFileUpdate seq (CodecPayloads.fc_Fingerprint capability) (settingsWriter adapter))) ≫= λ published,
  match published with
  | inl e => mret (inl (Wrap "publish file-reference capability" e))
  | inr p =>
      if negb (bool_decide (FileReferences.fp_EventSeq p = seq) && bool_decide (FileReferences.fp_Fingerprint p = CodecPayloads.fc_Fingerprint capability)
               && bool_decide (FileReferences.fp_Writer p = settingsWriter adapter))
      then mret (inl (Err "file-reference capability publication is invalid"))
      else
        commands (λ m, (setFileCapabilities (insert sid (mkFileCapability capability (FileReferences.fp_Writer p) (FileReferences.fp_EventSeq p))) m, ())) ≫= λ _,
        mret (inr [])
  end.

Definition commitFileReferenceCapabilityProposal (adapter : adapterConnection) (event : Event) (proposalID : string) : prog (error + unit) :=
  if bool_decide (protocolVersion adapter ≠ ProtocolVersionV2) then mret (inl (Err "file-reference command store is not configured"))
  else
    match CodecPayloads.DecodeFileReferenceCapabilityPayload (payloadText (ev_Payload event)) with
    | None => mret (inl (Err "invalid file-reference capability payload"))
    | Some capability => commitAdapterProposal adapter event proposalID (publishFileCapability adapter (ev_SessionID event) capability)
    end.

Definition sameFileReferenceOutcome (left right : CodecPayloads.FileReferenceOutcomePayload) : bool :=
  bool_decide (CodecPayloads.fo_MessageID left = CodecPayloads.fo_MessageID right)
  && bool_decide (CodecPayloads.fo_CommandID left = CodecPayloads.fo_CommandID right)
  && bool_decide (CodecPayloads.fo_Outcome left = CodecPayloads.fo_Outcome right)
  && bool_decide (CodecPayloads.fo_ReferenceIndex left = CodecPayloads.fo_ReferenceIndex right)
  && bool_decide (CodecPayloads.fo_Reason left = CodecPayloads.fo_Reason right).

Definition finalizeFileReferenceOutcome (adapter : adapterConnection) (event : Event) (proposalID : string) : prog (error + unit) :=
  let sid := ev_SessionID event in
  if bool_decide (protocolVersion adapter ≠ ProtocolVersionV2) then mret (inl (Err "file-reference command store is not configured"))
  else
    match CodecPayloads.DecodeFileReferenceOutcomePayload (payloadText (ev_Payload event)) with
    | None => mret (inl (Err "invalid file-reference outcome payload"))
    | Some proposal =>
        let id := CodecPayloads.fo_CommandID proposal in
        withSessionPublication sid (withAdapterEffect adapter (
          perform (StoreQuery (error + FileReferences.FileReferenceCommand) (λ w, (FileReferences.GetFileReferenceCommand sid id w).2))
            ≫= λ command : error + FileReferences.FileReferenceCommand,
          match command with
          | inl e => mret (inl e)
          | inr command =>
              if negb (bool_decide (FileReferences.fc_MessageID command = CodecPayloads.fo_MessageID proposal)
                       && bool_decide (FileReferences.fc_Writer command = Some (settingsWriter adapter))
                       && bool_decide (FileReferences.fc_Status command = FileReferences.FileReferencePending))
              then mret (inl (Err "file-reference outcome is fenced"))
              else
                typed asFile (OpFinalizeFile sid id
                  (FileReferences.mkFileFinalize (FileReferences.fc_ReservationVersion command) (Some (settingsWriter adapter))
                     (CodecPayloads.fo_Outcome proposal) (CodecPayloads.fo_Reason proposal) (CodecPayloads.fo_ReferenceIndex proposal))) ≫= λ finalized,
                match finalized with
                | inl e => mret (inl e)
                | inr finalized =>
                    match FileReferences.fc_TerminalEventSeq finalized with
                    | None => mret (inl (Err "file-reference outcome finalization is invalid"))
                    | Some seq =>
                        eventAt sid seq ≫= λ stored,
                        match stored with
                        | None => mret (inl (Err "durable event is missing"))
                        | Some stored =>
                            if bool_decide (ev_Type stored ≠ "session.file_references.outcome")
                            then mret (inl (Err "file-reference outcome event is invalid"))
                            else if negb (match CodecPayloads.DecodeFileReferenceOutcomePayload (payloadText (ev_Payload stored)) with
                                          | Some persisted => sameFileReferenceOutcome persisted proposal
                                          | None => false
                                          end)
                            then mret (inl (Err "file-reference Store outcome does not match proposal"))
                            else
                              perform (WriteAdapter adapter (receiptFrame proposalID seq)) ≫= λ sent : bool,
                              if negb sent then mret (inl errWrite)
                              else perform (Publish stored) ≫= λ _, mret (inr ())
                        end
                    end
                end
          end))
    end.

(** ** Events *)

Section events.
Context (nfc : string → string) (Quote : string → string) (publisherType : string → bool).

Definition normalizedEventTime (unixMilli : Z) : prog time :=
  if bool_decide (unixMilli ≤ 0) then perform Clock else mret (of_UnixMilli unixMilli).

(** What the Hub refuses before it looks at the type: the code and the message. *)
Definition invalidEvent (accepted : Handshake.AcceptedPeer) (ev : Event) : option (string * string) :=
  let durable := negb (ClientDelivery.isEphemeralEvent (ev_Type ev)) in
  if bool_decide (ev_Type ev = "") || bool_decide (ev_SessionID ev = "") then Some ("invalid_event", "event type and session_id are required")
  else if publisherType (ev_Type ev) then Some ("invalid_event", "event type " +:+ Quote (ev_Type ev) +:+ " is reserved for the trusted publisher")
  else if bool_decide (ev_SessionID ev ≠ Handshake.PeerSessionID accepted) then
    Some ("unauthorized", "adapter is not authorized for session " +:+ ev_SessionID ev)
  else if bool_decide (ev_Seq ev ≠ None) then Some ("invalid_event", "adapter events must not include seq")
  else if isRequired (Handshake.PeerContentMode accepted)
          && bool_decide (EncryptedPacket.DecodeEncryptedPacketCarrier (payloadText (ev_Payload ev)) "event" (ev_Type ev) "" = None)
  then Some ("invalid_event", "encrypted event carrier is invalid")
  else if bool_decide (Handshake.PeerVersion accepted = ProtocolVersionV2) then
    if durable && (bool_decide (len (ev_ProposalID ev) = 0) || bool_decide (255 < len (ev_ProposalID ev)))
    then Some ("invalid_event", "v2 durable adapter events require a bounded proposal_id")
    else if durable && bool_decide (ev_Time ev ≤ 0) then Some ("invalid_event", "v2 durable adapter events require a positive time")
    else if negb durable && bool_decide (ev_ProposalID ev ≠ "") then Some ("invalid_event", "ephemeral adapter events must not include proposal_id")
    else None
  else if bool_decide (ev_ProposalID ev ≠ "") then Some ("invalid_event", "v1 adapter events must not include proposal_id")
  else None.

(** The answer to an Adapter whose event was not persisted. *)
Definition reported (adapter : adapterConnection) (p : prog (error + unit)) : prog unit :=
  p ≫= λ r,
  match r with
  | inl e => writeAdapterFrame adapter (errorFrame "persist_failed" (errorText e)) ≫= λ _, mret ()
  | inr _ => mret ()
  end.

Definition v2Only (adapter : adapterConnection) (accepted : Handshake.AcceptedPeer) (message : string) (p : prog unit) : prog unit :=
  if bool_decide (Handshake.PeerVersion accepted ≠ ProtocolVersionV2)
  then writeAdapterFrame adapter (errorFrame "invalid_event" message) ≫= λ _, mret ()
  else p.

Definition handleAdapterEvent (adapter : adapterConnection) (accepted : Handshake.AcceptedPeer) (ev : Event) : prog unit :=
  let refuse code message := writeAdapterFrame adapter (errorFrame code message) ≫= λ _, mret () in
  match invalidEvent accepted ev with
  | Some (code, message) => refuse code message
  | None =>
      normalizedEventTime (ev_Time ev) ≫= λ eventTime,
      let out := Frames.mkEvent (ev_Type ev) (ev_SessionID ev) None (UnixMilli eventTime) (clonePayload (ev_Payload ev)) "" in
      let proposal := ev_ProposalID ev in
      let type := ev_Type ev in
      if ClientDelivery.isEphemeralEvent type then
        withAdapterEffect adapter (
          perform (PublishAdmitted adapter out) ≫= λ published : bool,
          mret (if published then inr () else inl errAdapterAuthorityLost)) ≫= λ _, mret ()
      else if isRequired (Handshake.PeerContentMode accepted) then
        if bool_decide (type = "session.run.outcome") then commitEncryptedRunControlOutcome adapter out proposal ≫= λ _, mret ()
        else if bool_decide (type = "session.run.capabilities") then commitEncryptedRunControlCapabilityProposal adapter out proposal ≫= λ _, mret ()
        else
          commitAdapterProposal adapter out proposal noEvents ≫= λ r,
          match r with inl _ => refuse "persist_failed" "encrypted event persistence failed" | inr _ => mret () end
      else if bool_decide (type = "session.file_references.capabilities") then
        v2Only adapter accepted "file-reference capabilities are v2 Adapter-only"
          (reported adapter (commitFileReferenceCapabilityProposal adapter out proposal))
      else if bool_decide (type = "session.file_references.outcome") then
        v2Only adapter accepted "file-reference outcomes are v2 Adapter-only" (reported adapter (finalizeFileReferenceOutcome adapter out proposal))
      else if bool_decide (type = "session.settings.capabilities") then
        v2Only adapter accepted "settings capabilities are v2 Adapter-only"
          (if bool_decide (is_Some (CodecPayloads.DecodeSettingsCapabilityPayload nfc (payloadText (ev_Payload ev))))
           then reported adapter (commitSettingsCapabilityProposal nfc adapter out proposal)
           else refuse "invalid_event" "invalid settings capability")
      else if bool_decide (type = "session.settings.effective") then
        v2Only adapter accepted "settings effective results are v2 Adapter-only" (reported adapter (finalizeSettingsEffective adapter out proposal))
      else if bool_decide (type = "session.run.capabilities") then
        v2Only adapter accepted "run-control capabilities are v2 Adapter-only"
          (if bool_decide (is_Some (CodecPayloads.DecodeRunControlCapabilityPayload (payloadText (ev_Payload ev))))
           then reported adapter (commitRunControlCapabilityProposal adapter out proposal)
           else refuse "invalid_event" "invalid run-control capability")
      else if bool_decide (type = "session.run.outcome") then
        v2Only adapter accepted "run-control outcomes are v2 Adapter-only" (reported adapter (finalizeRunControlOutcome adapter out proposal))
      else if bool_decide (Handshake.PeerVersion accepted = ProtocolVersionV2) then
        reported adapter (commitAdapterProposal adapter out proposal noEvents)
      else
        perform (Enqueue adapter out (mkPendingEvent type eventTime (payloadText (ev_Payload ev)))) ≫= λ _, mret ()
  end.
End events.

(** ** Batches *)

(** [fencedAdapterEventStore.publish] *)
Definition publishBatch (adapter : adapterConnection) (batch : list (Event * PendingEvent)) : prog (error + unit) :=
  withSessionPublication (sessionID adapter) (withAdapterEffect adapter (
    typed asSeq (OpAdapterAppend (sessionID adapter) (admission adapter) batch.*2 (isRequired (contentMode adapter))) ≫= λ r,
    match r with
    | inl e => mret (inl e)
    | inr firstSeq =>
        forEach (imap (λ i item, withSeq (item : Event * PendingEvent).1 (i64 (firstSeq + Z.of_nat i))) batch) (λ ev, perform (Publish ev)) ≫= λ _,
        mret (inr ())
    end)).

(** ** The goroutines of the Hub *)

Section body.
Context (authorize : Auth.Principal → Auth.Scope → bool) (nfc Quote : string → string) (publisherType : string → bool).

Definition body (t : task) : prog unit :=
  match t with
  | ClientCommand peer accepted cmd => handleClientCommand authorize peer accepted cmd
  | AdapterAck adapter ack => handleAdapterCommandAck adapter ack
  | AdapterEvent adapter accepted ev => handleAdapterEvent nfc Quote publisherType adapter accepted ev
  | AdapterConnected conn accepted generation expires initialize ack => serveAdapter conn accepted generation expires initialize ack
  | AdapterGone adapter => adapterGone adapter
  | AdapterCheck adapter => watchAdapter adapter
  | DeliveryTimeout key => expirePendingCommandClient key
  | RejectDeliveries adapter reason => rejectPendingCommandDeliveries adapter reason
  | Flush adapter batch => publishBatch adapter batch ≫= λ _, mret ()
  end.
End body.

End HubEvents.
