(* ===== verification/HubDelivery.v ===== *)
(** * A command is delivered at most once

    Every durable delivery of the Hub is paid for by a reservation that the
    Store grants at most once.  [perm] follows a handler and checks that each
    delivery comes after such a grant and uses it up; the invariant [paid]
    carries the count over all interleavings, crashes and other users of the
    Store. *)

From S2P Require Import Prelude StoreApi Wire Frames Sqlite Connections CommandLedger RunControl Settings SettingsProofs Invariant StoreOps StoreProperties.
From S2P Require Import Handshake HubProgram HubCommands HubEvents.
From stdpp Require Import base gmap strings list option.
#[local] Open Scope nat_scope.

Module HubDelivery.
Import Wire Frames Connections StoreOps HubProgram HubCommands HubEvents.

(** ** Grants and deliveries *)

Definition key : Type := delivery * string * string.

(** The reservation that an answer of the Store grants. *)
Definition grantOf (out : output) : option key :=
  match out with
  | (OpClaim sid _ id _, inr (RClaim c)) => if CommandLedger.Claimed c then Some (LedgerDelivery, sid, id) else None
  | (OpReserve sid rq, inr (RReserve r)) =>
      if RunControl.rv_Duplicate r then None else Some (RunControlDelivery, sid, RunControl.cq_CommandID rq)
  | (OpReserveSettings sid rq, inr (RSettingsReserve r)) =>
      if Settings.sr_Duplicate r then None else Some (SettingsDelivery, sid, Settings.sq_CommandID rq)
  | _ => None
  end.

(** The reservation that a delivery uses; the frames that execute a settings
    change and the messages with file references are not counted. *)
Definition uses (d : delivery) (f : Frame) : option key :=
  match d, f with
  | (LedgerDelivery | RunControlDelivery | SettingsDelivery), FCommand c => Some (d, cmd_SessionID c, cmd_CommandID c)
  | _, _ => None
  end.

Definition times (k : key) (l : list key) : nat := length (filter (λ k', k' = k) l).

Lemma times_app k l1 l2 : times k (l1 ++ l2) = times k l1 + times k l2.
Proof. unfold times. by rewrite list.filter_app, length_app. Qed.

Lemma times_cons k x l : times k (x :: l) = times k [x] + times k l.
Proof. apply (times_app k [x] l). Qed.

Lemma times_nil k : times k [] = 0.
Proof. done. Qed.

Definition deliveriesOf (a : action) : list key :=
  match a with DurableToAdapter d _ f => option_list (uses d f) | _ => [] end.

Definition outsOf (a : action) : list output := match a with Stored outs => outs | _ => [] end.

Definition deliveries (tr : list action) : list key := tr ≫= deliveriesOf.
Definition outputs (tr : list action) : list output := tr ≫= outsOf.
Definition grants (outs : list output) : list key := omap grantOf outs.

Lemma grants_app l1 l2 : grants (l1 ++ l2) = grants l1 ++ grants l2.
Proof. apply omap_app. Qed.

(** ** Programs that pay *)

Fixpoint perm {R} (T : list key) (p : prog R) (Q : list key → R → Prop) : Prop :=
  match p with
  | Ret r => Q T r
  | Do e k =>
      match e return (answer e → prog R) → Prop with
      | StoreCall o => λ k, ∀ w, perm (option_list (grantOf (o, (exec_op o w).2)) ++ T) (k (exec_op o w).2) Q
      | StoreQuery A f => λ k, ∀ w, perm T (k (f w)) Q
      | WriteDurable d a f => λ k,
          match uses d f with
          | Some x => ∃ T', T = x :: T' ∧ ∀ b, perm T' (k b) Q
          | None => ∀ b, perm T (k b) Q
          end
      | e => λ k, ∀ x, perm T (k x) Q
      end k
  end.

Lemma perm_bind {A B} T (p : prog A) (k : A → prog B) Q :
  perm T p (λ T' a, perm T' (k a) Q) → perm T (p ≫= k) Q.
Proof.
  revert T. induction p as [a|e kp IH]; intros T; [done|]. cbn [mbind prog_bind perm]. fold (prog_bind A B k).
  destruct e; cbn [perm]; try (intros H x; by apply IH).
  - destruct (uses d f) as [x|]; [intros (T' & -> & H); exists T'; split; [done|]; intros b; by apply IH|intros H b; by apply IH].
Qed.

Lemma perm_mono {A} T (p : prog A) (Q Q' : list key → A → Prop) :
  perm T p Q → (∀ T a, Q T a → Q' T a) → perm T p Q'.
Proof.
  intros H HQ. revert T H. induction p as [a|e k IH]; intros T; cbn [perm]; [apply HQ|].
  destruct e; try (intros H x; by apply IH).
  destruct (uses d f) as [x|]; [intros (T' & -> & H); exists T'; split; [done|]; intros b; by apply IH|intros H b; by apply IH].
Qed.

(** A program that neither obtains nor uses a reservation. *)
Definition quiet {A} (p : prog A) : Prop := ∀ T Q, (∀ a, Q T a) → perm T p Q.

Lemma perm_quiet {A B} T (p : prog A) (k : A → prog B) Q : quiet p → (∀ a, perm T (k a) Q) → perm T (p ≫= k) Q.
Proof. intros Hp Hk. by apply perm_bind, Hp. Qed.

Lemma quiet_ret {A} (a : A) : quiet (mret a).
Proof. intros T Q HQ. apply HQ. Qed.

Lemma quiet_bind {A B} (p : prog A) (k : A → prog B) : quiet p → (∀ a, quiet (k a)) → quiet (p ≫= k).
Proof. intros Hp Hk T Q HQ. apply perm_quiet; [done|]. intros a. by apply Hk. Qed.

Definition grantless (o : op) : bool :=
  match o with OpClaim _ _ _ _ | OpReserve _ _ | OpReserveSettings _ _ => false | _ => true end.

Definition quietEffect (e : effect) : bool :=
  match e with
  | StoreCall o => grantless o
  | WriteDurable d _ f => bool_decide (uses d f = None)
  | _ => true
  end.

Lemma quiet_perform e : quietEffect e = true → quiet (perform e).
Proof.
  intros He T Q HQ. destruct e; try (intros x; apply HQ).
  - intros w. assert (grantOf (o, (exec_op o w).2) = None) as E by (destruct o; [..|done|done]; by destruct (exec_op _ w).2).
    rewrite E. apply HQ.
  - apply bool_decide_eq_true in He. cbn [perm perform]. rewrite He. intros b. apply HQ.
Qed.

Lemma quiet_typed {A} (pick : reply → option A) o : grantless o = true → quiet (typed pick o).
Proof. intros Ho. unfold typed. apply quiet_bind; [by apply (quiet_perform (StoreCall o))|]. intros r. apply quiet_ret. Qed.

Lemma quiet_if {A} (b : bool) (p q : prog A) : quiet p → quiet q → quiet (if b then p else q).
Proof. by destruct b. Qed.

Lemma quiet_locked {A} l (p : prog A) : quiet p → quiet (locked l p).
Proof.
  intros Hp. unfold locked. apply quiet_bind; [by apply (quiet_perform (Acquire l))|]. intros _. apply quiet_bind; [done|]. intros x.
  apply quiet_bind; [by apply (quiet_perform (Release l))|]. intros _. apply quiet_ret.
Qed.

Lemma quiet_memory {A} (f : memory → memory * A) : quiet (memoryOf f).
Proof. by apply (quiet_perform (Memory A f)). Qed.

Lemma quiet_commands {A} (f : memory → memory * A) : quiet (commands f).
Proof. apply quiet_locked, quiet_memory. Qed.

Lemma quiet_publication {A} sid (p : prog (error + A)) : quiet p → quiet (withSessionPublication sid p).
Proof.
  intros Hp. unfold withSessionPublication. apply quiet_bind; [by apply (quiet_perform (Acquire (Publication sid)))|]. intros []; [|apply quiet_ret].
  apply quiet_bind; [done|]. intros r. apply quiet_bind; [by apply (quiet_perform (Release (Publication sid)))|]. intros _. apply quiet_ret.
Qed.

Lemma quiet_forEach {A} (l : list A) (p : A → prog unit) : (∀ x, quiet (p x)) → quiet (forEach l p).
Proof. intros Hp. induction l as [|x l IH]; cbn; [apply quiet_ret|]. apply quiet_bind; [apply Hp|]. by intros _. Qed.

Create HintDb quiet.
#[export] Hint Resolve quiet_ret quiet_memory quiet_commands : quiet.

(** One step along the structure of a program. *)
Ltac quiet_step :=
  lazymatch goal with
  | |- ∀ _, quiet _ => intro
  | |- quiet (_ ≫= _) => apply quiet_bind; [|intros]
  | |- quiet (mret _) => apply quiet_ret
  | |- quiet (perform ?e) => exact (quiet_perform e eq_refl)
  | |- quiet (typed _ _) => apply quiet_typed; reflexivity
  | |- quiet (memoryOf _) => apply quiet_memory
  | |- quiet (commands _) => apply quiet_commands
  | |- quiet (locked _ _) => apply quiet_locked
  | |- quiet (withSessionPublication _ _) => apply quiet_publication
  | |- quiet (forEach _ _) => apply quiet_forEach; intros
  | |- quiet (match ?x with _ => _ end) => destruct x
  | |- quiet _ => solve [auto with quiet]
  end.
Ltac quiet_auto := cbv zeta; repeat quiet_step.

(** ** What is quiet *)

Lemma quiet_isCurrent a : quiet (isCurrent a).
Proof. apply quiet_memory. Qed.

Lemma quiet_current sid : quiet (settingsCurrentAdapter sid).
Proof. apply quiet_memory. Qed.

Lemma quiet_eventAt sid seq : quiet (eventAt sid seq).
Proof. unfold eventAt. quiet_auto. Qed.

Lemma quiet_ack peer id status reason : quiet (writeCommandAck peer id status reason).
Proof. unfold writeCommandAck. quiet_auto. Qed.
#[export] Hint Resolve quiet_isCurrent quiet_current quiet_eventAt quiet_ack : quiet.

Lemma quiet_pendingAck peer id status reason : quiet (writePendingCommandAck peer id status reason).
Proof. unfold writePendingCommandAck. quiet_auto. Qed.

Lemma quiet_removeAdapter a : quiet (removeAdapter a).
Proof. apply quiet_memory. Qed.

Lemma quiet_take k : quiet (takePendingCommandClient k).
Proof. apply quiet_commands. Qed.

Lemma quiet_add k a p id t : quiet (addPendingCommandClient k a p id t).
Proof. apply quiet_commands. Qed.

Lemma quiet_removeSettingsClient k : quiet (removeSettingsClient k).
Proof. apply quiet_commands. Qed.

Lemma quiet_removeRunClient k : quiet (removeRunControlClient k).
Proof. apply quiet_commands. Qed.
#[export] Hint Resolve quiet_pendingAck quiet_removeAdapter quiet_take quiet_add quiet_removeSettingsClient quiet_removeRunClient : quiet.

Lemma quiet_rejectAdapter a : quiet (rejectAdapter a).
Proof. unfold rejectAdapter. quiet_auto. Qed.
#[export] Hint Resolve quiet_rejectAdapter : quiet.

Lemma quiet_validateAdapter a : quiet (validateAdapter a).
Proof. unfold validateAdapter. quiet_auto. Qed.
#[export] Hint Resolve quiet_validateAdapter : quiet.

Lemma quiet_writeAdapterFrame a f : quiet (writeAdapterFrame a f).
Proof. unfold writeAdapterFrame. quiet_auto. Qed.

Lemma quiet_withAdmission {A} sid (p : option adapterConnection → prog A) : (∀ c, quiet (p c)) → quiet (withAdapterAdmission sid p).
Proof.
  intros Hp. unfold withAdapterAdmission.
  apply quiet_bind; [exact (quiet_perform (Acquire (Admission sid)) eq_refl)|]. intros _. apply quiet_bind; [apply quiet_current|]. intros c.
  apply quiet_bind; [destruct c; quiet_auto|]. intros _. apply quiet_bind; [apply Hp|]. intros x.
  apply quiet_bind; [destruct c; quiet_auto|]. intros _. quiet_auto.
Qed.

Lemma quiet_unregister a : quiet (unregisterAdapter a).
Proof. unfold unregisterAdapter. quiet_step; [quiet_step|]. apply quiet_withAdmission. quiet_auto. Qed.

Lemma quiet_unknown sid id mode : quiet (resolvePendingCommandUnknown sid id mode).
Proof. unfold resolvePendingCommandUnknown. quiet_auto. Qed.
#[export] Hint Resolve quiet_writeAdapterFrame quiet_unregister quiet_unknown : quiet.

Lemma quiet_expire k : quiet (expirePendingCommandClient k).
Proof. unfold expirePendingCommandClient. quiet_auto. Qed.

Lemma quiet_reject a reason : quiet (rejectPendingCommandDeliveries a reason).
Proof. unfold rejectPendingCommandDeliveries. quiet_auto. Qed.

Lemma quiet_terminalEvents sid r : quiet (runControlTerminalEvents sid r).
Proof. unfold runControlTerminalEvents. quiet_auto. Qed.

Lemma quiet_runReason sid t e : quiet (runControlReserveFailureReason sid t e).
Proof. unfold runControlReserveFailureReason. quiet_auto. Qed.

Lemma quiet_settingsReason sid e : quiet (settingsReserveFailureReason sid e).
Proof. unfold settingsReserveFailureReason. quiet_auto. Qed.

Lemma quiet_durable d a f : uses d f = None → quiet (writeDurableAdapterFrame d a f).
Proof. intros H. apply quiet_locked, (quiet_perform (WriteDurable d a f)). by apply bool_decide_eq_true. Qed.
#[export] Hint Resolve quiet_expire quiet_reject quiet_terminalEvents quiet_runReason quiet_settingsReason : quiet.

Lemma quiet_commitFile a cmd rq p : quiet (commitFileReference a cmd rq p).
Proof. unfold commitFileReference. quiet_auto. Qed.

Lemma quiet_recoverFile cmd : quiet (recoverFileReference cmd).
Proof. unfold recoverFileReference. quiet_auto. Qed.
#[export] Hint Resolve quiet_commitFile quiet_recoverFile : quiet.
#[export] Hint Extern 1 (quiet (writeDurableAdapterFrame _ _ _)) => apply quiet_durable; reflexivity : quiet.

Lemma quiet_fileSend peer accepted cmd rq : quiet (handleFileReferenceSend peer accepted cmd rq).
Proof. unfold handleFileReferenceSend. quiet_auto. Qed.

Lemma quiet_persist cmd : quiet (persistCommandEvent cmd).
Proof. unfold persistCommandEvent. quiet_auto. Qed.

Lemma quiet_preflight cmd : quiet (preflightCommandRouteLocked cmd).
Proof. unfold preflightCommandRouteLocked. quiet_auto. Qed.

Lemma quiet_route cmd : quiet (routeCommand cmd).
Proof. unfold routeCommand. quiet_auto. Qed.
#[export] Hint Resolve quiet_fileSend quiet_persist quiet_preflight quiet_route : quiet.

Lemma quiet_routeOrBuffer cmd : quiet (routeOrBufferCommand cmd).
Proof. unfold routeOrBufferCommand. quiet_auto. Qed.
#[export] Hint Resolve quiet_routeOrBuffer : quiet.

Lemma quiet_accept peer cmd : quiet (acceptCommandLocked peer cmd).
Proof. unfold acceptCommandLocked. quiet_auto. Qed.
#[export] Hint Resolve quiet_accept : quiet.

Lemma quiet_ackHandler a ack : quiet (handleAdapterCommandAck a ack).
Proof.
  unfold handleAdapterCommandAck, handleRunControlCommandAck, handlePendingCommandAck, handleSettingsCommandAck, runControlClient,
    pendingCommandClientOf, settingsClient.
  quiet_auto.
Qed.

Lemma quiet_buffered a now l : quiet (deliverBuffered a now l).
Proof. induction l as [|q l IH]; cbn [deliverBuffered]; quiet_auto; done. Qed.

Lemma quiet_admit sid g e i : quiet (admitHello sid g e i).
Proof. unfold admitHello. quiet_auto. Qed.

Lemma quiet_receipt a : quiet (issueConnectionAuthorityReceipt a).
Proof. unfold issueConnectionAuthorityReceipt. quiet_auto. Qed.
#[export] Hint Resolve quiet_ackHandler quiet_buffered quiet_admit quiet_receipt : quiet.

Lemma quiet_register c p g e i : quiet (registerAdapter c p g e i).
Proof. unfold registerAdapter. apply quiet_withAdmission. quiet_auto. Qed.

Lemma quiet_publishHello a ack : quiet (publishAdapterHello a ack).
Proof. unfold publishAdapterHello. apply quiet_withAdmission. intros previous. quiet_auto. Qed.
#[export] Hint Resolve quiet_register quiet_publishHello : quiet.

(** ** Grants of the Store *)

(** What [m] returns, whatever the state. *)
Definition yields {A} (m : M A) (P : A → Prop) : Prop := ∀ w, wp m (λ a _, P a) (λ _ _, True) w.

Lemma yields_true {A} (m : M A) : yields m (λ _, True).
Proof. intros w. unfold wp. by destruct (m w) as [w' [e|a]]. Qed.

Lemma yields_bind {A B} (m : M A) (k : A → M B) P Q : yields m P → (∀ a, P a → yields (k a) Q) → yields (m ≫= k) Q.
Proof. intros Hm Hk w. rewrite wp_bind. eapply wp_mono; [apply Hm| |done]. intros a w' Ha. by apply Hk. Qed.

Lemma yields_skip {A B} (m : M A) (k : A → M B) Q : (∀ a, yields (k a) Q) → yields (m ≫= k) Q.
Proof. intros Hk. apply (yields_bind _ _ (λ _, True)); [apply yields_true|]. auto. Qed.

Lemma yields_ret {A} (a : A) (P : A → Prop) : P a → yields (mret a) P.
Proof. by intros H w. Qed.

Lemma yields_on_error {A} f (m : M A) P : yields m P → yields (on_error f m) P.
Proof. intros Hm w. rewrite wp_on_error. apply Hm. Qed.

Lemma yields_tx {A} (m : M A) P : yields m P → yields (with_tx m) P.
Proof. intros Hm w. rewrite wp_tx. apply Hm. Qed.

Definition named (sid id : string) (c : CommandLedger.PendingCommand) : Prop :=
  CommandLedger.cm_SessionID c = sid ∧ CommandLedger.cm_CommandID c = id.

Lemma claim_named sid authority id enc : yields (CommandLedger.claimPendingCommand sid authority id enc) (λ c, named sid id (CommandLedger.cl_Command c)).
Proof.
  unfold CommandLedger.claimPendingCommand. apply yields_tx, yields_skip. intros now. apply yields_skip. intros _.
  apply (yields_bind _ _ (named sid id)).
  - apply yields_on_error. intros w.
    destruct enc; [apply CommandLedger.wp_queryEncryptedPendingCommand|apply CommandLedger.wp_queryPendingCommand]; done.
  - intros command Hc. do 3 (apply yields_skip; intros _). case_bool_decide; [|by apply yields_ret].
    apply yields_skip. intros now'. do 3 (apply yields_skip; intros ?). apply yields_ret. exact Hc.
Qed.

(** A table that a step leaves alone. *)
Lemma keeps_bind_step {A B C} (f : World → C) (m : M A) (k : A → M B) w0 w Q :
  keeps f m → f w = f w0 → (∀ a w', f w' = f w0 → wp (k a) Q (λ _ _, True) w') → wp (m ≫= k) Q (λ _ _, True) w.
Proof. intros Hm Hw Hk. rewrite wp_bind. by apply (keeps_wp f _ w0). Qed.

Lemma control_reserved sid rq w :
  wp (RunControl.RunControlReserve sid rq)
    (λ res w', RunControl.rv_Duplicate res = false →
       run_controls (db w) !! (sid, RunControl.cq_CommandID rq) = None ∧ is_Some (run_controls (db w') !! (sid, RunControl.cq_CommandID rq)))
    (λ _ _, True) w.
Proof.
  set (f := λ w, run_controls (db w)). unfold RunControl.RunControlReserve.
  apply (keeps_bind_step f _ _ w); [keeps_auto|done|]. intros _ w1 H1. rewrite wp_tx.
  apply (keeps_bind_step f _ _ w); [keeps_auto|done|]. intros now w2 H2.
  apply (keeps_bind_step f _ _ w); [unfold lockCommandAuthority; keeps_deep|done|]. intros _ w3 H3.
  apply (keeps_bind_step f _ _ w); [unfold validateLiveSettingsWriter; keeps_deep|done|]. intros _ w4 H4.
  apply (keeps_bind_step f _ _ w); [keeps_deep|done|]. intros [e|existing] w5 H5.
  2: { apply (keeps_bind_step f _ _ w); [keeps_auto|done|]. intros _ w6 H6. by rewrite wp_ret. }
  do 4 (apply (keeps_bind_step f _ _ w); [keeps_deep|assumption|]; let H := fresh "H" in intros ? ? H).
  apply (keeps_bind_step f _ _ w); [keeps_deep|assumption|]. intros _ w7 Hw7.
  rewrite wp_bind, wp_on_error. unfold RunControl.insert_control. db_steps; try done.
  match goal with |- wp _ _ _ ?x => set (w8 := x) end. apply (keeps_wp f _ w8); [keeps_deep|done| |done]. intros r w9 H9'.
  rewrite wp_ret. intros _. change (id (db w7)) with (db w7) in *. change (run_controls (db w)) with (f w). rewrite <- Hw7. unfold f at 1.
  destruct (run_controls (db w7) !! _) eqn:E; [done|]. split; [done|].
  assert (run_controls (db w9) = f w8) as -> by done. unfold f, w8. cbn. rewrite lookup_insert_eq. by eexists.
Qed.

Lemma setting_reserved sid rq w :
  wp (Settings.SettingsCommandReserve sid rq)
    (λ res w', Settings.sr_Duplicate res = false →
       settings_commands (db w) !! (sid, Settings.sq_CommandID rq) = None ∧ is_Some (settings_commands (db w') !! (sid, Settings.sq_CommandID rq)))
    (λ _ _, True) w.
Proof.
  set (f := λ w, settings_commands (db w)). unfold Settings.SettingsCommandReserve.
  apply (keeps_bind_step f _ _ w); [keeps_auto|done|]. intros _ w1 H1. rewrite wp_tx.
  apply (keeps_bind_step f _ _ w); [keeps_auto|done|]. intros now w2 H2.
  apply (keeps_bind_step f _ _ w); [unfold lockCommandAuthority; keeps_deep|done|]. intros _ w3 H3.
  do 2 (apply (keeps_bind_step f _ _ w); [keeps_deep|done|]; let H := fresh "H" in intros ? ? H).
  apply (keeps_bind_step f _ _ w); [keeps_deep|done|]. intros [e|existing] w5 H5.
  2: { apply (keeps_bind_step f _ _ w); [keeps_auto|done|]. intros _ w6 H6. by rewrite wp_ret. }
  apply (keeps_bind_step f _ _ w); [keeps_deep|assumption|]. intros _ w6 H6.
  apply (keeps_bind_step f _ _ w); [keeps_deep|assumption|]. intros _ w7 Hw7.
  rewrite wp_bind, wp_on_error. unfold Settings.insert_settings_command. db_steps; try done.
  match goal with |- wp _ _ _ ?x => set (w8 := x) end. apply (keeps_wp f _ w8); [keeps_deep|done| |done]. intros r w9 H9'.
  rewrite wp_ret. intros _. change (id (db w7)) with (db w7) in *. change (settings_commands (db w)) with (f w). rewrite <- Hw7. unfold f at 1.
  destruct (settings_commands (db w7) !! _) eqn:E; [done|]. split; [done|].
  assert (settings_commands (db w9) = f w8) as -> by done. unfold f, w8. cbn. rewrite lookup_insert_eq. by eexists.
Qed.

Definition granted (k : key) (out : output) : bool := bool_decide (grantOf out = Some k).

Definition spent (k : key) (w : World) : Prop :=
  match k with
  | (LedgerDelivery, sid, id) => StoreProperties.taken sid id w
  | (RunControlDelivery, sid, id) => is_Some (run_controls (db w) !! (sid, id))
  | (SettingsDelivery, sid, id) => is_Some (settings_commands (db w) !! (sid, id))
  | _ => False
  end.

Lemma spent_lasts k w w' : Invariant.evolves w w' → spent k w → spent k w'.
Proof.
  intros Hev. destruct k as [[[] sid] id]; cbn; try done; [by apply StoreProperties.taken_later| |].
  - intros [r Hr]. destruct (Invariant.ev_controls _ _ Hev _ _ Hr) as (r' & Hr' & _). by exists r'.
  - intros [r Hr]. destruct (Invariant.ev_settings _ _ Hev _ _ Hr) as (r' & Hr' & _). by exists r'.
Qed.

Lemma grant_spends k o w : granted k (o, (exec_op o w).2) = true → ¬ spent k w ∧ spent k (exec_op o w).1.
Proof.
  unfold granted. intros Hg%bool_decide_eq_true. destruct (exec_op o w) as [w' r] eqn:Hx. cbn [fst snd] in *.
  destruct o; try done; destruct r as [e|r]; try done; apply StoreProperties.as_reply_inv in Hx as (a & Hx & ->); cbn in Hg.
  - assert (CommandLedger.Claimed a = true ∧ k = (LedgerDelivery, sid, cmd)) as [Hc ->] by (destruct (CommandLedger.Claimed a); naive_solver).
    pose proof (StoreProperties.claim_takes sid cmd (OpClaim sid authority cmd encrypted) w) as Ht.
    cbn in Ht. unfold as_reply, mbind, SE_bind in Ht. rewrite Hx in Ht. cbn in Ht. apply Ht. by rewrite !bool_decide_eq_true_2, Hc by done.
  - destruct (RunControl.rv_Duplicate a) eqn:Hd; [done|]. injection Hg as <-. cbn.
    destruct (wp_elim _ _ _ _ _ _ (control_reserved sid request w) Hx Hd) as [-> ?]. split; [by intros []|done].
  - destruct (Settings.sr_Duplicate a) eqn:Hd; [done|]. injection Hg as <-. cbn.
    destruct (wp_elim _ _ _ _ _ _ (setting_reserved sid request w) Hx Hd) as [-> ?]. split; [by intros []|done].
Qed.

Lemma times_grants k outs : times k (grants outs) = length (List.filter (granted k) outs).
Proof.
  induction outs as [|out outs IH]; [done|]. cbn [List.filter]. unfold grants, granted in *. cbn.
  destruct (grantOf out) as [k'|]; [|rewrite bool_decide_eq_false_2 by done; apply IH].
  etrans; [apply times_cons|]. rewrite IH. unfold times. cbn. case_decide as Hk; case_bool_decide as Hk'; cbn; congruence.
Qed.

Lemma grants_once k clk calls : times k (grants (run calls (new_world clk)).2) ≤ 1.
Proof.
  rewrite times_grants. apply (StoreProperties.happens_once _ (spent k)).
  - apply spent_lasts.
  - intros o w _. apply grant_spends.
  - intros o r. by apply bool_decide_eq_false.
  - apply Invariant.new_world_inv.
Qed.

(** ** The handlers pay *)

Lemma perm_typed {A} T (pick : reply → option A) o Q :
  (∀ w a, pick <$> (match (exec_op o w).2 with inr r => Some r | inl _ => None end) = Some (Some a) →
     Q (option_list (grantOf (o, (exec_op o w).2)) ++ T) (inr a)) →
  (∀ T' e, Q (T' ++ T) (inl e)) →
  perm T (typed pick o) Q.
Proof.
  intros Ha He w. destruct (exec_op o w).2 as [e|r] eqn:E; [apply He|]. specialize (Ha w). rewrite E in Ha. cbn in *.
  destruct (pick r) as [a|]; [by apply Ha|apply He].
Qed.

Lemma perm_durable {B} T d a f (k : bool → prog B) x Q :
  uses d f = Some x → (∀ b, perm T (k b) Q) → perm (x :: T) (writeDurableAdapterFrame d a f ≫= k) Q.
Proof.
  intros Hx Hk. unfold writeDurableAdapterFrame, locked. apply perm_bind, perm_quiet; [by apply (quiet_perform (Acquire _))|]. intros _.
  apply perm_bind. cbn [perm perform]. rewrite Hx. exists T. split; [done|]. intros b. cbn. intros _. by apply Hk.
Qed.

Lemma perm_end {A} T (p : prog A) : quiet p → perm T p (λ _ _, True).
Proof. intros Hp. by apply Hp. Qed.

Notation pays T p := (perm T p (λ _ _, True)).

Lemma pays_claim {B} T sid authority id enc (k : error + CommandLedger.PendingCommandClaim → prog B) Q :
  (∀ c, CommandLedger.Claimed c = true → named sid id (CommandLedger.cl_Command c) → perm ((LedgerDelivery, sid, id) :: T) (k (inr c)) Q) →
  (∀ T' r, (∀ c, r = inr c → CommandLedger.Claimed c = false) → perm (T' ++ T) (k r) Q) →
  perm T (typed asClaim (OpClaim sid authority id enc) ≫= k) Q.
Proof.
  intros Hyes Hno. apply perm_bind, perm_typed; [|intros T' e; by apply Hno].
  intros w c Hc. destruct (exec_op _ w) as [w' [e|r]] eqn:E; [done|]. cbn in Hc. injection Hc as Hc.
  destruct (StoreProperties.as_reply_inv _ _ _ _ _ E) as (c' & Hx & ->). cbn in Hc. injection Hc as ->. cbn.
  destruct (CommandLedger.Claimed c) eqn:Hcl; [|apply (Hno []); naive_solver].
  apply Hyes; [done|]. exact (wp_elim _ _ _ _ _ _ (claim_named sid authority id enc w) Hx).
Qed.

(** The outermost case distinction of a program. *)
Ltac perm_case := lazymatch goal with |- perm _ (match ?x with _ => _ end) _ => let E := fresh "E" in destruct x eqn:E end.

Lemma pays_ledgerSend peer cmd enc : pays [] (handleDurableSessionSendMode peer cmd enc).
Proof.
  unfold handleDurableSessionSendMode. cbv zeta. apply perm_quiet; [quiet_auto|]. intros [adapter|]; [|apply perm_end; quiet_auto].
  apply perm_quiet; [quiet_auto|]. intros duplicate. destruct duplicate; [apply perm_end; quiet_auto|].
  perm_case; [apply perm_end; quiet_auto|]. perm_case; [|apply perm_end; quiet_auto]. destruct p as [eventType payload].
  apply perm_quiet; [quiet_auto|]. intros now. apply perm_quiet; [quiet_auto|]. intros [e|[commit persisted]]; [apply perm_end; quiet_auto|].
  perm_case; [apply perm_end; quiet_auto|]. apply pays_claim.
  - intros c Hc [Hs Hid]. rewrite Hc. perm_case; [|apply perm_end; quiet_auto].
    apply perm_quiet; [quiet_auto|]. intros _. apply perm_durable; [done|]. intros b. apply perm_end. quiet_auto.
  - intros T' [e|c] Hno; [apply perm_end; quiet_auto|]. rewrite (Hno c) by done. apply perm_end. cbn [andb]. quiet_auto.
Qed.

Lemma perm_weaken {A} T (p : prog A) Q : perm T p Q → ∀ T', perm (T ++ T') p (λ T1 a, ∃ T0, T1 = T0 ++ T' ∧ Q T0 a).
Proof.
  revert T. induction p as [a|e k IH]; intros T; [intros H T'; by exists T|]. cbn [perm]. destruct e; try (intros H T' x; by apply IH).
  - intros H T' w. rewrite (assoc_L app). by apply IH.
  - destruct (uses d f) as [x|]; [|intros H T' b; by apply IH]. intros (T1 & -> & H) T'. exists (T1 ++ T'). split; [done|]. intros b. by apply IH.
Qed.

Lemma pays_more {A} T (p : prog A) : pays [] p → pays T p.
Proof. intros H. eapply perm_mono; [exact (perm_weaken [] p _ H T)|done]. Qed.

Lemma routed_named pending enc w cmd :
  commandFromPendingEvent pending enc w = Some cmd →
  cmd_SessionID cmd = CommandLedger.cm_SessionID pending ∧ cmd_CommandID cmd = CommandLedger.cm_CommandID pending.
Proof.
  unfold commandFromPendingEvent. intros (event & _ & (type & _ & [= <-])%bind_Some)%bind_Some. done.
Qed.

Lemma pays_deliverDurable adapter pending : pays [] (deliverDurable adapter pending).
Proof.
  induction pending as [|command pending IH]; [done|]. cbn [deliverDurable]. cbv zeta. apply pays_claim.
  - intros c Hc [Hs Hid]. perm_case; [by apply pays_more|]. rewrite Hc. cbn [negb]. apply perm_bind. intros w. cbn [perm].
    destruct (commandFromPendingEvent _ _ w) as [routed|] eqn:Hr.
    + apply routed_named in Hr as [Hrs Hri]. apply perm_quiet; [quiet_auto|]. intros _.
      apply perm_durable; [cbn; by rewrite Hrs, Hri, Hs, Hid|]. intros []; [by apply IH|apply perm_end; quiet_auto].
    + apply perm_quiet; [quiet_auto|]. intros [e|r]; [done|by apply pays_more].
  - intros T' [e|c] Hno; [done|]. perm_case; [by apply pays_more|]. rewrite (Hno c) by done. cbn [negb].
    apply perm_quiet; [quiet_auto|]. intros [e|r]; [done|by apply pays_more].
Qed.

Lemma pays_quiet {A B} (p : prog A) (k : A → prog B) : pays [] p → (∀ a, quiet (k a)) → pays [] (p ≫= k).
Proof. intros Hp Hk. apply perm_bind. eapply perm_mono; [exact Hp|]. intros T a _. by apply perm_end. Qed.

Lemma pays_serve c p g e i ack : pays [] (serveAdapter c p g e i ack).
Proof.
  unfold serveAdapter. apply perm_quiet; [quiet_auto|]. intros [adapter|]; [|done].
  apply perm_quiet; [quiet_auto|]. intros []; cbn [negb]; [|apply perm_end; quiet_auto].
  apply pays_quiet; [|quiet_auto]. unfold deliverPendingCommands. apply perm_quiet; [quiet_auto|]. intros [err|pending]; [done|].
  apply pays_quiet; [apply pays_deliverDurable|quiet_auto].
Qed.

Lemma pays_runControl peer accepted cmd : pays [] (handleRunControl peer accepted cmd).
Proof.
  unfold handleRunControl. cbv zeta. perm_case; [apply perm_end; quiet_auto|]. apply perm_quiet; [quiet_auto|].
  intros [adapter|]; [|apply perm_end; quiet_auto]. perm_case; [apply perm_end; quiet_auto|]. apply perm_bind. intros w. cbn [perm].
  destruct (currentRunControlState _ w) as [[state seq]|]; [|apply perm_end; quiet_auto].
  apply perm_bind, perm_typed; [|intros; apply perm_end; quiet_auto].
  intros w' reserve Hr. destruct (exec_op _ w') as [w2 [err|r]] eqn:Hx; [done|]. cbn in Hr. destruct r; try done. injection Hr as ->. cbn [snd grantOf].
  destruct (RunControl.rv_Duplicate reserve); [apply perm_end; quiet_auto|]. cbn [option_list app].
  apply perm_quiet; [quiet_auto|]. intros _. apply perm_durable; [done|]. intros b. apply perm_end. quiet_auto.
Qed.

Lemma pays_settings peer accepted cmd : pays [] (handleSettingsChange peer accepted cmd).
Proof.
  unfold handleSettingsChange. cbv zeta. perm_case; [apply perm_end; quiet_auto|]. perm_case; [|apply perm_end; quiet_auto].
  apply perm_quiet; [quiet_auto|]. intros [adapter|]; [|apply perm_end; quiet_auto]. perm_case; [apply perm_end; quiet_auto|].
  apply perm_bind, perm_typed; [|intros; apply perm_end; quiet_auto].
  intros w' reserve Hr. destruct (exec_op _ w') as [w2 [err|r]] eqn:Hx; [done|]. cbn in Hr. destruct r; try done. injection Hr as ->. cbn [snd grantOf].
  destruct (Settings.sr_Duplicate reserve); [apply perm_end; quiet_auto|]. cbn [option_list app].
  apply perm_quiet; [quiet_auto|]. intros _. apply perm_durable; [done|]. intros b. apply perm_end. quiet_auto.
Qed.

Lemma pays_client authorize peer accepted cmd : pays [] (handleClientCommand authorize peer accepted cmd).
Proof.
  unfold handleClientCommand. cbv zeta.
  repeat (perm_case; [first [apply pays_runControl|apply pays_ledgerSend|apply pays_settings|apply perm_end; by quiet_auto|idtac]|]).
  all: try first [apply pays_runControl|apply pays_ledgerSend|apply pays_settings|apply perm_end; by quiet_auto].
Qed.

(** ** Events of Adapters are quiet *)

Lemma quiet_withEffect {A} a (p : prog (error + A)) : quiet p → quiet (withAdapterEffect a p).
Proof. intros Hp. unfold withAdapterEffect. quiet_auto; done. Qed.

Lemma quiet_proposal a ev id after : (∀ seq, quiet (after seq)) → quiet (commitAdapterProposal a ev id after).
Proof. intros Ha. unfold commitAdapterProposal, commitProposalLocked. quiet_auto; apply Ha. Qed.

Lemma quiet_recoverRuns a sid pending events : quiet (recoverRunControls a sid pending events).
Proof. revert events. induction pending as [|r pending IH]; intros events; cbn [recoverRunControls]; quiet_auto; apply IH. Qed.

Lemma quiet_runCapability a sid i s seq : quiet (publishRunCapability a sid i s seq).
Proof. unfold publishRunCapability. quiet_auto; apply quiet_recoverRuns. Qed.

Lemma quiet_recoverSettings a sid c pending events : quiet (recoverSettings a sid c pending events).
Proof. revert events. induction pending as [|r pending IH]; intros events; cbn [recoverSettings]; quiet_auto; apply IH. Qed.

Lemma quiet_settingsCapability a sid c seq : quiet (publishSettingsCapability a sid c seq).
Proof. unfold publishSettingsCapability. quiet_auto; apply quiet_recoverSettings. Qed.

Lemma quiet_fileCapability a sid c seq : quiet (publishFileCapability a sid c seq).
Proof. unfold publishFileCapability. quiet_auto. Qed.

Lemma quiet_finalizeEncrypted a sid c seq : quiet (finalizeEncryptedRunControl a sid c seq).
Proof. unfold finalizeEncryptedRunControl, resolveEncryptedRunControlCommandID, getRunControl. quiet_auto. Qed.

Lemma quiet_effective a ev id : quiet (finalizeSettingsEffective a ev id).
Proof. unfold finalizeSettingsEffective, finalizeSettingsEffectiveLocked. quiet_auto. Qed.

Lemma quiet_runOutcome a ev id : quiet (finalizeRunControlOutcome a ev id).
Proof.
  unfold finalizeRunControlOutcome, getRunControl. cbv zeta. do 2 quiet_step; try apply quiet_ret. quiet_step. apply quiet_withEffect. quiet_auto.
Qed.

Lemma quiet_fileOutcome a ev id : quiet (finalizeFileReferenceOutcome a ev id).
Proof.
  unfold finalizeFileReferenceOutcome. cbv zeta. do 2 quiet_step; try apply quiet_ret. quiet_step. apply quiet_withEffect. quiet_auto.
Qed.

Lemma quiet_batch a batch : quiet (publishBatch a batch).
Proof. unfold publishBatch. quiet_step. apply quiet_withEffect. quiet_auto. Qed.

#[export] Hint Resolve quiet_runCapability quiet_settingsCapability quiet_fileCapability quiet_finalizeEncrypted quiet_effective
  quiet_runOutcome quiet_fileOutcome quiet_batch : quiet.
#[export] Hint Extern 1 (quiet (commitAdapterProposal _ _ _ _)) => apply quiet_proposal; intros : quiet.

Lemma quiet_noEvents seq : quiet (noEvents seq).
Proof. apply quiet_ret. Qed.
#[export] Hint Resolve quiet_noEvents : quiet.

Lemma quiet_event nfc Quote publisherType a accepted ev : quiet (handleAdapterEvent nfc Quote publisherType a accepted ev).
Proof.
  unfold handleAdapterEvent, normalizedEventTime, v2Only, reported, commitEncryptedRunControlOutcome, commitEncryptedRunControlCapabilityProposal,
    commitFileReferenceCapabilityProposal, commitSettingsCapabilityProposal, commitRunControlCapabilityProposal, refuseEvent.
  quiet_auto. apply quiet_withEffect. quiet_auto.
Qed.
#[export] Hint Resolve quiet_event : quiet.

Lemma pays_body authorize nfc Quote publisherType t : pays [] (body authorize nfc Quote publisherType t).
Proof.
  destruct t; cbn [body]; try (apply perm_end; unfold adapterGone, watchAdapter; by quiet_auto).
  - apply pays_client.
  - apply pays_serve.
Qed.

(** ** The account of all goroutines *)

Section account.
Context (body : task → prog unit) (pays_all : ∀ t, pays [] (body t)).

Definition total (k : key) (Ts : list (list key)) : nat := foldr (λ T n, times k T + n) 0 Ts.

Lemma total_insert k Ts i T T' : Ts !! i = Some T → total k (<[i := T']> Ts) + times k T = total k Ts + times k T'.
Proof.
  revert i. induction Ts as [|T0 Ts IH]; intros [|i] H; [done|done| |].
  - injection H as ->. change (<[0:=T']> (T :: Ts)) with (T' :: Ts). cbn [total foldr]. lia.
  - specialize (IH i H). change (<[S i:=T']> (T0 :: Ts)) with (T0 :: <[i:=T']> Ts). unfold total in *. cbn [foldr]. lia.
Qed.

Lemma total_snoc k Ts : total k (Ts ++ [[]]) = total k Ts.
Proof. unfold total. induction Ts as [|T Ts IH]; [done|]. cbn [foldr app]. by rewrite IH. Qed.

Record paid (clk : nat → Z) (g : config) : Prop := {
  paid_run : ∃ calls, run calls (new_world clk) = (world g, outputs (trace g));
  paid_threads : ∃ Ts, Forall2 (λ T p, pays T p) Ts (threads g)
    ∧ ∀ k, times k (deliveries (trace g)) + total k Ts ≤ times k (grants (outputs (trace g)));
}.

Lemma outputs_snoc tr a : outputs (tr ++ [a]) = outputs tr ++ outsOf a.
Proof. unfold outputs. rewrite bind_app. cbn. by rewrite app_nil_r. Qed.

Lemma outputs_app tr1 tr2 : outputs (tr1 ++ tr2) = outputs tr1 ++ outputs tr2.
Proof. apply bind_app. Qed.

Lemma deliveries_app tr1 tr2 : deliveries (tr1 ++ tr2) = deliveries tr1 ++ deliveries tr2.
Proof. apply bind_app. Qed.

Lemma run_snoc calls w c : run (calls ++ [c]) w = ((run_call c (run calls w).1).1, (run calls w).2 ++ (run_call c (run calls w).1).2).
Proof.
  revert w. induction calls as [|c0 calls IH]; intros w; cbn.
  - destruct (run_call c w) as [w' outs]. cbn. by rewrite app_nil_r.
  - destruct (run_call c0 w) as [w1 outs1]. cbn. rewrite IH. destruct (run calls w1) as [w2 outs2]. cbn. by rewrite (assoc_L app).
Qed.

(** What one effect does: the Store makes at most one call, and the trace
    grows by what the Store answered and what was delivered. *)
Definition follows (g g' : config) (tr : list action) : Prop :=
  trace g' = trace g ++ tr
  ∧ ((world g' = world g ∧ outputs tr = []) ∨ ∃ c, (world g', outputs tr) = run_call c (world g)).

Lemma paid_run_follows clk g g' tr :
  (∃ calls, run calls (new_world clk) = (world g, outputs (trace g))) → follows g g' tr →
  ∃ calls, run calls (new_world clk) = (world g', outputs (trace g')).
Proof.
  intros [calls Hc] [Htr [[Hw Ho]|[c Hx]]].
  - exists calls. by rewrite Hc, Htr, outputs_app, Ho, app_nil_r, Hw.
  - exists (calls ++ [c]). rewrite run_snoc, Hc. cbn [fst snd]. by rewrite <- Hx, Htr, outputs_app.
Qed.

Lemma admitted_quiet a b w : grants (run_call (admittedEffect a b) w).2 = [].
Proof.
  unfold run_call, admittedEffect. cbn [run_script]. destruct (exec_connection true _ w) as [w1 [e|r]]; [done|]. by destruct b.
Qed.

Lemma times_le_app k l1 l2 : times k l1 ≤ times k (l1 ++ l2).
Proof. rewrite times_app. lia. Qed.

Lemma grants_single out : grants [out] = option_list (grantOf out).
Proof. unfold grants. cbn. by destruct (grantOf out). Qed.

(** One effect of a goroutine with the reservations [T]: how it goes on, and
    what it delivered and was granted. *)
Lemma execute_pays i c g (e : effect) (k : answer e → prog unit) T g' x :
  pays T (Do e k) → execute body i c g e = Some (g', x) →
  ∃ T' tr, follows g g' tr ∧ pays T' (k x)
    ∧ (∀ y, times y (deliveries tr) + times y T' ≤ times y (grants (outputs tr)) + times y T)
    ∧ (threads g' = threads g ∨ ∃ t, threads g' = threads g ++ [body t]).
Proof.
  destruct g as [w m h ts tr]. intros Hp. cbn [perm] in Hp. unfold execute.
  assert (∀ g' more, world g' = w → trace g' = tr ++ more → outputs more = [] → follows (mkConfig w m h ts tr) g' more) as Hsame.
  { intros g0 more Hw Htr Ho. split; [done|left; by rewrite Hw]. }
  assert (∀ y, times y (deliveries []) + times y T ≤ times y (grants (outputs [])) + times y T) as Hnone by done.
  destruct e.
  - destruct (run_call (Call o) w) as [w' outs] eqn:Ho. cbn in Ho. destruct (exec_op o w) as [w1 r] eqn:Hx. injection Ho as <- <-.
    intros [= <- <-]. specialize (Hp w). rewrite Hx in Hp. cbn [snd] in Hp. eexists _, [Stored [(o, r)]]. split_and!; [|exact Hp| |by left].
    + split; [done|right]. exists (Call o). cbn. by rewrite Hx.
    + intros y. change (outputs [Stored [(o, r)]]) with [(o, r)]. rewrite times_app, grants_single. change (deliveries [Stored [(o, r)]]) with (@nil key).
      rewrite times_nil. lia.
  - intros [= <- <-]. exists T, []. split_and!; [apply Hsame; [done|by rewrite ?app_nil_r|done]|apply Hp|done|by left].
  - destruct (f m) as [m' a]. intros [= <- <-]. exists T, []. split_and!; [apply Hsame; [done|by rewrite ?app_nil_r|done]|apply Hp|done|by left].
  - intros [= <- <-]. exists T, []. split_and!; [apply Hsame; [done|by rewrite ?app_nil_r|done]|apply Hp|done|by left].
  - intros [= <- <-]. exists T, []. split_and!; [apply Hsame; [done|by rewrite ?app_nil_r|done]|apply Hp|done|by left].
  - intros H. exists T, []. assert (world g' = w ∧ trace g' = tr ∧ threads g' = ts) as (Hw & Htr & Hts).
    { destruct (cancellable l && negb (ok c)); [by simplify_eq|]. destruct (h !! l); by simplify_eq. }
    split_and!; [apply Hsame; [done|by rewrite ?app_nil_r|done]|apply Hp|done|by left].
  - intros [= <- <-]. exists T, []. split_and!; [apply Hsame; [done|by rewrite ?app_nil_r|done]|apply Hp|done|by left].
  - intros [= <- <-]. exists T, (if written c then [ToAdapter a f] else []).
    split_and!; [apply Hsame; [done|done|by destruct (written c)]|apply Hp|by destruct (written c)|by left].
  - destruct (run_call _ w) as [w' outs] eqn:Hx. intros [= <- <-].
    assert (grants outs = []) as Hg by (pose proof (admitted_quiet a (written c && ok c) w) as Hq; by rewrite Hx in Hq).
    set (sent := if admits outs && written c then [DurableToAdapter d a f] else []).
    assert (outputs (Stored outs :: sent) = outs) as Hout.
    { change (outputs (Stored outs :: sent)) with (outs ++ outputs sent).
      assert (outputs sent = []) as -> by (unfold sent; by destruct (admits outs && written c)). apply app_nil_r. }
    assert (follows (mkConfig w m h ts tr) (mkConfig w' m h ts (tr ++ Stored outs :: sent)) (Stored outs :: sent)) as Hf.
    { split; [done|right]. eexists. cbn [world]. by rewrite Hx, Hout. }
    destruct (uses d f) as [y0|] eqn:Hu.
    + destruct Hp as (T' & -> & Hp). exists T', (Stored outs :: sent). split_and!; [exact Hf|apply Hp| |by left].
      intros y. rewrite Hout, Hg, (times_cons y y0 T'). assert (times y (deliveries (Stored outs :: sent)) ≤ times y [y0]); [|rewrite times_nil; lia].
      change (deliveries (Stored outs :: sent)) with (deliveries sent). unfold sent, deliveries.
      destruct (admits outs && written c); cbn; [by rewrite Hu|apply Nat.le_0_l].
    + exists T, (Stored outs :: sent). split_and!; [exact Hf|apply Hp| |by left].
      intros y. assert (deliveries (Stored outs :: sent) = []) as ->; [|rewrite times_nil; lia].
      change (deliveries (Stored outs :: sent)) with (deliveries sent). unfold sent, deliveries.
      destruct (admits outs && written c); cbn; [by rewrite Hu|done].
  - intros [= <- <-]. exists T, (if written c then [ToPeer peer f] else []).
    split_and!; [apply Hsame; [done|done|by destruct (written c)]|apply Hp|by destruct (written c)|by left].
  - intros [= <- <-]. exists T, [Published ev]. split_and!; [by apply Hsame|apply Hp|done|by left].
  - destruct (run_call _ w) as [w' outs] eqn:Hx. intros [= <- <-].
    set (sent := if admits outs then [Published ev] else []).
    assert (outputs (Stored outs :: sent) = outs) as Hout.
    { change (outputs (Stored outs :: sent)) with (outs ++ outputs sent).
      assert (outputs sent = []) as -> by (unfold sent; by destruct (admits outs)). apply app_nil_r. }
    exists T, (Stored outs :: sent). split_and!; [|apply Hp| |by left].
    + split; [done|right]. eexists. cbn [world]. by rewrite Hx, Hout.
    + intros y. assert (deliveries (Stored outs :: sent) = []) as ->; [|rewrite times_nil; lia].
      change (deliveries (Stored outs :: sent)) with (deliveries sent). unfold sent. by destruct (admits outs).
  - intros [= <- <-]. exists T, []. split_and!; [apply Hsame; [done|by rewrite ?app_nil_r|done]|apply Hp|done|by left].
  - intros [= <- <-]. exists T, [Observed activity]. split_and!; [by apply Hsame|apply Hp|done|by left].
  - intros [= <- <-]. exists T, []. split_and!; [apply Hsame; [done|by rewrite ?app_nil_r|done]|apply Hp|done|by left].
  - intros [= <- <-]. exists T, []. split_and!; [apply Hsame; [done|by rewrite ?app_nil_r|done]|apply Hp|done|right; by exists t].
Qed.

Lemma paid_new clk : paid clk (newConfig clk).
Proof. split; [by exists []|]. exists []. split; [constructor|]. intros k. cbn. lia. Qed.

Lemma paid_step clk g ch g' : paid clk g → step body g ch = Some g' → paid clk g'.
Proof.
  intros [Hrun (Ts & Hts & Hk)] H. destruct ch as [i c|t|c|]; cbn [step] in H.
  - destruct (threads g !! i) as [[r|e k]|] eqn:Hi; [done| |done]. apply bind_Some in H as ([g1 x] & Hx & [= <-]).
    destruct (Forall2_lookup_r _ _ _ _ _ Hts Hi) as (T & HT & Hp).
    destruct (execute_pays i c g e k T g1 x Hp Hx) as (T' & tr & Hf & Hp' & Hle & Hth).
    assert (∃ new, threads g1 = threads g ++ new ∧ Forall (λ p, pays [] p) new ∧ length new ≤ 1) as (new & Hnew & Hall & _).
    { destruct Hth as [->|[t ->]]; [exists []|exists [body t]]; split_and!; [by rewrite app_nil_r|done|cbn; lia|done|by constructor|done]. }
    split; [exact (paid_run_follows clk g g1 tr Hrun Hf)|]. cbn [setThread threads trace].
    exists (<[i := T']> (Ts ++ replicate (length new) [])). split.
    + rewrite Hnew. apply Forall2_insert; [|done]. apply Forall2_app; [done|].
      clear -Hall. induction Hall; cbn; by constructor.
    + intros y. destruct Hf as [-> _]. rewrite deliveries_app, outputs_app, grants_app, !times_app.
      assert ((Ts ++ replicate (length new) []) !! i = Some T) as HT' by (by apply lookup_app_l_Some).
      pose proof (total_insert y _ i T T' HT') as Htot.
      assert (total y (Ts ++ replicate (length new) []) = total y Ts) as Hpad.
      { clear. induction Ts as [|T0 Ts IH]; cbn [total foldr app]; [|unfold total in IH; by rewrite IH].
        induction new; cbn; [done|]. exact IHnew. }
      specialize (Hk y). specialize (Hle y). lia.
  - injection H as <-. split; [done|]. exists (Ts ++ [[]]). split; [apply Forall2_app; [done|]; by repeat constructor|].
    intros y. rewrite total_snoc. apply Hk.
  - destruct (run_call c (world g)) as [w outs] eqn:Hx. injection H as <-. split.
    + apply (paid_run_follows clk g _ [Stored outs] Hrun). split; [done|right]. exists c. cbn. by rewrite Hx, app_nil_r.
    + exists Ts. split; [done|]. intros y. cbn [trace]. rewrite deliveries_app, outputs_app, grants_app, !times_app. specialize (Hk y).
      change (deliveries [Stored outs]) with (@nil key). rewrite times_nil. lia.
  - injection H as <-. split; cbn [world trace threads].
    + destruct Hrun as [calls Hc]. exists calls. rewrite Hc, outputs_app. cbn. by rewrite app_nil_r.
    + exists []. split; [constructor|]. intros y. rewrite deliveries_app, outputs_app.
      change (deliveries [Restarted]) with (@nil key). change (outputs [Restarted]) with (@nil output). rewrite !app_nil_r. specialize (Hk y).
      unfold total. cbn [foldr]. lia.
Qed.

Lemma paid_steps clk chs g g' : paid clk g → steps body g chs = Some g' → paid clk g'.
Proof.
  revert g. induction chs as [|ch chs IH]; intros g Hg; cbn; [by intros [= <-]|]. intros (g1 & H1 & H2)%bind_Some.
  by apply (IH g1); [eapply paid_step|].
Qed.

Lemma delivered_once clk chs g k : steps body (newConfig clk) chs = Some g → times k (deliveries (trace g)) ≤ 1.
Proof.
  intros H. destruct (paid_steps clk chs _ _ (paid_new clk) H) as [[calls Hc] (Ts & _ & Hk)]. specialize (Hk k).
  pose proof (grants_once k clk calls) as Ho. rewrite Hc in Ho. cbn [snd] in Ho. lia.
Qed.
End account.

(** C3: A command reaches the Adapter at most once.  In every run of the Hub,
    with any number of clients and Adapters, any interleaving of their
    goroutines, failed or unconfirmed writes, timeouts, crashes and restarts of
    the Hub, and other processes using the Store, at most one frame of a given
    durable command, run control or settings change of a Session is written to
    an Adapter. *)
Theorem durable_command_is_delivered_at_most_once authorize nfc Quote publisherType clk chs g d sid id :
  steps (body authorize nfc Quote publisherType) (newConfig clk) chs = Some g →
  times (d, sid, id) (deliveries (trace g)) ≤ 1.
Proof. apply delivered_once. apply pays_body. Qed.

End HubDelivery.
