(* ===== verification/HubScenarios.v ===== *)
(** * Runs of the Hub

    Complete runs of the goroutines of [HubEvents.body], evaluated: an Adapter
    connects, clients send commands to it, and interleavings that the handlers
    do not exclude. *)

From S2P Require Import Prelude StoreApi Json Wire GoText Sha256 Frames EncryptedPacket CodecPayloads Sqlite EventLog Connections.
From S2P Require Import CommandLedger RunControl Settings FileReferences StoreOps Scenarios Auth Handshake HubProgram HubCommands HubEvents HubDelivery.
From stdpp Require Import base gmap strings list option.
#[local] Open Scope Z_scope.

Module HubScenarios.
Import Wire Frames Connections StoreOps HubProgram HubCommands HubEvents HubDelivery.

Definition principal (scope : Auth.Scope) : Auth.Principal := Auth.mkPrincipal "alice" [scope] None None Auth.API.

Definition adapterPeer : Handshake.AcceptedPeer :=
  Handshake.mkPeer "adapter" ProtocolVersionV2 (principal (Auth.SessionAdapter "s1")) "s1" "p" false Handshake.ContentModeLegacy [] ∅ ∅ false.

Definition clientPeer : Handshake.AcceptedPeer :=
  Handshake.mkPeer "client" ProtocolVersionV2 (principal (Auth.SessionControl "s1")) "" "" false Handshake.ContentModeLegacy
    [mkSubscription "s1" 0 true]
    {[ "s1" := Auth.mkDecision Auth.SessionAdmissionCurrent true ]} ∅ false.

Definition authorize (p : Auth.Principal) (s : Auth.Scope) : bool := match Auth.Authorize p s with None => true | Some _ => false end.

Definition hubBody : task → prog unit := body authorize id id (λ _, false).

Definition at_ (ms : Z) (random : string) : choices := mkChoices true true (of_UnixMilli (1700000000000 + ms)) random.

(** ** Schedules *)

(** What a schedule is made of: a task alone until it ends or waits, the first
    steps of a task, the rest of a thread, or a crash. *)
Inductive move :=
  | Whole (t : task) (c : choices)
  | First (n : nat) (t : task) (c : choices)
  | Rest (thread : nat) (c : choices)
  | Fails.

Fixpoint runs (fuel : nat) (i : nat) (c : choices) (g : config) : list choice * config :=
  match fuel with
  | O => ([], g)
  | S fuel =>
      match step hubBody g (Run i c) with
      | Some g' => let '(chs, g'') := runs fuel i c g' in (Run i c :: chs, g'')
      | None => ([], g)
      end
  end.

Definition start (t : task) (g : config) : config := default g (step hubBody g (Start t)).

Fixpoint schedule (moves : list move) (g : config) : list choice :=
  match moves with
  | [] => []
  | Whole t c :: moves => let '(chs, g') := runs 300 (length (threads g)) c (start t g) in Start t :: chs ++ schedule moves g'
  | First n t c :: moves => let '(chs, g') := runs n (length (threads g)) c (start t g) in Start t :: chs ++ schedule moves g'
  | Rest i c :: moves => let '(chs, g') := runs 300 i c g in chs ++ schedule moves g'
  | Fails :: moves => Crash :: schedule moves (default g (step hubBody g Crash))
  end.

Definition newHub : config := newConfig Scenarios.clk.

(** What the Hub wrote and published in a run, in short: commands, with the
    connection they went to, the answers to clients, and events with their
    numbers. *)
Definition brief (a : action) : list (string * string * Z) :=
  match a with
  | DurableToAdapter _ a (FCommand c) | ToAdapter a (FCommand c) => [("command", cmd_CommandID c, Z.of_nat (conn a))]
  | ToAdapter _ (FErrorFrame e) => [("error", ef_Message e, 0)]
  | ToPeer p (FCommandAck k) => [(ca_Status k, ca_CommandID k +:+ " " +:+ ca_Reason k, Z.of_nat p)]
  | Published ev => [("event", ev_Type ev, default 0 (ev_Seq ev))]
  | Restarted => [("restart", "", 0)]
  | _ => []
  end.

Definition seen (moves : list move) : option (list (string * string * Z)) :=
  (λ g, trace g ≫= brief) <$> steps hubBody newHub (schedule moves newHub).

(** ** A message *)

Definition helloAck : HelloAck := mkHelloAck Handshake.ContentModeLegacy ProtocolVersionV2 NilSlice None None.

Definition connects (conn : nat) (ms : Z) (lease : string) : move :=
  Whole (AdapterConnected conn adapterPeer 1 Scenarios.expires true helloAck) (at_ ms lease).

Definition adapterOn (conn : nat) (epoch : Z) (fence : Z) (lease : string) : adapterConnection :=
  mkAdapter conn "s1" "p" ProtocolVersionV2 Handshake.ContentModeLegacy (mkAdmission 1 epoch fence (fence + 1)) (mkWriter epoch 1 lease).

Definition sendOf (id payload : string) : task := ClientCommand 7 clientPeer (mkCommand id CommandSessionSend "s1" (Raw payload)).

Definition hello : string := Json.marshalStruct [("text", Json.marshalString "hi")].

Definition messages : list move :=
  [connects 1 0 "lease-1";
   Whole (sendOf "c1" hello) (at_ 5 "");
   Whole (AdapterAck (adapterOn 1 1 1 "lease-1") (mkCommandAck "c1" AckAccepted "")) (at_ 6 "");
   Whole (sendOf "c1" hello) (at_ 7 "")].


(** A schedule is a run. *)
Lemma seen_run moves out : seen moves = Some out →
  ∃ g, steps hubBody newHub (schedule moves newHub) = Some g ∧ trace g ≫= brief = out.
Proof. unfold seen. intros (g & Hg & H)%fmap_Some. by exists g. Qed.

(** The message is stored, published, delivered and acknowledged; its retry is a
    duplicate. *)
Example message_is_delivered :
  seen messages = Some [("event", "session.message", 1); ("command", "c1", 1); ("accepted", "c1 ", 7); ("duplicate", "c1 ", 7)].
Proof. vm_compute. reflexivity. Qed.

(** A Hub that stops between the claim of a message and its delivery, and an
    Adapter that connects again: the message is not delivered, and its retry is
    a duplicate. *)
Definition interrupted : list move :=
  [connects 1 0 "lease-1";
   First 12 (sendOf "c1" hello) (at_ 5 "");
   Fails;
   connects 2 10 "lease-2";
   Whole (sendOf "c1" hello) (at_ 15 "")].

Example claimed_message_is_not_delivered_later :
  seen interrupted = Some [("event", "session.message", 1); ("restart", "", 0); ("duplicate", "c1 ", 7)].
Proof. vm_compute. reflexivity. Qed.

Lemma durable_command_is_delivered_at_most_once_witness :
  let delivered := λ g, times (LedgerDelivery, "s1", "c1") (deliveries (trace g)) in
  delivered <$> steps hubBody newHub (schedule messages newHub) = Some 1%nat
  ∧ ∀ g, steps hubBody newHub (schedule messages newHub) = Some g → (delivered g ≤ 1)%nat.
Proof.
  split; [vm_compute; reflexivity|]. intros g.
  exact (durable_command_is_delivered_at_most_once authorize id id (λ _, false) Scenarios.clk _ g LedgerDelivery "s1" "c1").
Defined.

(** ** A message with a file reference *)

Definition digest : string := Sha256.fingerprint [].

Definition capability0 (fp : string) : CodecPayloads.FileReferenceCapabilityPayload :=
  CodecPayloads.mkFileReferenceCapability 1 fp 4 1000 (CodecPayloads.mkDisposition "allowed" (Some 1000) None)
    (CodecPayloads.mkImage "unsupported" None (Slice [] []) (Some "provider_unsupported")).

Definition filesFingerprint : string := CodecPayloads.FileReferenceCapabilityFingerprint (capability0 "").

Definition filesPayload : string :=
  Json.marshalStruct
    [("schema_version", "1"); ("fingerprint", Json.marshalString filesFingerprint); ("max_references", "4"); ("max_total_bytes", "1000");
     ("file", Json.marshalStruct [("mode", Json.marshalString "allowed"); ("max_bytes", "1000"); ("reason", "null")]);
     ("image", Json.marshalStruct [("mode", Json.marshalString "unsupported"); ("max_bytes", "null"); ("media_types", "[]");
                                   ("reason", Json.marshalString "provider_unsupported")])].

Definition referencePayload : string :=
  Json.marshalStruct
    [("content", marshalArray
       [Json.marshalStruct
          [("kind", Json.marshalString "file_reference"); ("disposition", Json.marshalString "file"); ("path", Json.marshalString "a.txt");
           ("version", Json.marshalString "v1"); ("content_digest", Json.marshalString digest); ("bytes", "10"); ("media_type", "null")]]);
     ("capability_fingerprint", Json.marshalString filesFingerprint)].

Definition eventFrom (a : adapterConnection) (type payload proposal : string) (ms : Z) : move :=
  Whole (AdapterEvent a adapterPeer (Frames.mkEvent type "s1" None (1700000000000 + ms) (Raw payload) proposal)) (at_ ms "").

Definition offersFiles (a : adapterConnection) (proposal : string) (ms : Z) : move :=
  eventFrom a "session.file_references.capabilities" filesPayload proposal ms.

(** A restart in between does not repeat the delivery. *)
Definition retried : list move :=
  [connects 1 0 "lease-1"; offersFiles (adapterOn 1 1 1 "lease-1") "p1" 1;
   Whole (sendOf "f1" referencePayload) (at_ 5 "");
   Fails;
   connects 2 10 "lease-2"; offersFiles (adapterOn 2 2 3 "lease-2") "p2" 11;
   Whole (sendOf "f1" referencePayload) (at_ 15 "")].

(** Two connections of the client send the message at the same time. *)
Definition raced : list move :=
  [connects 1 0 "lease-1"; offersFiles (adapterOn 1 1 1 "lease-1") "p1" 1;
   First 4 (sendOf "f1" referencePayload) (at_ 5 "");
   Whole (sendOf "f1" referencePayload) (at_ 6 "");
   Rest 2 (at_ 7 "")].

Example restart_does_not_repeat_a_file_reference :
  seen retried = Some [("event", "session.file_references.capabilities", 1); ("event", "session.message", 2); ("command", "f1", 1);
                       ("accepted", "f1 ", 7); ("restart", "", 0); ("event", "session.file_references.capabilities", 4);
                       ("duplicate", "f1 ", 7)].
Proof. vm_compute. reflexivity. Qed.


(** The log of the Session at the end of a run: numbers and types. *)
Definition logged (g : config) : list (Z * string) := (λ e, (Seq e, Type_ e)) <$> EventLog.replayed (db (world g)) "s1" 0.

(** A schedule and what it leaves behind. *)
Lemma seen_logged moves out log :
  (λ g, (trace g ≫= brief, logged g)) <$> steps hubBody newHub (schedule moves newHub) = Some (out, log) →
  ∃ g, steps hubBody newHub (schedule moves newHub) = Some g ∧ trace g ≫= brief = out ∧ logged g = log.
Proof. intros (g & Hg & [= -> ->])%fmap_Some. by exists g. Qed.

(** The Adapter connects again between the acknowledgement of the delivery and
    the reading of the latest number. *)
Definition replaced : list move :=
  [connects 1 0 "lease-1"; offersFiles (adapterOn 1 1 1 "lease-1") "p1" 1;
   First 8 (sendOf "f1" referencePayload) (at_ 5 "");
   First 20 (AdapterConnected 2 adapterPeer 1 Scenarios.expires true helloAck) (at_ 6 "lease-2");
   Rest 2 (at_ 7 "")].

(** A message with file references can be published under the number of
    another event.  The Hub takes the latest number of the Session for that of
    the message it has just committed, but the hello of a new Adapter connection,
    which does not wait for the publication gate, can store an outcome in
    between: the run publishes the message as event 3, while the log has it as
    event 2 and an outcome as event 3. *)
Theorem file_message_can_get_another_number :
  ∃ chs g, steps hubBody newHub chs = Some g
    ∧ trace g ≫= brief = [("event", "session.file_references.capabilities", 1); ("event", "session.message", 3); ("accepted", "f1 ", 7)]
    ∧ logged g = [(1, "session.file_references.capabilities"); (2, "session.message"); (3, "session.file_references.outcome")].
Proof. exists (schedule replaced newHub). apply seen_logged. vm_compute. reflexivity. Qed.

(** ** A run control that is not delivered *)

Definition commandOf (id type payload : string) : task := ClientCommand 7 clientPeer (mkCommand id type "s1" (Raw payload)).

Definition running : list move :=
  [connects 1 0 "lease-1";
   eventFrom (adapterOn 1 1 1 "lease-1") "session.state" (Json.marshalStruct [("state", Json.marshalString "busy")]) "p1" 1;
   eventFrom (adapterOn 1 1 1 "lease-1") "session.run.capabilities"
     (Json.marshalStruct [("schema_version", "1"); ("interrupt_supported", "true"); ("stop_supported", "true")]) "p2" 2].

(** The connection breaks when the stop is written. *)
Definition broken (ms : Z) : choices := mkChoices false false (of_UnixMilli (1700000000000 + ms)) "".

Definition answer0 : task := commandOf "a1" CommandPermissionRespond (Json.marshalStruct [("request_id", Json.marshalString "r1")]).

Definition overtaken : list move :=
  running ++ [First 20 (commandOf "x1" CommandSessionStop "{}") (broken 5); Whole answer0 (at_ 6 ""); Rest 3 (at_ 7 "")].

Example stop_is_delivered :
  seen (running ++ [Whole (commandOf "x1" CommandSessionStop "{}") (at_ 5 "")])
  = Some [("event", "session.state", 1); ("event", "session.run.capabilities", 2); ("command", "x1", 1)].
Proof. vm_compute. reflexivity. Qed.

(** The outcome of an undelivered run control can be published out of
    order.  When the write of a stop fails, the Hub ends its reservation in the
    Store and publishes the outcome without the publication gate of the Session,
    so the answer to a permission request that is stored after it can be
    published before it. *)
Theorem recovered_outcome_can_be_published_late :
  ∃ chs g, steps hubBody newHub chs = Some g
    ∧ trace g ≫= brief = [("event", "session.state", 1); ("event", "session.run.capabilities", 2); ("event", "permission.decision", 4);
                          ("accepted", "a1 ", 7); ("event", "session.run.outcome", 3); ("rejected", "x1 adapter_delivery_failed", 7)].
Proof. exists (schedule overtaken newHub). apply seen_run. vm_compute. reflexivity. Qed.

(** The Adapter connects again while a stop is pending. *)
Definition fenced : list move :=
  running ++ [Whole (commandOf "x1" CommandSessionStop "{}") (at_ 5 "");
              connects 2 10 "lease-2";
              eventFrom (adapterOn 2 2 3 "lease-2") "session.state" (Json.marshalStruct [("state", Json.marshalString "ready")]) "p3" 11].

(** Outcomes that a reconnecting Adapter causes are not published.  The hello
    of a new connection stores the outcome of a run control that the old
    connection left pending, and no goroutine publishes it: in this run live
    clients get event 4 directly after event 2, while the log has the outcome as
    event 3. *)
Theorem fenced_outcome_is_not_published :
  ∃ chs g, steps hubBody newHub chs = Some g
    ∧ trace g ≫= brief = [("event", "session.state", 1); ("event", "session.run.capabilities", 2); ("command", "x1", 1);
                          ("event", "session.state", 4)]
    ∧ logged g = [(1, "session.state"); (2, "session.run.capabilities"); (3, "session.run.outcome"); (4, "session.state")].
Proof. exists (schedule fenced newHub). apply seen_logged. vm_compute. reflexivity. Qed.

End HubScenarios.
