(* ===== verification/GoAny.v ===== *)
(** * Values of any type

    Go's [map\[string\]any] as [encoding/json] builds and prints it, [fmt.Sprint]
    on such values, and the parts of [strings] and [unicode/utf8] that work on
    runes: trimming, truncation and boundaries.

    A value is a [json] value whose objects have every key once: [JNull] is nil,
    [JNumber] a [json.Number] or an integer. *)

From S2P Require Import Prelude Json JsonProofs Wire GoText.
From stdpp Require Import base strings list option.
#[local] Open Scope Z_scope.

Module GoAny.
Import Json JsonProofs Wire GoText.

Notation object := (list (string * json)).

(** ** Decoding *)

(** The last of several members with one key is kept, at every level. *)
Fixpoint anyOf (v : json) : json :=
  match v with
  | JArray l => JArray (anyOf <$> l)
  | JObject ms => JObject (foldl (λ m kv, put kv.1 kv.2 m) [] ((λ kv : string * json, (kv.1, anyOf kv.2)) <$> ms))
  | v => v
  end.

(** [json.NewDecoder] with [UseNumber], [Decode] into a [map\[string\]any]: one
    value is read, what follows it is not looked at. *)
Definition decodeObject (data : string) : option object :=
  '(v, _) ← value (fuel_of (bytes_of data)) maxNestingDepth (bytes_of data);
  match v with
  | JObject _ => match anyOf v with JObject ms => Some ms | _ => None end
  | JNull => Some []
  | _ => None
  end.

(** ** Printing *)

Fixpoint marshalAny (v : json) : string :=
  match v with
  | JNull => "null"
  | JBool b => if b then "true" else "false"
  | JNumber lit => lit
  | JString s => marshalString s
  | JArray l => marshalArray (marshalAny <$> l)
  | JObject ms => marshalStruct (sortKeys ((λ m : string * json, (m.1, marshalAny m.2)) <$> ms))
  end.

Definition int (z : Z) : json := JNumber (formatInt z).

(** [fmt.Sprint] of a value that is not a string. *)
Fixpoint Sprint (v : json) : string :=
  match v with
  | JNull => "<nil>"
  | JBool b => if b then "true" else "false"
  | JNumber lit => lit
  | JString s => s
  | JArray l => "[" +:+ String.concat " " (Sprint <$> l) +:+ "]"
  | JObject ms =>
      "map[" +:+ String.concat " " ((λ m : string * string, m.1 +:+ ":" +:+ m.2) <$>
                                    sortKeys ((λ m : string * json, (m.1, Sprint m.2)) <$> ms)) +:+ "]"
  end.

(** ** Runes *)

(** [unicode.IsSpace]. *)
Definition IsSpace (r : Z) : bool :=
  bool_decide (r ∈ [9; 10; 11; 12; 13; 32; 0x85; 0xA0; 0x1680; 0x2028; 0x2029; 0x202F; 0x205F; 0x3000]) || between 0x2000 r 0x200A.

(** The runes of a text as byte strings; a byte that starts no rune is one of
    its own. *)
Fixpoint segments (fuel : nat) (l : list Z) : list (list Z) :=
  match fuel, l with
  | S fuel, _ :: _ => let w := Nat.max 1 (utf8_width l) in take w l :: segments fuel (drop w l)
  | _, _ => []
  end.

Definition spaceSegment (s : list Z) : bool := bool_decide (utf8_width s = length s) && IsSpace (utf8_decode s).

Fixpoint dropWhile {A} (p : A → bool) (l : list A) : list A :=
  match l with
  | x :: l' => if p x then dropWhile p l' else l
  | [] => []
  end.

(** [strings.TrimSpace] and [bytes.TrimSpace]. *)
Definition TrimSpace (s : string) : string :=
  let segs := segments (String.length s) (bytes_of s) in
  string_of (concat (rev (dropWhile spaceSegment (rev (dropWhile spaceSegment segs))))).

(** [strings.TrimRight(s, c)] for one byte. *)
Definition TrimRight (s : string) (c : Z) : string :=
  string_of (rev (dropWhile (λ x, bool_decide (x = c)) (rev (bytes_of s)))).

(** [strings.ReplaceAll] of one byte by another. *)
Definition replaceByte (a b : Z) (s : string) : string := string_of ((λ c, if bool_decide (c = a) then b else c) <$> bytes_of s).

(** What follows the first occurrence of [sep], if there is one. *)
Fixpoint afterFirst (sep l : list Z) : option (list Z) :=
  match strip sep l with
  | Some r => Some r
  | None => match l with [] => None | _ :: l => afterFirst sep l end
  end.

(** [utf8.RuneStart]. *)
Definition RuneStart (c : Z) : bool := negb (cont c).

(** Going back from [cut] to the start of a rune, at least to the beginning. *)
Fixpoint runeBoundary (l : list Z) (cut : nat) : nat :=
  match cut with
  | O => O
  | S cut' => if RuneStart (default 0 (l !! cut)) then cut else runeBoundary l cut'
  end.

(** [string(\[\]rune(value)\[:limit\])] when there are more than [limit] runes. *)
Definition truncateRunes (value : string) (limit : nat) : string :=
  if bool_decide (length (runesOf value) ≤ limit)%nat then value
  else string_of (take limit (runesOf value) ≫= utf8_encode).

(** The longest prefix of at most [limit] bytes that is valid UTF-8. *)
Fixpoint validPrefix (l : list Z) (limit : nat) : nat :=
  match limit with
  | O => O
  | S limit' => if utf8_valid 0 (take limit l) then limit else validPrefix l limit'
  end.

Definition takeBytes (n : nat) (s : string) : string := string_of (take n (bytes_of s)).
Definition dropBytes (n : nat) (s : string) : string := string_of (drop n (bytes_of s)).

Example trims : TrimSpace (string_of [32; 0xC2; 0xA0; 104; 32; 105; 10; 0xE3; 0x80; 0x80]) = "h i".
Proof. vm_compute. reflexivity. Qed.

Example truncates : (truncateRunes "abc" 2, runeBoundary [0xC3; 0xA9; 0xC3; 0xA9] 3) = ("ab", 2%nat).
Proof. vm_compute. reflexivity. Qed.

Example prints :
  marshalAny (anyOf (JObject [("b", JNumber "1e2"); ("a", JArray [JNull; JBool true]); ("b", JString "x")]))
  = "{" +:+ quote "a" +:+ ":[null,true]," +:+ quote "b" +:+ ":" +:+ quote "x" +:+ "}"
  ∧ Sprint (JObject [("b", JNumber "1e2"); ("a", JArray [JNull; JBool true])]) = "map[a:[<nil> true] b:1e2]".
Proof. split; vm_compute; reflexivity. Qed.

End GoAny.
