(* ===== verification/Mapper.v ===== *)
(** * The ACP mapper

    [adapter/acp/mapper.go]: the frames of a Provider, one JSON object per line,
    become events of the Session.  Each function of the source is the definition
    of its name; the mapper is passed as a value.

    [fuel] bounds each of the loops that shrink or split a payload; [None] is
    such a loop that has not ended.  [now] is the reading of the clock during
    one call, [nfc] is [norm.NFC.String]. *)

From S2P Require Import Prelude StoreApi Json Wire GoText Sha256 Frames CodecPayloads GoAny.
From stdpp Require Import base gmap strings list option.
#[local] Open Scope Z_scope.

Module Mapper.
Import Json Wire GoText GoAny.

Definition maxToolOutputPreviewBytes : Z := 32 * 1024.
Definition maxMessagePayloadBytes : Z := CodecPayloads.MaxEventPayloadBytes - 4 * 1024.
Definition maxTextChunkBytes : Z := 8 * 1024.
Definition maxCompactToolInputBytes : Z := 2 * 1024.
Definition maxCompactToolStringBytes : Z := 512.
Definition maxToolCallDiffs : nat := 8.
Definition maxDiffTextBytes : Z := 8 * 1024.
Definition maxDiffSideTotalBytes : Z := 24 * 1024.
Definition maxDiffBaseNameRuneLen : nat := 128.
Definition maxPlanEntries : nat := 48.
Definition maxPlanEntryTextBytes : Z := 512.
Definition maxPlanMarkdownBytes : Z := 16 * 1024.

Record Mapper := mkMapper {
  m_sessionID : string;
  m_provider : string;
  m_maxPayloadBytes : Z;
  m_nextMessageID : Z;
  m_providerSessionID : string;
  m_activeToolCallIDs : gset string;
  m_providerCommands : list object;
  m_providerOptions : list object;
}.

(** The default clock of the source is not needed: the time is an argument. *)
Definition NewMapper (sessionID provider : string) (maxPayloadBytes : Z) : option Mapper :=
  if bool_decide (sessionID = "") || bool_decide (provider = "") then None
  else
    let max := if bool_decide (maxPayloadBytes ≤ 0) || bool_decide (CodecPayloads.MaxEventPayloadBytes < maxPayloadBytes)
               then CodecPayloads.MaxEventPayloadBytes else maxPayloadBytes in
    Some (mkMapper sessionID provider max 0 "" ∅ [] []).

Definition withNextMessageID (n : Z) (m : Mapper) : Mapper :=
  mkMapper (m_sessionID m) (m_provider m) (m_maxPayloadBytes m) n (m_providerSessionID m) (m_activeToolCallIDs m) (m_providerCommands m) (m_providerOptions m).
Definition withProviderSessionID (s : string) (m : Mapper) : Mapper :=
  mkMapper (m_sessionID m) (m_provider m) (m_maxPayloadBytes m) (m_nextMessageID m) s (m_activeToolCallIDs m) (m_providerCommands m) (m_providerOptions m).
Definition withActive (f : gset string → gset string) (m : Mapper) : Mapper :=
  mkMapper (m_sessionID m) (m_provider m) (m_maxPayloadBytes m) (m_nextMessageID m) (m_providerSessionID m) (f (m_activeToolCallIDs m)) (m_providerCommands m) (m_providerOptions m).
Definition withCommands (l : list object) (m : Mapper) : Mapper :=
  mkMapper (m_sessionID m) (m_provider m) (m_maxPayloadBytes m) (m_nextMessageID m) (m_providerSessionID m) (m_activeToolCallIDs m) l (m_providerOptions m).
Definition withOptions (l : list object) (m : Mapper) : Mapper :=
  mkMapper (m_sessionID m) (m_provider m) (m_maxPayloadBytes m) (m_nextMessageID m) (m_providerSessionID m) (m_activeToolCallIDs m) (m_providerCommands m) l.

Definition messagePayloadBudget (m : Mapper) : Z :=
  let headroom := 2 * 1024 in
  if bool_decide (m_maxPayloadBytes m = CodecPayloads.MaxEventPayloadBytes) then maxMessagePayloadBytes
  else if bool_decide (headroom < m_maxPayloadBytes m) then m_maxPayloadBytes m - headroom
  else m_maxPayloadBytes m.

(** ** Reading objects *)

Definition objectOf (v : option json) : option object := match v with Some (JObject ms) => Some ms | _ => None end.

Definition objectField (value : object) (key : string) : option object := objectOf (get key value).

(** [objectField] of a nil map is nil. *)
Definition objectFieldOf (value : option object) (key : string) : option object := v ← value; objectField v key.

Definition objectOrNil (value : json) : json := match value with JObject _ => value | _ => JNull end.

Definition stringField (value : object) (key : string) : string := match get key value with Some (JString s) => s | _ => "" end.

Fixpoint firstString (value : object) (keys : list string) : string :=
  match keys with
  | [] => ""
  | key :: keys => let text := stringField value key in if bool_decide (text ≠ "") then text else firstString value keys
  end.

Fixpoint firstAny (value : object) (keys : list string) : json :=
  match keys with
  | [] => JNull
  | key :: keys => match get key value with Some item => item | None => firstAny value keys end
  end.

Definition isNil (v : json) : bool := match v with JNull => true | _ => false end.
Definition isTrue (v : json) : bool := match v with JBool b => b | _ => false end.

(** [value\[key\]], nil when there is no such key. *)
Definition anyField (value : object) (key : string) : json := default JNull (get key value).

Definition stringFromAny (value : json) : string :=
  match value with JString s => s | JNull => "" | v => Sprint v end.

Definition copyWithout (value : object) (keys : list string) : object :=
  List.filter (λ m, bool_decide (m.1 ∉ keys)) value.

Definition frameName (value : object) : string := firstString value ["type"; "subtype"; "sessionUpdate"; "kind"; "method"; "event"].

Definition objectsOf (l : list json) : list object := omap (λ v, match v with JObject ms => Some ms | _ => None end) l.

Definition updateObjects (raw : object) (key : string) : list object :=
  match anyField raw key with
  | JObject ms => [ms]
  | JArray items => objectsOf items
  | _ => []
  end.

Definition present (value : object) (key : string) : bool := bool_decide (get key value ≠ None).

Definition sessionIDFromResponse (value : object) : string :=
  if negb (present value "id") then ""
  else match objectField value "result" with
       | Some result => firstString result ["session_id"; "sessionId"]
       | None => ""
       end.

Definition stopReasonFrame (value : object) : bool :=
  present value "stopReason" || present value "stop_reason"
  || match objectField value "result" with
     | Some result => present result "stopReason" || present result "stop_reason"
     | None => false
     end.

Definition updateText (value : object) : string :=
  let text := firstString value ["text"; "chunk"; "content"] in
  if bool_decide (text ≠ "") then text
  else match objectField value "content" with
       | Some content => firstString content ["text"; "chunk"]
       | None => ""
       end.

(** [params], when it is an object, instead of the frame. *)
Definition paramsOf (raw : object) : object := default raw (objectField raw "params").

(** ** Bounded texts *)

Definition boundText (value : string) (limit : Z) : string * bool :=
  if bool_decide (value = "") || bool_decide (limit ≤ 0) then ("", bool_decide (value ≠ ""))
  else if bool_decide (len value ≤ limit) then (value, false)
  else (takeBytes (runeBoundary (bytes_of value) (Z.to_nat limit)) value, true).

Definition boundedIdentifier (value : string) : string :=
  let trimmed := TrimSpace value in if bool_decide (64 < len trimmed) then "" else trimmed.

Definition reducedFileName (reference : string) : string :=
  let trimmed := TrimSpace reference in
  if bool_decide (trimmed = "") then ""
  else
    let trimmed := match afterFirst (bytes_of "://") (bytes_of trimmed) with Some l => string_of l | None => trimmed end in
    let trimmed := TrimRight (replaceByte 92 47 trimmed) 47 in
    let base := default "" (list.last (Split trimmed 47)) in
    let '(name, truncated) := boundText base maxPlanEntryTextBytes in
    if truncated : bool then "" else name.

Definition nonEmptyReason (reason fallback : string) : string :=
  if bool_decide (TrimSpace reason ≠ "") then TrimSpace reason else fallback.

Definition isLegacyCodexWarning (text : string) : bool :=
  let trimmed := TrimSpace text in HasPrefix trimmed "Warning: Model metadata for " || HasPrefix trimmed "Config warning:".

Definition toolOutputPreview (value : json) : string * bool * Z :=
  match value with
  | JNull => ("", false, 0)
  | _ =>
      let preview := match value with JString s => s | v => marshalAny v end in
      let outputBytes := len preview in
      if bool_decide (outputBytes ≤ maxToolOutputPreviewBytes) then (preview, false, outputBytes)
      else (takeBytes (validPrefix (bytes_of preview) (Z.to_nat maxToolOutputPreviewBytes)) preview, true, outputBytes)
  end.

(** ** File diffs *)

Definition diffText (block : object) (key : string) : string := TrimRight (stringFromAny (anyField block key)) 10.

(** The diff of one block within [budget], and the bytes it uses; [None] when it
    has no text. *)
Definition acpDiff (block : object) (name : string) (budget : Z) : option (object * Z) :=
  let '(oldText, oldTruncated) := boundText (diffText block "oldText") (Z.min (budget `quot` 2) maxDiffTextBytes) in
  let '(newText, newTruncated) := boundText (diffText block "newText") (Z.min (budget - len oldText) maxDiffTextBytes) in
  if bool_decide (oldText = "") && bool_decide (newText = "") then None
  else
    let put_if (c : bool) (k : string) (v : json) (o : object) := if c then put k v o else o in
    let diff := [("path_base", JString (truncateRunes name maxDiffBaseNameRuneLen))] in
    let diff := put_if (bool_decide (oldText ≠ "")) "old_text" (JString oldText) diff in
    let diff := put_if oldTruncated "old_text_truncated" (JBool true) diff in
    let diff := put_if (bool_decide (newText ≠ "")) "new_text" (JString newText) diff in
    let diff := put_if newTruncated "new_text_truncated" (JBool true) diff in
    Some (diff, len oldText + len newText).

Fixpoint acpDiffBlocks (items : list json) (diffs : list object) (budget : Z) : list object :=
  match items with
  | [] => diffs
  | JObject block :: items =>
      if bool_decide (firstString block ["type"] ≠ "diff") then acpDiffBlocks items diffs budget
      else if bool_decide (maxToolCallDiffs ≤ length diffs)%nat then diffs
      else
        let name := reducedFileName (firstString block ["path"]) in
        if bool_decide (name = "") then acpDiffBlocks items diffs budget
        else if bool_decide (budget ≤ 0) then diffs
        else match acpDiff block name budget with
             | None => acpDiffBlocks items diffs budget
             | Some (diff, used) => acpDiffBlocks items (diffs ++ [diff]) (budget - used)
             end
  | _ :: items => acpDiffBlocks items diffs budget
  end.

Definition acpDiffs (update : object) : list object :=
  match firstAny update ["content"] with
  | JArray raw => acpDiffBlocks raw [] maxDiffSideTotalBytes
  | _ => []
  end.

Definition shrinkDiffEntry (entry : object) : option object :=
  let oldText := stringField entry "old_text" in
  let newText := stringField entry "new_text" in
  if bool_decide (len oldText ≤ 64) && bool_decide (len newText ≤ 64) then None
  else
    let side (key truncated text : string) (o : object) :=
      if bool_decide (0 < len text) then
        let next := (boundText text (len text `quot` 2)).1 in
        put truncated (JBool true) (if bool_decide (next ≠ "") then put key (JString next) o else o)
      else o in
    let shrunk := remove "new_text" (remove "old_text" entry) in
    let shrunk := side "old_text" "old_text_truncated" oldText shrunk in
    let shrunk := side "new_text" "new_text_truncated" newText shrunk in
    if isNil (anyField shrunk "old_text") && isNil (anyField shrunk "new_text") then None else Some shrunk.

(** ** Output of tools *)

Definition blockText (block : object) : option string :=
  if bool_decide (firstString block ["type"; "kind"] ∈ ["text"; "content"]) then
    let text := firstString block ["text"; "content"] in
    if bool_decide (text ≠ "") then Some text
    else match objectField block "content" with
         | Some nested => let text := firstString nested ["text"; "content"] in if bool_decide (text ≠ "") then Some text else None
         | None => None
         end
  else None.

Definition newline : string := string_of [10].

Definition acpToolOutputText (value : json) : option string :=
  match value with
  | JArray blocks =>
      match omap blockText (objectsOf blocks) with
      | [] => None
      | parts => Some (String.concat newline parts)
      end
  | _ => None
  end.

Definition acpToolOutputValue (update : object) : json :=
  let direct := List.filter (λ v, negb (isNil v)) (anyField update <$> ["rawOutput"; "raw_output"; "result"]) in
  match direct with
  | value :: _ => match acpToolOutputText value with Some text => JString text | None => value end
  | [] =>
      match anyField update "content" with
      | JArray blocks => match acpToolOutputText (JArray blocks) with Some text => JString text | None => JNull end
      | JObject ms => let text := firstString ms ["text"; "content"] in if bool_decide (text ≠ "") then JString text else JObject ms
      | v => v
      end
  end.

Definition compactToolInputAllowlist : list string :=
  ["path"; "file_path"; "filePath"; "target_file"; "command"; "cmd"; "query"; "pattern"; "prompt"; "description"; "url"; "uri"; "action";
   "risk_level"; "summary"; "run_in_background"; "runInBackground"; "offset"; "limit"; "timeout"].

Definition compactToolInput (input : object) : object :=
  foldl (λ compact key,
    match get key input with
    | Some (JString s) => put key (JString (boundText s maxCompactToolStringBytes).1) compact
    | Some (JBool b) => put key (JBool b) compact
    | Some (JNumber n) => put key (JNumber n) compact
    | _ => compact
    end) [("_truncated", JBool true)] compactToolInputAllowlist.

Definition isACPAskUserQuestion (name : string) : bool := bool_decide (name ∈ ["AskUserQuestion"; "ask_user_question"; "askUserQuestion"]).

Definition acpQuestionItems (input : json) : json :=
  match input with
  | JObject ms => match get "questions" ms with Some questions => questions | None => JArray [] end
  | _ => JArray []
  end.

(** ** Settings *)

Definition choiceOf (item : json) : option CodecPayloads.SettingsCapabilityChoice :=
  match item with
  | JObject ms =>
      let id := firstString ms ["id"; "value"; "name"] in
      let label := firstString ms ["label"; "title"; "name"; "value"] in
      if bool_decide (id = "") || bool_decide (label = "") then None else Some (CodecPayloads.mkChoice id label)
  | _ => None
  end.

(** [sort.Slice] by ID; the order of equal IDs does not matter, they are
    refused. *)
Definition settingsChoices (source : object) (max : nat) (keys : list string) : option (list CodecPayloads.SettingsCapabilityChoice) :=
  match firstAny source keys with
  | JArray items =>
      if bool_decide (length items = 0%nat) || bool_decide (max < length items)%nat then None
      else
        choices ← mapM choiceOf items;
        let sorted := snd <$> sortKeys ((λ c, (CodecPayloads.choice_ID c, c)) <$> choices) in
        if bool_decide (NoDup (CodecPayloads.choice_ID <$> sorted)) then Some sorted else None
  | _ => None
  end.

Definition settingsChangeMode (source : object) (choiceCount : nat) (keys : list string) : string * option string :=
  let allowed := match firstAny source keys with
                 | JBool b => b
                 | JString s => bool_decide (s = "allowed")
                 | _ => false
                 end in
  if allowed && bool_decide (2 ≤ choiceCount)%nat then ("allowed", None) else ("read_only", Some "provider_unsupported").

Definition settingsCapabilityData (c : CodecPayloads.SettingsCapabilityPayload) : list Z :=
  let appendString (value : string) := bigEndian 2 (len value) ++ bytes_of value in
  let appendChoices (l : list CodecPayloads.SettingsCapabilityChoice) :=
    (Z.of_nat (length l) mod 256) :: (l ≫= λ c, appendString (CodecPayloads.choice_ID c) ++ appendString (CodecPayloads.choice_Label c)) in
  let flag (mode : string) := [if bool_decide (mode = "allowed") then 1 else 0] in
  bytes_of "agentwharf.settings-capability.v1" ++ [0; 1]
  ++ appendChoices (elems (CodecPayloads.sc_Models c)) ++ appendChoices (elems (CodecPayloads.sc_PermissionModes c))
  ++ appendString (CodecPayloads.sc_EffectiveModelID c) ++ appendString (CodecPayloads.sc_EffectivePermissionModeID c)
  ++ flag (CodecPayloads.sc_ModelChange c) ++ flag (CodecPayloads.sc_PermissionChange c)
  ++ appendString (default "" (CodecPayloads.sc_ModelReadOnlyReason c)) ++ appendString (default "" (CodecPayloads.sc_PermissionReadOnlyReason c)).

Definition settingsCapabilityFingerprint (c : CodecPayloads.SettingsCapabilityPayload) : string := Sha256.fingerprint (settingsCapabilityData c).

(** ** Plans *)

Definition planIdentifier (value : object) : string := firstString value ["id"; "plan_id"; "planId"].

Definition planEntry (item : json) : option object :=
  match item with
  | JObject entry =>
      let content := (boundText (TrimSpace (stringFromAny (anyField entry "content"))) maxPlanEntryTextBytes).1 in
      if bool_decide (content = "") then None
      else Some [("content", JString content); ("status", JString (boundedIdentifier (stringFromAny (anyField entry "status"))));
                 ("priority", JString (boundedIdentifier (stringFromAny (anyField entry "priority"))))]
  | _ => None
  end.

Fixpoint planEntries (items : list json) (entries : list object) : list object * bool :=
  match items with
  | [] => (entries, false)
  | item :: items =>
      if bool_decide (maxPlanEntries ≤ length entries)%nat then (entries, true)
      else planEntries items (match planEntry item with Some e => entries ++ [e] | None => entries end)
  end.

Definition normalizePlanEntries (value : json) : list object * bool :=
  match value with JArray items => planEntries items [] | _ => ([], false) end.

(** ** Metadata of messages *)

Definition numberFromAny (value : json) : option Z :=
  match value with
  | JNumber lit => n ← parseInt lit; if bool_decide (0 ≤ n) then Some n else None
  | _ => None
  end.

Definition mergeObjectMaps (base overlay : object) : object := foldl (λ m kv, put kv.1 kv.2 m) base overlay.

Definition acpMessageExtra (update : object) : object :=
  let source := match objectField update "_meta" with Some meta => mergeObjectMaps update meta | None => update end in
  let model := firstString source ["model"; "model_id"; "modelId"] in
  let parent := firstString source ["parent_tool_call_id"; "parentToolCallId"; "parent_tool_use_id"; "parentToolUseId"] in
  let sidechain := isTrue (anyField source "is_sidechain") || isTrue (anyField source "isSidechain") in
  let extra := if bool_decide (model ≠ "") then [("model", JString model)] else [] in
  let extra := if bool_decide (parent ≠ "") then put "parent_tool_call_id" (JString parent) extra else extra in
  let extra := if sidechain then put "is_sidechain" (JBool true) extra else extra in
  match objectField source "usage" with
  | None => extra
  | Some usage =>
      let trimmed := omap (λ key, (λ n, (key, int n)) <$> numberFromAny (anyField usage key))
                       ["input_tokens"; "output_tokens"; "cache_read_input_tokens"; "cache_creation_input_tokens"] in
      if bool_decide (length trimmed = 0%nat) then extra else put "usage" (JObject trimmed) extra
  end.

Definition providerList (payload : object) (names : list string) : list object :=
  match omap (λ name, match anyField payload name with JArray items => Some items | _ => None end) names with
  | items :: _ => objectsOf items
  | [] => []
  end.

Definition providerCommandList (payload : object) : list object := providerList payload ["commands"; "available_commands"; "availableCommands"].
Definition providerOptionList (payload : object) : list object := providerList payload ["config_options"; "configOptions"].

(** ** Events *)

Section mapper.
Context (fuel : nat) (now : time) (nfc : string → string).

Definition event (m : Mapper) (eventType : string) (payload : object) : Frames.Event :=
  Frames.mkEvent eventType (m_sessionID m) None (UnixMilli now) (Raw (marshalAny (JObject payload))) "".

Definition rawEvent (m : Mapper) (eventType : string) (payload : string) : Frames.Event :=
  Frames.mkEvent eventType (m_sessionID m) None (UnixMilli now) (Raw payload) "".

(** [len(event.Payload)]. *)
Definition payloadBytes (e : Frames.Event) : Z := match Frames.ev_Payload e with NilRaw => 0 | Raw t => len t end.

Definition stateEvent (m : Mapper) (state providerSessionID : string) (metadata : object) : Frames.Event :=
  event m "session.state" [("state", JString state); ("provider", JString (m_provider m)); ("provider_session_id", JString providerSessionID);
                           ("metadata", JObject metadata); ("source", JString "acp")].

Definition messageEventWithExtra (m : Mapper) (messageID text providerSessionID : string) (extra : object) : Frames.Event :=
  let payload := [("message_id", JString messageID); ("role", JString "agent");
                  ("content", JArray [JObject [("kind", JString "text"); ("text", JString text)]])] in
  let payload := if bool_decide (providerSessionID ≠ "") then put "provider_session_id" (JString providerSessionID) payload else payload in
  event m "session.message" (foldl (λ p kv, if isNil kv.2 then p else put kv.1 kv.2 p) payload extra).

Definition messageEvent (m : Mapper) (messageID text providerSessionID : string) : Frames.Event :=
  messageEventWithExtra m messageID text providerSessionID [].

Definition utf8PrefixEnd (text : list Z) (e : nat) : nat := if bool_decide (length text ≤ e)%nat then length text else runeBoundary text e.

(** The inner loop of [splitMessageEvents]. *)
Fixpoint fitting (fuel : nat) (remaining : list Z) (maxPayloadBytes : Z) (ev : string → Frames.Event) (e : nat) : option nat :=
  match fuel with
  | O => None
  | S fuel =>
      if bool_decide (1 < e)%nat && bool_decide (maxPayloadBytes < payloadBytes (ev (string_of (take e remaining))))
      then fitting fuel remaining maxPayloadBytes ev (utf8PrefixEnd remaining (e / 2))
      else Some e
  end.

Fixpoint splitRemaining (fuel : nat) (remaining : list Z) (maxPayloadBytes : Z) (ev : string → Frames.Event) : option (list Frames.Event) :=
  match remaining with
  | [] => Some []
  | _ =>
      match fuel with
      | O => None
      | S fuel =>
          let e := utf8PrefixEnd remaining (Nat.min (length remaining) (Z.to_nat maxTextChunkBytes)) in
          let e := if bool_decide (e = 0%nat) then 1%nat else e in
          e ← fitting (S (Z.to_nat maxTextChunkBytes)) remaining maxPayloadBytes ev e;
          rest ← splitRemaining fuel (drop e remaining) maxPayloadBytes ev;
          Some (ev (string_of (take e remaining)) :: rest)
      end
  end.

Definition splitMessageEvents (text : string) (maxPayloadBytes : Z) (ev : string → Frames.Event) : option (list Frames.Event) :=
  if bool_decide (text = "") || bool_decide (maxPayloadBytes < 1) then Some [] else splitRemaining fuel (bytes_of text) maxPayloadBytes ev.

Definition messageEventsWithExtra (m : Mapper) (messageID text providerSessionID : string) (extra : object) : option (list Frames.Event) :=
  splitMessageEvents text (messagePayloadBudget m) (λ part, messageEventWithExtra m messageID part providerSessionID extra).

Definition arrayOf (l : list object) : json := JArray (JObject <$> l).

(** The payload of a result. *)
Definition resultPayload (toolCallID status output : string) (truncated : bool) (outputBytes : Z) (name : string) (diffs : list object) : object :=
  let payload := [("tool_call_id", JString toolCallID); ("phase", JString "result"); ("input", JNull);
                  ("result", JObject [("status", JString status); ("output_preview", JString output); ("truncated", JBool truncated);
                                      ("output_bytes", int outputBytes)])] in
  let payload := if bool_decide (name ≠ "") then put "name" (JString name) payload else payload in
  if bool_decide (length diffs = 0%nat) then payload else put "diffs" (arrayOf diffs) payload.

Fixpoint resultEvent (fuel : nat) (m : Mapper) (toolCallID status output : string) (truncated : bool) (outputBytes : Z) (name : string)
    (diffs : list object) : option Frames.Event :=
  match fuel with
  | O => None
  | S fuel =>
      let ev := event m "session.tool_call" (resultPayload toolCallID status output truncated outputBytes name diffs) in
      if bool_decide (payloadBytes ev ≤ m_maxPayloadBytes m) then Some ev
      else if bool_decide (output ≠ "") then
        let limit := validPrefix (bytes_of output) (Z.to_nat (len output `quot` 2)) in
        resultEvent fuel m toolCallID status (takeBytes limit output) true outputBytes name diffs
      else
        match diffs with
        | _ :: _ :: _ => resultEvent fuel m toolCallID status output truncated outputBytes name (take (length diffs - 1) diffs)
        | [diff] => resultEvent fuel m toolCallID status output truncated outputBytes name (option_list (shrinkDiffEntry diff))
        | [] =>
            if bool_decide (name ≠ "") && bool_decide (256 < len name)
            then resultEvent fuel m toolCallID status output truncated outputBytes (truncateRunes name 128) diffs
            else Some ev
        end
  end.

Definition toolCallResultEventWithDetails (m : Mapper) (toolCallID status output : string) (truncated : bool) (outputBytes : Z) (name : string)
    (diffs : list object) : option Frames.Event := resultEvent fuel m toolCallID status output truncated outputBytes name diffs.

Definition toolCallResultEvent (m : Mapper) (toolCallID status output : string) : option Frames.Event :=
  toolCallResultEventWithDetails m toolCallID status output false (len output) "" [].

(** The loop over the diffs of a payload that is too large. *)
Fixpoint shrinkDiffs (fuel : nat) (m : Mapper) (payload : object) (diffs : list object) : option object :=
  match fuel with
  | O => None
  | S fuel =>
      if bool_decide (m_maxPayloadBytes m < payloadBytes (event m "session.tool_call" payload)) then
        match diffs with
        | [] => Some payload
        | [diff] =>
            match shrinkDiffEntry diff with
            | Some shrunk => shrinkDiffs fuel m (put "diffs" (arrayOf [shrunk]) payload) [shrunk]
            | None => shrinkDiffs fuel m (remove "diffs" payload) []
            end
        | _ => let diffs := take (length diffs - 1) diffs in shrinkDiffs fuel m (put "diffs" (arrayOf diffs) payload) diffs
        end
      else Some payload
  end.

Definition fits (m : Mapper) (payload : object) : bool := bool_decide (payloadBytes (event m "session.tool_call" payload) ≤ m_maxPayloadBytes m).

Definition truncateField (key : string) (payload : object) : object :=
  match get key payload with
  | Some (JString s) => if bool_decide (256 < len s) then put key (JString (truncateRunes s 128)) payload else payload
  | _ => payload
  end.

(** What is left when nothing else helps. *)
Definition minimalPayload (payload : object) : object :=
  let payload := remove "diffs" payload in
  let payload := if isNil (anyField payload "input") then payload else put "input" (JObject [("_truncated", JBool true)]) payload in
  truncateField "name" (truncateField "title" payload).

(** [payload\["diffs"\].(\[\]map\[string\]any)]. *)
Definition diffsOf (payload : object) : list object := match anyField payload "diffs" with JArray l => objectsOf l | _ => [] end.

Definition compactedPayload (payload : object) : object :=
  match anyField payload "input" with
  | JObject ((_ :: _) as input) =>
      if bool_decide (maxCompactToolInputBytes < len (marshalAny (JObject input))) then put "input" (JObject (compactToolInput input)) payload else payload
  | _ => payload
  end.

Definition boundedToolEvent (m : Mapper) (payload : object) : option Frames.Event :=
  let ev := event m "session.tool_call" in
  if fits m payload then Some (ev payload)
  else
    let payload := compactedPayload payload in
    if fits m payload then Some (ev payload)
    else
      payload ← (match diffsOf payload with [] => Some payload | diffs => shrinkDiffs fuel m payload diffs end);
      if fits m payload then Some (ev payload) else Some (ev (minimalPayload payload)).

(** [sort.Strings] of the keys of the set. *)
Definition sortedIDs (ids : gset string) : list string := fst <$> sortKeys ((λ id, (id, ())) <$> base.elements ids).

Definition finishActiveToolCalls (m : Mapper) (output : string) : option (Mapper * list Frames.Event) :=
  events ← mapM (λ id, toolCallResultEvent m id "error" output) (sortedIDs (m_activeToolCallIDs m));
  Some (withActive (λ _, ∅) m, events).

Definition Finalize (m : Mapper) (reason : string) : option (Mapper * list Frames.Event) :=
  if bool_decide (m_activeToolCallIDs m = ∅) then Some (m, [])
  else
    '(m, events) ← finishActiveToolCalls m "Provider exited before returning a tool result.";
    Some (m, events ++
      [messageEvent m "acp-provider-error" ("The Agent could not complete this turn: " +:+ nonEmptyReason reason "provider output closed unexpectedly")
         (m_providerSessionID m);
       stateEvent m "error" (m_providerSessionID m) [("reason", JString "provider_output_closed"); ("source", JString "acp")]]).

Definition toolCallEnrichmentEvents (m : Mapper) (update : object) (toolCallID : string) : option (list Frames.Event) :=
  let diffs := acpDiffs update in
  let title := firstString update ["title"] in
  let input := objectOrNil (firstAny update ["rawInput"; "raw_input"; "input"]) in
  if bool_decide (length diffs = 0%nat) && bool_decide (title = "") && isNil input then Some []
  else
    let payload := [("tool_call_id", JString toolCallID); ("phase", JString "start"); ("name", JString (firstString update ["name"; "kind"; "title"]));
                    ("input", input); ("result", JNull)] in
    let payload := if bool_decide (title ≠ "") then put "title" (JString title) payload else payload in
    let payload := if bool_decide (length diffs = 0%nat) then payload else put "diffs" (arrayOf diffs) payload in
    e ← boundedToolEvent m payload; Some [e].

Definition resultStatus (status : string) : option string :=
  if bool_decide (status ∈ ["completed"; "result"; "ok"; "success"]) then Some "ok"
  else if bool_decide (status ∈ ["failed"; "error"]) then Some "error"
  else if bool_decide (status ∈ ["cancelled"; "canceled"]) then Some "cancelled"
  else None.

Definition toolCallStart (m : Mapper) (update : object) (toolCallID : string) : option (Mapper * list Frames.Event) :=
  let input := objectOrNil (firstAny update ["rawInput"; "raw_input"; "input"]) in
  let name := firstString update ["name"; "kind"; "title"] in
  let title := firstString update ["title"] in
  let diffs := acpDiffs update in
  let payload := [("tool_call_id", JString toolCallID); ("phase", JString "start"); ("name", JString name); ("input", input); ("result", JNull)] in
  let payload := if bool_decide (length diffs = 0%nat) then payload else put "diffs" (arrayOf diffs) payload in
  let payload := if bool_decide (title ≠ "") then put "title" (JString title) payload else payload in
  e ← boundedToolEvent m payload;
  Some (withActive (union {[toolCallID]}) m,
        e :: if isACPAskUserQuestion name then
               [event m "permission.request"
                  [("request_id", JString ("question:" +:+ toolCallID)); ("action", JString "ask_user_question"); ("risk_level", JString "low");
                   ("summary", JString "Agent asks a question"); ("detail", JObject [("questions", acpQuestionItems input)])]]
             else []).

Definition toolCallEvents (m : Mapper) (update : object) (isUpdate : bool) : option (Mapper * list Frames.Event) :=
  let toolCallID := firstString update ["tool_call_id"; "toolCallId"; "tool_use_id"; "toolUseId"; "id"] in
  let status := firstString update ["status"; "phase"] in
  if bool_decide (toolCallID = "") then Some (m, [])
  else if negb isUpdate || bool_decide (status ∈ ["pending"; "in_progress"; "start"]) then toolCallStart m update toolCallID
  else
    match resultStatus status with
    | Some result =>
        let '(preview, truncated, outputBytes) := toolOutputPreview (acpToolOutputValue update) in
        e ← toolCallResultEventWithDetails m toolCallID result preview truncated outputBytes (firstString update ["name"; "kind"; "title"]) (acpDiffs update);
        Some (withActive (λ ids, ids ∖ {[toolCallID]}) m, [e])
    | None =>
        if bool_decide (status = "") then events ← toolCallEnrichmentEvents m update toolCallID; Some (m, events)
        else Some (m, [])
    end.

(** ** Permissions *)

Definition permissionRequestEvent (m : Mapper) (source : object) (requestID providerSessionID : string) : list Frames.Event :=
  let detail := default [] (objectField source "detail") in
  let detail := match get "options" source with Some options => put "options" options detail | None => detail end in
  let detail := if bool_decide (providerSessionID ≠ "") then put "provider_session_id" (JString providerSessionID) detail else detail in
  [event m "permission.request"
     [("request_id", JString requestID); ("action", JString (stringField source "action"));
      ("risk_level", JString (firstString source ["risk_level"; "riskLevel"; "risk"])); ("summary", JString (stringField source "summary"));
      ("detail", JObject detail); ("expires_at", firstAny source ["expires_at"; "expiresAt"])]].

Definition permissionToolCallEvent (m : Mapper) (source : object) (requestID : string) : option (Mapper * Frames.Event) :=
  let toolCallID := if bool_decide (requestID ≠ "") then "permission:" +:+ requestID else "permission" in
  let action := stringField source "action" in
  let name := if bool_decide (action = "") then "permission" else action in
  let input := [("action", JString action); ("risk_level", JString (firstString source ["risk_level"; "riskLevel"; "risk"]));
                ("summary", JString (stringField source "summary"))] in
  let input := match get "options" source with Some options => put "options" options input | None => input end in
  let m := withActive (union {[toolCallID]}) m in
  e ← boundedToolEvent m [("tool_call_id", JString toolCallID); ("phase", JString "start"); ("name", JString name); ("input", JObject input); ("result", JNull)];
  Some (m, e).

Definition mapSessionPermissionRequest (m : Mapper) (raw : object) (providerSessionID : string) : option (Mapper * list Frames.Event) :=
  let source := paramsOf raw in
  let providerSessionID :=
    match objectField raw "params" with
    | Some params => if bool_decide (providerSessionID = "") then firstString params ["session_id"; "sessionId"] else providerSessionID
    | None => providerSessionID
    end in
  let requestID := firstString source ["request_id"; "requestId"; "id"] in
  let requestID := if bool_decide (requestID = "") then stringFromAny (anyField raw "id") else requestID in
  '(m, e) ← permissionToolCallEvent m source requestID;
  Some (m, e :: permissionRequestEvent m source requestID providerSessionID).

(** ** Warnings and failures *)

Definition providerWarningEvent (m : Mapper) (text warningID providerSessionID : string) : Frames.Event :=
  let payload := [("kind", JString "provider_warning"); ("text", JString text); ("provider_session_id", JString providerSessionID)] in
  event m "agent.activity" (if bool_decide (warningID ≠ "") then put "warning_id" (JString warningID) payload else payload).

(** The event, and whether it is a failure: [isProviderFailureEvent] reads the
    kind back from the payload. *)
Definition providerFailureEvent (m : Mapper) (update : object) (providerSessionID : string) : option (Frames.Event * bool) :=
  failure ← objectFieldOf (objectFieldOf (objectFieldOf (objectField update "_meta") "jetbrains") "air") "sessionFailure";
  let text := firstString failure ["title"; "message"] in
  if bool_decide (text = "") then None
  else
    let failed := bool_decide (firstString failure ["severity"] = "error") in
    let kind := if failed then "provider_failure" else "provider_warning" in
    let warningID := firstString failure ["id"] in
    let category := firstString failure ["category"] in
    let payload := [("kind", JString kind); ("text", JString text); ("provider_session_id", JString providerSessionID)] in
    let payload := if bool_decide (warningID ≠ "") then put "warning_id" (JString warningID) payload else payload in
    let payload := if bool_decide (category ≠ "") then put "category" (JString category) payload else payload in
    Some (event m "agent.activity" payload, failed).

Definition jsonRPCErrorEvents (m : Mapper) (raw : object) : option (Mapper * list Frames.Event) :=
  if negb (present raw "id") || negb (isNil (anyField raw "method")) then Some (m, [])
  else
    match objectField raw "error" with
    | None => Some (m, [])
    | Some errObj =>
        let message := firstString errObj ["message"] in
        let message := if bool_decide (message = "") then "unknown error" else message in
        '(m, events) ← finishActiveToolCalls m "Provider failed before returning a tool result.";
        Some (m, events ++
          [messageEvent m "acp-rpc-error" ("The Agent could not complete this turn: " +:+ message) (m_providerSessionID m);
           stateEvent m "error" (m_providerSessionID m) [("reason", JString "provider_rpc_error"); ("source", JString "acp")]])
    end.

(** ** Settings events *)

Definition settingsCapabilityEvent (m : Mapper) (raw : object) : list Frames.Event :=
  let source := paramsOf raw in
  match settingsChoices source 32 ["models"; "available_models"; "model_options"],
        settingsChoices source 16 ["permission_modes"; "permissionModes"; "available_permission_modes"; "permission_options"] with
  | Some models, Some permissions =>
      let effectiveModel := firstString source ["effective_model_id"; "effectiveModelId"; "model"] in
      let effectivePermission := firstString source ["effective_permission_mode_id"; "effectivePermissionModeId"; "permission_mode"; "permissionMode"] in
      let orFirst (s : string) (l : list CodecPayloads.SettingsCapabilityChoice) :=
        if bool_decide (s = "") then match l with c :: _ => CodecPayloads.choice_ID c | [] => s end else s in
      let '(modelChange, modelReason) := settingsChangeMode source (length models) ["model_change"; "modelChange"] in
      let '(permissionChange, permissionReason) := settingsChangeMode source (length permissions) ["permission_change"; "permissionChange"] in
      let payload fp :=
        CodecPayloads.mkSettingsCapability 1 fp (Slice models []) NilSlice (Slice permissions []) (orFirst effectiveModel models) None
          (orFirst effectivePermission permissions) modelChange "" permissionChange modelReason None permissionReason in
      match CodecPayloads.marshalSettingsCapability (payload (settingsCapabilityFingerprint (payload ""))) with
      | Some encoded =>
          if bool_decide (is_Some (CodecPayloads.DecodeSettingsCapabilityPayload nfc encoded)) then [rawEvent m "session.settings.capabilities" encoded] else []
      | None => []
      end
  | _, _ => []
  end.

Definition settingsEffectiveEvent (m : Mapper) (raw : object) : list Frames.Event :=
  let source := paramsOf raw in
  let encoded := marshalAny (JObject
    [("cmd_id", JString (firstString source ["cmd_id"; "command_id"; "commandId"]));
     ("request_fingerprint", JString (firstString source ["request_fingerprint"; "requestFingerprint"]));
     ("effective_fingerprint", JString (firstString source ["effective_fingerprint"; "effectiveFingerprint"]));
     ("outcome", JString (firstString source ["outcome"; "status"]));
     ("effective_model_id", JString (firstString source ["effective_model_id"; "effectiveModelId"; "model"]));
     ("effective_permission_mode_id",
       JString (firstString source ["effective_permission_mode_id"; "effectivePermissionModeId"; "permission_mode"; "permissionMode"]));
     ("reason_code", firstAny source ["reason_code"; "reasonCode"])]) in
  if bool_decide (is_Some (CodecPayloads.DecodeSettingsEffectivePayload encoded)) then [rawEvent m "session.settings.effective" encoded] else [].

(** ** Plan events *)

Definition boundedPlan (m : Mapper) (payload : object) : bool := bool_decide (payloadBytes (event m "agent.activity" payload) ≤ m_maxPayloadBytes m).

(** The loop that drops entries, then halves the document. *)
Fixpoint shrinkPlan (fuel : nat) (m : Mapper) (payload : object) : option object :=
  match fuel with
  | O => None
  | S fuel =>
      if boundedPlan m payload then Some payload
      else
        match anyField payload "entries", anyField payload "markdown" with
        | JArray ((_ :: _) as entries), _ =>
            shrinkPlan fuel m (put "truncated" (JBool true) (put "entries" (JArray (take (length entries - 1) entries)) payload))
        | _, JString markdown =>
            if bool_decide (markdown = "") then Some payload
            else shrinkPlan fuel m (put "truncated" (JBool true) (put "markdown" (JString (boundText markdown (len markdown `quot` 2)).1) payload))
        | _, _ => Some payload
        end
  end.

Definition planPayload (source : object) (providerSessionID : string) : option object :=
  let payload := [("kind", JString "plan"); ("provider_session_id", JString providerSessionID)] in
  let id := planIdentifier source in
  let payload := if bool_decide (id ≠ "") then put "plan_id" (JString id) payload else payload in
  let mark (truncated : bool) (o : object) := if truncated then put "truncated" (JBool true) o else o in
  if negb (isNil (anyField source "entries")) then
    let '(entries, truncated) := normalizePlanEntries (anyField source "entries") in
    if bool_decide (length entries = 0%nat) && negb truncated then None
    else Some (mark truncated (put "entries" (arrayOf entries) payload))
  else if bool_decide (firstString source ["content"] ≠ "") then
    let '(markdown, truncated) := boundText (firstString source ["content"]) maxPlanMarkdownBytes in
    if bool_decide (markdown = "") then None else Some (mark truncated (put "markdown" (JString markdown) payload))
  else if bool_decide (firstString source ["uri"] ≠ "") then
    let name := reducedFileName (firstString source ["uri"]) in
    if bool_decide (name = "") then None else Some (put "file_name" (JString name) payload)
  else None.

Definition planEvents (m : Mapper) (source : object) (providerSessionID : string) : option (list Frames.Event) :=
  match planPayload source providerSessionID with
  | None => Some []
  | Some payload => payload ← shrinkPlan fuel m payload; Some [event m "agent.activity" payload]
  end.

Definition planUpdateEvents (m : Mapper) (update : object) (providerSessionID : string) : option (list Frames.Event) :=
  match objectField update "plan" with
  | None => Some []
  | Some plan =>
      if bool_decide (firstString plan ["type"] ∈ ["items"; "markdown"; "file"]) then planEvents m plan providerSessionID else Some []
  end.

Definition planRemovedEvents (m : Mapper) (update : object) (providerSessionID : string) : list Frames.Event :=
  let payload := [("kind", JString "plan_removed"); ("provider_session_id", JString providerSessionID)] in
  let id := planIdentifier update in
  [event m "agent.activity" (if bool_decide (id ≠ "") then put "plan_id" (JString id) payload else payload)].

(** ** Commands and options of the Provider *)

Definition providerCommandsEvent (m : Mapper) (providerSessionID : string) : list Frames.Event :=
  let commands := m_providerCommands m in
  let options := m_providerOptions m in
  if bool_decide (length commands = 0%nat) && bool_decide (length options = 0%nat) then []
  else
    let payload := [("provider_session_id", JString providerSessionID)] in
    let payload := if bool_decide (length commands = 0%nat) then payload else put "commands" (arrayOf commands) payload in
    let payload := if bool_decide (length options = 0%nat) then payload else put "config_options" (arrayOf options) payload in
    [event m "session.commands" payload].

Definition MapProviderSessionStart (m : Mapper) (result : object) : Mapper * list Frames.Event :=
  let options := providerOptionList result in
  if bool_decide (length result = 0%nat) || bool_decide (length options = 0%nat) then (m, [])
  else let m := withOptions options m in (m, providerCommandsEvent m "").

(** The payload of an activity that passes an update on. *)
Definition activityPayload (update : object) (kind providerSessionID : string) : object :=
  put "provider_session_id" (JString providerSessionID)
    (put "kind" (JString kind) (copyWithout update ["type"; "subtype"; "kind"; "sessionUpdate"])).

Definition maxUint64 : Z := 2 ^ 64.

(** A [uint64] has at most 20 digits. *)
Definition formatUint (n : Z) : string := string_of (digits 20 n []).

Definition nextMessageIDValue (m : Mapper) : Mapper * string :=
  let n := (m_nextMessageID m + 1) mod maxUint64 in (withNextMessageID n m, "acp-message-" +:+ formatUint n).

(** ** Updates and frames *)

Definition messageUpdate (m : Mapper) (update : object) (providerSessionID : string) : option (Mapper * list Frames.Event) :=
  let text := updateText update in
  if bool_decide (text = "") then Some (m, [])
  else if bool_decide (m_provider m = "codex") && isLegacyCodexWarning text then
    Some (m, [providerWarningEvent m (TrimSpace text) "" providerSessionID])
  else
    let messageID := firstString update ["message_id"; "messageId"; "id"; "session_id"; "sessionId"] in
    let '(m, messageID) := if bool_decide (messageID = "") then nextMessageIDValue m else (m, messageID) in
    events ← messageEventsWithExtra m messageID text providerSessionID (acpMessageExtra update);
    Some (m, events).

Definition thoughtUpdate (m : Mapper) (update : object) (providerSessionID : string) : option (list Frames.Event) :=
  let text := updateText update in
  if bool_decide (text = "") then Some []
  else splitMessageEvents text (messagePayloadBudget m) (λ part,
         event m "agent.activity" [("kind", JString "thinking"); ("text", JString part); ("provider_session_id", JString providerSessionID)]).

Definition failureUpdate (m : Mapper) (update : object) (providerSessionID : string) : option (Mapper * list Frames.Event) :=
  match providerFailureEvent m update providerSessionID with
  | None => Some (m, [])
  | Some (e, false) => Some (m, [e])
  | Some (e, true) =>
      '(m, events) ← finishActiveToolCalls m "Provider failed before returning a tool result.";
      Some (m, events ++ [e; stateEvent m "error" (m_providerSessionID m) [("reason", JString "provider_failure"); ("source", JString "acp")]])
  end.

Definition mapUpdate (m : Mapper) (update : object) (providerSessionID : string) : option (Mapper * list Frames.Event) :=
  let name := frameName update in
  let keep (events : list Frames.Event) := Some (m, events) in
  if bool_decide (name ∈ ["settings_capabilities"; "settings_capability_update"; "settings/update"]) then keep (settingsCapabilityEvent m update)
  else if bool_decide (name ∈ ["settings_change_response"; "settings_effective"]) then keep (settingsEffectiveEvent m update)
  else if bool_decide (name = "available_commands_update") then
    let payload := activityPayload update "available_commands_update" providerSessionID in
    let m := withCommands (providerCommandList payload) m in
    Some (m, event m "agent.activity" payload :: providerCommandsEvent m providerSessionID)
  else if bool_decide (name = "config_option_update") then
    let payload := activityPayload update "config_option_update" providerSessionID in
    let m := withOptions (providerOptionList payload) m in
    Some (m, event m "agent.activity" payload :: providerCommandsEvent m providerSessionID)
  else if bool_decide (name = "plan") then events ← planEvents m update providerSessionID; keep events
  else if bool_decide (name = "plan_update") then events ← planUpdateEvents m update providerSessionID; keep events
  else if bool_decide (name = "plan_removed") then keep (planRemovedEvents m update providerSessionID)
  else if bool_decide (name = "usage_update") then keep [event m "agent.activity" (activityPayload update "usage_update" providerSessionID)]
  else if bool_decide (name = "agent_thought_chunk") then events ← thoughtUpdate m update providerSessionID; keep events
  else if bool_decide (name = "session_info_update") then failureUpdate m update providerSessionID
  else if bool_decide (name ∈ ["agent_message_chunk"; "prompt_response"]) then messageUpdate m update providerSessionID
  else if bool_decide (name ∈ ["tool_use"; "tool_call"]) then toolCallEvents m update false
  else if bool_decide (name ∈ ["tool_call_update"; "tool_result"]) then toolCallEvents m update true
  else if bool_decide (name = "permission_request") then
    keep (permissionRequestEvent m update (firstString update ["request_id"; "requestId"; "id"]) providerSessionID)
  else keep [].

Fixpoint mapUpdates (m : Mapper) (updates : list object) (providerSessionID : string) : option (Mapper * list Frames.Event) :=
  match updates with
  | [] => Some (m, [])
  | update :: updates =>
      '(m, events) ← mapUpdate m update providerSessionID;
      '(m, rest) ← mapUpdates m updates providerSessionID;
      Some (m, events ++ rest)
  end.

Definition mapSessionUpdate (m : Mapper) (raw : object) (providerSessionID : string) : option (Mapper * list Frames.Event) :=
  let providerSessionID := if bool_decide (providerSessionID = "") then stringField raw "session_id" else providerSessionID in
  let providerSessionID :=
    match objectField raw "params" with
    | Some params => if bool_decide (providerSessionID = "") then firstString params ["session_id"; "sessionId"] else providerSessionID
    | None => providerSessionID
    end in
  let source := paramsOf raw in
  mapUpdates m (updateObjects source "update" ++ updateObjects source "updates") providerSessionID.

Definition mapFrame (m : Mapper) (raw : object) (providerSessionID : string) : option (Mapper * list Frames.Event) :=
  let name := frameName raw in
  let metadata := copyWithout raw ["type"; "method"; "session_id"] in
  let ready sid := Some (m, [stateEvent m "ready" sid (copyWithout raw ["type"; "method"; "session_id"; "sessionId"])]) in
  if bool_decide (name = "initialize_response") then
    Some (m, stateEvent m "starting" providerSessionID metadata :: settingsCapabilityEvent m raw)
  else if bool_decide (name = "new_session_response") then
    Some (m, stateEvent m "ready" providerSessionID metadata :: settingsCapabilityEvent m raw)
  else if bool_decide (name ∈ ["session/cancel_response"; "cancel_response"]) then Some (m, [stateEvent m "ready" providerSessionID metadata])
  else if bool_decide (name ∈ ["settings_change_response"; "session/settings/change_response"; "settings_effective"]) then
    Some (m, settingsEffectiveEvent m raw)
  else if bool_decide (name = "session/update") then mapSessionUpdate m raw providerSessionID
  else if bool_decide (name = "session/request_permission") then mapSessionPermissionRequest m raw providerSessionID
  else
    '(m', events) ← jsonRPCErrorEvents m raw;
    match events with
    | _ :: _ => Some (m', events)
    | [] =>
        if bool_decide (sessionIDFromResponse raw ≠ "") then ready (sessionIDFromResponse raw)
        else if stopReasonFrame raw then ready (m_providerSessionID m)
        else mapUpdate m raw providerSessionID
    end.

Definition ErrInvalidACPEvent : error := Err "invalid acp event".

Definition MapLine (m : Mapper) (line : string) : option (error + Mapper * list Frames.Event) :=
  let line := TrimSpace line in
  if bool_decide (line = "") then Some (inr (m, []))
  else
    match decodeObject line with
    | None => Some (inl ErrInvalidACPEvent)
    | Some raw =>
        let sid := firstString raw ["session_id"; "sessionId"] in
        let sid := if bool_decide (sid = "") then match objectField raw "params" with Some params => firstString params ["session_id"; "sessionId"] | None => "" end
                   else sid in
        let m := if bool_decide (sid = "") then m else withProviderSessionID sid m in
        r ← mapFrame m raw sid; Some (inr r)
    end.

(** ** Streams *)

(** The longest line that fits the buffer of the scanner with its end. *)
Definition maxLineBytes : Z := 1024 * 1024 - 1.

(** [bufio.ScanLines]: the lines without their [\n]; the last one counts when it
    is not empty. *)
Definition scanLines (data : list Z) : list (list Z) :=
  let parts := split 10 data in
  match list.last parts with Some [] => take (length parts - 1) parts | _ => parts end.

(** The token of a line: a [\r] at its end is dropped. *)
Definition dropCR (line : list Z) : list Z := match rev line with 13 :: r => rev r | _ => line end.

(** With a context that does not end. *)
Fixpoint mapLines (m : Mapper) (lines : list (list Z)) (acc : list Frames.Event) : option (Mapper * (error + list Frames.Event)) :=
  match lines with
  | [] => Some (m, inr acc)
  | line :: lines =>
      if bool_decide (maxLineBytes < Z.of_nat (length line)) then Some (m, inl ErrInvalidACPEvent)
      else
        r ← MapLine m (string_of (dropCR line));
        match r with
        | inl e => Some (m, inl e)
        | inr (m, events) => mapLines m lines (acc ++ events)
        end
  end.

Definition MapReader (m : Mapper) (data : string) : option (Mapper * (error + list Frames.Event)) := mapLines m (scanLines (bytes_of data)) [].

End mapper.

End Mapper.
