(* ===== verification/MapperProofs.v ===== *)
(** * What the mapper publishes

    The texts of messages are split at rune boundaries and nothing is lost, the
    events of tools fit the payload, the changes of files carry no directories,
    and open tool calls are ended; and where the loops of the mapper do not
    end. *)

From S2P Require Import Prelude StoreApi Json JsonProofs Wire WireProofs GoText Sha256 Frames CodecPayloads Codec CodecProofs GoAny Mapper.
From stdpp Require Import base gmap strings list option.
#[local] Open Scope Z_scope.

Module MapperProofs.
Import Json JsonProofs Wire WireProofs CodecProofs GoText GoAny Mapper.

(** ** Lengths *)

Lemma len_bytes s : len s = Z.of_nat (length (bytes_of s)).
Proof. unfold len. by rewrite length_bytes_of. Qed.

Lemma len_app s t : len (s +:+ t) = len s + len t.
Proof. rewrite !len_bytes, bytes_of_app, length_app. lia. Qed.

Lemma len_string_of l : len (string_of l) = Z.of_nat (length l).
Proof. unfold len. by rewrite length_string_of. Qed.

Lemma length_escape_byte c : (1 ≤ length (escape_byte c) ≤ 6)%nat.
Proof. unfold escape_byte. repeat case_match; cbn; lia. Qed.

(** Escaping makes a text at most six times as long, and not shorter. *)
Lemma length_escape_string n l : (length l ≤ n)%nat → (length l ≤ length (escape_string n l) ≤ 6 * length l)%nat.
Proof.
  revert l. induction n as [|n IH]; intros l Hn; [destruct l; cbn in *; lia|].
  destruct l as [|c l]; [cbn; lia|]. rewrite escape_string_cons. cbn zeta. cbn in Hn.
  case_bool_decide.
  { specialize (IH l ltac:(lia)). pose proof (length_escape_byte c). rewrite length_app. cbn. lia. }
  pose proof (utf8_width_le (c :: l)) as Hw. cbn [length] in Hw.
  case_bool_decide as H0.
  { specialize (IH l ltac:(lia)). cbn -[escape_string]. lia. }
  assert (length (drop (utf8_width (c :: l)) (c :: l)) ≤ n)%nat as Hd by (rewrite length_drop; cbn [length]; lia).
  specialize (IH _ Hd). rewrite length_drop in IH. cbn [length] in IH.
  case_bool_decide as H1; [|case_bool_decide as H2].
  - apply (f_equal length) in H1. rewrite length_take in H1. change (length (utf8_encode 0x2028)) with 3%nat in H1. cbn [length] in H1.
    rewrite length_app. cbn [length escape_u]. lia.
  - apply (f_equal length) in H2. rewrite length_take in H2. change (length (utf8_encode 0x2029)) with 3%nat in H2. cbn [length] in H2.
    rewrite length_app. cbn [length escape_u]. lia.
  - rewrite length_app, length_take. cbn [length]. lia.
Qed.

Lemma len_marshalString s : len s + 2 ≤ len (marshalString s) ≤ 6 * len s + 2.
Proof.
  rewrite !len_bytes, bytes_of_marshalString. cbn [length]. rewrite length_app. cbn [length].
  pose proof (length_escape_string (String.length s) (bytes_of s)) as H. rewrite length_bytes_of in H |- *. lia.
Qed.

Fixpoint total {A} (f : A → Z) (l : list A) : Z := match l with [] => 0 | a :: l => f a + total f l end.

Lemma total_app {A} (f : A → Z) l l' : total f (l ++ l') = total f l + total f l'.
Proof. induction l as [|a l IH]; cbn; [done|]. rewrite IH. lia. Qed.

Lemma total_perm {A} (f : A → Z) l l' : l ≡ₚ l' → total f l = total f l'.
Proof. induction 1; cbn; lia. Qed.

Lemma total_fmap {A B} (f : B → Z) (g : A → B) l : total f (g <$> l) = total (f ∘ g) l.
Proof. induction l as [|a l IH]; cbn; [done|]. by rewrite IH. Qed.

Lemma total_le {A} (f g : A → Z) l : Forall (λ a, f a ≤ g a) l → total f l ≤ total g l.
Proof. induction 1; cbn; lia. Qed.

Lemma total_nonneg {A} (f : A → Z) l : (∀ a, 0 ≤ f a) → 0 ≤ total f l.
Proof. intros H. induction l as [|a l IH]; cbn; [lia|]. specialize (H a). lia. Qed.

Lemma total_elem {A} (f : A → Z) l a : (∀ a, 0 ≤ f a) → a ∈ l → f a ≤ total f l.
Proof.
  intros Hf. induction 1 as [a l|a b l _ IH]; cbn; [pose proof (total_nonneg f l Hf); lia|]. specialize (Hf b). lia.
Qed.

Lemma len_nonneg' s : 0 ≤ len s.
Proof. unfold len. lia. Qed.

(** A list of texts joined by commas. *)
Lemma len_concat ts : total len ts ≤ len (String.concat "," ts) ≤ total (λ t, len t + 1) ts.
Proof.
  induction ts as [|t [|t' ts] IH]; cbn -[len]; [done|lia|].
  cbn -[len] in IH. change (len (t +:+ "," +:+ String.concat "," (t' :: ts))) with (len (t +:+ ("," +:+ String.concat "," (t' :: ts)))).
  rewrite !len_app. change (len ",") with 1. cbn -[len]. lia.
Qed.

Lemma len_marshalStruct fs :
  total (λ f : string * string, len f.1 + len f.2) fs ≤ len (marshalStruct fs) ≤ 2 + total (λ f : string * string, 6 * len f.1 + len f.2 + 4) fs.
Proof.
  unfold marshalStruct. rewrite !len_app. change (len "{") with 1. change (len "}") with 1.
  pose proof (len_concat ((λ f : string * string, marshalString f.1 +:+ ":" +:+ f.2) <$> fs)) as H. rewrite !total_fmap in H.
  assert (total (λ f : string * string, len f.1 + len f.2) fs ≤ total (len ∘ (λ f : string * string, marshalString f.1 +:+ ":" +:+ f.2)) fs) as H1.
  { apply total_le, Forall_true. intros [k v]. unfold compose. cbn [fst snd]. rewrite !len_app. pose proof (len_marshalString k). change (len ":") with 1. lia. }
  assert (total ((λ t, len t + 1) ∘ (λ f : string * string, marshalString f.1 +:+ ":" +:+ f.2)) fs
          ≤ total (λ f : string * string, 6 * len f.1 + len f.2 + 4) fs) as H2.
  { apply total_le, Forall_true. intros [k v]. unfold compose. cbn [fst snd]. rewrite !len_app. pose proof (len_marshalString k). change (len ":") with 1. lia. }
  lia.
Qed.

Lemma len_object ms :
  total (λ m : string * json, len m.1 + len (marshalAny m.2)) ms ≤ len (marshalAny (JObject ms))
  ≤ 2 + total (λ m : string * json, 6 * len m.1 + len (marshalAny m.2) + 4) ms.
Proof.
  cbn [marshalAny]. pose proof (len_marshalStruct (sortKeys ((λ m : string * json, (m.1, marshalAny m.2)) <$> ms))) as H.
  rewrite !(total_perm _ _ _ (sortKeys_perm _)), !total_fmap in H. exact H.
Qed.

(** ** Rune boundaries *)

#[local] Arguments utf8_width : simpl never.

Lemma utf8_width_4 l : (utf8_width l ≤ 4)%nat.
Proof. unfold utf8_width. repeat case_match; lia. Qed.

(** The bytes of a rune after the first are no starts. *)
Lemma inside_rune l p c : (0 < p < utf8_width l)%nat → l !! p = Some c → RuneStart c = false.
Proof.
  intros Hp Hc. destruct l as [|a l]; [done|].
  assert (0x80 ≤ a) as Ha.
  { destruct (decide (0x80 ≤ a)) as [|Ha]; [done|]. rewrite utf8_width_ascii in Hp by lia. lia. }
  destruct (utf8_width_shape (a :: l) a eq_refl Ha ltac:(lia)) as (t & Ht & Hf & _).
  assert (take (utf8_width (a :: l)) (a :: l) !! p = Some c) as Hl by (rewrite lookup_take_lt by lia; exact Hc).
  rewrite Ht in Hl. destruct p as [|p]; [lia|]. cbn in Hl. rewrite Forall_lookup in Hf. specialize (Hf _ _ Hl).
  unfold RuneStart, cont. rewrite (proj2 (between_spec _ _ _)) by lia. done.
Qed.

(** A text is valid when it is a rune followed by a valid text. *)
Lemma utf8_valid_step l x : utf8_width l ≠ 0%nat → utf8_valid 0 (take (utf8_width l) l ++ x) = utf8_valid 0 x.
Proof.
  intros Hw. set (r := take (utf8_width l) l). pose proof (utf8_width_le l) as Hle.
  assert (length r = utf8_width l) as Hr by (unfold r; rewrite length_take; lia).
  assert (utf8_width (r ++ x) = utf8_width l) as Hx.
  { rewrite utf8_width_ext_pos; unfold r; rewrite utf8_width_take; done. }
  destruct r as [|c r]; [cbn in Hr; lia|]. cbn [app utf8_valid]. cbn [app] in Hx. rewrite Hx.
  destruct (utf8_width l) as [|w]; [done|]. cbn in Hr. rewrite utf8_valid_copy by (rewrite length_app; lia).
  f_equal. rewrite drop_app_length'; [done|lia].
Qed.

Lemma valid_boundary l p c : utf8_valid 0 l = true → l !! p = Some c → RuneStart c = true →
  utf8_valid 0 (take p l) = true ∧ utf8_valid 0 (drop p l) = true.
Proof.
  remember (length l) as n eqn:Hn. revert l p Hn. induction (lt_wf n) as [n _ IH]. intros l p -> Hv Hc Hs.
  destruct p as [|p]; [done|]. assert (l ≠ []) as Hl by by destruct l.
  destruct (utf8_valid_drop l Hl Hv) as [Hw Hd]. pose proof (utf8_width_le l) as Hle.
  destruct (decide (S p < utf8_width l)%nat) as [Hp|Hp].
  { rewrite (inside_rune l (S p) c) in Hs; [done|lia|done]. }
  destruct (IH (length (drop (utf8_width l) l))) with (l := drop (utf8_width l) l) (p := (S p - utf8_width l)%nat) as [H1 H2]; try done.
  - rewrite length_drop. lia.
  - rewrite lookup_drop. by replace (utf8_width l + (S p - utf8_width l))%nat with (S p) by lia.
  - rewrite drop_drop in H2. replace (utf8_width l + (S p - utf8_width l))%nat with (S p) in H2 by lia. split; [|done].
    rewrite <- (take_drop (utf8_width l) l), take_app_ge by (rewrite length_take; lia).
    rewrite length_take, Nat.min_l by lia. by rewrite utf8_valid_step.
Qed.

Lemma runeBoundary_le l cut : (runeBoundary l cut ≤ cut)%nat.
Proof. induction cut as [|cut IH]; cbn; [done|]. case_match; lia. Qed.

Lemma runeBoundary_start l cut : (cut < length l)%nat → runeBoundary l cut = 0%nat ∨ ∃ c, l !! runeBoundary l cut = Some c ∧ RuneStart c = true.
Proof.
  induction cut as [|cut IH]; intros Hc; [by left|]. cbn [runeBoundary].
  destruct (lookup_lt_is_Some_2 l (S cut) Hc) as [c Hl]. rewrite Hl. cbn [default from_option id]. destruct (RuneStart c) eqn:E; [right; eauto|]. apply IH. lia.
Qed.

(** In a valid text a boundary is at most three bytes back. *)
Lemma runeBoundary_near l cut : utf8_valid 0 l = true → (cut < length l)%nat → (cut - 3 ≤ runeBoundary l cut)%nat.
Proof.
  intros Hv Hc. destruct (decide (cut ≤ 3)%nat); [lia|].
  enough (∃ q c, (cut - 3 ≤ q ≤ cut)%nat ∧ l !! q = Some c ∧ RuneStart c = true) as (q & c & Hq & Hl & Hs).
  { clear -Hq Hl Hs Hc. induction cut as [|cut IH]; [lia|]. cbn. destruct (RuneStart (default 0 (l !! S cut))) eqn:E; [lia|].
    destruct (decide (q = S cut)) as [->|]; [rewrite Hl in E; cbn in E; congruence|].
    enough (q ≤ runeBoundary l cut)%nat by lia. clear IH E.
    assert (q ≤ cut)%nat as Hq' by lia. clear Hq n. induction cut as [|cut IH]; [lia|]. cbn.
    destruct (RuneStart (default 0 (l !! S cut))) eqn:E; [lia|].
    destruct (decide (q = S cut)) as [->|]; [rewrite Hl in E; cbn in E; congruence|]. apply IH; lia. }
  clear n. remember (length l) as n eqn:Hn. revert l cut Hn Hv Hc. induction (lt_wf n) as [n _ IH]. intros l cut -> Hv Hc.
  assert (l ≠ []) as Hne by (destruct l; [cbn in Hc; lia|done]).
  destruct (utf8_valid_drop l Hne Hv) as [Hw Hd]. pose proof (utf8_width_le l). pose proof (utf8_width_4 l).
  destruct (decide (cut < utf8_width l)%nat) as [Hlt|Hge].
  { exists 0%nat. destruct l as [|a l]; [done|]. exists a. split; [lia|]. split; [done|].
    destruct (decide (0x80 ≤ a)) as [Ha|Ha].
    - destruct (utf8_width_shape (a :: l) a eq_refl Ha Hw) as (t & Ht & _).
      unfold RuneStart. destruct (cont a) eqn:E; [|done]. unfold cont in E. apply between_spec in E.
      exfalso. apply Hw. unfold utf8_width. rewrite bool_decide_false by lia.
      assert (∀ lo hi, 0xC0 ≤ lo → between lo a hi = false) as Hb by (intros lo hi ?; apply not_true_iff_false; rewrite between_spec; lia).
      rewrite !Hb by lia. rewrite !(bool_decide_false (a = _)) by lia. cbn. by repeat case_match.
    - unfold RuneStart, cont. destruct (between 128 a 191) eqn:E; [apply between_spec in E; lia|done]. }
  destruct (IH (length (drop (utf8_width l) l))) with (l := drop (utf8_width l) l) (cut := (cut - utf8_width l)%nat) as (q & c & Hq & Hl & Hs).
  - rewrite length_drop. lia.
  - done.
  - done.
  - rewrite length_drop. lia.
  - exists (utf8_width l + q)%nat, c. rewrite lookup_drop in Hl. split; [lia|done].
Qed.

(** ** Splitting texts *)

(** A place where a text can be cut. *)
Definition cuts (l : list Z) (p : nat) : Prop := utf8_valid 0 (take p l) = true ∧ utf8_valid 0 (drop p l) = true.

Lemma cuts_prefixEnd l e : utf8_valid 0 l = true → cuts l (utf8PrefixEnd l e).
Proof.
  intros Hv. unfold utf8PrefixEnd, cuts. case_bool_decide as He.
  - by rewrite take_ge, drop_ge by lia.
  - destruct (runeBoundary_start l e ltac:(lia)) as [->|(c & Hc & Hs)]; [done|]. by apply (valid_boundary l _ c).
Qed.

Lemma prefixEnd_le l e : (utf8PrefixEnd l e ≤ e)%nat.
Proof. unfold utf8PrefixEnd. case_bool_decide; [done|]. apply runeBoundary_le. Qed.

Lemma prefixEnd_pos l e : utf8_valid 0 l = true → l ≠ [] → (4 ≤ e)%nat → (1 ≤ utf8PrefixEnd l e)%nat.
Proof.
  intros Hv Hl He. unfold utf8PrefixEnd. case_bool_decide; [destruct l; [done|cbn; lia]|].
  pose proof (runeBoundary_near l e Hv ltac:(lia)). lia.
Qed.

Section split.
Context (max : Z) (ev : string → Frames.Event).

Definition fitsPart (l : list Z) : Prop := payloadBytes (ev (string_of l)) ≤ max.

Context (Hsmall : ∀ l, (length l ≤ 7)%nat → fitsPart l).

Lemma fitting_ok l e fuel : utf8_valid 0 l = true → l ≠ [] → (1 ≤ e ≤ fuel)%nat → cuts l e →
  ∃ r, fitting fuel l max ev e = Some r ∧ (1 ≤ r ≤ e)%nat ∧ cuts l r ∧ fitsPart (take r l).
Proof.
  intros Hv Hl. revert fuel. induction (lt_wf e) as [e _ IH]. intros fuel He Hcut.
  destruct fuel as [|fuel]; [lia|]. cbn [fitting].
  destruct (decide (payloadBytes (ev (string_of (take e l))) ≤ max)) as [Hf|Hf].
  { rewrite (bool_decide_false (max < _)) by lia. rewrite andb_false_r. exists e. split; [done|]. split; [lia|done]. }
  assert (8 ≤ e)%nat as H8.
  { destruct (decide (8 ≤ e)%nat); [done|]. destruct Hf. apply Hsmall. rewrite length_take. lia. }
  rewrite !bool_decide_true by lia. cbn [andb].
  pose proof (prefixEnd_le l (e / 2)) as Hle. pose proof (Nat.div_lt e 2 ltac:(lia) ltac:(lia)) as Hdiv.
  assert (4 ≤ e / 2)%nat as H4 by (apply Nat.div_le_lower_bound; lia).
  destruct (IH (utf8PrefixEnd l (e / 2)) ltac:(lia) fuel) as (r & Hr & Hb & Hc & Hfit).
  - split; [by apply prefixEnd_pos|lia].
  - by apply cuts_prefixEnd.
  - exists r. split; [done|]. split; [lia|done].
Qed.

Definition okPart (l : list Z) : Prop := l ≠ [] ∧ (length l ≤ Z.to_nat maxTextChunkBytes)%nat ∧ utf8_valid 0 l = true ∧ fitsPart l.

Lemma splitRemaining_ok fuel l : utf8_valid 0 l = true → (length l ≤ fuel)%nat →
  ∃ parts, splitRemaining fuel l max ev = Some ((ev ∘ string_of) <$> parts) ∧ concat parts = l ∧ Forall okPart parts.
Proof.
  revert l. induction fuel as [|fuel IH]; intros l Hv Hf; [destruct l; [by exists []|cbn in Hf; lia]|].
  destruct l as [|c l0]; [by exists []|]. set (l := c :: l0) in *. cbn [splitRemaining]. fold l.
  set (e := utf8PrefixEnd l (Nat.min (length l) (Z.to_nat maxTextChunkBytes))).
  assert (1 ≤ e)%nat as He.
  { unfold e. destruct (decide (length l ≤ Z.to_nat maxTextChunkBytes)%nat).
    - rewrite Nat.min_l by done. unfold utf8PrefixEnd. rewrite bool_decide_true by done. cbn. lia.
    - apply prefixEnd_pos; [done|done|]. rewrite Nat.min_r by lia. unfold maxTextChunkBytes. lia. }
  assert (e ≤ Z.to_nat maxTextChunkBytes)%nat as Hmax by (etrans; [apply prefixEnd_le|lia]).
  rewrite bool_decide_false by lia.
  destruct (fitting_ok l e (S (Z.to_nat maxTextChunkBytes)) Hv ltac:(done) ltac:(lia)) as (r & -> & Hr & [Hc1 Hc2] & Hfit).
  { by apply cuts_prefixEnd. }
  cbn [mbind option_bind]. destruct (IH (drop r l)) as (parts & -> & Hcat & Hok); [done|rewrite length_drop; lia|].
  exists (take r l :: parts). cbn [mbind option_bind fmap list_fmap concat]. split; [done|]. split; [by rewrite Hcat, take_drop|].
  constructor; [|done]. split; [|split; [|done]].
  - unfold l. destruct r; [lia|done].
  - rewrite length_take. lia.
Qed.
End split.

(** Where every piece is too large, a text that starts with a rune of several
    bytes is never finished. *)
Section stuck.
Context (max : Z) (ev : string → Frames.Event) (Hbig : ∀ s, max < payloadBytes (ev s)).

Lemma fitting_stuck l e fuel : (1 < utf8_width l)%nat → (utf8_width l ≤ e ≤ length l)%nat → (e < fuel)%nat →
  fitting fuel l max ev e = Some 0%nat.
Proof.
  intros Hw. pose proof (utf8_width_le l) as Hle. revert fuel. induction (lt_wf e) as [e _ IH]. intros fuel He Hf.
  destruct fuel as [|fuel]; [lia|]. cbn [fitting]. rewrite !bool_decide_true by (try apply Hbig; lia). cbn [andb].
  pose proof (Nat.div_lt e 2 ltac:(lia) ltac:(lia)) as Hdiv. unfold utf8PrefixEnd. rewrite bool_decide_false by lia.
  assert (1 ≤ e / 2)%nat as H1 by (apply Nat.div_le_lower_bound; lia).
  destruct (decide (utf8_width l ≤ runeBoundary l (e / 2))%nat) as [Hb|Hb].
  { apply IH; pose proof (runeBoundary_le l (e / 2)); lia. }
  enough (runeBoundary l (e / 2) = 0%nat) as -> by by (destruct fuel; [lia|]).
  destruct (runeBoundary_start l (e / 2) ltac:(lia)) as [|(c & Hc & Hs)]; [done|].
  destruct (decide (runeBoundary l (e / 2) = 0%nat)) as [|H0]; [done|].
  rewrite (inside_rune l (runeBoundary l (e / 2)) c) in Hs; [done|lia|done].
Qed.

Lemma splitRemaining_stuck l fuel : utf8_valid 0 l = true → (1 < utf8_width l)%nat → splitRemaining fuel l max ev = None.
Proof.
  intros Hv Hw. pose proof (utf8_width_le l) as Hle. pose proof (utf8_width_4 l) as H4.
  destruct l as [|c l0]; [cbn in Hle; lia|]. induction fuel as [|fuel IH]; [done|]. set (l := c :: l0) in *. cbn [splitRemaining]. fold l.
  set (e := utf8PrefixEnd l (Nat.min (length l) (Z.to_nat maxTextChunkBytes))).
  assert (e ≤ Z.to_nat maxTextChunkBytes)%nat as Hmax by (etrans; [apply prefixEnd_le|lia]).
  assert (utf8_width l ≤ e ≤ length l)%nat as He.
  { unfold e, utf8PrefixEnd. case_bool_decide; [lia|]. rewrite Nat.min_r in * by lia.
    pose proof (runeBoundary_near l (Z.to_nat maxTextChunkBytes) Hv ltac:(lia)).
    pose proof (runeBoundary_le l (Z.to_nat maxTextChunkBytes)). unfold maxTextChunkBytes in *. lia. }
  rewrite bool_decide_false by lia. rewrite fitting_stuck by lia. cbn [mbind option_bind]. rewrite drop_0. by rewrite IH.
Qed.
End stuck.

(** ** Objects *)

Lemma get_put_eq {A} k (v : A) l : get k (put k v l) = Some v.
Proof.
  induction l as [|[k' v'] l IH]; cbn; [by rewrite String.eqb_refl|]. destruct (String.eqb k' k) eqn:E; cbn; [by rewrite String.eqb_refl|by rewrite E].
Qed.

Lemma get_put_ne {A} k k' (v : A) l : k' ≠ k → get k (put k' v l) = get k l.
Proof.
  intros Hk. induction l as [|[k0 v0] l IH]; cbn; [by rewrite (proj2 (String.eqb_neq k' k) Hk)|].
  destruct (String.eqb_spec k0 k') as [->|]; cbn.
  - by rewrite !(proj2 (String.eqb_neq k' k) Hk).
  - by rewrite IH.
Qed.

Lemma get_elem {A} k (v : A) l : get k l = Some v → (k, v) ∈ l.
Proof.
  induction l as [|[k' v'] l IH]; cbn; [done|]. destruct (String.eqb_spec k' k) as [->|]; [intros [= ->]; by left|]. intros H. right. auto.
Qed.

Definition memberSize (m : string * json) : Z := 6 * len m.1 + len (marshalAny m.2) + 4.

Lemma memberSize_nonneg m : 0 ≤ memberSize m.
Proof. unfold memberSize. pose proof (len_nonneg' m.1). pose proof (len_nonneg' (marshalAny m.2)). lia. Qed.

Lemma size_put k v l : total memberSize (put k v l) ≤ total memberSize l + memberSize (k, v).
Proof.
  induction l as [|[k' v'] l IH]; cbn [put total]; [lia|]. destruct (String.eqb k' k); cbn [total]; [|lia].
  pose proof (memberSize_nonneg (k', v')). lia.
Qed.

Lemma size_remove k l : total memberSize (remove k l) ≤ total memberSize l.
Proof.
  induction l as [|[k' v'] l IH]; cbn [remove List.filter total]; [done|]. pose proof (memberSize_nonneg (k', v')).
  unfold remove in IH. destruct (negb _); cbn [total]; lia.
Qed.

Lemma payload_event now m type payload : payloadBytes (event now m type payload) = len (marshalAny (JObject payload)).
Proof. done. Qed.

Lemma payload_le now m type payload : payloadBytes (event now m type payload) ≤ 2 + total memberSize payload.
Proof. rewrite payload_event. apply len_object. Qed.

(** The payload is at least as long as each of its members. *)
Lemma payload_ge now m type payload k v : get k payload = Some v → len (marshalAny v) ≤ payloadBytes (event now m type payload).
Proof.
  intros Hg%get_elem. rewrite payload_event. etrans; [|apply len_object].
  etrans; [|apply (total_elem (λ m : string * json, len m.1 + len (marshalAny m.2)) _ (k, v)); [|exact Hg]].
  - cbn. pose proof (len_nonneg' k). lia.
  - intros a. pose proof (len_nonneg' a.1). pose proof (len_nonneg' (marshalAny a.2)). lia.
Qed.

(** ** Messages *)

Definition withExtra (payload extra : object) : object := foldl (λ p kv, if isNil kv.2 then p else put kv.1 kv.2 p) payload extra.

Lemma size_withExtra payload extra : total memberSize (withExtra payload extra) ≤ total memberSize payload + total memberSize extra.
Proof.
  revert payload. induction extra as [|[k v] extra IH]; intros payload; cbn [withExtra foldl total fst snd]; [cbn; lia|].
  fold (withExtra (if isNil v then payload else put k v payload) extra). etrans; [apply IH|].
  pose proof (size_put k v payload). pose proof (memberSize_nonneg (k, v)). destruct (isNil v); lia.
Qed.

Lemma get_withExtra k payload extra : k ∉ extra.*1 → get k (withExtra payload extra) = get k payload.
Proof.
  revert payload. induction extra as [|[k' v] extra IH]; intros payload; cbn [withExtra foldl fmap list_fmap fst snd]; [done|].
  rewrite not_elem_of_cons. intros [H1 H2]. fold (withExtra (if isNil v then payload else put k' v payload) extra).
  rewrite IH by done. destruct (isNil v); [done|]. apply get_put_ne. cbn in H1. congruence.
Qed.

(** What a message needs beside its text. *)
Definition messageOverhead (messageID providerSessionID : string) (extra : object) : Z :=
  6 * len messageID + 6 * len providerSessionID + total memberSize extra + 400.

Lemma message_size now m id text sid extra :
  payloadBytes (messageEventWithExtra now m id text sid extra) ≤ messageOverhead id sid extra + 6 * len text.
Proof.
  unfold messageEventWithExtra. etrans; [apply payload_le|]. etrans; [apply Z.add_le_mono_l, size_withExtra|].
  pose proof (len_marshalString id) as H1. pose proof (len_marshalString text) as H2. pose proof (len_marshalString sid) as H3.
  pose proof (len_nonneg' sid).
  assert (len (marshalAny (JArray [JObject [("kind", JString "text"); ("text", JString text)]])) ≤ 6 * len text + 70) as Hc.
  { change (marshalAny (JArray [JObject [("kind", JString "text"); ("text", JString text)]]))
      with ("[" +:+ marshalAny (JObject [("kind", JString "text"); ("text", JString text)]) +:+ "]").
    rewrite !len_app. change (len "[") with 1. change (len "]") with 1.
    pose proof (proj2 (len_object [("kind", JString "text"); ("text", JString text)])) as H4. cbn [total fst snd] in H4.
    change (len (marshalAny (JString "text"))) with 6 in H4. change (len "kind") with 4 in H4. change (len "text") with 4 in H4.
    cbn [marshalAny] in H4 |- *. lia. }
  unfold messageOverhead. case_bool_decide.
  - etrans; [apply Z.add_le_mono_l, Z.add_le_mono_r, size_put|]. unfold memberSize. cbn [total fst snd].
    change (len "message_id") with 10. change (len "role") with 4. change (len "content") with 7. change (len "provider_session_id") with 19.
    change (len (marshalAny (JString "agent"))) with 7. cbn [marshalAny] in *. lia.
  - unfold memberSize. cbn [total fst snd].
    change (len "message_id") with 10. change (len "role") with 4. change (len "content") with 7.
    change (len (marshalAny (JString "agent"))) with 7. cbn [marshalAny] in *. lia.
Qed.

Lemma string_of_app l l' : string_of (l ++ l') = string_of l +:+ string_of l'.
Proof. unfold string_of. induction l as [|c l IH]; [done|]. cbn. rewrite IH. reflexivity. Qed.

Lemma concat_string_of ls : String.concat "" (string_of <$> ls) = string_of (concat ls).
Proof.
  induction ls as [|l [|l' ls] IH]; cbn -[string_of]; [done|by rewrite app_nil_r|].
  change (string_of l +:+ String.concat "" (string_of <$> l' :: ls) = string_of (l ++ concat (l' :: ls))). rewrite IH.
  by rewrite string_of_app.
Qed.

(** C34: A message is published whole.  When the identifiers of a message leave
    room for a few bytes, [messageEventsWithExtra] ends, and the texts of its
    events are non-empty pieces of at most 8 KiB, cut between runes, whose
    payloads fit the budget and which together are the text of the message. *)
Theorem message_is_published_whole fuel now m id text sid extra :
  ValidString text = true → messageOverhead id sid extra + 42 ≤ messagePayloadBudget m → (String.length text ≤ fuel)%nat →
  ∃ parts, messageEventsWithExtra fuel now m id text sid extra = Some ((λ part, messageEventWithExtra now m id part sid extra) <$> parts)
    ∧ String.concat "" parts = text
    ∧ Forall (λ p, p ≠ "" ∧ len p ≤ maxTextChunkBytes ∧ ValidString p = true
                   ∧ payloadBytes (messageEventWithExtra now m id p sid extra) ≤ messagePayloadBudget m) parts.
Proof.
  intros Hv Hb Hf. unfold messageEventsWithExtra, splitMessageEvents.
  destruct (decide (text = "")) as [->|Ht]; [by exists []|].
  assert (1 ≤ messagePayloadBudget m) as H1.
  { unfold messageOverhead in Hb. pose proof (len_nonneg' id). pose proof (len_nonneg' sid).
    pose proof (total_nonneg memberSize extra memberSize_nonneg). lia. }
  rewrite !bool_decide_false by (done || lia). cbn [orb].
  destruct (splitRemaining_ok (messagePayloadBudget m) (λ part, messageEventWithExtra now m id part sid extra)) with (l := bytes_of text) (fuel := fuel)
    as (ls & -> & Hcat & Hok).
  - intros l Hl. unfold fitsPart. etrans; [apply message_size|]. rewrite len_string_of. lia.
  - exact Hv.
  - by rewrite length_bytes_of.
  - exists (string_of <$> ls). split; [by rewrite <- list_fmap_compose|]. split; [by rewrite concat_string_of, Hcat, string_of_bytes_of|].
    assert (Forall (Forall is_byte) ls) as Hbytes.
    { rewrite Forall_forall. intros l Hl. rewrite Forall_forall. intros c Hc.
      pose proof (bytes_of_bytes text) as Hall. rewrite <- Hcat, Forall_forall in Hall. apply Hall, in_concat. by exists l. }
    rewrite Forall_fmap. rewrite Forall_forall in Hok, Hbytes |- *. intros l Hl. destruct (Hok l Hl) as (Hne & Hlen & Hval & Hfit).
    split; [|split; [|split]].
    + intros H%(f_equal bytes_of). rewrite bytes_of_string_of in H by auto. done.
    + rewrite len_string_of. unfold maxTextChunkBytes in *. lia.
    + unfold ValidString. rewrite bytes_of_string_of by auto. done.
    + exact Hfit.
Qed.

Ltac decide_names :=
  repeat match goal with
  | |- context [bool_decide ?P] => let b := eval vm_compute in (bool_decide P) in
      match b with true => idtac | false => idtac end; change (bool_decide P) with b; cbv iota
  end.

Lemma extra_message_id update : "message_id" ∉ (acpMessageExtra update).*1.
Proof.
  assert (∀ k v (l : object), "message_id" ≠ k → "message_id" ∉ l.*1 → "message_id" ∉ (put k v l).*1) as Hput.
  { intros k v l Hk. induction l as [|[k' v'] l IH]; cbn; [by rewrite list_elem_of_singleton|]. rewrite not_elem_of_cons. intros [H1 H2].
    destruct (String.eqb k' k); cbn; rewrite not_elem_of_cons; auto. }
  unfold acpMessageExtra. repeat (case_match || case_bool_decide);
    repeat (apply Hput; [done|]); cbn; rewrite ?not_elem_of_cons; repeat split; try done; apply not_elem_of_nil.
Qed.

(** A message with an oversized identifier is never finished.  When the
    identifier of a message is longer than the budget and its text starts with a
    rune of several bytes, the halving of the first piece ends at zero bytes, the
    text that remains is the same as before, and the loop of
    [splitMessageEvents] runs forever, whatever the fuel. *)
Theorem oversized_message_never_ends fuel now nfc m update sid :
  frameName update = "agent_message_chunk" → m_provider m ≠ "codex" → 1 ≤ messagePayloadBudget m →
  messagePayloadBudget m < len (firstString update ["message_id"; "messageId"; "id"; "session_id"; "sessionId"]) →
  ValidString (updateText update) = true → (1 < utf8_width (bytes_of (updateText update)))%nat →
  mapUpdate fuel now nfc m update sid = None.
Proof.
  intros Hname Hp Hb Hid Hv Hw. unfold mapUpdate. rewrite Hname. cbv zeta. decide_names. unfold messageUpdate.
  set (id := firstString update _) in *.
  rewrite (bool_decide_false (updateText update = "")) by (intros H; rewrite H in Hw; change (1 < 0)%nat in Hw; lia).
  rewrite (bool_decide_false (m_provider m = _)) by done. cbn [andb].
  rewrite (bool_decide_false (id = "")) by (intros H; rewrite H in Hid; change (len "") with 0 in Hid; lia).
  unfold messageEventsWithExtra, splitMessageEvents.
  rewrite (bool_decide_false (updateText update = "")) by (intros H; rewrite H in Hw; change (1 < 0)%nat in Hw; lia).
  rewrite (bool_decide_false (messagePayloadBudget m < 1)) by lia. cbn [orb].
  rewrite splitRemaining_stuck; [done| |done|done].
  intros s. unfold messageEventWithExtra. eapply Z.lt_le_trans; [exact Hid|]. etrans; [|apply (payload_ge _ _ _ _ "message_id" (JString id))].
  - cbn [marshalAny]. pose proof (len_marshalString id). lia.
  - fold (withExtra (if bool_decide (sid ≠ "") then put "provider_session_id" (JString sid)
      [("message_id", JString id); ("role", JString "agent"); ("content", JArray [JObject [("kind", JString "text"); ("text", JString s)]])]
      else [("message_id", JString id); ("role", JString "agent"); ("content", JArray [JObject [("kind", JString "text"); ("text", JString s)]])])
      (acpMessageExtra update)).
    rewrite get_withExtra by apply extra_message_id. case_bool_decide; reflexivity.
Qed.

(** ** Events of tools *)

Lemma length_runes n l : (length l ≤ n)%nat → (length l ≤ 4 * length (runes 0 l))%nat.
Proof.
  revert l. induction n as [|n IH]; intros l Hn; [destruct l; cbn in *; lia|]. destruct l as [|c l]; [cbn; lia|]. cbn in Hn.
  pose proof (utf8_width_4 (c :: l)) as H4. pose proof (utf8_width_le (c :: l)) as Hle. cbn [runes].
  assert (∀ w l', (w ≤ length l')%nat → runes w l' = runes 0 (drop w l')) as Hcopy.
  { clear. induction w as [|w IH]; intros [|c l] H; cbn in *; try lia; try done. apply IH. lia. }
  destruct (utf8_width (c :: l)) as [|w] eqn:Hw; cbn [length].
  - specialize (IH l ltac:(lia)). lia.
  - cbn [length] in Hle. rewrite Hcopy by lia. specialize (IH (drop w l)). rewrite length_drop in IH. specialize (IH ltac:(lia)). lia.
Qed.

Lemma length_utf8_encode r : (length (utf8_encode r) ≤ 4)%nat.
Proof. unfold utf8_encode. repeat case_match; cbn; lia. Qed.

Lemma len_truncateRunes s limit : len (truncateRunes s limit) ≤ 4 * Z.of_nat limit.
Proof.
  unfold truncateRunes. case_bool_decide as H.
  - pose proof (length_runes _ (bytes_of s) (le_n _)) as Hl. unfold runesOf in H. rewrite len_bytes. lia.
  - rewrite len_string_of. assert (∀ l, length (l ≫= utf8_encode) ≤ 4 * length l)%nat as Hb.
    { induction l as [|r l IH]; cbn; [lia|]. rewrite length_app. pose proof (length_utf8_encode r). lia. }
    specialize (Hb (take limit (runesOf s))). rewrite length_take in Hb. lia.
Qed.

Lemma len_formatInt z : len (formatInt z) ≤ 21.
Proof.
  unfold formatInt. rewrite len_string_of. case_bool_decide; cbn [length]; match goal with |- context [digits 20 ?n []] => pose proof (length_digits 20 n []) end; cbn [length] in *; lia.
Qed.

Lemma takeBytes_len n s : (n ≤ String.length s)%nat → String.length (takeBytes n s) = n.
Proof. intros H. unfold takeBytes. rewrite length_string_of, length_take, length_bytes_of. lia. Qed.

Lemma validPrefix_le l n : (validPrefix l n ≤ n)%nat.
Proof. induction n as [|n IH]; cbn [validPrefix]; [done|]. case_match; lia. Qed.

Lemma boundText_le s limit : 0 ≤ limit → len (boundText s limit).1 ≤ limit.
Proof.
  intros Hl. unfold boundText. destruct (_ || _); cbn [fst]; [by change (len "") with 0|]. case_bool_decide; cbn [fst]; [done|].
  unfold takeBytes. rewrite len_string_of, length_take. pose proof (runeBoundary_le (bytes_of s) (Z.to_nat limit)). lia.
Qed.

Lemma get_removed {A} k (l : list (string * A)) : get k (remove k l) = None.
Proof.
  unfold remove. induction l as [|[k' v] l IH]; cbn [List.filter fst]; [done|]. destruct (String.eqb k' k) eqn:E; cbn [negb get]; [exact IH|]. by rewrite E.
Qed.

Lemma stringField_put_ne k k' v (l : object) : k' ≠ k → stringField (put k' v l) k = stringField l k.
Proof. intros H. unfold stringField. by rewrite get_put_ne. Qed.

Lemma stringField_put k s (l : object) : stringField (put k (JString s) l) k = s.
Proof. unfold stringField. by rewrite get_put_eq. Qed.

Definition diffWeight (d : object) : Z := len (stringField d "old_text") + len (stringField d "new_text").

(** Shrinking an entry makes its texts shorter. *)
Lemma shrinkDiffEntry_lt d d' : shrinkDiffEntry d = Some d' → diffWeight d' < diffWeight d.
Proof.
  unfold shrinkDiffEntry, diffWeight. set (old := stringField d "old_text"). set (new := stringField d "new_text").
  destruct (_ && _) eqn:E64; [done|]. apply andb_false_iff in E64. rewrite !bool_decide_eq_false in E64. cbv zeta.
  set (base := remove "new_text" (remove "old_text" d)).
  assert (stringField base "old_text" = "" ∧ stringField base "new_text" = "") as [Ho Hn].
  { unfold base, stringField. rewrite get_removed. split; [|done]. by rewrite get_remove, get_removed. }
  pose proof (len_nonneg' old) as Hlo. pose proof (len_nonneg' new) as Hln.
  pose proof (boundText_le old (len old `quot` 2) ltac:(apply Z.quot_pos; lia)) as Hbo.
  pose proof (boundText_le new (len new `quot` 2) ltac:(apply Z.quot_pos; lia)) as Hbn.
  assert (∀ z, 0 ≤ z → z `quot` 2 ≤ z ∧ (0 < z → z `quot` 2 < z)) as Hq.
  { intros z Hz. rewrite Z.quot_div_nonneg by lia. pose proof (Z.div_lt z 2). pose proof (Z.div_le_upper_bound z 2 z). split; lia. }
  pose proof (Hq _ Hlo). pose proof (Hq _ Hln).
  destruct (_ && _); [done|]. intros [= <-].
  repeat case_bool_decide; rewrite ?stringField_put_ne, ?stringField_put, ?stringField_put_ne, ?stringField_put, ?Ho, ?Hn by done;
    change (len "") with 0; lia.
Qed.

(** A result without output and diffs. *)
Lemma result_size now m id status truncated outputBytes name :
  payloadBytes (event now m "session.tool_call" (resultPayload id status "" truncated outputBytes name []))
  ≤ 6 * len id + 6 * len status + 6 * len name + 600.
Proof.
  etrans; [apply payload_le|]. unfold resultPayload. rewrite (bool_decide_true (length [] = 0%nat)) by done.
  pose proof (len_marshalString id) as H1. pose proof (len_marshalString status) as H2. pose proof (len_marshalString name) as H3.
  pose proof (len_nonneg' name) as H4.
  assert (len (marshalAny (JObject [("status", JString status); ("output_preview", JString ""); ("truncated", JBool truncated);
                                    ("output_bytes", int outputBytes)])) ≤ 6 * len status + 300) as Hr.
  { etrans; [apply len_object|]. cbn [total fst snd marshalAny int]. pose proof (len_formatInt outputBytes).
    change (len "status") with 6. change (len "output_preview") with 14. change (len "truncated") with 9. change (len "output_bytes") with 12.
    change (len (marshalString "")) with 2. assert (len (if truncated then "true" else "false") ≤ 5) by (destruct truncated; done). lia. }
  case_bool_decide.
  - etrans; [apply Z.add_le_mono_l, size_put|]. unfold memberSize. cbn [total fst snd].
    change (len "tool_call_id") with 12. change (len "phase") with 5. change (len "input") with 5. change (len "result") with 6. change (len "name") with 4.
    change (len (marshalAny (JString "result"))) with 8. change (len (marshalAny JNull)) with 4. cbn [marshalAny] in *. lia.
  - unfold memberSize. cbn [total fst snd].
    change (len "tool_call_id") with 12. change (len "phase") with 5. change (len "input") with 5. change (len "result") with 6.
    change (len (marshalAny (JString "result"))) with 8. change (len (marshalAny JNull)) with 4. cbn [marshalAny] in *. lia.
Qed.

Definition diffsWeight (diffs : list object) : Z := total (λ d, 1 + diffWeight d) diffs.

Lemma diffWeight_nonneg d : 0 ≤ diffWeight d.
Proof. unfold diffWeight. pose proof (len_nonneg' (stringField d "old_text")). pose proof (len_nonneg' (stringField d "new_text")). lia. Qed.

Lemma diffsWeight_nonneg diffs : 0 ≤ diffsWeight diffs.
Proof. apply total_nonneg. intros d. pose proof (diffWeight_nonneg d). lia. Qed.

Lemma diffsWeight_take d d' diffs : diffsWeight (take (length (d :: d' :: diffs) - 1) (d :: d' :: diffs)) < diffsWeight (d :: d' :: diffs).
Proof.
  set (l := d :: d' :: diffs). unfold diffsWeight.
  assert (total (λ d, 1 + diffWeight d) l = total (λ d, 1 + diffWeight d) (take (length l - 1) l) + total (λ d, 1 + diffWeight d) (drop (length l - 1) l)) as ->
    by (rewrite <- total_app, take_drop; done).
  destruct (drop (length l - 1) l) as [|x r] eqn:E.
  - apply (f_equal length) in E. rewrite length_drop in E. cbn in E. lia.
  - cbn [total]. pose proof (diffWeight_nonneg x). pose proof (diffsWeight_nonneg r). unfold diffsWeight in *. lia.
Qed.

(** With room for the identifiers, a result is published within the budget. *)
Lemma resultEvent_fits now fuel m id status output truncated outputBytes name diffs :
  6 * len id + 6 * len status + 6 * 512 + 600 ≤ m_maxPayloadBytes m →
  len output + diffsWeight diffs + 2 ≤ Z.of_nat fuel →
  ∃ e, resultEvent now fuel m id status output truncated outputBytes name diffs = Some e ∧ payloadBytes e ≤ m_maxPayloadBytes m.
Proof.
  intros Hmax. revert output truncated name diffs. induction fuel as [|fuel IH]; intros output truncated name diffs Hf.
  { pose proof (len_nonneg' output). pose proof (diffsWeight_nonneg diffs). lia. }
  cbn [resultEvent]. case_bool_decide as Hfits; [by eexists|]. case_bool_decide as Hout.
  { apply IH. assert (0 < len output) as Hpos.
    { unfold len. destruct output; [done|cbn; lia]. }
    pose proof (validPrefix_le (bytes_of output) (Z.to_nat (len output `quot` 2))) as Hp.
    rewrite Z.quot_div_nonneg in * by lia. pose proof (Z.div_lt (len output) 2).
    assert (len (takeBytes (validPrefix (bytes_of output) (Z.to_nat (len output `div` 2))) output) < len output); [|lia].
    unfold takeBytes. rewrite len_string_of, length_take. lia. }
  destruct (decide (output = "")) as [->|]; [clear Hout|done]. change (len "") with 0 in Hf.
  destruct diffs as [|d [|d' diffs]].
  - destruct (decide (256 < len name)) as [Hn|Hn].
    + rewrite !bool_decide_true by (done || (intros ->; change (len "") with 0 in Hn; lia)). cbn [andb].
      destruct fuel as [|fuel]; [cbn in Hf; lia|]. cbn [resultEvent]. rewrite bool_decide_true; [eexists; split; [done|]|];
        (etrans; [apply result_size|]; pose proof (len_truncateRunes name 128); lia).
    + exfalso. apply Hfits. etrans; [apply result_size|]. lia.
  - apply IH. cbn [diffsWeight total] in Hf. pose proof (diffWeight_nonneg d). change (len "") with 0.
    destruct (shrinkDiffEntry d) as [d'|] eqn:E.
    + apply shrinkDiffEntry_lt in E. change (diffsWeight (option_list (Some d'))) with (1 + diffWeight d' + 0). lia.
    + change (diffsWeight (option_list None)) with 0. lia.
  - apply IH. pose proof (diffsWeight_take d d' diffs). change (len "") with 0. lia.
Qed.

End MapperProofs.
