(* ===== verification/MapperTools.v ===== *)
(** * Events of tools within their bounds *)

From S2P Require Import Prelude StoreApi Json JsonProofs Wire WireProofs Printable GoText Sha256 Frames CodecPayloads Codec CodecProofs GoAny Mapper MapperProofs.
From Stdlib Require Import Sorted.
From stdpp Require Import base gmap strings list option.
#[local] Open Scope Z_scope.

Module MapperTools.
Import Json JsonProofs Wire WireProofs Printable CodecProofs GoText GoAny Mapper MapperProofs.

(** ** Payloads by their keys *)

Lemma total_submseteq {A} (f : A → Z) l l' : (∀ a, 0 ≤ f a) → l ⊆+ l' → total f l ≤ total f l'.
Proof. intros Hf. induction 1; cbn; try specialize (Hf x); lia. Qed.

Lemma size_by_keys K B (p : object) :
  (∀ k, 0 ≤ B k) → NoDup (fst <$> p) → (∀ k v, get k p = Some v → k ∈ K ∧ memberSize (k, v) ≤ B k) → total memberSize p ≤ total B K.
Proof.
  intros HB Hnd Hp. trans (total B (fst <$> p)).
  - rewrite total_fmap. apply total_le. apply list.Forall_forall. intros [k v] Hm. apply (get_Some k v p Hnd) in Hm. by apply Hp.
  - apply total_submseteq; [done|]. apply NoDup_submseteq; [done|]. intros k ([k' v] & -> & Hm)%list_elem_of_fmap.
    apply (get_Some k' v p Hnd) in Hm. by apply (Hp k' v).
Qed.

Lemma keys_put {A} k (v : A) l : (put k v l).*1 = if bool_decide (k ∈ l.*1) then l.*1 else l.*1 ++ [k].
Proof.
  induction l as [|[k' v'] l IH]; [done|]. cbn [put fmap list_fmap fst]. destruct (String.eqb_spec k' k) as [->|Hk]; cbn [fmap list_fmap fst].
  - rewrite bool_decide_true; [done|]. by left.
  - change (fst <$> put k v l) with ((put k v l).*1). rewrite IH. repeat case_bool_decide; rewrite ?elem_of_cons in *; set_solver.
Qed.

Lemma NoDup_put {A} k (v : A) l : NoDup (fst <$> l) → NoDup (fst <$> put k v l).
Proof.
  intros H. rewrite keys_put. case_bool_decide; [done|]. apply list.NoDup_app. split; [done|]. split; [|apply NoDup_singleton]. set_solver.
Qed.

Lemma get_put {A} k k' (v : A) l : get k (put k' v l) = if bool_decide (k = k') then Some v else get k l.
Proof. case_bool_decide as H; [subst; apply get_put_eq|by apply get_put_ne]. Qed.

Lemma get_remove' {A} k k' (l : list (string * A)) : get k (remove k' l) = if bool_decide (k = k') then None else get k l.
Proof. case_bool_decide as H; [subst; apply get_removed|by apply get_remove]. Qed.

(** ** The payload of a started call *)

Definition okMember (id k : string) (v : json) : Prop :=
  (k = "tool_call_id" ∧ v = JString id) ∨ (k = "phase" ∧ v = JString "start") ∨ (k = "name" ∧ ∃ s, v = JString s) ∨ k = "input"
  ∨ (k = "result" ∧ v = JNull) ∨ (k = "title" ∧ ∃ s, v = JString s) ∨ k = "diffs".

Definition startShape (id : string) (p : object) : Prop := NoDup (fst <$> p) ∧ ∀ k v, get k p = Some v → okMember id k v.

Lemma startShape_put id k v p : startShape id p → okMember id k v → startShape id (put k v p).
Proof.
  intros [Hn Hp] Hk. split; [by apply NoDup_put|]. intros k' v'. rewrite get_put. case_bool_decide as E; [|apply Hp]. intros [= <-]. by subst.
Qed.

Lemma startShape_remove id k p : startShape id p → startShape id (remove k p).
Proof.
  intros [Hn Hp]. split; [by apply NoDup_remove|]. intros k' v'. rewrite get_remove'. case_bool_decide; [done|]. apply Hp.
Qed.

Lemma startShape_base id name input :
  startShape id [("tool_call_id", JString id); ("phase", JString "start"); ("name", JString name); ("input", input); ("result", JNull)].
Proof.
  split; [apply (bool_decide_eq_true_1 (NoDup ["tool_call_id"; "phase"; "name"; "input"; "result"])); reflexivity|]. unfold okMember. intros k v. cbn [get].
  repeat lazymatch goal with |- context [String.eqb ?a k] => destruct (String.eqb_spec a k) as [<-|]; [intros [= <-]; eauto 10|] end.
  intros [=].
Qed.

Lemma ok_diffs id v : okMember id "diffs" v.
Proof. unfold okMember. auto 10. Qed.

Lemma ok_input id v : okMember id "input" v.
Proof. unfold okMember. auto 10. Qed.

Lemma ok_title id s : okMember id "title" (JString s).
Proof. unfold okMember. eauto 10. Qed.

Lemma ok_name id s : okMember id "name" (JString s).
Proof. unfold okMember. eauto 10. Qed.

(** ** What is left at the end *)

Definition truncatedInput : json := JObject [("_truncated", JBool true)].

Lemma truncateField_get key p k :
  get k (truncateField key p) = if bool_decide (k = key) then
      match get key p with
      | Some (JString s) => Some (JString (if bool_decide (256 < len s) then truncateRunes s 128 else s))
      | v => v
      end
    else get k p.
Proof.
  unfold truncateField. destruct (get key p) as [[]|] eqn:E; try (case_bool_decide as H; [by subst|done]).
  case_bool_decide as H1; [rewrite get_put; case_bool_decide; done|]. case_bool_decide as H2; [by subst|done].
Qed.

Lemma NoDup_truncateField key p : NoDup (fst <$> p) → NoDup (fst <$> truncateField key p).
Proof. intros H. unfold truncateField. repeat case_match; try done. by apply NoDup_put. Qed.

Lemma len_truncated s : len (if bool_decide (256 < len s) then truncateRunes s 128 else s) ≤ 512.
Proof. case_bool_decide; [|lia]. pose proof (len_truncateRunes s 128). lia. Qed.

Definition minimalBound (id k : string) : Z :=
  6 * len k + 4 + (if bool_decide (k = "tool_call_id") then 6 * len id + 2
                   else if bool_decide (k ∈ ["name"; "title"]) then 6 * 512 + 2
                   else if bool_decide (k = "input") then 20 else 7).

Lemma minimal_member id p k v : startShape id p → get k (minimalPayload p) = Some v →
  k ∈ ["tool_call_id"; "phase"; "name"; "input"; "result"; "title"] ∧ memberSize (k, v) ≤ minimalBound id k.
Proof.
  intros [_ Hp]. unfold minimalPayload. set (q := if isNil _ then _ else _).
  assert (∀ k v, get k q = Some v → okMember id k v ∧ k ≠ "diffs" ∧ (k = "input" → len (marshalAny v) ≤ 20)) as Hq.
  { clear k v. unfold q. set (r := remove "diffs" p).
    assert (∀ k v, get k r = Some v → okMember id k v ∧ k ≠ "diffs") as Hr.
    { intros k v. unfold r. rewrite get_remove'. case_bool_decide; [done|]. intros Hk. split; [by apply Hp|done]. }
    destruct (isNil (anyField r "input")) eqn:En; intros k v.
    - intros Hk. destruct (Hr k v Hk) as [Hok Hd]. split; [done|]. split; [done|]. intros ->. unfold anyField in En. rewrite Hk in En.
      cbn in En. by destruct v.
    - rewrite get_put. case_bool_decide as Hk.
      + intros [= <-]. subst. split; [apply ok_input|]. split; [done|]. intros _. vm_compute. congruence.
      + intros Hg. destruct (Hr k v Hg) as [Hok Hd]. split; [done|]. split; [done|]. by intros ->. }
  clearbody q. rewrite !truncateField_get. intros Hv.
  pose proof (len_marshalString id) as Hid. unfold memberSize, minimalBound. cbn [fst snd].
  assert (∀ s, len (marshalAny (JString (if bool_decide (256 < len s) then truncateRunes s 128 else s))) ≤ 6 * 512 + 2) as Hs.
  { intros s. cbn [marshalAny]. pose proof (len_marshalString (if bool_decide (256 < len s) then truncateRunes s 128 else s)). pose proof (len_truncated s). lia. }
  destruct (decide (k = "name")) as [->|Hname]; [|destruct (decide (k = "title")) as [->|Htitle]].
  - rewrite bool_decide_true in Hv by done. rewrite (bool_decide_false ("name" = "title")) in Hv by done.
    destruct (get "name" q) as [w|] eqn:E; [|done]. destruct (Hq _ _ E) as ([?|[?|[[_ [s ->]]|[?|[?|[?|?]]]]]] & _); try (destruct_and?; discriminate).
    injection Hv as <-. split; [set_solver|]. specialize (Hs s). change (bool_decide ("name" = "tool_call_id")) with false.
    change (bool_decide ("name" ∈ ["name"; "title"])) with true. cbv iota. lia.
  - rewrite (bool_decide_false ("title" = "name")) in Hv by done. rewrite bool_decide_true in Hv by done.
    destruct (get "title" q) as [w|] eqn:E; [|done]. destruct (Hq _ _ E) as ([?|[?|[?|[?|[?|[[_ [s ->]]|?]]]]]] & _); try (destruct_and?; discriminate).
    injection Hv as <-. split; [set_solver|]. specialize (Hs s). change (bool_decide ("title" = "tool_call_id")) with false.
    change (bool_decide ("title" ∈ ["name"; "title"])) with true. cbv iota. lia.
  - rewrite !bool_decide_false in Hv by done. destruct (Hq _ _ Hv) as (Hok & Hnd & Hin).
    destruct Hok as [[-> ->]|[[-> ->]|[[? _]|[->|[[-> ->]|[[? _]|?]]]]]]; try done; (split; [set_solver|]).
    + change (bool_decide ("tool_call_id" = "tool_call_id")) with true. cbv iota. cbn [marshalAny]. lia.
    + vm_compute. congruence.
    + change (bool_decide ("input" = "tool_call_id")) with false. change (bool_decide ("input" ∈ ["name"; "title"])) with false.
      change (bool_decide ("input" = "input")) with true. cbv iota. specialize (Hin eq_refl). lia.
    + vm_compute. congruence.
Qed.

Lemma minimal_size now m id p : startShape id p →
  payloadBytes (event now m "session.tool_call" (minimalPayload p)) ≤ 6 * len id + 7000.
Proof.
  intros Hp. etrans; [apply payload_le|].
  etrans; [apply Z.add_le_mono_l, (size_by_keys ["tool_call_id"; "phase"; "name"; "input"; "result"; "title"] (minimalBound id))|].
  - intros k. unfold minimalBound. pose proof (len_nonneg' k). pose proof (len_nonneg' id). repeat case_bool_decide; lia.
  - destruct Hp as [Hn _]. unfold minimalPayload. apply NoDup_truncateField, NoDup_truncateField.
    destruct (isNil _); [|apply NoDup_put]; by apply NoDup_remove.
  - intros k v Hk. by apply (minimal_member id p).
  - unfold minimalBound. cbn [total]. repeat match goal with |- context [bool_decide ?P] =>
      let b := eval vm_compute in (bool_decide P) in change (bool_decide P) with b; cbv iota end.
    repeat match goal with |- context [len (String ?a ?b)] => let n := eval vm_compute in (len (String a b)) in change (len (String a b)) with n end. lia.
Qed.

(** ** Shrinking the diffs *)

Lemma shrinkDiffs_ok now fuel m id p diffs : startShape id p → diffsWeight diffs + 2 ≤ Z.of_nat fuel →
  ∃ p', shrinkDiffs now fuel m p diffs = Some p' ∧ startShape id p'.
Proof.
  revert p diffs. induction fuel as [|fuel IH]; intros p diffs Hp Hf; [pose proof (diffsWeight_nonneg diffs); lia|].
  cbn [shrinkDiffs]. case_bool_decide; [|by exists p]. destruct diffs as [|d [|d' diffs]].
  - by exists p.
  - change (diffsWeight [d]) with (1 + diffWeight d + 0) in Hf. pose proof (diffWeight_nonneg d).
    destruct (shrinkDiffEntry d) as [d'|] eqn:E.
    + apply IH; [apply startShape_put; [done|apply ok_diffs]|]. apply shrinkDiffEntry_lt in E. change (diffsWeight [d']) with (1 + diffWeight d' + 0). lia.
    + apply IH; [by apply startShape_remove|]. change (diffsWeight []) with 0. lia.
  - apply IH; [apply startShape_put; [done|apply ok_diffs]|]. pose proof (diffsWeight_take d d' diffs). lia.
Qed.

Lemma diffsOf_compacted p : diffsOf (compactedPayload p) = diffsOf p.
Proof.
  unfold compactedPayload. destruct (anyField p "input") as [| | | | |[|? input]]; try reflexivity. case_bool_decide; [|reflexivity].
  unfold diffsOf, anyField. by rewrite get_put_ne.
Qed.

(** The event of a started call fits, when there is room for its identifier. *)
Lemma boundedToolEvent_fits fuel now m id p : startShape id p → 6 * len id + 7000 ≤ m_maxPayloadBytes m →
  diffsWeight (diffsOf p) + 2 ≤ Z.of_nat fuel →
  ∃ e, boundedToolEvent fuel now m p = Some e ∧ payloadBytes e ≤ m_maxPayloadBytes m.
Proof.
  intros Hp Hmax Hf. unfold boundedToolEvent. cbv zeta. destruct (fits now m p) eqn:E1.
  { eexists. split; [done|]. by apply bool_decide_eq_true in E1. }
  set (c := compactedPayload p). assert (startShape id c) as Hc.
  { unfold c, compactedPayload. destruct (anyField p "input") as [| | | | |[|? input]]; try exact Hp. case_bool_decide; [|exact Hp].
    apply startShape_put; [exact Hp|apply ok_input]. }
  destruct (fits now m c) eqn:E2.
  { eexists. split; [done|]. by apply bool_decide_eq_true in E2. }
  rewrite <- (diffsOf_compacted p) in Hf. fold c in Hf.
  assert (∃ q, match diffsOf c with [] => Some c | _ :: _ => shrinkDiffs now fuel m c (diffsOf c) end = Some q ∧ startShape id q) as (q & Hq & Hs).
  { destruct (diffsOf c) as [|d diffs] eqn:Ed; [by exists c|]. by apply shrinkDiffs_ok. }
  replace (match diffsOf c with [] => Some c | o :: l => shrinkDiffs now fuel m c (o :: l) end) with (Some q)
    by (rewrite <- Hq; by destruct (diffsOf c)).
  cbn [mbind option_bind]. destruct (fits now m q) eqn:E3; eexists; (split; [done|]).
  - by apply bool_decide_eq_true in E3.
  - etrans; [by apply minimal_size|done].
Qed.

(** ** Diffs *)

Lemma acpDiff_spec block name budget diff used : 0 < budget → acpDiff block name budget = Some (diff, used) →
  0 ≤ used ≤ budget ∧ diffWeight diff = used ∧ get "path_base" diff = Some (JString (truncateRunes name maxDiffBaseNameRuneLen)).
Proof.
  intros Hb. unfold acpDiff.
  assert (0 ≤ Z.min (budget `quot` 2) maxDiffTextBytes ∧ budget `quot` 2 ≤ budget) as [Hl Hq].
  { rewrite Z.quot_div_nonneg by lia. pose proof (Z.div_pos budget 2). pose proof (Z.div_le_upper_bound budget 2 budget). unfold maxDiffTextBytes. lia. }
  pose proof (boundText_le (diffText block "oldText") _ Hl) as Ho.
  destruct (boundText (diffText block "oldText") _) as [old oldTruncated]. cbn [fst] in Ho.
  assert (0 ≤ Z.min (budget - len old) maxDiffTextBytes) as Hl' by (unfold maxDiffTextBytes; lia).
  pose proof (boundText_le (diffText block "newText") _ Hl') as Hn.
  destruct (boundText (diffText block "newText") _) as [new newTruncated]. cbn [fst] in Hn.
  destruct (_ && _); [done|]. intros [= <- <-]. pose proof (len_nonneg' old). pose proof (len_nonneg' new).
  split; [lia|]. unfold diffWeight, stringField. cbv zeta.
  split; [f_equal|]; destruct oldTruncated, newTruncated; repeat case_bool_decide; subst;
    repeat (rewrite get_put || (rewrite bool_decide_false by done) || (rewrite bool_decide_true by done)); try done; try (exfalso; auto).
Qed.

Lemma total_last {A} (f : A → Z) l a : total f (l ++ [a]) = total f l + f a.
Proof. rewrite total_app. cbn. lia. Qed.

Definition namedDiff (d : object) : Prop :=
  ∃ name, get "path_base" d = Some (JString (truncateRunes (reducedFileName name) maxDiffBaseNameRuneLen)).

Lemma acpDiffBlocks_spec items diffs budget B : (length diffs ≤ maxToolCallDiffs)%nat → total diffWeight diffs + budget ≤ B → 0 ≤ budget →
  Forall namedDiff diffs →
  let r := acpDiffBlocks items diffs budget in
  (length r ≤ maxToolCallDiffs)%nat ∧ total diffWeight r ≤ B ∧ Forall namedDiff r.
Proof.
  revert diffs budget. induction items as [|item items IH]; intros diffs budget Hl Hb H0 Hn; cbn [acpDiffBlocks]; [split; [done|]; split; [lia|done]|].
  destruct item as [| | | | |block]; try (by apply IH). case_bool_decide; [by apply IH|]. case_bool_decide; [split; [done|]; split; [lia|done]|].
  cbv zeta. case_bool_decide; [by apply IH|]. case_bool_decide; [split; [done|]; split; [lia|done]|].
  destruct (acpDiff _ _ _) as [[diff used]|] eqn:E; [|by apply IH].
  assert (0 < budget) as Hpos by lia. destruct (acpDiff_spec _ _ _ _ _ Hpos E) as (Hu & Hw & Hp). apply IH.
  - rewrite length_app. unfold maxToolCallDiffs in *. cbn [length]. lia.
  - rewrite total_last. lia.
  - lia.
  - apply list.Forall_app. split; [done|]. constructor; [|done]. by eexists.
Qed.

Lemma acpDiffs_spec update :
  (length (acpDiffs update) ≤ maxToolCallDiffs)%nat ∧ total diffWeight (acpDiffs update) ≤ maxDiffSideTotalBytes ∧ Forall namedDiff (acpDiffs update).
Proof.
  unfold acpDiffs. destruct (firstAny update _); try (split; [cbn; lia|split; [done|constructor]]).
  apply acpDiffBlocks_spec; [cbn; lia|cbn [total]; lia|done|constructor].
Qed.

Lemma acpDiffs_weight update : diffsWeight (acpDiffs update) ≤ maxDiffSideTotalBytes + 8.
Proof.
  destruct (acpDiffs_spec update) as (Hl & Ht & _). unfold diffsWeight.
  assert (∀ l, total (λ d, 1 + diffWeight d) l = Z.of_nat (length l) + total diffWeight l) as -> by (induction l; cbn; lia).
  unfold maxToolCallDiffs in Hl. lia.
Qed.

(** ** Names of files *)

(** The rune that a text starts with: its value, and that only a byte of its own
    is below 128. *)
Lemma utf8_decode_range l : Forall is_byte l → utf8_width l ≠ 0%nat →
  0 ≤ utf8_decode (take (utf8_width l) l) < 0x110000 ∧ (utf8_decode (take (utf8_width l) l) < 128 → head l = Some (utf8_decode (take (utf8_width l) l))).
Proof.
  intros Hb. unfold utf8_width. destruct Hb as [|a l Ha Hl]; [done|]. unfold is_byte in *.
  case_bool_decide; [change (take 1 (a :: l)) with [a]; intros _; split; [unfold utf8_decode; lia|done]|].
  destruct Hl as [|b l Hb Hl]; [done|]. destruct (between 194 a 223 && cont b) eqn:E2.
  { intros _. apply andb_true_iff in E2 as [E1%between_spec E2%between_spec]. change (take 2 (a :: b :: l)) with [a; b]. cbn [utf8_decode]. split; [lia|intros ?; exfalso; lia]. }
  destruct Hl as [|c l Hc Hl]; [done|]. destruct (_ && cont c) eqn:E3.
  { intros _. unfold cont in E3. rewrite !andb_true_iff, !orb_true_iff, !andb_true_iff, !bool_decide_eq_true, !between_spec in E3.
    change (take 3 (a :: b :: c :: l)) with [a; b; c]. cbn [utf8_decode]. split; [lia|intros ?; exfalso; lia]. }
  destruct Hl as [|d l Hd Hl]; [done|]. destruct (_ && cont d) eqn:E4; [|done].
  intros _. unfold cont in E4. rewrite !andb_true_iff, !orb_true_iff, !andb_true_iff, !bool_decide_eq_true, !between_spec in E4.
  change (take 4 (a :: b :: c :: d :: l)) with [a; b; c; d]. cbn [utf8_decode]. split; [lia|intros ?; exfalso; lia].
Qed.

Lemma runes_range n l : (length l ≤ n)%nat → Forall is_byte l → Forall (λ r, 0 ≤ r < 0x110000 ∧ (r < 128 → r ∈ l)) (runes 0 l).
Proof.
  revert l. induction n as [|n IH]; intros l Hn Hb; [destruct l; [constructor|cbn in Hn; lia]|]. destruct Hb as [|c l Hc Hb]; [constructor|].
  pose proof (utf8_width_le (c :: l)) as Hle. cbn [runes]. cbn in Hn.
  assert (∀ w l', (w ≤ length l')%nat → runes w l' = runes 0 (drop w l')) as Hcopy.
  { clear. induction w as [|w IH]; intros [|c l] H; cbn in *; try lia; try done. apply IH. lia. }
  destruct (utf8_width (c :: l)) as [|w] eqn:Hw.
  - constructor; [split; [lia|lia]|]. eapply list.Forall_impl; [apply (IH l); [lia|done]|]. cbn. intros r [H1 H2]. split; [done|]. intros H. right. auto.
  - cbn in Hle. destruct (utf8_decode_range (c :: l)) as [H1 H2]; [by constructor|by rewrite Hw|]. rewrite Hw in H1, H2. constructor.
    + split; [done|]. intros H. specialize (H2 H). change (Some c = Some (utf8_decode (take (S w) (c :: l)))) in H2. apply (inj Some) in H2. rewrite <- H2. left.
    + rewrite Hcopy by lia. eapply list.Forall_impl; [apply (IH (drop w l)); [rewrite length_drop; lia|by apply list.Forall_drop]|].
      cbn. intros r [H3 H4]. split; [done|]. intros H. right. apply (subseteq_drop w). auto.
Qed.

Lemma utf8_encode_range r c : 0 ≤ r < 0x110000 → c ∈ utf8_encode r → is_byte c ∧ (c < 128 → c = r).
Proof.
  intros Hr. unfold utf8_encode, is_byte. repeat case_bool_decide; rewrite ?elem_of_cons, ?elem_of_nil; intros Hc;
    repeat match goal with H : _ ∨ _ |- _ => destruct H as [->|H] end; try done; split; try lia; Z.to_euclidean_division_equations; lia.
Qed.

(** Truncation adds no ASCII characters. *)
Lemma truncateRunes_ascii s limit c : c < 128 → c ∈ bytes_of (truncateRunes s limit) → c ∈ bytes_of s.
Proof.
  intros Hc. unfold truncateRunes. case_bool_decide; [done|].
  assert (Forall (λ r, 0 ≤ r < 0x110000 ∧ (r < 128 → r ∈ bytes_of s)) (take limit (runesOf s))) as Hr.
  { apply list.Forall_take, (runes_range _ _ (le_n _)), bytes_of_bytes. }
  rewrite bytes_of_string_of.
  - intros (r & Hcr & Hin)%list_elem_of_bind. rewrite list.Forall_forall in Hr. destruct (Hr r Hin) as [H1 H2].
    destruct (utf8_encode_range r c H1 Hcr) as [_ H3]. rewrite (H3 Hc). apply H2. rewrite <- (H3 Hc). done.
  - apply list.Forall_forall. intros x (r & Hxr & Hin)%list_elem_of_bind. rewrite list.Forall_forall in Hr.
    destruct (Hr r Hin) as [H1 _]. by apply (utf8_encode_range r x).
Qed.

Lemma dropWhile_incl {A} (p : A → bool) l x : x ∈ dropWhile p l → x ∈ l.
Proof. induction l as [|y l IH]; cbn; [done|]. destruct (p y); [|done]. intros H. right. auto. Qed.

Lemma TrimRight_incl s c x : x ∈ bytes_of (TrimRight s c) → x ∈ bytes_of s.
Proof.
  assert (∀ y, y ∈ rev (dropWhile (λ x, bool_decide (x = c)) (rev (bytes_of s))) → y ∈ bytes_of s) as H.
  { intros y Hy. rewrite list_elem_of_In, <- in_rev, <- list_elem_of_In in Hy. apply dropWhile_incl in Hy.
    by rewrite list_elem_of_In, <- in_rev, <- list_elem_of_In in Hy. }
  unfold TrimRight. rewrite bytes_of_string_of; [apply H|]. apply list.Forall_forall. intros y Hy.
  pose proof (bytes_of_bytes s) as Hb. rewrite list.Forall_forall in Hb. auto.
Qed.

Lemma replaceByte_gone a b s : a ≠ b → is_byte b → a ∉ bytes_of (replaceByte a b s).
Proof.
  intros Hab Hb. unfold replaceByte. rewrite bytes_of_string_of.
  - intros (c & Hc & _)%list_elem_of_fmap. case_bool_decide; congruence.
  - apply list.Forall_fmap. eapply list.Forall_impl; [apply bytes_of_bytes|]. cbn. intros c Hc. by case_bool_decide.
Qed.

Lemma split_part_elem sep l part x : part ∈ split sep l → x ∈ part → x ≠ sep ∧ x ∈ l.
Proof.
  revert part. induction l as [|c l IH]; intros part; cbn [split].
  - intros ->%list_elem_of_singleton. by rewrite elem_of_nil.
  - case_bool_decide as Hc.
    + rewrite elem_of_cons. intros [->|Hp]; [by rewrite elem_of_nil|]. intros Hx. destruct (IH part Hp Hx). split; [done|by right].
    + destruct (split sep l) as [|q parts]; rewrite elem_of_cons; intros [->|Hp] Hx.
      * apply list_elem_of_singleton in Hx. subst. split; [done|by left].
      * by rewrite elem_of_nil in Hp.
      * apply elem_of_cons in Hx as [->|Hx]; [split; [done|by left]|]. destruct (IH q (list_elem_of_here _ _) Hx). split; [done|by right].
      * destruct (IH part (list_elem_of_further _ _ _ Hp) Hx). split; [done|by right].
Qed.

Lemma boundText_incl s limit x : x ∈ bytes_of (boundText s limit).1 → x ∈ bytes_of s.
Proof.
  unfold boundText. destruct (_ || _); [by rewrite elem_of_nil|]. case_bool_decide; [done|]. cbn [fst]. unfold takeBytes.
  rewrite bytes_of_string_of by apply list.Forall_take, bytes_of_bytes. apply subseteq_take.
Qed.

(** A reduced name has no separators of directories. *)
Lemma reducedFileName_base reference x : x ∈ bytes_of (reducedFileName reference) → x ≠ 47 ∧ x ≠ 92.
Proof.
  unfold reducedFileName. cbv zeta. case_bool_decide; [by rewrite elem_of_nil|].
  set (t := match afterFirst _ _ with Some l => string_of l | None => _ end). set (u := TrimRight _ _).
  assert (∀ y, y ∈ bytes_of u → y ≠ 92) as Hu.
  { intros y Hy%TrimRight_incl ->. apply (replaceByte_gone 92 47 t) in Hy; done. }
  destruct (boundText (default "" (list.last (Split u 47))) maxPlanEntryTextBytes) as [name truncated] eqn:E.
  destruct truncated; [by rewrite elem_of_nil|]. intros Hx. assert (name = (boundText (default "" (list.last (Split u 47))) maxPlanEntryTextBytes).1) as -> by by rewrite E.
  apply boundText_incl in Hx. destruct (list.last (Split u 47)) as [part|] eqn:El; [|by rewrite elem_of_nil in Hx]. cbn [default from_option id] in Hx.
  apply last_Some_elem_of in El. unfold Split in El. apply list_elem_of_fmap in El as (l & -> & Hl).
  assert (Forall is_byte l) as Hb.
  { apply list.Forall_forall. intros y Hy. destruct (split_part_elem _ _ _ _ Hl Hy) as [_ H1]. pose proof (bytes_of_bytes u) as Hb. rewrite list.Forall_forall in Hb. auto. }
  rewrite bytes_of_string_of in Hx by done. destruct (split_part_elem _ _ _ _ Hl Hx) as [H1 H2]. split; [done|]. by apply Hu.
Qed.

(** C37: the diffs that go with a tool call carry at most eight files and 24 KiB of
    text, and name each file by its base name: no path separator is left,
    whatever the Provider sent as a path or a URI. *)
Theorem diffs_carry_no_directories update :
  (length (acpDiffs update) ≤ maxToolCallDiffs)%nat
  ∧ total (λ d, len (stringField d "old_text") + len (stringField d "new_text")) (acpDiffs update) ≤ maxDiffSideTotalBytes
  ∧ Forall (λ diff, ∃ base, get "path_base" diff = Some (JString base) ∧ len base ≤ 512 ∧ 47 ∉ bytes_of base ∧ 92 ∉ bytes_of base) (acpDiffs update).
Proof.
  destruct (acpDiffs_spec update) as (Hl & Ht & Hn). split; [done|]. split; [exact Ht|].
  eapply list.Forall_impl; [exact Hn|]. cbn. intros diff [name Hname]. eexists. split; [exact Hname|].
  split; [pose proof (len_truncateRunes (reducedFileName name) maxDiffBaseNameRuneLen); unfold maxDiffBaseNameRuneLen in *; lia|].
  split; intros H%truncateRunes_ascii; try done; apply reducedFileName_base in H; lia.
Qed.

(** ** Events of a tool call *)

Lemma toolOutputPreview_le v : len (toolOutputPreview v).1.1 ≤ maxToolOutputPreviewBytes.
Proof.
  unfold toolOutputPreview. destruct v; [done|..]; (case_bool_decide; [done|]); cbn [fst]; unfold takeBytes;
    rewrite len_string_of, length_take;
    match goal with |- context [validPrefix ?l ?n] => pose proof (validPrefix_le l n) end; unfold maxToolOutputPreviewBytes in *; lia.
Qed.

Lemma objectsOf_arrayOf l : objectsOf (JObject <$> l) = l.
Proof. unfold objectsOf. induction l as [|a l IH]; [done|]. cbn. f_equal. exact IH. Qed.

Lemma resultStatus_len status r : resultStatus status = Some r → len r ≤ 9.
Proof. unfold resultStatus. repeat case_bool_decide; intros [= <-]; vm_compute; congruence. Qed.

(** The payload of a start, with its diffs and its title. *)
Lemma start_payload id name input title diffs (p : object) :
  let base := [("tool_call_id", JString id); ("phase", JString "start"); ("name", JString name); ("input", input); ("result", JNull)] in
  let withDiffs (p : object) := if bool_decide (length diffs = 0%nat) then p else put "diffs" (arrayOf diffs) p in
  let withTitle (p : object) := if bool_decide (title ≠ "") then put "title" (JString title) p else p in
  p = withTitle (withDiffs base) ∨ p = withDiffs (withTitle base) → startShape id p ∧ diffsOf p = diffs.
Proof.
  cbv zeta. intros Hp. assert (∀ p, startShape id p → startShape id (if bool_decide (title ≠ "") then put "title" (JString title) p else p)) as Ht.
  { intros q Hq. case_bool_decide; [|done]. by apply startShape_put, ok_title. }
  assert (∀ p, startShape id p → startShape id (if bool_decide (length diffs = 0%nat) then p else put "diffs" (arrayOf diffs) p)) as Hd.
  { intros q Hq. destruct diffs; [exact Hq|]. by apply startShape_put, ok_diffs. }
  pose proof (startShape_base id name input) as Hb. split; [destruct Hp as [-> | ->]; auto|]. clear Ht Hd Hb.
  unfold diffsOf, anyField. destruct diffs as [|d diffs]; [|rewrite (bool_decide_false (length (d :: diffs) = 0%nat)) in Hp by done].
  - rewrite (bool_decide_true (length (@nil object) = 0%nat)) in Hp by done. destruct Hp as [-> | ->]; case_bool_decide; try rewrite get_put_ne by done; reflexivity.
  - replace (get "diffs" p) with (Some (arrayOf (d :: diffs))); [apply (objectsOf_arrayOf (d :: diffs))|].
    destruct Hp as [-> | ->]; case_bool_decide; rewrite ?(get_put_ne "diffs" "title") by done; by rewrite get_put_eq.
Qed.

Lemma event_type now m type payload : Frames.ev_Type (event now m type payload) = type.
Proof. reflexivity. Qed.


(** ** A result that does not end *)

Lemma resultPayload_id id status output truncated outputBytes name diffs :
  get "tool_call_id" (resultPayload id status output truncated outputBytes name diffs) = Some (JString id).
Proof. unfold resultPayload. repeat case_bool_decide; rewrite ?get_put_ne by done; reflexivity. Qed.

(** The name is cut to 128 runes while it is longer than 256 bytes: a name of
    fewer, longer runes stays as it is, and the loop goes on when the identifier
    alone is too long for the payload. *)
Lemma resultEvent_stuck now fuel m id status output truncated outputBytes name diffs :
  m_maxPayloadBytes m < len id → 256 < len name → (length (runesOf name) ≤ 128)%nat →
  resultEvent now fuel m id status output truncated outputBytes name diffs = None.
Proof.
  intros Hid Hname Hrunes. revert output truncated diffs. induction fuel as [|fuel IH]; intros output truncated diffs; [done|].
  cbn [resultEvent]. cbv zeta.
  pose proof (payload_ge now m "session.tool_call" _ _ _ (resultPayload_id id status output truncated outputBytes name diffs)) as Hp.
  cbn [marshalAny] in Hp. pose proof (len_marshalString id) as Hs. rewrite bool_decide_false by lia.
  case_bool_decide; [apply IH|]. destruct diffs as [|d [|d' diffs]]; [|apply IH|apply IH].
  rewrite (bool_decide_true (name ≠ "")), (bool_decide_true (256 < len name)) by (done || (intros ->; done)). cbn [andb].
  unfold truncateRunes. rewrite bool_decide_true by done. apply IH.
Qed.

(** A result for a call with such an identifier and name never comes: the mapper
    does not return, however long it runs. *)
Theorem oversized_result_never_ends fuel now m update result :
  m_maxPayloadBytes m < len (firstString update ["tool_call_id"; "toolCallId"; "tool_use_id"; "toolUseId"; "id"]) →
  0 ≤ m_maxPayloadBytes m →
  firstString update ["status"; "phase"] ∉ ["pending"; "in_progress"; "start"] →
  resultStatus (firstString update ["status"; "phase"]) = Some result →
  256 < len (firstString update ["name"; "kind"; "title"]) → (length (runesOf (firstString update ["name"; "kind"; "title"])) ≤ 128)%nat →
  toolCallEvents fuel now m update true = None.
Proof.
  intros Hid Hmax Hstart Hstatus Hname Hrunes. unfold toolCallEvents. cbv zeta. rewrite bool_decide_false.
  2:{ intros E. rewrite E in Hid. change (len "") with 0 in Hid. lia. }
  cbn [negb orb]. rewrite bool_decide_false by done. rewrite Hstatus. destruct (toolOutputPreview _) as [[preview truncated] outputBytes].
  unfold toolCallResultEventWithDetails. by rewrite resultEvent_stuck.
Qed.

(** ** Ending the calls that are left *)

Lemma sortedIDs_perm ids : sortedIDs ids ≡ₚ base.elements ids.
Proof. unfold sortedIDs. rewrite sortKeys_perm, <- list_fmap_compose. cbn. by rewrite list_fmap_id. Qed.

Definition ordered (l : list string) : Prop := Sorted (λ a b, String.leb a b = true) l.

Lemma insertKey_ordered {A} (m : string * A) l : ordered l.*1 → ordered (insertKey m l).*1.
Proof.
  unfold ordered. induction l as [|m' l IH]; intros Hl; [by repeat constructor|]. cbn [insertKey].
  destruct (String.leb m.1 m'.1) eqn:E; [constructor; [done|by constructor]|].
  inversion Hl as [|?? Hl' Hhd]; subst. specialize (IH Hl'). change (Sorted (λ a b, String.leb a b = true) (m'.1 :: (insertKey m l).*1)). constructor; [done|].
  destruct (String.leb_total m.1 m'.1) as [H|H]; [congruence|].
  destruct l as [|m'' l]; cbn [insertKey]; [by constructor|]. destruct (String.leb m.1 m''.1); constructor; [done|]. by inversion Hhd.
Qed.

Lemma sortedIDs_ordered ids : ordered (sortedIDs ids).
Proof.
  unfold sortedIDs, sortKeys. induction ((λ id, (id, ())) <$> base.elements ids) as [|m l IH]; [constructor|]. cbn [foldr]. by apply insertKey_ordered.
Qed.

Definition unfinishedOutput : string := "Provider exited before returning a tool result.".

(** The event that ends a call which got no result. *)
Definition endOfCall (now : time) (m : Mapper) (id : string) : Frames.Event :=
  event now m "session.tool_call" (resultPayload id "error" unfinishedOutput false (len unfinishedOutput) "" []).

Lemma endOfCall_size now m id : payloadBytes (endOfCall now m id) ≤ 6 * len id + 1000.
Proof.
  unfold endOfCall. etrans; [apply payload_le|]. unfold resultPayload. rewrite (bool_decide_false ("" ≠ "")) by (intros H; by apply H). rewrite bool_decide_true by done.
  cbn [total]. unfold memberSize at 1. cbn [fst snd marshalAny]. pose proof (len_marshalString id).
  repeat match goal with |- context [memberSize (String ?a ?b, ?v)] =>
    let n := eval vm_compute in (memberSize (String a b, v)) in change (memberSize (String a b, v)) with n end.
  change (len "tool_call_id") with 12. lia.
Qed.


End MapperTools.
