(* ===== verification/MapperScenarios.v ===== *)
(** * Runs of the ACP mapper

    Lines of a Provider and the events that become of them; the statements of
    the mapper at concrete inputs.  JSON is written with apostrophes for its
    quotation marks. *)

From S2P Require Import Prelude StoreApi Json Wire GoText Sha256 Frames CodecPayloads GoAny Mapper MapperProofs MapperTools.
From stdpp Require Import base gmap strings list option.
#[local] Open Scope Z_scope.

Module MapperScenarios.
Import Json Wire GoText GoAny Mapper MapperProofs MapperTools.

Definition quoted (s : string) : string := string_of ((λ c, if bool_decide (c = 39) then 34 else c) <$> bytes_of s).

Definition mapper : Mapper := mkMapper "s1" "claude" 8192 0 "" ∅ [] [].
Definition clock : time := of_UnixMilli 1700000000000.

(** What is read from the payload of an event: identifier, phase and text. *)
Definition brief (e : Frames.Event) : string * string * string :=
  match Frames.ev_Payload e with
  | Raw t => let o := default [] (decodeObject t) in
      (Frames.ev_Type e, firstString o ["tool_call_id"; "message_id"; "state"; "kind"], firstString o ["phase"; "role"; "file_name"])
  | NilRaw => (Frames.ev_Type e, "", "")
  end.

Definition run (m : Mapper) (lines : list string) : option (Mapper * (error + list (string * string * string)))%type :=
  '(m, r) ← MapReader 100 clock id m (quoted (String.concat newline lines));
  Some (m, match r return (error + list (string * string * string))%type with inl e => inl e | inr events => inr (brief <$> events) end).

Definition finalized (m : Mapper) : option (list (string * string * string)) :=
  match Finalize 10 clock m "" with Some (_, events) => Some (List.map brief events) | None => None end.

Definition result {A B} (r : option (A * B)) : option B := match r with Some (_, b) => Some b | None => None end.

(** A turn: a message, a call with its result, and the end of the turn. *)
Definition turn : list string :=
  ["{'type':'session/update','session_id':'p1','update':{'sessionUpdate':'agent_message_chunk','content':{'type':'text','text':'hello'}}}";
   "{'type':'session/update','params':{'updates':[{'sessionUpdate':'tool_call','toolCallId':'t1','kind':'edit','rawInput':{'path':'/w/a.go'}}]}}";
   "{'type':'session/update','params':{'update':{'sessionUpdate':'tool_call_update','toolCallId':'t1','status':'completed','content':[{'type':'diff','path':'/home/u/a.go','oldText':'x','newText':'y'}]}}}";
   "{'id':3,'result':{'stopReason':'end_turn'}}"].

Example turn_events :
  result (run mapper turn)
  = Some (inr [("session.message", "acp-message-1", "agent"); ("session.tool_call", "t1", "start"); ("session.tool_call", "t1", "result");
               ("session.state", "ready", "")]).
Proof. vm_compute. reflexivity. Qed.

(** A line that is no object ends the reading. *)
Example invalid_line : result (run mapper ["{'type':'plan','uri':'file:///home/u/plan.md'}"; "[]"]) = Some (inl ErrInvalidACPEvent).
Proof. vm_compute. reflexivity. Qed.

Example plan_file : result (run mapper ["{'type':'plan','uri':'file:///home/u/plan.md'}"]) = Some (inr [("agent.activity", "plan", "plan.md")]).
Proof. vm_compute. reflexivity. Qed.

Definition started : Mapper := withActive (λ _, {["b"; "a"]}) mapper.

Example closed_events :
  finalized started
  = Some [("session.tool_call", "a", "result"); ("session.tool_call", "b", "result"); ("session.message", "acp-provider-error", "agent");
          ("session.state", "error", "")].
Proof. vm_compute. reflexivity. Qed.

(** A description that comes after the result is published as a start, and the
    call stays out of the open calls: the end of the output does not end it. *)
Definition late : list string :=
  ["{'type':'tool_call','toolCallId':'t1','kind':'edit'}"; "{'type':'tool_call_update','toolCallId':'t1','status':'completed'}";
   "{'type':'tool_call_update','toolCallId':'t1','title':'Edit a.go'}"].

Example late_description_is_not_ended :
  result (run mapper late) = Some (inr [("session.tool_call", "t1", "start"); ("session.tool_call", "t1", "result"); ("session.tool_call", "t1", "start")])
  ∧ match run mapper late with Some (m, _) => finalized m | None => None end = Some [].
Proof. split; vm_compute; reflexivity. Qed.

(** ** Hypotheses that hold *)

Lemma message_is_published_whole_witness :
  ∃ parts, messageEventsWithExtra 5 clock mapper "m1" "hello" "p1" [] = Some ((λ part, messageEventWithExtra clock mapper "m1" part "p1" []) <$> parts)
    ∧ String.concat "" parts = "hello"
    ∧ Forall (λ p, p ≠ "" ∧ len p ≤ maxTextChunkBytes ∧ ValidString p = true
                   ∧ payloadBytes (messageEventWithExtra clock mapper "m1" p "p1" []) ≤ messagePayloadBudget mapper) parts.
Proof. apply (message_is_published_whole 5 clock mapper "m1" "hello" "p1" []); [reflexivity|vm_compute; congruence|cbn; lia]. Defined.

Definition toolUpdate : object := [("toolCallId", JString "t1"); ("title", JString "Edit a.go"); ("status", JString "completed")].



(** An identifier longer than the budget, and a text that starts with a rune of
    two bytes. *)
Definition smallMapper : Mapper := mkMapper "s1" "claude" 4 0 "" ∅ [] [].
Definition longMessage : object :=
  [("sessionUpdate", JString "agent_message_chunk"); ("messageId", JString "message-1"); ("text", JString (string_of [0xC3; 0xA9]))].

Example oversized_message_example fuel : mapUpdate fuel clock id smallMapper longMessage "" = None.
Proof. apply oversized_message_never_ends; vm_compute; try reflexivity; try congruence; lia. Qed.

(** An identifier longer than the limit, and a name of 128 runes of three bytes. *)
Definition longResult : object :=
  [("toolCallId", JString "tool-1"); ("status", JString "completed"); ("name", JString (string_of (concat (repeat [0xE4; 0xB8; 0xAD] 128))))].

Example oversized_result_example fuel : toolCallEvents fuel clock smallMapper longResult true = None.
Proof.
  apply (oversized_result_never_ends fuel clock smallMapper longResult "ok");
    [reflexivity|vm_compute; congruence|apply (bool_decide_eq_false_1 _); reflexivity|reflexivity|vm_compute; congruence|vm_compute; lia].
Qed.

(** ** Fingerprints of settings *)

(** The fingerprint the mapper computes is the one the decoder compares with, for
    every capability of the version the mapper announces. *)
Theorem settings_fingerprint_agrees c :
  CodecPayloads.sc_SchemaVersion c = 1 → CodecPayloads.sc_ModelChange c ∈ ["allowed"; "read_only"] → CodecPayloads.sc_PermissionChange c ∈ ["allowed"; "read_only"] →
  settingsCapabilityFingerprint c = CodecPayloads.settingsCapabilityFingerprint c.
Proof.
  intros Hv Hm Hp. unfold settingsCapabilityFingerprint, CodecPayloads.settingsCapabilityFingerprint. f_equal.
  assert (∀ mode, mode ∈ ["allowed"; "read_only"] → CodecPayloads.appendChangeMode mode = [if bool_decide (mode = "allowed") then 1 else 0]) as Hmode.
  { intros mode. rewrite !elem_of_cons, elem_of_nil. intros [->|[->|[]]]; reflexivity. }
  unfold settingsCapabilityData, CodecPayloads.settingsCapabilityData. rewrite Hv, (Hmode _ Hm), (Hmode _ Hp). reflexivity.
Qed.

End MapperScenarios.
